(* ===== verification/_CoqProject ===== *)
-Q . S2P
Prelude.v
GoStrings.v
Ports.v
Router.v
Vhost.v
Registry.v
Group.v
ListenGroups.v
HttpGroup.v
Control.v
Service.v
ProxyConf.v
Validation.v
Auth.v
NetListener.v
ServerProxy.v
Nathole.v
Metrics.v
ServerPlugins.v
Handlers.v
Health.v
ClientProxy.v
ConfigSource.v
Ranges.v
VisitorConf.v
PluginConf.v
CommonConf.v
AuthBuild.v
Decode.v
ClientLoad.v
Visitors.v
VisitorConn.v
VisitorManager.v
Backoff.v
MsgTransport.v
ClientService.v
ConfigManager.v
ServerMuxProxy.v
Vnet.v
UdpForward.v
HttpAuth.v
HttpReverse.v
Streams.v
UdpWorkers.v
MakeHole.v
ClientApi.v
ServerApi.v
ClientPlugins.v
LegacyIni.v
LegacyConf.v
LegacyLoad.v
LegacyConvert.v
Transport.v
ServerRun.v
Flags.v
SshGateway.v
Commands.v
UdpListener.v
ClientSession.v
WebRoutes.v
VnetPlugin.v
MetricsFanout.v
MsgCodec.v
Clones.v
MuxLoop.v
XtcpTunnel.v
ProxyFactory.v
NatSession.v
PluginNew.v
TunDevice.v
XLog.v
Reconnect.v
HttpPlugin.v
HttpReplies.v
ConnWrap.v
CmdStart.v
