(* ===== verification/Prelude.v ===== *)
(** * A verification library for frp

    frp exposes services of a client, [frpc], behind a server, [frps].  A client logs in to
    the server and keeps a control connection (a session); over it the client asks for
    proxies, and the server opens a port, registers HTTP routes or listens for visitors for
    each of them.  A user connection to a proxy is joined with a work connection, which the
    client makes on request and the server keeps in a pool of the session.  This library
    models the parts of the program that keep state and decide (sources under [src/]) and
    proves what makes them correct.  Definitions keep the names of the source.

    ** How the code is modelled

    - A pure function is a function; an operation on an object takes the state and returns
      the new one; an error is a value of [result]; a panic is [None] or a constructor.
    - Objects that are shared through pointers have an identity ([nat]) and live in a store
      ([PortCtx] in [Ports], groups in [Group], sessions in [Service], wrappers in
      [ClientProxy]).
    - Goroutines are modelled by transition systems ([Inductive] step relations over [rtc])
      or by runs over lists of events; a step is one critical section or one call of
      another component.  Theorems hold for every interleaving.
    - Integers are [Z]; where the width matters they wrap ([wrap32], [wrap64], [mod 2^64]).
      Times are nanoseconds, [time_sub] saturates as [Time.Sub] does.
    - Where Go leaves an order open (iteration over a map) it is an argument ([order] of
      [Acquire]) or the order of [map_to_list], and the theorems do not depend on it.
    - Code that is not under [src/] is an argument: operating system probes, outcomes of
      network and file operations, random values, MD5 ([md5_hex]), [ParseFloat]
      ([parse_scaled]), [IsQualifiedName], JSON ([encode], [decode]), local midnight
      ([midnight]), client plugins, and the answers of server plugins.

    ** Files

    - [Prelude]: results, machine integers, time, lists.  [GoStrings]: the functions of
      [strings] and [strconv] the program uses, on bytes ([ToLower] and [TrimSpace] as on
      ASCII text).
    - [Ports] ([server/ports/ports.go]): a port is free or used and never both, in every run
      ([ports_reachable_wf]); what [Acquire] does on every branch; a proxy gets its random
      port back within a day ([sticky_port]).
    - [Router] ([pkg/util/vhost/router.go], and the searches of [http.go] and [vhost.go]):
      the nested maps of sorted lists implement a table with longest-prefix match
      ([routers_refine_table], against the specification in the module [Spec]); both
      searches are one search over patterns, which ends one pattern before the comment does
      ([vhost_search_order]).
    - [Vhost] ([pkg/util/vhost/vhost.go]): the muxer delivers a connection only to the
      listener the search selects, after authentication.
    - [Registry] ([server/registry/registry.go]): the clients the server knows.
    - [Group], [ListenGroups], [HttpGroup] ([server/group]): load-balancing groups.  [Group]
      is the machinery of [base.go], [listener.go] and [registry.go], over the operations of
      a kind of group; [ListenGroups] instantiates it for TCP, HTTPS and tcpmux; [HttpGroup]
      is the kind without listeners, with the critical sections of [Register] and
      [UnRegister] as single steps.  No group loses or leaks its port or route, closing
      never panics, a request that found the route of a group gets a member unless all have
      left since ([http_groups_serve]), and members take turns.
    - [Control] ([server/control.go], [Manager] of [server/proxy/proxy.go]): the proxies of
      concurrent sessions.  The table of proxies and the resources held are exactly those of
      the sessions, the limit of ports is kept, and a session that ends releases everything.
    - [Service] ([ControlManager], [RegisterControl]): one started session per run ID; where
      each run ID belongs to one client, a client that is shown online has a session that
      will mark it offline.
    - [ProxyConf] ([pkg/config/v1/proxy.go], [pkg/msg/msg.go]) and [Validation]
      ([pkg/config/v1/validation/proxy.go], [NewProxyConfigurerFromMsg]): the server builds
      from a message what the client sent, and accepts it exactly when it is valid;
      subdomains and custom domains do not meet.
    - [Auth] ([pkg/auth/token.go], [pass.go]): the class [Verifier] is what the server asks
      of authentication; tokens and [alwaysPass] are its instances.
    - [NetListener] ([pkg/util/net/listener.go]): the listener inside a process.
    - [ServerProxy] ([server/proxy], [server/visitor/visitor.go], the pool of
      [server/control.go]): [Run] and [Close] of proxies as changes of routes and ports,
      visitors, work connections.
    - [Nathole] ([pkg/nathole]): classification of NATs, recommended behaviours, and the
      controller of hole punching.
    - [Metrics] ([pkg/util/metric], [pkg/metrics/mem]): counters per day and statistics.
    - [ServerPlugins] ([pkg/plugin/server]): the chains of plugins.
    - [Handlers] ([handleConnection], [RegisterWorkConn] and [RegisterVisitorConn] of
      [server/service.go], [handleNewProxy] and [handlePing] of [server/control.go]): the
      messages end to end, composed of the components above, against the interface
      [Verifier].
    - [Health] ([client/health/health.go]), [ClientProxy] ([client/proxy], [pkg/naming]): the
      client's wrapper of a proxy tells the server what its phase says, and [UpdateAll] makes
      the proxies those of the configuration.
    - [ConfigSource] ([pkg/config/source]): the store is durable and atomic under file errors
      and crashes; the union of the sources.  The class [Configurer] is what the sources ask
      of a configuration.  The disk is two files changed by the calls of a save; a crash
      keeps names as the calls left them and may spoil a file that was not synced.
    - [Ranges] ([pkg/config/types/types.go], [ParseRangeNumbers]): ranges of numbers in text.
    - [VisitorConf], [PluginConf], [CommonConf] ([pkg/config/v1], [.../validation],
      [pkg/policy]): the configurations of visitors, client plugins, client and server, their
      completion and validation, feature gates and unsafe features.
    - [AuthBuild] ([pkg/auth/auth.go], [oidc.go]): the choice of setters and verifiers, OIDC
      subjects and token sources; no command is run unless it was allowed
      ([no_exec_unless_allowed]).
    - [Decode] ([pkg/config/v1/decode.go]), [ClientLoad] ([pkg/config/load.go]): documents to
      typed configurations ([DecodeClientConfig_typed]), formats, includes, filters.
    - [Visitors], [VisitorConn], [VisitorManager] ([client/visitor]): the visitors, their
      connections and tunnels, and the manager that keeps them running
      ([visitors_follow_config], [configured_visitors_run]).
    - [Backoff] ([pkg/util/wait/backoff.go]) and [MsgTransport] ([pkg/msg/handler.go],
      [pkg/transport/message.go]): delays between attempts; answers reach the requests they
      belong to.
    - [ClientService] ([client/service.go], [control.go]): login, sessions and their
      replacement; the session runs the configuration of the service
      ([service_runs_configuration]).  [ConfigManager] ([client/config_manager.go]) and
      [ClientApi] ([client/http]): the store behind the web API, against the classes
      [StoreOps] and [ApiModel], which proxies and visitors instantiate
      ([api_in_step], [api_requests_served]).  [ServerApi] ([server/http]): the lists and
      pages of the server, which tell no secrets ([api_tells_no_secrets]).
    - [ServerMuxProxy] ([server/proxy]): https, tcpmux and visitor proxies of the server.
    - [HttpAuth], [HttpReverse] ([pkg/util/http/http.go], [pkg/util/vhost/http.go],
      [pkg/util/tcpmux]): Basic authentication, CONNECT, and the reverse proxy: requests and
      dials as threads that look up one pattern at a time while routes change, and the
      connections its transport keeps ([http_requests_stay_on_route]).  [p_changes],
      [f_since], [d_since] and the last fields of [conn] are history for the statements.
    - [Streams] ([pkg/util/net/conn.go], [pkg/util/limit], [client/proxy/proxy.go]): what is
      wrapped around connections and who closes what.  [UdpForward], [UdpWorkers]
      ([pkg/proto/udp], [server/proxy/udp.go], [client/proxy], [client/visitor/sudp.go]):
      packets of users and the goroutines that carry them.
    - [MakeHole] ([pkg/nathole], [client/proxy/xtcp.go], [client/visitor/xtcp.go]): hole
      punching on the clients, composed with the server's analysis in [Nathole]
      ([hole_probes_meet], [hole_agreement]).
    - [ClientPlugins] ([pkg/plugin/client]): the listener of the plugins, the check of the
      HTTP proxy, the rewriting of requests and what becomes of connections.
    - [Vnet] ([pkg/vnet], [pkg/plugin/visitor]): frames, routers and reconnection of virtual
      networks.

    - [LegacyIni], [LegacyConf], [LegacyLoad], [LegacyConvert] ([pkg/config/legacy],
      [LoadServerConfig] of [pkg/config/load.go]): the old ini format.  The ini library is the
      class [Ini] with the laws [IniLaws] and an instance on lists; what a file says is
      converted section by section ([legacy_sections_exact]), ranges are expanded
      ([range_section_proxies]).
    - [Transport] ([client/connector.go], [pkg/transport/tls.go], [pkg/util/net/dial.go],
      [tls.go]): the layers the client puts on a connection are those the server takes off
      ([transport_agrees]).
    - [ServerRun] ([server/service.go], [pkg/util/http/server.go], [pkg/util/net/websocket.go],
      [kcp.go]): the life of the server, its listeners, what reaches [handleConnection] and
      over which TLS ([trusted_ca_enforced]); accepted proxies find their managers
      ([accepted_proxy_finds_manager]).
    - [Flags] ([pkg/config/flags.go]): the flags of the commands.
    - [SshGateway] ([pkg/ssh], [pkg/virtual/client.go]): the SSH gateway and its virtual
      clients, against the class [SshServer] with the law of the SSH library, composed with
      the login in [Handlers] ([ssh_session_authenticated]).
    - [Commands] ([cmd/frpc], [cmd/frps], [NewService] and [Run] of [client/service.go]): from
      the file to a running service, composed of loading, sources, validation and
      authentication ([frpc_start_sound]).
    - [UdpListener] ([pkg/util/net/udp.go]): UDP as connections, one per address.
    - [ClientSession] ([client/control.go]): the handlers of a session, and a work connection
      from the request to the proxy, across client and server ([work_conn_end_to_end]).
    - [WebRoutes] ([client/api_router.go], [server/api_router.go], [pkg/util/http/handler.go],
      [pkg/sdk/client], [cmd/frpc/sub/admin.go]): which request runs which handler, and what
      asks for the password ([password_guards], [sdk_calls_served]); the router library is
      the class [Mux] with its law.
    - [VnetPlugin] ([pkg/plugin/visitor/virtual_net.go]): the loop of the plugin against its
      [Close]; a closed plugin comes to rest with nothing left ([closed_plugin_rests],
      [closing_terminates]).

    - [MetricsFanout] ([pkg/metrics/aggregate], [pkg/metrics/prometheus], [server/metrics]): every
      event reaches every enabled backend once, and memory and Prometheus agree
      ([metrics_fanout]); the Prometheus library is given by its documented behaviour.
    - [MsgCodec] ([pkg/msg/msg.go], [ctl.go], [pkg/nathole/utils.go]): types of messages, their
      round trip ([messages_roundtrip]) and the two messages of a punched hole
      ([hole_handshake]), over the class of the message library and that of its cipher.
    - [Clones] ([pkg/config/source/clone.go], the [Clone] methods of [pkg/config/v1]): what a
      source hands out is a deep copy, over a heap with aliasing ([clones_isolated]).
    - [MuxLoop] ([pkg/util/vhost/vhost.go], [https.go]): the handlers and listeners of the muxer
      as a transition system ([mux_isolation]).
    - [XtcpTunnel] ([client/visitor/xtcp.go], [client/proxy/xtcp.go]): when holes are punched and
      what becomes of tunnel sessions ([punches_spaced], [hole_session_clean]).
    - [ProxyFactory] ([client/proxy], [server/proxy]): a type of proxy has its implementation on
      both sides ([proxy_pair]).
    - [NatSession] ([pkg/nathole/controller.go]): the handlers of visitors and clients with their
      timers ([nat_sessions_exact], [nat_handler_ends]).
    - [PluginNew] ([pkg/plugin/client]): plugins by type with what they need, and the files the
      static file plugin can reach ([plugin_creation], [static_file_confined]).
    - [TunDevice] ([pkg/vnet/tun.go], [tun_linux.go], [tun_darwin.go]): packets of a device in
      order ([tun_reads_in_order]), its name and its set-up.
    - [XLog] ([pkg/util/xlog], [pkg/util/log]): prefixes of loggers and the messages they form
      ([AddPrefix_spec], [message_behind_prefix], [writers_verbatim]).
    - [Reconnect] ([keepControllerWorking] of [client/service.go]): the goroutine that keeps a
      session, next to the one that stops the service ([sessions_kept], [reconnects],
      [keeper_ends]).
    - [HttpPlugin] ([pkg/plugin/server/http.go]): the plugin that is an HTTP service, as an
      instance of the interface in [ServerPlugins] ([http_chain_refines],
      [plugins_fail_closed], for all operations but the closing of a proxy).
    - [HttpReplies] ([pkg/util/vhost/resource.go], [pkg/util/http/http.go], [pkg/util/net/http.go],
      [APIServerInfo]): answers the program builds ([NotFoundResponse_spec],
      [serverinfo_spec]).
    - [ConnWrap] ([pkg/util/net/conn.go]): addresses, deadlines and contexts through wrappers
      ([deadlines_reach_bottom], [RemoteAddr_override]).
    - [CmdStart] ([cmd/frpc/sub/root.go], [admin.go], [nathole.go]): the root command, the table
      of proxies ([status_shows_all]) and the report on the NAT, which is what the proxies use
      ([discover_agrees]).

    ** Bounds

    The retry loops of the group controllers ([ctl_listen], [ctl_Register]) have a number of
    rounds; one round is enough when nothing interferes, and the interleavings are covered
    by the step relations, which do not use it.  [range_loop] has fuel: the length of the
    range is enough, and for a range that ends with the largest number no fuel is.  The
    limited writer ([Limit.Write]) has fuel: the length of the data is enough
    ([Write_spec]), and for a limiter without burst no fuel is ([Write_zero_burst]).  The
    loops that open tunnels and read messages run over the list of their attempts or over
    what is left to read.  [closed_from] follows the closers of a stack of streams; the
    theorem about it holds for all fuel.  [parse_keys] has fuel: the length of the file is
    enough ([load_keys_total]).  The ten draws of [getUnusedPort] are those of the
    code.  Everything else is structural recursion or a fold.

    ** Departures

    Some theorems show where the code does not do what it means to, on inputs that can
    occur.  On the server: [udp_late_close_frees_port], [refused_login_blocks_run],
    [subdomain_guard_case_bypass], [Acquire_port_zero_leak], [wildcard_tld_unmatched],
    [run_id_reuse_leaves_stale_client], [composeClientKey_collision],
    [negative_pool_count], [allow_users_only_prechecked],
    [score_and_receiver_comments_fail], [short_day_merges_counts],
    [late_events_spoil_statistics], [idle_connection_passes_password],
    [idle_connection_outlives_route], [route_registered_after_check],
    [connect_password_without_user], [connect_ok_before_check],
    [server_limit_keeps_conn_open] and [late_conn_stays_open].  On the client:
    [stale_answer_taken], [health_status_exact], [health_failures_never_reset], the second half of
    [ParseRangeNumbers_spec], [vnet_delay_overflows], [overlapping_work_conns_leak],
    [duplicate_answer_hides_nat], [flooded_discovery_panics], [early_result_lost],
    [ports_disagree], [response_ends_receiver], [closed_listener_loses], [http2http_drops_forwarded],
    [uncovered_proxy_unchecked], [verify_rejects_virtual_net], [verify_misses_unnamed] and
    [websocket_scheme].  In the old format: [pprof_needs_tls], [legacy_allow_ports] and
    [legacy_plugins].  At the edges of the server: [exec_payload_exact],
    [trailing_text_locks_out], [server_close_exact], [failed_start_keeps_listener],
    [Accept_never_fails], [dashboard_tls_flag_dead], [accepted_again],
    [admin_never_https], [slash_name_unreachable], the exception in [password_guards],
    [closed_listener_drops], [null_content_panics], [empty_answer_clears] and the
    documented answer in [plugins_fail_closed].  In goroutines, devices and logs: [keeper_stuck],
    [keeper_nil_panics], [empty_batch_panics], [openTun_leaks], [percent_in_name] and
    [prefixes_shown].

    ** What is not modelled

    The protocols themselves: TLS, websocket and SSH are encodings or outcomes with the laws
    their libraries document ([wire_laws], [SshLaws]); QUIC, KCP and the multiplexing of
    streams are outcomes; the parsing of HTTP, of TLS client hellos and of STUN messages, the
    ciphers, JSON, TOML and ini, the Prometheus registry and the calls of the operating system
    belong to libraries and are arguments with their laws.  The assets of the dashboards, the
    settings of the Go runtime ([pkg/util/system], [pkg/util/net/dns.go]), values in contexts,
    the rotation of log files and the text of log lines other than their prefixes have no
    state or decision to prove anything about.  Types that only name the methods of an
    interface appear as classes or as the functions that implement them. *)
From stdpp Require Import base gmap strings list sorting.
From Stdlib Require Import ZArith Lia.

(** ** Results of fallible Go functions: a value or an error *)

Inductive result (E A : Type) : Type :=
| Ok (a : A)
| Err (e : E).
Arguments Ok {E A} a.
Arguments Err {E A} e.

Definition rbind {E A B} (r : result E A) (f : A → result E B) : result E B :=
  match r with Ok a => f a | Err e => Err e end.

Declare Scope go_scope.
Delimit Scope go_scope with go.
Notation "'try' x ':=' r 'in' k" := (rbind r (λ x, k))
  (at level 10, x name, r at level 100, k at level 200) : go_scope.
Open Scope go_scope.

Definition is_ok {E A} (r : result E A) : bool :=
  match r with Ok _ => true | Err _ => false end.

Lemma rbind_ok {E A B} (r : result E A) (f : A → result E B) b :
  rbind r f = Ok b ↔ ∃ a, r = Ok a ∧ f a = Ok b.
Proof. destruct r; simpl; naive_solver. Qed.

(** ** Machine integers: two's complement at Go's widths *)

Definition wrap (w z : Z) : Z := ((z + 2 ^ (w - 1)) `mod` 2 ^ w - 2 ^ (w - 1))%Z.
Definition wrap32 (z : Z) : Z := wrap 32 z.
Definition wrap64 (z : Z) : Z := wrap 64 z.

Definition int64_min : Z := (- 2 ^ 63)%Z.
Definition int64_max : Z := (2 ^ 63 - 1)%Z.

Lemma wrap_range w z : (0 < w)%Z → (- 2 ^ (w - 1) <= wrap w z < 2 ^ (w - 1))%Z.
Proof.
  intros Hw. unfold wrap.
  pose proof (Z.mod_pos_bound (z + 2 ^ (w - 1)) (2 ^ w)) as Hb.
  assert (2 ^ w = 2 * 2 ^ (w - 1))%Z as Hp.
  { rewrite <- Z.pow_succ_r by lia. f_equal; lia. }
  pose proof (Z.pow_pos_nonneg 2 w). lia.
Qed.

Lemma wrap_small w z :
  (0 < w)%Z → (- 2 ^ (w - 1) <= z < 2 ^ (w - 1))%Z → wrap w z = z.
Proof.
  intros Hw Hz. unfold wrap.
  assert (2 ^ w = 2 * 2 ^ (w - 1))%Z as Hp.
  { rewrite <- Z.pow_succ_r by lia. f_equal; lia. }
  rewrite Z.mod_small; lia.
Qed.

Lemma wrap_add_l w a b : wrap w (wrap w a + b) = wrap w (a + b).
Proof.
  unfold wrap. f_equal.
  replace (_ - 2 ^ (w - 1) + b + 2 ^ (w - 1))%Z
    with ((a + 2 ^ (w - 1)) `mod` 2 ^ w + b)%Z by lia.
  rewrite Zplus_mod_idemp_l. f_equal. lia.
Qed.

Lemma wrap_add_r w a b : wrap w (a + wrap w b) = wrap w (a + b).
Proof. rewrite Z.add_comm, wrap_add_l. f_equal; lia. Qed.

Lemma wrap64_id z : (int64_min <= z <= int64_max)%Z → wrap64 z = z.
Proof. unfold int64_min, int64_max. intros. apply wrap_small; simpl; lia. Qed.

(** ** Time: nanoseconds since January 1, year 1 UTC; the zero [time.Time] is 0 *)

Abbreviation time := Z.
Abbreviation duration := Z.
Definition Millisecond : duration := 1000000%Z.
Definition Second : duration := (1000 * Millisecond)%Z.
Definition Hour : duration := (3600 * Second)%Z.
Definition IsZero (t : time) : bool := (t =? 0)%Z.

(** [t.Sub(u)] saturates at the bounds of a 64-bit duration. *)
Definition time_sub (t u : time) : duration :=
  Z.max int64_min (Z.min int64_max (t - u)%Z).

Definition time_after (t u : time) : bool := (u <? t)%Z.

Lemma time_sub_small t u :
  (int64_min <= t - u <= int64_max)%Z → time_sub t u = (t - u)%Z.
Proof. unfold time_sub. lia. Qed.

(** ** Boolean reflection of string and integer tests *)

Definition seqb (a b : string) : bool := bool_decide (a = b).
Infix "=s?" := seqb (at level 70) : go_scope.

Lemma seqb_spec a b : reflect (a = b) (a =s? b).
Proof. unfold seqb. destruct (bool_decide_reflect (a = b)); constructor; done. Qed.

Lemma seqb_refl a : (a =s? a) = true.
Proof. by apply bool_decide_eq_true. Qed.
Lemma seqb_true a b : (a =s? b) = true ↔ a = b.
Proof. apply bool_decide_eq_true. Qed.
Lemma seqb_false a b : (a =s? b) = false ↔ a ≠ b.
Proof. apply bool_decide_eq_false. Qed.

(** [slices.Contains] on strings. *)
Definition contains (l : list string) (s : string) : bool := bool_decide (s ∈ l).

(** ** Shared automation *)

Create HintDb frp discriminated.
Create Rewrite HintDb frp.
#[export] Hint Rewrite seqb_refl seqb_true seqb_false bool_decide_eq_true
  bool_decide_eq_false andb_true_iff andb_false_iff orb_true_iff orb_false_iff
  negb_true_iff negb_false_iff Z.eqb_eq Z.eqb_neq Z.ltb_lt Z.ltb_ge Z.leb_le
  Z.leb_gt : frp.

(** Split every [match]/[if] of the goal, clean up, and close what arithmetic,
    map lookups or congruence close. *)
Ltac split_matches :=
  repeat (first [case_match | case_decide]; simplify_eq/=).
Ltac reflect_bools := autorewrite with frp in *.
Ltac crush := simpl in *; split_matches; reflect_bools; simplify_map_eq; eauto with frp; try lia.

(** Prove a closed decidable goal by evaluating its decision procedure. *)
Ltac decide_vm := apply (bool_decide_unpack _); vm_compute; exact I.

(** ** Lists *)

(** The first element that satisfies [f], as a [for range] loop with an early return. *)
Fixpoint find_first {A} (f : A → bool) (l : list A) : option A :=
  match l with
  | [] => None
  | x :: l' => if f x then Some x else find_first f l'
  end.

Lemma find_first_Some {A} (f : A → bool) l x :
  find_first f l = Some x ↔
  ∃ l1 l2, l = l1 ++ x :: l2 ∧ f x = true ∧ Forall (λ y, f y = false) l1.
Proof.
  split.
  - induction l as [|y l IH]; simpl; [done|].
    destruct (f y) eqn:Hy; intros; simplify_eq.
    + exists [], l. naive_solver.
    + destruct IH as (l1 & l2 & -> & ? & ?); [done|].
      exists (y :: l1), l2. split_and!; auto.
  - intros (l1 & l2 & -> & Hx & H1).
    induction H1 as [|y l1 Hy ? IH]; simpl; by rewrite ?Hx, ?Hy.
Qed.

Lemma find_first_None {A} (f : A → bool) l :
  find_first f l = None ↔ Forall (λ y, f y = false) l.
Proof.
  induction l as [|y l IH]; simpl; [by split; [constructor|]|].
  rewrite Forall_cons. destruct (f y); naive_solver.
Qed.

Lemma find_first_elem {A} (f : A → bool) l x :
  find_first f l = Some x → x ∈ l ∧ f x = true.
Proof.
  rewrite find_first_Some. intros (l1 & l2 & -> & ? & ?).
  split; [set_solver|done].
Qed.

Lemma find_first_app {A} (f : A → bool) l1 l2 :
  find_first f (l1 ++ l2) =
  match find_first f l1 with Some x => Some x | None => find_first f l2 end.
Proof. induction l1; simpl; [done|]. by destruct (f a). Qed.

(** [append(l[:i], l[i+1:]...)] at the first index holding [x]. *)
Fixpoint remove_one {A} `{EqDecision A} (x : A) (l : list A) : list A :=
  match l with
  | [] => []
  | y :: l' => if decide (y = x) then l' else y :: remove_one x l'
  end.

Section remove_one.
Context {A : Type} `{EqDecision A}.
Implicit Types (x y : A) (l : list A).

Lemma remove_one_elem x y l : y ∈ remove_one x l → y ∈ l.
Proof. induction l; simpl; [done|]. case_decide; set_solver. Qed.

Lemma remove_one_elem_ne x y l : y ≠ x → y ∈ l → y ∈ remove_one x l.
Proof. intros ?. induction l; simpl; [done|]. case_decide; set_solver. Qed.

Lemma remove_one_not_elem x l : x ∉ l → remove_one x l = l.
Proof. induction l; simpl; [done|]. intros. case_decide; [set_solver|]. f_equal; set_solver. Qed.

Lemma remove_one_NoDup x l : NoDup l → NoDup (remove_one x l).
Proof.
  induction 1 as [|y l Hy Hl IH]; simpl; [constructor|]. case_decide; [done|].
  constructor; [|done]. intros ?%remove_one_elem. done.
Qed.

Lemma remove_one_NoDup_iff x y l :
  NoDup l → y ∈ remove_one x l ↔ y ∈ l ∧ y ≠ x.
Proof.
  intros Hnd. split.
  - intros Hy. split; [by eapply remove_one_elem|]. intros ->.
    induction Hnd as [|z l Hz Hl IH]; simpl in *; [set_solver|].
    case_decide; subst; [done|]. apply elem_of_cons in Hy as [->|?]; [done|auto].
  - intros []. by apply remove_one_elem_ne.
Qed.

Lemma remove_one_length x l : x ∈ l → S (length (remove_one x l)) = length l.
Proof.
  induction l as [|y l IH]; [set_solver|]. simpl. intros Hx.
  case_decide; [done|]. simpl. rewrite IH; [done|]. set_solver.
Qed.
End remove_one.

(** Filtering keeps order, membership properties and distinct keys. *)
Section filter_lemmas.
Context {A : Type} (P : A → Prop) `{∀ x, Decision (P x)}.

Lemma StronglySorted_filter (R : relation A) l :
  StronglySorted R l → StronglySorted R (filter P l).
Proof.
  induction 1 as [|x l Hl IH Hx]; [constructor|]. rewrite filter_cons. case_decide; [|done].
  constructor; [done|]. rewrite Forall_forall in *. intros y [_ Hy]%list_elem_of_filter. auto.
Qed.

Lemma Forall_filter_2 (Q : A → Prop) l : Forall Q l → Forall Q (filter P l).
Proof. rewrite !Forall_forall. intros HQ y [_ Hy]%list_elem_of_filter. auto. Qed.

Lemma filter_all l : Forall P l → filter P l = l.
Proof. induction 1 as [|x l Hx _ IH]; [done|]. rewrite filter_cons_True by done. by rewrite IH. Qed.

Lemma NoDup_fmap_filter {B} (f : A → B) l : NoDup (f <$> l) → NoDup (f <$> filter P l).
Proof.
  induction l as [|x l IH]; [done|]. simpl. intros [Hni Hn]%NoDup_cons.
  rewrite filter_cons. case_decide; [|auto]. simpl. constructor; [|auto].
  rewrite list_elem_of_fmap. intros (y & Hy & [_ Hin]%list_elem_of_filter).
  apply Hni. rewrite Hy. by apply list_elem_of_fmap_2.
Qed.
End filter_lemmas.

(** Elements of a list are told apart by a key without repetitions. *)
Lemma NoDup_fmap_inj_elem {A B} (f : A → B) (l : list A) x y :
  NoDup (f <$> l) → x ∈ l → y ∈ l → f x = f y → x = y.
Proof.
  induction l as [|z l IH]; intros Hnd Hx Hy Hf; [by apply not_elem_of_nil in Hx|].
  cbn in Hnd. apply NoDup_cons in Hnd as [Hz Hnd].
  apply elem_of_cons in Hx as [->|Hx], Hy as [->|Hy]; [done| | |by apply IH].
  - destruct Hz. rewrite Hf. by apply list_elem_of_fmap_2.
  - destruct Hz. rewrite <- Hf. by apply list_elem_of_fmap_2.
Qed.

(** [lo.KeyBy]: the values of a list by their names; of two with one name, the later one. *)
Definition key_by {A} (name : A → string) (l : list A) : gmap string A :=
  foldl (λ m c, <[name c := c]> m) ∅ l.

Lemma key_by_lookup {A} (name : A → string) l n c :
  NoDup (name <$> l) → key_by name l !! n = Some c ↔ c ∈ l ∧ name c = n.
Proof.
  unfold key_by. induction l as [|d l IH] using rev_ind; intros Hnd.
  { simpl. rewrite lookup_empty. split; [done|]. intros [H _]. by apply not_elem_of_nil in H. }
  rewrite fmap_app in Hnd. apply NoDup_app in Hnd as (Hnd & Hdis & _).
  rewrite foldl_app. cbn [foldl]. rewrite elem_of_app, list_elem_of_singleton.
  destruct (decide (name d = n)) as [<-|Hne].
  - rewrite lookup_insert_eq. split; [intros [= <-]; auto|]. intros [[Hc| ->] Hn]; [|done].
    destruct (Hdis (name d)); [|by left]. rewrite <- Hn. by apply list_elem_of_fmap_2.
  - rewrite lookup_insert_ne by done. rewrite IH by done. naive_solver.
Qed.
