(* ===== verification/GoStrings.v ===== *)
(** The functions of Go's [strings] and [strconv] packages the sources use, on
    byte strings ([string] of [ascii]), with the lemmas the components share.
    [ToLower] and [TrimSpace] act on ASCII bytes, which is what domain names,
    proxy names and port lists hold. *)
From stdpp Require Import base gmap strings list sorting.
From Stdlib Require Import ZArith Lia Ascii String DecimalString DecimalZ DecimalFacts DecimalPos.
From S2P Require Import Prelude.
Local Open Scope string_scope.
#[global] Arguments String.append : simpl nomatch.

(** ** strings *)

Definition lower_ascii (c : ascii) : ascii :=
  let n := N_of_ascii c in
  if (65 <=? n)%N && (n <=? 90)%N then ascii_of_N (n + 32) else c.

Fixpoint ToLower (s : string) : string :=
  match s with
  | "" => ""
  | String c s' => String (lower_ascii c) (ToLower s')
  end.

Definition HasPrefix (s p : string) : bool := String.prefix p s.

Fixpoint CutPrefix (s p : string) {struct p} : option string :=
  match p, s with
  | "", _ => Some s
  | String a p', String b s' => if ascii_dec a b then CutPrefix s' p' else None
  | String _ _, "" => None
  end.

Fixpoint HasSuffix (s suf : string) : bool :=
  (s =s? suf) || match s with "" => false | String _ s' => HasSuffix s' suf end.

Fixpoint CutSuffix (s suf : string) : option string :=
  if s =s? suf then Some "" else
  match s with
  | "" => None
  | String c s' => String c <$> CutSuffix s' suf
  end.

Definition TrimSuffix (s suf : string) : string := default s (CutSuffix s suf).

(** [strings.Split(s, sep)] for a one-byte separator: never empty. *)
Fixpoint Split (sep : ascii) (s : string) : list string :=
  match s with
  | "" => [""]
  | String c s' =>
      if ascii_dec c sep then "" :: Split sep s'
      else match Split sep s' with
           | [] => [String c ""]
           | w :: ws => String c w :: ws
           end
  end.

Fixpoint Join (ss : list string) (sep : string) : string :=
  match ss with
  | [] => ""
  | [s] => s
  | s :: ss' => s +:+ sep +:+ Join ss' sep
  end.

(** [strings.Contains(s, c)] and [strings.Count(s, c)] for one byte. *)
Fixpoint ContainsByte (s : string) (c : ascii) : bool :=
  match s with
  | "" => false
  | String a s' => if ascii_dec a c then true else ContainsByte s' c
  end.

Fixpoint CountByte (s : string) (c : ascii) : nat :=
  match s with
  | "" => 0
  | String a s' => (if ascii_dec a c then 1 else 0) + CountByte s' c
  end.

Definition is_space (c : ascii) : bool :=
  let n := N_of_ascii c in ((9 <=? n)%N && (n <=? 13)%N) || (n =? 32)%N.

Fixpoint TrimLeft (s : string) : string :=
  match s with
  | "" => ""
  | String c s' => if is_space c then TrimLeft s' else s
  end.

Fixpoint TrimRight (s : string) : string :=
  match s with
  | "" => ""
  | String c s' =>
      match TrimRight s' with
      | "" => if is_space c then "" else String c ""
      | t => String c t
      end
  end.

Definition TrimSpace (s : string) : string := TrimRight (TrimLeft s).

(** ** strconv *)

Definition Itoa (z : Z) : string := NilZero.string_of_int (Z.to_int z).

Inductive num_error := ErrSyntax | ErrRange.
#[global] Instance num_error_eq_dec : EqDecision num_error.
Proof. solve_decision. Defined.

(** [strconv.ParseInt(s, 10, 64)]: an optional sign, decimal digits, 64-bit range. *)
Definition ParseInt (s : string) : result num_error Z :=
  let parse_digits (neg : bool) (t : string) :=
    match NilZero.uint_of_string t with
    | None => Err ErrSyntax
    | Some d =>
        let n := Z.of_uint d in
        let z := if neg then (- n)%Z else n in
        if (int64_min <=? z)%Z && (z <=? int64_max)%Z then Ok z else Err ErrRange
    end in
  match s with
  | String "-" t => parse_digits true t
  | String "+" t => parse_digits false t
  | _ => parse_digits false s
  end.

(** ** Lemmas *)

Lemma lower_ascii_idem c : lower_ascii (lower_ascii c) = lower_ascii c.
Proof. by destruct c as [[] [] [] [] [] [] [] []]. Qed.

Lemma ToLower_idem s : ToLower (ToLower s) = ToLower s.
Proof. induction s as [|c s IH]; simpl; [done|]. by rewrite lower_ascii_idem, IH. Qed.

Lemma append_nil_r s : s +:+ "" = s.
Proof. induction s as [|c s IH]; simpl; [done|]. by rewrite IH. Qed.
Lemma append_assoc a b c : (a +:+ b) +:+ c = a +:+ (b +:+ c).
Proof. induction a as [|x a IH]; simpl; [done|]. by rewrite IH. Qed.
Lemma append_length a b : String.length (a +:+ b) = String.length a + String.length b.
Proof. induction a as [|x a IH]; simpl; [done|]. by rewrite IH. Qed.
Lemma append_inj_r a b c : a +:+ c = b +:+ c → a = b.
Proof.
  revert b. induction a as [|x a IH]; intros [|y b] H; [done| | |].
  - apply (f_equal String.length) in H. simpl in H. rewrite append_length in H. lia.
  - apply (f_equal String.length) in H. simpl in H. rewrite append_length in H. lia.
  - simpl in H. injection H as -> H. f_equal. by apply IH.
Qed.

Lemma ToLower_append a b : ToLower (a +:+ b) = ToLower a +:+ ToLower b.
Proof. induction a as [|x a IH]; simpl; [done|]. by rewrite IH. Qed.

Lemma HasPrefix_spec s p : HasPrefix s p = true ↔ ∃ t, s = p +:+ t.
Proof.
  unfold HasPrefix. revert s. induction p as [|a p IH]; intros s; simpl.
  - split; [by exists s|by destruct s].
  - destruct s as [|b s]; simpl; [naive_solver|].
    destruct (ascii_dec a b) as [->|Hne].
    + rewrite IH. split; intros [t ?]; exists t; by simplify_eq/=.
    + split; [done|]. intros [t ?]; simplify_eq/=.
Qed.

Lemma CutPrefix_spec s p t : CutPrefix s p = Some t ↔ s = p +:+ t.
Proof.
  revert s. induction p as [|a p IH]; intros s; simpl; [split; congruence|].
  destruct s as [|b s]; [done|].
  destruct (ascii_dec a b) as [->|]; [rewrite IH|]; split; intros; simplify_eq; done.
Qed.

Lemma CutPrefix_None s p : CutPrefix s p = None ↔ HasPrefix s p = false.
Proof.
  unfold HasPrefix. revert s. induction p as [|a p IH]; intros s; simpl; [by destruct s|].
  destruct s as [|b s]; simpl; [done|]. destruct (ascii_dec a b); [apply IH|done].
Qed.

Lemma HasSuffix_spec s suf : HasSuffix s suf = true ↔ ∃ p, s = p +:+ suf.
Proof.
  induction s as [|c s IH]; simpl.
  - rewrite orb_false_r, seqb_true. split; [intros <-; by exists ""|].
    intros [[|??] ?]; by simplify_eq/=.
  - rewrite orb_true_iff, seqb_true, IH. split.
    + intros [->|[p ->]]; [by exists ""|by exists (String c p)].
    + intros [[|d p] ?]; simplify_eq/=; eauto.
Qed.

(** Of two prefixes of one string the lexicographically larger is the longer. *)
Lemma prefix_compare_length s a b :
  HasPrefix s a = true → HasPrefix s b = true →
  String.le a b → (String.length a ≤ String.length b)%nat.
Proof.
  rewrite !HasPrefix_spec. intros [t Ha] [u Hb]. subst s. revert b Hb.
  induction a as [|x a IH]; intros b Hb Hle; simpl; [lia|].
  destruct b as [|y b]; simplify_eq/=; [done|].
  apply le_n_S, IH; [done|]. revert Hle. unfold String.le, String.leb. simpl.
  unfold Ascii.compare. by rewrite N.compare_refl.
Qed.

Lemma prefix_length_inj s a b :
  HasPrefix s a = true → HasPrefix s b = true →
  String.length a = String.length b → a = b.
Proof.
  rewrite !HasPrefix_spec. intros [t Ha] [u Hb]. subst s. revert b Hb.
  induction a as [|x a IH]; intros [|y b] Hb Hl; simplify_eq/=; [done|].
  f_equal. by apply IH.
Qed.

Lemma ContainsByte_append a b c :
  ContainsByte (a +:+ b) c = ContainsByte a c || ContainsByte b c.
Proof. induction a as [|x a IH]; simpl; [done|]. by destruct (ascii_dec x c). Qed.

Lemma Split_not_nil sep s : Split sep s ≠ [].
Proof. destruct s; simpl; [done|]. by repeat case_match. Qed.

Lemma Split_nosep sep s : ContainsByte s sep = false → Split sep s = [s].
Proof.
  induction s as [|c s IH]; simpl; [done|]. intros H.
  destruct (ascii_dec c sep); [done|]. by rewrite IH.
Qed.

Lemma Split_sep sep a b :
  ContainsByte a sep = false → Split sep (a +:+ String sep b) = a :: Split sep b.
Proof.
  induction a as [|c a IH]; simpl; intros H.
  - by destruct (ascii_dec sep sep).
  - destruct (ascii_dec c sep); [done|]. by rewrite IH.
Qed.

Lemma Split_Join sep ss :
  ss ≠ [] → Forall (λ s, ContainsByte s sep = false) ss →
  Split sep (Join ss (String sep "")) = ss.
Proof.
  induction ss as [|s ss IH]; [done|]. intros _ [Hs Hss]%Forall_cons.
  destruct ss as [|s' ss]; [by apply Split_nosep|].
  change (Join _ _) with (s +:+ String sep (Join (s' :: ss) (String sep ""))).
  rewrite Split_sep by done. f_equal. by apply IH.
Qed.

Lemma Join_Split sep s : Join (Split sep s) (String sep "") = s.
Proof.
  induction s as [|c s IH]; simpl; [done|].
  pose proof (Split_not_nil sep s). destruct (Split sep s) as [|w ws] eqn:E; [done|].
  destruct (ascii_dec c sep) as [->|]; simpl in *.
  - by rewrite <- IH.
  - destruct ws; simpl in *; by rewrite <- IH.
Qed.
