(* ===== verification/Ports.v ===== *)
(** The server's port manager, [src/server/ports/ports.go]: which remote ports
    are free, used, and reserved for a proxy name.  A [*PortCtx] is shared between
    the [reservedPorts] and [usedPorts] maps and mutated in place by [Release], so
    contexts live in a store [ctxs] and the maps hold locations. *)
From stdpp Require Import base gmap strings list sorting.
From Stdlib Require Import ZArith Lia.
From S2P Require Import Prelude.
Local Open Scope string_scope.
Local Open Scope list_scope.
Local Open Scope Z_scope.

(** ** Data *)

Definition MinPort : Z := 1.
Definition MaxPort : Z := 65535.
Definition MaxPortReservedDuration : duration := 24 * Hour.

Inductive PortError :=
| ErrPortAlreadyUsed | ErrPortNotAllowed | ErrPortUnAvailable | ErrNoAvailablePort.
#[global] Instance PortError_eq_dec : EqDecision PortError.
Proof. solve_decision. Defined.

(** [types.PortsRange]: a single port, or an inclusive range when [Single] is not positive. *)
Record PortsRange := mkPortsRange { Start : Z; End_ : Z; Single : Z }.

Record PortCtx := mkPortCtx {
  ProxyName : string; Port : Z; Closed : bool; UpdateTime : time }.

Record Manager := mkManager {
  reservedPorts : gmap string nat;
  usedPorts : gmap Z nat;
  freePorts : gset Z;
  bindAddr : string;
  netType : string;
  ctxs : gmap nat PortCtx;   (* the store of the PortCtx objects *)
  nextCtx : nat }.

(** What the operating system answers when a port is probed. *)
Record net_probe := mkNet {
  ResolveUDPAddr_ok : string → Z → bool;
  ListenUDP_ok : string → Z → bool;
  Listen_ok : string → string → Z → bool }.

(** ** Operations *)

Definition ports_of_range (r : PortsRange) : gset Z :=
  if 0 <? Single r then {[ Single r ]}
  else list_to_set (seqZ (Start r) (End_ r - Start r + 1)).

Definition allowed_ports (allowPorts : list PortsRange) : gset Z :=
  match allowPorts with
  | [] => list_to_set (seqZ MinPort (MaxPort - MinPort + 1))
  | _ => foldl (λ acc r, acc ∪ ports_of_range r) ∅ allowPorts
  end.

Definition NewManager (netType bindAddr : string) (allowPorts : list PortsRange) : Manager :=
  mkManager ∅ ∅ (allowed_ports allowPorts) bindAddr netType ∅ 0.

Definition isPortAvailable (pm : Manager) (net : net_probe) (port : Z) : bool :=
  if netType pm =s? "udp" then
    if ResolveUDPAddr_ok net (bindAddr pm) port
    then ListenUDP_ok net (bindAddr pm) port
    else false
  else Listen_ok net (netType pm) (bindAddr pm) port.

(** [usedPorts[p] = ctx; reservedPorts[name] = ctx; delete(freePorts, p)]. *)
Definition claim (name : string) (p : Z) (l : nat) (pm : Manager) : Manager :=
  mkManager (<[name := l]> (reservedPorts pm)) (<[p := l]> (usedPorts pm))
    (freePorts pm ∖ {[p]}) (bindAddr pm) (netType pm) (ctxs pm) (nextCtx pm).

Definition new_ctx (c : PortCtx) (pm : Manager) : Manager :=
  mkManager (reservedPorts pm) (usedPorts pm) (freePorts pm) (bindAddr pm) (netType pm)
    (<[nextCtx pm := c]> (ctxs pm)) (S (nextCtx pm)).

Definition update_ctx (f : PortCtx → PortCtx) (l : nat) (pm : Manager) : Manager :=
  mkManager (reservedPorts pm) (usedPorts pm) (freePorts pm) (bindAddr pm) (netType pm)
    (alter f l (ctxs pm)) (nextCtx pm).

Definition set_port (p : Z) (c : PortCtx) : PortCtx :=
  mkPortCtx (ProxyName c) p (Closed c) (UpdateTime c).

Definition set_closed (now : time) (c : PortCtx) : PortCtx :=
  mkPortCtx (ProxyName c) (Port c) true now.

Definition maxTryTimes : nat := 5.

(** The [for k := range pm.freePorts] loop: at most [maxTryTimes] keys, in the
    order the runtime iterates the map; the [count]-th key is the [count]-th probe. *)
Fixpoint try_ports (pm : Manager) (net : nat → net_probe) (count : nat) (keys : list Z)
    : option Z :=
  match keys with
  | [] => None
  | k :: ks =>
      let count := S count in
      if (maxTryTimes <? count)%nat then None
      else if isPortAvailable pm (net count) k then Some k
      else try_ports pm net count ks
  end.

(** The deferred function of [Acquire]: on success the context gets its port. *)
Definition acquire_return (l : nat) (r : result PortError Z) (pm : Manager)
    : result PortError Z * Manager :=
  match r with
  | Ok realPort => (r, update_ctx (set_port realPort) l pm)
  | Err _ => (r, pm)
  end.

(** The [get random port] branch; a port found is claimed before the test on
    [realPort == 0]. *)
Definition acquire_random (net : nat → net_probe) (order : list Z) (name : string)
    (l : nat) (pm : Manager) : result PortError Z * Manager :=
  match try_ports pm net 0 order with
  | Some k =>
      acquire_return l (if k =? 0 then Err ErrNoAvailablePort else Ok k) (claim name k l pm)
  | None => acquire_return l (Err ErrNoAvailablePort) pm
  end.

(** [Acquire(name, port)] at time [now]; [net n] answers the [n]-th probe and
    [order] is the iteration order of [freePorts]. *)
Definition Acquire (now : time) (net : nat → net_probe) (order : list Z)
    (name : string) (port : Z) (pm : Manager) : result PortError Z * Manager :=
  let l := nextCtx pm in
  let pm := new_ctx (mkPortCtx name 0 false now) pm in
  if port =? 0 then
    match reservedPorts pm !! name ≫= λ l0, ctxs pm !! l0 with
    | Some ctx =>
        if isPortAvailable pm (net 0%nat) (Port ctx)
        then acquire_return l (Ok (Port ctx)) (claim name (Port ctx) l pm)
        else acquire_random net order name l pm
    | None => acquire_random net order name l pm
    end
  else if decide (port ∈ freePorts pm) then
    if isPortAvailable pm (net 0%nat) port
    then acquire_return l (Ok port) (claim name port l pm)
    else acquire_return l (Err ErrPortUnAvailable) pm
  else match usedPorts pm !! port with
       | Some _ => acquire_return l (Err ErrPortAlreadyUsed) pm
       | None => acquire_return l (Err ErrPortNotAllowed) pm
       end.

Definition Release (now : time) (port : Z) (pm : Manager) : Manager :=
  match usedPorts pm !! port with
  | Some l =>
      update_ctx (set_closed now) l
        (mkManager (reservedPorts pm) (delete port (usedPorts pm))
           (freePorts pm ∪ {[port]}) (bindAddr pm) (netType pm) (ctxs pm) (nextCtx pm))
  | None => pm
  end.

Definition expired (now : time) (c : PortCtx) : bool :=
  Closed c && (MaxPortReservedDuration <? time_sub now (UpdateTime c)).

(** One round of [cleanReservedPortsWorker]. *)
Definition cleanReservedPorts (now : time) (pm : Manager) : Manager :=
  mkManager
    (filter (λ '(_, l), from_option (expired now) false (ctxs pm !! l) = false)
       (reservedPorts pm))
    (usedPorts pm) (freePorts pm) (bindAddr pm) (netType pm) (ctxs pm) (nextCtx pm).

(** ** The invariant *)

(** Every allowed port is either free or used, never both; a used port's context
    names that port and is open; a reservation's context names its proxy and an
    allowed port; locations below [nextCtx] are the allocated ones. *)
Record wf (allowed : gset Z) (pm : Manager) : Prop := {
  wf_disjoint : freePorts pm ## dom (usedPorts pm);
  wf_cover : freePorts pm ∪ dom (usedPorts pm) = allowed;
  wf_used : ∀ p l, usedPorts pm !! p = Some l →
    ∃ c, ctxs pm !! l = Some c ∧ Port c = p ∧ Closed c = false;
  wf_reserved : ∀ n l, reservedPorts pm !! n = Some l →
    ∃ c, ctxs pm !! l = Some c ∧ ProxyName c = n ∧ Port c ∈ allowed;
  wf_fresh : ∀ l, is_Some (ctxs pm !! l) → (l < nextCtx pm)%nat }.

(** A run of the manager: any interleaving of its operations, each holding [mu]. *)
Inductive step : Manager → Manager → Prop :=
| step_acquire pm now net order name port :
    order ≡ₚ elements (freePorts pm) →
    step pm (snd (Acquire now net order name port pm))
| step_release pm now port : step pm (Release now port pm)
| step_clean pm now : step pm (cleanReservedPorts now pm).

Definition reachable (netType bindAddr : string) (allowPorts : list PortsRange) (pm : Manager) : Prop :=
  rtc step (NewManager netType bindAddr allowPorts) pm.

(** *** Lemmas on the building blocks *)

Lemma try_ports_elem pm net count keys k :
  try_ports pm net count keys = Some k → k ∈ keys.
Proof.
  revert count. induction keys as [|k' ks IH]; intros count; [done|]. simpl.
  repeat case_match; intros; simplify_eq; set_solver.
Qed.

Lemma try_ports_available pm net count keys k :
  try_ports pm net count keys = Some k →
  ∃ i, isPortAvailable pm (net i) k = true.
Proof.
  revert count. induction keys as [|k' ks IH]; intros count; [done|]. simpl.
  repeat case_match; intros; simplify_eq; eauto.
Qed.

Section wf.
Context (allowed : gset Z).

Lemma new_ctx_wf c pm : wf allowed pm → wf allowed (new_ctx c pm).
Proof.
  intros [H1 H2 H3 H4 H5].
  assert (∀ l, is_Some (ctxs pm !! l) → l ≠ nextCtx pm) as Hne by (intros l ?%H5; lia).
  split; simpl; [done|done|..].
  - intros p l Hl. destruct (H3 _ _ Hl) as (d & Hd & ?).
    exists d. by rewrite lookup_insert_ne by (apply not_eq_sym, Hne; eauto).
  - intros n l Hl. destruct (H4 _ _ Hl) as (d & Hd & ?).
    exists d. by rewrite lookup_insert_ne by (apply not_eq_sym, Hne; eauto).
  - intros l. rewrite lookup_insert. case_decide; subst; [lia|].
    intros ?%H5. lia.
Qed.

(** Claiming an allowed port for a context that is not shared yet. *)
Lemma claim_wf pm name p c l :
  wf allowed pm → p ∈ allowed → ctxs pm !! l = Some c →
  ProxyName c = name → Closed c = false →
  (∀ p' , usedPorts pm !! p' ≠ Some l) → (∀ n, reservedPorts pm !! n ≠ Some l) →
  wf allowed (update_ctx (set_port p) l (claim name p l pm)).
Proof.
  intros [H1 H2 H3 H4 H5] Hp Hl Hn Hc Hu Hr. split; simpl.
  - set_solver.
  - rewrite dom_insert_L. rewrite <- H2 in *.
    apply set_eq. intros x. destruct (decide (x = p)); set_solver.
  - intros q l'. rewrite lookup_insert. case_decide as Hq; intros Hl'; simplify_eq.
    + rewrite lookup_alter_eq, Hl. eexists; split; [done|]. done.
    + destruct (H3 _ _ Hl') as (d & Hd & ?). exists d.
      rewrite lookup_alter_ne; [done|]. intros ->. by eapply Hu.
  - intros n l'. rewrite lookup_insert. case_decide as Hq; intros Hl'; simplify_eq.
    + rewrite lookup_alter_eq, Hl. eexists; split; [done|]. done.
    + destruct (H4 _ _ Hl') as (d & Hd & ?). exists d.
      rewrite lookup_alter_ne; [done|]. intros ->. by eapply Hr.
  - intros l'. rewrite lookup_alter. case_decide; subst; [|apply H5].
    intros _. apply H5. eauto.
Qed.
End wf.

(** ** What [Acquire] does, branch by branch *)

(** The outcomes of [Acquire]: the port [p] is claimed, or nothing but the
    unreferenced context is added. *)
Section acquire.
Context (now : time) (net : nat → net_probe) (order : list Z)
        (name : string) (port : Z) (pm : Manager).

Let l := nextCtx pm.
Let fresh_ctx := mkPortCtx name 0 false now.
Let pm1 := new_ctx fresh_ctx pm.

Definition claimed (p : Z) : Manager := update_ctx (set_port p) l (claim name p l pm1).

(** Where a claimed port comes from. *)
Definition port_source (p : Z) : Prop :=
  (port = 0 ∧ ∃ l0 c, reservedPorts pm !! name = Some l0 ∧ ctxs pm1 !! l0 = Some c ∧ Port c = p)
  ∨ (port = 0 ∧ p ∈ order)
  ∨ (port = p ∧ p ∈ freePorts pm).

Lemma claimed_zero : claimed 0 = claim name 0 l pm1.
Proof.
  unfold claimed, update_ctx, claim. simpl. f_equal.
  apply map_eq. intros i. subst l. rewrite lookup_alter, !lookup_insert.
  by repeat case_decide.
Qed.

Definition outcome (res : result PortError Z * Manager) : Prop :=
  (∃ p i, res.2 = claimed p ∧ isPortAvailable pm (net i) p = true ∧ port_source p ∧
     (res.1 = Ok p ∨ p = 0 ∧ p ∈ order ∧ res.1 = Err ErrNoAvailablePort))
  ∨ (∃ e, res = (Err e, pm1)).

Lemma acquire_random_outcome :
  port = 0 → outcome (acquire_random net order name l pm1).
Proof.
  intros Hport. unfold acquire_random.
  destruct (try_ports pm1 net 0 order) as [k|] eqn:Ek; [|right; by eexists].
  left. pose proof (try_ports_elem _ _ _ _ _ Ek) as Hk.
  destruct (try_ports_available _ _ _ _ _ Ek) as [i Hi].
  exists k, i. unfold port_source.
  destruct (Z.eqb_spec k 0) as [->|]; simpl; [rewrite claimed_zero|]; auto 10.
Qed.

Lemma Acquire_outcome : outcome (Acquire now net order name port pm).
Proof.
  unfold Acquire. fold l fresh_ctx pm1.
  destruct (Z.eqb_spec port 0) as [Hport|Hport].
  - destruct (reservedPorts pm1 !! name ≫= _) as [c|] eqn:Ec;
      [|by apply acquire_random_outcome].
    destruct (isPortAvailable pm1 _ _) eqn:Ea; [|by apply acquire_random_outcome].
    apply bind_Some in Ec as (l0 & ? & ?).
    left. exists (Port c), 0%nat. unfold port_source. simpl. split_and!; eauto 10.
  - case_decide as Hfree; [|by case_match; right; eexists].
    destruct (isPortAvailable pm1 _ _) eqn:Ea; [|by right; eexists].
    left. exists port, 0%nat. unfold port_source. simpl. split_and!; eauto 10.
Qed.
End acquire.

(** ** Preservation *)

Lemma NewManager_wf nt ba ap : wf (allowed_ports ap) (NewManager nt ba ap).
Proof. split; simpl; [set_solver|set_solver|..]; try done. by intros l [? ?]. Qed.

Lemma port_source_allowed allowed now order name port pm p :
  wf allowed pm → (∀ q, q ∈ order → q ∈ freePorts pm) →
  port_source now order name port pm p → p ∈ allowed.
Proof.
  intros Hwf Ho [(_ & l0 & c & Hr & Hc & <-)|[[_ Hp]|[_ Hp]]].
  - destruct (wf_reserved _ _ Hwf _ _ Hr) as (c' & Hc' & _ & ?).
    simpl in Hc. rewrite lookup_insert_ne in Hc; [by simplify_eq|].
    pose proof (wf_fresh _ _ Hwf l0 ltac:(eauto)). lia.
  - rewrite <- (wf_cover _ _ Hwf). set_solver.
  - rewrite <- (wf_cover _ _ Hwf). set_solver.
Qed.

Lemma claimed_wf allowed now name pm p :
  wf allowed pm → p ∈ allowed → wf allowed (claimed now name pm p).
Proof.
  intros Hwf Hp.
  assert (∀ l, is_Some (ctxs pm !! l) → l ≠ nextCtx pm) as Hne
    by (intros l ?%(wf_fresh _ _ Hwf); lia).
  eapply claim_wf with (c := mkPortCtx name 0 false now); [by apply new_ctx_wf|done|..]; simpl.
  - by rewrite lookup_insert_eq.
  - done.
  - done.
  - intros p' (c & Hc & _)%(wf_used _ _ Hwf). by eapply Hne.
  - intros n (c & Hc & _)%(wf_reserved _ _ Hwf). by eapply Hne.
Qed.

Lemma Acquire_wf allowed now net order name port pm :
  wf allowed pm → (∀ q, q ∈ order → q ∈ freePorts pm) →
  wf allowed (snd (Acquire now net order name port pm)).
Proof.
  intros Hwf Ho.
  destruct (Acquire_outcome now net order name port pm) as [(p & i & Hs & _ & Hsrc & _)|[e He]].
  - rewrite Hs. apply claimed_wf; [done|]. by eapply port_source_allowed.
  - rewrite He. by apply new_ctx_wf.
Qed.

Lemma Release_wf allowed now port pm : wf allowed pm → wf allowed (Release now port pm).
Proof.
  intros [H1 H2 H3 H4 H5]. unfold Release.
  destruct (usedPorts pm !! port) as [l|] eqn:Hl; [|by split].
  destruct (H3 _ _ Hl) as (c & Hc & Hcp & _).
  split; simpl.
  - rewrite dom_delete_L. set_solver.
  - rewrite dom_delete_L, <- H2. apply set_eq. intros x.
    assert (port ∈ dom (usedPorts pm)) by (apply elem_of_dom; eauto).
    destruct (decide (x = port)); set_solver.
  - intros p l'. rewrite lookup_delete_Some. intros [Hne Hl'].
    destruct (H3 _ _ Hl') as (d & Hd & Hdp & ?). exists d.
    rewrite lookup_alter_ne; [done|]. intros ->. congruence.
  - intros n l' (d & Hd & ? & ?)%H4. rewrite lookup_alter. case_decide; subst.
    + rewrite Hd. eexists; split; [done|]. done.
    + eauto.
  - intros l'. rewrite lookup_alter. case_decide; subst; [intros _; eauto|apply H5].
Qed.

Lemma clean_wf allowed now pm : wf allowed pm → wf allowed (cleanReservedPorts now pm).
Proof.
  intros [H1 H2 H3 H4 H5]. split; simpl; [done|done|done| |done].
  intros n l [Hl _]%map_lookup_filter_Some. eauto.
Qed.

Lemma perm_elements_free (order : list Z) (s : gset Z) :
  order ≡ₚ elements s → ∀ q, q ∈ order → q ∈ s.
Proof. intros Hp q. rewrite Hp. set_solver. Qed.

(** How [Acquire] and [Release] change the ports in use. *)
Lemma Acquire_used allowed now net order name port pm r pm' :
  wf allowed pm → 0 ∉ allowed → order ≡ₚ elements (freePorts pm) →
  (∀ i q, q ∈ dom (usedPorts pm) → isPortAvailable pm (net i) q = false) →
  Acquire now net order name port pm = (r, pm') →
  match r with
  | Ok p => p ∉ dom (usedPorts pm) ∧ dom (usedPorts pm') = {[p]} ∪ dom (usedPorts pm)
  | Err _ => usedPorts pm' = usedPorts pm
  end.
Proof.
  intros Hwf H0 Hperm Hos Heq. pose proof (perm_elements_free _ _ Hperm) as Ho.
  pose proof (Acquire_outcome now net order name port pm) as Hout. rewrite Heq in Hout.
  destruct Hout as [(p & i & Hs & Hav & Hsrc & Hr)|[e He]]; [simpl in *|by simplify_eq].
  destruct Hr as [->|(-> & Hin & ->)].
  - split; [intros Hp%(Hos i); congruence|]. subst pm'. simpl. by rewrite dom_insert_L.
  - exfalso. apply H0. rewrite <- (wf_cover _ _ Hwf). set_solver.
Qed.

Lemma Release_used now p pm : dom (usedPorts (Release now p pm)) = dom (usedPorts pm) ∖ {[p]}.
Proof.
  unfold Release. destruct (usedPorts pm !! p) eqn:Hp; simpl; [by rewrite dom_delete_L|].
  apply not_elem_of_dom in Hp. set_solver.
Qed.

Lemma step_wf allowed pm pm' : wf allowed pm → step pm pm' → wf allowed pm'.
Proof.
  intros Hwf Hstep. destruct Hstep.
  - apply Acquire_wf; [done|by apply perm_elements_free].
  - by apply Release_wf.
  - by apply clean_wf.
Qed.

(** C14: in every run of the port manager, from the ports of the configuration on,
    each allowed port is either free or used and never both, each used port belongs
    to exactly one open context that names it, and each reservation names its proxy
    and an allowed port. *)
Theorem ports_reachable_wf nt ba ap pm :
  reachable nt ba ap pm → wf (allowed_ports ap) pm.
Proof.
  unfold reachable. intros H.
  eapply (rtc_ind_r (wf (allowed_ports ap))); [apply NewManager_wf| |exact H].
  intros x y _ Hstep Hx. by eapply step_wf.
Qed.

(** A successful [Acquire] returns an allowed port, the requested one when a
    port was requested; that port stops being free, is used by an open context of
    this proxy, and is reserved for the proxy; no other port changes owner. *)
Theorem Acquire_ok allowed now net order name port pm p pm' :
  wf allowed pm → order ≡ₚ elements (freePorts pm) →
  Acquire now net order name port pm = (Ok p, pm') →
  p ∈ allowed ∧ (port ≠ 0 → p = port) ∧ freePorts pm' = freePorts pm ∖ {[p]} ∧
  ∃ l, usedPorts pm' = <[p := l]> (usedPorts pm) ∧
       reservedPorts pm' = <[name := l]> (reservedPorts pm) ∧
       ctxs pm' !! l = Some (mkPortCtx name p false now).
Proof.
  intros Hwf Hperm Heq. pose proof (perm_elements_free _ _ Hperm) as Ho.
  pose proof (Acquire_outcome now net order name port pm) as Hout. rewrite Heq in Hout.
  destruct Hout as [(q & i & Hs & _ & Hsrc & Hr)|[e ?]]; [simpl in *|done].
  destruct Hr as [?|(_ & _ & ?)]; simplify_eq.
  split_and!; [by eapply port_source_allowed| |done|].
  - intros Hne. destruct Hsrc as [[? _]|[[? _]|[? _]]]; [done..|]. done.
  - exists (nextCtx pm). split_and!; [done|done|]. simpl.
    by rewrite lookup_alter_eq, lookup_insert_eq.
Qed.

(** For a requested port the three refusals are exactly: the port is in use, the
    port is not in the configured ranges, the operating system does not give a free
    port; in every other case the request succeeds. *)
Theorem Acquire_specified allowed now net order name port pm :
  wf allowed pm → port ≠ 0 →
  let r := fst (Acquire now net order name port pm) in
  (r = Err ErrPortAlreadyUsed ↔ port ∈ dom (usedPorts pm)) ∧
  (r = Err ErrPortNotAllowed ↔ port ∉ allowed) ∧
  (r = Err ErrPortUnAvailable ↔
     port ∈ freePorts pm ∧ isPortAvailable pm (net 0%nat) port = false) ∧
  (r = Ok port ↔ port ∈ freePorts pm ∧ isPortAvailable pm (net 0%nat) port = true).
Proof.
  intros Hwf Hport. unfold Acquire.
  pose proof (wf_disjoint _ _ Hwf) as Hd. pose proof (wf_cover _ _ Hwf) as Hc.
  destruct (Z.eqb_spec port 0); [done|]. simpl.
  change (isPortAvailable (new_ctx _ pm)) with (isPortAvailable pm).
  case_decide as Hfree.
  - destruct (isPortAvailable _ _ _); simpl; set_solver.
  - destruct (usedPorts pm !! port) as [l|] eqn:Hl; simpl.
    + assert (port ∈ dom (usedPorts pm)) by (apply elem_of_dom; eauto). set_solver.
    + assert (port ∉ dom (usedPorts pm)) by (by apply not_elem_of_dom). set_solver.
Qed.

(** When the operating system refuses to bind a port that is in use, [Acquire]
    never hands out a port another proxy holds, not even through a reservation. *)
Theorem Acquire_exclusive allowed now net order name port pm p pm' :
  wf allowed pm → order ≡ₚ elements (freePorts pm) →
  (∀ i q, q ∈ dom (usedPorts pm) → isPortAvailable pm (net i) q = false) →
  Acquire now net order name port pm = (Ok p, pm') →
  p ∈ freePorts pm ∧ usedPorts pm !! p = None.
Proof.
  intros Hwf Hperm Hos Heq. pose proof (perm_elements_free _ _ Hperm) as Ho.
  pose proof (Acquire_outcome now net order name port pm) as Hout. rewrite Heq in Hout.
  destruct Hout as [(q & i & Hs & Hav & Hsrc & Hr)|[e ?]]; [simpl in *|done].
  destruct Hr as [?|(_ & _ & ?)]; simplify_eq.
  assert (q ∉ dom (usedPorts pm)) as Hq by (intros Hq%(Hos i); congruence).
  split; [|by apply not_elem_of_dom].
  pose proof (port_source_allowed _ _ _ _ _ _ _ Hwf Ho Hsrc) as Ha.
  rewrite <- (wf_cover _ _ Hwf) in Ha. set_solver.
Qed.

(** ** Reservations survive: the sticky random port *)

(** What other clients of the manager may do while proxy [name] is away: anything
    but acquiring under [name]; the cleaner runs no later than 24 hours after [t0]
    and releases happen at [t0] or later. *)
Inductive away_step (name : string) (t0 : time) : Manager → Manager → Prop :=
| away_acquire pm now net order name' port :
    name' ≠ name → order ≡ₚ elements (freePorts pm) →
    away_step name t0 pm (snd (Acquire now net order name' port pm))
| away_release pm now port : t0 <= now → away_step name t0 pm (Release now port pm)
| away_clean pm now :
    now - t0 <= MaxPortReservedDuration → away_step name t0 pm (cleanReservedPorts now pm).

(** The reservation of [name] for port [p], not older than [t0]. *)
Definition reserves (name : string) (p : Z) (t0 : time) (pm : Manager) : Prop :=
  ∃ l c, reservedPorts pm !! name = Some l ∧ ctxs pm !! l = Some c ∧
         Port c = p ∧ (Closed c = true → t0 <= UpdateTime c).

Lemma away_step_reserves allowed name p t0 pm pm' :
  wf allowed pm → away_step name t0 pm pm' → reserves name p t0 pm → reserves name p t0 pm'.
Proof.
  intros Hwf Hstep (l & c & Hl & Hc & Hp & Ht).
  assert (l ≠ nextCtx pm) as Hne by (pose proof (wf_fresh _ _ Hwf l ltac:(eauto)); lia).
  destruct Hstep as [pm now net order name' port Hname Ho|pm now port Hnow|pm now Hnow].
  - destruct (Acquire_outcome now net order name' port pm)
      as [(q & i & Hs & _)|[e He]]; [rewrite Hs|rewrite He]; exists l, c; simpl.
    + rewrite lookup_insert_ne by done. rewrite lookup_alter_ne, lookup_insert_ne by done. done.
    + by rewrite lookup_insert_ne.
  - unfold Release. destruct (usedPorts pm !! port) as [l'|]; [|by exists l, c].
    exists l. simpl. rewrite lookup_alter. case_decide; subst; [|by exists c].
    rewrite Hc. simpl. eexists. split_and!; [done|done|done|]. simpl. lia.
  - exists l, c. simpl. split_and!; [|done..]. apply map_lookup_filter_Some. split; [done|].
    rewrite Hc. simpl. unfold expired. destruct (Closed c) eqn:Ecl; [|done]. simpl.
    specialize (Ht eq_refl). apply Z.ltb_ge. unfold time_sub.
    unfold MaxPortReservedDuration, Hour, Second, Millisecond, int64_min in *. lia.
Qed.

Lemma away_step_step name t0 pm pm' : away_step name t0 pm pm' → step pm pm'.
Proof. destruct 1; by constructor. Qed.

(** A proxy that asked for a random port and got [p] gets [p] again when it asks
    again within 24 hours of [t0], whatever other proxies acquired and released in
    between, if the operating system lets the port be bound. *)
Theorem sticky_port allowed now net order name port pm p pm1 t0 pm2 now2 net2 order2 :
  wf allowed pm → order ≡ₚ elements (freePorts pm) →
  Acquire now net order name port pm = (Ok p, pm1) →
  rtc (away_step name t0) pm1 pm2 →
  isPortAvailable pm2 (net2 0%nat) p = true →
  fst (Acquire now2 net2 order2 name 0 pm2) = Ok p.
Proof.
  intros Hwf Hperm Hacq Hrun Hav.
  assert (wf allowed pm1) as Hwf1.
  { change pm1 with (snd (Ok (E:=PortError) p, pm1)). rewrite <- Hacq.
    apply Acquire_wf; [done|by apply perm_elements_free]. }
  assert (reserves name p t0 pm1) as Hres.
  { pose proof (Acquire_outcome now net order name port pm) as Hout. rewrite Hacq in Hout.
    destruct Hout as [(q & i & Hs & _ & _ & Hr)|[e ?]]; [simpl in *|done].
    destruct Hr as [?|(_ & _ & ?)]; simplify_eq.
    eexists _, _. simpl. rewrite lookup_insert_eq, lookup_alter_eq, lookup_insert_eq. done. }
  clear Hacq Hperm Hwf.
  assert (wf allowed pm2 ∧ reserves name p t0 pm2) as [Hwf2 (l & c & Hl & Hc & <- & _)].
  { clear Hav. induction Hrun as [|x y z Hxy _ IH]; [done|]. apply IH.
    - eapply step_wf, away_step_step; done.
    - by eapply away_step_reserves. }
  unfold Acquire. simpl. rewrite Hl. simpl. rewrite lookup_insert_ne.
  - rewrite Hc. change (isPortAvailable (new_ctx _ pm2)) with (isPortAvailable pm2).
    by rewrite Hav.
  - pose proof (wf_fresh _ _ Hwf2 l ltac:(eauto)). lia.
Qed.

(** A failed [Acquire] leaves the free, used and reserved ports as they were,
    when port 0 is not among the configured ports. *)
Theorem Acquire_err_unchanged allowed now net order name port pm e pm' :
  wf allowed pm → order ≡ₚ elements (freePorts pm) → 0 ∉ allowed →
  Acquire now net order name port pm = (Err e, pm') →
  freePorts pm' = freePorts pm ∧ usedPorts pm' = usedPorts pm ∧
  reservedPorts pm' = reservedPorts pm.
Proof.
  intros Hwf Hperm H0 Heq. pose proof (perm_elements_free _ _ Hperm) as Ho.
  pose proof (Acquire_outcome now net order name port pm) as Hout. rewrite Heq in Hout.
  destruct Hout as [(q & i & Hs & _ & Hsrc & Hr)|[e' ?]]; [simpl in *|by simplify_eq].
  destruct Hr as [?|(-> & Hin & _)]; [done|]. exfalso. apply H0.
  rewrite <- (wf_cover _ _ Hwf). set_solver.
Qed.

(** ** Witnesses and the port-0 corner *)

Definition all_free : net_probe := mkNet (λ _ _, true) (λ _ _, true) (λ _ _ _, true).
Definition none_free : net_probe := mkNet (λ _ _, false) (λ _ _, false) (λ _ _ _, false).
Definition pm_7000 : Manager := NewManager "tcp" "0.0.0.0" [mkPortsRange 7000 7002 0].
Definition allowed_7000 : gset Z := allowed_ports [mkPortsRange 7000 7002 0].

(** With port 0 in the configured ports, [Acquire(name, 0)] reports that no port
    is available and yet marks port 0 as used and reserves it. *)
Theorem Acquire_port_zero_leak :
  let pm := NewManager "tcp" "" [mkPortsRange 0 0 0] in
  let '(r, pm') := Acquire 1 (λ _, all_free) (elements (freePorts pm)) "web" 0 pm in
  r = Err ErrNoAvailablePort ∧ freePorts pm' = ∅ ∧ usedPorts pm' !! 0 = Some 0%nat.
Proof. vm_compute. done. Qed.

Lemma ports_reachable_wf_witness :
  wf allowed_7000 (snd (Acquire 5 (λ _, all_free) (elements (freePorts pm_7000)) "a" 7001 pm_7000)).
Proof.
  apply (ports_reachable_wf "tcp" "0.0.0.0").
  apply rtc_once. by apply step_acquire.
Defined.

Lemma Acquire_ok_witness :
  7001 ∈ allowed_7000 ∧
  fst (Acquire 5 (λ _, all_free) (elements (freePorts pm_7000)) "a" 7001 pm_7000) = Ok 7001.
Proof.
  split; [|by vm_compute].
  eapply (Acquire_ok allowed_7000 5 (λ _, all_free) (elements (freePorts pm_7000)) "a" 7001 pm_7000);
    [apply NewManager_wf|done|by vm_compute].
Defined.

Lemma Acquire_specified_witness :
  fst (Acquire 5 (λ _, none_free) [] "a" 7001 pm_7000) = Err ErrPortUnAvailable.
Proof.
  apply (Acquire_specified allowed_7000 5 (λ _, none_free) [] "a" 7001 pm_7000);
    [apply NewManager_wf|done|]. split; [|done]. vm_compute. done.
Defined.

Lemma Acquire_exclusive_witness : 7002 ∈ freePorts pm_7000 ∧ usedPorts pm_7000 !! 7002 = None.
Proof.
  eapply (Acquire_exclusive allowed_7000 5 (λ _, all_free) (elements (freePorts pm_7000)) "a" 7002 pm_7000);
    [apply NewManager_wf|done|set_solver|by vm_compute].
Defined.

Definition pm_sticky : Manager :=
  snd (Acquire 5 (λ _, all_free) [7000; 7001; 7002] "a" 0 pm_7000).

Lemma sticky_port_witness :
  fst (Acquire 9 (λ _, all_free) [] "a" 0 (Release 6 7000 pm_sticky)) = Ok 7000.
Proof.
  apply (sticky_port allowed_7000 5 (λ _, all_free) [7000; 7001; 7002] "a" 0
    pm_7000 7000 pm_sticky 6 (Release 6 7000 pm_sticky) 9 (λ _, all_free) []);
    [apply NewManager_wf|decide_vm|by vm_compute|apply rtc_once; by constructor|by vm_compute].
Defined.

Lemma Acquire_err_unchanged_witness :
  let pm' := snd (Acquire 5 (λ _, none_free) (elements (freePorts pm_7000)) "a" 7001 pm_7000) in
  freePorts pm' = freePorts pm_7000 ∧ usedPorts pm' = usedPorts pm_7000 ∧
  reservedPorts pm' = reservedPorts pm_7000.
Proof.
  eapply (Acquire_err_unchanged allowed_7000 5 (λ _, none_free) (elements (freePorts pm_7000)) "a" 7001
    pm_7000 ErrPortUnAvailable); [apply NewManager_wf|done|decide_vm|by vm_compute].
Defined.
