(* ===== verification/Router.v ===== *)
(** Virtual-host routing, [src/pkg/util/vhost/router.go] and the lookups built on
    it in [http.go] ([getVhost]) and [vhost.go] ([getListener]).  Routes are
    indexed by lower-case domain, then by HTTP user, then kept in a list sorted by
    decreasing location, so that the first matching location is the longest one.
    [Spec] is the abstract table the lists implement. *)
From Stdlib Require Import ZArith Lia Ascii String.
From stdpp Require Import base gmap strings list sorting.
From S2P Require Import Prelude GoStrings.
Local Open Scope string_scope.
Local Open Scope list_scope.

(** ** Data *)

Record Router (P : Type) := mkRouter {
  domain : string; location : string; httpUser : string; payload : P }.
Arguments mkRouter {P} _ _ _ _.
Arguments domain {P} _.
Arguments location {P} _.
Arguments httpUser {P} _.
Arguments payload {P} _.

Abbreviation Routers P := (gmap string (gmap string (list (Router P)))).

Inductive RouterError := ErrRouterConfigConflict.

(** The order of [slices.SortFunc] in [Add]: decreasing location. *)
Definition loc_ge {P} (a b : Router P) : Prop := String.le (location b) (location a).
#[global] Instance loc_ge_dec {P} : RelDecision (@loc_ge P) := λ a b, String.le_dec _ _.
#[global] Instance loc_ge_total {P} : Total (@loc_ge P).
Proof. intros a b. destruct (String.le_total (location a) (location b)); [right|left]; done. Qed.
#[global] Instance loc_ge_trans {P} : Transitive (@loc_ge P).
Proof. intros a b c Hab Hbc. unfold loc_ge in *. by etrans. Qed.

(** ** Operations *)

Definition NewRouters {P} : Routers P := ∅.

Section ops.
Context {P : Type}.
Implicit Types (rs : Routers P).

(** The list of routers for a domain and a user, absent maps read as empty lists. *)
Definition routers_at rs (d u : string) : list (Router P) :=
  match rs !! d with
  | Some byUser => match byUser !! u with Some vrs => vrs | None => [] end
  | None => []
  end.

Definition exist rs (host path user : string) : option (Router P) :=
  match rs !! host with
  | None => None
  | Some byUser =>
      match byUser !! user with
      | None => None
      | Some routers => find_first (λ r, path =s? location r) routers
      end
  end.

Definition Add (d loc user : string) (p : P) rs : result RouterError (Routers P) :=
  let d := ToLower d in
  match exist rs d loc user with
  | Some _ => Err ErrRouterConfigConflict
  | None =>
      let byUser := default ∅ (rs !! d) in
      let vrs := default [] (byUser !! user) in
      let vrs := merge_sort loc_ge (vrs ++ [mkRouter d loc user p]) in
      Ok (<[d := <[user := vrs]> byUser]> rs)
  end.

Definition Del (d loc user : string) rs : Routers P :=
  let d := ToLower d in
  match rs !! d with
  | None => rs
  | Some byUser =>
      match byUser !! user with
      | None => rs
      | Some vrs =>
          let newVrs := filter (λ vr, location vr ≠ loc) vrs in
          <[d := <[user := newVrs]> byUser]> rs
      end
  end.

Definition Get rs (host path user : string) : option (Router P) :=
  let host := ToLower host in
  match rs !! host with
  | None => None
  | Some byUser =>
      match byUser !! user with
      | None => None
      | Some vrs => find_first (λ vr, HasPrefix path (location vr)) vrs
      end
  end.

(** *** [HTTPReverseProxy.getVhost] and [Muxer.getListener] *)

(** The closure [findRouter]: the given user first, then the routes for every user. *)
Definition findRouter rs (inDomain inLocation inUser : string) : option (Router P) :=
  match Get rs inDomain inLocation inUser with
  | Some vr => Some vr
  | None => Get rs inDomain inLocation ""
  end.

(** The loop [for len(domainSplit) >= 3]: replace the first label by ["*"], look the
    pattern up, drop the first label. *)
Fixpoint wildcard_loop rs (domainSplit : list string) (loc user : string) : option (Router P) :=
  match domainSplit with
  | _ :: ((_ :: _ :: _) as rest) =>
      match findRouter rs (Join ("*" :: rest) ".") loc user with
      | Some vr => Some vr
      | None => wildcard_loop rs rest loc user
      end
  | _ => None
  end.

Definition getVhost rs (d loc user : string) : option (Router P) :=
  match findRouter rs d loc user with
  | Some vr => Some vr
  | None =>
      match wildcard_loop rs (Split "."%char d) loc user with
      | Some vr => Some vr
      | None => findRouter rs "*" loc user
      end
  end.

(** [Muxer.getListener] is the same search and returns the payload, a listener. *)
Definition getListener rs (name path user : string) : option P :=
  match findRouter rs name path user with
  | Some vr => Some (payload vr)
  | None =>
      match wildcard_loop rs (Split "."%char name) path user with
      | Some vr => Some (payload vr)
      | None => payload <$> findRouter rs "*" path user
      end
  end.

End ops.

(** ** The abstract table *)

Module Spec.
(** One payload per (domain, location, user), domains in lower case. *)
Abbreviation table P := (gmap (string * string * string) P).

Definition add {P} (d loc u : string) (p : P) (t : table P) : option (table P) :=
  match t !! (ToLower d, loc, u) with
  | Some _ => None
  | None => Some (<[(ToLower d, loc, u) := p]> t)
  end.

Definition del {P} (d loc u : string) (t : table P) : table P :=
  delete (ToLower d, loc, u) t.

(** [best t d path u r]: [r] is the route of the longest location of the table that
    is a prefix of [path], if there is one. *)
Definition best {P} (t : table P) (d path u : string) (r : option (string * P)) : Prop :=
  match r with
  | Some (loc, p) =>
      t !! (ToLower d, loc, u) = Some p ∧ HasPrefix path loc = true ∧
      ∀ loc' p', t !! (ToLower d, loc', u) = Some p' → HasPrefix path loc' = true →
        (String.length loc' <= String.length loc)%nat
  | None => ∀ loc p, t !! (ToLower d, loc, u) = Some p → HasPrefix path loc = false
  end.
End Spec.

(** ** Lemmas on the lists *)

Section lists.
Context {P : Type}.
Implicit Types (rs : Routers P) (vrs : list (Router P)).

Lemma exist_at rs host path user :
  exist rs host path user = find_first (λ r, path =s? location r) (routers_at rs host user).
Proof. unfold exist, routers_at. by repeat case_match. Qed.

Lemma Get_at rs host path user :
  Get rs host path user =
  find_first (λ vr, HasPrefix path (location vr)) (routers_at rs (ToLower host) user).
Proof. unfold Get, routers_at. by repeat case_match. Qed.

Lemma routers_at_insert rs d u vrs d' u' :
  routers_at (<[d := <[u := vrs]> (default ∅ (rs !! d))]> rs) d' u' =
  if decide (d = d' ∧ u = u') then vrs else routers_at rs d' u'.
Proof.
  unfold routers_at. rewrite lookup_insert. case_decide as Hd; subst.
  - rewrite lookup_insert. destruct (decide (u = u')); subst.
    + by rewrite decide_True.
    + rewrite decide_False by naive_solver.
      destruct (rs !! d') as [m|]; simpl; [done|]. by rewrite lookup_empty.
  - by rewrite decide_False by naive_solver.
Qed.

Lemma Add_at d loc user (p : P) rs rs' :
  Add d loc user p rs = Ok rs' →
  find_first (λ r, loc =s? location r) (routers_at rs (ToLower d) user) = None ∧
  ∀ d' u', routers_at rs' d' u' =
    if decide (ToLower d = d' ∧ user = u')
    then merge_sort loc_ge (routers_at rs d' u' ++ [mkRouter (ToLower d) loc user p])
    else routers_at rs d' u'.
Proof.
  unfold Add. rewrite exist_at. case_match; intros; simplify_eq. split; [done|].
  intros d' u'. rewrite routers_at_insert. case_decide as Hd; [|done]. destruct Hd as [<- <-].
  f_equal. f_equal. unfold routers_at. by destruct (rs !! ToLower d) as [m|];
    simpl; [destruct (m !! user)|rewrite lookup_empty].
Qed.

Lemma Del_at d loc user rs d' u' :
  routers_at (Del d loc user rs) d' u' =
  if decide (ToLower d = d' ∧ user = u')
  then filter (λ vr, location vr ≠ loc) (routers_at rs d' u') else routers_at rs d' u'.
Proof.
  unfold Del. destruct (rs !! ToLower d) as [m|] eqn:Em.
  - destruct (m !! user) as [vrs|] eqn:Eu.
    + assert (m = default ∅ (rs !! ToLower d)) as -> by by rewrite Em.
      rewrite routers_at_insert. case_decide as Hd; [|done]. destruct Hd as [<- <-].
      unfold routers_at. rewrite Em in *. simpl in *. by rewrite Eu.
    + case_decide as Hd; [|done]. destruct Hd as [<- <-].
      unfold routers_at. by rewrite Em, Eu.
  - case_decide as Hd; [|done]. destruct Hd as [<- <-]. unfold routers_at. by rewrite Em.
Qed.

(** A well-formed list: sorted by decreasing location, locations distinct, and every
    router filed under its own domain and user. *)
Record wf_list (d u : string) vrs : Prop := {
  wf_sorted : StronglySorted loc_ge vrs;
  wf_nodup : NoDup (location <$> vrs);
  wf_filed : Forall (λ r, domain r = d ∧ httpUser r = u) vrs }.

Definition wf_routers rs : Prop := ∀ d u, wf_list d u (routers_at rs d u).

Lemma find_loc_None loc vrs :
  find_first (λ r, loc =s? location r) vrs = None ↔ loc ∉ location <$> vrs.
Proof.
  rewrite find_first_None, Forall_forall. setoid_rewrite seqb_false.
  rewrite list_elem_of_fmap. naive_solver.
Qed.

(** In a list with distinct locations, looking a location up is membership. *)
Lemma find_loc_Some loc vrs r :
  NoDup (location <$> vrs) →
  find_first (λ r, loc =s? location r) vrs = Some r ↔ r ∈ vrs ∧ location r = loc.
Proof.
  intros Hnd. split.
  - intros [? H%seqb_true]%find_first_elem. done.
  - intros [Hr <-]. induction vrs as [|r' vrs IH]; [set_solver|]. simpl in *.
    apply NoDup_cons in Hnd as [Hni Hnd].
    destruct (seqb_spec (location r) (location r')) as [Heq|Hne].
    + f_equal. apply elem_of_cons in Hr as [->|Hr]; [done|].
      exfalso. apply Hni. rewrite <- Heq. by apply list_elem_of_fmap_2.
    + apply IH; [done|]. set_solver.
Qed.

Lemma find_loc_perm loc vrs vrs' :
  vrs ≡ₚ vrs' → NoDup (location <$> vrs) →
  find_first (λ r, loc =s? location r) vrs = find_first (λ r, loc =s? location r) vrs'.
Proof.
  intros Hp Hnd. apply option_eq. intros r.
  rewrite !find_loc_Some by (rewrite <- ?Hp; done). by rewrite Hp.
Qed.

(** The first location of a well-formed list that is a prefix is the longest one. *)
Lemma sorted_first_longest d u vrs path r :
  wf_list d u vrs → find_first (λ vr, HasPrefix path (location vr)) vrs = Some r →
  ∀ r', r' ∈ vrs → HasPrefix path (location r') = true →
    (String.length (location r') <= String.length (location r))%nat.
Proof.
  intros [Hs _ _] (l1 & l2 & -> & Hr & Hl1)%find_first_Some r' Hr' Hp.
  apply StronglySorted_app in Hs as (_ & _ & Hs).
  apply elem_of_app in Hr' as [Hr'|Hr'].
  - rewrite Forall_forall in Hl1. by rewrite (Hl1 r') in Hp.
  - apply elem_of_cons in Hr' as [->|Hr']; [done|].
    apply StronglySorted_cons in Hs as [Hall Hs]. rewrite Forall_forall in Hall.
    eapply prefix_compare_length; [done..|]. by apply Hall.
Qed.

Lemma wf_list_insert d u vrs loc (p : P) :
  wf_list d u vrs → loc ∉ location <$> vrs →
  wf_list d u (merge_sort loc_ge (vrs ++ [mkRouter d loc u p])).
Proof.
  intros [Hs Hn Hf] Hloc. split.
  - apply StronglySorted_merge_sort; apply _.
  - rewrite merge_sort_Permutation, fmap_app. simpl.
    apply NoDup_app. split_and!; [done|set_solver|apply NoDup_singleton].
  - rewrite merge_sort_Permutation. apply Forall_app. split; [done|]. by repeat constructor.
Qed.

Lemma wf_list_filter d u vrs loc :
  wf_list d u vrs → wf_list d u (filter (λ vr, location vr ≠ loc) vrs).
Proof.
  intros [Hs Hn Hf]. split.
  - by apply StronglySorted_filter.
  - by apply NoDup_fmap_filter.
  - by apply Forall_filter_2.
Qed.

Lemma Add_wf d loc u (p : P) rs rs' : wf_routers rs → Add d loc u p rs = Ok rs' → wf_routers rs'.
Proof.
  intros Hwf [Hnone Hat]%Add_at d' u'. rewrite Hat. case_decide as Hd; [|done].
  destruct Hd as [<- <-]. apply wf_list_insert; [done|]. by apply find_loc_None.
Qed.

Lemma Del_wf d loc u rs : wf_routers rs → wf_routers (Del d loc u rs).
Proof. intros Hwf d' u'. rewrite Del_at. case_decide; [by apply wf_list_filter|done]. Qed.

Lemma NewRouters_wf : wf_routers (NewRouters (P:=P)).
Proof. intros d u. unfold routers_at, NewRouters. rewrite lookup_empty. by repeat constructor. Qed.

(** ** Refinement of the abstract table *)

(** [rs] implements [t]: well-formed lists, and the same payload at every key. *)
Definition refines rs (t : Spec.table P) : Prop :=
  wf_routers rs ∧
  ∀ d loc u, t !! (d, loc, u) =
    payload <$> find_first (λ r, loc =s? location r) (routers_at rs d u).

(** A well-formed, lower-case key set: routes are filed under lower-case domains. *)
Lemma refines_Some rs t d loc u p :
  refines rs t →
  t !! (d, loc, u) = Some p ↔ ∃ r, r ∈ routers_at rs d u ∧ location r = loc ∧ payload r = p.
Proof.
  intros [Hwf Ht]. rewrite Ht, fmap_Some.
  setoid_rewrite find_loc_Some; [|apply Hwf]. naive_solver.
Qed.

(** Looking a location up after an insertion, and after a removal. *)
Lemma find_loc_insert loc vrs r :
  NoDup (location <$> vrs ++ [r]) →
  find_first (λ r, loc =s? location r) (merge_sort loc_ge (vrs ++ [r])) =
  if decide (loc = location r) then Some r
  else find_first (λ r, loc =s? location r) vrs.
Proof.
  intros Hnd. pose proof Hnd as Hnd'. rewrite fmap_app, NoDup_app in Hnd'.
  destruct Hnd' as (Hnd' & Hdis & _). simpl in Hdis.
  apply option_eq. intros x. rewrite find_loc_Some by (by rewrite merge_sort_Permutation).
  rewrite merge_sort_Permutation, elem_of_app, list_elem_of_singleton.
  case_decide as Hloc; [subst|rewrite find_loc_Some by done; naive_solver].
  split; [|naive_solver]. intros [[Hx| ->] Heq]; [|done]. exfalso.
  apply (Hdis (location x)); [by apply list_elem_of_fmap_2|]. rewrite Heq. set_solver.
Qed.

Lemma find_loc_filter loc loc' vrs :
  find_first (λ r, loc' =s? location r) (filter (λ vr, location vr ≠ loc) vrs) =
  if decide (loc' = loc) then None else find_first (λ r, loc' =s? location r) vrs.
Proof.
  induction vrs as [|r vrs IH]; [by case_decide|]. rewrite filter_cons. simpl.
  destruct (decide (location r ≠ loc)) as [Hr|Hr]; simpl; rewrite IH.
  - destruct (seqb_spec loc' (location r)); [|done]. subst. by rewrite decide_False.
  - case_decide; [done|]. destruct (seqb_spec loc' (location r)); [|done].
    subst. by destruct Hr.
Qed.

Lemma refines_New : refines NewRouters ∅.
Proof.
  split; [apply NewRouters_wf|]. intros d loc u. unfold routers_at, NewRouters.
  by rewrite !lookup_empty.
Qed.

Lemma refines_Add rs t d loc u (p : P) :
  refines rs t →
  match Add d loc u p rs, Spec.add d loc u p t with
  | Ok rs', Some t' => refines rs' t'
  | Err ErrRouterConfigConflict, None => True
  | _, _ => False
  end.
Proof.
  intros [Hwf Ht]. unfold Spec.add. rewrite Ht, <- exist_at.
  destruct (Add d loc u p rs) as [rs'|[]] eqn:Hadd.
  - pose proof (Add_wf _ _ _ _ _ _ Hwf Hadd) as Hwf'.
    apply Add_at in Hadd as [Hnone Hat]. rewrite exist_at, Hnone. simpl. split; [done|].
    intros d' loc' u'. rewrite Hat, lookup_insert, Ht.
    destruct (decide (ToLower d = d' ∧ u = u')) as [[<- <-]|Hk].
    + rewrite find_loc_insert.
      * simpl. repeat case_decide; naive_solver.
      * rewrite <- (merge_sort_Permutation loc_ge).
        specialize (Hwf' (ToLower d) u). rewrite Hat, decide_True in Hwf' by done. apply Hwf'.
    + rewrite decide_False; [done|]. naive_solver.
  - unfold Add in Hadd. by destruct (exist rs (ToLower d) loc u).
Qed.

Lemma refines_Del rs t d loc u :
  refines rs t → refines (Del d loc u rs) (Spec.del d loc u t).
Proof.
  intros [Hwf Ht]. split; [by apply Del_wf|]. intros d' loc' u'. unfold Spec.del.
  rewrite Del_at, lookup_delete, Ht.
  destruct (decide (ToLower d = d' ∧ u = u')) as [[<- <-]|Hk].
  - rewrite find_loc_filter. repeat case_decide; naive_solver.
  - rewrite decide_False; [done|]. naive_solver.
Qed.

Lemma refines_Get rs t host path u :
  refines rs t →
  Spec.best t host path u ((λ r, (location r, payload r)) <$> Get rs host path u).
Proof.
  intros Href. pose proof Href as [Hwf _]. rewrite Get_at.
  destruct (find_first _ _) as [r|] eqn:Hf; simpl.
  - pose proof (find_first_elem _ _ _ Hf) as [Hin Hpre].
    split_and!; [by eapply refines_Some; eauto|done|].
    intros loc' p' (r' & Hr' & <- & _)%(refines_Some _ _ _ _ _ _ Href) Hp.
    by eapply sorted_first_longest.
  - rewrite find_first_None, Forall_forall in Hf.
    intros loc p (r & Hr & <- & _)%(refines_Some _ _ _ _ _ _ Href). by apply Hf.
Qed.
End lists.

(** ** Properties of the router *)

Inductive rop (P : Type) := OpAdd (d loc u : string) (p : P) | OpDel (d loc u : string).
Arguments OpAdd {P} _ _ _ _.
Arguments OpDel {P} _ _ _.

(** A sequence of registrations and removals; a conflicting [Add] changes nothing. *)
Definition run_op {P} (rs : Routers P) (o : rop P) : Routers P :=
  match o with
  | OpAdd d loc u p => match Add d loc u p rs with Ok rs' => rs' | Err _ => rs end
  | OpDel d loc u => Del d loc u rs
  end.
Definition spec_op {P} (t : Spec.table P) (o : rop P) : Spec.table P :=
  match o with
  | OpAdd d loc u p => default t (Spec.add d loc u p t)
  | OpDel d loc u => Spec.del d loc u t
  end.

Lemma refines_op {P} (rs : Routers P) t o :
  refines rs t → refines (run_op rs o) (spec_op t o).
Proof.
  intros Href. destruct o as [d loc u p|d loc u]; simpl; [|by apply refines_Del].
  pose proof (refines_Add rs t d loc u p Href) as H.
  destruct (Add d loc u p rs) as [|[]], (Spec.add d loc u p t); done.
Qed.

Lemma refines_run {P} ops (rs : Routers P) t :
  refines rs t → refines (foldl run_op rs ops) (foldl spec_op t ops).
Proof.
  revert rs t. induction ops as [|o ops IH]; [done|]. intros rs t Href. by apply IH, refines_op.
Qed.

(** C12: after any sequence of [Add] and [Del] the nested maps of sorted lists implement
    the table with one payload per (lower-case domain, location, user), and [Get]
    returns the route of the longest registered location that is a prefix of the path. *)
Theorem routers_refine_table {P} (ops : list (rop P)) :
  let rs := foldl run_op NewRouters ops in
  let t := foldl spec_op ∅ ops in
  refines rs t ∧
  ∀ host path u,
    Spec.best t host path u ((λ r, (location r, payload r)) <$> Get rs host path u).
Proof.
  split; [apply refines_run, refines_New|]. intros host path u.
  apply refines_Get, refines_run, refines_New.
Qed.

Lemma HasPrefix_refl s : HasPrefix s s = true.
Proof. apply HasPrefix_spec. exists "". by rewrite append_nil_r. Qed.

(** A path that is a registered location is answered by that location. *)
Lemma wf_list_get_self {P} d u (vrs : list (Router P)) r :
  wf_list d u vrs → r ∈ vrs →
  find_first (λ vr, HasPrefix (location r) (location vr)) vrs = Some r.
Proof.
  intros Hwf Hr. destruct (find_first _ _) as [r'|] eqn:Hf.
  - pose proof (find_first_elem _ _ _ Hf) as [Hin Hpre].
    pose proof (sorted_first_longest _ _ _ _ _ Hwf Hf r Hr (HasPrefix_refl _)) as Hle.
    assert (location r' = location r) as Hloc.
    { apply (prefix_length_inj (location r)); [done|apply HasPrefix_refl|].
      apply HasPrefix_spec in Hpre as [t Ht].
      apply (f_equal String.length) in Ht. rewrite append_length in Ht. lia. }
    pose proof (find_loc_Some (location r) vrs) as Hfind. pose proof (wf_nodup _ _ _ Hwf).
    rewrite <- (proj2 (Hfind r H) (conj Hr eq_refl)). symmetry. by apply Hfind.
  - rewrite find_first_None, Forall_forall in Hf. specialize (Hf r Hr).
    by rewrite HasPrefix_refl in Hf.
Qed.

(** A successful [Add] makes the new route the answer for its own location on
    every spelling of the domain; [Del] with the same arguments leaves no route there;
    adding the same route twice is refused. *)
Theorem Add_Get_Del {P} (rs rs' : Routers P) d loc u p host :
  wf_routers rs → Add d loc u p rs = Ok rs' → ToLower host = ToLower d →
  (∃ r, Get rs' host loc u = Some r ∧ location r = loc ∧ payload r = p) ∧
  (∀ r, Get (Del d loc u rs') host loc u = Some r → location r ≠ loc) ∧
  (∀ p', Add host loc u p' rs' = Err ErrRouterConfigConflict).
Proof.
  intros Hwf Hadd Hhost. pose proof (Add_wf _ _ _ _ _ _ Hwf Hadd) as Hwf'.
  apply Add_at in Hadd as [Hnone Hat].
  set (new := mkRouter (ToLower d) loc u p).
  assert (new ∈ routers_at rs' (ToLower d) u) as Hnew.
  { rewrite Hat, decide_True by done. rewrite merge_sort_Permutation. set_solver. }
  split_and!.
  - exists new. split_and!; [|done..]. rewrite Get_at, Hhost.
    by apply (wf_list_get_self (ToLower d) u _ new).
  - intros r. rewrite Get_at, Del_at, Hhost, decide_True by done.
    intros [[? _]%list_elem_of_filter _]%find_first_elem. done.
  - intros p'. unfold Add. rewrite exist_at, Hhost. clear Hnone.
    destruct (find_first _ _) eqn:Hf; [done|]. apply find_loc_None in Hf.
    exfalso. apply Hf. change loc with (location new). by apply list_elem_of_fmap_2.
Qed.

(** ** The virtual-host search *)

(** The domains the search looks up, in order: the host, the wildcard patterns from
    the most to the least specific one, the match-all pattern. *)
Fixpoint wildcards (labels : list string) : list string :=
  match labels with
  | _ :: ((_ :: _ :: _) as rest) => Join ("*" :: rest) "." :: wildcards rest
  | _ => []
  end.

Definition candidates (d : string) : list string :=
  d :: wildcards (Split "."%char d) ++ ["*"].

Fixpoint first_match {A B} (f : A → option B) (l : list A) : option B :=
  match l with
  | [] => None
  | x :: l' => match f x with Some b => Some b | None => first_match f l' end
  end.

Lemma first_match_ext {A B} (f g : A → option B) l :
  (∀ x, x ∈ l → f x = g x) → first_match f l = first_match g l.
Proof.
  induction l as [|x l IH]; intros H; [done|]. simpl. rewrite H by set_solver.
  rewrite IH; [done|]. intros; apply H; set_solver.
Qed.

Lemma wildcard_loop_first {P} (rs : Routers P) labels loc u l' :
  match wildcard_loop rs labels loc u with
  | Some vr => Some vr
  | None => first_match (λ c, findRouter rs c loc u) l'
  end = first_match (λ c, findRouter rs c loc u) (wildcards labels ++ l').
Proof.
  induction labels as [|x [|y [|z rest]] IH]; [done..|].
  change (wildcard_loop rs (x :: y :: z :: rest) loc u) with
    (match findRouter rs (Join ("*" :: y :: z :: rest) ".") loc u with
     | Some vr => Some vr | None => wildcard_loop rs (y :: z :: rest) loc u end).
  change (wildcards (x :: y :: z :: rest)) with
    (Join ("*" :: y :: z :: rest) "." :: wildcards (y :: z :: rest)).
  cbn [app first_match]. destruct (findRouter _ _ _ _); [done|]. exact IH.
Qed.

Lemma getVhost_candidates {P} (rs : Routers P) d loc u :
  getVhost rs d loc u = first_match (λ c, findRouter rs c loc u) (candidates d).
Proof.
  unfold getVhost, candidates. simpl. case_match; [done|].
  rewrite <- wildcard_loop_first. simpl. repeat case_match; done.
Qed.

(** The pattern that replaces the first [i] labels of a host by a star. *)
Definition pattern (d : string) (i : nat) : string := Join ("*" :: drop i (Split "."%char d)) ".".

Lemma wildcards_pattern labels :
  wildcards labels = (λ i, Join ("*" :: drop i labels) ".") <$> seq 1 (length labels - 2).
Proof.
  induction labels as [|x [|y [|z rest]] IH]; [done..|].
  change (wildcards (x :: y :: z :: rest)) with (Join ("*" :: y :: z :: rest) "." :: wildcards (y :: z :: rest)).
  rewrite IH. change (length (x :: y :: z :: rest) - 2)%nat with (S (length rest)).
  change (length (y :: z :: rest) - 2)%nat with (length rest - 0)%nat. rewrite Nat.sub_0_r, <- cons_seq, fmap_cons. f_equal.
  rewrite <- (fmap_S_seq 1), <- list_fmap_compose. done.
Qed.

Lemma first_match_app {A B} (f : A → option B) l1 l2 :
  first_match f (l1 ++ l2) = match first_match f l1 with Some b => Some b | None => first_match f l2 end.
Proof. induction l1 as [|x l1 IH]; [done|]. simpl. by destruct (f x). Qed.

(** C13: the virtual-host search of HTTP requests is the first match over the host, the
    patterns that replace its first label, its first two labels and so on by a star, down to
    patterns with two labels behind the star, and the match-all pattern, each tried for the
    request's user and then for every user. The search of the HTTPS and tcpmux multiplexers
    gives the payload of the same route. The comment in the code goes one pattern further, to
    one label behind the star, such as [*.com]: the code agrees with it while no route of that
    pattern matches; and where one does, and nothing more specific, the comment promises that
    route and the code goes on to the match-all pattern. *)
Theorem vhost_search_order {P} (rs : Routers P) d loc u :
  let n := length (Split "."%char d) in
  let find c := findRouter rs c loc u in
  let search k := first_match find (d :: (pattern d <$> seq 1 k) ++ ["*"]) in
  getVhost rs d loc u = search (n - 2)%nat ∧
  getListener rs d loc u = payload <$> getVhost rs d loc u ∧
  (find (pattern d (n - 1)) = None → getVhost rs d loc u = search (n - 1)%nat) ∧
  ((2 <= n)%nat → ∀ r, find (pattern d (n - 1)) = Some r → first_match find (d :: (pattern d <$> seq 1 (n - 2))) = None →
     search (n - 1)%nat = Some r ∧ getVhost rs d loc u = find "*").
Proof.
  cbv zeta. set (n := length (Split "."%char d)). set (find := λ c, findRouter rs c loc u).
  assert (getVhost rs d loc u = first_match find (d :: (pattern d <$> seq 1 (n - 2)) ++ ["*"])) as Hg.
  { rewrite getVhost_candidates. unfold candidates. by rewrite wildcards_pattern. }
  assert (2 <= n → seq 1 (n - 1) = seq 1 (n - 2) ++ [n - 1])%nat as Hseq.
  { intros Hn. replace (n - 1)%nat with (S (n - 2)) at 1 by lia. rewrite seq_S. do 2 f_equal. lia. }
  set (pats := pattern d <$> seq 1 (n - 2)) in *.
  assert (∀ l, first_match find (d :: pats ++ l) =
    match first_match find (d :: pats) with Some b => Some b | None => first_match find l end) as Hfm
    by (intros l; apply (first_match_app find (d :: pats) l)).
  split_and!; [done|unfold getListener, getVhost; by repeat case_match| |].
  - intros Hno. destruct (decide (2 <= n)%nat) as [Hn|Hn]; [|rewrite Hg; unfold pats; by replace (n - 1)%nat with (n - 2)%nat by lia].
    rewrite Hg, (Hseq Hn), fmap_app, <- app_assoc. fold pats. rewrite !Hfm. simpl. by rewrite Hno.
  - intros Hn r Hr H0. rewrite Hg, (Hseq Hn), fmap_app, <- app_assoc. fold pats. rewrite !Hfm, H0. simpl. rewrite Hr.
    split; [done|]. by destruct (find "*").
Qed.

Lemma Split_ToLower s : Split "."%char (ToLower s) = ToLower <$> Split "."%char s.
Proof.
  induction s as [|c s IH]; [done|]. cbn [ToLower Split].
  assert (lower_ascii c = "."%char ↔ c = "."%char) as Hc
    by (destruct c as [[] [] [] [] [] [] [] []]; vm_compute; split; congruence).
  destruct (ascii_dec c "."%char), (ascii_dec (lower_ascii c) "."%char); try naive_solver.
  - simpl. by rewrite IH.
  - rewrite IH. by destruct (Split "."%char s).
Qed.

Lemma wildcards_labels c labels :
  c ∈ wildcards labels → Forall (λ s, ContainsByte s "."%char = false) labels →
  (3 <= length (Split "."%char c))%nat.
Proof.
  induction labels as [|x [|y [|z rest]] IH]; [set_solver..|].
  intros Hc Hall. change (wildcards (x :: y :: z :: rest))
    with (Join ("*" :: y :: z :: rest) "." :: wildcards (y :: z :: rest)) in Hc.
  apply Forall_cons in Hall as [_ Hall].
  apply elem_of_cons in Hc as [->|Hc]; [|by apply IH].
  change "." with (String "." "") at 1. rewrite Split_Join; [simpl; lia|done|].
  by constructor.
Qed.

Lemma Split_pieces sep s : Forall (λ w, ContainsByte w sep = false) (Split sep s).
Proof.
  induction s as [|c s IH]; simpl; [by repeat constructor|].
  destruct (ascii_dec c sep); [by constructor|].
  destruct (Split sep s) as [|w ws]; [constructor; [|done]; simpl|
    apply Forall_cons in IH as [? ?]; constructor; [simpl|done]]; by destruct (ascii_dec c sep).
Qed.

Lemma findRouter_delete {P} (rs : Routers P) k c loc u :
  ToLower c ≠ k → findRouter (delete k rs) c loc u = findRouter rs c loc u.
Proof.
  intros Hne. unfold findRouter, Get. rewrite !lookup_delete_ne by done. done.
Qed.

(** A route registered for a pattern of two labels such as [*.com] is never
    found by the wildcard search: only a host spelled like the pattern reaches it. *)
Theorem wildcard_tld_unmatched {P} (rs : Routers P) tld d loc u :
  ContainsByte tld "."%char = false → ToLower d ≠ ToLower ("*." +:+ tld) →
  getVhost (delete (ToLower ("*." +:+ tld)) rs) d loc u = getVhost rs d loc u.
Proof.
  intros Htld Hd. rewrite !getVhost_candidates. apply first_match_ext. intros c Hc.
  apply findRouter_delete. intros Heq. unfold candidates in Hc.
  assert (length (Split "."%char c) = 2%nat) as Hlen.
  { rewrite <- (length_fmap ToLower), <- Split_ToLower, Heq, Split_ToLower, length_fmap.
    change ("*." +:+ tld) with ("*" +:+ String "."%char tld).
    rewrite Split_sep by done. by rewrite Split_nosep. }
  rewrite elem_of_cons, elem_of_app, list_elem_of_singleton in Hc.
  destruct Hc as [->|[Hc| ->]]; [done| |done].
  pose proof (wildcards_labels _ _ Hc (Split_pieces _ _)). lia.
Qed.

(** ** Witnesses *)

Definition one_route : Routers nat := run_op NewRouters (OpAdd "Example.com" "/api" "" 7%nat).

Lemma Add_Get_Del_witness :
  ∃ r, Get one_route "example.COM" "/api" "" = Some r ∧ location r = "/api" ∧ payload r = 7%nat.
Proof.
  apply (Add_Get_Del (NewRouters (P:=nat)) one_route "Example.com" "/api" "" 7%nat "example.COM");
    [apply NewRouters_wf|reflexivity|reflexivity].
Defined.

Lemma wildcard_tld_unmatched_witness :
  let rs := run_op (NewRouters (P:=nat)) (OpAdd "*.com" "" "" 3%nat) in
  getVhost rs "test.example.com" "/" "" = None.
Proof.
  simpl. rewrite <- (wildcard_tld_unmatched _ "com" "test.example.com" "/" "") by done.
  by vm_compute.
Defined.
