(* ===== verification/Vhost.v ===== *)
(** The vhost muxer of [src/pkg/util/vhost/vhost.go] (used for https and tcpmux
    proxies) and the route table of the HTTP reverse proxy
    ([src/pkg/util/vhost/http.go]), on top of Router. *)
From Stdlib Require Import ZArith Lia Ascii String.
From stdpp Require Import base gmap strings list sorting.
From S2P Require Import Prelude GoStrings Router.
Local Open Scope string_scope.
Local Open Scope list_scope.

(** ** Data *)

(** [RouteConfig]; [F] stands for the connection functions (nil is [None]). *)
Record RouteConfig (F : Type) := mkRouteConfig {
  Domain : string;
  Location : string;
  RewriteHost : string;
  Username : string;
  Password : string;
  Headers : gmap string string;
  ResponseHeaders : gmap string string;
  RouteByHTTPUser : string;
  CreateConnFn : option F;
  ChooseEndpointFn : option F;
  CreateConnByEndpointFn : option F }.
Arguments mkRouteConfig {F} _ _ _ _ _ _ _ _ _ _ _.
Arguments Domain {F} _.
Arguments Location {F} _.
Arguments RewriteHost {F} _.
Arguments Username {F} _.
Arguments Password {F} _.
Arguments Headers {F} _.
Arguments ResponseHeaders {F} _.
Arguments RouteByHTTPUser {F} _.
Arguments CreateConnFn {F} _.
Arguments ChooseEndpointFn {F} _.
Arguments CreateConnByEndpointFn {F} _.

(** A [vhost.Listener]: what it routes; its channel and context carry no decisions. *)
Record Listener := mkListener {
  l_name : string;
  l_location : string;
  l_routeByHTTPUser : string;
  l_rewriteHost : string;
  l_username : string;
  l_password : string }.

(** The request information a muxer extracts from the first bytes of a connection. *)
Record reqInfo := mkReqInfo { ri_Host : string; ri_Path : string; ri_HTTPUser : string }.

(** ** Muxer operations *)

Definition new_listener {F} (cfg : RouteConfig F) : Listener :=
  mkListener (Domain cfg) (Location cfg) (RouteByHTTPUser cfg) (RewriteHost cfg)
    (Username cfg) (Password cfg).

Definition mux_Listen {F} (cfg : RouteConfig F) (rs : Routers Listener)
    : result RouterError (Listener * Routers Listener) :=
  let l := new_listener cfg in
  match Add (Domain cfg) (Location cfg) (RouteByHTTPUser cfg) l rs with
  | Ok rs' => Ok (l, rs')
  | Err e => Err e
  end.

(** [Listener.Close]: the route goes away (the channel is closed). *)
Definition listener_Close (l : Listener) (rs : Routers Listener) : Routers Listener :=
  Del (l_name l) (l_location l) (l_routeByHTTPUser l) rs.

(** What [Muxer.handle] does with a connection. *)
Inductive mux_outcome :=
| ConnClosed                    (* the connection is closed *)
| FailHook                      (* no route: the fail hook answers *)
| Delivered (l : Listener).     (* sent to the listener's channel *)

(** The muxer's functions and the answers of the connection: [vhostFunc] reads the
    request, the hooks are [None] when not set. *)
Record mux_funcs (Conn : Type) := mkMuxFuncs {
  SetDeadline : Conn → bool;
  vhostFunc : Conn → option reqInfo;
  successHook : option (Conn → reqInfo → bool);
  checkAuth : option (Conn → string → string → reqInfo → bool * bool);  (* ok, no error *)
  ClearDeadline : Conn → bool }.
Arguments mkMuxFuncs {Conn} _ _ _ _ _.
Arguments SetDeadline {Conn} _ _.
Arguments vhostFunc {Conn} _ _.
Arguments successHook {Conn} _.
Arguments checkAuth {Conn} _.
Arguments ClearDeadline {Conn} _ _.

Definition mux_handle {Conn} (mf : mux_funcs Conn) (rs : Routers Listener) (c : Conn) : mux_outcome :=
  if negb (SetDeadline mf c) then ConnClosed else
  match vhostFunc mf c with
  | None => ConnClosed
  | Some info =>
      let name := ToLower (ri_Host info) in
      let path := ToLower (ri_Path info) in
      match getListener rs name path (ri_HTTPUser info) with
      | None => FailHook
      | Some l =>
          let hook_ok := match successHook mf with Some f => f c info | None => true end in
          if negb hook_ok then ConnClosed else
          let auth_ok :=
            match checkAuth mf with
            | Some f =>
                if negb (l_username l =s? "") then
                  let '(ok, noerr) := f c (l_username l) (l_password l) info in ok && noerr
                else true
            | None => true
            end in
          if negb auth_ok then ConnClosed else
          if negb (ClearDeadline mf c) then ConnClosed else Delivered l
      end
  end.

(** ** Routes of the HTTP reverse proxy *)

Definition rp_Register {F} (cfg : RouteConfig F) (rs : Routers (RouteConfig F))
    : result RouterError (Routers (RouteConfig F)) :=
  Add (Domain cfg) (Location cfg) (RouteByHTTPUser cfg) cfg rs.

Definition rp_UnRegister {F} (cfg : RouteConfig F) (rs : Routers (RouteConfig F))
    : Routers (RouteConfig F) :=
  Del (Domain cfg) (Location cfg) (RouteByHTTPUser cfg) rs.

Definition GetRouteConfig {F} (rs : Routers (RouteConfig F)) (d loc user : string)
    : option (RouteConfig F) :=
  payload <$> getVhost rs d loc user.

(** ** Live listeners *)

(** The listener is the one registered for its domain, location and user. *)
Definition listening (rs : Routers Listener) (l : Listener) : Prop :=
  ∃ r, r ∈ routers_at rs (ToLower (l_name l)) (l_routeByHTTPUser l) ∧
       location r = l_location l ∧ payload r = l.

Lemma listening_unique rs l1 l2 :
  wf_routers rs → listening rs l1 → listening rs l2 →
  ToLower (l_name l1) = ToLower (l_name l2) → l_location l1 = l_location l2 →
  l_routeByHTTPUser l1 = l_routeByHTTPUser l2 → l1 = l2.
Proof.
  intros Hwf (r1 & H1 & L1 & P1) (r2 & H2 & L2 & P2) Hn Hl Hu.
  rewrite <- Hn, <- Hu in H2. rewrite <- Hl in L2.
  pose proof (wf_nodup _ _ _ (Hwf (ToLower (l_name l1)) (l_routeByHTTPUser l1))) as Hnd.
  pose proof (proj2 (find_loc_Some (l_location l1) _ r1 Hnd) (conj H1 L1)).
  pose proof (proj2 (find_loc_Some (l_location l1) _ r2 Hnd) (conj H2 L2)). congruence.
Qed.

Lemma mux_Listen_listening {F} (cfg : RouteConfig F) rs l rs' :
  wf_routers rs → mux_Listen cfg rs = Ok (l, rs') →
  wf_routers rs' ∧ ¬ listening rs l ∧ ∀ l', listening rs' l' ↔ listening rs l' ∨ l' = l.
Proof.
  intros Hwf. unfold mux_Listen. destruct (Add _ _ _ _ rs) as [rs1|] eqn:Hadd; intros; simplify_eq.
  split; [by eapply Add_wf|].
  pose proof (Add_at _ _ _ _ _ _ Hadd) as [Hnone Hat]. split.
  { intros (r & Hr & Hloc & _). apply find_loc_None in Hnone. apply Hnone.
    rewrite list_elem_of_fmap. by exists r. }
  intros l'. unfold listening. rewrite Hat. case_decide as Hd.
  - destruct Hd as [Hd1 Hd2]. setoid_rewrite merge_sort_Permutation.
    setoid_rewrite elem_of_app. setoid_rewrite list_elem_of_singleton. split.
    + intros (r & [Hr| ->] & Hloc & Hp); [left; eauto|right]. done.
    + intros [(r & Hr & Hloc & Hp)| ->]; [by eauto 10|]. eexists. split; [by right|]. done.
  - split; [eauto|]. intros [?| ->]; [done|]. by destruct Hd.
Qed.

Lemma listener_Close_listening rs l :
  wf_routers rs → listening rs l →
  wf_routers (listener_Close l rs) ∧
  ∀ l', listening (listener_Close l rs) l' ↔ listening rs l' ∧ l' ≠ l.
Proof.
  intros Hwf Hl. split; [by apply Del_wf|]. intros l'. unfold listener_Close.
  split.
  - intros (r & Hr & Hloc & Hp). rewrite Del_at in Hr. case_decide as Hd.
    + apply list_elem_of_filter in Hr as [Hne Hr]. split; [by exists r|]. intros ->. done.
    + split; [by exists r|]. intros ->. by apply Hd.
  - intros [Hl' Hne]. pose proof Hl' as (r & Hr & Hloc & Hp). exists r. split; [|done].
    rewrite Del_at. case_decide as Hd; [|done]. destruct Hd as [Hd1 Hd2].
    apply list_elem_of_filter. split; [|done]. intros Heq. apply Hne.
    eapply (listening_unique rs); [done|done|done|done| |done]. congruence.
Qed.

(** The muxer hands a connection to a listener only when that listener is what the
    search finds for the lower-case host and path of the request, and, when the
    listener asks for a user name and the muxer can check it, only after the check
    accepted the listener's credentials. *)
Theorem mux_handle_delivers {Conn} (mf : mux_funcs Conn) rs c l :
  mux_handle mf rs c = Delivered l →
  ∃ info, vhostFunc mf c = Some info ∧
    getListener rs (ToLower (ri_Host info)) (ToLower (ri_Path info)) (ri_HTTPUser info) = Some l ∧
    (∀ f, checkAuth mf = Some f → l_username l ≠ "" →
       f c (l_username l) (l_password l) info = (true, true)).
Proof.
  unfold mux_handle. destruct (negb (SetDeadline mf c)); [done|].
  destruct (vhostFunc mf c) as [info|]; [|done].
  destruct (getListener _ _ _ _) as [l'|] eqn:Hg; [|done].
  destruct (negb (match successHook mf with Some _ => _ | None => _ end)); [done|].
  match goal with |- context [negb ?a] => destruct a eqn:Ha end; [|done]. cbn [negb].
  destruct (negb (ClearDeadline mf c)); [done|]. intros [= ->].
  exists info. split_and!; [done|done|]. intros f Hf Hu. rewrite Hf in Ha.
  rewrite (proj2 (seqb_false _ _) Hu) in Ha. simpl in Ha.
  destruct (f c _ _ info) as [[] []]; done.
Qed.

(** ** Witness *)

Definition auth_funcs : mux_funcs nat :=
  mkMuxFuncs (λ _, true) (λ _, Some (mkReqInfo "A.example.com" "" "")) None
    (Some (λ _ u p _, ((u =s? "bob") && (p =s? "pw"), true))) (λ _, true).
Definition secured : Listener := mkListener "a.example.com" "" "" "" "bob" "pw".
Definition secured_routes : Routers Listener :=
  run_op NewRouters (OpAdd "a.example.com" "" "" secured).

Lemma mux_handle_delivers_witness :
  mux_handle auth_funcs secured_routes 0%nat = Delivered secured ∧
  ∃ info, vhostFunc auth_funcs 0%nat = Some info.
Proof.
  split; [by vm_compute|].
  destruct (mux_handle_delivers auth_funcs secured_routes 0%nat secured) as (info & Hi & _);
    [by vm_compute|by exists info].
Defined.
