(* ===== verification/Registry.v ===== *)
(** The registry of connected clients, [src/server/registry/registry.go]: metadata
    per "{user}.{clientID}" and an index from run IDs to those keys. *)
From Stdlib Require Import ZArith Lia Ascii String.
From stdpp Require Import base gmap strings list.
From S2P Require Import Prelude GoStrings.
Local Open Scope string_scope.
Local Open Scope list_scope.

(** ** Data *)

Record ClientInfo := mkClientInfo {
  Key : string; User : string; RawClientID : string; RunID : string;
  Hostname : string; IP : string; Version : string;
  FirstConnectedAt : time; LastConnectedAt : time; DisconnectedAt : time;
  Online : bool }.

Record ClientRegistry := mkRegistry {
  clients : gmap string ClientInfo;
  runIndex : gmap string string }.

Definition NewClientRegistry : ClientRegistry := mkRegistry ∅ ∅.

(** ** Operations *)

Definition composeClientKey (user id : string) : string :=
  if user =s? "" then id
  else if id =s? "" then user
  else user +:+ "." +:+ id.

Definition effective_id (rawClientID runID : string) : string :=
  if rawClientID =s? "" then runID else rawClientID.

(** [Register] at time [now]: the key, whether it conflicts, and the new registry. *)
Definition Register (now : time) (user rawClientID runID hostname version remoteAddr : string)
    (cr : ClientRegistry) : (string * bool) * ClientRegistry :=
  if runID =s? "" then (("", false), cr) else
  let key := composeClientKey user (effective_id rawClientID runID) in
  let enforceUnique := negb (rawClientID =s? "") in
  let old := clients cr !! key in
  let conflict :=
    match old with
    | Some info =>
        enforceUnique && Online info && negb (RunID info =s? "") && negb (RunID info =s? runID)
    | None => false
    end in
  if conflict then ((key, true), cr) else
  let idx :=
    match old with
    | Some info => if RunID info =s? "" then runIndex cr else delete (RunID info) (runIndex cr)
    | None => runIndex cr
    end in
  let base :=
    match old with
    | Some info => info
    | None => mkClientInfo key user "" "" "" "" "" now 0 0 false
    end in
  let first := if IsZero (FirstConnectedAt base) then now else FirstConnectedAt base in
  let info := mkClientInfo (Key base) (User base) rawClientID runID hostname remoteAddr version
                first now 0 true in
  ((key, false), mkRegistry (<[key := info]> (clients cr)) (<[runID := key]> idx)).

Definition set_offline (now : time) (i : ClientInfo) : ClientInfo :=
  mkClientInfo (Key i) (User i) (RawClientID i) "" (Hostname i) (IP i) (Version i)
    (FirstConnectedAt i) (LastConnectedAt i) now false.

Definition MarkOfflineByRunID (now : time) (runID : string) (cr : ClientRegistry) : ClientRegistry :=
  match runIndex cr !! runID with
  | None => cr
  | Some key =>
      let cs :=
        match clients cr !! key with
        | Some info =>
            if RunID info =s? runID then
              if RawClientID info =s? "" then delete key (clients cr)
              else <[key := set_offline now info]> (clients cr)
            else clients cr
        | None => clients cr
        end in
      mkRegistry cs (delete runID (runIndex cr))
  end.

(** [List] is the multiset of entries; the iteration order of the map is not fixed. *)
Definition List_ (cr : ClientRegistry) : list ClientInfo := snd <$> map_to_list (clients cr).

Definition GetByKey (cr : ClientRegistry) (key : string) : option ClientInfo := clients cr !! key.

Definition ClientID (info : ClientInfo) : string :=
  if negb (RawClientID info =s? "") then RawClientID info else RunID info.

(** ** The invariant *)

(** Every index entry points at a client that has that run ID; a client is filed
    under its own key; it is online exactly when it has a run ID. *)
Record wf (cr : ClientRegistry) : Prop := {
  wf_index : ∀ r k, runIndex cr !! r = Some k → r ≠ "" ∧
    ∃ i, clients cr !! k = Some i ∧ RunID i = r;
  wf_key : ∀ k i, clients cr !! k = Some i → Key i = k ∧ (Online i = true ↔ RunID i ≠ "") }.

(** Every online client is reachable through the index: its disconnection can be
    recorded. *)
Definition indexed (cr : ClientRegistry) : Prop :=
  ∀ k i, clients cr !! k = Some i → RunID i ≠ "" → runIndex cr !! RunID i = Some k.

Inductive rop :=
| OpRegister (now : time) (user rawClientID runID hostname version remoteAddr : string)
| OpOffline (now : time) (runID : string).

Definition run_op (cr : ClientRegistry) (o : rop) : ClientRegistry :=
  match o with
  | OpRegister now u raw r h v a => snd (Register now u raw r h v a cr)
  | OpOffline now r => MarkOfflineByRunID now r cr
  end.

Lemma NewClientRegistry_wf : wf NewClientRegistry.
Proof. by split. Qed.

Lemma Register_wf now u raw r h v a cr : wf cr → wf (snd (Register now u raw r h v a cr)).
Proof.
  intros [Hi Hk]. unfold Register. destruct (seqb_spec r "") as [|Hr]; [done|].
  set (key := composeClientKey _ _). case_match; [done|]. split; simpl.
  - intros r' k'. rewrite lookup_insert. case_decide as Hrr; intros Hr'; simplify_eq.
    + split; [done|]. eexists. by rewrite lookup_insert_eq.
    + assert (runIndex cr !! r' = Some k' ∧
        ∀ i, clients cr !! key = Some i → RunID i ≠ r') as [Hr'' Hne].
      { destruct (clients cr !! key) as [i|] eqn:Ei; [|by split; [|naive_solver]].
        destruct (seqb_spec (RunID i) "") as [He|He].
        - split; [done|]. intros i' [= <-] <-. destruct (Hi _ _ Hr') as [? _]. done.
        - rewrite lookup_delete_Some in Hr'. split; [naive_solver|]. intros i' [= <-]. naive_solver. }
      destruct (Hi _ _ Hr'') as [? (i & Hki & Hri)]. split; [done|]. exists i.
      rewrite lookup_insert_ne; [done|]. intros <-. by apply (Hne i).
  - intros k i. rewrite lookup_insert. case_decide as Hkk; [|apply Hk].
    intros [= <-]. simpl. subst k. split; [|done].
    destruct (clients cr !! key) as [i'|] eqn:Ei; [|done]. by apply Hk.
Qed.

Lemma Offline_wf now r cr : wf cr → wf (MarkOfflineByRunID now r cr).
Proof.
  intros [Hi Hk]. unfold MarkOfflineByRunID. destruct (runIndex cr !! r) as [key|] eqn:Er; [|done].
  destruct (Hi _ _ Er) as [Hr (info & Hinfo & Hrun)]. rewrite Hinfo, Hrun, seqb_refl.
  assert (∀ r' k', r' ≠ r → runIndex cr !! r' = Some k' → k' ≠ key) as Hother.
  { intros r' k' Hne Hr' ->. destruct (Hi _ _ Hr') as [_ (i & ? & ?)]. naive_solver. }
  split; simpl.
  - intros r' k'. rewrite lookup_delete_Some. intros [Hne Hr'].
    destruct (Hi _ _ Hr') as [? (i & ? & ?)]. split; [done|]. exists i.
    pose proof (Hother _ _ (not_eq_sym Hne) Hr').
    case_match; [rewrite lookup_delete_ne|rewrite lookup_insert_ne]; done.
  - intros k i. case_match.
    + rewrite lookup_delete_Some. intros [_ ?]. by apply Hk.
    + rewrite lookup_insert. case_decide; [|apply Hk]. intros [= <-]. simpl. subst k.
      destruct (Hk _ _ Hinfo) as [? _]. split; [done|]. by split.
Qed.

Lemma run_wf (ops : list rop) cr : wf cr → wf (foldl run_op cr ops).
Proof.
  revert cr. induction ops as [|o ops IH]; [done|]. intros cr Hwf. apply IH.
  destruct o; [by apply Register_wf|by apply Offline_wf].
Qed.

(** In every run of the registry each index entry points at the client that has
    that run ID, clients are filed under their own key, and a client is online exactly
    when it has a run ID. *)
Theorem registry_run_wf (ops : list rop) : wf (foldl run_op NewClientRegistry ops).
Proof. apply run_wf, NewClientRegistry_wf. Qed.

(** A registration conflicts exactly when a client ID was given and another run
    of that client is online; a conflict changes nothing, and otherwise the client is
    online under the new run ID and reachable through the index. *)
Theorem Register_spec now u raw r h v a cr :
  wf cr → r ≠ "" →
  let '((key, conflict), cr') := Register now u raw r h v a cr in
  key = composeClientKey u (effective_id raw r) ∧
  (conflict = true ↔ raw ≠ "" ∧ ∃ i, GetByKey cr key = Some i ∧ Online i = true ∧ RunID i ≠ r) ∧
  (conflict = true → cr' = cr) ∧
  (conflict = false → runIndex cr' !! r = Some key ∧ ∃ i, GetByKey cr' key = Some i ∧
     RunID i = r ∧ RawClientID i = raw ∧ Online i = true ∧ LastConnectedAt i = now ∧
     DisconnectedAt i = 0%Z).
Proof.
  intros [_ Hk] Hr. unfold Register, GetByKey. rewrite (proj2 (seqb_false r "") Hr).
  set (key := composeClientKey u (effective_id raw r)).
  destruct (clients cr !! key) as [i|] eqn:Ei; cycle 1.
  { simpl. split_and!; [done|naive_solver|done|]. intros _.
    rewrite !lookup_insert_eq. eauto 10. }
  destruct (Hk _ _ Ei) as [_ Hon].
  cbn zeta. destruct (_ && negb (RunID i =s? r)) eqn:Hc; simpl.
  - split_and!; [done| |done|done]. split; [intros _|done].
    autorewrite with frp in Hc. destruct Hc as [[[? ?] ?] ?]. eauto 10.
  - split_and!; [done| |done|].
    + split; [done|]. intros (Hraw & i' & Hi' & Ho & Hne). simplify_eq. exfalso.
      apply not_true_iff_false in Hc. apply Hc. autorewrite with frp. naive_solver.
    + intros _. rewrite !lookup_insert_eq. eauto 10.
Qed.

(** When a registered client disconnects, it is kept as offline if it gave a
    client ID and forgotten otherwise, and its run ID leaves the index. *)
Theorem Register_then_offline now now' u raw r h v a cr cr' key :
  r ≠ "" → Register now u raw r h v a cr = ((key, false), cr') →
  let cr'' := MarkOfflineByRunID now' r cr' in
  runIndex cr'' !! r = None ∧
  match GetByKey cr'' key with
  | Some i => raw ≠ "" ∧ Online i = false ∧ RunID i = "" ∧ DisconnectedAt i = now'
  | None => raw = ""
  end.
Proof.
  intros Hr. unfold Register. rewrite (proj2 (seqb_false r "") Hr).
  case_match; intros; simplify_eq. unfold MarkOfflineByRunID, GetByKey. simpl.
  rewrite !lookup_insert_eq. simpl. rewrite seqb_refl, lookup_delete_eq. split; [done|].
  destruct (seqb_spec raw ""); [by rewrite lookup_delete_eq|by rewrite lookup_insert_eq].
Qed.

(** ** Run IDs that change their client *)

Lemma Register_indexed now u raw r h v a cr :
  wf cr → indexed cr →
  (∀ k, runIndex cr !! r = Some k → k = composeClientKey u (effective_id raw r)) →
  indexed (snd (Register now u raw r h v a cr)).
Proof.
  intros [Hi Hk] Hind Hr. unfold Register. destruct (seqb_spec r "") as [|Hr0]; [done|].
  set (key := composeClientKey _ _) in *. case_match; [done|].
  intros k i. simpl. rewrite lookup_insert. case_decide as Hkk.
  { intros [= <-] _. simpl. subst k. by rewrite lookup_insert_eq. }
  intros Hki Hne. pose proof (Hind _ _ Hki Hne) as Hidx.
  rewrite lookup_insert_ne by (intros Heq; apply Hkk; symmetry; apply Hr; by rewrite Heq).
  destruct (clients cr !! key) as [i'|] eqn:Ei; [|done].
  destruct (seqb_spec (RunID i') "") as [|Hne']; [done|].
  rewrite lookup_delete_ne; [done|]. intros Heq. apply Hkk.
  pose proof (Hind _ _ Ei Hne'). congruence.
Qed.

Lemma Offline_indexed now r cr : wf cr → indexed cr → indexed (MarkOfflineByRunID now r cr).
Proof.
  intros [Hi Hk] Hind. unfold MarkOfflineByRunID.
  destruct (runIndex cr !! r) as [key|] eqn:Er; [|done].
  destruct (Hi _ _ Er) as [Hr (info & Hinfo & Hrun)]. rewrite Hinfo, Hrun, seqb_refl.
  intros k i. simpl.
  assert (∀ k' i', clients cr !! k' = Some i' → k' ≠ key → RunID i' ≠ "" →
    delete r (runIndex cr) !! RunID i' = Some k') as Hgo.
  { intros k' i' Hk' Hne Hne'. pose proof (Hind _ _ Hk' Hne').
    rewrite lookup_delete_ne; [done|]. intros ->. congruence. }
  case_match; [rewrite lookup_delete_Some; naive_solver|].
  rewrite lookup_insert. case_decide; [|naive_solver]. intros [= <-]. done.
Qed.

(** The clients use a run ID for one key only: when they register, the run ID is
    unknown or indexed under the same key. *)
Fixpoint stable_runs (cr : ClientRegistry) (ops : list rop) : Prop :=
  match ops with
  | [] => True
  | o :: ops' =>
      match o with
      | OpRegister _ u raw r _ _ _ =>
          ∀ k, runIndex cr !! r = Some k → k = composeClientKey u (effective_id raw r)
      | OpOffline _ _ => True
      end ∧ stable_runs (run_op cr o) ops'
  end.

(** As long as a run ID is used for one client key only, every online client can
    be found by its run ID, so its disconnection will be recorded. *)
Theorem online_clients_indexed (ops : list rop) :
  stable_runs NewClientRegistry ops → indexed (foldl run_op NewClientRegistry ops).
Proof.
  assert (∀ cr, wf cr → indexed cr → stable_runs cr ops → indexed (foldl run_op cr ops)) as H.
  { induction ops as [|o ops IH]; [done|]. intros cr Hwf Hind [Ho Hops]. simpl. apply IH; [..|done].
    - destruct o; [by apply Register_wf|by apply Offline_wf].
    - destruct o; [by apply Register_indexed|by apply Offline_indexed]. }
  apply H; [apply NewClientRegistry_wf|done].
Qed.

Lemma Register_conflict now u raw r h v a cr i :
  raw ≠ "" → r ≠ "" → clients cr !! composeClientKey u (effective_id raw r) = Some i →
  Online i = true → RunID i ≠ "" → RunID i ≠ r →
  Register now u raw r h v a cr = ((composeClientKey u (effective_id raw r), true), cr).
Proof.
  intros Hraw Hr Hi Ho Hn Hne. unfold Register. rewrite (proj2 (seqb_false r "") Hr), Hi.
  cbn zeta. rewrite Ho, (proj2 (seqb_false raw "") Hraw), (proj2 (seqb_false _ "") Hn),
    (proj2 (seqb_false _ r) Hne). done.
Qed.

(** A run ID that logs in again under another client ID leaves the first client
    online for ever: no index entry leads to it, marking the run offline does not
    reach it, and a new run of that client is refused as a conflict. *)
Theorem run_id_reuse_leaves_stale_client :
  let cr := foldl run_op NewClientRegistry
    [OpRegister 1 "alice" "laptop" "run1" "h" "v" "a";
     OpRegister 2 "alice" "desktop" "run1" "h" "v" "a";
     OpOffline 3 "run1"] in
  (Online <$> GetByKey cr "alice.laptop") = Some true ∧
  (Online <$> GetByKey cr "alice.desktop") = Some false ∧
  (∀ now r, r ≠ "" → GetByKey (MarkOfflineByRunID now r cr) "alice.laptop"
                      = GetByKey cr "alice.laptop") ∧
  (∀ now r, r ≠ "" → r ≠ "run1" →
     snd (fst (Register now "alice" "laptop" r "h" "v" "a" cr)) = true).
Proof.
  cbv zeta. split; [by vm_compute|]. split; [by vm_compute|].
  assert (runIndex (foldl run_op NewClientRegistry
    [OpRegister 1 "alice" "laptop" "run1" "h" "v" "a";
     OpRegister 2 "alice" "desktop" "run1" "h" "v" "a";
     OpOffline 3 "run1"]) = ∅) as Hidx by (by vm_compute).
  split.
  - intros now r _. unfold MarkOfflineByRunID. by rewrite Hidx, lookup_empty.
  - intros now r Hr Hr1.
    rewrite (Register_conflict now "alice" "laptop" r "h" "v" "a" _
      (mkClientInfo "alice.laptop" "alice" "laptop" "run1" "h" "a" "v" 1 1 0 true));
      [done|done|done|by vm_compute|done|done|]. simpl. congruence.
Qed.

(** ** Keys *)

(** With user names and client IDs that hold no dot, and client IDs that are not
    empty, the key determines the user and the client ID. *)
Theorem composeClientKey_inj u1 i1 u2 i2 :
  ContainsByte u1 "."%char = false → ContainsByte u2 "."%char = false →
  ContainsByte i1 "."%char = false → ContainsByte i2 "."%char = false →
  i1 ≠ "" → i2 ≠ "" →
  composeClientKey u1 i1 = composeClientKey u2 i2 → u1 = u2 ∧ i1 = i2.
Proof.
  intros Hu1 Hu2 Hi1 Hi2 Hn1 Hn2. unfold composeClientKey.
  rewrite (proj2 (seqb_false i1 "") Hn1), (proj2 (seqb_false i2 "") Hn2).
  assert (∀ u i, ContainsByte u "."%char = false → ContainsByte i "."%char = false →
    Split "."%char (u +:+ "." +:+ i) = [u; i]) as Hs.
  { intros u i Hu Hi. change ("." +:+ i) with (String "."%char i).
    by rewrite Split_sep, Split_nosep. }
  destruct (seqb_spec u1 "") as [->|], (seqb_spec u2 "") as [->|]; intros Heq;
    apply (f_equal (Split "."%char)) in Heq; rewrite ?Hs, ?Split_nosep in Heq by done; by simplify_eq.
Qed.

(** With dots the keys collide: user [a] with client [b.c] and user [a.b] with
    client [c] share a key, so the second login is refused while the first is online. *)
Theorem composeClientKey_collision :
  composeClientKey "a" "b.c" = composeClientKey "a.b" "c" ∧
  snd (fst (Register 2 "a.b" "c" "run2" "" "" ""
    (snd (Register 1 "a" "b.c" "run1" "" "" "" NewClientRegistry)))) = true.
Proof. by vm_compute. Qed.

(** ** Witnesses *)

Lemma Register_spec_witness :
  snd (fst (Register 1 "alice" "laptop" "run1" "h" "v" "a" NewClientRegistry)) = false ∧
  runIndex (snd (Register 1 "alice" "laptop" "run1" "h" "v" "a" NewClientRegistry)) !! "run1"
    = Some "alice.laptop".
Proof.
  split; [done|].
  pose proof (Register_spec 1 "alice" "laptop" "run1" "h" "v" "a" NewClientRegistry
    NewClientRegistry_wf ltac:(done)) as (_ & _ & _ & H).
  apply H. done.
Defined.

Lemma Register_then_offline_witness :
  let cr' := snd (Register 1 "alice" "laptop" "run1" "h" "v" "a" NewClientRegistry) in
  runIndex (MarkOfflineByRunID 5 "run1" cr') !! "run1" = None.
Proof.
  apply (Register_then_offline 1 5 "alice" "laptop" "run1" "h" "v" "a" NewClientRegistry _ "alice.laptop");
    [done|by vm_compute].
Defined.

Lemma online_clients_indexed_witness :
  indexed (foldl run_op NewClientRegistry
    [OpRegister 1 "alice" "laptop" "run1" "h" "v" "a"; OpOffline 3 "run1";
     OpRegister 4 "alice" "laptop" "run2" "h" "v" "a"]).
Proof. apply online_clients_indexed. by vm_compute. Defined.

Lemma composeClientKey_inj_witness : composeClientKey "alice" "laptop" ≠ composeClientKey "alice" "desktop".
Proof.
  intros H. pose proof (composeClientKey_inj "alice" "laptop" "alice" "desktop"
    eq_refl eq_refl eq_refl eq_refl ltac:(done) ltac:(done) H) as [_ ?]. done.
Defined.
