(* ===== verification/Group.v ===== *)
(** Load-balancing groups that share one listener, [src/server/group]: the registry
    of groups ([registry.go]), the shared part [baseGroup] ([base.go]) and the group
    listeners ([listener.go]).  What a group opens for its first member and closes
    after its last one is a resource of another component: a port of the port manager
    for [tcp.go], a route of a vhost muxer for [https.go] and [tcpmux.go].  The groups
    are verified against the interface [GroupResource]; the instances follow in
    ListenGroups.

    Groups are shared objects that goroutines keep references to, so they live in a
    store and the registry maps names to locations.  Each step of the transition
    system is one critical section of the code: [getOrCreate] under the registry's
    lock, [Listen] and [closeListener] under the group's lock. *)
From Stdlib Require Import ZArith Lia.
From stdpp Require Import base gmap strings list.
From S2P Require Import Prelude.
Local Open Scope string_scope.
Local Open Scope list_scope.

Inductive GroupError (E : Type) :=
| ErrGroupAuthFailed | ErrGroupParamsInvalid | ErrGroupDifferentPort | ErrProxyRepeated
| errGroupStale
| ErrResource (e : E).   (* the error of Acquire, net.Listen or Muxer.Listen *)
Arguments ErrGroupAuthFailed {E}.
Arguments ErrGroupParamsInvalid {E}.
Arguments ErrGroupDifferentPort {E}.
Arguments ErrProxyRepeated {E}.
Arguments errGroupStale {E}.
Arguments ErrResource {E} _.

(** ** The interface: what a group needs from the component that owns the resource *)

(** [res_open env prm r] opens the real listener for the parameters of the first
    member, [res_close env h r] closes it and runs the clean-up, [res_check old new]
    compares the parameters of a group with those of a new member. *)
Class GroupResource (Env Prm R H E : Type) := {
  res_open : Env → Prm → R → result E H * R;
  res_close : Env → H → R → R;
  res_check : Prm → Prm → option (GroupError E);
  live : R → H → Prop;               (* the handle is open *)
  res_ok : R → Prop;                 (* the owner's invariant *)
  env_ok : Env → R → Prop }.         (* what is assumed of the environment *)

Class GroupResourceLaws (Env Prm R H E : Type) `{GroupResource Env Prm R H E} := {
  open_ok env prm r h r' :
    res_ok r → env_ok env r → res_open env prm r = (Ok h, r') →
    res_ok r' ∧ ¬ live r h ∧ ∀ h', live r' h' ↔ live r h' ∨ h' = h;
  open_err env prm r e r' :
    res_ok r → env_ok env r → res_open env prm r = (Err e, r') →
    res_ok r' ∧ ∀ h', live r' h' ↔ live r h';
  close_ok env h r :
    res_ok r → live r h →
    res_ok (res_close env h r) ∧ ∀ h', live (res_close env h r) h' ↔ live r h' ∧ h' ≠ h }.

(** ** Groups, their registry, and the listeners *)

Record group (Prm H : Type) := mkGroup {
  g_group : string;
  g_groupKey : string;
  g_params : option Prm;    (* addr and port, or the route; set by the first member *)
  g_realLn : option H;
  g_acceptOpen : bool;      (* acceptCh exists and is not closed *)
  g_lns : list nat }.
Arguments mkGroup {Prm H} _ _ _ _ _ _.
Arguments g_group {Prm H} _.
Arguments g_groupKey {Prm H} _.
Arguments g_params {Prm H} _.
Arguments g_realLn {Prm H} _.
Arguments g_acceptOpen {Prm H} _.
Arguments g_lns {Prm H} _.

(** The zero group of [NewTCPGroup], [NewHTTPSGroup] and [NewTCPMuxGroup]. *)
Definition new_group {Prm H} : group Prm H := mkGroup "" "" None None false [].

Record ctl (Prm R H : Type) := mkCtl {
  groups : gmap string nat;          (* groupRegistry.groups *)
  heap : gmap nat (group Prm H);     (* the group objects *)
  ln_group : gmap nat nat;           (* the group a listener's onClose belongs to *)
  ln_closed : gset nat;              (* listeners whose once.Do has run *)
  next : nat;
  res : R }.
Arguments mkCtl {Prm R H} _ _ _ _ _ _.
Arguments groups {Prm R H} _.
Arguments heap {Prm R H} _.
Arguments ln_group {Prm R H} _.
Arguments ln_closed {Prm R H} _.
Arguments next {Prm R H} _.
Arguments res {Prm R H} _.

Section ops.
Context {Env Prm R H E : Type} `{GroupResource Env Prm R H E}.
Implicit Types (s : ctl Prm R H) (g : group Prm H).

(** *** [groupRegistry] *)

Definition getOrCreate (key : string) s : nat * ctl Prm R H :=
  match groups s !! key with
  | Some l => (l, s)
  | None =>
      let l := next s in
      (l, mkCtl (<[key := l]> (groups s)) (<[l := new_group]> (heap s)) (ln_group s)
            (ln_closed s) (S l) (res s))
  end.

Definition get (key : string) s : option nat := groups s !! key.

Definition isCurrent (key : string) (l : nat) s : bool :=
  match groups s !! key with Some l' => bool_decide (l' = l) | None => false end.

Definition removeIf (key : string) (l : nat) s : ctl Prm R H :=
  match groups s !! key with
  | Some l' =>
      if decide (l' = l)
      then mkCtl (delete key (groups s)) (heap s) (ln_group s) (ln_closed s) (next s) (res s)
      else s
  | None => s
  end.

(** *** [baseGroup] *)

Definition set_group (l : nat) g s : ctl Prm R H :=
  mkCtl (groups s) (<[l := g]> (heap s)) (ln_group s) (ln_closed s) (next s) (res s).

Definition set_res (r : R) s : ctl Prm R H :=
  mkCtl (groups s) (heap s) (ln_group s) (ln_closed s) (next s) r.

Definition initBase (grp key : string) (prm : Prm) (h : H) g : group Prm H :=
  mkGroup grp key (Some prm) (Some h) true (g_lns g).

(** [newListener]: a fresh listener appended to [lns]; returns its identity. *)
Definition newListener (l : nat) g s : nat * ctl Prm R H :=
  let ln := next s in
  (ln, mkCtl (groups s)
         (<[l := mkGroup (g_group g) (g_groupKey g) (g_params g) (g_realLn g) (g_acceptOpen g)
                   (g_lns g ++ [ln])]> (heap s))
         (<[ln := l]> (ln_group s)) (ln_closed s) (S ln) (res s)).

(** [TCPGroup.Listen], [HTTPSGroup.Listen], [TCPMuxGroup.HTTPConnectListen]: one body. *)
Definition group_listen (env : Env) (l : nat) (grp key : string) (prm : Prm) s
    : result (GroupError E) nat * ctl Prm R H :=
  match heap s !! l with
  | None => (Err errGroupStale, s)   (* no such object *)
  | Some g =>
      if negb (isCurrent grp l s) then (Err errGroupStale, s) else
      match g_lns g with
      | [] =>
          match res_open env prm (res s) with
          | (Err e, r) => (Err (ErrResource e), set_res r s)
          | (Ok h, r) =>
              let g := initBase grp key prm h g in
              let '(ln, s) := newListener l g (set_res r s) in (Ok ln, s)
          end
      | _ :: _ =>
          if negb (g_group g =s? grp) then (Err ErrGroupParamsInvalid, s) else
          match (match g_params g with Some old => res_check old prm | None => None end) with
          | Some e => (Err e, s)
          | None =>
              if negb (g_groupKey g =s? key) then (Err ErrGroupAuthFailed, s)
              else let '(ln, s) := newListener l g s in (Ok ln, s)
          end
      end
  end.

(** The retry loop of the controllers' [Listen]: [n] bounds the number of rounds. *)
Fixpoint ctl_listen (n : nat) (env : Env) (grp key : string) (prm : Prm) s
    : option (result (GroupError E) nat * ctl Prm R H) :=
  match n with
  | 0 => None
  | S n =>
      let '(l, s) := getOrCreate grp s in
      match group_listen env l grp key prm s with
      | (Err errGroupStale, s) => ctl_listen n env grp key prm s
      | out => Some out
      end
  end.

(** [closeListener]; [None] is the panic of closing a closed channel. *)
Definition closeListener (env : Env) (l : nat) (ln : nat) s : option (ctl Prm R H) :=
  match heap s !! l with
  | None => Some s
  | Some g =>
      let lns := remove_one ln (g_lns g) in
      match lns with
      | _ :: _ =>
          Some (set_group l (mkGroup (g_group g) (g_groupKey g) (g_params g) (g_realLn g)
                               (g_acceptOpen g) lns) s)
      | [] =>
          if g_acceptOpen g then
            let s := set_group l (mkGroup (g_group g) (g_groupKey g) (g_params g) (g_realLn g)
                                    false []) s in
            let s := match g_realLn g with
                     | Some h => set_res (res_close env h (res s)) s
                     | None => s
                     end in
            Some (removeIf (g_group g) l s)
          else None
      end
  end.

(** [Listener.Close]: [once.Do] runs [closeListener] of the listener's group. *)
Definition ln_close (env : Env) (ln : nat) s : option (ctl Prm R H) :=
  match ln_group s !! ln with
  | None => Some s
  | Some l =>
      if decide (ln ∈ ln_closed s) then Some s
      else closeListener env l ln
             (mkCtl (groups s) (heap s) (ln_group s) ({[ln]} ∪ ln_closed s) (next s) (res s))
  end.

End ops.

(** ** The transition system and its invariant *)

Section invariant.
Context {Env Prm R H E : Type} `{GroupResourceLaws Env Prm R H E}.
Implicit Types (s : ctl Prm R H) (g : group Prm H).

Definition active g : Prop := g_lns g ≠ [].

(** The handle is held open by a group that has members. *)
Definition owned s (h : H) : Prop :=
  ∃ l g, heap s !! l = Some g ∧ active g ∧ g_realLn g = Some h.

(** A step: a goroutine fetches a group, one that holds a reference to any group ever
    created calls [Listen] on it, a listener is closed, or, when the resource is
    [shared], another component changes it without closing what the groups hold. *)
Inductive gstep (shared : bool) : ctl Prm R H → ctl Prm R H → Prop :=
| step_get s key : gstep shared s (snd (getOrCreate key s))
| step_listen s env l grp key prm :
    env_ok env (res s) → gstep shared s (snd (group_listen env l grp key prm s))
| step_close s s' env ln : ln_close env ln s = Some s' → gstep shared s s'
| step_other s r :
    shared = true → res_ok r → (∀ h, owned s h → live r h) → gstep shared s (set_res r s).

(** The initial state over a resource state [r]. *)
Definition init (r : R) : ctl Prm R H := mkCtl ∅ ∅ ∅ ∅ 0 r.

Record inv (shared : bool) s : Prop := {
  i_res : res_ok (res s);
  i_heap : ∀ k l, groups s !! k = Some l → is_Some (heap s !! l);
  i_inj : ∀ k1 k2 l, groups s !! k1 = Some l → groups s !! k2 = Some l → k1 = k2;
  i_fresh : ∀ l, (next s <= l)%nat → heap s !! l = None ∧ ln_group s !! l = None;
  i_ln_heap : ∀ ln l, ln_group s !! ln = Some l → is_Some (heap s !! l);
  i_closed : ∀ ln, ln ∈ ln_closed s → is_Some (ln_group s !! ln);
  i_lns : ∀ l g ln, heap s !! l = Some g →
    ln ∈ g_lns g ↔ ln_group s !! ln = Some l ∧ ln ∉ ln_closed s;
  i_nodup : ∀ l g, heap s !! l = Some g → NoDup (g_lns g);
  (* a group with members is the one its name leads to, its channel is open and its
     real listener is live *)
  i_active : ∀ l g, heap s !! l = Some g → active g →
    groups s !! g_group g = Some l ∧ g_acceptOpen g = true ∧
    ∃ h p, g_realLn g = Some h ∧ g_params g = Some p ∧ live (res s) h;
  (* a group without members holds nothing *)
  i_idle : ∀ l g, heap s !! l = Some g → ¬ active g → g_acceptOpen g = false;
  (* two groups with members never share a real listener *)
  i_distinct : ∀ l1 l2 g1 g2 h, heap s !! l1 = Some g1 → heap s !! l2 = Some g2 →
    active g1 → active g2 → g_realLn g1 = Some h → g_realLn g2 = Some h → l1 = l2;
  (* when only the groups use the resource, nothing else is open *)
  i_exact : shared = false → ∀ h, live (res s) h → owned s h }.

Lemma inv_owned_live shared s h : inv shared s → owned s h → live (res s) h.
Proof.
  intros Hi (l & g & Hl & Ha & Hh).
  destruct (i_active _ _ Hi _ _ Hl Ha) as (_ & _ & h' & p & Hh' & _ & Hlive). by simplify_eq.
Qed.

Lemma init_inv shared r : res_ok r → (shared = false → ∀ h, ¬ live r h) → inv shared (init r).
Proof. intros Hr Hl. split; simpl; try done. intros Hs h Hh. by destruct (Hl Hs h). Qed.

Lemma set_res_inv s r :
  inv true s → res_ok r → (∀ h, owned s h → live r h) → inv true (set_res r s).
Proof.
  intros Hi Hr Ho. destruct Hi. split; simpl; try done.
  intros l g Hl Ha. destruct (i_active0 l g Hl Ha) as (? & ? & h & p & ? & ? & ?).
  split_and!; [done|done|]. exists h, p. split_and!; [done|done|]. apply Ho. by exists l, g.
Qed.

(** Same liveness, same invariant. *)
Lemma set_res_same_inv shared s r :
  inv shared s → res_ok r → (∀ h, live r h ↔ live (res s) h) → inv shared (set_res r s).
Proof.
  intros Hi Hr Heq. destruct Hi. split; simpl; try done.
  - intros l g Hl Ha. destruct (i_active0 l g Hl Ha) as (? & ? & h & p & ? & ? & ?).
    split_and!; [done|done|]. exists h, p. by rewrite Heq.
  - intros Hs h. rewrite Heq. intros Hh. destruct (i_exact0 Hs h Hh) as (l & g & ?). by exists l, g.
Qed.

Lemma getOrCreate_inv shared s key : inv shared s → inv shared (snd (getOrCreate key s)).
Proof.
  intros Hi. unfold getOrCreate. destruct (groups s !! key) as [l|] eqn:Hk; [done|]. simpl.
  destruct (i_fresh _ _ Hi (next s) (Nat.le_refl _)) as [Hf1 Hf2].
  assert (∀ l g, <[next s := new_group]> (heap s) !! l = Some g →
    (l = next s ∧ g = new_group) ∨ (l ≠ next s ∧ heap s !! l = Some g)) as Hcase.
  { intros l g. rewrite lookup_insert. case_decide; naive_solver. }
  assert (∀ k, groups s !! k = Some (next s) → False) as Hnew.
  { intros k Hk'. destruct (i_heap _ _ Hi _ _ Hk'). congruence. }
  destruct Hi. split; simpl; try done.
  - intros k l. rewrite !lookup_insert. repeat case_decide; naive_solver.
  - intros k1 k2 l. rewrite !lookup_insert. repeat case_decide; naive_solver.
  - intros l Hl. rewrite lookup_insert_ne by lia. apply i_fresh0. lia.
  - intros ln l Hln. rewrite lookup_insert. case_decide; [done|]. by eapply i_ln_heap0.
  - intros l g ln [[-> ->]|[? ?]]%Hcase; [|by apply i_lns0]. simpl. split; [set_solver|].
    intros [Hln _]. destruct (i_ln_heap0 _ _ Hln). congruence.
  - intros l g [[-> ->]|[? ?]]%Hcase; [constructor|by eapply i_nodup0].
  - intros l g [[-> ->]|[? ?]]%Hcase Ha; [done|].
    destruct (i_active0 l g ltac:(done) Ha) as (? & ?). rewrite lookup_insert_ne by congruence. done.
  - intros l g [[-> ->]|[? ?]]%Hcase Ha; [done|]. by eapply i_idle0.
  - intros l1 l2 g1 g2 h [[-> ->]|[? ?]]%Hcase [[-> ->]|[? ?]]%Hcase; try done. by eapply i_distinct0.
  - intros Hs h Hh. destruct (i_exact0 Hs h Hh) as (l & g & Hl & ?). exists l, g.
    simpl. rewrite lookup_insert_ne; [done|]. congruence.
Qed.

(** A new listener for a group: the group [g] (with a changed head, possibly) gets one
    more member.  The hypotheses are what [Listen] has established by then. *)
(** A listener that is new to the controller joins the list of its group. *)
Lemma newListener_lns shared s l g0 ln1 :
  inv shared s → heap s !! l = Some g0 →
  ln1 ∈ g_lns g0 ++ [next s] ↔ <[next s := l]> (ln_group s) !! ln1 = Some l ∧ ln1 ∉ ln_closed s.
Proof.
  intros Hi Hl. assert (ln_group s !! next s = None) as Hln by (apply (i_fresh _ _ Hi); lia).
  assert (next s ∉ ln_closed s) by (intros Hc; destruct (i_closed _ _ Hi _ Hc); congruence).
  rewrite elem_of_app, list_elem_of_singleton, (i_lns _ _ Hi l g0), lookup_insert by done.
  case_decide; naive_solver.
Qed.

Lemma newListener_NoDup shared s l g0 :
  inv shared s → heap s !! l = Some g0 → NoDup (g_lns g0 ++ [next s]).
Proof.
  intros Hi Hl. assert (ln_group s !! next s = None) as Hln by (apply (i_fresh _ _ Hi); lia).
  apply NoDup_app. split_and!; [by apply (i_nodup _ _ Hi l)| |apply NoDup_singleton].
  intros x Hx ->%list_elem_of_singleton. apply (i_lns _ _ Hi l g0) in Hx; [|done]. destruct Hx; congruence.
Qed.

Lemma newListener_inv shared s l g0 g r :
  inv shared s → heap s !! l = Some g0 → g_lns g = g_lns g0 →
  groups s !! g_group g = Some l → g_acceptOpen g = true →
  (∃ h p, g_realLn g = Some h ∧ g_params g = Some p ∧ live r h ∧
     (∀ h', live r h' ↔ live (res s) h' ∨ h' = h) ∧
     (active g0 → g_realLn g0 = Some h) ∧ (¬ active g0 → ¬ live (res s) h)) →
  res_ok r →
  inv shared (snd (newListener l g (set_res r s))).
Proof.
  intros Hi Hl Hlns Hcur Hopen (h & p & Hh & Hp & Hlive & Hiff & Hkeep & Hfresh) Hr.
  unfold newListener, set_res. simpl. set (ln := next s).
  set (g' := mkGroup _ _ _ _ _ _).
  assert (∀ l', is_Some (heap s !! l') → l' ≠ ln) as Hheap.
  { intros l' [? ?] ->. destruct (i_fresh _ _ Hi ln (Nat.le_refl _)). congruence. }
  assert (ln_group s !! ln = None) as Hln by (apply (i_fresh _ _ Hi); lia).
  assert (∀ l1 g1, <[l := g']> (heap s) !! l1 = Some g1 →
    (l1 = l ∧ g1 = g') ∨ (l1 ≠ l ∧ heap s !! l1 = Some g1)) as Hcase.
  { intros l1 g1. rewrite lookup_insert. case_decide; naive_solver. }
  assert (∀ l1 g1, l1 ≠ l → heap s !! l1 = Some g1 → active g1 → g_realLn g1 ≠ Some h) as Hother.
  { intros l1 g1 Hne Hl1 Ha1 Hh1. destruct (decide (g_lns g0 = [])) as [He|Ha].
    - apply Hfresh; [intros Hx; by apply Hx|]. eapply inv_owned_live; [done|]. by exists l1, g1.
    - apply Hne. eapply (i_distinct _ _ Hi); eauto. }
  pose proof (newListener_NoDup shared s l g0 Hi Hl) as Hnd.
  pose proof (λ ln1, newListener_lns shared s l g0 ln1 Hi Hl) as Hjoin. fold ln in Hnd, Hjoin.
  assert (active g') as Hact by (unfold active; simpl; by destruct (g_lns g)).
  destruct Hi. split; simpl; try done.
  - intros k l1 Hk. rewrite lookup_insert. case_decide; [done|]. by eapply i_heap0.
  - intros l1 Hl1. subst ln. destruct (i_fresh0 l1 ltac:(lia)) as [Hf1 Hf2].
    rewrite !lookup_insert_ne; [done|lia|congruence].
  - intros ln1 l1. rewrite !lookup_insert. repeat case_decide; try done; try naive_solver.
  - intros ln1 Hc. rewrite lookup_insert. case_decide; [done|]. by apply i_closed0.
  - intros l1 g1 ln1 [[-> ->]|[Hne Hl1]]%Hcase; simpl; rewrite lookup_insert.
    + rewrite Hlns, <- lookup_insert. by apply Hjoin.
    + rewrite (i_lns0 l1 g1 ln1) by done. case_decide; naive_solver.
  - intros l1 g1 [[-> ->]|[Hne Hl1]]%Hcase; [|by eapply i_nodup0]. simpl. by rewrite Hlns.
  - intros l1 g1 [[-> ->]|[Hne Hl1]]%Hcase Ha.
    + simpl. split_and!; [done|done|]. exists h, p. done.
    + destruct (i_active0 l1 g1 Hl1 Ha) as (? & ? & h1 & p1 & ? & ? & ?).
      split_and!; [done|done|]. exists h1, p1. rewrite Hiff. auto.
  - intros l1 g1 [[-> ->]|[Hne Hl1]]%Hcase Ha; [|by eapply i_idle0].
    by destruct Ha.
  - intros l1 l2 g1 g2 h1 [[-> ->]|[Hne1 Hl1]]%Hcase [[-> ->]|[Hne2 Hl2]]%Hcase Ha1 Ha2 Hh1 Hh2;
      simpl in *; simplify_eq; [done|by destruct (Hother l2 g2)|by destruct (Hother l1 g1)|].
    by eapply i_distinct0.
  - intros Hs h1 [Hh1| ->]%Hiff.
    + destruct (i_exact0 Hs h1 Hh1) as (l1 & g1 & Hl1 & Ha1 & Hr1). unfold owned. simpl.
      destruct (decide (l1 = l)) as [->|].
      * exists l, g'. rewrite lookup_insert_eq. split_and!; [done|done|simpl; simplify_eq; naive_solver].
      * exists l1, g1. by rewrite lookup_insert_ne.
    + exists l, g'. simpl. by rewrite lookup_insert_eq.
Qed.

Lemma set_res_id s : set_res (res s) s = s.
Proof. by destruct s. Qed.

Lemma isCurrent_true key l s : isCurrent key l s = true ↔ groups s !! key = Some l.
Proof.
  unfold isCurrent. destruct (groups s !! key) as [l'|]; [|done].
  rewrite bool_decide_eq_true. naive_solver.
Qed.

Lemma group_listen_inv shared s env l grp key prm :
  inv shared s → env_ok env (res s) → inv shared (snd (group_listen env l grp key prm s)).
Proof.
  intros Hi He. unfold group_listen. destruct (heap s !! l) as [g|] eqn:Hl; [|done].
  destruct (isCurrent grp l s) eqn:Hc; [|done]. apply isCurrent_true in Hc.
  pose proof (i_res _ _ Hi) as Hr. cbn [negb].
  destruct (g_lns g) as [|ln0 lns] eqn:Hlns.
  - destruct (res_open env prm (res s)) as [[h|e] r] eqn:Ho.
    + destruct (open_ok _ _ _ _ _ Hr He Ho) as (Hr' & Hnl & Hiff).
      apply (newListener_inv shared s l g (initBase grp key prm h g) r); try done.
      exists h, prm. split_and!; [done|done|apply Hiff; auto|done| |done].
      intros Ha. by destruct Ha.
    + destruct (open_err _ _ _ _ _ Hr He Ho). by apply set_res_same_inv.
  - destruct (seqb_spec (g_group g) grp) as [<-|]; [|done]. cbn [negb].
    destruct (match g_params g with Some old => _ | None => _ end); [done|].
    destruct (seqb_spec (g_groupKey g) key); [|done]. cbn [negb].
    assert (active g) as Ha by (unfold active; by rewrite Hlns).
    destruct (i_active _ _ Hi _ _ Hl Ha) as (? & ? & h & p & ? & ? & ?).
    rewrite <- (set_res_id s). apply (newListener_inv shared s l g g (res s)); try done.
    exists h, p. split_and!; try done. naive_solver.
Qed.

(** *** Closing *)

Definition set_lns g (lns : list nat) : group Prm H :=
  mkGroup (g_group g) (g_groupKey g) (g_params g) (g_realLn g) (g_acceptOpen g) lns.

(** Taking an open listener off its group's list while others remain. *)
Lemma closeListener_some_inv shared s l g ln :
  inv shared s → heap s !! l = Some g → ln_group s !! ln = Some l →
  remove_one ln (g_lns g) ≠ [] →
  inv shared (set_group l (set_lns g (remove_one ln (g_lns g)))
    (mkCtl (groups s) (heap s) (ln_group s) ({[ln]} ∪ ln_closed s) (next s) (res s))).
Proof.
  intros Hi Hl Hln Hne. set (g' := set_lns g _).
  assert (active g) as Ha.
  { unfold active. intros E0. by rewrite E0 in Hne. }
  assert (∀ l1 g1, <[l := g']> (heap s) !! l1 = Some g1 →
    (l1 = l ∧ g1 = g') ∨ (l1 ≠ l ∧ heap s !! l1 = Some g1)) as Hcase.
  { intros l1 g1. rewrite lookup_insert. case_decide; naive_solver. }
  assert (∀ l1 g1, <[l := g']> (heap s) !! l1 = Some g1 → active g1 → ∃ g0,
    heap s !! l1 = Some g0 ∧ active g0 ∧ g_realLn g1 = g_realLn g0 ∧ g_group g1 = g_group g0 ∧
    g_params g1 = g_params g0 ∧ g_acceptOpen g1 = g_acceptOpen g0) as Hsame.
  { intros l1 g1 [[-> ->]|[? ?]]%Hcase ?; [by exists g|by exists g1]. }
  destruct Hi. split; simpl; try done.
  - intros k l1 Hk. rewrite lookup_insert. case_decide; [done|]. by eapply i_heap0.
  - intros l1 Hl1. destruct (i_fresh0 l1 Hl1). rewrite lookup_insert_ne; [done|congruence].
  - intros ln1 l1 Hln1. rewrite lookup_insert. case_decide; [done|]. by eapply i_ln_heap0.
  - intros ln1. rewrite elem_of_union, elem_of_singleton. intros [->|?]; [done|by apply i_closed0].
  - intros l1 g1 ln1 [[-> ->]|[Hne1 Hl1]]%Hcase; simpl.
    + rewrite remove_one_NoDup_iff by (by eapply i_nodup0). rewrite (i_lns0 l g) by done. set_solver.
    + rewrite (i_lns0 l1 g1) by done. split; [|set_solver]. intros [? ?]. split; [done|].
      assert (ln1 ≠ ln) by congruence. set_solver.
  - intros l1 g1 [[-> ->]|[? ?]]%Hcase; [apply remove_one_NoDup|]; by eapply i_nodup0.
  - intros l1 g1 Hl1 Ha1. destruct (Hsame _ _ Hl1 Ha1) as (g0 & ? & ? & -> & -> & -> & ->).
    by apply i_active0.
  - intros l1 g1 [[-> ->]|[? ?]]%Hcase Hna; [by destruct Hna|]. by eapply i_idle0.
  - intros l1 l2 g1 g2 h Hl1 Hl2 Ha1 Ha2 Hh1 Hh2.
    destruct (Hsame _ _ Hl1 Ha1) as (? & ? & ? & Hr1 & _). destruct (Hsame _ _ Hl2 Ha2) as (? & ? & ? & Hr2 & _).
    rewrite Hr1 in Hh1. rewrite Hr2 in Hh2. by eapply i_distinct0.
  - intros Hs h Hh. destruct (i_exact0 Hs h Hh) as (l1 & g1 & Hl1 & ? & ?). unfold owned. simpl.
    destruct (decide (l1 = l)) as [->|]; [|by exists l1, g1; rewrite lookup_insert_ne].
    exists l, g'. rewrite lookup_insert_eq. simplify_eq. by split_and!.
Qed.

Lemma remove_last_one (ln : nat) lns : NoDup lns → ln ∈ lns → remove_one ln lns = [] → lns = [ln].
Proof.
  intros Hnd Hin Hr. pose proof (remove_one_length ln lns Hin) as Hl. rewrite Hr in Hl.
  destruct lns as [|x [|y lns]]; [set_solver| |done]. set_solver.
Qed.

(** The last member leaves: the channel is closed, the resource given back, and the
    group taken out of the registry. *)
Lemma closeListener_last_inv shared s env l g ln h :
  inv shared s → heap s !! l = Some g → g_lns g = [ln] → g_realLn g = Some h →
  inv shared (mkCtl (delete (g_group g) (groups s))
    (<[l := mkGroup (g_group g) (g_groupKey g) (g_params g) (g_realLn g) false []]> (heap s))
    (ln_group s) ({[ln]} ∪ ln_closed s) (next s) (res_close env h (res s))).
Proof.
  intros Hi Hl Hlns Hh. set (g' := mkGroup _ _ _ _ _ _).
  assert (active g) as Ha by (unfold active; by rewrite Hlns).
  destruct (i_active _ _ Hi _ _ Hl Ha) as (Hcur & _ & h0 & p & Hh0 & _ & Hlive).
  assert (h0 = h) as -> by congruence. clear Hh0.
  destruct (close_ok env h (res s) (i_res _ _ Hi) Hlive) as [Hr' Hlive'].
  assert (ln_group s !! ln = Some l) as Hln.
  { apply (i_lns _ _ Hi l g ln Hl). rewrite Hlns. set_solver. }
  assert (∀ l1 g1, <[l := g']> (heap s) !! l1 = Some g1 →
    (l1 = l ∧ g1 = g') ∨ (l1 ≠ l ∧ heap s !! l1 = Some g1)) as Hcase.
  { intros l1 g1. rewrite lookup_insert. case_decide; naive_solver. }
  assert (∀ l1 g1, l1 ≠ l → heap s !! l1 = Some g1 → active g1 → g_realLn g1 ≠ Some h) as Hother.
  { intros l1 g1 Hne Hl1 Ha1 Hh1. apply Hne. by eapply (i_distinct _ _ Hi). }
  destruct Hi. split; simpl; try done.
  - intros k l1 [_ Hk]%lookup_delete_Some. rewrite lookup_insert. case_decide; [done|]. by eapply i_heap0.
  - intros k1 k2 l1 [_ ?]%lookup_delete_Some [_ ?]%lookup_delete_Some. by eapply i_inj0.
  - intros l1 Hl1. destruct (i_fresh0 l1 Hl1). rewrite lookup_insert_ne; [done|congruence].
  - intros ln1 l1 Hln1. rewrite lookup_insert. case_decide; [done|]. by eapply i_ln_heap0.
  - intros ln1. rewrite elem_of_union, elem_of_singleton. intros [->|?]; [done|by apply i_closed0].
  - intros l1 g1 ln1 [[-> ->]|[Hne1 Hl1]]%Hcase; simpl.
    + pose proof (i_lns0 l g ln1 Hl) as Hiff. rewrite Hlns in Hiff. set_solver.
    + rewrite (i_lns0 l1 g1) by done. split; [|set_solver]. intros [? ?]. split; [done|].
      assert (ln1 ≠ ln) by congruence. set_solver.
  - intros l1 g1 [[-> ->]|[? ?]]%Hcase; [constructor|by eapply i_nodup0].
  - intros l1 g1 [[-> ->]|[Hne Hl1]]%Hcase Ha1; [by destruct Ha1|].
    destruct (i_active0 l1 g1 Hl1 Ha1) as (? & ? & h1 & p1 & ? & ? & ?).
    rewrite lookup_delete_ne by congruence. split_and!; [done|done|].
    exists h1, p1. rewrite Hlive'. split_and!; [done|done|done|].
    intros ->. by eapply Hother.
  - intros l1 g1 [[-> ->]|[? ?]]%Hcase Hna; [done|]. by eapply i_idle0.
  - intros l1 l2 g1 g2 h1 [[-> ->]|[? ?]]%Hcase [[-> ->]|[? ?]]%Hcase Ha1 Ha2;
      [done|by destruct Ha1|by destruct Ha2|]. by eapply i_distinct0.
  - intros Hs h1 [Hh1 Hne]%Hlive'. destruct (i_exact0 Hs h1 Hh1) as (l1 & g1 & Hl1 & ? & ?).
    exists l1, g1. simpl. rewrite lookup_insert_ne; [done|]. intros ->. congruence.
Qed.

(** In a state of the invariant no [Close] panics, and it keeps the invariant. *)
Lemma ln_close_inv shared s env ln :
  inv shared s → ∃ s', ln_close env ln s = Some s' ∧ inv shared s'.
Proof.
  intros Hi. unfold ln_close. destruct (ln_group s !! ln) as [l|] eqn:Hln; [|by eexists].
  case_decide as Hcl; [by eexists|].
  destruct (i_ln_heap _ _ Hi _ _ Hln) as [g Hl]. unfold closeListener. simpl. rewrite Hl.
  assert (ln ∈ g_lns g) as Hin by (by apply (i_lns _ _ Hi l g ln)).
  destruct (remove_one ln (g_lns g)) as [|ln1 lns] eqn:Hrem; cycle 1.
  { eexists. split; [done|]. rewrite <- Hrem.
    apply (closeListener_some_inv shared s l g ln); [done|done|done|by rewrite Hrem]. }
  assert (g_lns g = [ln]) as Hlns
    by (apply remove_last_one; [by eapply i_nodup|done|done]).
  assert (active g) as Ha by (unfold active; by rewrite Hlns).
  destruct (i_active _ _ Hi _ _ Hl Ha) as (Hcur & Hopen & h & p & Hh & Hp & Hlive).
  rewrite Hopen, Hh. eexists. split; [done|].
  unfold removeIf. simpl. rewrite Hcur, decide_True by done. rewrite <- Hh.
  apply closeListener_last_inv; done.
Qed.

Lemma gstep_inv shared s s' : inv shared s → gstep shared s s' → inv shared s'.
Proof.
  intros Hi Hstep. destruct Hstep as [s key|s env l grp key prm He|s s' env ln Hc|s r Hs Hr Ho].
  - by apply getOrCreate_inv.
  - by apply group_listen_inv.
  - destruct (ln_close_inv shared s env ln Hi) as (? & ? & ?). congruence.
  - subst shared. by apply set_res_inv.
Qed.

(** The invariant holds along every interleaving. *)
Lemma grun_inv shared r s :
  res_ok r → (shared = false → ∀ h, ¬ live r h) →
  rtc (gstep shared) (init r) s → inv shared s.
Proof.
  intros Hr Hl. apply (rtc_ind_r (inv shared)); [by apply init_inv|].
  intros x y _ Hxy Hx. by eapply gstep_inv.
Qed.

(** Without interference the retry loop of the controllers returns in its first round. *)
Lemma ctl_listen_first s env grp key prm n :
  (∀ k l, groups s !! k = Some l → is_Some (heap s !! l)) →
  (∀ prm1 prm2, res_check prm1 prm2 ≠ Some errGroupStale) →
  let '(l, s1) := getOrCreate grp s in
  ctl_listen (S n) env grp key prm s = Some (group_listen env l grp key prm s1) ∧
  fst (group_listen env l grp key prm s1) ≠ Err errGroupStale.
Proof.
  intros Hheap Hck. destruct (getOrCreate grp s) as [l s1] eqn:Hg.
  assert (groups s1 !! grp = Some l ∧ is_Some (heap s1 !! l)) as [Hcur [g Hl]].
  { unfold getOrCreate in Hg. destruct (groups s !! grp) eqn:Hk; simplify_eq/=; [eauto|].
    by rewrite !lookup_insert_eq. }
  assert (fst (group_listen env l grp key prm s1) ≠ Err errGroupStale) as Hns.
  { unfold group_listen. rewrite Hl, (proj2 (isCurrent_true grp l s1) Hcur). simpl.
    destruct (g_lns g); [by destruct (res_open _ _ _) as [[]]|].
    destruct (negb _); [done|]. destruct (match g_params g with Some _ => _ | None => _ end) as [e|] eqn:He.
    - simpl. intros [= ->]. destruct (g_params g); [by eapply Hck|done].
    - by destruct (negb _). }
  split; [|done]. simpl. rewrite Hg.
  destruct (group_listen env l grp key prm s1) as [[|[]] ?]; done.
Qed.

End invariant.
