(* ===== verification/ListenGroups.v ===== *)
(** The listener groups of [src/server/group]: [tcp.go] over the port manager,
    [https.go] and [tcpmux.go] over a vhost muxer, as instances of the interface of
    Group, and what the invariant of Group says of them. *)
From Stdlib Require Import ZArith Lia Ascii String.
From stdpp Require Import base gmap strings list sorting.
From S2P Require Import Prelude GoStrings Ports Router Vhost Group.
Local Open Scope string_scope.
Local Open Scope list_scope.

(** ** TCP groups *)

Record tcp_prm := mkTcpPrm { tp_proxyName : string; tp_addr : string; tp_port : Z }.

(** The clock, the probes and the iteration order [Acquire] sees, and whether
    [net.Listen] succeeds on the address. *)
Record tcp_env := mkTcpEnv {
  te_now : time;
  te_net : nat → net_probe;
  te_order : list Z;
  te_listen : string → Z → bool }.

Inductive tcp_err := TAcquire (e : PortError) | TListen.

Definition tcp_open (env : tcp_env) (p : tcp_prm) (pm : Ports.Manager)
    : result tcp_err Z * Ports.Manager :=
  match Acquire (te_now env) (te_net env) (te_order env) (tp_proxyName p) (tp_port p) pm with
  | (Err e, pm) => (Err (TAcquire e), pm)
  | (Ok realPort, pm) =>
      if te_listen env (tp_addr p) realPort then (Ok realPort, pm)
      else (Err TListen, Release (te_now env) realPort pm)
  end.

(** [cleanupFn]: release the real port. *)
Definition tcp_close (env : tcp_env) (realPort : Z) (pm : Ports.Manager) : Ports.Manager :=
  Release (te_now env) realPort pm.

Definition tcp_check (old new : tcp_prm) : option (GroupError tcp_err) :=
  if negb (tp_addr old =s? tp_addr new) then Some ErrGroupParamsInvalid
  else if negb (tp_port old =? tp_port new)%Z then Some ErrGroupDifferentPort
  else None.

(** Port 0 is not configured; the iteration order lists the free ports; the operating
    system refuses a port that is in use. *)
#[global] Instance tcp_resource : GroupResource tcp_env tcp_prm Ports.Manager Z tcp_err := {|
  res_open := tcp_open;
  res_close := tcp_close;
  res_check := tcp_check;
  live pm p := p ∈ dom (usedPorts pm);
  res_ok pm := ∃ allowed, Ports.wf allowed pm ∧ 0%Z ∉ allowed;
  env_ok env pm := te_order env ≡ₚ elements (freePorts pm) ∧
    ∀ i q, q ∈ dom (usedPorts pm) → isPortAvailable pm (te_net env i) q = false |}.

#[global] Instance tcp_laws : GroupResourceLaws tcp_env tcp_prm Ports.Manager Z tcp_err.
Proof.
  split.
  - intros env prm pm h pm' (allowed & Hwf & H0) [Hperm Hos]. simpl. unfold tcp_open.
    destruct (Acquire _ _ _ _ _ pm) as [[p|e] pm1] eqn:Ha; [|done].
    destruct (te_listen env (tp_addr prm) p); [|done]. intros [= <- <-].
    pose proof (Acquire_used _ _ _ _ _ _ _ _ _ Hwf H0 Hperm Hos Ha) as [Hp Hd].
    split_and!; [|done|intros h'; rewrite Hd; set_solver].
    exists allowed. split; [|done]. change pm1 with (snd (Ok (E:=PortError) p, pm1)). rewrite <- Ha.
    apply Acquire_wf; [done|by apply perm_elements_free].
  - intros env prm pm e pm' (allowed & Hwf & H0) [Hperm Hos]. simpl. unfold tcp_open.
    destruct (Acquire _ _ _ _ _ pm) as [r pm1] eqn:Ha.
    assert (Ports.wf allowed pm1) as Hwf1.
    { change pm1 with (snd (r, pm1)). rewrite <- Ha.
      apply Acquire_wf; [done|by apply perm_elements_free]. }
    pose proof (Acquire_used _ _ _ _ _ _ _ _ _ Hwf H0 Hperm Hos Ha) as Hu.
    destruct r as [p|e']; [destruct (te_listen env (tp_addr prm) p); [done|]|];
      intros [= <- <-].
    + destruct Hu as [Hp Hd]. split; [exists allowed; split; [by apply Release_wf|done]|].
      intros h. rewrite Release_used, Hd. set_solver.
    + split; [by exists allowed|]. intros h. by rewrite Hu.
  - intros env p pm (allowed & Hwf & H0) Hp. simpl in *. split.
    + exists allowed. split; [by apply Release_wf|done].
    + intros q. unfold tcp_close. rewrite Release_used. set_solver.
Qed.

(** [TCPGroup.Listen] and [TCPGroupCtl.Listen]: the listen of Group over the ports. *)
Definition tcp_ctl : Type := ctl tcp_prm Ports.Manager Z.
Definition TCPGroup_Listen (env : tcp_env) (l : nat) (grp key : string) (prm : tcp_prm) (s : tcp_ctl)
    : result (GroupError tcp_err) nat * tcp_ctl := group_listen env l grp key prm s.
Definition TCPGroupCtl_Listen (n : nat) (env : tcp_env) (grp key : string) (prm : tcp_prm) (s : tcp_ctl)
    : option (result (GroupError tcp_err) nat * tcp_ctl) := ctl_listen n env grp key prm s.

(** ** HTTPS and tcpmux groups *)

Section mux_groups.
Context {F : Type}.

Definition mux_open (_ : unit) (cfg : RouteConfig F) (rs : Routers Listener)
    : result RouterError Listener * Routers Listener :=
  match mux_Listen cfg rs with
  | Ok (l, rs') => (Ok l, rs')
  | Err e => (Err e, rs)
  end.

Definition mux_close (_ : unit) (l : Listener) (rs : Routers Listener) : Routers Listener :=
  listener_Close l rs.

Definition https_check (old new : RouteConfig F) : option (GroupError RouterError) :=
  if negb (Domain old =s? Domain new) then Some ErrGroupParamsInvalid else None.

Definition tcpmux_check (old new : RouteConfig F) : option (GroupError RouterError) :=
  if negb (Domain old =s? Domain new) || negb (RouteByHTTPUser old =s? RouteByHTTPUser new) ||
     negb (Username old =s? Username new) || negb (Password old =s? Password new)
  then Some ErrGroupParamsInvalid else None.

Definition mux_resource (check : RouteConfig F → RouteConfig F → option (GroupError RouterError))
    : GroupResource unit (RouteConfig F) (Routers Listener) Listener RouterError := {|
  res_open := mux_open;
  res_close := mux_close;
  res_check := check;
  live := listening;
  res_ok := wf_routers;
  env_ok _ _ := True |}.

Lemma mux_laws check :
  @GroupResourceLaws unit (RouteConfig F) (Routers Listener) Listener RouterError (mux_resource check).
Proof.
  split; simpl; unfold mux_open, mux_close.
  - intros _ prm r h r' Hr _. destruct (mux_Listen prm r) as [[l rs']|] eqn:Hl; [|done].
    intros; simplify_eq. by eapply mux_Listen_listening.
  - intros _ prm r e r' Hr _. destruct (mux_Listen prm r) as [[l rs']|] eqn:Hl; [done|].
    intros; by simplify_eq.
  - intros _ h r Hr Hl. by apply listener_Close_listening.
Qed.

#[global] Instance https_resource : GroupResource unit (RouteConfig F) (Routers Listener) Listener RouterError
  := mux_resource https_check.
#[global] Instance https_laws :
  GroupResourceLaws unit (RouteConfig F) (Routers Listener) Listener RouterError := mux_laws https_check.

Definition tcpmux_resource : GroupResource unit (RouteConfig F) (Routers Listener) Listener RouterError
  := mux_resource tcpmux_check.

Definition mux_ctl : Type := ctl (RouteConfig F) (Routers Listener) Listener.

Definition HTTPSGroup_Listen (l : nat) (grp key : string) (cfg : RouteConfig F) (s : mux_ctl)
    : result (GroupError RouterError) nat * mux_ctl :=
  @group_listen _ _ _ _ _ https_resource tt l grp key cfg s.

Definition HTTPSGroupController_Listen (n : nat) (grp key : string) (cfg : RouteConfig F) (s : mux_ctl)
    : option (result (GroupError RouterError) nat * mux_ctl) :=
  @ctl_listen _ _ _ _ _ https_resource n tt grp key cfg s.

Definition TCPMuxGroup_HTTPConnectListen (l : nat) (grp key : string) (cfg : RouteConfig F)
    (s : mux_ctl) : result (GroupError RouterError) nat * mux_ctl :=
  @group_listen _ _ _ _ _ tcpmux_resource tt l grp key cfg s.

(** [TCPMuxGroupCtl.Listen]: the only multiplexer is [httpconnect]; the group is
    fetched or created before the multiplexer is looked at. *)
Inductive tcpmux_err := UnknownMultiplexer (m : string) | MuxGroupErr (e : GroupError RouterError).

Fixpoint tcpmux_ctl_listen (n : nat) (multiplexer grp key : string) (cfg : RouteConfig F)
    (s : mux_ctl) : option (result tcpmux_err nat * mux_ctl) :=
  match n with
  | 0 => None
  | S n =>
      let '(l, s) := getOrCreate grp s in
      if multiplexer =s? "httpconnect" then
        match TCPMuxGroup_HTTPConnectListen l grp key cfg s with
        | (Err errGroupStale, s) => tcpmux_ctl_listen n multiplexer grp key cfg s
        | (Err e, s) => Some (Err (MuxGroupErr e), s)
        | (Ok ln, s) => Some (Ok ln, s)
        end
      else Some (Err (UnknownMultiplexer multiplexer), s)
  end.

End mux_groups.

(** ** What the invariant says *)


(** With TCP groups as the only users of a fresh port manager, the ports in use are
    exactly the ports of the groups that have members: the last member gives the port
    back and a failed first member keeps none. *)
Theorem tcp_groups_no_leak nt ba allow (s : tcp_ctl) :
  0%Z ∉ allowed_ports allow →
  rtc (gstep false) (init (NewManager nt ba allow)) s →
  ∀ p, p ∈ dom (usedPorts (res s)) ↔ owned s p.
Proof.
  intros H0 Hrun. pose proof (grun_inv false (NewManager nt ba allow) s) as Hi.
  assert (inv false s) as Hinv.
  { apply Hi; [|simpl; set_solver|done]. exists (allowed_ports allow).
    split; [apply NewManager_wf|done]. }
  intros p. split; [by apply (i_exact _ _ Hinv)|]. apply (inv_owned_live _ _ _ Hinv).
Qed.

(** The listeners registered with the HTTPS muxer by groups: in every interleaving,
    with only groups on the muxer, a route is registered exactly while a group with
    members owns it. *)
Theorem https_groups_no_leak {F} (s : @mux_ctl F) :
  rtc (gstep false) (init NewRouters) s →
  ∀ l, listening (res s) l ↔ owned s l.
Proof.
  intros Hrun. assert (inv false s) as Hinv.
  { eapply (grun_inv false NewRouters); [apply NewRouters_wf| |exact Hrun].
    intros _ h (r & Hr & _). unfold routers_at, NewRouters in Hr.
    rewrite lookup_empty in Hr. set_solver. }
  intros l. split; [by apply (i_exact _ _ Hinv)|]. apply (inv_owned_live _ _ _ Hinv).
Qed.

(** Joining a TCP group that has members is refused with the error of the first
    difference, address then port then key, and succeeds with one more listener on
    the group's port otherwise. *)
Theorem tcp_group_join env l (s : tcp_ctl) g p0 grp key prm :
  heap s !! l = Some g → active g → groups s !! grp = Some l → g_group g = grp →
  g_params g = Some p0 →
  let '(r, s') := TCPGroup_Listen env l grp key prm s in
  (r = Err ErrGroupParamsInvalid ↔ tp_addr p0 ≠ tp_addr prm) ∧
  (r = Err ErrGroupDifferentPort ↔ tp_addr p0 = tp_addr prm ∧ tp_port p0 ≠ tp_port prm) ∧
  (r = Err ErrGroupAuthFailed ↔
     tp_addr p0 = tp_addr prm ∧ tp_port p0 = tp_port prm ∧ g_groupKey g ≠ key) ∧
  ((∃ ln, r = Ok ln) ↔ tp_addr p0 = tp_addr prm ∧ tp_port p0 = tp_port prm ∧ g_groupKey g = key) ∧
  (∀ ln, r = Ok ln → ∃ g', heap s' !! l = Some g' ∧ g_lns g' = g_lns g ++ [ln] ∧
     g_realLn g' = g_realLn g ∧ res s' = res s) ∧
  (∀ e, r = Err e → s' = s).
Proof.
  intros Hl Ha Hcur Hg Hp. unfold TCPGroup_Listen, group_listen.
  rewrite Hl, (proj2 (isCurrent_true grp l s) Hcur), Hg, seqb_refl, Hp. cbn [negb].
  unfold active in Ha. destruct (g_lns g) as [|ln0 lns] eqn:Hlns; [done|]. cbn [res_check tcp_resource].
  unfold tcp_check.
  destruct (seqb_spec (tp_addr p0) (tp_addr prm)); cbn [negb]; [|naive_solver].
  destruct (Z.eqb_spec (tp_port p0) (tp_port prm)); cbn [negb]; [|naive_solver].
  destruct (seqb_spec (g_groupKey g) key); cbn [negb]; [|naive_solver].
  unfold newListener. simpl. split_and!; try naive_solver.
  intros ln [= <-]. eexists. rewrite lookup_insert_eq. simpl. rewrite Hlns. done.
Qed.

(** What decides whether a proxy may join a group that shares a muxer's route. *)
Definition mux_join (same : Prop) (key_ok : Prop) (r : result (GroupError RouterError) nat) : Prop :=
  (r = Err ErrGroupParamsInvalid ↔ ¬ same) ∧
  (r = Err ErrGroupAuthFailed ↔ same ∧ ¬ key_ok) ∧
  ((∃ ln, r = Ok ln) ↔ same ∧ key_ok).

(** Joining an HTTPS group that has members takes the same domain and the same key;
    joining a tcpmux group takes the same domain, user route, user name and password
    and the same key; every other attempt is refused with its error. *)
Theorem mux_group_join {F} l (s : @mux_ctl F) g p0 grp key cfg :
  heap s !! l = Some g → active g → groups s !! grp = Some l → g_group g = grp →
  g_params g = Some p0 →
  mux_join (Domain p0 = Domain cfg) (g_groupKey g = key) (fst (HTTPSGroup_Listen l grp key cfg s)) ∧
  mux_join (Domain p0 = Domain cfg ∧ RouteByHTTPUser p0 = RouteByHTTPUser cfg ∧
            Username p0 = Username cfg ∧ Password p0 = Password cfg) (g_groupKey g = key)
    (fst (TCPMuxGroup_HTTPConnectListen l grp key cfg s)).
Proof.
  intros Hl Ha Hcur Hg Hp. unfold HTTPSGroup_Listen, TCPMuxGroup_HTTPConnectListen, group_listen.
  rewrite Hl, (proj2 (isCurrent_true grp l s) Hcur), Hg, seqb_refl, Hp. cbn [negb].
  unfold active in Ha. destruct (g_lns g) as [|ln0 lns]; [done|].
  unfold res_check, https_resource, tcpmux_resource, mux_resource, https_check, tcpmux_check, mux_join.
  split.
  - destruct (seqb_spec (Domain p0) (Domain cfg)), (seqb_spec (g_groupKey g) key);
      simpl; naive_solver.
  - destruct (seqb_spec (Domain p0) (Domain cfg)),
      (seqb_spec (RouteByHTTPUser p0) (RouteByHTTPUser cfg)),
      (seqb_spec (Username p0) (Username cfg)), (seqb_spec (Password p0) (Password cfg)),
      (seqb_spec (g_groupKey g) key); simpl; naive_solver.
Qed.

(** The retry loop of [TCPGroupCtl.Listen] ends: without interference it returns in
    its first round, with the result of listening on the current group. *)
Theorem tcp_listen_terminates (pm : Ports.Manager) (s : tcp_ctl) env grp key prm n :
  res_ok pm → rtc (gstep true) (init pm) s →
  let '(l, s1) := getOrCreate grp s in
  TCPGroupCtl_Listen (S n) env grp key prm s = Some (TCPGroup_Listen env l grp key prm s1) ∧
  fst (TCPGroup_Listen env l grp key prm s1) ≠ Err errGroupStale.
Proof.
  intros Hr Hrun. pose proof (grun_inv true pm s Hr ltac:(done) Hrun) as [_ Hheap].
  apply ctl_listen_first; [done|].
  intros p1 p2. simpl. unfold tcp_check. by repeat case_match.
Qed.

(** ** Witnesses *)

Definition pm_9000 : Ports.Manager := NewManager "tcp" "" [mkPortsRange 0 0 9000].
Definition env_9000 (order : list Z) : tcp_env :=
  mkTcpEnv 1 (λ _, mkNet (λ _ _, true) (λ _ _, true) (λ _ _ p, bool_decide (p ∈ order)))
    order (λ _ _, true).
Definition prm_9000 : tcp_prm := mkTcpPrm "web1" "0.0.0.0" 9000.

(** One member listening on port 9000. *)
Definition s_one : tcp_ctl :=
  snd (group_listen (env_9000 [9000%Z]) 0 "web" "k" prm_9000 (snd (getOrCreate "web" (init pm_9000)))).

Lemma pm_9000_ok : res_ok pm_9000.
Proof. exists (allowed_ports [mkPortsRange 0 0 9000]). split; [apply NewManager_wf|decide_vm]. Qed.

Lemma s_one_run shared : rtc (gstep shared) (init pm_9000) s_one.
Proof.
  eapply rtc_l; [apply (step_get shared _ "web")|]. apply rtc_once. apply step_listen.
  split; [decide_vm|]. intros i q Hq. exfalso. revert Hq. simpl. set_solver.
Qed.


Lemma tcp_groups_no_leak_witness : owned s_one 9000%Z.
Proof.
  apply (tcp_groups_no_leak "tcp" "" [mkPortsRange 0 0 9000] s_one); [decide_vm|apply s_one_run|].
  decide_vm.
Defined.

Definition cfg_a : RouteConfig unit := mkRouteConfig "a.example.com" "" "" "" "" ∅ ∅ "" None None None.

(** One HTTPS group with one member. *)
Definition m_one : @mux_ctl unit :=
  snd (HTTPSGroup_Listen 0 "web" "k" cfg_a (snd (getOrCreate "web" (init NewRouters)))).

Lemma m_one_run : rtc (gstep false) (init NewRouters) m_one.
Proof.
  eapply rtc_l; [apply (step_get false _ "web")|]. apply rtc_once.
  apply (step_listen false _ tt 0 "web" "k" cfg_a). done.
Qed.

Lemma https_groups_no_leak_witness : listening (res m_one) (new_listener cfg_a).
Proof.
  apply (https_groups_no_leak m_one m_one_run). eexists 0%nat, _.
  split_and!; [vm_compute; reflexivity|vm_compute; discriminate|reflexivity].
Defined.

Lemma mux_group_join_witness :
  fst (HTTPSGroup_Listen 0 "web" "other" cfg_a m_one) = Err ErrGroupAuthFailed.
Proof.
  destruct (mux_group_join 0 m_one _ cfg_a "web" "other" cfg_a
    eq_refl ltac:(by vm_compute) eq_refl eq_refl eq_refl) as [(_ & H & _) _].
  apply H. split; [done|by vm_compute].
Defined.

Lemma tcp_group_join_witness :
  fst (TCPGroup_Listen (env_9000 []) 0 "web" "other" prm_9000 s_one) = Err ErrGroupAuthFailed.
Proof.
  pose proof (tcp_group_join (env_9000 []) 0 s_one _ prm_9000 "web" "other" prm_9000
    eq_refl ltac:(by vm_compute) eq_refl eq_refl eq_refl) as H.
  destruct (TCPGroup_Listen _ _ _ _ _ _) as [r s']. apply H. by vm_compute.
Defined.

Lemma tcp_listen_terminates_witness :
  is_Some (TCPGroupCtl_Listen 1 (env_9000 []) "web" "k" prm_9000 s_one).
Proof.
  pose proof (tcp_listen_terminates pm_9000 s_one (env_9000 []) "web" "k" prm_9000 0
    pm_9000_ok (s_one_run true)) as H.
  destruct (getOrCreate "web" s_one) as [l s1]. destruct H as [-> _]. done.
Defined.
