(* ===== verification/HttpGroup.v ===== *)
(** HTTP groups, [src/server/group/http.go]: proxies that share one route of the
    HTTP reverse proxy and are picked in turn.  The route table is the one of the
    whole server, so routes of proxies without a group are in it too. *)
From Stdlib Require Import ZArith Lia Ascii String.
From stdpp Require Import base gmap strings list sorting.
From S2P Require Import Prelude GoStrings Router Vhost.
Local Open Scope string_scope.
Local Open Scope list_scope.

(** ** Data *)

(** Connection functions: a proxy's own [GetRealConn], or the three methods of the
    group at a location. *)
Inductive conn_fn :=
| ProxyConn (proxy : nat)
| GroupCreateConn (g : nat) | GroupChooseEndpoint (g : nat) | GroupCreateConnByEndpoint (g : nat).

Abbreviation route := (RouteConfig conn_fn).

Inductive HTTPGroupError :=
| ErrGroupAuthFailed | ErrGroupParamsInvalid | ErrProxyRepeated | errGroupStale
| ErrRoute (e : RouterError).

Record HTTPGroup := mkHTTPGroup {
  hg_group : string;
  hg_groupKey : string;
  hg_domain : string;
  hg_location : string;
  hg_routeByHTTPUser : string;
  createFuncs : gmap string (option conn_fn);
  pxyNames : list string;
  index : Z }.                       (* uint64 *)

Definition NewHTTPGroup : HTTPGroup := mkHTTPGroup "" "" "" "" "" ∅ [] 0.

Record HTTPGroupController := mkController {
  hgroups : gmap string nat;         (* groupRegistry.groups *)
  hheap : gmap nat HTTPGroup;        (* the group objects *)
  hnext : nat;
  vhostRouter : Routers route }.

Definition NewHTTPGroupController (rs : Routers route) : HTTPGroupController :=
  mkController ∅ ∅ 0 rs.

(** ** Operations *)

Definition hgetOrCreate (key : string) (c : HTTPGroupController) : nat * HTTPGroupController :=
  match hgroups c !! key with
  | Some l => (l, c)
  | None =>
      let l := hnext c in
      (l, mkController (<[key := l]> (hgroups c)) (<[l := NewHTTPGroup]> (hheap c)) (S l) (vhostRouter c))
  end.

Definition hisCurrent (key : string) (l : nat) (c : HTTPGroupController) : bool :=
  match hgroups c !! key with Some l' => bool_decide (l' = l) | None => false end.

Definition hremoveIf (key : string) (l : nat) (c : HTTPGroupController) : HTTPGroupController :=
  match hgroups c !! key with
  | Some l' =>
      if decide (l' = l)
      then mkController (delete key (hgroups c)) (hheap c) (hnext c) (vhostRouter c)
      else c
  | None => c
  end.

Definition set_hgroup (l : nat) (g : HTTPGroup) (c : HTTPGroupController) : HTTPGroupController :=
  mkController (hgroups c) (<[l := g]> (hheap c)) (hnext c) (vhostRouter c).

(** The copy of the first member's route with the functions of the group. *)
Definition group_route (l : nat) (rc : route) : route :=
  mkRouteConfig (Domain rc) (Location rc) (RewriteHost rc) (Username rc) (Password rc)
    (Headers rc) (ResponseHeaders rc) (RouteByHTTPUser rc)
    (Some (GroupCreateConn l)) (Some (GroupChooseEndpoint l)) (Some (GroupCreateConnByEndpoint l)).

(** The last lines of [Register]: refuse a known proxy, record a new one. *)
Definition add_member (proxyName : string) (rc : route) (g : HTTPGroup) : option HTTPGroup :=
  match createFuncs g !! proxyName with
  | Some _ => None
  | None =>
      Some (mkHTTPGroup (hg_group g) (hg_groupKey g) (hg_domain g) (hg_location g)
              (hg_routeByHTTPUser g) (<[proxyName := CreateConnFn rc]> (createFuncs g))
              (pxyNames g ++ [proxyName]) (index g))
  end.

(** [HTTPGroup.Register], under the group's lock: what comes before the proxy is recorded (for the
    first one this adds the route), then the proxy. *)
Definition register_route (l : nat) (grp key : string) (rc : route) (c : HTTPGroupController)
    : result HTTPGroupError unit * HTTPGroupController :=
  match hheap c !! l with
  | None => (Err errGroupStale, c)   (* no such object *)
  | Some g =>
      if negb (hisCurrent grp l c) then (Err errGroupStale, c) else
      if decide (createFuncs g = ∅) then
        match Add (Domain rc) (Location rc) (RouteByHTTPUser rc) (group_route l rc) (vhostRouter c) with
        | Err e => (Err (ErrRoute e), c)
        | Ok rs =>
            let g := mkHTTPGroup grp key (Domain rc) (Location rc) (RouteByHTTPUser rc)
                       (createFuncs g) (pxyNames g) (index g) in
            (Ok tt, mkController (hgroups c) (<[l := g]> (hheap c)) (hnext c) rs)
        end
      else if negb (hg_group g =s? grp) || negb (hg_domain g =s? Domain rc) ||
              negb (hg_location g =s? Location rc) || negb (hg_routeByHTTPUser g =s? RouteByHTTPUser rc)
      then (Err ErrGroupParamsInvalid, c)
      else if negb (hg_groupKey g =s? key) then (Err ErrGroupAuthFailed, c)
      else (Ok tt, c)
  end.

Definition register_member (l : nat) (proxyName : string) (rc : route) (c : HTTPGroupController)
    : result HTTPGroupError unit * HTTPGroupController :=
  match hheap c !! l with
  | None => (Err errGroupStale, c)
  | Some g =>
      match add_member proxyName rc g with
      | None => (Err ErrProxyRepeated, c)
      | Some g => (Ok tt, set_hgroup l g c)
      end
  end.

Definition group_Register (l : nat) (proxyName grp key : string) (rc : route)
    (c : HTTPGroupController) : result HTTPGroupError unit * HTTPGroupController :=
  match register_route l grp key rc c with
  | (Err e, c) => (Err e, c)
  | (Ok _, c) => register_member l proxyName rc c
  end.

(** The retry loop of the controller's [Register]; [n] bounds the rounds. *)
Fixpoint ctl_Register (n : nat) (proxyName grp key : string) (rc : route) (c : HTTPGroupController)
    : option (result HTTPGroupError unit * HTTPGroupController) :=
  match n with
  | 0 => None
  | S n =>
      let '(l, c) := hgetOrCreate grp c in
      match group_Register l proxyName grp key rc c with
      | (Err errGroupStale, c) => ctl_Register n proxyName grp key rc c
      | out => Some out
      end
  end.

(** [HTTPGroup.UnRegister], under the group's lock: the member goes; after the last one the route,
    under the lock of the table, and the name, under the lock of the registry. *)
Definition unregister_member (l : nat) (proxyName : string) (c : HTTPGroupController) : HTTPGroupController :=
  match hheap c !! l with
  | None => c
  | Some g =>
      set_hgroup l (mkHTTPGroup (hg_group g) (hg_groupKey g) (hg_domain g) (hg_location g)
                      (hg_routeByHTTPUser g) (delete proxyName (createFuncs g))
                      (remove_one proxyName (pxyNames g)) (index g)) c
  end.

Definition members_gone (l : nat) (c : HTTPGroupController) : bool :=
  match hheap c !! l with Some g => bool_decide (createFuncs g = ∅) | None => false end.

Definition unregister_route (l : nat) (c : HTTPGroupController) : HTTPGroupController :=
  match hheap c !! l with
  | None => c
  | Some g => mkController (hgroups c) (hheap c) (hnext c)
                (Del (hg_domain g) (hg_location g) (hg_routeByHTTPUser g) (vhostRouter c))
  end.

Definition unregister_name (l : nat) (c : HTTPGroupController) : HTTPGroupController :=
  match hheap c !! l with None => c | Some g => hremoveIf (hg_group g) l c end.

Definition group_UnRegister (l : nat) (proxyName : string) (c : HTTPGroupController)
    : HTTPGroupController :=
  let c := unregister_member l proxyName c in
  if members_gone l c then unregister_name l (unregister_route l c) else c.

(** [HTTPGroupController.UnRegister]. *)
Definition ctl_UnRegister (proxyName grp : string) (c : HTTPGroupController) : HTTPGroupController :=
  match hgroups c !! grp with
  | None => c
  | Some l => group_UnRegister l proxyName c
  end.

(** [atomic.AddUint64(&g.index, 1)]: the new value. *)
Definition bump (g : HTTPGroup) : HTTPGroup :=
  mkHTTPGroup (hg_group g) (hg_groupKey g) (hg_domain g) (hg_location g) (hg_routeByHTTPUser g)
    (createFuncs g) (pxyNames g) ((index g + 1) `mod` 2 ^ 64)%Z.

(** [g.pxyNames[newIndex % uint64(len(g.pxyNames))]] when there is a member. *)
Definition pick (newIndex : Z) (g : HTTPGroup) : option string :=
  match pxyNames g with
  | [] => None
  | _ => pxyNames g !! Z.to_nat (newIndex `mod` Z.of_nat (length (pxyNames g)))%Z
  end.

(** What [createConn] and [chooseEndpoint] do under the group's lock, which they take after the
    counter has given them [newIndex]: the function to call, the endpoint's name; [None] is
    their error. *)
Definition conn_at (newIndex : Z) (g : HTTPGroup) : option conn_fn :=
  match pick newIndex g with Some name => mjoin (createFuncs g !! name) | None => None end.

Definition endpoint_at (newIndex : Z) (g : HTTPGroup) : option string :=
  match pick newIndex g with
  | Some name => if name =s? "" then None else Some name
  | None => None
  end.

Definition createConn (g : HTTPGroup) : option conn_fn * HTTPGroup :=
  let g := bump g in (conn_at (index g) g, g).

Definition chooseEndpoint (g : HTTPGroup) : option string * HTTPGroup :=
  let g := bump g in (endpoint_at (index g) g, g).

Definition createConnByEndpoint (endpoint : string) (g : HTTPGroup) : option conn_fn :=
  mjoin (createFuncs g !! endpoint).

(** ** The transition system *)

(** The route at a key of the server's table. *)
Definition route_of (c : HTTPGroupController) (d loc u : string) : option route :=
  payload <$> find_first (λ r, loc =s? location r) (routers_at (vhostRouter c) d u).

Definition direct (rc : route) : Prop := ∃ n, CreateConnFn rc = Some (ProxyConn n).

Definition set_routes (rs : Routers route) (c : HTTPGroupController) : HTTPGroupController :=
  mkController (hgroups c) (hheap c) (hnext c) rs.

(** What a goroutine that holds a group's lock has still to do: record the proxy; remove the
    route; remove the name. *)
Inductive group_work := Joining (p : string) (rc : route) | Leaving | Removing.

Record hstate := mkH { h_ctl : HTTPGroupController; h_busy : gmap nat group_work }.

Definition hstart : hstate := mkH (NewHTTPGroupController NewRouters) ∅.

(** One critical section of the registry, of the table or of a group: a goroutine fetches a
    group; one that holds a reference to any group ever created takes its lock to register a
    proxy, then records it; a member leaves, and the last one removes the route, then the name;
    the counter of a group is increased, without its lock; a proxy without a group adds its
    route or removes a route that is not a group's.  Whether a group is current is read before
    its route is added and cannot change in between: only a goroutine that holds the group's
    lock removes its name. *)
Inductive hstep : hstate → hstate → Prop :=
| hs_get c b key : hstep (mkH c b) (mkH (snd (hgetOrCreate key c)) b)
| hs_enter c b l p grp key rc res c' :
    b !! l = None → direct rc → register_route l grp key rc c = (res, c') →
    hstep (mkH c b) (mkH c' (if is_ok res then <[l := Joining p rc]> b else b))
| hs_join c b l p rc :
    b !! l = Some (Joining p rc) → hstep (mkH c b) (mkH (snd (register_member l p rc c)) (delete l b))
| hs_leave c b l g p :
    b !! l = None → hheap c !! l = Some g → is_Some (createFuncs g !! p) →
    hstep (mkH c b) (mkH (unregister_member l p c) (if members_gone l (unregister_member l p c) then <[l := Leaving]> b else b))
| hs_route c b l : b !! l = Some Leaving → hstep (mkH c b) (mkH (unregister_route l c) (<[l := Removing]> b))
| hs_name c b l : b !! l = Some Removing → hstep (mkH c b) (mkH (unregister_name l c) (delete l b))
| hs_count c b l g : hheap c !! l = Some g → hstep (mkH c b) (mkH (set_hgroup l (bump g) c) b)
| hs_add c b d loc u rc rs :
    direct rc → Add d loc u rc (vhostRouter c) = Ok rs → hstep (mkH c b) (mkH (set_routes rs c) b)
| hs_del c b d loc u :
    (∀ rc, route_of c (ToLower d) loc u = Some rc → direct rc) →
    hstep (mkH c b) (mkH (set_routes (Del d loc u (vhostRouter c)) c) b).

Definition populated (g : HTTPGroup) : Prop := createFuncs g ≠ ∅.

(** A group has its route in the table while it has members, while its first member is being
    recorded, and until the goroutine of the last one has removed the route. *)
Definition routed (b : option group_work) (g : HTTPGroup) : Prop :=
  match b with Some Removing => False | Some _ => True | None => populated g end.

(** The name list and the function map have the same members, each once. *)
Definition members_ok (g : HTTPGroup) : Prop :=
  NoDup (pxyNames g) ∧ (∀ p, p ∈ pxyNames g ↔ is_Some (createFuncs g !! p)) ∧
  ∀ p f, createFuncs g !! p = Some f → ∃ n, f = Some (ProxyConn n).

Definition pending_ok (b : group_work) (g : HTTPGroup) : Prop :=
  match b with Joining _ rc => direct rc | Leaving | Removing => createFuncs g = ∅ end.

Record hinv (s : hstate) : Prop := {
  h_wf : wf_routers (vhostRouter (h_ctl s));
  h_heap : ∀ k l, hgroups (h_ctl s) !! k = Some l → is_Some (hheap (h_ctl s) !! l);
  h_inj : ∀ k1 k2 l, hgroups (h_ctl s) !! k1 = Some l → hgroups (h_ctl s) !! k2 = Some l → k1 = k2;
  h_fresh : ∀ l, (hnext (h_ctl s) <= l)%nat → hheap (h_ctl s) !! l = None;
  h_members : ∀ l g, hheap (h_ctl s) !! l = Some g → members_ok g;
  (* a group whose lock is held is current *)
  h_pending : ∀ l b, h_busy s !! l = Some b → ∃ g, hheap (h_ctl s) !! l = Some g ∧ pending_ok b g ∧
    hgroups (h_ctl s) !! hg_group g = Some l;
  (* a group that should have its route is current and has it *)
  h_active : ∀ l g, hheap (h_ctl s) !! l = Some g → routed (h_busy s !! l) g →
    hgroups (h_ctl s) !! hg_group g = Some l ∧
    ∃ rc, route_of (h_ctl s) (ToLower (hg_domain g)) (hg_location g) (hg_routeByHTTPUser g) =
          Some (group_route l rc);
  (* every route of the table belongs to a proxy or to the one group that should have it *)
  h_routes : ∀ d loc u rc, route_of (h_ctl s) d loc u = Some rc →
    direct rc ∨ ∃ l g rc0, rc = group_route l rc0 ∧ hheap (h_ctl s) !! l = Some g ∧ routed (h_busy s !! l) g ∧
      d = ToLower (hg_domain g) ∧ loc = hg_location g ∧ u = hg_routeByHTTPUser g }.

(** *** The table under [Add] and [Del] *)

Lemma route_of_Add c c' d loc u rc :
  wf_routers (vhostRouter c) → Add d loc u rc (vhostRouter c) = Ok (vhostRouter c') →
  route_of c (ToLower d) loc u = None ∧
  ∀ d' loc' u', route_of c' d' loc' u' =
    if decide (ToLower d = d' ∧ loc = loc' ∧ u = u') then Some rc else route_of c d' loc' u'.
Proof.
  intros Hwf Hadd. pose proof (Add_wf _ _ _ _ _ _ Hwf Hadd) as Hwf'.
  apply Add_at in Hadd as [Hnone Hat]. unfold route_of. rewrite Hnone. split; [done|].
  intros d' loc' u'. rewrite Hat. destruct (decide (ToLower d = d' ∧ u = u')) as [[<- <-]|Hk].
  - rewrite find_loc_insert.
    + simpl. repeat case_decide; naive_solver.
    + rewrite <- (merge_sort_Permutation loc_ge).
      specialize (Hwf' (ToLower d) u). rewrite Hat, decide_True in Hwf' by done. apply Hwf'.
  - rewrite decide_False; [done|naive_solver].
Qed.

Lemma route_of_Del c c' d loc u :
  vhostRouter c' = Del d loc u (vhostRouter c) →
  ∀ d' loc' u', route_of c' d' loc' u' =
    if decide (ToLower d = d' ∧ loc = loc' ∧ u = u') then None else route_of c d' loc' u'.
Proof.
  intros Hdel d' loc' u'. unfold route_of. rewrite Hdel, Del_at.
  destruct (decide (ToLower d = d' ∧ u = u')) as [[<- <-]|Hk].
  - rewrite find_loc_filter. repeat case_decide; naive_solver.
  - rewrite decide_False; [done|naive_solver].
Qed.

Lemma group_route_not_direct l rc : ¬ direct (group_route l rc).
Proof. by intros [n ?]. Qed.

Lemma group_route_inj l1 l2 rc1 rc2 : group_route l1 rc1 = group_route l2 rc2 → l1 = l2.
Proof. unfold group_route. congruence. Qed.

(** Two groups that should have a route never have it at one key. *)
Lemma active_route_unique s l1 l2 g1 g2 :
  hinv s → hheap (h_ctl s) !! l1 = Some g1 → hheap (h_ctl s) !! l2 = Some g2 →
  routed (h_busy s !! l1) g1 → routed (h_busy s !! l2) g2 →
  ToLower (hg_domain g1) = ToLower (hg_domain g2) → hg_location g1 = hg_location g2 →
  hg_routeByHTTPUser g1 = hg_routeByHTTPUser g2 → l1 = l2.
Proof.
  intros Hi H1 H2 P1 P2 Hd Hl Hu.
  destruct (h_active _ Hi _ _ H1 P1) as (_ & rc1 & R1).
  destruct (h_active _ Hi _ _ H2 P2) as (_ & rc2 & R2).
  rewrite Hd, Hl, Hu, R2 in R1. apply (inj Some) in R1. symmetry. exact (group_route_inj _ _ _ _ R1).
Qed.

(** *** Preservation *)

Lemma hisCurrent_true key l c : hisCurrent key l c = true ↔ hgroups c !! key = Some l.
Proof.
  unfold hisCurrent. destruct (hgroups c !! key) as [l'|]; [|done].
  rewrite bool_decide_eq_true. naive_solver.
Qed.

Lemma insert_cases {A} (m : gmap nat A) l x l1 y :
  <[l := x]> m !! l1 = Some y → (l1 = l ∧ y = x) ∨ (l1 ≠ l ∧ m !! l1 = Some y).
Proof. rewrite lookup_insert. case_decide; naive_solver. Qed.

Lemma heap_lt s l g : hinv s → hheap (h_ctl s) !! l = Some g → (l < hnext (h_ctl s))%nat.
Proof.
  intros Hi Hl. destruct (decide (hnext (h_ctl s) <= l)%nat) as [Hle|]; [|lia].
  by rewrite (h_fresh _ Hi _ Hle) in Hl.
Qed.

Lemma NewHTTPGroup_members : members_ok NewHTTPGroup.
Proof. split_and!; [constructor|intros p; simpl; rewrite lookup_empty, is_Some_alt; set_solver|done]. Qed.

Lemma hgetOrCreate_inv key c b : hinv (mkH c b) → hinv (mkH (snd (hgetOrCreate key c)) b).
Proof.
  intros Hi. unfold hgetOrCreate. destruct (hgroups c !! key) as [l|] eqn:Hk; [done|]. simpl.
  pose proof (h_fresh _ Hi (hnext c) (Nat.le_refl _)) as Hf. simpl in Hf.
  assert (∀ k, hgroups c !! k = Some (hnext c) → False) as Hnew.
  { intros k Hk'. destruct (h_heap _ Hi _ _ Hk'). simpl in *. congruence. }
  assert (b !! hnext c = None) as Hbf.
  { destruct (b !! hnext c) as [w|] eqn:Eb; [|done]. destruct (h_pending _ Hi _ _ Eb) as (g & Hg & _). simpl in Hg. congruence. }
  destruct Hi as [H1 H2 H3 H4 H5 H6 H7 H8]. simpl in *. split; simpl; try done.
  - intros k l. rewrite !lookup_insert. repeat case_decide; naive_solver.
  - intros k1 k2 l. rewrite !lookup_insert. repeat case_decide; naive_solver.
  - intros l Hl. rewrite lookup_insert_ne by lia. apply H4. lia.
  - intros l g [[-> ->]|[? ?]]%insert_cases; [apply NewHTTPGroup_members|by eapply H5].
  - intros l x Hx. destruct (H6 _ _ Hx) as (g & Hg & ? & ?). exists g. rewrite !lookup_insert_ne by congruence. done.
  - intros l g [[-> ->]|[? Hl]]%insert_cases Hp; [by rewrite Hbf in Hp; destruct Hp|].
    destruct (H7 l g Hl Hp) as [? ?]. rewrite lookup_insert_ne by congruence. done.
  - intros d loc u rc Hrc. destruct (H8 d loc u rc Hrc) as [?|(l & g & rc0 & ? & Hl & ?)]; [auto|].
    right. exists l, g, rc0. rewrite lookup_insert_ne; [done|]. congruence.
Qed.

(** A group object changes, not its route. *)
Lemma group_changed_inv c b l g g' b' :
  hinv (mkH c b) → hheap c !! l = Some g →
  hg_group g' = hg_group g → hg_domain g' = hg_domain g → hg_location g' = hg_location g →
  hg_routeByHTTPUser g' = hg_routeByHTTPUser g →
  members_ok g' → (∀ l1, l1 ≠ l → b' !! l1 = b !! l1) →
  (∀ x, b' !! l = Some x → pending_ok x g' ∧ hgroups c !! hg_group g = Some l) →
  (routed (b' !! l) g' ↔ routed (b !! l) g) →
  hinv (mkH (set_hgroup l g' c) b').
Proof.
  intros Hi Hl Hg Hd Hlo Hu Hm Hb Hbl Hr. pose proof (heap_lt _ _ _ Hi Hl) as Hlt.
  destruct Hi as [H1 H2 H3 H4 H5 H6 H7 H8]. simpl in *. split; simpl; try done.
  - intros k l1 Hk. rewrite lookup_insert. case_decide; [done|]. by eapply H2.
  - intros l1 Hl1. rewrite lookup_insert_ne by lia. by apply H4.
  - intros l1 g1 [[-> ->]|[? ?]]%insert_cases; [done|by eapply H5].
  - intros l1 x. destruct (decide (l1 = l)) as [->|Hne].
    + intros Hx. exists g'. rewrite lookup_insert_eq, Hg. by destruct (Hbl x Hx).
    + rewrite Hb by done. intros Hx. destruct (H6 _ _ Hx) as (g1 & ? & ?). exists g1. by rewrite lookup_insert_ne.
  - intros l1 g1 [[-> ->]|[Hne Hl1]]%insert_cases.
    + rewrite Hr, Hg, Hd, Hlo, Hu. by apply H7.
    + rewrite Hb by done. by apply H7.
  - intros d loc u rc Hrc. destruct (H8 d loc u rc Hrc) as [?|(l1 & g1 & rc0 & Hrc0 & Hl1 & Hp & Ed & El & Eu)]; [auto|].
    right. destruct (decide (l1 = l)) as [->|Hne].
    + assert (g1 = g) as -> by congruence. exists l, g', rc0. rewrite lookup_insert_eq, Hd, Hlo, Hu. by split_and!; [..|apply Hr| | |].
    + exists l1, g1, rc0. rewrite lookup_insert_ne, Hb by done. done.
Qed.

(** The first proxy of a group adds the route. *)
Lemma first_route_inv c b l g p grp key rc rs :
  hinv (mkH c b) → hheap c !! l = Some g → b !! l = None → createFuncs g = ∅ → hgroups c !! grp = Some l → direct rc →
  Add (Domain rc) (Location rc) (RouteByHTTPUser rc) (group_route l rc) (vhostRouter c) = Ok rs →
  hinv (mkH (mkController (hgroups c)
    (<[l := mkHTTPGroup grp key (Domain rc) (Location rc) (RouteByHTTPUser rc) (createFuncs g) (pxyNames g) (index g)]> (hheap c))
    (hnext c) rs) (<[l := Joining p rc]> b)).
Proof.
  intros Hi Hl Hbl He Hcur Hd Hadd. set (g' := mkHTTPGroup _ _ _ _ _ _ _ _). set (c' := mkController _ _ _ _).
  destruct (route_of_Add c c' _ _ _ _ (h_wf _ Hi) Hadd) as [Hnone Hat].
  pose proof (Add_wf _ _ _ _ _ _ (h_wf _ Hi) Hadd) as Hwf. pose proof (heap_lt _ _ _ Hi Hl) as Hlt.
  assert (∀ g0, hheap c !! l = Some g0 → ¬ routed (b !! l) g0) as Hno.
  { intros g0 Hg0. assert (g0 = g) as -> by congruence. rewrite Hbl. intros Hp. by apply Hp. }
  destruct Hi as [H1 H2 H3 H4 H5 H6 H7 H8]. simpl in *. split; simpl; try done.
  - intros k l1 Hk. rewrite lookup_insert. case_decide; [done|]. by eapply H2.
  - intros l1 Hl1. rewrite lookup_insert_ne by lia. by apply H4.
  - intros l1 g1 [[-> ->]|[? ?]]%insert_cases; [|by eapply H5]. exact (H5 _ _ Hl).
  - intros l1 x [[-> ->]|[Hne Hx]]%insert_cases; [exists g'; by rewrite lookup_insert_eq|].
    destruct (H6 _ _ Hx) as (g1 & ? & ?). exists g1. by rewrite lookup_insert_ne.
  - intros l1 g1 [[-> ->]|[Hne Hl1]]%insert_cases; [intros _; split; [done|]; exists rc; simpl; by rewrite Hat, decide_True|].
    rewrite lookup_insert_ne by done. intros Hp. destruct (H7 _ _ Hl1 Hp) as (? & rc1 & Hrc1). split; [done|]. exists rc1.
    rewrite Hat. case_decide as Hk; [|done]. destruct Hk as (Ed & El & Eu). rewrite Ed, El, Eu in Hnone. congruence.
  - intros d loc u rc1. rewrite Hat. case_decide as Hk.
    + destruct Hk as (<- & <- & <-). intros [= <-]. right. exists l, g', rc. by rewrite !lookup_insert_eq.
    + intros Hrc1. destruct (H8 _ _ _ _ Hrc1) as [?|(l1 & g1 & rc2 & E2 & Hl1 & Hp & Ek)]; [auto|].
      right. exists l1, g1, rc2. assert (l1 ≠ l) by (intros ->; by eapply Hno). by rewrite !lookup_insert_ne.
Qed.

(** Adding or removing the route of a proxy. *)
Lemma set_routes_add_inv c b d loc u rc rs :
  hinv (mkH c b) → direct rc → Add d loc u rc (vhostRouter c) = Ok rs → hinv (mkH (set_routes rs c) b).
Proof.
  intros Hi Hd Hadd.
  destruct (route_of_Add c (set_routes rs c) d loc u rc (h_wf _ Hi) Hadd) as [Hnone Hat].
  pose proof (Add_wf _ _ _ _ _ _ (h_wf _ Hi) Hadd) as Hwf'.
  destruct Hi as [H1 H2 H3 H4 H5 H6 H7 H8]. simpl in *. split; simpl; try done.
  - intros l g Hl Hp. destruct (H7 l g Hl Hp) as (? & rc0 & Hrc). split; [done|].
    exists rc0. rewrite Hat. case_decide as Hk; [|done]. destruct Hk as (Hk & -> & ->).
    rewrite <- Hk in Hrc. congruence.
  - intros d' loc' u' rc'. rewrite Hat. case_decide; [|apply H8]. intros; simplify_eq. auto.
Qed.

Lemma set_routes_del_inv c b d loc u :
  hinv (mkH c b) → (∀ rc, route_of c (ToLower d) loc u = Some rc → direct rc) →
  hinv (mkH (set_routes (Del d loc u (vhostRouter c)) c) b).
Proof.
  intros Hi Hd. pose proof (route_of_Del c (set_routes (Del d loc u (vhostRouter c)) c) d loc u eq_refl) as Hat.
  pose proof (Del_wf d loc u _ (h_wf _ Hi)) as Hwf'.
  destruct Hi as [H1 H2 H3 H4 H5 H6 H7 H8]. simpl in *. split; simpl; try done.
  - intros l g Hl Hp. destruct (H7 l g Hl Hp) as (? & rc0 & Hrc). split; [done|].
    exists rc0. rewrite Hat. case_decide as Hk; [|done]. destruct Hk as (Hk & -> & ->).
    rewrite <- Hk in Hrc. by apply Hd, group_route_not_direct in Hrc.
  - intros d' loc' u' rc'. rewrite Hat. case_decide; [done|apply H8].
Qed.

(** The goroutine of the last member removes the route, then the name. *)
Lemma unregister_route_inv c b l :
  hinv (mkH c b) → b !! l = Some Leaving → hinv (mkH (unregister_route l c) (<[l := Removing]> b)).
Proof.
  intros Hi Hb. destruct (h_pending _ Hi _ _ Hb) as (g & Hl & He & Hcur). simpl in *. unfold unregister_route. rewrite Hl.
  set (c' := mkController _ _ _ _).
  pose proof (route_of_Del c c' (hg_domain g) (hg_location g) (hg_routeByHTTPUser g) eq_refl) as Hat.
  pose proof (Del_wf (hg_domain g) (hg_location g) (hg_routeByHTTPUser g) _ (h_wf _ Hi)) as Hwf.
  assert (routed (b !! l) g) as Hrl by (rewrite Hb; exact I).
  pose proof (λ l1 g1 H1 H2 H3, active_route_unique (mkH c b) l1 l g1 g Hi H1 H2 H3 Hrl) as Huniq.
  destruct Hi as [H1 H2 H3 H4 H5 H6 H7 H8]. simpl in *. split; simpl; try done.
  - intros l1 x [[-> ->]|[Hne Hx]]%insert_cases; [by exists g|by apply H6].
  - intros l1 g1 Hl1. rewrite lookup_insert. case_decide as Hne; [done|]. intros Hp.
    destruct (H7 l1 g1 Hl1 Hp) as (? & rc1 & Hrc1). split; [done|]. exists rc1.
    rewrite Hat. case_decide as Hk; [|done]. destruct Hk as (? & ? & ?). exfalso. apply Hne. symmetry. by eapply Huniq.
  - intros d loc u rc. rewrite Hat. case_decide as Hk; [done|]. intros Hrc.
    destruct (H8 d loc u rc Hrc) as [?|(l1 & g1 & rc0 & ? & Hl1 & Hp & ? & ? & ?)]; [auto|].
    right. exists l1, g1, rc0. rewrite lookup_insert_ne; [done|]. intros ->. simplify_eq. naive_solver.
Qed.

Lemma unregister_name_inv c b l :
  hinv (mkH c b) → b !! l = Some Removing → hinv (mkH (unregister_name l c) (delete l b)).
Proof.
  intros Hi Hb. destruct (h_pending _ Hi _ _ Hb) as (g & Hl & He & Hcur). simpl in *. unfold unregister_name, hremoveIf.
  rewrite Hl, Hcur, decide_True by done.
  assert (∀ g', hheap c !! l = Some g' → ¬ routed (delete l b !! l) g') as Hno.
  { intros g' Hg'. assert (g' = g) as -> by congruence. rewrite lookup_delete_eq. intros Hp. by apply Hp. }
  destruct Hi as [H1 H2 H3 H4 H5 H6 H7 H8]. simpl in *. split; simpl; try done.
  - intros k l1 [_ Hk]%lookup_delete_Some. by eapply H2.
  - intros k1 k2 l1 [_ ?]%lookup_delete_Some [_ ?]%lookup_delete_Some. by eapply H3.
  - intros l1 x [Hne Hx]%lookup_delete_Some. destruct (H6 _ _ Hx) as (g1 & ? & ? & ?). exists g1.
    rewrite lookup_delete_ne by congruence. done.
  - intros l1 g1 Hl1 Hp. assert (l1 ≠ l) as Hne by (intros ->; by eapply Hno). rewrite lookup_delete_ne in Hp by done.
    destruct (H7 _ _ Hl1 Hp) as [? ?]. rewrite lookup_delete_ne by congruence. done.
  - intros d loc u rc Hrc. destruct (H8 _ _ _ _ Hrc) as [?|(l1 & g1 & rc0 & ? & Hl1 & Hp & ?)]; [auto|].
    right. exists l1, g1, rc0. assert (l1 ≠ l) as Hne; [|by rewrite lookup_delete_ne]. intros ->. by rewrite Hb in Hp.
Qed.

(** Members that come and go. *)
Lemma add_member_ok p rc g g' : members_ok g → direct rc → add_member p rc g = Some g' →
  members_ok g' ∧ populated g' ∧ hg_group g' = hg_group g ∧ hg_domain g' = hg_domain g ∧ hg_location g' = hg_location g ∧
  hg_routeByHTTPUser g' = hg_routeByHTTPUser g.
Proof.
  intros (Hnd & Hiff & Hf) [n Hn]. unfold add_member. destruct (createFuncs g !! p) eqn:Hp; [done|]. intros [= <-].
  split; [|split_and!; [apply insert_non_empty|done..]].
  assert (p ∉ pxyNames g) by (rewrite Hiff, Hp; by intros [? ?]). split_and!; simpl.
  - apply NoDup_app. split_and!; [done|set_solver|apply NoDup_singleton].
  - intros q. rewrite elem_of_app, list_elem_of_singleton, lookup_insert, Hiff. case_decide; naive_solver.
  - intros q f. rewrite lookup_insert. case_decide; [|apply Hf]. rewrite Hn. intros [= <-]. by exists n.
Qed.

Lemma register_member_inv c b l p rc :
  hinv (mkH c b) → b !! l = Some (Joining p rc) → hinv (mkH (snd (register_member l p rc c)) (delete l b)).
Proof.
  intros Hi Hb. destruct (h_pending _ Hi _ _ Hb) as (g & Hl & Hd & Hcur). simpl in *. unfold register_member. rewrite Hl.
  assert (∀ g', hg_group g' = hg_group g → hg_domain g' = hg_domain g → hg_location g' = hg_location g →
    hg_routeByHTTPUser g' = hg_routeByHTTPUser g → members_ok g' → populated g' → hinv (mkH (set_hgroup l g' c) (delete l b))) as Hset.
  { intros g' E1 E2 E3 E4 Hm Hp. apply (group_changed_inv c b l g g'); try done.
    - intros l1 ?. by rewrite lookup_delete_ne.
    - by rewrite lookup_delete_eq.
    - by rewrite lookup_delete_eq, Hb. }
  pose proof (h_members _ Hi _ _ Hl) as Hm.
  destruct (add_member p rc g) as [g'|] eqn:Ha; simpl.
  - destruct (add_member_ok _ _ _ _ Hm Hd Ha) as (? & ? & ? & ? & ? & ?). by apply Hset.
  - assert (set_hgroup l g c = c) as <- by (destruct c; unfold set_hgroup; simpl in *; by rewrite insert_id).
    apply Hset; try done. unfold add_member in Ha. intros E. by rewrite E, lookup_empty in Ha.
Qed.

Lemma unregister_member_inv c b l g p :
  hinv (mkH c b) → b !! l = None → hheap c !! l = Some g → is_Some (createFuncs g !! p) →
  let c' := unregister_member l p c in hinv (mkH c' (if members_gone l c' then <[l := Leaving]> b else b)).
Proof.
  intros Hi Hb Hl Hp. unfold unregister_member. rewrite Hl. set (g' := mkHTTPGroup _ _ _ _ _ _ _ _). cbv zeta.
  assert (populated g) as Hpop by (intros E; rewrite E, lookup_empty in Hp; by destruct Hp).
  assert (routed (b !! l) g) as Hr by by rewrite Hb. destruct (h_active _ Hi _ _ Hl Hr) as [Hcur _].
  destruct (h_members _ Hi _ _ Hl) as (Hnd & Hiff & Hf).
  assert (members_ok g') as Hm.
  { split_and!; simpl; [by apply remove_one_NoDup| |intros q f [_ ?]%lookup_delete_Some; by eapply Hf].
    intros q. rewrite remove_one_NoDup_iff, Hiff, lookup_delete by done. case_decide; naive_solver. }
  unfold members_gone. simpl. rewrite lookup_insert_eq. case_bool_decide as He; apply (group_changed_inv c b l g g'); try done.
  - intros l1 ?. by rewrite lookup_insert_ne.
  - intros x. rewrite lookup_insert_eq. by intros [= <-].
  - by rewrite lookup_insert_eq, Hb.
  - by rewrite Hb.
  - by rewrite Hb.
Qed.

Lemma register_route_inv c b l p grp key rc res c' :
  hinv (mkH c b) → b !! l = None → direct rc → register_route l grp key rc c = (res, c') →
  hinv (mkH c' (if is_ok res then <[l := Joining p rc]> b else b)).
Proof.
  intros Hi Hb Hd. unfold register_route. destruct (hheap c !! l) as [g|] eqn:Hl; [|by intros [= <- <-]].
  destruct (hisCurrent grp l c) eqn:Hc; [|by intros [= <- <-]]. apply hisCurrent_true in Hc. cbn [negb].
  destruct (decide (createFuncs g = ∅)) as [He|Hne].
  - destruct (Add _ _ _ _ _) as [rs|e] eqn:Hadd; intros [= <- <-]; [|done]. simpl. by apply first_route_inv.
  - case_match; [by intros [= <- <-]|]. case_match; [by intros [= <- <-]|]. intros [= <- <-]. simpl.
    assert (set_hgroup l g c = c) as <- by (destruct c; unfold set_hgroup; simpl in *; by rewrite insert_id).
    apply (group_changed_inv c b l g g); try done.
    + by apply (h_members _ Hi _ _ Hl).
    + intros l1 ?. by rewrite lookup_insert_ne.
    + intros x. rewrite lookup_insert_eq. intros [= <-]. split; [done|]. by apply (h_active _ Hi _ _ Hl); simpl; rewrite Hb.
    + by rewrite lookup_insert_eq, Hb.
Qed.

Lemma hstep_inv s s' : hinv s → hstep s s' → hinv s'.
Proof.
  intros Hi Hs. destruct Hs as [c b key|c b l p grp key rc res c' Hb Hd Hr|c b l p rc Hb|c b l g p Hb Hl Hp|c b l Hb|c b l Hb|c b l g Hl
    |c b d loc u rc rs Hd Ha|c b d loc u Hd].
  - by apply hgetOrCreate_inv.
  - by eapply register_route_inv.
  - by apply register_member_inv.
  - by apply (unregister_member_inv c b l g p).
  - by apply unregister_route_inv.
  - by apply unregister_name_inv.
  - pose proof (h_members _ Hi _ _ Hl) as Hm. apply (group_changed_inv c b l g (bump g)); try done.
    intros x Hx. destruct (h_pending _ Hi _ _ Hx) as (g0 & Hg0 & ? & ?). simpl in Hg0. assert (g0 = g) as -> by congruence. done.
  - by eapply set_routes_add_inv.
  - by apply set_routes_del_inv.
Qed.

Lemma hrun_inv s s' : hinv s → rtc hstep s s' → hinv s'.
Proof. induction 2; [done|]. by eauto using hstep_inv. Qed.

Lemma hstart_inv : hinv hstart.
Proof. split; simpl; try done. apply NewRouters_wf. Qed.

(** Group objects are never dropped. *)
Lemma hstep_heap s s' l : hinv s → hstep s s' → is_Some (hheap (h_ctl s) !! l) → is_Some (hheap (h_ctl s') !! l).
Proof.
  assert (∀ (m : gmap nat HTTPGroup) k g, is_Some (m !! l) → is_Some (<[k := g]> m !! l)) as Hins.
  { intros m k g ?. rewrite lookup_insert. by case_decide. }
  intros Hi Hs Hl. destruct Hs; simpl in *; try done.
  - unfold hgetOrCreate. case_match; simpl; auto.
  - unfold register_route in *. repeat case_match; simplify_eq; simpl; auto.
  - unfold register_member. repeat case_match; simpl; auto.
  - unfold unregister_member. case_match; simpl; auto.
  - unfold unregister_route. case_match; auto.
  - unfold unregister_name, hremoveIf. repeat case_match; simpl; auto.
  - auto.
Qed.

Lemma hrun_heap s s' l : hinv s → rtc hstep s s' → is_Some (hheap (h_ctl s) !! l) → is_Some (hheap (h_ctl s') !! l).
Proof. induction 2; [done|]. eauto using hstep_inv, hstep_heap. Qed.

(** ** Picking a member *)

Lemma pick_in_range i g : pxyNames g ≠ [] → ∃ p, pick i g = Some p ∧ p ∈ pxyNames g.
Proof.
  intros Hne. unfold pick. destruct (pxyNames g) as [|x names] eqn:Hn; [done|].
  rewrite <- Hn. set (k := Z.to_nat _).
  assert (k < length (pxyNames g))%nat as Hi.
  { subst k. rewrite Hn. pose proof (Z.mod_pos_bound i (Z.of_nat (length (x :: names)))).
    simpl length in *. lia. }
  destruct (lookup_lt_is_Some_2 _ _ Hi) as [p Hp]. exists p. rewrite Hp.
  split; [done|]. by eapply list_elem_of_lookup_2.
Qed.

Lemma populated_names g : members_ok g → populated g ↔ pxyNames g ≠ [].
Proof.
  intros (_ & Hiff & _). split.
  - intros Hp Hn. apply Hp, map_empty. intros p. destruct (createFuncs g !! p) eqn:Hf; [|done].
    assert (p ∈ pxyNames g) as Hin by (apply Hiff; by rewrite Hf). rewrite Hn in Hin. by apply not_elem_of_nil in Hin.
  - intros Hn E. destruct (pxyNames g) as [|q names]; [done|].
    destruct (proj1 (Hiff q)) as [? Hq]; [by left|]. by rewrite E, lookup_empty in Hq.
Qed.

(** [createConn] fails exactly when there is no member, and otherwise calls a member's function. *)
Lemma conn_at_spec i g :
  members_ok g →
  (conn_at i g = None ↔ pxyNames g = []) ∧
  ∀ f, conn_at i g = Some f → ∃ p, p ∈ pxyNames g ∧ createFuncs g !! p = Some (Some f).
Proof.
  intros (_ & Hiff & Hf). unfold conn_at. destruct (decide (pxyNames g = [])) as [Hn|Hne].
  - unfold pick. by rewrite Hn.
  - destruct (pick_in_range i g Hne) as (p & -> & Hin). destruct (proj1 (Hiff p) Hin) as [o Ho].
    destruct (Hf _ _ Ho) as [n ->]. rewrite Ho. simpl. split; [done|]. intros f [= <-]. by exists p.
Qed.

Lemma createConnByEndpoint_spec ep g :
  members_ok g → createConnByEndpoint ep g = None ↔ ep ∉ pxyNames g.
Proof.
  intros (_ & Hiff & Hf). unfold createConnByEndpoint. rewrite Hiff. destruct (createFuncs g !! ep) as [o|] eqn:Ho; simpl.
  - destruct (Hf _ _ Ho) as [n ->]. simpl. rewrite is_Some_alt. naive_solver.
  - rewrite is_Some_alt. naive_solver.
Qed.

(** [chooseEndpoint] called [n] times in a row. *)
Fixpoint choose_n (n : nat) (g : HTTPGroup) : list (option string) * HTTPGroup :=
  match n with
  | 0 => ([], g)
  | S n =>
      let '(r, g) := chooseEndpoint g in
      let '(rs, g) := choose_n n g in (r :: rs, g)
  end.

Lemma chooseEndpoint_next g :
  (0 <= index g)%Z → (index g + 1 < 2 ^ 64)%Z → pxyNames g ≠ [] → Forall (λ p, p ≠ "") (pxyNames g) →
  fst (chooseEndpoint g) = pxyNames g !! (Z.to_nat (index g + 1) mod length (pxyNames g))%nat ∧
  pxyNames (snd (chooseEndpoint g)) = pxyNames g ∧ index (snd (chooseEndpoint g)) = (index g + 1)%Z.
Proof.
  intros H0 Hlt Hne Hall. unfold chooseEndpoint. simpl.
  rewrite Z.mod_small by lia. split_and!; try done.
  unfold endpoint_at. destruct (pick_in_range (index (bump g)) (bump g) Hne) as (p & Hpick & Hin). cbn [bump index] in Hpick.
  rewrite (Z.mod_small (index g + 1)) in Hpick by lia. rewrite Hpick.
  change (pxyNames (bump g)) with (pxyNames g) in Hin. rewrite Forall_forall in Hall.
  rewrite (proj2 (seqb_false p "") (Hall p Hin)). rewrite <- Hpick.
  unfold pick, bump. cbn [pxyNames index].
  destruct (pxyNames g) as [|x names] eqn:Hn; [done|]. rewrite <- Hn.
  assert (length (pxyNames g) ≠ 0)%nat by (rewrite Hn; done).
  f_equal. rewrite Z2Nat.inj_mod by lia. by rewrite Nat2Z.id.
Qed.

Lemma choose_n_spec n g :
  (0 <= index g)%Z → (index g + Z.of_nat n < 2 ^ 64)%Z → pxyNames g ≠ [] →
  Forall (λ p, p ≠ "") (pxyNames g) →
  fst (choose_n n g) =
  (λ i, pxyNames g !! ((Z.to_nat (index g) + i) mod length (pxyNames g))%nat) <$> seq 1 n.
Proof.
  revert g. induction n as [|n IH]; intros g H0 Hlt Hne Hall; [done|].
  destruct (chooseEndpoint_next g) as (Hr & Hn & Hi); [lia..|done|done|].
  cbn [choose_n seq]. destruct (chooseEndpoint g) as [r g'] eqn:Hc. simpl in Hr, Hn, Hi.
  specialize (IH g'). rewrite Hn, Hi in IH. specialize (IH ltac:(lia) ltac:(lia) Hne Hall).
  destruct (choose_n n g') as [rs g''] eqn:Hcn. cbn [fst] in *. rewrite fmap_cons. f_equal.
  - rewrite Hr. repeat f_equal. lia.
  - rewrite IH, <- (fmap_S_seq 1 n), <- list_fmap_compose. apply list_fmap_ext.
    intros i j _. simpl. do 2 f_equal. lia.
Qed.

(** Reading a list at consecutive indices modulo its length is a rotation of it. *)
Lemma rotate_picks {A} (names : list A) k :
  names ≠ [] →
  ((λ i, names !! ((k + i) mod length names)%nat) <$> seq 1 (length names)) ≡ₚ Some <$> names.
Proof.
  intros Hne. assert (length names ≠ 0)%nat by (by destruct names).
  assert (((λ i, names !! ((k + i) mod length names)%nat) <$> seq 1 (length names)) =
    Some <$> rotate (S k) names) as ->; cycle 1.
  { apply fmap_Permutation. unfold rotate. rewrite Permutation_app_comm. by rewrite take_drop. }
  eapply (list_eq_same_length _ _ (length names)).
  { by rewrite length_fmap, length_rotate. }
  { by rewrite length_fmap, length_seq. }
  intros i x y Hi. rewrite !list_lookup_fmap, lookup_seq_lt by done. simpl.
  rewrite lookup_rotate_r by done. unfold rotate_nat_add.
  replace (Z.to_nat ((Z.of_nat (S k) + Z.of_nat i) `mod` Z.of_nat (length names))) with ((k + S i) mod length names)%nat.
  { destruct (lookup_lt_is_Some_2 names ((k + S i) mod length names)) as [z Hz].
    { by apply Nat.mod_upper_bound. }
    rewrite Hz. simpl. congruence. }
  rewrite Z2Nat.inj_mod by lia. rewrite Nat2Z.id. f_equal. lia.
Qed.

(** ** Properties *)

(** C26: a request finds its route in one state and calls the functions of that route in a later
    one, whatever proxies register, leave, add and remove routes before, between and after, and
    also while the group's first member is being recorded or its last one is leaving.  The
    route belongs to a proxy, or its functions are those of one group.  When the request gets
    that group's lock, [createConn] fails exactly if the group has no members, and otherwise calls
    the function of a member; [createConnByEndpoint] fails exactly for an endpoint that is not a
    member.  A group with members is the one its name leads to; one without has no route in the
    table any more, so that requests that fail here are those that found the route before it
    was removed. *)
Theorem http_groups_serve s1 s2 host path u r :
  rtc hstep hstart s1 → Get (vhostRouter (h_ctl s1)) host path u = Some r → rtc hstep s1 s2 →
  direct (payload r) ∨
  ∃ l g, CreateConnFn (payload r) = Some (GroupCreateConn l) ∧
    ChooseEndpointFn (payload r) = Some (GroupChooseEndpoint l) ∧
    CreateConnByEndpointFn (payload r) = Some (GroupCreateConnByEndpoint l) ∧
    hheap (h_ctl s2) !! l = Some g ∧
    (h_busy s2 !! l = None →
     (∀ newIndex, (conn_at newIndex g = None ↔ pxyNames g = []) ∧
        ∀ f, conn_at newIndex g = Some f → ∃ p, p ∈ pxyNames g ∧ createFuncs g !! p = Some (Some f)) ∧
     (∀ ep, createConnByEndpoint ep g = None ↔ ep ∉ pxyNames g) ∧
     (pxyNames g ≠ [] → hgroups (h_ctl s2) !! hg_group g = Some l) ∧
     (pxyNames g = [] → ∀ d loc u' rc, route_of (h_ctl s2) d loc u' = Some rc → CreateConnFn rc ≠ Some (GroupCreateConn l))).
Proof.
  intros Hr1 Hg Hr2. pose proof (hrun_inv _ _ hstart_inv Hr1) as Hi1. pose proof (hrun_inv _ _ Hi1 Hr2) as Hi2.
  rewrite Get_at in Hg. apply find_first_elem in Hg as [Hin _]. set (d := ToLower host) in *.
  assert (route_of (h_ctl s1) d (location r) u = Some (payload r)) as Hr.
  { unfold route_of. rewrite (proj2 (find_loc_Some _ _ r (wf_nodup _ _ _ (h_wf _ Hi1 d u)))); done. }
  destruct (h_routes _ Hi1 _ _ _ _ Hr) as [?|(l & g1 & rc0 & Hrc & Hl & _)]; [by left|right].
  destruct (hrun_heap s1 s2 l Hi1 Hr2) as [g Hl2]; [by eexists|]. pose proof (h_members _ Hi2 _ _ Hl2) as Hm.
  exists l, g. rewrite Hrc. split_and!; [done..|]. intros Hb. split_and!.
  - intros i. by apply conn_at_spec.
  - intros ep. by apply createConnByEndpoint_spec.
  - intros Hne. apply (h_active _ Hi2 _ _ Hl2). rewrite Hb. by apply populated_names.
  - intros He d' loc u' rc Hrt Hfn. destruct (h_routes _ Hi2 _ _ _ _ Hrt) as [[n Hn]|(l' & g' & rc' & -> & Hl' & Hp & _)]; [congruence|].
    injection Hfn as ->. assert (g' = g) as -> by congruence. rewrite Hb in Hp. by apply (populated_names _ Hm) in Hp.
Qed.

(** While its lock is free, a group whose route a request finds has a member for it. *)
Corollary found_group_serves s host path u r l i :
  rtc hstep hstart s → Get (vhostRouter (h_ctl s)) host path u = Some r → CreateConnFn (payload r) = Some (GroupCreateConn l) →
  h_busy s !! l = None → ∃ g p f, hheap (h_ctl s) !! l = Some g ∧ p ∈ pxyNames g ∧ conn_at i g = Some f ∧ createFuncs g !! p = Some (Some f).
Proof.
  intros Hr%(hrun_inv _ _ hstart_inv) Hg Hfn Hb. rewrite Get_at in Hg. apply find_first_elem in Hg as [Hin _].
  assert (route_of (h_ctl s) (ToLower host) (location r) u = Some (payload r)) as Hrt.
  { unfold route_of. rewrite (proj2 (find_loc_Some _ _ r (wf_nodup _ _ _ (h_wf _ Hr (ToLower host) u)))); done. }
  destruct (h_routes _ Hr _ _ _ _ Hrt) as [[n Hn]|(l' & g & rc0 & Hrc & Hl & Hp & _)]; [congruence|].
  rewrite Hrc in Hfn. injection Hfn as ->. rewrite Hb in Hp. pose proof (h_members _ Hr _ _ Hl) as Hm.
  apply (populated_names _ Hm) in Hp. destruct (conn_at_spec i g Hm) as [Hn Hs].
  destruct (conn_at i g) as [f|] eqn:Ef; [|by destruct Hp; apply Hn]. destruct (Hs f eq_refl) as (p & ? & ?). by exists g, p, f.
Qed.

(** No route and no name outlives the members: when a member leaves a group of one,
    the group's route is gone from the table and its name from the registry, and a
    table whose groups are all empty and at rest holds routes of proxies only. *)
Theorem http_groups_no_leak s :
  rtc hstep hstart s →
  (∀ l g p, hheap (h_ctl s) !! l = Some g → h_busy s !! l = None → pxyNames g = [p] →
     let c' := group_UnRegister l p (h_ctl s) in
     hgroups c' !! hg_group g = None ∧
     route_of c' (ToLower (hg_domain g)) (hg_location g) (hg_routeByHTTPUser g) = None) ∧
  ((∀ l g, hheap (h_ctl s) !! l = Some g → h_busy s !! l = None ∧ pxyNames g = []) →
     ∀ d loc u rc, route_of (h_ctl s) d loc u = Some rc → direct rc).
Proof.
  intros Hi%(hrun_inv _ _ hstart_inv). split.
  - intros l g p Hl Hb Hn. pose proof (h_members _ Hi _ _ Hl) as Hm. pose proof Hm as (_ & Hiff & _). rewrite Hn in Hiff.
    assert (populated g) as Hpop by (apply populated_names; [done|by rewrite Hn]).
    destruct (h_active _ Hi _ _ Hl) as [Hcur _]; [by rewrite Hb|].
    unfold group_UnRegister, unregister_member. rewrite Hl. unfold members_gone. simpl. rewrite lookup_insert_eq, bool_decide_true; cycle 1.
    { apply map_empty. intros q. simpl. rewrite lookup_delete. case_decide; [done|].
      destruct (createFuncs g !! q) eqn:Hq; [|done].
      assert (q ∈ [p]) by (apply Hiff; by rewrite Hq). set_solver. }
    unfold unregister_name, unregister_route. simpl. rewrite lookup_insert_eq. simpl. rewrite lookup_insert_eq.
    unfold hremoveIf. simpl. rewrite Hcur, decide_True by done. simpl.
    rewrite lookup_delete_eq. split; [done|].
    set (c' := mkController _ _ _ _).
    rewrite (route_of_Del (h_ctl s) c' (hg_domain g) (hg_location g) (hg_routeByHTTPUser g)) by done.
    by rewrite decide_True.
  - intros Hall d loc u rc Hrc.
    destruct (h_routes _ Hi _ _ _ _ Hrc) as [?|(l & g & rc0 & _ & Hl & Hp & _)]; [done|].
    destruct (Hall l g Hl) as [Hb Hn]. rewrite Hb in Hp. by apply (populated_names _ (h_members _ Hi _ _ Hl)) in Hp.
Qed.

(** [chooseEndpoint] is a round robin: as many calls in a row as the group has members
    choose every member exactly once, from any value of the counter that does not
    wrap around meanwhile. *)
Theorem http_group_round_robin g :
  pxyNames g ≠ [] → Forall (λ p, p ≠ "") (pxyNames g) →
  (0 <= index g)%Z → (index g + Z.of_nat (length (pxyNames g)) < 2 ^ 64)%Z →
  fst (choose_n (length (pxyNames g)) g) ≡ₚ Some <$> pxyNames g.
Proof. intros Hne Hall H0 Hlt. rewrite choose_n_spec by done. by apply rotate_picks. Qed.

Definition join_result (g : HTTPGroup) (p key : string) (rc : route) : result HTTPGroupError unit :=
  if decide (hg_domain g = Domain rc ∧ hg_location g = Location rc ∧
             hg_routeByHTTPUser g = RouteByHTTPUser rc) then
    if decide (hg_groupKey g = key) then
      if decide (p ∈ pxyNames g) then Err ErrProxyRepeated else Ok tt
    else Err ErrGroupAuthFailed
  else Err ErrGroupParamsInvalid.

(** Joining a group that has members is decided at once, in the first round of the
    retry loop: a different route, a wrong key and a repeated name are refused with
    their errors and leave the state alone, and otherwise the proxy is appended to the
    members and nothing else of the table changes. *)
Theorem http_group_join s grp l g p key rc n :
  rtc hstep hstart s → h_busy s !! l = None →
  hgroups (h_ctl s) !! grp = Some l → hheap (h_ctl s) !! l = Some g → pxyNames g ≠ [] →
  ∃ c', ctl_Register (S n) p grp key rc (h_ctl s) = Some (join_result g p key rc, c') ∧
    vhostRouter c' = vhostRouter (h_ctl s) ∧
    (if is_ok (join_result g p key rc)
     then ∃ g', hheap c' = <[l := g']> (hheap (h_ctl s)) ∧ pxyNames g' = pxyNames g ++ [p]
     else c' = h_ctl s).
Proof.
  intros Hi%(hrun_inv _ _ hstart_inv) Hb Hk Hl Hne. pose proof (h_members _ Hi _ _ Hl) as Hm. pose proof Hm as (_ & Hiff & _).
  assert (populated g) as Hp by by apply populated_names.
  destruct (h_active _ Hi _ _ Hl) as [Hcur _]; [by rewrite Hb|].
  assert (hg_group g = grp) as Hgrp by (by eapply (h_inj _ Hi)).
  unfold ctl_Register, hgetOrCreate. fold ctl_Register. rewrite Hk. unfold group_Register, register_route.
  rewrite Hl, (proj2 (hisCurrent_true grp l (h_ctl s)) Hk). cbn [negb].
  rewrite decide_False by done. unfold join_result.
  rewrite (proj2 (seqb_true _ _) Hgrp). cbn [negb orb].
  unfold seqb. repeat case_bool_decide; simpl;
    repeat (first [rewrite decide_True by done | rewrite decide_False by naive_solver]);
    try (eexists; split; [reflexivity|done]).
  unfold register_member. rewrite Hl. unfold add_member. destruct (createFuncs g !! p) as [f|] eqn:Hf.
  - rewrite decide_True by (apply Hiff; by rewrite Hf). by eexists.
  - rewrite decide_False by (rewrite Hiff, Hf; by intros [? ?]).
    eexists. split_and!; [done|done|]. simpl. eexists. done.
Qed.

(** ** Witnesses *)

Definition web_route (n : nat) : route :=
  mkRouteConfig "Web.example.com" "/" "" "" "" ∅ ∅ "" (Some (ProxyConn n)) None None.

(** A group with the member web1, then with web2 too. *)
Definition one_member : hstate :=
  mkH (snd (group_Register 0 "web1" "web" "secret" (web_route 1)
    (snd (hgetOrCreate "web" (NewHTTPGroupController NewRouters))))) ∅.
Definition two_members : hstate := mkH (snd (group_Register 0 "web2" "web" "secret" (web_route 2) (h_ctl one_member))) ∅.

(** [Register] is two steps. *)
Lemma group_Register_steps l p grp key rc c c' :
  direct rc → group_Register l p grp key rc c = (Ok tt, c') → rtc hstep (mkH c ∅) (mkH c' ∅).
Proof.
  intros Hd. unfold group_Register. destruct (register_route l grp key rc c) as [[[]|e] c1] eqn:E; [|done]. intros Hm.
  eapply rtc_l; [by apply (hs_enter c ∅ l p grp key rc (Ok tt) c1)|]. simpl. eapply rtc_l; [apply (hs_join _ _ l p rc), lookup_insert_eq|].
  rewrite Hm. simpl. by rewrite delete_insert_id.
Qed.

Lemma one_member_reachable : rtc hstep hstart one_member.
Proof.
  eapply rtc_l; [apply (hs_get _ _ "web")|]. apply (group_Register_steps 0 "web1" "web" "secret" (web_route 1)); [by exists 1%nat|vm_compute; reflexivity].
Qed.

Lemma two_members_reachable : rtc hstep hstart two_members.
Proof.
  etrans; [apply one_member_reachable|]. apply (group_Register_steps 0 "web2" "web" "secret" (web_route 2)); [by exists 2%nat|vm_compute; reflexivity].
Qed.

(** Both members leave again. *)
Definition all_left : hstate := mkH (group_UnRegister 0 "web2" (unregister_member 0 "web1" (h_ctl two_members))) ∅.

Lemma all_left_reachable : rtc hstep two_members all_left.
Proof.
  eapply rtc_l; [eapply (hs_leave _ ∅ 0 _ "web1"); [done|reflexivity|by eexists]|].
  eapply rtc_l; [eapply (hs_leave _ _ 0 _ "web2"); [reflexivity|reflexivity|by eexists]|].
  eapply rtc_l; [apply (hs_route _ _ 0); reflexivity|].
  eapply rtc_l; [apply (hs_name _ _ 0); reflexivity|]. reflexivity.
Qed.

Lemma http_groups_serve_witness :
  ∃ r, Get (vhostRouter (h_ctl two_members)) "web.example.com" "/index" "" = Some r ∧
    ∃ g, hheap (h_ctl all_left) !! 0%nat = Some g ∧ conn_at 7 g = None.
Proof.
  eexists. split; [vm_compute; reflexivity|].
  edestruct (http_groups_serve two_members all_left "web.example.com" "/index" "")
    as [[n Hn]|(l & g & Hc & _ & _ & Hl & H)];
    [apply two_members_reachable|vm_compute; reflexivity|apply all_left_reachable|simpl in Hn; discriminate|].
  simpl in Hc. exists g. assert (l = 0%nat) as -> by congruence. split; [exact Hl|].
  apply (proj1 (H eq_refl)). revert Hl. vm_compute. intros [= <-]. reflexivity.
Defined.

Lemma http_groups_no_leak_witness :
  hgroups (group_UnRegister 0 "web1" (h_ctl one_member)) !! "web" = None.
Proof.
  apply (proj1 (http_groups_no_leak one_member one_member_reachable) 0%nat
    (default NewHTTPGroup (hheap (h_ctl one_member) !! 0%nat)) "web1"); vm_compute; reflexivity.
Defined.

Definition pool : HTTPGroup :=
  mkHTTPGroup "web" "secret" "Web.example.com" "/" ""
    (list_to_map ((λ n, (n, Some (ProxyConn 0))) <$> ["web1"; "web2"; "web3"]))
    ["web1"; "web2"; "web3"] 7.

Lemma http_group_round_robin_witness :
  fst (choose_n 3 pool) ≡ₚ [Some "web1"; Some "web2"; Some "web3"].
Proof. apply (http_group_round_robin pool); [discriminate|decide_vm|simpl; lia|simpl; lia]. Defined.

Definition web_group : HTTPGroup := default NewHTTPGroup (hheap (h_ctl two_members) !! 0%nat).

Lemma two_members_group :
  hgroups (h_ctl two_members) !! "web" = Some 0%nat ∧ hheap (h_ctl two_members) !! 0%nat = Some web_group ∧
  pxyNames web_group ≠ [].
Proof. split_and!; [vm_compute; reflexivity..|vm_compute; discriminate]. Qed.

Lemma http_group_join_witness :
  (∃ c', ctl_Register 1 "web1" "web" "secret" (web_route 3) (h_ctl two_members) = Some (Err ErrProxyRepeated, c')) ∧
  (∃ c', ctl_Register 1 "web3" "web" "guess" (web_route 3) (h_ctl two_members) = Some (Err ErrGroupAuthFailed, c')) ∧
  (∃ c', ctl_Register 1 "web3" "web" "secret" (web_route 3) (h_ctl two_members) = Some (Ok tt, c')).
Proof.
  destruct two_members_group as (Hk & Hl & Hne).
  split_and!.
  - destruct (http_group_join two_members "web" 0 web_group "web1" "secret" (web_route 3) 0
      two_members_reachable eq_refl Hk Hl Hne) as (c' & Hc & _).
    exists c'. rewrite Hc. by do 2 f_equal.
  - destruct (http_group_join two_members "web" 0 web_group "web3" "guess" (web_route 3) 0
      two_members_reachable eq_refl Hk Hl Hne) as (c' & Hc & _).
    exists c'. rewrite Hc. by do 2 f_equal.
  - destruct (http_group_join two_members "web" 0 web_group "web3" "secret" (web_route 3) 0
      two_members_reachable eq_refl Hk Hl Hne) as (c' & Hc & _).
    exists c'. rewrite Hc. by do 2 f_equal.
Defined.
