(* ===== verification/Control.v ===== *)
(** The server's sessions: proxies of a client, [src/server/control.go], the table of
    all proxies, [Manager] of [src/server/proxy/proxy.go], the table of sessions
    [ControlManager], and the registration of sessions in [src/server/service.go].

    A session's messages are handled one after the other by the read loop of its
    dispatcher, and the loop has ended before the session's worker starts to clean up,
    so a session is always in one phase; sessions run concurrently.  Each step of the
    transition system is one critical section, or one call of another component, of
    [RegisterProxy], [CloseProxy] and [worker]. *)
From Stdlib Require Import ZArith Lia.
From stdpp Require Import base gmap strings list fin_maps.
From S2P Require Import Prelude.
Local Open Scope string_scope.
Local Open Scope list_scope.

(** ** The proxy table: [proxy.Manager] *)

(** A proxy object: its identity, name, and the number of ports it counts for. *)
Record Proxy := mkProxy { px_id : nat; px_name : string; usedPortsNum : Z }.

Abbreviation PxyManager := (gmap string nat).   (* pxys: name to object *)

Inductive ctl_error :=
| ErrExceedMaxPorts | ErrProxyExists (name : string) | ErrRun | ErrNameInUse (name : string).

Definition pm_Add (name : string) (id : nat) (pm : PxyManager) : result ctl_error PxyManager :=
  match pm !! name with
  | Some _ => Err (ErrNameInUse name)
  | None => Ok (<[name := id]> pm)
  end.

Definition pm_Exist (name : string) (pm : PxyManager) : bool := bool_decide (is_Some (pm !! name)).

Definition pm_Del (name : string) (pm : PxyManager) : PxyManager := delete name pm.

Definition pm_GetByName (name : string) (pm : PxyManager) : option nat := pm !! name.

(** ** Sessions *)

(** Where a session is: between messages, inside [RegisterProxy], inside [closeProxy]
    (the object is closed first and then taken off the table), inside the clean-up of
    [worker], or done. *)
Inductive phase :=
| Idle
| Reserved (p : Proxy)             (* ports counted *)
| Checked (p : Proxy)              (* the name was not in the table *)
| Ran (p : Proxy)                  (* Run has succeeded *)
| Added (p : Proxy)                (* in the table, not yet in ctl.proxies *)
| Closing (p : Proxy) (closed : bool) (rest : list Proxy) (exiting : bool)
| Done.

Record Control := mkControl {
  proxies : gmap string Proxy;
  portsUsedNum : Z;
  ctl_phase : phase }.

Definition new_control : Control := mkControl ∅ 0 Idle.

Record server := mkServer {
  pxys : PxyManager;
  ctls : gmap nat Control;
  running : gset nat;               (* objects that hold resources: Run, not yet Close *)
  next_px : nat }.

Definition set_ctl (k : nat) (c : Control) (s : server) : server :=
  mkServer (pxys s) (<[k := c]> (ctls s)) (running s) (next_px s).

Section session.
(** [ServerCfg.MaxPortsPerClient]; 0 is no limit. *)
Variable MaxPortsPerClient : Z.

Definition limited : bool := (0 <? MaxPortsPerClient)%Z.

(** The counter after adding and after taking back the ports of a proxy. *)
Definition count (c : Control) (p : Proxy) : Z :=
  if limited then (portsUsedNum c + usedPortsNum p)%Z else portsUsedNum c.
Definition uncount (c : Control) (p : Proxy) : Z :=
  if limited then (portsUsedNum c - usedPortsNum p)%Z else portsUsedNum c.

(** *** The parts of [RegisterProxy] *)

Definition reserve (p : Proxy) (c : Control) : result ctl_error Control :=
  if limited && (MaxPortsPerClient <? portsUsedNum c + usedPortsNum p)%Z
  then Err ErrExceedMaxPorts
  else Ok (mkControl (proxies c) (count c p) (Reserved p)).

(** The deferred decrement. *)
Definition unreserve (p : Proxy) (c : Control) : Control :=
  mkControl (proxies c) (uncount c p) Idle.

Definition goto (ph : phase) (c : Control) : Control := mkControl (proxies c) (portsUsedNum c) ph.

Definition record_pxy (p : Proxy) (c : Control) : Control :=
  mkControl (<[px_name p := p]> (proxies c)) (portsUsedNum c) Idle.

(** [RegisterProxy] run without interruption; [run_ok] is the outcome of [pxy.Run]. *)
Definition RegisterProxy (k : nat) (name : string) (ports : Z) (run_ok : bool) (c : Control)
    (s : server) : result ctl_error Proxy * server :=
  let p := mkProxy (next_px s) name ports in      (* proxy.NewProxy *)
  match reserve p c with
  | Err e => (Err e, s)
  | Ok c =>
      let s := mkServer (pxys s) (ctls s) (running s) (S (next_px s)) in
      if pm_Exist name (pxys s)
      then (Err (ErrProxyExists name), set_ctl k (unreserve p c) s)
      else if negb run_ok then (Err ErrRun, set_ctl k (unreserve p c) s)
      else match pm_Add name (px_id p) (pxys s) with
           | Err e => (Err e, set_ctl k (unreserve p c) s)
           | Ok pm => (Ok p, mkServer pm (<[k := record_pxy p c]> (ctls s))
                               ({[px_id p]} ∪ running s) (next_px s))
           end
  end.

(** *** [closeProxy] and [CloseProxy] *)

(** [pxy.Close()], then [PxyManager.Del(pxy.GetName())]. *)
Definition closeProxy (p : Proxy) (s : server) : server :=
  mkServer (pm_Del (px_name p) (pxys s)) (ctls s) (running s ∖ {[px_id p]}) (next_px s).

Definition take_off (name : string) (p : Proxy) (c : Control) : Control :=
  mkControl (delete name (proxies c)) (uncount c p) (ctl_phase c).

Definition CloseProxy (k : nat) (name : string) (c : Control) (s : server) : server :=
  match proxies c !! name with
  | None => s
  | Some p => closeProxy p (set_ctl k (take_off name p c) s)
  end.

(** *** The clean-up of [worker]: [proxies] is emptied, then every proxy is closed. *)
Definition start_exit (c : Control) : Control :=
  match map_to_list (proxies c) with
  | [] => mkControl ∅ (portsUsedNum c) Done
  | (_, p) :: rest => mkControl ∅ (portsUsedNum c) (Closing p false (snd <$> rest) true)
  end.

Definition worker_exit (k : nat) (c : Control) (s : server) : server :=
  foldl (λ s p, closeProxy p s) (set_ctl k (mkControl ∅ (portsUsedNum c) Done) s)
    (snd <$> map_to_list (proxies c)).

(** After one proxy is off the table: the next one, or the end. *)
Definition after_close (rest : list Proxy) (exiting : bool) : phase :=
  match rest with
  | p :: rest => Closing p false rest exiting
  | [] => if exiting then Done else Idle
  end.

(** *** Steps of concurrent sessions *)

Inductive cstep : server → server → Prop :=
| cs_login s k : ctls s !! k = None → cstep s (set_ctl k new_control s)
| cs_reserve s k c c' name ports :     (* NewProxy builds a new object *)
    ctls s !! k = Some c → ctl_phase c = Idle → (0 <= ports)%Z →
    reserve (mkProxy (next_px s) name ports) c = Ok c' →
    cstep s (mkServer (pxys s) (<[k := c']> (ctls s)) (running s) (S (next_px s)))
| cs_exist s k c p :
    ctls s !! k = Some c → ctl_phase c = Reserved p →
    cstep s (set_ctl k (if pm_Exist (px_name p) (pxys s) then unreserve p c else goto (Checked p) c) s)
| cs_run_err s k c p :
    ctls s !! k = Some c → ctl_phase c = Checked p → cstep s (set_ctl k (unreserve p c) s)
| cs_run_ok s k c p :
    ctls s !! k = Some c → ctl_phase c = Checked p →
    cstep s (mkServer (pxys s) (<[k := goto (Ran p) c]> (ctls s)) ({[px_id p]} ∪ running s) (next_px s))
| cs_add_ok s k c p pm :
    ctls s !! k = Some c → ctl_phase c = Ran p → pm_Add (px_name p) (px_id p) (pxys s) = Ok pm →
    cstep s (mkServer pm (<[k := goto (Added p) c]> (ctls s)) (running s) (next_px s))
| cs_add_err s k c p e :
    ctls s !! k = Some c → ctl_phase c = Ran p → pm_Add (px_name p) (px_id p) (pxys s) = Err e →
    cstep s (mkServer (pxys s) (<[k := unreserve p c]> (ctls s)) (running s ∖ {[px_id p]}) (next_px s))
| cs_record s k c p :
    ctls s !! k = Some c → ctl_phase c = Added p → cstep s (set_ctl k (record_pxy p c) s)
| cs_close s k c name p :              (* the message CloseProxy *)
    ctls s !! k = Some c → ctl_phase c = Idle → proxies c !! name = Some p →
    cstep s (set_ctl k (goto (Closing p false [] false) (take_off name p c)) s)
| cs_exit s k c :                      (* the connection is gone *)
    ctls s !! k = Some c → ctl_phase c = Idle → cstep s (set_ctl k (start_exit c) s)
| cs_px_close s k c p rest ex :
    ctls s !! k = Some c → ctl_phase c = Closing p false rest ex →
    cstep s (mkServer (pxys s) (<[k := goto (Closing p true rest ex) c]> (ctls s))
               (running s ∖ {[px_id p]}) (next_px s))
| cs_px_del s k c p rest ex :
    ctls s !! k = Some c → ctl_phase c = Closing p true rest ex →
    cstep s (mkServer (pm_Del (px_name p) (pxys s)) (<[k := goto (after_close rest ex) c]> (ctls s))
               (running s) (next_px s)).

Definition no_sessions : server := mkServer ∅ ∅ ∅ 0.

(** ** The invariant

    Every session owns proxy objects: those in [proxies] and those of its phase.  Some
    of them hold resources, some are in the table.  Summed over the sessions, the
    objects are distinct, those that run are exactly [running], and those in the table
    are exactly the table. *)

Definition vals (m : gmap string Proxy) : list Proxy := snd <$> map_to_list m.

Definition phase_objs (ph : phase) : list Proxy :=
  match ph with
  | Idle | Done => []
  | Reserved p | Checked p | Ran p | Added p => [p]
  | Closing p _ rest _ => p :: rest
  end.

Definition phase_runs (ph : phase) : list Proxy :=
  match ph with
  | Ran p | Added p => [p]
  | Closing p false rest _ => p :: rest
  | Closing p true rest _ => rest
  | _ => []
  end.

Definition phase_tabl (ph : phase) : list Proxy :=
  match ph with
  | Added p => [p]
  | Closing p _ rest _ => p :: rest
  | _ => []
  end.

Definition phase_counted (ph : phase) : list Proxy :=
  match ph with Reserved p | Checked p | Ran p | Added p => [p] | _ => [] end.

Definition exiting (ph : phase) : bool :=
  match ph with Done => true | Closing _ _ _ ex => ex | _ => false end.

Definition objs (c : Control) : list Proxy := vals (proxies c) ++ phase_objs (ctl_phase c).
Definition runs (c : Control) : list Proxy := vals (proxies c) ++ phase_runs (ctl_phase c).
Definition tabl (c : Control) : list Proxy := vals (proxies c) ++ phase_tabl (ctl_phase c).
Definition counted (c : Control) : list Proxy := vals (proxies c) ++ phase_counted (ctl_phase c).

Definition tot (f : Control → list Proxy) (m : gmap nat Control) : list Proxy :=
  map_to_list m ≫= (λ kc, f (snd kc)).

Definition ports_sum (l : list Proxy) : Z := foldr (λ p n, (usedPortsNum p + n)%Z) 0%Z l.

Record ctl_wf (c : Control) : Prop := {
  c_keyed : ∀ n p, proxies c !! n = Some p → px_name p = n;
  c_nonneg : ∀ p, p ∈ objs c → (0 <= usedPortsNum p)%Z;
  (* inside CloseProxy one object, while exiting no other proxy is left *)
  c_closing : ∀ p b rest ex, ctl_phase c = Closing p b rest ex →
    (ex = false → rest = []) ∧ (ex = true → proxies c = ∅);
  c_done : ctl_phase c = Done → proxies c = ∅;
  c_ports : limited = true → exiting (ctl_phase c) = false →
    portsUsedNum c = ports_sum (counted c) ∧ (portsUsedNum c <= MaxPortsPerClient)%Z }.

Record sinv (s : server) : Prop := {
  s_ctl : ∀ k c, ctls s !! k = Some c → ctl_wf c;
  s_fresh : ∀ p, p ∈ tot objs (ctls s) → (px_id p < next_px s)%nat;
  s_ids : NoDup (px_id <$> tot objs (ctls s));
  s_running : elements (running s) ≡ₚ px_id <$> tot runs (ctls s);
  s_table : map_to_list (pxys s) ≡ₚ (λ p, (px_name p, px_id p)) <$> tot tabl (ctls s) }.

(** *** Sums over the sessions *)

Lemma vals_insert m n p : m !! n = None → vals (<[n := p]> m) ≡ₚ p :: vals m.
Proof. intros Hn. unfold vals. by rewrite map_to_list_insert. Qed.

Lemma vals_delete m n p : m !! n = Some p → vals m ≡ₚ p :: vals (delete n m).
Proof. intros Hn. unfold vals. by rewrite <- (map_to_list_delete m n p). Qed.

Lemma elem_of_vals m p : p ∈ vals m ↔ ∃ n, m !! n = Some p.
Proof.
  unfold vals. rewrite list_elem_of_fmap. split.
  - intros ([n q] & -> & Hq%elem_of_map_to_list). by exists n.
  - intros [n Hn]. exists (n, p). by rewrite elem_of_map_to_list.
Qed.

Lemma tot_insert f m k c : tot f (<[k := c]> m) ≡ₚ f c ++ tot f (delete k m).
Proof.
  unfold tot. rewrite <- insert_delete_eq. rewrite map_to_list_insert by apply lookup_delete_eq.
  done.
Qed.

Lemma tot_split f m k c : m !! k = Some c → tot f m ≡ₚ f c ++ tot f (delete k m).
Proof. intros Hk. unfold tot. by rewrite <- (map_to_list_delete m k c). Qed.

Lemma elem_of_tot f m p : p ∈ tot f m ↔ ∃ k c, m !! k = Some c ∧ p ∈ f c.
Proof.
  unfold tot. rewrite list_elem_of_bind. split.
  - intros ([k c] & Hp & Hk%elem_of_map_to_list). eauto.
  - intros (k & c & Hk & Hp). exists (k, c). by rewrite elem_of_map_to_list.
Qed.

Lemma runs_objs c p : p ∈ runs c → p ∈ objs c.
Proof.
  unfold runs, objs. rewrite !elem_of_app. intros [?|Hp]; [auto|right].
  destruct (ctl_phase c) as [| | | | |q [] rest ex|]; simpl in *; rewrite ?elem_of_cons in *; auto.
Qed.

Lemma tabl_objs c p : p ∈ tabl c → p ∈ objs c.
Proof.
  unfold tabl, objs. rewrite !elem_of_app. intros [?|Hp]; [auto|right].
  destruct (ctl_phase c); simpl in *; auto; by apply not_elem_of_nil in Hp.
Qed.

Lemma ports_sum_perm l l' : l ≡ₚ l' → ports_sum l = ports_sum l'.
Proof. induction 1; simpl; lia. Qed.

Lemma ports_sum_app l l' : ports_sum (l ++ l') = (ports_sum l + ports_sum l')%Z.
Proof. induction l; simpl; lia. Qed.

(** The objects that run are among the owned ones, so an object outside them does not
    run. *)
Lemma tot_runs_objs m p : p ∈ tot runs m → p ∈ tot objs m.
Proof. rewrite !elem_of_tot. intros (k & c & ? & ?%runs_objs). eauto. Qed.

(** *** Preservation, one session at a time

    The step changes session [k] from [c] to [c']; [dobjs], [druns] and [dtabl] say how
    its lists change. *)

(** The same objects, or one object [p] fewer. *)
Local Abbreviation same l l' := (l ≡ₚ l').
Local Abbreviation less p l l' := (l ≡ₚ p :: l').

Lemma tot_same f m k c c' : m !! k = Some c → same (f c) (f c') → tot f (<[k := c']> m) ≡ₚ tot f m.
Proof. intros Hk Hs. rewrite tot_insert, (tot_split f m k c Hk). by rewrite <- Hs. Qed.

Lemma tot_less f m k c c' p :
  m !! k = Some c → less p (f c) (f c') → tot f m ≡ₚ p :: tot f (<[k := c']> m).
Proof. intros Hk Hl. rewrite tot_insert, (tot_split f m k c Hk), Hl. done. Qed.

Lemma tot_more f m k c c' p :
  m !! k = Some c → less p (f c') (f c) → tot f (<[k := c']> m) ≡ₚ p :: tot f m.
Proof. intros Hk Hl. rewrite tot_insert, (tot_split f m k c Hk), Hl. done. Qed.

Lemma elements_remove (X : gset nat) x l :
  elements X ≡ₚ x :: l → elements (X ∖ {[x]}) ≡ₚ l.
Proof.
  intros Hp. assert (x ∈ X) as Hx by (apply elem_of_elements; rewrite Hp; set_solver).
  apply (Permutation_cons_inv (a := x)). rewrite <- Hp.
  rewrite <- (elements_union_singleton (X ∖ {[x]}) x) by set_solver.
  by rewrite <- union_difference_singleton_L.
Qed.

Lemma table_remove (m : PxyManager) n id l :
  map_to_list m ≡ₚ (n, id) :: l → map_to_list (delete n m) ≡ₚ l.
Proof.
  intros Hp. assert (m !! n = Some id) as Hn by (apply elem_of_map_to_list; rewrite Hp; set_solver).
  apply (Permutation_cons_inv (a := (n, id))). by rewrite <- Hp, map_to_list_delete.
Qed.

Section steps.
Context (s : server) (k : nat) (c c' : Control).
Context (Hi : sinv s) (Hk : ctls s !! k = Some c) (Hc' : ctl_wf c').

Lemma upd_ctl k0 c0 : <[k := c']> (ctls s) !! k0 = Some c0 → ctl_wf c0.
Proof using All. rewrite lookup_insert. case_decide; [by intros; simplify_eq|apply (s_ctl _ Hi)]. Qed.

(** Nothing changes but the phase. *)
Lemma upd_same_inv :
  same (objs c) (objs c') → same (runs c) (runs c') → same (tabl c) (tabl c') →
  sinv (set_ctl k c' s).
Proof using All.
  intros Ho Hr Ht. split; simpl; [apply upd_ctl|intros q| | |];
    rewrite (tot_same _ _ _ _ _ Hk) by done; apply Hi.
Qed.

(** A new object. *)
Lemma upd_new_inv p :
  px_id p = next_px s →
  less p (objs c') (objs c) → same (runs c) (runs c') → same (tabl c) (tabl c') →
  sinv (mkServer (pxys s) (<[k := c']> (ctls s)) (running s) (S (next_px s))).
Proof using All.
  intros Hp Ho Hr Ht. split; simpl; [apply upd_ctl| | | |].
  - intros q. rewrite (tot_more _ _ _ _ _ _ Hk Ho), elem_of_cons.
    intros [->|Hq]; [lia|]. apply (s_fresh _ Hi) in Hq. lia.
  - rewrite (tot_more _ _ _ _ _ _ Hk Ho). simpl. constructor; [|apply Hi].
    rewrite list_elem_of_fmap. intros (q & Hq & Hin%(s_fresh _ Hi)). lia.
  - rewrite (tot_same _ _ _ _ _ Hk) by done. apply Hi.
  - rewrite (tot_same _ _ _ _ _ Hk) by done. apply Hi.
Qed.

(** An object is dropped that neither runs nor is in the table. *)
Lemma upd_drop_inv p :
  less p (objs c) (objs c') → same (runs c) (runs c') → same (tabl c) (tabl c') →
  sinv (set_ctl k c' s).
Proof using All.
  intros Ho Hr Ht. pose proof (tot_less _ _ _ _ _ _ Hk Ho) as Hto.
  pose proof (s_ids _ Hi) as Hids. rewrite Hto in Hids. simpl in Hids.
  split; simpl; [apply upd_ctl| | | |].
  - intros q Hq. apply (s_fresh _ Hi). rewrite Hto. set_solver.
  - by apply NoDup_cons in Hids as [_ ?].
  - rewrite (tot_same _ _ _ _ _ Hk) by done. apply Hi.
  - rewrite (tot_same _ _ _ _ _ Hk) by done. apply Hi.
Qed.

(** [Run] succeeds: the object [p], owned and not running, runs now. *)
Lemma upd_run_inv p others :
  objs c ≡ₚ p :: others → (∀ q, q ∈ runs c → q ∈ others) →
  same (objs c) (objs c') → less p (runs c') (runs c) → same (tabl c) (tabl c') →
  sinv (mkServer (pxys s) (<[k := c']> (ctls s)) ({[px_id p]} ∪ running s) (next_px s)).
Proof using All.
  intros Hp Hsub Ho Hr Ht. split; simpl; [apply upd_ctl|intros q| | |].
  - rewrite (tot_same _ _ _ _ _ Hk) by done. apply Hi.
  - rewrite (tot_same _ _ _ _ _ Hk) by done. apply Hi.
  - rewrite (tot_more _ _ _ _ _ _ Hk Hr). simpl. rewrite <- (s_running _ Hi).
    apply elements_union_singleton. intros Hin%elem_of_elements.
    rewrite (s_running _ Hi), (tot_split runs _ _ _ Hk), list_elem_of_fmap in Hin.
    destruct Hin as (q & Hq & Hin). pose proof (s_ids _ Hi) as Hids.
    rewrite (tot_split objs _ _ _ Hk), Hp in Hids. simpl in Hids.
    apply NoDup_cons in Hids as [Hni _]. apply Hni. rewrite Hq. apply list_elem_of_fmap_2.
    rewrite elem_of_app in *. destruct Hin as [?|?%tot_runs_objs]; auto.
  - rewrite (tot_same _ _ _ _ _ Hk) by done. apply Hi.
Qed.

(** An object stops running; it is dropped ([drop]) or stays owned. *)
Lemma upd_stop_inv p (drop : bool) :
  (if drop then less p (objs c) (objs c') else same (objs c) (objs c')) →
  less p (runs c) (runs c') → same (tabl c) (tabl c') →
  sinv (mkServer (pxys s) (<[k := c']> (ctls s)) (running s ∖ {[px_id p]}) (next_px s)).
Proof using All.
  intros Ho Hr Ht.
  split; simpl; [apply upd_ctl| | | |].
  - intros q Hq. apply (s_fresh _ Hi). destruct drop.
    + rewrite (tot_less _ _ _ _ _ _ Hk Ho). set_solver.
    + by rewrite (tot_same _ _ _ _ _ Hk) in Hq.
  - destruct drop.
    + pose proof (s_ids _ Hi) as Hids. rewrite (tot_less _ _ _ _ _ _ Hk Ho) in Hids.
      simpl in Hids. by apply NoDup_cons in Hids as [_ ?].
    + rewrite (tot_same _ _ _ _ _ Hk) by done. apply Hi.
  - apply elements_remove. rewrite (s_running _ Hi), (tot_less _ _ _ _ _ _ Hk Hr). done.
  - rewrite (tot_same _ _ _ _ _ Hk) by done. apply Hi.
Qed.

(** The name of an object enters the table. *)
Lemma upd_add_inv p pm :
  pm_Add (px_name p) (px_id p) (pxys s) = Ok pm →
  same (objs c) (objs c') → same (runs c) (runs c') → less p (tabl c') (tabl c) →
  sinv (mkServer pm (<[k := c']> (ctls s)) (running s) (next_px s)).
Proof using All.
  unfold pm_Add. destruct (pxys s !! px_name p) eqn:Hn; [done|]. intros [= <-] Ho Hr Ht.
  split; simpl; [apply upd_ctl|intros q| | |]; try (rewrite (tot_same _ _ _ _ _ Hk) by done; apply Hi).
  rewrite (tot_more _ _ _ _ _ _ Hk Ht). simpl. rewrite <- (s_table _ Hi).
  by apply map_to_list_insert.
Qed.

(** The name of an object leaves the table and the object with it. *)
Lemma upd_del_inv p :
  less p (objs c) (objs c') → same (runs c) (runs c') → less p (tabl c) (tabl c') →
  sinv (mkServer (pm_Del (px_name p) (pxys s)) (<[k := c']> (ctls s)) (running s) (next_px s)).
Proof using All.
  intros Ho Hr Ht. pose proof (tot_less _ _ _ _ _ _ Hk Ho) as Hto.
  pose proof (s_ids _ Hi) as Hids. rewrite Hto in Hids. simpl in Hids.
  split; simpl; [apply upd_ctl| | | |].
  - intros q Hq. apply (s_fresh _ Hi). rewrite Hto. set_solver.
  - by apply NoDup_cons in Hids as [_ ?].
  - rewrite (tot_same _ _ _ _ _ Hk) by done. apply Hi.
  - apply (table_remove _ _ (px_id p)). rewrite (s_table _ Hi), (tot_less _ _ _ _ _ _ Hk Ht). done.
Qed.
End steps.

(** *** Well-formed sessions under the parts of the operations *)

Lemma new_control_wf : ctl_wf new_control.
Proof.
  split; simpl; try done.
  - intros p Hp. by apply not_elem_of_nil in Hp.
  - intros Hl _. unfold limited in Hl. reflect_bools. split; [done|]. lia.
Qed.

Lemma counted_objs c p : p ∈ counted c → p ∈ objs c.
Proof.
  unfold counted, objs. rewrite !elem_of_app. intros [?|Hp]; [auto|right].
  destruct (ctl_phase c); simpl in *; auto; by apply not_elem_of_nil in Hp.
Qed.

Lemma ports_sum_nonneg c : ctl_wf c → (0 <= ports_sum (counted c))%Z.
Proof.
  intros Hc. assert (∀ p, p ∈ counted c → (0 <= usedPortsNum p)%Z) as Hall.
  { intros p ?%counted_objs. by apply (c_nonneg _ Hc). }
  revert Hall. generalize (counted c). induction l as [|q l IH]; simpl; [lia|].
  intros Hall. pose proof (Hall q ltac:(set_solver)). assert (0 <= ports_sum l)%Z; [|lia].
  apply IH. intros; apply Hall; set_solver.
Qed.

Lemma reserve_wf p c c' :
  ctl_wf c → ctl_phase c = Idle → (0 <= usedPortsNum p)%Z → reserve p c = Ok c' → ctl_wf c'.
Proof.
  intros Hc Hph Hp. unfold reserve. destruct (limited && _) eqn:Hl; [done|]. intros [= <-].
  split; simpl; try done.
  - apply Hc.
  - intros q. unfold objs. simpl. rewrite elem_of_app, list_elem_of_singleton.
    intros [Hq| ->]; [|done]. apply (c_nonneg _ Hc). unfold objs. set_solver.
  - intros Hlim _. rewrite Hlim in Hl. simpl in Hl. reflect_bools.
    destruct (c_ports _ Hc Hlim) as [Hs Hm]; [by rewrite Hph|].
    unfold count. rewrite Hlim. split; [|lia]. rewrite Hs. unfold counted. simpl. rewrite Hph.
    rewrite !ports_sum_app. simpl. lia.
Qed.

Lemma unreserve_wf p c :
  ctl_wf c → ctl_phase c = Reserved p ∨ ctl_phase c = Checked p ∨ ctl_phase c = Ran p →
  ctl_wf (unreserve p c).
Proof.
  intros Hc Hph. assert (phase_objs (ctl_phase c) = [p] ∧ phase_counted (ctl_phase c) = [p] ∧
    exiting (ctl_phase c) = false) as (Ho & Hcn & Hex) by (destruct Hph as [->|[->| ->]]; done).
  assert (p ∈ objs c) as Hp by (unfold objs; rewrite Ho; set_solver).
  split; simpl; try done.
  - apply Hc.
  - intros q Hq. apply (c_nonneg _ Hc). unfold objs in *. simpl in Hq. set_solver.
  - intros Hlim _. destruct (c_ports _ Hc Hlim Hex) as [Hs Hm].
    pose proof (c_nonneg _ Hc p Hp). unfold uncount. rewrite Hlim, Hs in *.
    unfold counted in *. simpl. rewrite Hcn, !ports_sum_app in *. simpl in *. lia.
Qed.

(** From one phase of [RegisterProxy] to the next. *)
Lemma goto_wf ph c :
  ctl_wf c → phase_objs ph = phase_objs (ctl_phase c) → phase_counted ph = phase_counted (ctl_phase c) →
  exiting ph = exiting (ctl_phase c) → ph ≠ Done → (∀ p b rest ex, ph ≠ Closing p b rest ex) →
  ctl_wf (goto ph c).
Proof.
  intros Hc Ho Hcn Hex Hnd Hncl. split; simpl.
  - apply Hc.
  - intros q. unfold objs. simpl. rewrite Ho. apply (c_nonneg _ Hc).
  - intros p b rest ex ->. by destruct (Hncl p b rest ex).
  - done.
  - intros Hl. rewrite Hex. intros He. destruct (c_ports _ Hc Hl He). unfold counted. simpl.
    by rewrite Hcn.
Qed.

Lemma record_pxy_wf p c :
  ctl_wf c → ctl_phase c = Added p → proxies c !! px_name p = None → ctl_wf (record_pxy p c).
Proof.
  intros Hc Hph Hn. split; simpl; try done.
  - intros n q. rewrite lookup_insert. case_decide; [by intros; simplify_eq|apply Hc].
  - intros q. unfold objs. simpl. rewrite app_nil_r, vals_insert by done. intros Hq.
    apply (c_nonneg _ Hc). unfold objs. rewrite Hph. simpl. set_solver.
  - intros Hl _. destruct (c_ports _ Hc Hl) as [Hs Hm]; [by rewrite Hph|]. split; [|done].
    rewrite Hs. apply ports_sum_perm. unfold counted. simpl.
    rewrite Hph, app_nil_r, vals_insert by done. simpl. by rewrite <- Permutation_cons_append.
Qed.

Lemma take_off_wf name p c :
  ctl_wf c → ctl_phase c = Idle → proxies c !! name = Some p →
  ctl_wf (goto (Closing p false [] false) (take_off name p c)).
Proof.
  intros Hc Hph Hn. pose proof (vals_delete _ _ _ Hn) as Hv. split; simpl; try done.
  - intros n q [_ Hq]%lookup_delete_Some. by apply Hc.
  - intros q Hq. apply (c_nonneg _ Hc). unfold objs in *. rewrite Hph, Hv. simpl in *. set_solver.
  - intros; by simplify_eq.
  - intros Hl _. destruct (c_ports _ Hc Hl) as [Hs Hm]; [by rewrite Hph|].
    assert (0 <= usedPortsNum p)%Z.
    { apply (c_nonneg _ Hc). unfold objs. rewrite Hv. set_solver. }
    unfold uncount. rewrite Hl. unfold counted in *. simpl. rewrite Hph in Hs. simpl in Hs.
    rewrite app_nil_r in *. rewrite Hs, (ports_sum_perm _ _ Hv) in *. simpl in *. lia.
Qed.

Lemma start_exit_wf c : ctl_wf c → ctl_phase c = Idle → ctl_wf (start_exit c).
Proof.
  intros Hc Hph. unfold start_exit. destruct (map_to_list (proxies c)) as [|[n p] rest] eqn:Hm.
  - split; simpl; try done. intros q Hq. by apply not_elem_of_nil in Hq.
  - split; simpl; try done; [|by intros; simplify_eq].
    intros q Hq. apply (c_nonneg _ Hc). unfold objs in *. simpl in Hq. unfold vals in *. rewrite Hm. set_solver.
Qed.

Lemma px_close_wf c p rest ex :
  ctl_wf c → ctl_phase c = Closing p false rest ex → ctl_wf (goto (Closing p true rest ex) c).
Proof.
  intros Hc Hph. pose proof (c_closing _ Hc _ _ _ _ Hph) as Hcl. split; simpl; try done.
  - apply Hc.
  - intros q. pose proof (c_nonneg _ Hc q) as H. unfold objs in *. rewrite Hph in H. done.
  - intros; by simplify_eq.
  - intros Hl Hex. pose proof (c_ports _ Hc Hl) as H. unfold counted in *. rewrite Hph in H. auto.
Qed.

Lemma px_del_wf c p rest ex :
  ctl_wf c → ctl_phase c = Closing p true rest ex → ctl_wf (goto (after_close rest ex) c).
Proof.
  intros Hc Hph. destruct (c_closing _ Hc _ _ _ _ Hph) as [Hcl1 Hcl2].
  pose proof (c_nonneg _ Hc) as Hnn. unfold objs in Hnn. rewrite Hph in Hnn. simpl in Hnn.
  pose proof (c_ports _ Hc) as Hports. unfold counted in Hports. rewrite Hph in Hports. simpl in Hports.
  split; simpl.
  - apply Hc.
  - intros q Hq. apply Hnn. unfold objs in Hq. simpl in Hq.
    destruct rest; [destruct ex|]; simpl in *; set_solver.
  - intros p' b rest' ex' He. destruct rest as [|q rest]; [by destruct ex|]. simpl in He. simplify_eq.
    split; [intros E; by specialize (Hcl1 E)|done].
  - intros He. destruct rest; [|done]. destruct ex; [auto|done].
  - intros Hl He. unfold counted. simpl. destruct rest as [|q rest].
    + destruct ex; [done|]. by apply Hports.
    + simpl in *. by apply Hports.
Qed.

(** A session between [Add] and recording has no other proxy of that name: both would
    be in the table. *)
Lemma added_name_free s k c p :
  sinv s → ctls s !! k = Some c → ctl_phase c = Added p → proxies c !! px_name p = None.
Proof.
  intros Hi Hk Hph. destruct (proxies c !! px_name p) as [q|] eqn:Hq; [|done]. exfalso.
  pose proof (c_keyed _ (s_ctl _ Hi _ _ Hk) _ _ Hq) as Hname.
  pose proof (NoDup_fst_map_to_list (pxys s)) as Hnd.
  rewrite (s_table _ Hi), (tot_split tabl _ _ _ Hk) in Hnd. unfold tabl in Hnd at 1.
  rewrite Hph, (vals_delete _ _ _ Hq) in Hnd. simpl in Hnd.
  apply NoDup_cons in Hnd as [Hni _]. apply Hni. rewrite Hname.
  rewrite !fmap_app, !elem_of_app. simpl. set_solver.
Qed.

Ltac lists Hph :=
  unfold objs, runs, tabl; simpl; rewrite ?Hph; simpl; rewrite ?app_nil_r;
  rewrite ?(Permutation_app_comm (vals _)); simpl; try done.

Lemma start_exit_lists c :
  ctl_phase c = Idle →
  objs c ≡ₚ objs (start_exit c) ∧ runs c ≡ₚ runs (start_exit c) ∧ tabl c ≡ₚ tabl (start_exit c).
Proof.
  intros Hph. unfold start_exit, objs, runs, tabl, vals. rewrite Hph.
  destruct (map_to_list (proxies c)) as [|[n p] rest]; simpl; rewrite ?app_nil_r; done.
Qed.

Lemma login_inv s k : sinv s → ctls s !! k = None → sinv (set_ctl k new_control s).
Proof.
  intros Hi Hk.
  assert (∀ f, f new_control = [] → tot f (<[k := new_control]> (ctls s)) ≡ₚ tot f (ctls s)) as Ht.
  { intros f Hf. by rewrite tot_insert, Hf, delete_id. }
  split; simpl; [|intros q| | |]; try (rewrite Ht by done; apply Hi).
  intros k0 c0. rewrite lookup_insert. case_decide; [|apply Hi].
  intros; simplify_eq. apply new_control_wf.
Qed.

Lemma cstep_inv s s' : sinv s → cstep s s' → sinv s'.
Proof.
  intros Hi Hstep. destruct Hstep as
    [s k Hk|s k c c' name ports Hk Hph Hp Hr|s k c p Hk Hph|s k c p Hk Hph|s k c p Hk Hph
    |s k c p pm Hk Hph Ha|s k c p e Hk Hph Ha|s k c p Hk Hph|s k c name p Hk Hph Hn|s k c Hk Hph
    |s k c p rest ex Hk Hph|s k c p rest ex Hk Hph];
    [by apply login_inv|pose proof (s_ctl _ Hi _ _ Hk) as Hc ..].
  - pose proof (reserve_wf (mkProxy (next_px s) name ports) _ _ Hc Hph Hp Hr) as Hc'. unfold reserve in Hr.
    destruct (limited && _); simplify_eq.
    apply (upd_new_inv _ _ _ _ Hi Hk Hc' (mkProxy (next_px s) name ports)); lists Hph.
  - destruct (pm_Exist _ _).
    + apply (upd_drop_inv _ _ _ _ Hi Hk (unreserve_wf p c Hc ltac:(auto)) p); lists Hph.
    + apply (upd_same_inv _ _ _ _ Hi Hk); [apply goto_wf; rewrite ?Hph; done|lists Hph..].
  - apply (upd_drop_inv _ _ _ _ Hi Hk (unreserve_wf p c Hc ltac:(auto)) p); lists Hph.
  - assert (ctl_wf (goto (Ran p) c)) as Hc' by (apply goto_wf; rewrite ?Hph; done).
    apply (upd_run_inv _ _ _ _ Hi Hk Hc' p (vals (proxies c))); [|intros q|..]; lists Hph.
  - assert (ctl_wf (goto (Added p) c)) as Hc' by (apply goto_wf; rewrite ?Hph; done).
    apply (upd_add_inv _ _ _ _ Hi Hk Hc' p); [done|lists Hph..].
  - apply (upd_stop_inv _ _ _ _ Hi Hk (unreserve_wf p c Hc ltac:(auto)) p true); lists Hph.
  - pose proof (added_name_free _ _ _ _ Hi Hk Hph) as Hfree.
    apply (upd_same_inv _ _ _ _ Hi Hk (record_pxy_wf _ _ Hc Hph Hfree));
      unfold objs, runs, tabl; simpl; rewrite Hph, app_nil_r, vals_insert by done;
      simpl; by rewrite <- Permutation_cons_append.
  - pose proof (vals_delete _ _ _ Hn) as Hv.
    apply (upd_same_inv _ _ _ _ Hi Hk (take_off_wf _ _ _ Hc Hph Hn));
      unfold objs, runs, tabl; simpl; rewrite Hph, app_nil_r, Hv;
      simpl; by rewrite <- Permutation_cons_append.
  - destruct (start_exit_lists c Hph) as (? & ? & ?).
    by apply (upd_same_inv _ _ _ _ Hi Hk (start_exit_wf _ Hc Hph)).
  - apply (upd_stop_inv _ _ _ _ Hi Hk (px_close_wf _ _ _ _ Hc Hph) p false); lists Hph.
  - apply (upd_del_inv _ _ _ _ Hi Hk (px_del_wf _ _ _ _ Hc Hph) p);
      destruct rest; [destruct ex| |destruct ex| |destruct ex|]; lists Hph.
Qed.

Lemma no_sessions_inv : sinv no_sessions.
Proof. split; simpl; try done. intros p Hp. by apply not_elem_of_nil in Hp. constructor. Qed.

Lemma crun_inv s : rtc cstep no_sessions s → sinv s.
Proof.
  apply (rtc_ind_r sinv); [apply no_sessions_inv|]. intros x y _ Hxy Hx. by eapply cstep_inv.
Qed.

(** *** The operations as runs of steps *)

Lemma set_ctl_twice k c c' s : set_ctl k c' (set_ctl k c s) = set_ctl k c' s.
Proof. unfold set_ctl. simpl. by rewrite insert_insert_eq. Qed.

Lemma unreserve_reserve p c c' :
  ctl_phase c = Idle → reserve p c = Ok c' → unreserve p c' = c.
Proof.
  intros Hph. unfold reserve. destruct (limited && _); [done|]. intros [= <-].
  destruct c as [ps n ph]. simpl in *. subst ph. unfold unreserve, uncount, count. simpl.
  destruct limited; f_equal; lia.
Qed.

Lemma reserve_spec p c :
  match reserve p c with
  | Ok c1 => c1 = mkControl (proxies c) (count c p) (Reserved p) ∧
      (limited = true → (portsUsedNum c + usedPortsNum p <= MaxPortsPerClient)%Z)
  | Err _ => limited = true ∧ (MaxPortsPerClient < portsUsedNum c + usedPortsNum p)%Z
  end.
Proof.
  unfold reserve. destruct limited; simpl; [|done].
  destruct (Z.ltb_spec MaxPortsPerClient (portsUsedNum c + usedPortsNum p)); [done|]. by split.
Qed.

(** What an uninterrupted [RegisterProxy] answers and leaves behind, on every branch: an
    error leaves tables, resources and the port count as they were. *)
Lemma RegisterProxy_spec k name ports run_ok c s r s' :
  ctls s !! k = Some c → ctl_phase c = Idle →
  RegisterProxy k name ports run_ok c s = (r, s') →
  (is_ok r = true ↔
     (limited = true → (portsUsedNum c + ports <= MaxPortsPerClient)%Z) ∧
     pxys s !! name = None ∧ run_ok = true) ∧
  match r with
  | Err _ => pxys s' = pxys s ∧ running s' = running s ∧ ctls s' = ctls s
  | Ok p => p = mkProxy (next_px s) name ports ∧ pxys s' = <[name := px_id p]> (pxys s) ∧
      running s' = {[px_id p]} ∪ running s ∧
      ctls s' = <[k := mkControl (<[name := p]> (proxies c)) (count c p) Idle]> (ctls s)
  end.
Proof.
  intros Hk Hph. unfold RegisterProxy. set (p := mkProxy (next_px s) name ports).
  pose proof (reserve_spec p c) as Hres. pose proof (unreserve_reserve p c) as Hback.
  destruct (reserve p c) as [c1|e]; cycle 1.
  { intros [= <- <-]. simpl in *. split; [|done]. split; [done|]. intros [Hl _].
    specialize (Hl (proj1 Hres)). lia. }
  rewrite (Hback c1 Hph eq_refl). destruct Hres as [-> Hlim]. unfold pm_Exist, pm_Add. simpl in *.
  assert (<[k := c]> (ctls s) = ctls s) as Hsame by (by apply insert_id).
  destruct (pxys s !! name) as [id|] eqn:Hn.
  { rewrite bool_decide_eq_true_2 by done. intros [= <- <-]. simpl. rewrite Hsame. naive_solver. }
  rewrite bool_decide_eq_false_2 by (by intros [? ?]).
  destruct run_ok; intros [= <- <-]; simpl; [by split_and!|rewrite Hsame; naive_solver].
Qed.

(** A [RegisterProxy] that runs without interruption is a sequence of steps. *)
Lemma RegisterProxy_trace k name ports run_ok c s :
  ctls s !! k = Some c → ctl_phase c = Idle → (0 <= ports)%Z →
  rtc cstep s (snd (RegisterProxy k name ports run_ok c s)).
Proof.
  intros Hk Hph Hp. unfold RegisterProxy. set (p := mkProxy (next_px s) name ports).
  destruct (reserve p c) as [c1|e] eqn:Hr; [|apply rtc_refl].
  set (s1 := mkServer (pxys s) (<[k := c1]> (ctls s)) (running s) (S (next_px s))).
  assert (cstep s s1) as H1 by (by apply (cs_reserve s k c c1 name ports)).
  assert (ctls s1 !! k = Some c1) as Hk1 by apply lookup_insert_eq.
  assert (ctl_phase c1 = Reserved p) as Hph1.
  { pose proof (reserve_spec p c) as Hs. rewrite Hr in Hs. by destruct Hs as [-> _]. }
  assert (∀ c', set_ctl k c' (mkServer (pxys s) (ctls s) (running s) (S (next_px s))) = set_ctl k c' s1) as Es.
  { intros c'. unfold set_ctl, s1. simpl. by rewrite insert_insert_eq. }
  pose proof (cs_exist s1 k c1 p Hk1 Hph1) as H2. cbn [px_name p pxys s1] in H2 |- *.
  eapply rtc_l; [exact H1|]. destruct (pm_Exist name (pxys s)) eqn:Hex.
  { cbn [snd]. rewrite Es. by apply rtc_once. }
  eapply rtc_l; [exact H2|]. set (s2 := set_ctl k (goto (Checked p) c1) s1).
  assert (ctls s2 !! k = Some (goto (Checked p) c1)) as Hk2 by apply lookup_insert_eq.
  destruct run_ok; cbn [negb]; cycle 1.
  { cbn [snd]. rewrite Es, <- (set_ctl_twice k (goto (Checked p) c1)).
    apply rtc_once, (cs_run_err s2 k _ p Hk2 eq_refl). }
  assert (pm_Add name (px_id p) (pxys s) = Ok (<[name := px_id p]> (pxys s))) as Hadd.
  { unfold pm_Exist in Hex. apply bool_decide_eq_false in Hex. unfold pm_Add.
    destruct (pxys s !! name); [|done]. by destruct Hex. }
  rewrite Hadd. eapply rtc_l; [apply (cs_run_ok s2 k _ p Hk2 eq_refl)|].
  eapply rtc_l; [eapply (cs_add_ok _ k _ p); [apply lookup_insert_eq|done|exact Hadd]|].
  eapply rtc_l; [eapply (cs_record _ k _ p); [apply lookup_insert_eq|done]|].
  unfold set_ctl, s2, set_ctl, s1. simpl. rewrite !insert_insert_eq. apply rtc_refl.
Qed.

(** Closing one object takes two steps: its own [Close], then the table. *)
Lemma closing_steps k c p rest ex s :
  ctls s !! k = Some c → ctl_phase c = Closing p false rest ex →
  rtc cstep s (closeProxy p (set_ctl k (goto (after_close rest ex) c) s)).
Proof.
  intros Hk Hph. pose proof (cs_px_close s k c p rest ex Hk Hph) as H1.
  set (s1 := mkServer _ _ _ _) in H1.
  assert (ctls s1 !! k = Some (goto (Closing p true rest ex) c)) as Hk1 by apply lookup_insert_eq.
  pose proof (cs_px_del s1 k _ p rest ex Hk1 eq_refl) as H2.
  eapply rtc_l; [done|]. apply rtc_once.
  replace (closeProxy p _) with
    (mkServer (pm_Del (px_name p) (pxys s1))
       (<[k := goto (after_close rest ex) (goto (Closing p true rest ex) c)]> (ctls s1))
       (running s1) (next_px s1)); [done|].
  unfold s1, closeProxy. simpl. by rewrite insert_insert_eq.
Qed.

Lemma CloseProxy_steps k name c s :
  ctls s !! k = Some c → ctl_phase c = Idle → rtc cstep s (CloseProxy k name c s).
Proof.
  intros Hk Hph. unfold CloseProxy. destruct (proxies c !! name) as [p|] eqn:Hn; [|apply rtc_refl].
  eapply rtc_l; [by apply (cs_close s k c name p)|].
  set (c1 := goto (Closing p false [] false) (take_off name p c)).
  assert (ctls (set_ctl k c1 s) !! k = Some c1) as Hk1 by apply lookup_insert_eq.
  pose proof (closing_steps k c1 p [] false _ Hk1 eq_refl) as H. rewrite set_ctl_twice in H.
  replace (goto (after_close [] false) c1) with (take_off name p c) in H; [done|].
  unfold c1, goto, take_off. simpl. by rewrite Hph.
Qed.

(** Draining the list of an exiting session. *)
Lemma drain_steps k c p rest s :
  ctls s !! k = Some c → ctl_phase c = Closing p false rest true →
  rtc cstep s (foldl (λ s q, closeProxy q s) (set_ctl k (goto Done c) s) (p :: rest)).
Proof.
  revert p c s. induction rest as [|q rest IH]; intros p c s Hk Hph.
  - by apply (closing_steps k c p [] true).
  - etrans; [by apply (closing_steps k c p (q :: rest) true)|].
    set (c1 := goto (Closing q false rest true) c). cbn [foldl after_close].
    set (s1 := closeProxy p (set_ctl k c1 s)).
    assert (ctls s1 !! k = Some c1) as Hk1 by apply lookup_insert_eq.
    pose proof (IH q c1 s1 Hk1 eq_refl) as H. cbn [foldl] in H.
    replace (closeProxy p (set_ctl k (goto Done c) s)) with (set_ctl k (goto Done c1) s1); [done|].
    unfold s1, c1, set_ctl, closeProxy. simpl. by rewrite insert_insert_eq.
Qed.

Lemma worker_exit_steps k c s :
  ctls s !! k = Some c → ctl_phase c = Idle → rtc cstep s (worker_exit k c s).
Proof.
  intros Hk Hph. pose proof (cs_exit s k c Hk Hph) as H1. unfold worker_exit, start_exit in *.
  destruct (map_to_list (proxies c)) as [|[n p] rest]; [by apply rtc_once|].
  set (c1 := mkControl _ _ (Closing _ _ _ _)) in H1. eapply rtc_l; [exact H1|].
  assert (ctls (set_ctl k c1 s) !! k = Some c1) as Hk1 by apply lookup_insert_eq.
  pose proof (drain_steps k c1 p (snd <$> rest) _ Hk1 eq_refl) as H.
  rewrite set_ctl_twice in H. exact H.
Qed.

Lemma foldl_closeProxy_ctls l s : ctls (foldl (λ s p, closeProxy p s) s l) = ctls s.
Proof. revert s. induction l as [|p l IH]; intros s; [done|]. simpl. by rewrite IH. Qed.

Lemma tot_empty f m : (∀ k c, m !! k = Some c → f c = []) → tot f m = [].
Proof.
  intros Hall. destruct (tot f m) as [|p l] eqn:E; [done|].
  assert (p ∈ tot f m) as (k & c & Hk & Hp)%elem_of_tot by (rewrite E; set_solver).
  rewrite (Hall _ _ Hk) in Hp. by apply not_elem_of_nil in Hp.
Qed.

(** ** Properties *)

(** C6: with a limit on the ports per client, in every interleaving of sessions each
    session's counter is exactly the number of ports of its proxies and of the one being
    registered, and it never exceeds the limit; no failure path leaks or loses a port. *)
Theorem ports_limit_respected s k c :
  rtc cstep no_sessions s → ctls s !! k = Some c →
  (0 < MaxPortsPerClient)%Z → exiting (ctl_phase c) = false →
  portsUsedNum c = ports_sum (counted c) ∧ (0 <= portsUsedNum c <= MaxPortsPerClient)%Z.
Proof.
  intros Hi%crun_inv Hk Hmax Hex. pose proof (s_ctl _ Hi _ _ Hk) as Hc.
  destruct (c_ports _ Hc) as [Hs Hle]; [unfold limited; by reflect_bools|done|].
  pose proof (ports_sum_nonneg _ Hc). lia.
Qed.

(** C5: in every interleaving of sessions the table of proxies lists exactly the proxies
    that sessions own, a name belongs to one proxy of one session, every proxy of the
    table that is not being closed holds its resources, and when all sessions are done
    the table is empty and nothing holds resources. *)
Theorem proxy_table_exact s :
  rtc cstep no_sessions s →
  (∀ n id, pm_GetByName n (pxys s) = Some id ↔
     ∃ k c p, ctls s !! k = Some c ∧ p ∈ tabl c ∧ px_name p = n ∧ px_id p = id) ∧
  (∀ k1 k2 c1 c2 p1 p2, ctls s !! k1 = Some c1 → ctls s !! k2 = Some c2 →
     p1 ∈ tabl c1 → p2 ∈ tabl c2 → px_name p1 = px_name p2 → px_id p1 = px_id p2) ∧
  (∀ k c n p, ctls s !! k = Some c → proxies c !! n = Some p →
     px_id p ∈ running s ∧ pm_GetByName n (pxys s) = Some (px_id p)) ∧
  ((∀ k c, ctls s !! k = Some c → ctl_phase c = Done) → pxys s = ∅ ∧ running s = ∅).
Proof.
  intros Hi%crun_inv. unfold pm_GetByName.
  assert (∀ n id, pxys s !! n = Some id ↔
     ∃ k c p, ctls s !! k = Some c ∧ p ∈ tabl c ∧ px_name p = n ∧ px_id p = id) as Htab.
  { intros n id. rewrite <- elem_of_map_to_list, (s_table _ Hi), list_elem_of_fmap.
    setoid_rewrite elem_of_tot. naive_solver. }
  split_and!; [done| | |].
  - intros k1 k2 c1 c2 p1 p2 Hk1 Hk2 Hp1 Hp2 Hn.
    assert (pxys s !! px_name p1 = Some (px_id p1)) by (apply Htab; eauto 10).
    assert (pxys s !! px_name p1 = Some (px_id p2)) by (apply Htab; eauto 10). congruence.
  - intros k c n p Hk Hp. assert (p ∈ vals (proxies c)) by (apply elem_of_vals; eauto). split.
    + apply elem_of_elements. rewrite (s_running _ Hi). apply list_elem_of_fmap_2, elem_of_tot.
      exists k, c. unfold runs. set_solver.
    + apply Htab. exists k, c, p. pose proof (c_keyed _ (s_ctl _ Hi _ _ Hk) _ _ Hp).
      unfold tabl. set_solver.
  - intros Hdone. assert (∀ f, (∀ c, ctl_phase c = Done → proxies c = ∅ → f c = []) →
      tot f (ctls s) = []) as Ht.
    { intros f Hf. apply tot_empty. intros k c Hk. pose proof (Hdone _ _ Hk) as Hd.
      apply Hf; [done|]. by apply (c_done _ (s_ctl _ Hi _ _ Hk)). }
    pose proof (s_table _ Hi) as Htb. pose proof (s_running _ Hi) as Hrun.
    rewrite Ht in Htb, Hrun by (intros c Hd Hp; unfold tabl, runs; rewrite Hd, Hp; done).
    simpl in *. apply Permutation_nil_r in Htb, Hrun.
    split; [by apply map_to_list_empty_iff|]. apply leibniz_equiv. by apply elements_empty_iff.
Qed.

(** C7: when a client's connection is gone, the clean-up ends: whatever the other
    sessions do first, the session can finish its clean-up alone, and afterwards it is
    done and none of its proxies is in the table or holds resources. *)
Theorem worker_exit_releases s k c :
  rtc cstep no_sessions s → ctls s !! k = Some c → ctl_phase c = Idle →
  let s' := worker_exit k c s in
  rtc cstep s s' ∧ ctls s' !! k = Some (mkControl ∅ (portsUsedNum c) Done) ∧
  ∀ n p, proxies c !! n = Some p → pxys s' !! n = None ∧ px_id p ∉ running s'.
Proof.
  intros Hrun Hk Hph. pose proof (worker_exit_steps k c s Hk Hph) as Hsteps.
  pose proof (crun_inv _ Hrun) as Hi.
  split_and!; [done|unfold worker_exit; rewrite foldl_closeProxy_ctls; apply lookup_insert_eq|].
  intros n p Hp. pose proof (c_keyed _ (s_ctl _ Hi _ _ Hk) _ _ Hp) as Hname.
  assert (p ∈ snd <$> map_to_list (proxies c)) as Hin by (apply elem_of_vals; eauto).
  clear Hsteps. unfold worker_exit. revert Hin.
  generalize (set_ctl k (mkControl ∅ (portsUsedNum c) Done) s).
  generalize (snd <$> map_to_list (proxies c)). intros l. subst n. clear.
  induction l as [|q l IH]; intros s; [set_solver|]. simpl. intros [<-|Hp]%elem_of_cons; [|by apply IH].
  assert (∀ l s, pxys s !! px_name p = None → px_id p ∉ running s →
    pxys (foldl (λ s p, closeProxy p s) s l) !! px_name p = None ∧
    px_id p ∉ running (foldl (λ s p, closeProxy p s) s l)) as Hkeep.
  { clear. induction l as [|q l IH]; intros s Hn Hr; [done|]. simpl. apply IH; simpl.
    - unfold pm_Del. rewrite lookup_delete. by case_decide.
    - set_solver. }
  apply Hkeep; simpl; [apply lookup_delete_eq|set_solver].
Qed.

End session.

(** ** Witnesses: a limit of two ports, one session with one TCP proxy *)

Definition s_login : server := set_ctl 0 new_control no_sessions.
Definition s_web : server := snd (RegisterProxy 2 0 "web" 1 true new_control s_login).
Definition c_web : Control := mkControl {["web" := mkProxy 0 "web" 1]} 1 Idle.

Lemma s_web_reachable : rtc (cstep 2) no_sessions s_web.
Proof.
  eapply rtc_l; [by apply (cs_login 2 no_sessions 0)|].
  by apply (RegisterProxy_trace 2 0 "web" 1 true new_control s_login).
Qed.

Lemma s_web_session : ctls s_web !! 0%nat = Some c_web.
Proof. by vm_compute. Qed.

Lemma ports_limit_respected_witness : (0 <= portsUsedNum c_web <= 2)%Z.
Proof.
  apply (ports_limit_respected 2 s_web 0 c_web s_web_reachable s_web_session); [lia|reflexivity].
Defined.

Lemma proxy_table_exact_witness : pm_GetByName "web" (pxys s_web) = Some 0%nat ∧ 0%nat ∈ running s_web.
Proof.
  destruct (proxy_table_exact 2 s_web s_web_reachable) as (_ & _ & H & _).
  destruct (H 0%nat c_web "web" (mkProxy 0 "web" 1) s_web_session ltac:(by vm_compute)). by split.
Defined.

Lemma RegisterProxy_spec_witness :
  fst (RegisterProxy 2 0 "db" 2 true c_web s_web) = Err ErrExceedMaxPorts ∧
  ctls (snd (RegisterProxy 2 0 "db" 2 true c_web s_web)) = ctls s_web ∧
  is_ok (fst (RegisterProxy 2 0 "db" 1 true c_web s_web)) = true.
Proof.
  split; [by vm_compute|]. split.
  - destruct (RegisterProxy 2 0 "db" 2 true c_web s_web) as [r s'] eqn:E.
    destruct (RegisterProxy_spec 2 0 "db" 2 true c_web s_web r s' s_web_session eq_refl E) as [_ H].
    destruct r; [by vm_compute in E|]. by destruct H as (_ & _ & ?).
  - destruct (RegisterProxy 2 0 "db" 1 true c_web s_web) as [r s'] eqn:E.
    apply (RegisterProxy_spec 2 0 "db" 1 true c_web s_web r s' s_web_session eq_refl E).
    split_and!; [simpl; lia|by vm_compute|done].
Defined.

Lemma worker_exit_releases_witness :
  pxys (worker_exit 0 c_web s_web) !! "web" = None ∧ 0%nat ∉ running (worker_exit 0 c_web s_web).
Proof.
  destruct (worker_exit_releases 2 s_web 0 c_web s_web_reachable s_web_session eq_refl) as (_ & _ & H).
  by apply (H "web" (mkProxy 0 "web" 1)).
Defined.
