(* ===== verification/Service.v ===== *)
(** Sessions of the server: the table [ControlManager] of [src/server/control.go] and
    [Service.RegisterControl] of [src/server/service.go], with the client registry.

    A login replaces the session that has the same run ID and waits for it to end
    before it registers its client; logins and endings of all sessions interleave. *)
From Stdlib Require Import ZArith Lia.
From stdpp Require Import base gmap strings list.
From S2P Require Import Prelude Registry.
Local Open Scope string_scope.
Local Open Scope list_scope.

(** ** Data *)

Inductive sess_phase :=
| Waiting (old : option nat)   (* in RegisterControl, until the old session has ended *)
| Started
| Refused                      (* the client ID is online elsewhere *)
| Ended.                       (* doneCh is closed *)

Record Session := mkSession {
  login_RunID : string;        (* LoginMsg.RunID *)
  sn_runID : string;           (* ctl.runID, emptied by Replaced *)
  conn_open : bool;
  sn_phase : sess_phase }.

Record Service := mkService {
  ctlsByRunID : gmap string nat;
  sessions : gmap nat Session;
  clientRegistry : ClientRegistry;
  sn_next : nat }.

Definition new_service : Service := mkService ∅ ∅ NewClientRegistry 0.

(** ** Operations *)

(** [Control.Replaced] and [Control.Close]. *)
Definition Replaced (x : Session) : Session := mkSession (login_RunID x) "" false (sn_phase x).
Definition ctl_Close (x : Session) : Session :=
  mkSession (login_RunID x) (sn_runID x) false (sn_phase x).

Definition set_phase (ph : sess_phase) (x : Session) : Session :=
  mkSession (login_RunID x) (sn_runID x) (conn_open x) ph.

(** [ControlManager.Add]: the old session, replaced, and the new table. *)
Definition cm_Add (runID : string) (k : nat) (s : Service) : option nat * Service :=
  let old := ctlsByRunID s !! runID in
  (old, mkService (<[runID := k]> (ctlsByRunID s))
          (match old with Some o => alter Replaced o (sessions s) | None => sessions s end)
          (clientRegistry s) (sn_next s)).

Definition cm_Del (runID : string) (k : nat) (s : Service) : Service :=
  match ctlsByRunID s !! runID with
  | Some k' =>
      if decide (k' = k)
      then mkService (delete runID (ctlsByRunID s)) (sessions s) (clientRegistry s) (sn_next s)
      else s
  | None => s
  end.

Definition cm_GetByID (runID : string) (s : Service) : option nat := ctlsByRunID s !! runID.

Definition cm_Close (s : Service) : Service :=
  mkService ∅
    (foldr (λ k ss, alter ctl_Close k ss) (sessions s) (snd <$> map_to_list (ctlsByRunID s)))
    (clientRegistry s) (sn_next s).

Definition upd_session (k : nat) (x : Session) (s : Service) : Service :=
  mkService (ctlsByRunID s) (<[k := x]> (sessions s)) (clientRegistry s) (sn_next s).

(** The first half of [RegisterControl], after authentication: the new control enters
    the table; the second half waits for the old one. *)
Definition login (runID : string) (s : Service) : nat * Service :=
  let k := sn_next s in
  let '(old, s) := cm_Add runID k s in
  (k, mkService (ctlsByRunID s) (<[k := mkSession runID runID true (Waiting old)]> (sessions s))
        (clientRegistry s) (S k)).

(** [oldCtl.WaitClosed()] returns. *)
Definition old_ended (old : option nat) (s : Service) : bool :=
  match old with
  | None => true
  | Some o => match sessions s !! o with
              | Some x => match sn_phase x with Ended => true | _ => false end
              | None => false
              end
  end.

(** The second half: register the client, refuse a conflict, or start. *)
Definition finish_login (now : time) (user clientID host ver addr : string) (k : nat) (x : Session)
    (s : Service) : bool * Service :=
  let '((_, conflict), cr) := Register now user clientID (login_RunID x) host ver addr (clientRegistry s) in
  let s := mkService (ctlsByRunID s) (sessions s) cr (sn_next s) in
  if conflict
  then (false, upd_session k (set_phase Refused (ctl_Close x)) (cm_Del (login_RunID x) k s))
  else (true, upd_session k (set_phase Started x) s).

(** The end of [worker]: [MarkOfflineByRunID(ctl.runID)], then [close(ctl.doneCh)]. *)
Definition worker_done (now : time) (k : nat) (x : Session) (s : Service) : Service :=
  let cr := MarkOfflineByRunID now (sn_runID x) (clientRegistry s) in
  upd_session k (set_phase Ended (ctl_Close x)) (mkService (ctlsByRunID s) (sessions s) cr (sn_next s)).

(** Logins and endings of all sessions interleave; [may] tells which user and client ID may log in with a run ID. *)
Inductive lstep (may : string → string → string → Prop) : Service → Service → Prop :=
| ls_login s runID : runID ≠ "" → lstep may s (snd (login runID s))
| ls_finish s k x old now user clientID host ver addr :
    sessions s !! k = Some x → sn_phase x = Waiting old → old_ended old s = true →
    may (login_RunID x) user clientID →
    lstep may s (snd (finish_login now user clientID host ver addr k x s))
| ls_end s k x now :
    sessions s !! k = Some x → sn_phase x = Started → lstep may s (worker_done now k x s)
| ls_del s k x :                 (* the goroutine RegisterControl leaves behind *)
    sessions s !! k = Some x → sn_phase x = Ended → lstep may s (cm_Del (login_RunID x) k s).

Definition alive (x : Session) : Prop :=
  match sn_phase x with Waiting _ | Started => True | _ => False end.

Record linv (s : Service) : Prop := {
  l_fresh : ∀ k, (sn_next s <= k)%nat → sessions s !! k = None;
  l_run : ∀ k x, sessions s !! k = Some x →
    login_RunID x ≠ "" ∧ (sn_runID x = login_RunID x ∨ sn_runID x = "");
  (* the table leads to a session of that run that was not replaced *)
  l_table : ∀ r k, ctlsByRunID s !! r = Some k → ∃ x, sessions s !! k = Some x ∧
    login_RunID x = r ∧ sn_runID x = r;
  (* a session that is not in the table was replaced *)
  l_alive : ∀ k x, sessions s !! k = Some x → alive x →
    ∃ m, ctlsByRunID s !! login_RunID x = Some m ∧ (k <= m)%nat ∧ (m ≠ k → sn_runID x = "");
  (* newer logins of a run wait while an older session lives *)
  l_order : ∀ k k' x x', sessions s !! k = Some x → sessions s !! k' = Some x' →
    login_RunID x = login_RunID x' → (k < k')%nat → alive x →
    ∃ o, sn_phase x' = Waiting (Some o) ∧ (k <= o)%nat ∧ (o < k')%nat ∧
      ∃ y, sessions s !! o = Some y ∧ login_RunID y = login_RunID x }.

(** *** What registering and ending do to the clients *)

Lemma Register_clients now u raw r h v a cr key i :
  r ≠ "" → clients (snd (Register now u raw r h v a cr)) !! key = Some i →
  (key = composeClientKey u (effective_id raw r) ∧ RunID i = r) ∨ clients cr !! key = Some i.
Proof.
  intros Hr. unfold Register. rewrite (proj2 (seqb_false r "") Hr). case_match; [by right|].
  simpl. rewrite lookup_insert. case_decide; [|by right]. intros [= <-]. by left.
Qed.

Lemma Register_refused now u raw r h v a cr :
  r ≠ "" → snd (fst (Register now u raw r h v a cr)) = true →
  snd (Register now u raw r h v a cr) = cr ∧
  ∃ i, clients cr !! composeClientKey u (effective_id raw r) = Some i ∧ RunID i ≠ r.
Proof.
  intros Hr. unfold Register. rewrite (proj2 (seqb_false r "") Hr).
  destruct (clients cr !! _) as [i|] eqn:Hi; [|done]. cbn zeta.
  destruct (_ && negb (RunID i =s? r)) eqn:Hc; [|done]. intros _. split; [done|].
  exists i. reflect_bools. naive_solver.
Qed.

Lemma Offline_clients now r cr key i :
  wf cr → indexed cr → clients (MarkOfflineByRunID now r cr) !! key = Some i → RunID i ≠ "" →
  clients cr !! key = Some i ∧ RunID i ≠ r.
Proof.
  intros Hwf Hind. unfold MarkOfflineByRunID. destruct (runIndex cr !! r) as [k|] eqn:Hr.
  - destruct (wf_index _ Hwf _ _ Hr) as (Hne & j & Hj & Hjr). rewrite Hj, Hjr, seqb_refl. simpl.
    assert (∀ key i, clients cr !! key = Some i → RunID i ≠ "" → key ≠ k → RunID i ≠ r) as Hother.
    { intros key' i' Hi' Hne' Hk' Heq. pose proof (Hind _ _ Hi' Hne'). congruence. }
    case_match.
    + rewrite lookup_delete_Some. naive_solver.
    + rewrite lookup_insert. case_decide; [|naive_solver]. intros [= <-]. done.
  - intros Hi Hne. split; [done|]. intros <-. pose proof (Hind _ _ Hi Hne). congruence.
Qed.

(** *** Preservation *)

Lemma new_service_inv : linv new_service.
Proof. by split. Qed.

Lemma alter_Replaced (ss : gmap nat Session) (old : option nat) k x :
  (match old with Some o => alter Replaced o ss | None => ss end) !! k = Some x →
  ∃ y, ss !! k = Some y ∧ login_RunID x = login_RunID y ∧ sn_phase x = sn_phase y ∧
    (x = Replaced y ∧ old = Some k ∨ x = y ∧ old ≠ Some k).
Proof.
  destruct old as [o|]; [|naive_solver].
  rewrite lookup_alter. case_decide as Ho; [subst|naive_solver].
  intros (y & Hy & ->)%fmap_Some. exists y. naive_solver.
Qed.

Lemma alter_Replaced_2 (ss : gmap nat Session) (old : option nat) k y :
  ss !! k = Some y →
  ∃ x, (match old with Some o => alter Replaced o ss | None => ss end) !! k = Some x ∧
    login_RunID x = login_RunID y ∧ sn_phase x = sn_phase y ∧ (old ≠ Some k → x = y).
Proof.
  intros Hy. destruct old as [o|]; [|naive_solver].
  rewrite lookup_alter. case_decide; [|naive_solver]. subst. rewrite Hy. naive_solver.
Qed.

Lemma alive_phase x y : sn_phase x = sn_phase y → alive x → alive y.
Proof. intros Hp. unfold alive. by rewrite Hp. Qed.

(** The sessions after a login: the new one, and the older ones, of which the one it
    replaced has lost its run ID. *)
Lemma login_case r s k x :
  linv s → sessions (snd (login r s)) !! k = Some x →
  (k = sn_next s ∧ x = mkSession r r true (Waiting (ctlsByRunID s !! r))) ∨ (k < sn_next s)%nat ∧
  ∃ y, sessions s !! k = Some y ∧ login_RunID x = login_RunID y ∧ sn_phase x = sn_phase y ∧
    (x = Replaced y ∧ ctlsByRunID s !! r = Some k ∨ x = y ∧ ctlsByRunID s !! r ≠ Some k).
Proof.
  intros Hi. unfold login, cm_Add. simpl. rewrite lookup_insert. case_decide; [naive_solver|].
  intros (y & Hy & ?)%alter_Replaced. right. split; [|eauto].
  destruct (decide (sn_next s <= k)%nat) as [Hle|]; [|lia]. rewrite (l_fresh _ Hi k Hle) in Hy. done.
Qed.

Lemma login_back r s k y :
  linv s → sessions s !! k = Some y → (k < sn_next s)%nat ∧
  ∃ x, sessions (snd (login r s)) !! k = Some x ∧
    login_RunID x = login_RunID y ∧ sn_phase x = sn_phase y ∧ (ctlsByRunID s !! r ≠ Some k → x = y).
Proof.
  intros Hi Hy. assert (k < sn_next s)%nat as Hlt.
  { destruct (decide (sn_next s <= k)%nat) as [Hle|]; [|lia]. rewrite (l_fresh _ Hi k Hle) in Hy. done. }
  split; [done|]. unfold login, cm_Add. simpl. rewrite lookup_insert_ne by lia. by apply alter_Replaced_2.
Qed.

Lemma login_self r s :
  ctlsByRunID (snd (login r s)) !! r = Some (sn_next s) ∧
  sessions (snd (login r s)) !! sn_next s = Some (mkSession r r true (Waiting (ctlsByRunID s !! r))).
Proof. unfold login, cm_Add. simpl. by rewrite !lookup_insert_eq. Qed.

Lemma login_table_ne r s r' : r' ≠ r → ctlsByRunID (snd (login r s)) !! r' = ctlsByRunID s !! r'.
Proof. intros Hne. unfold login, cm_Add. simpl. by rewrite lookup_insert_ne. Qed.

Lemma login_keeps_table r s r' k :
  linv s → ctlsByRunID (snd (login r s)) !! r' = Some k →
  ∃ x, sessions (snd (login r s)) !! k = Some x ∧ login_RunID x = r' ∧ sn_runID x = r'.
Proof.
  intros Hi. destruct (login_self r s) as [Ht Hs]. destruct (decide (r' = r)) as [->|Hne].
  { rewrite Ht. intros [= <-]. by eexists. }
  rewrite login_table_ne by done. intros Hk. destruct (l_table _ Hi _ _ Hk) as (y & Hy & Hy1 & Hy2).
  destruct (login_back r s k y Hi Hy) as (_ & x & Hx & _ & _ & Hx3). exists x. split; [done|].
  rewrite Hx3; [done|]. intros Ho. destruct (l_table _ Hi _ _ Ho) as (y' & Hy' & ? & _). simplify_eq.
Qed.

Lemma login_keeps_alive r s k x :
  linv s → sessions (snd (login r s)) !! k = Some x → alive x →
  ∃ m, ctlsByRunID (snd (login r s)) !! login_RunID x = Some m ∧ (k <= m)%nat ∧
    (m ≠ k → sn_runID x = "").
Proof.
  intros Hi Hx Ha. destruct (login_self r s) as [Ht _].
  destruct (login_case r s k x Hi Hx) as [[-> ->]|(Hlt & y & Hy & Hrun & Hph & Hxy)].
  { exists (sn_next s). by split_and!. }
  destruct (l_alive _ Hi _ _ Hy (alive_phase _ _ Hph Ha)) as (m & Hm & Hle & Hrep). rewrite Hrun.
  destruct (decide (login_RunID y = r)) as [E|Hne].
  - rewrite E, Ht. exists (sn_next s). split_and!; [done|lia|]. intros _.
    destruct Hxy as [[-> _]|[-> Hold]]; [done|]. apply Hrep. intros ->. congruence.
  - rewrite login_table_ne by done. exists m. split_and!; [done..|]. intros Hkm.
    destruct Hxy as [[-> _]|[-> _]]; [done|auto].
Qed.

Lemma login_keeps_order r s k k' x x' :
  linv s → sessions (snd (login r s)) !! k = Some x → sessions (snd (login r s)) !! k' = Some x' →
  login_RunID x = login_RunID x' → (k < k')%nat → alive x →
  ∃ o, sn_phase x' = Waiting (Some o) ∧ (k <= o)%nat ∧ (o < k')%nat ∧
    ∃ y, sessions (snd (login r s)) !! o = Some y ∧ login_RunID y = login_RunID x.
Proof.
  intros Hi Hx Hx' Hrun Hlt Ha.
  destruct (login_case r s k x Hi Hx) as [[-> ->]|(Hk & y & Hy & Hry & Hphy & _)].
  { destruct (login_case r s k' x' Hi Hx') as [[-> _]|[? _]]; lia. }
  pose proof (alive_phase _ _ Hphy Ha) as Hya.
  destruct (login_case r s k' x' Hi Hx') as [[-> ->]|(Hk' & y' & Hy' & Hry' & Hphy' & _)].
  - simpl in Hrun. destruct (l_alive _ Hi _ _ Hy Hya) as (m & Hm & Hle & _).
    rewrite <- Hry, Hrun in Hm. exists m. rewrite Hm.
    destruct (l_table _ Hi _ _ Hm) as (z & Hz & Hz1 & _).
    destruct (login_back r s m z Hi Hz) as (Hzlt & z' & Hz' & Hz'1 & _).
    split_and!; [done..|]. exists z'. split; [done|congruence].
  - destruct (l_order _ Hi k k' y y' Hy Hy' ltac:(congruence) Hlt Hya)
      as (o & Ho & ? & ? & z & Hz & Hz1).
    destruct (login_back r s o z Hi Hz) as (_ & z' & Hz' & Hz'1 & _).
    exists o. rewrite Hphy'. split_and!; [done..|]. exists z'. split; [done|congruence].
Qed.

Lemma slogin_inv r s : linv s → r ≠ "" → linv (snd (login r s)).
Proof.
  intros Hi Hr. split.
  - intros k Hk. destruct (_ !! k) as [x|] eqn:Hx; [|done]. simpl in Hk.
    destruct (login_case r s k x Hi Hx) as [[-> _]|[? _]]; lia.
  - intros k x [[-> ->]|(_ & y & Hy & -> & _ & [[-> _]|[-> _]])]%login_case; [auto| | |done].
    + split; [|auto]. by destruct (l_run _ Hi _ _ Hy).
    + by apply (l_run _ Hi k).
  - intros r' k. by apply login_keeps_table.
  - intros k x. by apply login_keeps_alive.
  - intros k k' x x'. by apply login_keeps_order.
Qed.

(** A login that has stopped waiting has no older living session of its run. *)
Lemma no_older s k x old k1 x1 :
  linv s → sessions s !! k = Some x → sn_phase x = Waiting old → old_ended old s = true →
  sessions s !! k1 = Some x1 → login_RunID x1 = login_RunID x → (k1 < k)%nat → ¬ alive x1.
Proof.
  intros Hi Hk Hph Hold Hk1 Hrun Hlt Ha.
  destruct (l_order _ Hi _ _ _ _ Hk1 Hk Hrun Hlt Ha) as (o & Ho & Hle & Hlt' & y & Hy & Hyr).
  assert (old = Some o) as -> by congruence. simpl in Hold. rewrite Hy in Hold.
  destruct (decide (o = k1)) as [->|Hne].
  - assert (y = x1) as -> by congruence. unfold alive in Ha. by destruct (sn_phase x1).
  - destruct (l_order _ Hi _ _ _ _ Hk1 Hy ltac:(congruence) ltac:(lia) Ha) as (o' & Ho' & _).
    by rewrite Ho' in Hold.
Qed.

(** What the table keeps when a session that no living one depends on leaves it. *)
Lemma cm_Del_lookup r k s r' m :
  ctlsByRunID (cm_Del r k s) !! r' = Some m ↔ ctlsByRunID s !! r' = Some m ∧ ¬ (r' = r ∧ m = k).
Proof.
  unfold cm_Del. destruct (ctlsByRunID s !! r) as [k'|] eqn:Hr; [|naive_solver].
  case_decide; simpl; [rewrite lookup_delete_Some|]; naive_solver.
Qed.

Lemma cm_Del_rest r k s :
  sessions (cm_Del r k s) = sessions s ∧ clientRegistry (cm_Del r k s) = clientRegistry s ∧
  sn_next (cm_Del r k s) = sn_next s.
Proof. unfold cm_Del. by repeat case_match. Qed.

Section update.
Context (s : Service) (k : nat) (x x' : Session).
Context (Hi : linv s) (Hk : sessions s !! k = Some x).
Context (Hrun : login_RunID x' = login_RunID x) (HrunID : sn_runID x' = sn_runID x).

Lemma upd_case k1 x1 :
  <[k := x']> (sessions s) !! k1 = Some x1 →
  (k1 = k ∧ x1 = x') ∨ (k1 ≠ k ∧ sessions s !! k1 = Some x1).
Proof using All. rewrite lookup_insert. case_decide; naive_solver. Qed.

Lemma upd_back k1 y :
  sessions s !! k1 = Some y →
  ∃ z, <[k := x']> (sessions s) !! k1 = Some z ∧ login_RunID z = login_RunID y ∧
    sn_runID z = sn_runID y.
Proof using All.
  intros Hy. rewrite lookup_insert. case_decide; [|by exists y]. subst. simplify_eq. by exists x'.
Qed.

(** Session [k] changes its phase, the table loses at most its entry, the registry
    changes: what is left to show. *)
Lemma update_inv tbl cr :
  (∀ r m, tbl !! r = Some m → ctlsByRunID s !! r = Some m) →
  (∀ r m, ctlsByRunID s !! r = Some m → m ≠ k → tbl !! r = Some m) →
  (* no living session depends on the entry *)
  ((∀ r m, ctlsByRunID s !! r = Some m → tbl !! r = Some m) ∨ ¬ alive x') →
  (alive x' → alive x) →
  (∀ k1 x1, sessions s !! k1 = Some x1 → login_RunID x1 = login_RunID x → (k1 < k)%nat → ¬ alive x1) →
  linv (mkService tbl (<[k := x']> (sessions s)) cr (sn_next s)).
Proof using All.
  intros Hsub Hkeep Hdel Hal Hold. split; simpl.
  - intros k1 Hk1. rewrite lookup_insert_ne; [by apply (l_fresh _ Hi)|].
    intros <-. rewrite (l_fresh _ Hi k Hk1) in Hk. done.
  - intros k1 x1 [[-> ->]|[_ H1]]%upd_case; [|by apply (l_run _ Hi k1)].
    rewrite Hrun, HrunID. by apply (l_run _ Hi k).
  - intros r m Hm%Hsub. destruct (l_table _ Hi _ _ Hm) as (y & Hy & ? & ?).
    destruct (upd_back _ _ Hy) as (z & ? & ? & ?). exists z. split_and!; congruence.
  - intros k1 x1 Hx1 Ha. assert (∃ y, sessions s !! k1 = Some y ∧ alive y ∧
      login_RunID y = login_RunID x1 ∧ sn_runID y = sn_runID x1) as (y & Hy & Hya & Hyr & HyID).
    { destruct (upd_case _ _ Hx1) as [[-> ->]|[_ H1]]; [exists x|by exists x1]. naive_solver. }
    destruct (l_alive _ Hi _ _ Hy Hya) as (m & Hm & Hle & Hrep). rewrite <- Hyr, <- HyID.
    exists m. split_and!; [|done|done]. destruct Hdel as [Hall|Hdead]; [by apply Hall|].
    apply Hkeep; [done|]. intros ->. destruct (upd_case _ _ Hx1) as [[-> ->]|[Hne H1]]; [done|].
    apply (Hold k1 y); [done| |lia|done].
    destruct (l_table _ Hi _ _ Hm) as (z & Hz & ? & _). congruence.
  - intros k1 k2 x1 x2 H1 H2 Hr12 Hlt Ha.
    assert (∃ y, sessions s !! k1 = Some y ∧ alive y ∧ login_RunID y = login_RunID x1) as (y1 & Hy1 & Ha1 & Hr1).
    { destruct (upd_case _ _ H1) as [[-> ->]|[_ ?]]; [exists x|by exists x1]. naive_solver. }
    destruct (upd_case _ _ H2) as [[-> ->]|[Hne H2']].
    { exfalso. apply (Hold k1 y1); [done|congruence|done|done]. }
    destruct (l_order _ Hi _ _ _ _ Hy1 H2' ltac:(congruence) Hlt Ha1) as (o & Ho & ? & ? & z & Hz & Hzr).
    destruct (upd_back _ _ Hz) as (z' & Hz' & ? & _). exists o. split_and!; [done..|].
    exists z'. split; [done|congruence].
Qed.
End update.

Lemma refuse_inv s k x old :
  linv s → sessions s !! k = Some x → sn_phase x = Waiting old → old_ended old s = true →
  linv (upd_session k (set_phase Refused (ctl_Close x)) (cm_Del (login_RunID x) k s)).
Proof.
  intros Hi Hk Hph Hold. set (r := login_RunID x) in *.
  destruct (cm_Del_rest r k s) as (E1 & E2 & E3). unfold upd_session. rewrite E1, E3.
  apply (update_inv s k x (set_phase Refused (ctl_Close x)) Hi Hk eq_refl eq_refl).
  - by intros r' m [? _]%cm_Del_lookup.
  - intros r' m Hm Hne. apply cm_Del_lookup. naive_solver.
  - right. intros Ha. exact Ha.
  - done.
  - intros k1 x1 H1 Hr1 Hlt. by eapply (no_older s k x old).
Qed.

Lemma start_inv s k x old cr :
  linv s → sessions s !! k = Some x → sn_phase x = Waiting old → old_ended old s = true →
  linv (upd_session k (set_phase Started x) (mkService (ctlsByRunID s) (sessions s) cr (sn_next s))).
Proof.
  intros Hi Hk Hph Hold. assert (alive x) as Hax by (unfold alive; by rewrite Hph).
  apply (update_inv s k x (set_phase Started x) Hi Hk eq_refl eq_refl); try done.
  - by left.
  - intros k1 x1 H1 Hr1 Hlt. by eapply (no_older s k x old).
Qed.

(** The registry is no part of the invariant of the sessions. *)
Lemma linv_registry s cr : linv s → linv (mkService (ctlsByRunID s) (sessions s) cr (sn_next s)).
Proof. intros [? ? ? ? ?]. by split. Qed.

Lemma finish_inv s k x old now user clientID host ver addr :
  linv s → sessions s !! k = Some x → sn_phase x = Waiting old → old_ended old s = true →
  linv (snd (finish_login now user clientID host ver addr k x s)).
Proof.
  intros Hi Hk Hph Hold. unfold finish_login. destruct (Register _ _ _ _ _ _ _ _) as [[key conflict] cr].
  destruct conflict; cbn [snd]; [|by apply (start_inv s k x old)].
  apply (refuse_inv (mkService (ctlsByRunID s) (sessions s) cr (sn_next s)) k x old); try done. by apply linv_registry.
Qed.

Lemma started_no_older s k x k1 x1 :
  linv s → sessions s !! k = Some x → (∀ o, sn_phase x ≠ Waiting o) →
  sessions s !! k1 = Some x1 → login_RunID x1 = login_RunID x → (k1 < k)%nat → ¬ alive x1.
Proof.
  intros Hi Hk Hph H1 Hr Hlt Ha. destruct (l_order _ Hi _ _ _ _ H1 Hk Hr Hlt Ha) as (o & Ho & _).
  by eapply Hph.
Qed.

Lemma end_inv s k x now :
  linv s → sessions s !! k = Some x → sn_phase x = Started → linv (worker_done now k x s).
Proof.
  intros Hi Hk Hph. unfold worker_done, upd_session. simpl.
  apply (update_inv s k x (set_phase Ended (ctl_Close x)) Hi Hk eq_refl eq_refl); try done.
  - by left.
  - intros k1 x1 H1 Hr Hlt. apply (started_no_older s k x k1 x1 Hi Hk); [|done..]. intros o. by rewrite Hph.
Qed.

Lemma cm_Del_eq s k x : sessions s !! k = Some x →
  cm_Del (login_RunID x) k s =
  mkService (ctlsByRunID (cm_Del (login_RunID x) k s)) (<[k := x]> (sessions s)) (clientRegistry s) (sn_next s).
Proof.
  intros Hk. destruct (cm_Del_rest (login_RunID x) k s) as (E1 & E2 & E3).
  rewrite insert_id by done. rewrite <- E1, <- E2, <- E3 at 1. by destruct (cm_Del (login_RunID x) k s).
Qed.

Lemma del_inv s k x :
  linv s → sessions s !! k = Some x → sn_phase x = Ended → linv (cm_Del (login_RunID x) k s).
Proof.
  intros Hi Hk Hph. assert (¬ alive x) as Hdead by (unfold alive; rewrite Hph; by intros ?).
  rewrite (cm_Del_eq s k x Hk).
  apply (update_inv s k x x Hi Hk eq_refl eq_refl); try done.
  - by intros r' m [? _]%cm_Del_lookup.
  - intros r' m Hm Hne. apply cm_Del_lookup. naive_solver.
  - by right.
  - intros k1 x1 H1 Hr Hlt. apply (started_no_older s k x k1 x1 Hi Hk); [|done..]. intros o. by rewrite Hph.
Qed.

Lemma linv_step may s s' : linv s → lstep may s s' → linv s'.
Proof.
  intros Hi Hstep. destruct Hstep; [by apply slogin_inv|by eapply finish_inv|by apply end_inv|by apply del_inv].
Qed.

Lemma lrun_inv may s : rtc (lstep may) new_service s → linv s.
Proof. apply (rtc_ind_r linv); [apply new_service_inv|]. intros s1 s2 _ Hstep Hi. by eapply linv_step. Qed.

(** A newer login of a run waits while an older session lives. *)
Lemma newer_waits s k k' x x' :
  linv s → sessions s !! k = Some x → sessions s !! k' = Some x' → login_RunID x = login_RunID x' →
  sn_phase x = Started → (k < k')%nat → ∃ o, sn_phase x' = Waiting (Some o).
Proof.
  intros Hi Hj Hj' Hrr Hph Hlt.
  destruct (l_order _ Hi _ _ _ _ Hj Hj' Hrr Hlt) as (o & Ho & _); [unfold alive; by rewrite Hph|]. by exists o.
Qed.

(** A session that waits for a refused one waits for ever. *)
Lemma stuck_step may s s' b c xb xc :
  sessions s !! b = Some xb → sn_phase xb = Refused → sessions s !! c = Some xc →
  sn_phase xc = Waiting (Some b) → (b < sn_next s)%nat → (c < sn_next s)%nat → lstep may s s' →
  (sn_next s <= sn_next s')%nat ∧
  ∃ xb' xc', sessions s' !! b = Some xb' ∧ sn_phase xb' = Refused ∧
    sessions s' !! c = Some xc' ∧ sn_phase xc' = Waiting (Some b) ∧ login_RunID xc' = login_RunID xc.
Proof.
  intros Hb Hbp Hc Hcp Hlb Hlc Hstep. destruct Hstep as [s r Hr|s k x old now u raw h v a Hk Hph Ho Hm|s k x now Hk Hph|s k x Hk Hph].
  - unfold login, cm_Add. simpl. split; [lia|].
    rewrite !lookup_insert_ne by lia.
    destruct (alter_Replaced_2 _ (ctlsByRunID s !! r) _ _ Hb) as (xb' & ? & _ & ? & _).
    destruct (alter_Replaced_2 _ (ctlsByRunID s !! r) _ _ Hc) as (xc' & ? & ? & ? & _).
    exists xb', xc'. split_and!; congruence.
  - assert (k ≠ b) by congruence. assert (k ≠ c).
    { intros ->. assert (old = Some b) as -> by congruence. simpl in Ho. by rewrite Hb, Hbp in Ho. }
    unfold finish_login. destruct (Register _ _ _ _ _ _ _ _) as [[key cf] cr].
    destruct cf; simpl; [destruct (cm_Del_rest (login_RunID x) k
      (mkService (ctlsByRunID s) (sessions s) cr (sn_next s))) as (-> & _ & ->)|];
      simpl; rewrite !lookup_insert_ne by done; eauto 10.
  - simpl. rewrite !lookup_insert_ne by congruence. eauto 10.
  - destruct (cm_Del_rest (login_RunID x) k s) as (-> & _ & ->). eauto 10.
Qed.

Lemma stuck_run may s s' b c xb xc :
  sessions s !! b = Some xb → sn_phase xb = Refused → sessions s !! c = Some xc →
  sn_phase xc = Waiting (Some b) → (b < sn_next s)%nat → (c < sn_next s)%nat → rtc (lstep may) s s' →
  ∃ xc', sessions s' !! c = Some xc' ∧ sn_phase xc' = Waiting (Some b) ∧ login_RunID xc' = login_RunID xc.
Proof.
  intros Hb Hbp Hc Hcp Hlb Hlc Hrun. revert xb xc Hb Hbp Hc Hcp Hlb Hlc.
  induction Hrun as [s|s s1 s2 Hstep _ IH]; intros xb xc Hb Hbp Hc Hcp Hlb Hlc; [eauto|].
  destruct (stuck_step may s s1 b c xb xc Hb Hbp Hc Hcp Hlb Hlc Hstep) as (Hle & xb' & xc' & ? & ? & ? & ? & <-).
  apply (IH xb' xc'); try done; lia.
Qed.

(** ** Sessions, whoever logs in *)

(** Logins come with any user and client ID. *)
Definition anyone (runID user clientID : string) : Prop := True.

(** C8: a run has one session at a time. In every interleaving of logins and endings, whatever users and client IDs
    log in with the run ID, two sessions of a run are never both started, while an older one has not ended every newer
    login of the run waits, and the table of sessions leads to the started one until it is replaced. *)
Theorem one_session_per_run s k k' x x' :
  rtc (lstep anyone) new_service s → sessions s !! k = Some x → sessions s !! k' = Some x' →
  login_RunID x = login_RunID x' →
  (sn_phase x = Started → sn_phase x' = Started → k = k') ∧
  (sn_phase x = Started → (k < k')%nat → ∃ o, sn_phase x' = Waiting (Some o)) ∧
  (sn_phase x = Started → sn_runID x ≠ "" → cm_GetByID (login_RunID x) s = Some k).
Proof.
  intros Hi%lrun_inv Hk Hk' Hr. split_and!.
  - intros H1 H2. destruct (Nat.lt_trichotomy k k') as [Hlt|[?|Hlt]]; [|done|].
    + destruct (newer_waits s k k' x x' Hi Hk Hk' Hr H1 Hlt). congruence.
    + destruct (newer_waits s k' k x' x Hi Hk' Hk (eq_sym Hr) H2 Hlt). congruence.
  - intros H1 Hlt. by apply (newer_waits s k k' x x').
  - intros H1 Hid. destruct (l_alive _ Hi _ _ Hk) as (m & Hm & _ & Hrep); [unfold alive; by rewrite H1|].
    destruct (decide (m = k)) as [->|Hne]; [done|]. by destruct (Hid (Hrep Hne)).
Qed.

(** C10: the control of a refused login never closes its [doneCh]. Take any state of the sessions in which a login waits
    for another one of its run that is itself done waiting. If the other one is refused because its client ID is
    online elsewhere, the first login is never started or answered, whatever happens afterwards. *)
Theorem refused_login_blocks_run s b c xb xc old now user clientID host ver addr s1 s2 :
  rtc (lstep anyone) new_service s →
  sessions s !! b = Some xb → sn_phase xb = Waiting old → old_ended old s = true →
  sessions s !! c = Some xc → sn_phase xc = Waiting (Some b) →
  finish_login now user clientID host ver addr b xb s = (false, s1) →
  rtc (lstep anyone) s1 s2 →
  ∃ x, sessions s2 !! c = Some x ∧ login_RunID x = login_RunID xc ∧ sn_phase x = Waiting (Some b).
Proof.
  intros Hi%lrun_inv Hb Hbp Ho Hc Hcp Hf Hrun.
  assert (∀ k x, sessions s !! k = Some x → (k < sn_next s)%nat) as Hlt.
  { intros k x Hk. destruct (decide (sn_next s <= k)%nat) as [Hle|]; [|lia]. by rewrite (l_fresh _ Hi k Hle) in Hk. }
  assert (b ≠ c) as Hne.
  { intros ->. assert (old = Some c) as -> by congruence. simpl in Ho. by rewrite Hb, Hbp in Ho. }
  unfold finish_login in Hf. destruct (Register _ _ _ _ _ _ _ _) as [[key []] cr]; [|done]. injection Hf as <-.
  set (s0 := mkService (ctlsByRunID s) (sessions s) cr (sn_next s)) in *.
  destruct (cm_Del_rest (login_RunID xb) b s0) as (E1 & _ & E3).
  destruct (stuck_run anyone (upd_session b (set_phase Refused (ctl_Close xb)) (cm_Del (login_RunID xb) b s0)) s2 b c
    (set_phase Refused (ctl_Close xb)) xc) as (x & Hx & Hph & Hr); try done; simpl; rewrite ?E1, ?E3; simpl.
  - by rewrite lookup_insert_eq.
  - by rewrite lookup_insert_ne.
  - by eapply Hlt.
  - by eapply Hlt.
  - by exists x.
Qed.

(** ** Clients that are shown online *)

(** Every login of a run ID is one of the user and client ID that [who] gives. *)
Definition one_client (who : string → string * string) (runID user clientID : string) : Prop := who runID = (user, clientID).

Section clients.
Variable who : string → string * string.
Abbreviation cstep := (lstep (one_client who)).

(** The key of the client a run ID logs in as. *)
Definition key_of (runID : string) : string :=
  composeClientKey (fst (who runID)) (effective_id (snd (who runID)) runID).

(** What is kept of the registry, with the table and the sessions. *)
Record rinv (s : Service) : Prop := {
  l_reg : wf (clientRegistry s);
  l_keys : ∀ key i, clients (clientRegistry s) !! key = Some i → RunID i ≠ "" → key = key_of (RunID i);
  l_indexed : indexed (clientRegistry s);
  (* an online client belongs to a run whose current session lives *)
  l_online : ∀ key i, clients (clientRegistry s) !! key = Some i → RunID i ≠ "" →
    ∃ m x, ctlsByRunID s !! RunID i = Some m ∧ sessions s !! m = Some x ∧ alive x }.

Lemma l_index_keys s r k : rinv s → runIndex (clientRegistry s) !! r = Some k → k = key_of r.
Proof. intros Hi Hr. destruct (wf_index _ (l_reg _ Hi) _ _ Hr) as (Hne & i & Hik & <-). by apply (l_keys _ Hi). Qed.

Lemma new_service_rinv : rinv new_service.
Proof. by split. Qed.

Lemma slogin_rinv r s : linv s → rinv s → rinv (snd (login r s)).
Proof.
  intros Hl Hi. split; [apply Hi..|].
  intros key i Hc Hne. destruct (l_online _ Hi _ _ Hc Hne) as (m & y & Hm & Hy & Ha).
  destruct (decide (RunID i = r)) as [E|Hner].
  - rewrite E. destruct (login_self r s) as [Ht Hs]. eexists _, _. by split_and!.
  - rewrite login_table_ne by done. destruct (login_back r s m y Hl Hy) as (_ & x & Hx & _ & Hph & _).
    exists m, x. split_and!; [done..|]. by apply (alive_phase y).
Qed.

(** A login that is refused leaves the table, and no online client depended on it. *)
Lemma refuse_rinv s k x i :
  linv s → rinv s → sessions s !! k = Some x →
  clients (clientRegistry s) !! key_of (login_RunID x) = Some i → RunID i ≠ login_RunID x →
  rinv (upd_session k (set_phase Refused (ctl_Close x)) (cm_Del (login_RunID x) k s)).
Proof.
  intros Hl Hi Hk Hik Hine. set (r := login_RunID x) in *.
  destruct (cm_Del_rest r k s) as (E1 & E2 & E3). split; simpl; rewrite ?E1, ?E2; [apply (l_reg _ Hi)|apply (l_keys _ Hi)|apply (l_indexed _ Hi)|].
  intros key' i' Hc Hne. destruct (l_online _ Hi _ _ Hc Hne) as (m & y & Hm & Hy & Ha).
  assert (RunID i' ≠ r) as Hdiff.
  { intros E. pose proof (l_keys _ Hi _ _ Hc Hne) as Ek. rewrite E in Ek. congruence. }
  destruct (l_table _ Hl _ _ Hm) as (y' & Hy' & Hy'r & _).
  assert (m ≠ k) as Hmk by (intros ->; assert (y' = x) by congruence; subst y'; by apply Hdiff).
  exists m, y. rewrite lookup_insert_ne by done. split; [|done]. apply cm_Del_lookup. split; [done|]. by intros [? _].
Qed.

(** A login that starts: its client, and those that were online, have a living session. *)
Lemma start_rinv s k x old cr :
  linv s → rinv s → sessions s !! k = Some x → sn_phase x = Waiting old → wf cr → indexed cr →
  (∀ key i, clients cr !! key = Some i →
     key = key_of (login_RunID x) ∧ RunID i = login_RunID x ∨ clients (clientRegistry s) !! key = Some i) →
  rinv (upd_session k (set_phase Started x) (mkService (ctlsByRunID s) (sessions s) cr (sn_next s))).
Proof.
  intros Hl Hi Hk Hph Hwf Hind Hcl. assert (alive x) as Hax by (unfold alive; by rewrite Hph).
  split; simpl; [done| |done|].
  - intros key i Hc Hne. destruct (Hcl key i Hc) as [[-> ->]|Hc']; [done|by apply (l_keys _ Hi)].
  - intros key i Hc Hne. assert (∃ m y, ctlsByRunID s !! RunID i = Some m ∧ sessions s !! m = Some y ∧ alive y)
      as (m & y & Hm & Hy & Ha).
    { destruct (Hcl key i Hc) as [[_ ->]|Hc']; [|by apply (l_online _ Hi key)].
      destruct (l_alive _ Hl _ _ Hk Hax) as (m & Hm & Hle & _).
      destruct (l_table _ Hl _ _ Hm) as (y & Hy & Hyr & _). exists m, y. split_and!; [done..|].
      destruct (decide (m = k)) as [->|Hmk]; [congruence|].
      destruct (l_order _ Hl _ _ _ _ Hk Hy ltac:(done) ltac:(lia) Hax) as (o & Ho & _).
      unfold alive. by rewrite Ho. }
    exists m. destruct (decide (m = k)) as [->|Hmk]; [eexists; by rewrite lookup_insert_eq|].
    exists y. by rewrite lookup_insert_ne.
Qed.

Lemma finish_rinv s k x old now u raw host ver addr :
  linv s → rinv s → sessions s !! k = Some x → sn_phase x = Waiting old → one_client who (login_RunID x) u raw →
  rinv (snd (finish_login now u raw host ver addr k x s)).
Proof.
  intros Hl Hi Hk Hph Hw. destruct (l_run _ Hl _ _ Hk) as [Hr _]. unfold finish_login.
  assert (composeClientKey u (effective_id raw (login_RunID x)) = key_of (login_RunID x)) as Hkey
    by (unfold key_of; by rewrite Hw).
  destruct (Register now u raw (login_RunID x) host ver addr (clientRegistry s)) as [[key conflict] cr] eqn:Hreg.
  pose proof (Register_clients now u raw (login_RunID x) host ver addr (clientRegistry s)) as Hcl.
  pose proof (Register_wf now u raw (login_RunID x) host ver addr _ (l_reg _ Hi)) as Hwf.
  pose proof (Register_indexed now u raw (login_RunID x) host ver addr _ (l_reg _ Hi) (l_indexed _ Hi)) as Hind.
  pose proof (Register_refused now u raw (login_RunID x) host ver addr (clientRegistry s) Hr) as Href.
  rewrite Hreg, ?Hkey in *. simpl in *. destruct conflict; cbn [snd].
  - destruct (Href eq_refl) as (-> & i & Hik & Hine). destruct s as [tbl ss reg nx]. by apply (refuse_rinv _ k x i).
  - apply (start_rinv s k x old); try done; [|intros key' i' Hc; by apply Hcl in Hc].
    apply Hind. intros k' Hk'. by apply (l_index_keys s).
Qed.

Lemma end_rinv s k x now :
  linv s → rinv s → sessions s !! k = Some x → rinv (worker_done now k x s).
Proof.
  intros Hl Hi Hk. pose proof (Offline_clients now (sn_runID x) (clientRegistry s)) as Hoff.
  pose proof (l_reg _ Hi) as Hwf. pose proof (l_indexed _ Hi) as Hind. split; simpl.
  - by apply Offline_wf.
  - intros key i Hc Hne. destruct (Hoff key i Hwf Hind Hc Hne) as [Hc' _]. by apply (l_keys _ Hi).
  - by apply Offline_indexed.
  - intros key i Hc Hne. destruct (Hoff key i Hwf Hind Hc Hne) as [Hc' Hrun].
    destruct (l_online _ Hi _ _ Hc' Hne) as (m & y & Hm & Hy & Ha).
    destruct (l_table _ Hl _ _ Hm) as (y' & Hy' & _ & HyID).
    assert (m ≠ k) as Hmk by (intros ->; simplify_eq; done).
    exists m, y. by rewrite lookup_insert_ne.
Qed.

Lemma del_rinv s k x :
  rinv s → sessions s !! k = Some x → sn_phase x = Ended → rinv (cm_Del (login_RunID x) k s).
Proof.
  intros Hi Hk Hph. rewrite (cm_Del_eq s k x Hk).
  assert (¬ alive x) as Hdead by (unfold alive; rewrite Hph; by intros ?).
  split; [apply Hi..|]. simpl. intros key i Hc Hne. destruct (l_online _ Hi _ _ Hc Hne) as (m & y & Hm & Hy & Ha).
  assert (m ≠ k) as Hmk by (intros ->; assert (y = x) as -> by congruence; done).
  exists m, y. rewrite lookup_insert_ne by done. split_and!; [|done..]. apply cm_Del_lookup. naive_solver.
Qed.

Lemma client_run_inv s : rtc cstep new_service s → linv s ∧ rinv s.
Proof.
  apply (rtc_ind_r (λ s, linv s ∧ rinv s)); [split; [apply new_service_inv|apply new_service_rinv]|].
  intros s1 s2 _ Hstep [Hl Hi]. split; [by eapply linv_step|].
  destruct Hstep; [by apply slogin_rinv|by eapply finish_rinv|by apply end_rinv|by apply del_rinv].
Qed.

(** C9: no ghost clients among clients that keep their run IDs to themselves. In every interleaving of logins,
    replacements, refusals and endings in which each run ID logs in with one user and client ID, a client the registry
    shows online belongs to a run that the table of sessions knows, and the session found there is starting or running.
    Without that condition the code leaves clients online that have no session ([run_id_reuse_leaves_stale_client]). *)
Theorem online_client_has_session s key i :
  rtc (lstep (one_client who)) new_service s → GetByKey (clientRegistry s) key = Some i → Online i = true →
  ∃ m x, cm_GetByID (RunID i) s = Some m ∧ sessions s !! m = Some x ∧ alive x ∧
    login_RunID x = RunID i.
Proof.
  intros [Hl Hi]%client_run_inv Hc Hon. apply (wf_key _ (l_reg _ Hi) _ _ Hc) in Hon.
  destruct (l_online _ Hi _ _ Hc Hon) as (m & x & Hm & Hx & Ha). exists m, x.
  destruct (l_table _ Hl _ _ Hm) as (y & Hy & Hr & _). split_and!; [done..|congruence].
Qed.
End clients.

(** ** Witnesses *)

(** The client [alice.laptop] is online with run r1; it logs in with run r2, and logs
    in with r2 again before the first of these logins is refused. *)
Definition crowded : Service :=
  let s := snd (login "r1" new_service) in
  let s := snd (finish_login 1 "alice" "laptop" "h" "v" "a" 0 (mkSession "r1" "r1" true (Waiting None)) s) in
  let s := snd (login "r2" s) in
  snd (login "r2" s).

Definition alice (r : string) : string * string := ("alice", "laptop").

Lemma crowded_reachable (may : string → string → string → Prop) :
  (∀ r, may r "alice" "laptop") → rtc (lstep may) new_service crowded.
Proof.
  intros Hm. unfold crowded. cbv zeta.
  eapply rtc_l; [by apply (ls_login _ _ "r1")|].
  eapply rtc_l; [by eapply (ls_finish may _ 0 (mkSession "r1" "r1" true (Waiting None)) None 1 "alice" "laptop" "h" "v" "a")|].
  eapply rtc_l; [by apply (ls_login _ _ "r2")|].
  eapply rtc_l; [by apply (ls_login _ _ "r2")|].
  apply rtc_refl.
Qed.

(** The refusal, and after it a login of another client. *)
Lemma refused_login_blocks_run_witness :
  let s1 := snd (finish_login 2 "alice" "laptop" "h" "v" "a" 1 (mkSession "r2" "" false (Waiting None)) crowded) in
  ∃ x, sessions (snd (login "r3" s1)) !! 2%nat = Some x ∧ login_RunID x = "r2" ∧ sn_phase x = Waiting (Some 1%nat).
Proof.
  apply (refused_login_blocks_run crowded 1 2 (mkSession "r2" "" false (Waiting None))
    (mkSession "r2" "r2" true (Waiting (Some 1%nat))) None 2 "alice" "laptop" "h" "v" "a"
    (snd (finish_login 2 "alice" "laptop" "h" "v" "a" 1 (mkSession "r2" "" false (Waiting None)) crowded))).
  - by apply crowded_reachable.
  - by vm_compute.
  - reflexivity.
  - reflexivity.
  - by vm_compute.
  - reflexivity.
  - by vm_compute.
  - eapply rtc_l; [by apply (ls_login _ _ "r3")|apply rtc_refl].
Defined.

Lemma online_client_has_session_witness : ∃ m, cm_GetByID "r1" crowded = Some m.
Proof.
  destruct (online_client_has_session alice crowded "alice.laptop"
    (mkClientInfo "alice.laptop" "alice" "laptop" "r1" "h" "a" "v" 1 1 0 true)) as (m & _ & Hm & _);
    [by apply crowded_reachable|by vm_compute|done|]. by exists m.
Defined.

Lemma one_session_per_run_witness : cm_GetByID "r1" crowded = Some 0%nat.
Proof.
  apply (one_session_per_run crowded 0 0 (mkSession "r1" "r1" true Started)
    (mkSession "r1" "r1" true Started)); [by apply crowded_reachable|by vm_compute..].
Defined.
