(* ===== verification/ProxyConf.v ===== *)
(** Proxy configurations, [src/pkg/config/v1/proxy.go]: the eight proxy types, their
    defaults, and their translation to and from the message [NewProxy] of
    [src/pkg/msg/msg.go] that a client sends to the server. *)
From Stdlib Require Import ZArith Lia Ascii String.
From stdpp Require Import base gmap strings list.
From S2P Require Import Prelude GoStrings.
Local Open Scope string_scope.
Local Open Scope list_scope.

(** ** Bandwidth quantities, [src/pkg/config/types/types.go] *)

Record BandwidthQuantity := mkBandwidth { bw_s : string; bw_i : Z }.
Definition zero_bandwidth : BandwidthQuantity := mkBandwidth "" 0.

Definition MB : Z := (1024 * 1024)%Z.
Definition KB : Z := 1024.

Inductive bw_error := UnitNotSupport | ParseFloatError.

Section bandwidth.
(** [int64(f * float64(base))] for the float [f] that [strconv.ParseFloat] reads. *)
Variable parse_scaled : string → Z → option Z.

Definition UnmarshalString (q : BandwidthQuantity) (s : string) : result bw_error BandwidthQuantity :=
  let s := TrimSpace s in
  if s =s? "" then Ok q else
  match (match CutSuffix s "MB" with
         | Some fstr => Ok (parse_scaled fstr MB)
         | None => match CutSuffix s "KB" with
                   | Some fstr => Ok (parse_scaled fstr KB)
                   | None => Err UnitNotSupport
                   end
         end) with
  | Err e => Err e
  | Ok None => Err ParseFloatError
  | Ok (Some i) => Ok (mkBandwidth s i)
  end.

Definition NewBandwidthQuantity (s : string) : result bw_error BandwidthQuantity :=
  UnmarshalString zero_bandwidth s.

(** The quantity assigned by [q, _ = NewBandwidthQuantity(s)]. *)
Definition bandwidth_or_zero (s : string) : BandwidthQuantity :=
  match NewBandwidthQuantity s with Ok q => q | Err _ => zero_bandwidth end.

(** ** The message *)

Record NewProxy := mkNewProxy {
  np_ProxyName : string; np_ProxyType : string;
  np_UseEncryption : bool; np_UseCompression : bool;
  np_BandwidthLimit : string; np_BandwidthLimitMode : string;
  np_Group : string; np_GroupKey : string;
  np_Metas : gmap string string; np_Annotations : gmap string string;
  np_RemotePort : Z;
  np_CustomDomains : list string; np_SubDomain : string; np_Locations : list string;
  np_HTTPUser : string; np_HTTPPwd : string; np_HostHeaderRewrite : string;
  np_Headers : gmap string string; np_ResponseHeaders : gmap string string;
  np_RouteByHTTPUser : string;
  np_Sk : string; np_AllowUsers : list string;
  np_Multiplexer : string }.

Definition zero_NewProxy : NewProxy :=
  mkNewProxy "" "" false false "" "" "" "" ∅ ∅ 0 [] "" [] "" "" "" ∅ ∅ "" "" [] "".

(** ** Configurations *)

Record ProxyTransport := mkTransport {
  UseEncryption : bool; UseCompression : bool;
  BandwidthLimit : BandwidthQuantity; BandwidthLimitMode : string;
  ProxyProtocolVersion : string }.

Record LoadBalancerConfig := mkLoadBalancer { Group : string; GroupKey : string }.

Record HealthCheckConfig := mkHealthCheck {
  hc_Type : string; hc_TimeoutSeconds : Z; hc_MaxFailed : Z; hc_IntervalSeconds : Z;
  hc_Path : string; hc_HTTPHeaders : list (string * string) }.

(** Client plugins; [plugin_Complete] is the [Complete] of their options. *)
Variable plugin : Type.
Variable plugin_Complete : plugin → plugin.

Record ProxyBackend := mkBackend { LocalIP : string; LocalPort : Z; Plugin : option plugin }.

Record ProxyBaseConfig := mkBase {
  Name : string; Type_ : string; Enabled : option bool;
  Annotations : gmap string string; Transport : ProxyTransport;
  Metadatas : gmap string string; LoadBalancer : LoadBalancerConfig;
  HealthCheck : HealthCheckConfig; Backend : ProxyBackend }.

Record DomainConfig := mkDomains { CustomDomains : list string; SubDomain : string }.

Record HTTPFields := mkHTTPFields {
  Locations : list string; hf_HTTPUser : string; hf_HTTPPassword : string;
  HostHeaderRewrite : string; RequestHeaders : gmap string string;
  hf_ResponseHeaders : gmap string string; hf_RouteByHTTPUser : string }.

Record TCPMuxFields := mkTCPMuxFields {
  tf_HTTPUser : string; tf_HTTPPassword : string; tf_RouteByHTTPUser : string; Multiplexer : string }.

Inductive ProxyConfigurer :=
| TCPProxyConfig (b : ProxyBaseConfig) (RemotePort : Z)
| UDPProxyConfig (b : ProxyBaseConfig) (RemotePort : Z)
| HTTPProxyConfig (b : ProxyBaseConfig) (d : DomainConfig) (h : HTTPFields)
| HTTPSProxyConfig (b : ProxyBaseConfig) (d : DomainConfig)
| TCPMuxProxyConfig (b : ProxyBaseConfig) (d : DomainConfig) (t : TCPMuxFields)
| STCPProxyConfig (b : ProxyBaseConfig) (Secretkey : string) (AllowUsers : list string)
| XTCPProxyConfig (b : ProxyBaseConfig) (Secretkey : string) (AllowUsers : list string)
    (disableAssistedAddrs : option bool)    (* NatTraversal *)
| SUDPProxyConfig (b : ProxyBaseConfig) (Secretkey : string) (AllowUsers : list string).

Definition GetBaseConfig (c : ProxyConfigurer) : ProxyBaseConfig :=
  match c with
  | TCPProxyConfig b _ | UDPProxyConfig b _ | HTTPProxyConfig b _ _ | HTTPSProxyConfig b _
  | TCPMuxProxyConfig b _ _ | STCPProxyConfig b _ _ | XTCPProxyConfig b _ _ _
  | SUDPProxyConfig b _ _ => b
  end.

Definition set_base (b : ProxyBaseConfig) (c : ProxyConfigurer) : ProxyConfigurer :=
  match c with
  | TCPProxyConfig _ p => TCPProxyConfig b p
  | UDPProxyConfig _ p => UDPProxyConfig b p
  | HTTPProxyConfig _ d h => HTTPProxyConfig b d h
  | HTTPSProxyConfig _ d => HTTPSProxyConfig b d
  | TCPMuxProxyConfig _ d t => TCPMuxProxyConfig b d t
  | STCPProxyConfig _ sk au => STCPProxyConfig b sk au
  | XTCPProxyConfig _ sk au nt => XTCPProxyConfig b sk au nt
  | SUDPProxyConfig _ sk au => SUDPProxyConfig b sk au
  end.

(** [util.EmptyOr] on strings. *)
Definition EmptyOr (v fallback : string) : string := if v =s? "" then fallback else v.

Definition set_mode (m : string) (t : ProxyTransport) : ProxyTransport :=
  mkTransport (UseEncryption t) (UseCompression t) (BandwidthLimit t) m (ProxyProtocolVersion t).

Definition base_Complete (c : ProxyBaseConfig) : ProxyBaseConfig :=
  mkBase (Name c) (Type_ c) (Enabled c) (Annotations c)
    (set_mode (EmptyOr (BandwidthLimitMode (Transport c)) "client") (Transport c))
    (Metadatas c) (LoadBalancer c) (HealthCheck c)
    (mkBackend (EmptyOr (LocalIP (Backend c)) "127.0.0.1") (LocalPort (Backend c))
       (plugin_Complete <$> Plugin (Backend c))).

Definition Complete (c : ProxyConfigurer) : ProxyConfigurer :=
  set_base (base_Complete (GetBaseConfig c)) c.

(** *** [MarshalToMsg]: assignments to the fields of a message *)

Definition base_MarshalToMsg (c : ProxyBaseConfig) (m : NewProxy) : NewProxy :=
  let t := Transport c in
  mkNewProxy (Name c) (Type_ c) (UseEncryption t) (UseCompression t) (bw_s (BandwidthLimit t))
    (if BandwidthLimitMode t =s? "client" then np_BandwidthLimitMode m else BandwidthLimitMode t)
    (Group (LoadBalancer c)) (GroupKey (LoadBalancer c)) (Metadatas c) (Annotations c)
    (np_RemotePort m) (np_CustomDomains m) (np_SubDomain m) (np_Locations m) (np_HTTPUser m)
    (np_HTTPPwd m) (np_HostHeaderRewrite m) (np_Headers m) (np_ResponseHeaders m)
    (np_RouteByHTTPUser m) (np_Sk m) (np_AllowUsers m) (np_Multiplexer m).

Definition msg_set_port (p : Z) (m : NewProxy) : NewProxy :=
  mkNewProxy (np_ProxyName m) (np_ProxyType m) (np_UseEncryption m) (np_UseCompression m)
    (np_BandwidthLimit m) (np_BandwidthLimitMode m) (np_Group m) (np_GroupKey m) (np_Metas m)
    (np_Annotations m) p (np_CustomDomains m) (np_SubDomain m) (np_Locations m) (np_HTTPUser m)
    (np_HTTPPwd m) (np_HostHeaderRewrite m) (np_Headers m) (np_ResponseHeaders m)
    (np_RouteByHTTPUser m) (np_Sk m) (np_AllowUsers m) (np_Multiplexer m).

Definition msg_set_domains (d : DomainConfig) (m : NewProxy) : NewProxy :=
  mkNewProxy (np_ProxyName m) (np_ProxyType m) (np_UseEncryption m) (np_UseCompression m)
    (np_BandwidthLimit m) (np_BandwidthLimitMode m) (np_Group m) (np_GroupKey m) (np_Metas m)
    (np_Annotations m) (np_RemotePort m) (CustomDomains d) (SubDomain d) (np_Locations m)
    (np_HTTPUser m) (np_HTTPPwd m) (np_HostHeaderRewrite m) (np_Headers m) (np_ResponseHeaders m)
    (np_RouteByHTTPUser m) (np_Sk m) (np_AllowUsers m) (np_Multiplexer m).

Definition msg_set_http (h : HTTPFields) (m : NewProxy) : NewProxy :=
  mkNewProxy (np_ProxyName m) (np_ProxyType m) (np_UseEncryption m) (np_UseCompression m)
    (np_BandwidthLimit m) (np_BandwidthLimitMode m) (np_Group m) (np_GroupKey m) (np_Metas m)
    (np_Annotations m) (np_RemotePort m) (np_CustomDomains m) (np_SubDomain m) (Locations h)
    (hf_HTTPUser h) (hf_HTTPPassword h) (HostHeaderRewrite h) (RequestHeaders h)
    (hf_ResponseHeaders h) (hf_RouteByHTTPUser h) (np_Sk m) (np_AllowUsers m) (np_Multiplexer m).

Definition msg_set_tcpmux (t : TCPMuxFields) (m : NewProxy) : NewProxy :=
  mkNewProxy (np_ProxyName m) (np_ProxyType m) (np_UseEncryption m) (np_UseCompression m)
    (np_BandwidthLimit m) (np_BandwidthLimitMode m) (np_Group m) (np_GroupKey m) (np_Metas m)
    (np_Annotations m) (np_RemotePort m) (np_CustomDomains m) (np_SubDomain m) (np_Locations m)
    (tf_HTTPUser t) (tf_HTTPPassword t) (np_HostHeaderRewrite m) (np_Headers m)
    (np_ResponseHeaders m) (tf_RouteByHTTPUser t) (np_Sk m) (np_AllowUsers m) (Multiplexer t).

Definition msg_set_secret (sk : string) (au : list string) (m : NewProxy) : NewProxy :=
  mkNewProxy (np_ProxyName m) (np_ProxyType m) (np_UseEncryption m) (np_UseCompression m)
    (np_BandwidthLimit m) (np_BandwidthLimitMode m) (np_Group m) (np_GroupKey m) (np_Metas m)
    (np_Annotations m) (np_RemotePort m) (np_CustomDomains m) (np_SubDomain m) (np_Locations m)
    (np_HTTPUser m) (np_HTTPPwd m) (np_HostHeaderRewrite m) (np_Headers m) (np_ResponseHeaders m)
    (np_RouteByHTTPUser m) sk au (np_Multiplexer m).

(** One method per configuration type. *)
Definition tcp_MarshalToMsg (b : ProxyBaseConfig) (p : Z) (m : NewProxy) : NewProxy :=
  msg_set_port p (base_MarshalToMsg b m).
Definition udp_MarshalToMsg (b : ProxyBaseConfig) (p : Z) (m : NewProxy) : NewProxy :=
  msg_set_port p (base_MarshalToMsg b m).
Definition http_MarshalToMsg (b : ProxyBaseConfig) (d : DomainConfig) (h : HTTPFields) (m : NewProxy)
    : NewProxy :=
  msg_set_http h (msg_set_domains d (base_MarshalToMsg b m)).
Definition https_MarshalToMsg (b : ProxyBaseConfig) (d : DomainConfig) (m : NewProxy) : NewProxy :=
  msg_set_domains d (base_MarshalToMsg b m).
Definition tcpmux_MarshalToMsg (b : ProxyBaseConfig) (d : DomainConfig) (t : TCPMuxFields) (m : NewProxy)
    : NewProxy :=
  msg_set_tcpmux t (msg_set_domains d (base_MarshalToMsg b m)).
Definition stcp_MarshalToMsg (b : ProxyBaseConfig) (sk : string) (au : list string) (m : NewProxy)
    : NewProxy :=
  msg_set_secret sk au (base_MarshalToMsg b m).
Definition xtcp_MarshalToMsg (b : ProxyBaseConfig) (sk : string) (au : list string) (m : NewProxy)
    : NewProxy :=
  msg_set_secret sk au (base_MarshalToMsg b m).
Definition sudp_MarshalToMsg (b : ProxyBaseConfig) (sk : string) (au : list string) (m : NewProxy)
    : NewProxy :=
  msg_set_secret sk au (base_MarshalToMsg b m).

(** The method of the interface. *)
Definition MarshalToMsg (c : ProxyConfigurer) : NewProxy → NewProxy :=
  match c with
  | TCPProxyConfig b p => tcp_MarshalToMsg b p
  | UDPProxyConfig b p => udp_MarshalToMsg b p
  | HTTPProxyConfig b d h => http_MarshalToMsg b d h
  | HTTPSProxyConfig b d => https_MarshalToMsg b d
  | TCPMuxProxyConfig b d t => tcpmux_MarshalToMsg b d t
  | STCPProxyConfig b sk au => stcp_MarshalToMsg b sk au
  | XTCPProxyConfig b sk au _ => xtcp_MarshalToMsg b sk au
  | SUDPProxyConfig b sk au => sudp_MarshalToMsg b sk au
  end.

(** *** [UnmarshalFromMsg] *)

Definition base_UnmarshalFromMsg (m : NewProxy) (c : ProxyBaseConfig) : ProxyBaseConfig :=
  let t := Transport c in
  mkBase (np_ProxyName m) (np_ProxyType m) (Enabled c) (np_Annotations m)
    (mkTransport (np_UseEncryption m) (np_UseCompression m)
       (if np_BandwidthLimit m =s? "" then BandwidthLimit t else bandwidth_or_zero (np_BandwidthLimit m))
       (if np_BandwidthLimitMode m =s? "" then BandwidthLimitMode t else np_BandwidthLimitMode m)
       (ProxyProtocolVersion t))
    (np_Metas m) (mkLoadBalancer (np_Group m) (np_GroupKey m)) (HealthCheck c) (Backend c).

Definition msg_domains (m : NewProxy) : DomainConfig := mkDomains (np_CustomDomains m) (np_SubDomain m).

Definition tcp_UnmarshalFromMsg (m : NewProxy) (b : ProxyBaseConfig) : ProxyConfigurer :=
  TCPProxyConfig (base_UnmarshalFromMsg m b) (np_RemotePort m).
Definition udp_UnmarshalFromMsg (m : NewProxy) (b : ProxyBaseConfig) : ProxyConfigurer :=
  UDPProxyConfig (base_UnmarshalFromMsg m b) (np_RemotePort m).
Definition http_UnmarshalFromMsg (m : NewProxy) (b : ProxyBaseConfig) : ProxyConfigurer :=
  HTTPProxyConfig (base_UnmarshalFromMsg m b) (msg_domains m)
    (mkHTTPFields (np_Locations m) (np_HTTPUser m) (np_HTTPPwd m) (np_HostHeaderRewrite m)
       (np_Headers m) (np_ResponseHeaders m) (np_RouteByHTTPUser m)).
Definition https_UnmarshalFromMsg (m : NewProxy) (b : ProxyBaseConfig) : ProxyConfigurer :=
  HTTPSProxyConfig (base_UnmarshalFromMsg m b) (msg_domains m).
Definition tcpmux_UnmarshalFromMsg (m : NewProxy) (b : ProxyBaseConfig) : ProxyConfigurer :=
  TCPMuxProxyConfig (base_UnmarshalFromMsg m b) (msg_domains m)
    (mkTCPMuxFields (np_HTTPUser m) (np_HTTPPwd m) (np_RouteByHTTPUser m) (np_Multiplexer m)).
Definition stcp_UnmarshalFromMsg (m : NewProxy) (b : ProxyBaseConfig) : ProxyConfigurer :=
  STCPProxyConfig (base_UnmarshalFromMsg m b) (np_Sk m) (np_AllowUsers m).
Definition xtcp_UnmarshalFromMsg (m : NewProxy) (b : ProxyBaseConfig) (nt : option bool) : ProxyConfigurer :=
  XTCPProxyConfig (base_UnmarshalFromMsg m b) (np_Sk m) (np_AllowUsers m) nt.
Definition sudp_UnmarshalFromMsg (m : NewProxy) (b : ProxyBaseConfig) : ProxyConfigurer :=
  SUDPProxyConfig (base_UnmarshalFromMsg m b) (np_Sk m) (np_AllowUsers m).

Definition UnmarshalFromMsg (m : NewProxy) (c : ProxyConfigurer) : ProxyConfigurer :=
  match c with
  | TCPProxyConfig b _ => tcp_UnmarshalFromMsg m b
  | UDPProxyConfig b _ => udp_UnmarshalFromMsg m b
  | HTTPProxyConfig b _ _ => http_UnmarshalFromMsg m b
  | HTTPSProxyConfig b _ => https_UnmarshalFromMsg m b
  | TCPMuxProxyConfig b _ _ => tcpmux_UnmarshalFromMsg m b
  | STCPProxyConfig b _ _ => stcp_UnmarshalFromMsg m b
  | XTCPProxyConfig b _ _ nt => xtcp_UnmarshalFromMsg m b nt
  | SUDPProxyConfig b _ _ => sudp_UnmarshalFromMsg m b
  end.

(** *** [NewProxyConfigurerByType]: the zero configuration of a type *)

Definition zero_base (ty : string) : ProxyBaseConfig :=
  mkBase "" ty None ∅ (mkTransport false false zero_bandwidth "" "") ∅ (mkLoadBalancer "" "")
    (mkHealthCheck "" 0 0 0 "" []) (mkBackend "" 0 None).

Definition NewProxyConfigurerByType (ty : string) : option ProxyConfigurer :=
  let b := zero_base ty in
  let d := mkDomains [] "" in
  if ty =s? "tcp" then Some (TCPProxyConfig b 0)
  else if ty =s? "udp" then Some (UDPProxyConfig b 0)
  else if ty =s? "http" then Some (HTTPProxyConfig b d (mkHTTPFields [] "" "" "" ∅ ∅ ""))
  else if ty =s? "https" then Some (HTTPSProxyConfig b d)
  else if ty =s? "tcpmux" then Some (TCPMuxProxyConfig b d (mkTCPMuxFields "" "" "" ""))
  else if ty =s? "stcp" then Some (STCPProxyConfig b "" [])
  else if ty =s? "xtcp" then Some (XTCPProxyConfig b "" [] None)
  else if ty =s? "sudp" then Some (SUDPProxyConfig b "" [])
  else None.

(** The type name of a constructor. *)
Definition type_name (c : ProxyConfigurer) : string :=
  match c with
  | TCPProxyConfig _ _ => "tcp" | UDPProxyConfig _ _ => "udp" | HTTPProxyConfig _ _ _ => "http"
  | HTTPSProxyConfig _ _ => "https" | TCPMuxProxyConfig _ _ _ => "tcpmux"
  | STCPProxyConfig _ _ _ => "stcp" | XTCPProxyConfig _ _ _ _ => "xtcp" | SUDPProxyConfig _ _ _ => "sudp"
  end.

(** [NewProxyConfigurerFromMsg] of [load.go], up to the validation: the configuration
    the server builds from a message. *)
Definition configurer_of_msg (m : NewProxy) : option ProxyConfigurer :=
  let ty := EmptyOr (np_ProxyType m) "tcp" in
  let m := mkNewProxy (np_ProxyName m) ty (np_UseEncryption m) (np_UseCompression m)
    (np_BandwidthLimit m) (np_BandwidthLimitMode m) (np_Group m) (np_GroupKey m) (np_Metas m)
    (np_Annotations m) (np_RemotePort m) (np_CustomDomains m) (np_SubDomain m) (np_Locations m)
    (np_HTTPUser m) (np_HTTPPwd m) (np_HostHeaderRewrite m) (np_Headers m) (np_ResponseHeaders m)
    (np_RouteByHTTPUser m) (np_Sk m) (np_AllowUsers m) (np_Multiplexer m) in
  match NewProxyConfigurerByType ty with
  | None => None
  | Some c => Some (Complete (UnmarshalFromMsg m c))
  end.
End bandwidth.

Arguments mkBackend {plugin} _ _ _.
Arguments LocalIP {plugin} _.
Arguments LocalPort {plugin} _.
Arguments Plugin {plugin} _.
Arguments mkBase {plugin} _ _ _ _ _ _ _ _ _.
Arguments Name {plugin} _.
Arguments Type_ {plugin} _.
Arguments Enabled {plugin} _.
Arguments Annotations {plugin} _.
Arguments Transport {plugin} _.
Arguments Metadatas {plugin} _.
Arguments LoadBalancer {plugin} _.
Arguments HealthCheck {plugin} _.
Arguments Backend {plugin} _.
Arguments TCPProxyConfig {plugin} _ _.
Arguments UDPProxyConfig {plugin} _ _.
Arguments HTTPProxyConfig {plugin} _ _ _.
Arguments HTTPSProxyConfig {plugin} _ _.
Arguments TCPMuxProxyConfig {plugin} _ _ _.
Arguments STCPProxyConfig {plugin} _ _ _.
Arguments XTCPProxyConfig {plugin} _ _ _ _.
Arguments SUDPProxyConfig {plugin} _ _ _.
Arguments GetBaseConfig {plugin} _.
Arguments set_base {plugin} _ _.
Arguments MarshalToMsg {plugin} _.
Arguments base_MarshalToMsg {plugin} _ _.
Arguments type_name {plugin} _.

(** ** Equality of configurations ([reflect.DeepEqual]) *)

#[global] Instance BandwidthQuantity_eq_dec : EqDecision BandwidthQuantity.
Proof. solve_decision. Defined.
#[global] Instance ProxyTransport_eq_dec : EqDecision ProxyTransport.
Proof. solve_decision. Defined.
#[global] Instance LoadBalancerConfig_eq_dec : EqDecision LoadBalancerConfig.
Proof. solve_decision. Defined.
#[global] Instance HealthCheckConfig_eq_dec : EqDecision HealthCheckConfig.
Proof. solve_decision. Defined.
#[global] Instance DomainConfig_eq_dec : EqDecision DomainConfig.
Proof. solve_decision. Defined.
#[global] Instance HTTPFields_eq_dec : EqDecision HTTPFields.
Proof. solve_decision. Defined.
#[global] Instance TCPMuxFields_eq_dec : EqDecision TCPMuxFields.
Proof. solve_decision. Defined.
#[global] Instance ProxyBackend_eq_dec {P} `{EqDecision P} : EqDecision (ProxyBackend P).
Proof. solve_decision. Defined.
#[global] Instance ProxyBaseConfig_eq_dec {P} `{EqDecision P} : EqDecision (ProxyBaseConfig P).
Proof. solve_decision. Defined.
#[global] Instance ProxyConfigurer_eq_dec {P} `{EqDecision P} : EqDecision (ProxyConfigurer P).
Proof. solve_decision. Defined.

(** ** Properties *)

Section roundtrip.
Context (parse_scaled : string → Z → option Z) {plugin : Type} (plugin_Complete : plugin → plugin).
Implicit Types (c : ProxyConfigurer plugin) (b : ProxyBaseConfig plugin).

(** A quantity that was read from a configuration, or the zero one. *)
Definition bw_read (q : BandwidthQuantity) : Prop :=
  q = zero_bandwidth ∨ NewBandwidthQuantity parse_scaled (bw_s q) = Ok q.

(** What the server learns: everything but what only the client needs. *)
Definition transmitted_base b : ProxyBaseConfig plugin :=
  let t := Transport b in
  mkBase (Name b) (Type_ b) None (Annotations b)
    (mkTransport (UseEncryption t) (UseCompression t) (BandwidthLimit t) (BandwidthLimitMode t) "")
    (Metadatas b) (LoadBalancer b) (mkHealthCheck "" 0 0 0 "" []) (mkBackend "127.0.0.1" 0 None).

Definition transmitted c : ProxyConfigurer plugin :=
  match set_base (transmitted_base (GetBaseConfig c)) c with
  | XTCPProxyConfig b sk au _ => XTCPProxyConfig b sk au None
  | c => c
  end.

Lemma bandwidth_roundtrip q :
  bw_read q →
  (if bw_s q =s? "" then zero_bandwidth else bandwidth_or_zero parse_scaled (bw_s q)) = q.
Proof.
  intros [->|Hq]; [done|]. unfold bandwidth_or_zero. rewrite Hq.
  destruct (seqb_spec (bw_s q) "") as [He|]; [|done].
  rewrite He in Hq. assert (NewBandwidthQuantity parse_scaled "" = Ok zero_bandwidth) as E by reflexivity.
  congruence.
Qed.

Lemma mode_roundtrip (m : string) :
  m ≠ "" →
  EmptyOr (if (if m =s? "client" then "" else m) =s? "" then "" else (if m =s? "client" then "" else m)) "client" = m.
Proof.
  intros Hm. destruct (seqb_spec m "client") as [->|Hc]; [done|].
  rewrite (proj2 (seqb_false m "") Hm). unfold EmptyOr. by rewrite (proj2 (seqb_false m "") Hm).
Qed.

Lemma base_roundtrip b m :
  bw_read (BandwidthLimit (Transport b)) → BandwidthLimitMode (Transport b) ≠ "" →
  np_ProxyName m = Name b → np_ProxyType m = Type_ b →
  np_UseEncryption m = UseEncryption (Transport b) → np_UseCompression m = UseCompression (Transport b) →
  np_BandwidthLimit m = bw_s (BandwidthLimit (Transport b)) →
  np_BandwidthLimitMode m = (if BandwidthLimitMode (Transport b) =s? "client" then "" else BandwidthLimitMode (Transport b)) →
  np_Group m = Group (LoadBalancer b) → np_GroupKey m = GroupKey (LoadBalancer b) →
  np_Metas m = Metadatas b → np_Annotations m = Annotations b →
  base_Complete plugin plugin_Complete
    (base_UnmarshalFromMsg parse_scaled plugin m (zero_base plugin (Type_ b))) = transmitted_base b.
Proof.
  intros Hbw Hmode H1 H2 H3 H4 H5 H6 H7 H8 H9 H10.
  unfold base_Complete, base_UnmarshalFromMsg, transmitted_base, set_mode. simpl.
  rewrite H1, H2, H3, H4, H5, H6, H7, H8, H9, H10, bandwidth_roundtrip, mode_roundtrip by done.
  by destruct (LoadBalancer b).
Qed.

(** What the client sends is what the server configures, for each of the eight types. *)
Lemma configurer_roundtrip c :
  Type_ (GetBaseConfig c) = type_name c →
  Complete plugin plugin_Complete c = c →
  bw_read (BandwidthLimit (Transport (GetBaseConfig c))) →
  configurer_of_msg parse_scaled plugin plugin_Complete (MarshalToMsg c zero_NewProxy) =
    Some (transmitted c).
Proof.
  intros Hty Hcomp Hbw.
  assert (BandwidthLimitMode (Transport (GetBaseConfig c)) ≠ "") as Hmode.
  { intros He. apply (f_equal GetBaseConfig) in Hcomp.
    assert (GetBaseConfig (Complete plugin plugin_Complete c) =
      base_Complete plugin plugin_Complete (GetBaseConfig c)) as E by (by destruct c).
    rewrite E in Hcomp. apply (f_equal Transport) in Hcomp. simpl in Hcomp.
    apply (f_equal BandwidthLimitMode) in Hcomp. simpl in Hcomp. rewrite He in Hcomp. done. }
  unfold configurer_of_msg.
  assert (np_ProxyType (MarshalToMsg c zero_NewProxy) = type_name c) as -> by (by destruct c).
  destruct c as [b p|b p|b d h|b d|b d t|b sk au|b sk au nt|b sk au]; simpl in Hty, Hbw, Hmode;
    cbn [type_name EmptyOr NewProxyConfigurerByType]; vm_compute (EmptyOr _ _);
    unfold NewProxyConfigurerByType; rewrite ?seqb_refl; simpl; unfold Complete, UnmarshalFromMsg;
    simpl; rewrite <- Hty, (base_roundtrip b) by done;
    unfold transmitted; simpl; try (by destruct d; try destruct h; try destruct t); done.
Qed.
End roundtrip.

(** ** An example: an HTTP proxy with a bandwidth limit on the server *)

Definition parse_ten (s : string) (base : Z) : option Z :=
  if s =s? "10" then Some (10 * base)%Z else None.

Definition web_conf : ProxyConfigurer unit :=
  HTTPProxyConfig
    (mkBase "alice.web" "http" (Some true) {["team" := "infra"]}
       (mkTransport true false (mkBandwidth "10MB" (10 * MB)) "server" "v2") ∅
       (mkLoadBalancer "g" "key") (mkHealthCheck "http" 3 1 10 "/health" []) (mkBackend "127.0.0.1" 8080 None))
    (mkDomains ["web.example.com"] "") (mkHTTPFields ["/"] "u" "p" "" ∅ ∅ "").
