(* ===== verification/Validation.v ===== *)
(** Validation of proxy configurations on the client and on the server,
    [src/pkg/config/v1/validation/proxy.go], and [NewProxyConfigurerFromMsg] of
    [src/pkg/config/load.go], through which every proxy enters the server. *)
From Stdlib Require Import ZArith Lia Ascii String.
From stdpp Require Import base gmap strings list sorting.
From S2P Require Import Prelude GoStrings ProxyConf Router.
Local Open Scope string_scope.
Local Open Scope list_scope.

Inductive val_error :=
| NameEmpty | AnnotationKeyInvalid (k msg : string) | AnnotationsTooLarge (size : Z)
| ProxyProtocolVersionNotSupported (v : string) | BandwidthLimitModeInvalid
| PortOutOfRange (port : Z) | HealthCheckTypeNotSupported (t : string) | HealthCheckPathEmpty
| PluginInvalid | DomainsEmpty | MultiplexerNotSupported (m : string)
| DomainInSubDomainHost (d host : string) | SubDomainNotEnabled | SubDomainInvalid
| TCPMuxNotEnabled | VhostHTTPNotEnabled | VhostHTTPSNotEnabled | UnknownProxyType (t : string).

(** The part of [v1.ServerConfig] the validation reads. *)
Record ServerConfig := mkServerConfig {
  SubDomainHost : string; VhostHTTPPort : Z; VhostHTTPSPort : Z; TCPMuxHTTPConnectPort : Z }.

Section validation.
(** [IsQualifiedName] of k8s.io/apimachinery: the complaints about a key. *)
Variable IsQualifiedName : string → list string.
(** [ParseFloat] with scaling, client plugin options with [Complete] and validation. *)
Variable parse_scaled : string → Z → option Z.
Variable plugin : Type.
Variable plugin_Complete : plugin → plugin.
Variable ValidateClientPluginOptions : plugin → bool.

Abbreviation configurer := (ProxyConfigurer plugin).
Abbreviation base := (ProxyBaseConfig plugin).

(** A check: the errors it joins, [] is nil. *)
Abbreviation check := (list val_error).
Definition guard (bad : bool) (e : val_error) : check := if bad then [e] else [].
(** [if err := c; err != nil { return err }] followed by [k]. *)
Definition seq_check (c k : check) : check := match c with [] => k | _ => c end.

(** *** Annotations *)

Definition TotalAnnotationSizeLimitB : Z := (256 * 2 ^ 10)%Z.

Definition annotations_size (a : gmap string string) : Z :=
  foldr (λ kv n, (Z.of_nat (String.length (fst kv)) + Z.of_nat (String.length (snd kv)) + n)%Z) 0%Z
    (map_to_list a).

Definition ValidateAnnotationsSize (a : gmap string string) : check :=
  guard (TotalAnnotationSizeLimitB <? annotations_size a)%Z (AnnotationsTooLarge (annotations_size a)).

Definition ValidateAnnotations (a : gmap string string) : check :=
  if decide (a = ∅) then [] else
  (map_to_list a ≫= λ kv, AnnotationKeyInvalid (fst kv) <$> IsQualifiedName (ToLower (fst kv)))
  ++ ValidateAnnotationsSize a.

(** *** On the client *)

Definition ValidatePort (port : Z) : check :=
  guard (negb ((0 <=? port) && (port <=? 65535))%Z) (PortOutOfRange port).

Definition validateProxyBaseConfigForClient (c : base) : check :=
  seq_check (guard (Name c =s? "") NameEmpty) (
  seq_check (ValidateAnnotations (Annotations c)) (
  seq_check (guard (negb (contains [""; "v1"; "v2"] (ProxyProtocolVersion (Transport c))))
               (ProxyProtocolVersionNotSupported (ProxyProtocolVersion (Transport c)))) (
  seq_check (guard (negb (contains ["client"; "server"] (BandwidthLimitMode (Transport c))))
               BandwidthLimitModeInvalid) (
  seq_check (match Plugin (Backend c) with
             | None => ValidatePort (LocalPort (Backend c))
             | Some _ => []
             end) (
  seq_check (guard (negb (contains [""; "tcp"; "http"] (hc_Type (HealthCheck c))))
               (HealthCheckTypeNotSupported (hc_Type (HealthCheck c)))) (
  seq_check (guard ((hc_Type (HealthCheck c) =s? "http") && (hc_Path (HealthCheck c) =s? ""))
               HealthCheckPathEmpty) (
  match Plugin (Backend c) with
  | Some p => guard (negb (ValidateClientPluginOptions p)) PluginInvalid
  | None => []
  end))))))).

Definition validateDomainConfigForClient (d : DomainConfig) : check :=
  guard ((SubDomain d =s? "") && bool_decide (CustomDomains d = [])) DomainsEmpty.

Definition ValidateProxyConfigurerForClient (c : configurer) : check :=
  seq_check (validateProxyBaseConfigForClient (GetBaseConfig c))
  match c with
  | TCPMuxProxyConfig _ d t =>
      seq_check (validateDomainConfigForClient d)
        (guard (negb (contains ["httpconnect"] (Multiplexer t))) (MultiplexerNotSupported (Multiplexer t)))
  | HTTPProxyConfig _ d _ | HTTPSProxyConfig _ d => validateDomainConfigForClient d
  | _ => []
  end.

(** *** On the server *)

Definition validateProxyBaseConfigForServer (c : base) : check := ValidateAnnotations (Annotations c).

(** One round of the loop over the custom domains. *)
Definition in_subdomain_host (s : ServerConfig) (d : string) : bool :=
  negb (SubDomainHost s =s? "") &&
  (length (Split "."%char (SubDomainHost s)) <? length (Split "."%char d))%nat &&
  HasSuffix d ("." +:+ SubDomainHost s).

Definition validateDomainConfigForServer (c : DomainConfig) (s : ServerConfig) : check :=
  match find_first (in_subdomain_host s) (CustomDomains c) with
  | Some d => [DomainInSubDomainHost d (SubDomainHost s)]
  | None =>
      if SubDomain c =s? "" then [] else
      seq_check (guard (SubDomainHost s =s? "") SubDomainNotEnabled)
        (guard (ContainsByte (SubDomain c) "." || ContainsByte (SubDomain c) "*") SubDomainInvalid)
  end.

Definition ValidateProxyConfigurerForServer (c : configurer) (s : ServerConfig) : check :=
  seq_check (validateProxyBaseConfigForServer (GetBaseConfig c))
  match c with
  | TCPMuxProxyConfig _ d t =>
      seq_check (guard ((Multiplexer t =s? "httpconnect") && (TCPMuxHTTPConnectPort s =? 0)%Z) TCPMuxNotEnabled)
        (validateDomainConfigForServer d s)
  | HTTPProxyConfig _ d _ =>
      seq_check (guard (VhostHTTPPort s =? 0)%Z VhostHTTPNotEnabled) (validateDomainConfigForServer d s)
  | HTTPSProxyConfig _ d =>
      seq_check (guard (VhostHTTPSPort s =? 0)%Z VhostHTTPSNotEnabled) (validateDomainConfigForServer d s)
  | _ => []
  end.

Definition NewProxyConfigurerFromMsg (m : NewProxy) (s : ServerConfig) : result check configurer :=
  match configurer_of_msg parse_scaled plugin plugin_Complete m with
  | None => Err [UnknownProxyType (EmptyOr (np_ProxyType m) "tcp")]
  | Some c => match ValidateProxyConfigurerForServer c s with [] => Ok c | e => Err e end
  end.

(** *** The domains of a proxy, [BaseProxy.buildDomains] *)

Definition buildDomains (s : ServerConfig) (customDomains : list string) (subDomain : string) : list string :=
  filter (λ d, d ≠ "") customDomains ++
  (if subDomain =s? "" then [] else [subDomain +:+ "." +:+ SubDomainHost s]).

(** ** Properties *)

Lemma seq_check_nil c k : seq_check c k = [] ↔ c = [] ∧ k = [].
Proof. destruct c; simpl; naive_solver. Qed.

Lemma guard_nil b e : guard b e = [] ↔ b = false.
Proof. by destruct b. Qed.

Lemma domains_checked d s :
  validateDomainConfigForServer d s = [] →
  Forall (λ x, in_subdomain_host s x = false) (CustomDomains d) ∧
  (SubDomain d ≠ "" → SubDomainHost s ≠ "" ∧ ContainsByte (SubDomain d) "." = false ∧
     ContainsByte (SubDomain d) "*" = false).
Proof.
  unfold validateDomainConfigForServer. destruct (find_first _ _) eqn:Hf; [done|].
  apply find_first_None in Hf. intros Hs. split; [done|]. intros Hne.
  rewrite (proj2 (seqb_false (SubDomain d) "") Hne) in Hs.
  apply seq_check_nil in Hs as [H1%guard_nil H2%guard_nil]. by reflect_bools.
Qed.

Lemma Split_subdomain sub host :
  ContainsByte sub "." = false → Split "."%char (sub +:+ "." +:+ host) = sub :: Split "."%char host.
Proof. intros H. change ("." +:+ host) with (String "."%char host). by apply Split_sep. Qed.

Lemma ContainsByte_ToLower_dot s : ContainsByte (ToLower s) "." = ContainsByte s ".".
Proof.
  induction s as [|c s IH]; [done|]. simpl.
  assert (lower_ascii c = "."%char ↔ c = "."%char) as Hc
    by (destruct c as [[] [] [] [] [] [] [] []]; vm_compute; split; congruence).
  destruct (ascii_dec (lower_ascii c) "."), (ascii_dec c "."); naive_solver.
Qed.

(** Subdomains are isolated from custom domains: when both configurations pass the
    server's validation and the custom domains and the subdomain host are written in
    lower case, no custom domain of one proxy is served under the name of another
    proxy's subdomain. *)
Theorem subdomain_isolation s d1 d2 x :
  validateDomainConfigForServer d1 s = [] → validateDomainConfigForServer d2 s = [] →
  SubDomain d2 ≠ "" → x ∈ CustomDomains d1 → ToLower x = x → ToLower (SubDomainHost s) = SubDomainHost s →
  ∀ y, y ∈ buildDomains s [] (SubDomain d2) → ToLower x ≠ ToLower y.
Proof.
  intros [H1 _]%domains_checked [_ H2]%domains_checked Hsub Hx Hlow Hhost y Hy.
  destruct (H2 Hsub) as (Hh & Hdot & _). unfold buildDomains in Hy.
  rewrite (proj2 (seqb_false _ _) Hsub) in Hy. simpl in Hy. apply list_elem_of_singleton in Hy.
  assert (y = SubDomain d2 +:+ ("." +:+ SubDomainHost s)) as -> by exact Hy. clear Hy.
  rewrite Forall_forall in H1. specialize (H1 x Hx). intros Heq.
  rewrite Hlow, !ToLower_append, Hhost in Heq. change (ToLower ".") with "." in Heq.
  unfold in_subdomain_host in H1. rewrite (proj2 (seqb_false _ _) Hh) in H1. simpl in H1.
  apply andb_false_iff in H1 as [H1|H1].
  - rewrite Heq, Split_subdomain in H1 by (by rewrite ContainsByte_ToLower_dot).
    simpl in H1. apply Nat.ltb_ge in H1. lia.
  - apply not_true_iff_false in H1. apply H1, HasSuffix_spec. by exists (ToLower (SubDomain d2)).
Qed.

(** C27: every proxy the server accepts passed its validation: [NewProxyConfigurerFromMsg]
    returns a configuration of a known type (an empty type is tcp) that the server's
    checks accept, and an error otherwise; for the message of a completed client
    configuration it returns that configuration without its client-only parts. *)
Theorem NewProxyConfigurerFromMsg_spec m s :
  (∀ c, NewProxyConfigurerFromMsg m s = Ok c →
     type_name c = EmptyOr (np_ProxyType m) "tcp" ∧ Name (GetBaseConfig c) = np_ProxyName m ∧
     ValidateProxyConfigurerForServer c s = []) ∧
  (EmptyOr (np_ProxyType m) "tcp" ∉ ["tcp"; "udp"; "http"; "https"; "tcpmux"; "stcp"; "xtcp"; "sudp"] →
     NewProxyConfigurerFromMsg m s = Err [UnknownProxyType (np_ProxyType m)]) ∧
  (∀ c, m = MarshalToMsg c zero_NewProxy → Type_ (GetBaseConfig c) = type_name c →
     Complete plugin plugin_Complete c = c → bw_read parse_scaled (BandwidthLimit (Transport (GetBaseConfig c))) →
     NewProxyConfigurerFromMsg m s =
       match ValidateProxyConfigurerForServer (transmitted c) s with [] => Ok (transmitted c) | e => Err e end).
Proof.
  unfold NewProxyConfigurerFromMsg. split_and!.
  - intros c. destruct (configurer_of_msg _ _ _ m) as [c'|] eqn:Hc; [|done].
    destruct (ValidateProxyConfigurerForServer c' s) eqn:Hv; [|done]. intros [= <-].
    split_and!; [..|done]; revert Hc; unfold configurer_of_msg, NewProxyConfigurerByType;
      (repeat (case_match; [simplify_eq|]); try done; intros [= <-]; simpl; try done;
       match goal with H : (_ =s? _) = true |- _ => apply seqb_true in H; by rewrite H end).
  - intros Hni. unfold configurer_of_msg, NewProxyConfigurerByType.
    set (t := EmptyOr (np_ProxyType m) "tcp") in *.
    rewrite !not_elem_of_cons in Hni. destruct Hni as (? & ? & ? & ? & ? & ? & ? & ? & _).
    repeat (rewrite (proj2 (seqb_false t _)) by done). f_equal. f_equal.
    subst t. unfold EmptyOr in *. destruct (seqb_spec (np_ProxyType m) ""); [done|done].
  - intros c -> Hty Hcomp Hbw. rewrite configurer_roundtrip by done. done.
Qed.
End validation.

(** ** The check is case sensitive, the routes are not *)

Definition frps : ServerConfig := mkServerConfig "frp.com" 80 443 0.

(** A custom domain that spells the subdomain host in capitals passes the check that
    keeps custom domains out of the subdomain host, and takes the route of the subdomain:
    requests for it reach the custom domain's proxy and the subdomain's own proxy is
    refused. *)
Theorem subdomain_guard_case_bypass :
  validateDomainConfigForServer (mkDomains ["admin.FRP.com"] "") frps = [] ∧
  validateDomainConfigForServer (mkDomains ["admin.frp.com"] "") frps =
    [DomainInSubDomainHost "admin.frp.com" "frp.com"] ∧
  buildDomains frps [] "admin" = ["admin.frp.com"] ∧
  ∃ rs, Add "admin.FRP.com" "" "" 1%nat NewRouters = Ok rs ∧
    payload <$> Get rs "admin.frp.com" "/" "" = Some 1%nat ∧
    Add "admin.frp.com" "" "" 2%nat rs = Err ErrRouterConfigConflict.
Proof.
  split_and!; [reflexivity..|]. eexists. split_and!; [reflexivity|reflexivity|reflexivity].
Qed.

(** ** Witnesses *)

Lemma subdomain_isolation_witness :
  ToLower "web.example.com" ≠ ToLower "admin.frp.com".
Proof.
  apply (subdomain_isolation frps (mkDomains ["web.example.com"] "") (mkDomains [] "admin") "web.example.com");
    [reflexivity|reflexivity|discriminate|by left|reflexivity|reflexivity|by left].
Defined.

Lemma NewProxyConfigurerFromMsg_spec_witness :
  NewProxyConfigurerFromMsg (λ _, []) parse_ten unit (λ p, p) (MarshalToMsg web_conf zero_NewProxy) frps =
    Ok (transmitted web_conf).
Proof.
  destruct (NewProxyConfigurerFromMsg_spec (λ _, []) parse_ten unit (λ p, p)
    (MarshalToMsg web_conf zero_NewProxy) frps) as (_ & _ & H).
  rewrite (H web_conf); [reflexivity|done|done|done|]. right. reflexivity.
Defined.
