(* ===== verification/Auth.v ===== *)
(** Authentication of clients: [src/pkg/auth/token.go], [pass.go] and the interfaces
    [Setter] and [Verifier] of [auth.go], on the messages of [src/pkg/msg/msg.go] and
    [GetAuthKey] of [src/pkg/util/util/util.go]. *)
From Stdlib Require Import ZArith Lia Ascii String.
From stdpp Require Import base gmap strings list.
From S2P Require Import Prelude GoStrings.
Local Open Scope string_scope.
Local Open Scope list_scope.

(** ** Messages *)

Record ClientSpec := mkClientSpec { cs_Type : string; AlwaysAuthPass : bool }.

Record Login := mkLogin {
  l_Version : string; l_Hostname : string; l_Os : string; l_Arch : string; l_User : string;
  l_PrivilegeKey : string; l_Timestamp : Z; l_RunID : string; l_ClientID : string;
  l_Metas : gmap string string; l_ClientSpec : ClientSpec; l_PoolCount : Z }.

Record Ping := mkPing { p_PrivilegeKey : string; p_Timestamp : Z }.

Record NewWorkConn := mkNewWorkConn { w_RunID : string; w_PrivilegeKey : string; w_Timestamp : Z }.

Definition set_login_key (k : string) (m : Login) : Login :=
  mkLogin (l_Version m) (l_Hostname m) (l_Os m) (l_Arch m) (l_User m) k (l_Timestamp m) (l_RunID m)
    (l_ClientID m) (l_Metas m) (l_ClientSpec m) (l_PoolCount m).
Definition set_login_run (r : string) (m : Login) : Login :=
  mkLogin (l_Version m) (l_Hostname m) (l_Os m) (l_Arch m) (l_User m) (l_PrivilegeKey m)
    (l_Timestamp m) r (l_ClientID m) (l_Metas m) (l_ClientSpec m) (l_PoolCount m).

(** ** What the server asks of a verifier; the error is its message *)

Class Verifier (V : Type) := {
  VerifyLogin : V → Login → result string unit;
  VerifyPing : V → Ping → result string unit;
  VerifyNewWorkConn : V → NewWorkConn → result string unit }.

(** [alwaysPass]. *)
Variant alwaysPass := AlwaysPassVerifier.
#[export] Instance alwaysPass_Verifier : Verifier alwaysPass := {
  VerifyLogin _ _ := Ok tt; VerifyPing _ _ := Ok tt; VerifyNewWorkConn _ _ := Ok tt }.

Definition AuthScopeHeartBeats : string := "HeartBeats".
Definition AuthScopeNewWorkConns : string := "NewWorkConns".

Record TokenAuth := NewTokenAuth { additionalAuthScopes : list string; token : string }.

Section md5.
(** [hex.EncodeToString] of the MD5 sum of a string. *)
Variable md5_hex : string → string.

Definition GetAuthKey (token : string) (timestamp : Z) : string := md5_hex (token +:+ Itoa timestamp).

(** *** [TokenAuthSetterVerifier] as a setter; [now] is [time.Now().Unix()] *)

Definition SetLogin (a : TokenAuth) (m : Login) : Login :=
  set_login_key (GetAuthKey (token a) (l_Timestamp m)) m.

Definition SetPing (now : Z) (a : TokenAuth) (m : Ping) : Ping :=
  if contains (additionalAuthScopes a) AuthScopeHeartBeats
  then mkPing (GetAuthKey (token a) now) now else m.

Definition SetNewWorkConn (now : Z) (a : TokenAuth) (m : NewWorkConn) : NewWorkConn :=
  if contains (additionalAuthScopes a) AuthScopeNewWorkConns
  then mkNewWorkConn (w_RunID m) (GetAuthKey (token a) now) now else m.

(** *** ... and as a verifier *)

Definition check_key (a : TokenAuth) (ts : Z) (key err : string) : result string unit :=
  if GetAuthKey (token a) ts =s? key then Ok tt else Err err.

Definition token_VerifyLogin (a : TokenAuth) (m : Login) : result string unit :=
  check_key a (l_Timestamp m) (l_PrivilegeKey m) "token in login doesn't match token from configuration".

Definition token_VerifyPing (a : TokenAuth) (m : Ping) : result string unit :=
  if contains (additionalAuthScopes a) AuthScopeHeartBeats
  then check_key a (p_Timestamp m) (p_PrivilegeKey m)
         "token in heartbeat doesn't match token from configuration"
  else Ok tt.

Definition token_VerifyNewWorkConn (a : TokenAuth) (m : NewWorkConn) : result string unit :=
  if contains (additionalAuthScopes a) AuthScopeNewWorkConns
  then check_key a (w_Timestamp m) (w_PrivilegeKey m)
         "token in NewWorkConn doesn't match token from configuration"
  else Ok tt.

#[local] Instance token_Verifier : Verifier TokenAuth := {
  VerifyLogin := token_VerifyLogin; VerifyPing := token_VerifyPing;
  VerifyNewWorkConn := token_VerifyNewWorkConn }.

Lemma check_key_ok a ts key err :
  check_key a ts key err = Ok tt ↔ md5_hex (token a +:+ Itoa ts) = key.
Proof. unfold check_key, GetAuthKey. destruct (seqb_spec (md5_hex (token a +:+ Itoa ts)) key); naive_solver. Qed.

(** Token authentication is complete and sound: whatever a client with the server's
    token sets (with the same scopes), the server verifies; and where the hash has no
    collisions, the server verifies a client's login only if the tokens agree, and its
    pings and work connections only if the tokens agree or the scope is not configured. *)
Theorem token_auth_exact (server client : TokenAuth) now (m : Login) (p : Ping) (w : NewWorkConn) :
  additionalAuthScopes client = additionalAuthScopes server →
  (∀ x y, md5_hex x = md5_hex y → x = y) →
  (VerifyLogin server (SetLogin client m) = Ok tt ↔ token client = token server) ∧
  (token client = token server → VerifyPing server (SetPing now client p) = Ok tt ∧
     VerifyNewWorkConn server (SetNewWorkConn now client w) = Ok tt) ∧
  (contains (additionalAuthScopes server) AuthScopeHeartBeats = true →
     VerifyPing server (SetPing now client p) = Ok tt → token client = token server) ∧
  (contains (additionalAuthScopes server) AuthScopeNewWorkConns = true →
     VerifyNewWorkConn server (SetNewWorkConn now client w) = Ok tt → token client = token server).
Proof.
  intros Hs Hinj.
  assert (∀ ts, md5_hex (token server +:+ Itoa ts) = md5_hex (token client +:+ Itoa ts) ↔
                token client = token server) as Hkey.
  { intros ts. split; [|by intros ->]. intros H%Hinj. symmetry. revert H. apply append_inj_r. }
  cbn [VerifyLogin VerifyPing VerifyNewWorkConn token_Verifier].
  unfold token_VerifyLogin, token_VerifyPing, token_VerifyNewWorkConn, SetPing, SetNewWorkConn. rewrite Hs.
  split_and!.
  - rewrite check_key_ok. simpl. apply Hkey.
  - intros Ht. split; case_match; try done; rewrite check_key_ok; simpl; by apply Hkey.
  - intros ->. rewrite check_key_ok. simpl. apply Hkey.
  - intros ->. rewrite check_key_ok. simpl. apply Hkey.
Qed.
End md5.

(** The key hashes the token and the time with nothing in between. *)
Lemma auth_key_split_ambiguous (md5_hex : string → string) :
  GetAuthKey md5_hex "secret1" 5 = GetAuthKey md5_hex "secret" 15.
Proof. done. Qed.

Lemma token_auth_exact_witness :
  token_VerifyLogin (λ s, s) (NewTokenAuth [] "good")
    (SetLogin (λ s, s) (NewTokenAuth [] "bad")
       (mkLogin "" "" "" "" "" "" 7 "" "" ∅ (mkClientSpec "" false) 0)) ≠ Ok tt.
Proof.
  destruct (token_auth_exact (λ s, s) (NewTokenAuth [] "good") (NewTokenAuth [] "bad") 9
    (mkLogin "" "" "" "" "" "" 7 "" "" ∅ (mkClientSpec "" false) 0) (mkPing "" 0) (mkNewWorkConn "" "" 0)
    eq_refl (λ x y H, H)) as (H & _).
  intros Hv. apply H in Hv. discriminate Hv.
Defined.
