(* ===== verification/NetListener.v ===== *)
(** The listener through which parts of one process hand connections to each other,
    [src/pkg/util/net/listener.go]: visitors of a client, secret proxies of the server, the SSH
    gateway. *)
From Stdlib Require Import ZArith Lia Ascii String.
From stdpp Require Import base gmap strings list.
From S2P Require Import Prelude.
Local Open Scope list_scope.

Module InternalListener.
Section conn.
Context {Conn : Type}.

Record t := mk { acceptCh : list Conn; closed : bool }.
Definition New : t := mk [] false.
Definition cap : nat := 128.

(** What happens to a connection that is put: queued, closed because the queue is full, or
    given back with an error. *)
Inductive fate := Queued | ClosedFull | Refused.

Definition PutConn (c : Conn) (l : t) : fate * t :=
  if closed l then (Refused, l)
  else if decide (length (acceptCh l) < cap)%nat then (Queued, mk (acceptCh l ++ [c]) false)
  else (ClosedFull, l).

(** [Accept]: a connection, an error after the close, or waiting. *)
Inductive accepted := Got (c : Conn) | AcceptErr | AcceptWaits.
Definition Accept (l : t) : accepted * t :=
  match acceptCh l with
  | c :: q => (Got c, mk q (closed l))
  | [] => (if closed l then AcceptErr else AcceptWaits, l)
  end.

Definition Close (l : t) : t := mk (acceptCh l) true.

Inductive op := Put (c : Conn) | Take | Shut.
(** Connections queued, handed out and left, in order. *)
Definition step (x : list Conn * list Conn * t) (o : op) : list Conn * list Conn * t :=
  let '(inn, out, l) := x in
  match o with
  | Put c => let '(f, l) := PutConn c l in (match f with Queued => inn ++ [c] | _ => inn end, out, l)
  | Take => let '(a, l) := Accept l in (inn, match a with Got c => out ++ [c] | _ => out end, l)
  | Shut => (inn, out, Close l)
  end.

(** Connections come out in the order they went in, none is lost or doubled, and the queue
    never exceeds its capacity. *)
Lemma fifo ops :
  let '(inn, out, l) := foldl step ([], [], New) ops in inn = out ++ acceptCh l ∧ (length (acceptCh l) <= cap)%nat.
Proof.
  induction ops as [|o ops IH] using rev_ind; [simpl; split; [done|unfold cap; lia]|].
  rewrite foldl_app. destruct (foldl step _ ops) as [[inn out] l]. destruct IH as [IH Hc]. simpl.
  destruct o as [c| |]; simpl.
  - unfold PutConn. destruct (closed l); [done|]. case_decide; simpl; [|done].
    rewrite IH, app_assoc, length_app. simpl. split; [done|lia].
  - unfold Accept. destruct (acceptCh l) as [|c q] eqn:E; simpl in *; [rewrite E; by destruct (closed l)|].
    rewrite IH, <- app_assoc. simpl. split; [done|lia].
  - done.
Qed.
End conn.
End InternalListener.
