(* ===== verification/ServerProxy.v ===== *)
(** The proxies on the server, [src/server/proxy]: how the HTTP, TCP and UDP proxies
    take their resources in [Run] and give them back in [Close], the work connections
    of a session ([GetWorkConnFromPool], [RegisterWorkConn], [GetWorkConn] of
    [src/server/control.go]) and the visitor listeners of [src/server/visitor/visitor.go]. *)
From Stdlib Require Import ZArith Lia Ascii String.
From stdpp Require Import base gmap strings list sorting.
From S2P Require Import Prelude Auth GoStrings Ports Router Vhost HttpGroup ProxyConf Validation NetListener.
Local Open Scope string_scope.
Local Open Scope list_scope.

(** ** HTTP proxies, [http.go] *)

(** What a close function of the proxy undoes. *)
Inductive close_fn := CloseGroup (name group : string) | CloseRoute (rc : route).

(** The route of a domain and a location; [id] stands for the proxy's [GetRealConn]. *)
Definition http_route (id : nat) (h : HTTPFields) (dom loc : string) : route :=
  mkRouteConfig dom loc (HostHeaderRewrite h) (hf_HTTPUser h) (hf_HTTPPassword h)
    (RequestHeaders h) (hf_ResponseHeaders h) (hf_RouteByHTTPUser h) (Some (ProxyConn id)) None None.

Definition set_router (rs : Routers route) (c : HTTPGroupController) : HTTPGroupController :=
  mkController (hgroups c) (hheap c) (hnext c) rs.

(** One iteration of the inner loop; the group controller and the reverse proxy share
    the table of routes. *)
Definition http_listen (id : nat) (name group key : string) (rc : route) (c : HTTPGroupController)
    : result HTTPGroupError close_fn * HTTPGroupController :=
  if negb (group =s? "") then
    match ctl_Register 1 name group key rc c with
    | Some (Ok _, c) => (Ok (CloseGroup name group), c)
    | Some (Err e, c) => (Err e, c)
    | None => (Err errGroupStale, c)   (* the loop would go round again *)
    end
  else match rp_Register rc (vhostRouter c) with
       | Ok rs => (Ok (CloseRoute rc), set_router rs c)
       | Err e => (Err (ErrRoute e), c)
       end.

(** The loops over the routes to register: the close functions so far, in order. *)
Fixpoint http_loop (id : nat) (name group key : string) (rcs : list route)
    (fns : list close_fn) (c : HTTPGroupController)
    : result HTTPGroupError unit * list close_fn * HTTPGroupController :=
  match rcs with
  | [] => (Ok tt, fns, c)
  | rc :: rcs =>
      match http_listen id name group key rc c with
      | (Err e, c) => (Err e, fns, c)
      | (Ok f, c) => http_loop id name group key rcs (fns ++ [f]) c
      end
  end.

Definition run_close_fn (c : HTTPGroupController) (f : close_fn) : HTTPGroupController :=
  match f with
  | CloseGroup name group => ctl_UnRegister name group c
  | CloseRoute rc => set_router (rp_UnRegister rc (vhostRouter c)) c
  end.

(** [HTTPProxy.Close]: the close functions in the order they were added. *)
Definition http_Close (fns : list close_fn) (c : HTTPGroupController) : HTTPGroupController :=
  foldl run_close_fn c fns.

Definition http_routes (id : nat) (s : ServerConfig) (d : DomainConfig) (h : HTTPFields) : list route :=
  let locations := match Locations h with [] => [""] | ls => ls end in
  buildDomains s (CustomDomains d) (SubDomain d) ≫= λ dom,
    (λ loc, http_route id h dom loc) <$> locations.

(** [HTTPProxy.Run]: on an error the deferred [Close] runs. *)
Definition http_Run (id : nat) (name : string) (s : ServerConfig) (lb : LoadBalancerConfig)
    (d : DomainConfig) (h : HTTPFields) (c : HTTPGroupController)
    : result HTTPGroupError (list close_fn) * HTTPGroupController :=
  match http_loop id name (Group lb) (GroupKey lb) (http_routes id s d h) [] c with
  | (Ok _, fns, c) => (Ok fns, c)
  | (Err e, fns, c) => (Err e, http_Close fns c)
  end.

(** *** Without a group, [Run] is all or nothing and [Close] undoes it *)

(** The keys of the table a list of routes takes. *)
Definition route_key (rc : route) : string * string * string :=
  (ToLower (Domain rc), Location rc, RouteByHTTPUser rc).

Definition add_routes (rcs : list route) (t : Spec.table route) : Spec.table route :=
  foldl (λ t rc, <[route_key rc := rc]> t) t rcs.

Lemma add_routes_lookup_ne rcs t k : k ∉ route_key <$> rcs → add_routes rcs t !! k = t !! k.
Proof.
  revert t. induction rcs as [|rc rcs IH]; intros t Hk; [done|]. simpl in *.
  apply not_elem_of_cons in Hk as [Hne Hk]. rewrite IH by done. by rewrite lookup_insert_ne.
Qed.

(** Taking the routes away in any order restores the table. *)
Lemma close_routes rcs t c :
  refines (vhostRouter c) (add_routes rcs t) → NoDup (route_key <$> rcs) →
  Forall (λ rc, t !! route_key rc = None) rcs →
  refines (vhostRouter (http_Close (CloseRoute <$> rcs) c)) t.
Proof.
  revert t c. induction rcs as [|rc rcs IH]; intros t c Href Hnd Hfree; [done|].
  apply Forall_cons in Hfree as [Hf Hfree]. simpl in Hnd. apply NoDup_cons in Hnd as [Hni Hnd].
  simpl. apply IH; [|done|done].
  pose proof (refines_Del _ _ (Domain rc) (Location rc) (RouteByHTTPUser rc) Href) as Hdel.
  assert (Spec.del (Domain rc) (Location rc) (RouteByHTTPUser rc) (add_routes (rc :: rcs) t) =
    add_routes rcs t) as Heq; [|by rewrite <- Heq].
  apply map_eq. intros k. unfold Spec.del. fold (route_key rc). rewrite lookup_delete.
  case_decide as Hk; [subst k|].
  - by rewrite add_routes_lookup_ne, Hf.
  - simpl. clear IH Hdel Href Hnd Hfree Hf. revert t. 
    assert (∀ t1 t2, (∀ k', k' ≠ route_key rc → t1 !! k' = t2 !! k') →
      ∀ k', k' ≠ route_key rc → add_routes rcs t1 !! k' = add_routes rcs t2 !! k') as Hext.
    { clear Hni. induction rcs as [|rc' rcs IH]; intros t1 t2 Ht k' Hk'; [by apply Ht|].
      simpl. apply IH; [|done]. intros k'' Hk''. rewrite !lookup_insert. case_decide; [done|by apply Ht]. }
    intros t. apply Hext; [|done]. intros k' Hk'. by rewrite lookup_insert_ne.
Qed.

(** The loop without a group: routes added so far are free of conflicts and are exactly
    what the close functions name. *)
Lemma http_loop_routes id name key rcs done_ t c :
  refines (vhostRouter c) (add_routes done_ t) → NoDup (route_key <$> done_) →
  Forall (λ rc, t !! route_key rc = None) done_ →
  ∃ added, 
    (let '(r, fns, c') := http_loop id name "" key rcs (CloseRoute <$> done_) c in
     fns = CloseRoute <$> added ∧ refines (vhostRouter c') (add_routes added t) ∧
     hgroups c' = hgroups c ∧ hheap c' = hheap c ∧
     (is_ok r = true ↔ NoDup (route_key <$> (done_ ++ rcs)) ∧
        Forall (λ rc, t !! route_key rc = None) (done_ ++ rcs)) ∧
     (is_ok r = true → added = done_ ++ rcs)) ∧
    NoDup (route_key <$> added) ∧ Forall (λ rc, t !! route_key rc = None) added.
Proof.
  revert done_ c. induction rcs as [|rc rcs IH]; intros done_ c Href Hnd Hfree.
  { exists done_. simpl. rewrite app_nil_r. naive_solver. }
  simpl. unfold http_listen. cbn [negb]. rewrite seqb_refl. cbn [negb]. unfold rp_Register.
  pose proof (refines_Add _ _ (Domain rc) (Location rc) (RouteByHTTPUser rc) rc Href) as Hadd.
  unfold Spec.add in Hadd. fold (route_key rc) in Hadd.
  destruct (add_routes done_ t !! route_key rc) as [old|] eqn:Hold.
  - destruct (Add _ _ _ _ _) as [|[]] eqn:Ha; [done|]. exists done_. split_and!; try done.
    simpl. split; [done|]. intros [Hnd' Hfree'].
    rewrite fmap_app, NoDup_app in Hnd'. destruct Hnd' as (_ & Hdis & _).
    apply Forall_app in Hfree' as [_ [Hf _]%Forall_cons].
    destruct (decide (route_key rc ∈ route_key <$> done_)) as [Hin|Hni].
    + exfalso. apply (Hdis _ Hin). simpl. set_solver.
    + rewrite add_routes_lookup_ne in Hold by done. congruence.
  - destruct (Add _ _ _ _ _) as [rs|[]] eqn:Ha; [|done].
    assert (route_key rc ∉ route_key <$> done_ ∧ t !! route_key rc = None) as [Hni Hf].
    { destruct (decide (route_key rc ∈ route_key <$> done_)) as [Hin|Hni].
      - exfalso. clear -Hin Hold. revert t Hold. induction done_ as [|rc' l IH]; intros t Hold;
          [by apply not_elem_of_nil in Hin|].
        simpl in *. destruct (decide (route_key rc ∈ route_key <$> l)) as [Hl|Hl]; [by eapply IH|].
        apply elem_of_cons in Hin as [Heq|?]; [|done].
        rewrite add_routes_lookup_ne, Heq, lookup_insert_eq in Hold by done. done.
      - split; [done|]. by rewrite add_routes_lookup_ne in Hold. }
    destruct (IH (done_ ++ [rc]) (set_router rs c)) as (added & Hres & ? & ?).
    + unfold add_routes. rewrite foldl_app. exact Hadd.
    + rewrite fmap_app. apply NoDup_app. split_and!; [done| |apply NoDup_singleton].
      intros k Hk ->%list_elem_of_singleton. done.
    + apply Forall_app. split; [done|]. by constructor.
    + exists added. split; [|done]. rewrite fmap_app in Hres. simpl in Hres.
      destruct (http_loop _ _ _ _ _ _ _) as [[r fns] c'].
      rewrite <- app_assoc in Hres. simpl in Hres. exact Hres.
Qed.

(** An HTTP proxy without a group takes all its routes or none: [Run] succeeds
    exactly when the routes of its domains and locations are distinct and free in the
    table; then they are all registered and [Close] restores the table; a failed [Run]
    leaves the table as it was, whichever route failed. *)
Theorem http_run_all_or_nothing id name s key d h c t :
  refines (vhostRouter c) t →
  let rcs := http_routes id s d h in
  let '(r, c') := http_Run id name s (mkLoadBalancer "" key) d h c in
  (is_ok r = true ↔ NoDup (route_key <$> rcs) ∧ Forall (λ rc, t !! route_key rc = None) rcs) ∧
  match r with
  | Ok fns => refines (vhostRouter c') (add_routes rcs t) ∧
      refines (vhostRouter (http_Close fns c')) t
  | Err _ => refines (vhostRouter c') t
  end.
Proof.
  intros Href. cbv zeta. unfold http_Run. simpl Group. simpl GroupKey.
  destruct (http_loop_routes id name key (http_routes id s d h) [] t c) as (added & Hres & Hnd & Hfree);
    [done|constructor|constructor|]. simpl in Hres.
  destruct (http_loop _ _ _ _ _ _ _) as [[r fns] c']. destruct Hres as (-> & Hr & _ & _ & Hiff & Hall).
  destruct r as [u|e]; simpl in *.
  - rewrite <- Hall by done. split_and!; [naive_solver|done|by apply close_routes].
  - split; [done|]. by apply close_routes.
Qed.

(** ** TCP and UDP proxies, [tcp.go] and [udp.go] *)

Inductive port_run_error := RunAcquire (e : PortError) | RunListen.

(** [TCPProxy.Run] without a group, and [UDPProxy.Run]: acquire, then bind. *)
Definition port_Run (now : time) (net : nat → net_probe) (order : list Z) (bind : Z → bool)
    (name : string) (port : Z) (pm : Manager) : result port_run_error Z * Manager :=
  match Acquire now net order name port pm with
  | (Err e, pm) => (Err (RunAcquire e), pm)
  | (Ok realBindPort, pm) =>
      if bind realBindPort then (Ok realBindPort, pm)
      else (Err RunListen, Release now realBindPort pm)
  end.

(** [TCPProxy.Close], but for its listeners: the port of a group belongs to the group. *)
Definition tcp_Close (now : time) (group : string) (realBindPort : Z) (pm : Manager) : Manager :=
  if group =s? "" then Release now realBindPort pm else pm.

Record UDPProxy := mkUDPProxy { realBindPort : Z; isClosed : bool }.

(** [UDPProxy.Close]: guarded by [isClosed], but for the release of the port. *)
Definition udp_Close (now : time) (u : UDPProxy) (pm : Manager) : UDPProxy * Manager :=
  (mkUDPProxy (realBindPort u) true, Release now (realBindPort u) pm).

Lemma Release_frees now p pm :
  p ∈ dom (usedPorts pm) →
  p ∈ freePorts (Release now p pm) ∧ p ∉ dom (usedPorts (Release now p pm)).
Proof.
  intros [l Hl]%elem_of_dom. unfold Release. rewrite Hl. simpl. rewrite dom_delete_L. set_solver.
Qed.

(** The port of a TCP or UDP proxy: a failed [Run] leaves the used ports as they
    were, a successful one marks exactly its port used, and [Close] gives it back.
    (Port 0 is not configured, and the system refuses ports that are in use.) *)
Theorem port_run_close allowed now now' net order bind name port pm :
  Ports.wf allowed pm → 0%Z ∉ allowed → order ≡ₚ elements (freePorts pm) →
  (∀ i p, p ∈ dom (usedPorts pm) → isPortAvailable pm (net i) p = false) →
  let '(r, pm') := port_Run now net order bind name port pm in
  match r with
  | Ok p => p ∉ dom (usedPorts pm) ∧ dom (usedPorts pm') = {[p]} ∪ dom (usedPorts pm) ∧
      dom (usedPorts (tcp_Close now' "" p pm')) = dom (usedPorts pm) ∧
      dom (usedPorts (snd (udp_Close now' (mkUDPProxy p false) pm'))) = dom (usedPorts pm)
  | Err _ => dom (usedPorts pm') = dom (usedPorts pm)
  end.
Proof.
  intros Hwf H0 Hord Hos. unfold port_Run, tcp_Close.
  pose proof (Acquire_used allowed now net order name port pm) as Hacq.
  destruct (Acquire now net order name port pm) as [[p|e] pm'] eqn:Ha.
  - specialize (Hacq _ _ Hwf H0 Hord Hos eq_refl). simpl in Hacq. destruct Hacq as [Hni Hdom].
    assert (∀ now, dom (usedPorts (Release now p pm')) = dom (usedPorts pm)) as Hrel.
    { intros now0. rewrite Release_used, Hdom. set_solver. }
    destruct (bind p); [simpl; by split_and!|by apply Hrel].
  - specialize (Hacq _ _ Hwf H0 Hord Hos eq_refl). simpl in Hacq. by rewrite Hacq.
Qed.

(** [UDPProxy.Close] runs twice, once for the session and once when the goroutine
    that forwards user packets ends; the second call releases the port again although
    the proxy is closed.  If another proxy got the port in between, the port manager
    holds its port for free while it is in use, and the other proxy's own release does
    nothing any more. *)
Theorem udp_late_close_frees_port now1 now2 now3 net order bind nameA nameB port pm pmA pmB p :
  port_Run now1 net order bind nameA port pm = (Ok p, pmA) →
  let '(closedA, pmA') := udp_Close now2 (mkUDPProxy p false) pmA in
  port_Run now3 net order bind nameB p pmA' = (Ok p, pmB) →
  isClosed closedA = true ∧ p ∈ dom (usedPorts pmB) ∧
  let pm' := snd (udp_Close now3 closedA pmB) in
  p ∈ freePorts pm' ∧ p ∉ dom (usedPorts pm') ∧
  ∀ now4, snd (udp_Close now4 (mkUDPProxy p false) pm') = pm'.
Proof.
  intros _. simpl. intros HB. split; [done|].
  assert (p ∈ dom (usedPorts pmB)) as Hused.
  { unfold port_Run in HB. destruct (Acquire _ _ _ _ _ _) as [[q|e] pmq] eqn:Ha; [|done].
    destruct (bind q); [|done]. simplify_eq.
    pose proof (Acquire_outcome now3 net order nameB p (Release now2 p pmA)) as Hout.
    rewrite Ha in Hout. destruct Hout as [(q & i & Hs & _ & _ & Hr)|[e He]]; [|done]. simpl in *.
    assert (q = p) as -> by (destruct Hr as [Hr|(_ & _ & Hr)]; [by injection Hr|done]).
    subst pmB. simpl. rewrite dom_insert_L. set_solver. }
  split; [done|]. destruct (Release_frees now3 p pmB Hused) as [Hfree Hun]. split_and!; [done|done|].
  intros now4. cbn [udp_Close snd realBindPort]. set (pm' := Release now3 p pmB) in *.
  unfold Release. by rewrite (proj1 (not_elem_of_dom (usedPorts pm') p) Hun).
Qed.

(** ** Visitor listeners, [visitor.go] *)

(** A connection as a proxy gets it: [WrapReadWriteCloserToConn] over the encryption with a key
    and the compression that the visitor asked for. *)
Record wrapped (Conn : Type) := mkWrapped { wr_conn : Conn; wr_key : option string; wr_compressed : bool }.
Arguments mkWrapped {Conn} _ _ _.
Arguments wr_conn {Conn} _.
Arguments wr_key {Conn} _.
Arguments wr_compressed {Conn} _.

(** The listener is shared with the proxy, which accepts from it and closes it. *)
Record listenerBundle (Conn : Type) := mkBundle {
  ln : InternalListener.t (Conn := wrapped Conn); sk : string; allowUsers : list string }.
Arguments mkBundle {Conn} _ _ _.
Arguments ln {Conn} _.
Arguments sk {Conn} _.
Arguments allowUsers {Conn} _.
Abbreviation VisitorManager Conn := (gmap string (listenerBundle Conn)).

Inductive visitor_error :=
| ListenRepeated | NoListener | SignInvalid | UserNotAllowed | EncryptionFailed | ListenerClosed.

(** The test of [NewConn]: listed, or everybody by ["*"], or, when the proxy lists nobody, the
    proxy's own user. *)
Lemma users_admitted user users visitorUser :
  let l := match users with [] => [user] | _ => users end in
  negb (contains l visitorUser) && negb (contains l "*") = false ↔
  visitorUser ∈ users ∨ "*" ∈ users ∨ users = [] ∧ (visitorUser = user ∨ user = "*").
Proof. unfold contains. destruct users as [|x users]; [|set (us := x :: users)]; repeat case_bool_decide; simpl; set_solver. Qed.

Section visitors.
Context {Conn : Type}.
Implicit Types (vm : VisitorManager Conn).

Definition vm_Listen (name : string) (key : string) (users : list string) vm
    : result visitor_error (VisitorManager Conn) :=
  match vm !! name with
  | Some _ => Err ListenRepeated
  | None => Ok (<[name := mkBundle InternalListener.New key users]> vm)
  end.

Definition vm_CloseListener (name : string) vm : VisitorManager Conn := delete name vm.

(** The proxy's own operations on its listener: the accept loop, and [BaseProxy.Close]. *)
Definition set_ln (l : InternalListener.t) (b : listenerBundle Conn) : listenerBundle Conn := mkBundle l (sk b) (allowUsers b).
Definition ln_Accept (name : string) vm : VisitorManager Conn :=
  alter (λ b, set_ln (snd (InternalListener.Accept (ln b))) b) name vm.
Definition ln_Close (name : string) vm : VisitorManager Conn :=
  alter (λ b, set_ln (InternalListener.Close (ln b)) b) name vm.

(** [BaseProxy.startVisitorListener]: without allowed users only the proxy's own. *)
Definition startVisitorListener (name user secretKey : string) (users : list string) vm
    : result visitor_error (VisitorManager Conn) :=
  vm_Listen name secretKey (match users with [] => [user] | _ => users end) vm.

(** [hex.EncodeToString] of the MD5 sum of a string, as in [Auth]. *)
Variable md5_hex : string → string.
Abbreviation GetAuthKey := (Auth.GetAuthKey md5_hex).

(** [NewConn]; [enc_ok] is the outcome of [WithEncryption].  Without an error the result says
    whether the listener queued the connection or, being full, closed it. *)
Definition vm_NewConn (name : string) (conn : Conn) (timestamp : Z) (signKey : string)
    (useEncryption useCompression : bool) (visitorUser : string) (enc_ok : bool) vm
    : result visitor_error bool * VisitorManager Conn :=
  match vm !! name with
  | Some b =>
      if negb (GetAuthKey (sk b) timestamp =s? signKey) then (Err SignInvalid, vm)
      else if negb (contains (allowUsers b) visitorUser) && negb (contains (allowUsers b) "*")
      then (Err UserNotAllowed, vm)
      else if useEncryption && negb enc_ok then (Err EncryptionFailed, vm)
      else
        let c := mkWrapped conn (if useEncryption then Some (sk b) else None) useCompression in
        match InternalListener.PutConn c (ln b) with
        | (InternalListener.Queued, l) => (Ok true, <[name := set_ln l b]> vm)
        | (InternalListener.ClosedFull, l) => (Ok false, <[name := set_ln l b]> vm)
        | (InternalListener.Refused, l) => (Err ListenerClosed, <[name := set_ln l b]> vm)
        end
  | None => (Err NoListener, vm)
  end.

(** What other goroutines do to the manager while the proxy [name] is there: other proxies come
    and go, connections arrive for any proxy, proxies accept and close their listeners. *)
Inductive vm_step (name : string) : VisitorManager Conn → VisitorManager Conn → Prop :=
| vs_listen vm n key users vm' : vm_Listen n key users vm = Ok vm' → vm_step name vm vm'
| vs_gone vm n : n ≠ name → vm_step name vm (vm_CloseListener n vm)
| vs_conn vm n c t k e z u ok : vm_step name vm (snd (vm_NewConn n c t k e z u ok vm))
| vs_accept vm n : vm_step name vm (ln_Accept n vm)
| vs_shut vm n : vm_step name vm (ln_Close n vm).

(** None of this touches the key and the users of the proxy. *)
Lemma bundle_kept name vm vm' b :
  vm !! name = Some b → rtc (vm_step name) vm vm' →
  ∃ l, vm' !! name = Some (mkBundle l (sk b) (allowUsers b)).
Proof.
  intros Hb Hr. revert b Hb. induction Hr as [vm|vm vm1 vm2 Hs _ IH]; intros b Hb; [exists (ln b); by destruct b|].
  assert (∃ l, vm1 !! name = Some (mkBundle l (sk b) (allowUsers b))) as [l Hl]; [|by destruct (IH _ Hl) as [l' Hl']; exists l'].
  destruct Hs as [vm n key users vm' Hl|vm n Hne|vm n c t k e z u ok|vm n|vm n].
  - unfold vm_Listen in Hl. destruct (vm !! n) eqn:En; [done|]. injection Hl as <-.
    exists (ln b). rewrite lookup_insert_ne by congruence. by destruct b.
  - exists (ln b). unfold vm_CloseListener. rewrite lookup_delete_ne by done. by destruct b.
  - unfold vm_NewConn. destruct (vm !! n) as [b'|] eqn:En; [|exists (ln b); by destruct b].
    do 3 (case_match; [exists (ln b); by destruct b|]).
    assert (∀ l, ∃ l', <[n := set_ln l b']> vm !! name = Some (mkBundle l' (sk b) (allowUsers b))) as Hins.
    { intros l. rewrite lookup_insert. case_decide; [subst n; exists l; unfold set_ln; congruence|exists (ln b); by destruct b]. }
    destruct (InternalListener.PutConn _ _) as [[] l]; apply Hins.
  - unfold ln_Accept. rewrite lookup_alter. case_decide; [subst; rewrite Hb; simpl; by eexists|exists (ln b); by destruct b].
  - unfold ln_Close. rewrite lookup_alter. case_decide; [subst; rewrite Hb; simpl; by eexists|exists (ln b); by destruct b].
Qed.

(** What becomes of a connection whose key and user pass, and what of the others. *)
Lemma vm_NewConn_spec name conn t signKey e z u ok vm b :
  vm !! name = Some b →
  let adm := GetAuthKey (sk b) t = signKey ∧ negb (contains (allowUsers b) u) && negb (contains (allowUsers b) "*") = false in
  let '(r, vm') := vm_NewConn name conn t signKey e z u ok vm in
  (r = Ok true ↔ adm ∧ (e = true → ok = true) ∧ InternalListener.closed (ln b) = false ∧
     (length (InternalListener.acceptCh (ln b)) < InternalListener.cap)%nat) ∧
  (r = Ok false ↔ adm ∧ (e = true → ok = true) ∧ InternalListener.closed (ln b) = false ∧
     (InternalListener.cap <= length (InternalListener.acceptCh (ln b)))%nat) ∧
  (r = Err EncryptionFailed ↔ adm ∧ e = true ∧ ok = false) ∧
  (r = Err ListenerClosed ↔ adm ∧ (e = true → ok = true) ∧ InternalListener.closed (ln b) = true) ∧
  vm' = match r with
        | Ok true => <[name := mkBundle (InternalListener.mk (InternalListener.acceptCh (ln b) ++
               [mkWrapped conn (if e then Some (sk b) else None) z]) false) (sk b) (allowUsers b)]> vm
        | _ => vm
        end.
Proof.
  intros Hb adm. subst adm. unfold vm_NewConn. rewrite Hb.
  destruct (seqb_spec (GetAuthKey (sk b) t) signKey) as [Hs|Hs]; simpl; [|split_and!; try naive_solver].
  destruct (negb (contains (allowUsers b) u) && _) eqn:Hu; [split_and!; try naive_solver|].
  destruct (e && negb ok) eqn:He; [destruct e, ok; try done; split_and!; try naive_solver|].
  assert (e = true → ok = true) as He' by (destruct e, ok; done).
  assert (<[name := set_ln (ln b) b]> vm = vm) as Hid by (destruct b; by apply insert_id).
  unfold InternalListener.PutConn. destruct (InternalListener.closed (ln b)) eqn:Hc; [|case_decide as Hlen].
  - rewrite Hid. split_and!; try naive_solver.
  - split_and!; try naive_solver lia.
  - rewrite Hid. split_and!; try naive_solver lia.
Qed.
End visitors.

(** ** Work connections *)

Section work_conns.
Context {Conn : Type}.

(** [ctl.workConnCh]: a buffered channel. *)
Record pool := mkPool { conns : list Conn; cap : Z; pool_closed : bool }.

(** [NewControl]: the pool count and the channel; [None] is the panic of [make] with a
    negative size. *)
Definition new_pool (loginPoolCount MaxPoolCount : Z) : option (Z * pool) :=
  let poolCount := Z.min loginPoolCount MaxPoolCount in
  if (poolCount + 10 <? 0)%Z then None else Some (poolCount, mkPool [] (poolCount + 10) false).

Inductive register_result := Registered | PoolFull.

(** [RegisterWorkConn]: sending on the closed channel panics, the panic is recovered and
    the function returns nil. *)
Definition RegisterWorkConn (conn : Conn) (p : pool) : register_result * pool :=
  if pool_closed p then (Registered, p)
  else if (Z.of_nat (length (conns p)) <? cap p)%Z
  then (Registered, mkPool (conns p ++ [conn]) (cap p) false)
  else (PoolFull, p).

Inductive work_error := ErrCtlClosed | ErrSendFailed | ErrTimeout.

(** What arrives while [GetWorkConn] waits. *)
Inductive waited := Arrived (c : Conn) | ChannelClosed | TimedOut.

(** [GetWorkConn]: the first connection of the pool, or the one that arrives after a
    request to the client; [send_ok] is the outcome of sending the request. *)
Definition GetWorkConn (send_ok : bool) (w : waited) (p : pool) : result work_error Conn * pool :=
  match conns p with
  | c :: rest => (Ok c, mkPool rest (cap p) (pool_closed p))
  | [] =>
      if pool_closed p then (Err ErrCtlClosed, p)
      else if negb send_ok then (Err ErrSendFailed, p)
      else match w with
           | Arrived c => (Ok c, p)
           | ChannelClosed => (Err ErrCtlClosed, p)
           | TimedOut => (Err ErrTimeout, p)
           end
  end.

(** The outcome of [GetWorkConnFromPool]: a connection, an error, or neither. *)
Inductive from_pool := GotConn (c : Conn) | GotError | GotNothing.

(** The loop of [GetWorkConnFromPool]: [attempts] are the results of [getWorkConnFn] and
    whether [StartWorkConn] could be written; [failed] says that the last write failed. *)
Fixpoint from_pool_loop (n : nat) (attempts : nat → option (Conn * bool)) (i : nat) (failed : bool)
    : from_pool * nat :=
  match n with
  | 0 => (if failed then GotError else GotNothing, i)
  | S n =>
      match attempts i with
      | None => (GotError, S i)
      | Some (c, true) => (GotConn c, S i)
      | Some (_, false) => from_pool_loop n attempts (S i) true
      end
  end.

Definition GetWorkConnFromPool (poolCount : Z) (attempts : nat → option (Conn * bool)) : from_pool * nat :=
  from_pool_loop (Z.to_nat (poolCount + 1)) attempts 0 false.

Lemma from_pool_loop_spec n attempts i failed :
  (n ≠ 0 ∨ failed = true)%nat →
  match from_pool_loop n attempts i failed with
  | (GotNothing, _) => False
  | (GotConn c, k) => (i < k <= i + n)%nat ∧ attempts (k - 1)%nat = Some (c, true) ∧
      ∀ j, (i <= j < k - 1)%nat → ∃ c', attempts j = Some (c', false)
  | (GotError, k) => (k <= i + n)%nat ∧
      ((k = i + n)%nat ∨ attempts (k - 1)%nat = None) ∧
      ∀ j, (i <= j < k)%nat → (∀ c, attempts j ≠ Some (c, true))
  end.
Proof.
  revert i failed. induction n as [|n IH]; intros i failed Hn.
  - destruct failed; [|destruct Hn; done]. simpl. split_and!; [lia|left; lia|]. intros; lia.
  - simpl. destruct (attempts i) as [[c []]|] eqn:Ha.
    + replace (S i - 1)%nat with i by lia. split_and!; [lia..|done|]. intros; lia.
    + specialize (IH (S i) true (or_intror eq_refl)).
      destruct (from_pool_loop n attempts (S i) true) as [[c'| |] k]; [| |done].
      * destruct IH as (Hk & Hc & Hj). split_and!; [lia..|done|]. intros j Hj'.
        destruct (decide (j = i)) as [->|]; [by exists c|]. apply Hj. lia.
      * destruct IH as (Hk & Hc & Hj). split_and!; [lia|destruct Hc; [left; lia|by right]|].
        intros j Hj' c'. destruct (decide (j = i)) as [->|]; [congruence|]. apply Hj. lia.
    + replace (S i - 1)%nat with i by lia. split_and!; [lia|by right|]. intros j Hj c.
      assert (j = i) as -> by lia. congruence.
Qed.

(** With a pool count that is not negative, [GetWorkConnFromPool] takes at most one
    connection more than the pool count, returns the first one that accepts the start
    message, and otherwise an error; it never returns neither. *)
Theorem work_conn_from_pool poolCount attempts :
  (0 <= poolCount)%Z →
  match GetWorkConnFromPool poolCount attempts with
  | (GotNothing, _) => False
  | (GotConn c, k) => (0 < k)%nat ∧ (Z.of_nat k <= poolCount + 1)%Z ∧
      attempts (k - 1)%nat = Some (c, true) ∧
      ∀ j, (j < k - 1)%nat → ∃ c', attempts j = Some (c', false)
  | (GotError, k) => (Z.of_nat k <= poolCount + 1)%Z ∧
      (Z.of_nat k = (poolCount + 1)%Z ∨ attempts (k - 1)%nat = None)
  end.
Proof.
  intros Hp. unfold GetWorkConnFromPool.
  pose proof (from_pool_loop_spec (Z.to_nat (poolCount + 1)) attempts 0 false ltac:(lia)) as H.
  destruct (from_pool_loop _ _ _ _) as [[c| |] k]; [| |done].
  - destruct H as (? & ? & Hj). split_and!; [lia..|done|]. intros j Hlt. apply Hj. lia.
  - destruct H as (? & Hk & _). split; [lia|]. destruct Hk; [left; lia|by right].
Qed.

(** The pool count comes from the client's login and is not checked for being
    negative: below -10 creating the session panics, and with -1 a user connection gets
    neither a work connection nor an error, whatever the client offers. *)
Theorem negative_pool_count MaxPoolCount n :
  (0 <= MaxPoolCount)%Z → (n < 0)%Z →
  ((n < -10)%Z → new_pool n MaxPoolCount = None) ∧
  ((-10 <= n)%Z → ∃ p, new_pool n MaxPoolCount = Some (n, p) ∧
     ∀ attempts, GetWorkConnFromPool n attempts = (GotNothing, 0%nat)).
Proof.
  intros Hm Hn. unfold new_pool. rewrite Z.min_l by lia. split; intros H.
  - by rewrite (proj2 (Z.ltb_lt _ _)) by lia.
  - rewrite (proj2 (Z.ltb_ge _ _)) by lia. eexists. split; [done|].
    intros attempts. unfold GetWorkConnFromPool. by replace (Z.to_nat (n + 1)) with 0%nat by lia.
Qed.
End work_conns.

(** ** Witnesses *)

Definition site : DomainConfig := mkDomains ["web.example.com"; "www.example.com"] "".
Definition site_http : HTTPFields := mkHTTPFields ["/"; "/api"] "" "" "" ∅ ∅ "".

Lemma http_run_all_or_nothing_witness :
  is_ok (fst (http_Run 1 "web" frps (mkLoadBalancer "" "") site site_http (NewHTTPGroupController NewRouters)))
    = true.
Proof.
  pose proof (http_run_all_or_nothing 1 "web" frps "" site site_http (NewHTTPGroupController NewRouters) ∅
    refines_New) as H. cbv zeta in H.
  destruct (http_Run _ _ _ _ _ _ _) as [r c']. simpl. apply H. split; [decide_vm|].
  by repeat constructor.
Defined.

Definition pm_6000 : Manager := NewManager "udp" "" [mkPortsRange 0 0 6000].
Definition free_net (_ : nat) : net_probe := mkNet (λ _ _, true) (λ _ _, true) (λ _ _ _, true).

Lemma port_run_close_witness :
  dom (usedPorts (snd (port_Run 1 free_net [6000%Z] (λ _, false) "dns" 6000 pm_6000))) = ∅.
Proof.
  pose proof (port_run_close {[6000%Z]} 1 2 free_net [6000%Z] (λ _, false) "dns" 6000 pm_6000) as H.
  destruct (port_Run 1 free_net [6000%Z] (λ _, false) "dns" 6000 pm_6000) as [r pm'] eqn:E.
  vm_compute in E. destruct r as [|e]; [done|]. simpl. apply H; [|decide_vm|decide_vm|].
  - apply (NewManager_wf "udp" "" [mkPortsRange 0 0 6000]).
  - intros i p Hp. simpl in Hp. set_solver.
Defined.

Definition pm_A : Manager := snd (port_Run 1 free_net [6000%Z] (λ _, true) "dnsA" 6000 pm_6000).
Definition pm_B : Manager :=
  snd (port_Run 3 free_net [6000%Z] (λ _, true) "dnsB" 6000 (snd (udp_Close 2 (mkUDPProxy 6000 false) pm_A))).

Lemma udp_late_close_frees_port_witness :
  6000%Z ∈ freePorts (snd (udp_Close 3 (mkUDPProxy 6000 true) pm_B)).
Proof.
  pose proof (udp_late_close_frees_port 1 2 3 free_net [6000%Z] (λ _, true) "dnsA" "dnsB" 6000
    pm_6000 pm_A pm_B 6000) as H. simpl in H.
  apply H; [vm_compute; reflexivity|vm_compute; reflexivity].
Defined.

Lemma work_conn_from_pool_witness :
  fst (GetWorkConnFromPool 1 (λ i, Some (i, bool_decide (i = 1%nat)))) = GotConn 1%nat.
Proof.
  pose proof (work_conn_from_pool 1 (λ i, Some (i, bool_decide (i = 1%nat))) ltac:(lia)) as H.
  destruct (GetWorkConnFromPool _ _) as [r k] eqn:E. vm_compute in E.
  destruct r; [|done|done]. simpl. congruence.
Defined.

Lemma negative_pool_count_witness :
  new_pool (Conn:=nat) (-11) 5 = None ∧
  GetWorkConnFromPool (Conn:=nat) (-1) (λ i, Some (i, true)) = (GotNothing, 0%nat).
Proof.
  split.
  - apply (negative_pool_count 5 (-11)); lia.
  - destruct (negative_pool_count (Conn:=nat) 5 (-1) ltac:(lia) ltac:(lia)) as [_ H].
    destruct H as (p & _ & Hp); [lia|]. apply Hp.
Defined.
