(* ===== verification/Nathole.v ===== *)
(** Hole punching on the server, [src/pkg/nathole]: classification of NATs
    ([classify.go]), the behaviours recommended for a pair of NATs and their scores
    ([analysis.go]), and the sessions between visitors and clients ([controller.go]). *)
From Stdlib Require Import ZArith Lia Ascii String.
From stdpp Require Import base gmap strings list.
From S2P Require Import Prelude Auth GoStrings.
Local Open Scope string_scope.
Local Open Scope list_scope.

(** ** [net.SplitHostPort] *)

(** The position of the first, and of the last, byte [c]. *)
Fixpoint IndexByte (s : string) (c : ascii) : option nat :=
  match s with
  | "" => None
  | String a s' => if ascii_dec a c then Some 0%nat else S <$> IndexByte s' c
  end.

Fixpoint LastIndexByte (s : string) (c : ascii) : option nat :=
  match s with
  | "" => None
  | String a s' =>
      match LastIndexByte s' c with
      | Some i => Some (S i)
      | None => if ascii_dec a c then Some 0%nat else None
      end
  end.

Definition take_str (n : nat) (s : string) : string := String.substring 0 n s.
Definition drop_str (n : nat) (s : string) : string := String.substring n (String.length s - n) s.

Lemma take_drop_prefix p s : take_str (String.length p) (p +:+ s) = p ∧ drop_str (String.length p) (p +:+ s) = s.
Proof.
  unfold take_str, drop_str. split.
  - induction p as [|a p IH]; simpl; [by destruct s|]. by rewrite IH.
  - rewrite append_length, Nat.add_comm, Nat.add_sub. induction p as [|a p IH]; simpl; [|exact IH].
    induction s as [|b s IHs]; simpl; [done|]. by rewrite IHs.
Qed.

Definition SplitHostPort (hostport : string) : option (string * string) :=
  match LastIndexByte hostport ":" with
  | None => None
  | Some i =>
      match (if HasPrefix hostport "["
             then match IndexByte hostport "]" with
                  | None => None
                  | Some e => if decide (S e = i)
                              then Some (take_str (e - 1) (drop_str 1 hostport), 1%nat, S e)
                              else None
                  end
             else let host := take_str i hostport in
                  if ContainsByte host ":" then None else Some (host, 0%nat, 0%nat)) with
      | None => None
      | Some (host, j, k) =>
          if ContainsByte (drop_str j hostport) "[" || ContainsByte (drop_str k hostport) "]" then None
          else Some (host, drop_str (S i) hostport)
      end
  end.

Example SplitHostPort_v4 : SplitHostPort "1.2.3.4:80" = Some ("1.2.3.4", "80").
Proof. reflexivity. Qed.
Example SplitHostPort_v6 : SplitHostPort "[::1]:80" = Some ("::1", "80").
Proof. reflexivity. Qed.
Example SplitHostPort_no_port : SplitHostPort "1.2.3.4" = None ∧ SplitHostPort "::1:80" = None.
Proof. by split. Qed.

(** ** Classification *)

Inductive NatType_ := EasyNAT | HardNAT.
Inductive Behavior_ := BehaviorNoChange | BehaviorIPChanged | BehaviorPortChanged | BehaviorBothChanged.
#[global] Instance NatType_eq_dec : EqDecision NatType_.
Proof. solve_decision. Defined.
#[global] Instance Behavior_eq_dec : EqDecision Behavior_.
Proof. solve_decision. Defined.

Record NatFeature := mkNatFeature {
  NatType : NatType_;
  Behavior : Behavior_;
  PortsDifference : Z;
  RegularPortsChange : bool;
  PublicNetwork : bool }.

(** The variables of the loop. *)
Record scan := mkScan {
  sc_public : bool; ipChanged : bool; portChanged : bool;
  baseIP : string; basePort : string; portMax : Z; portMin : Z }.

Definition scan_addr (localIPs : list string) (st : scan) (addr : string) : option scan :=
  match SplitHostPort addr with
  | None => None
  | Some (ip, port) =>
      match ParseInt port with
      | Err _ => None
      | Ok portNum =>
          let pub := sc_public st || contains localIPs ip in
          if baseIP st =s? "" then
            Some (mkScan pub (ipChanged st) (portChanged st) ip port portNum portNum)
          else
            Some (mkScan pub (ipChanged st || negb (baseIP st =s? ip))
                    (portChanged st || negb (basePort st =s? port))
                    (baseIP st) (basePort st) (Z.max (portMax st) portNum) (Z.min (portMin st) portNum))
      end
  end.

Fixpoint scan_addrs (localIPs : list string) (st : scan) (addrs : list string) : option scan :=
  match addrs with
  | [] => Some st
  | a :: addrs => match scan_addr localIPs st a with None => None | Some st => scan_addrs localIPs st addrs end
  end.

Definition feature_of (st : scan) : NatFeature :=
  let '(ty, b) :=
    if ipChanged st && portChanged st then (HardNAT, BehaviorBothChanged)
    else if ipChanged st then (HardNAT, BehaviorIPChanged)
    else if portChanged st then (HardNAT, BehaviorPortChanged)
    else (EasyNAT, BehaviorNoChange) in
  if decide (b = BehaviorPortChanged) then
    let d := wrap64 (portMax st - portMin st) in
    mkNatFeature ty b d ((d <=? 5) && (1 <=? d))%Z (sc_public st)
  else mkNatFeature ty b 0 false (sc_public st).

Definition ClassifyNATFeature (addresses localIPs : list string) : option NatFeature :=
  if (length addresses <=? 1)%nat then None
  else feature_of <$> scan_addrs localIPs (mkScan false false false "" "" 0 0) addresses.

(** Easy NATs, hard NATs, and hard NATs whose ports change regularly. *)
Fixpoint ClassifyFeatureCount (fs : list NatFeature) : nat * nat * nat :=
  match fs with
  | [] => (0, 0, 0)%nat
  | f :: fs =>
      let '(easy, hard, reg) := ClassifyFeatureCount fs in
      match NatType f with
      | EasyNAT => (S easy, hard, reg)
      | HardNAT => (easy, S hard, if RegularPortsChange f then S reg else reg)
      end
  end.

(** ** Recommended behaviours *)

Record RecommandBehavior := mkRB {
  Role : string; TTL : Z; SendDelayMs : Z; PortsRangeNumber : Z;
  PortsRandomNumber : Z; ListenRandomPorts : Z }.

Definition sender (delay range random : Z) : RecommandBehavior := mkRB "sender" 0 delay range random 0.
Definition receiver (ttl range listen : Z) : RecommandBehavior := mkRB "receiver" ttl 0 range 0 listen.
Definition zero_behavior : RecommandBehavior := mkRB "" 0 0 0 0 0.

Definition mode0Behaviors : list (RecommandBehavior * RecommandBehavior) :=
  [(sender 0 0 0, receiver 7 0 0); (receiver 7 0 0, sender 0 0 0);
   (sender 0 0 0, receiver 4 0 0); (receiver 4 0 0, sender 0 0 0);
   (sender 0 0 0, receiver 0 0 0); (receiver 0 0 0, sender 0 0 0);
   (sender 5000 0 0, receiver 0 0 0); (sender 10000 0 0, receiver 0 0 0);
   (receiver 0 0 0, sender 5000 0 0); (receiver 0 0 0, sender 10000 0 0)].

Definition mode1Behaviors : list (RecommandBehavior * RecommandBehavior) :=
  [(sender 0 0 0, receiver 7 10 0); (sender 2000 0 0, receiver 7 10 0);
   (sender 0 0 0, receiver 4 10 0); (sender 2000 0 0, receiver 4 10 0);
   (sender 0 0 0, receiver 0 10 0); (sender 2000 0 0, receiver 0 10 0)].

Definition mode2Behaviors : list (RecommandBehavior * RecommandBehavior) :=
  [(sender 3000 0 1000, receiver 7 0 256); (sender 3000 0 1000, receiver 4 0 256);
   (sender 3000 0 1000, receiver 0 0 256)].

Definition mode3Behaviors : list (RecommandBehavior * RecommandBehavior) :=
  [(sender 0 10 0, receiver 7 10 0); (sender 0 10 0, receiver 4 10 0);
   (sender 0 10 0, receiver 0 10 0); (receiver 7 10 0, sender 0 10 0);
   (receiver 4 10 0, sender 0 10 0); (receiver 0 10 0, sender 0 10 0)].

Definition mode4Behaviors : list (RecommandBehavior * RecommandBehavior) :=
  [(sender 3000 0 1000, receiver 7 2 256); (sender 3000 0 1000, receiver 4 2 256);
   (sender 3000 0 1000, receiver 0 2 256)].

Definition getBehaviorByMode (mode : Z) : list (RecommandBehavior * RecommandBehavior) :=
  if (mode =? 0)%Z then mode0Behaviors
  else if (mode =? 1)%Z then mode1Behaviors
  else if (mode =? 2)%Z then mode2Behaviors
  else if (mode =? 3)%Z then mode3Behaviors
  else if (mode =? 4)%Z then mode4Behaviors
  else mode0Behaviors.

Definition getBehaviorByModeAndIndex (mode : Z) (index : nat) : RecommandBehavior * RecommandBehavior :=
  default (zero_behavior, zero_behavior) (getBehaviorByMode mode !! index).

Record BehaviorScore := mkScore { Mode : Z; Index : nat; Score : Z }.

Definition getBehaviorScoresByMode2 (mode senderScore receiverScore : Z) : list BehaviorScore :=
  imap (λ i b, mkScore mode i (if Role (fst b) =s? "sender" then senderScore else receiverScore))
    (getBehaviorByMode mode).

Definition getBehaviorScoresByMode (mode defaultScore : Z) : list BehaviorScore :=
  getBehaviorScoresByMode2 mode defaultScore defaultScore.

Record MakeHoleRecords := mkRecords { scores : list BehaviorScore; LastUpdateTime : time }.

Definition appendMode0 (c v : NatFeature) : list BehaviorScore :=
  if PublicNetwork c then getBehaviorScoresByMode2 0 0 1
  else if PublicNetwork v then getBehaviorScoresByMode2 0 1 0
  else getBehaviorScoresByMode 0 0.

Definition new_scores (c v : NatFeature) : list BehaviorScore :=
  match ClassifyFeatureCount [c; v] with
  | (2, _, _)%nat => appendMode0 c v
  | (_, 1, 1)%nat => getBehaviorScoresByMode 1 0 ++ getBehaviorScoresByMode 2 0 ++ appendMode0 c v
  | (_, 1, 0)%nat => getBehaviorScoresByMode 2 0 ++ getBehaviorScoresByMode 1 0 ++ appendMode0 c v
  | (_, 2, 2)%nat => getBehaviorScoresByMode 3 0 ++ getBehaviorScoresByMode 4 0
  | (_, 2, 1)%nat => getBehaviorScoresByMode 4 0
  | _ => getBehaviorScoresByMode 0 1 ++ getBehaviorScoresByMode 1 1 ++ getBehaviorScoresByMode 3 1
  end.

Definition NewMakeHoleRecords (now : time) (c v : NatFeature) : MakeHoleRecords :=
  mkRecords (new_scores c v) now.

(** [ReportSuccess]: the first score of that mode and index grows by 2, to 10 at most. *)
Fixpoint report_scores (mode : Z) (index : nat) (l : list BehaviorScore) : list BehaviorScore :=
  match l with
  | [] => []
  | s :: l =>
      if negb (Mode s =? mode)%Z || negb (Index s =? index)%nat
      then s :: report_scores mode index l
      else mkScore (Mode s) (Index s) (Z.min (Score s + 2) 10) :: l
  end.

Definition records_ReportSuccess (now : time) (mode : Z) (index : nat) (r : MakeHoleRecords)
    : MakeHoleRecords := mkRecords (report_scores mode index (scores r)) now.

(** [slices.MaxFunc]: the position of the first greatest score. *)
Fixpoint max_from (i best : nat) (bs : Z) (l : list BehaviorScore) : nat :=
  match l with
  | [] => best
  | s :: l => if (bs <? Score s)%Z then max_from (S i) i (Score s) l else max_from (S i) best bs l
  end.

Definition max_index (l : list BehaviorScore) : nat :=
  match l with [] => 0%nat | s :: l => max_from 1 0 (Score s) l end.

Definition dec_score (s : BehaviorScore) : BehaviorScore := mkScore (Mode s) (Index s) (Score s - 1).

Definition Recommand (now : time) (r : MakeHoleRecords) : (Z * nat) * MakeHoleRecords :=
  match scores r !! max_index (scores r) with
  | None => ((0%Z, 0%nat), r)
  | Some s => ((Mode s, Index s), mkRecords (alter dec_score (max_index (scores r)) (scores r)) now)
  end.

Record Analyzer := mkAnalyzer { records : gmap string MakeHoleRecords; dataReserveDuration : duration }.

Definition NewAnalyzer (d : duration) : Analyzer := mkAnalyzer ∅ d.

(** The last part of [GetRecommandBehaviors]: who plays which part. *)
Definition assign (mode : Z) (c v : NatFeature) (b : RecommandBehavior * RecommandBehavior)
    : RecommandBehavior * RecommandBehavior :=
  let swap := (snd b, fst b) in
  if (mode =? 1)%Z then (if decide (NatType c = EasyNAT) then swap else b)
  else if (mode =? 2)%Z then (if decide (NatType c = HardNAT) then swap else b)
  else if (mode =? 4)%Z then (if negb (RegularPortsChange c) then swap else b)
  else b.

Definition GetRecommandBehaviors (now : time) (key : string) (c v : NatFeature) (a : Analyzer)
    : (Z * nat * (RecommandBehavior * RecommandBehavior)) * Analyzer :=
  let r := match records a !! key with Some r => r | None => NewMakeHoleRecords now c v end in
  let '((mode, index), r) := Recommand now r in
  ((mode, index, assign mode c v (getBehaviorByModeAndIndex mode index)),
   mkAnalyzer (<[key := r]> (records a)) (dataReserveDuration a)).

Definition analyzer_ReportSuccess (now : time) (key : string) (mode : Z) (index : nat) (a : Analyzer)
    : Analyzer :=
  match records a !! key with
  | None => a
  | Some r => mkAnalyzer (<[key := records_ReportSuccess now mode index r]> (records a)) (dataReserveDuration a)
  end.

(** [Clean]: how many records were dropped, how many there were. *)
Definition analyzer_Clean (now : time) (a : Analyzer) : (nat * nat) * Analyzer :=
  let kept := filter (λ kr, (dataReserveDuration a <? time_sub now (LastUpdateTime (snd kr)))%Z = false)
                (records a) in
  (((size (records a) - size kept)%nat, size (records a)), mkAnalyzer kept (dataReserveDuration a)).

(** ** Properties of the classification *)

(** The addresses parse, with hosts that are not empty. *)
Definition parsed (addrs : list string) (ps : list (string * string * Z)) : Prop :=
  Forall2 (λ a '(ip, port, n), SplitHostPort a = Some (ip, port) ∧ ParseInt port = Ok n ∧ ip ≠ "") addrs ps.

Lemma scan_addrs_spec localIPs st addrs ps :
  parsed addrs ps → baseIP st ≠ "" →
  scan_addrs localIPs st addrs =
    Some (mkScan (sc_public st || existsb (λ p, contains localIPs (fst (fst p))) ps)
            (ipChanged st || existsb (λ p, negb (baseIP st =s? fst (fst p))) ps)
            (portChanged st || existsb (λ p, negb (basePort st =s? snd (fst p))) ps)
            (baseIP st) (basePort st)
            (foldl Z.max (portMax st) (snd <$> ps)) (foldl Z.min (portMin st) (snd <$> ps))).
Proof.
  intros Hp. revert st. induction Hp as [|a [[ip port] n] addrs ps (Hs & Hn & Hne) _ IH]; intros st Hb.
  { destruct st. simpl. by rewrite !orb_false_r. }
  simpl. unfold scan_addr. rewrite Hs, Hn, (proj2 (seqb_false _ _) Hb). rewrite IH by done. simpl.
  by rewrite !orb_assoc.
Qed.

(** Whether a field of the addresses differs from that of the first one. *)
Lemma differs_spec {A} (f : A → string) b (l : list A) :
  (existsb (λ p, negb (b =s? f p)) l = false ↔ ∀ p, p ∈ l → f p = b) ∧
  (existsb (λ p, negb (b =s? f p)) l = true ↔ ∃ p, p ∈ l ∧ f p ≠ b).
Proof.
  assert (existsb (λ p, negb (b =s? f p)) l = true ↔ ∃ p, p ∈ l ∧ f p ≠ b) as Ht.
  { rewrite existsb_exists. setoid_rewrite negb_true_iff. setoid_rewrite seqb_false.
    setoid_rewrite <- list_elem_of_In. naive_solver. }
  split; [|done]. rewrite <- not_true_iff_false, Ht. split; [|naive_solver].
  intros Hn p Hin. destruct (decide (f p = b)); [done|]. exfalso. eauto.
Qed.

Lemma public_spec localIPs (a : string * string * Z) ps :
  contains localIPs (fst (fst a)) || existsb (λ p, contains localIPs (fst (fst p))) ps = true ↔
  ∃ p, p ∈ a :: ps ∧ fst (fst p) ∈ localIPs.
Proof.
  unfold contains. rewrite orb_true_iff, bool_decide_eq_true, existsb_exists.
  setoid_rewrite bool_decide_eq_true. setoid_rewrite <- list_elem_of_In.
  setoid_rewrite elem_of_cons. split; [naive_solver|]. intros (p & [->|?] & ?); [by left|right; eauto].
Qed.

Lemma fold_bounds (lo hi : Z) l m :
  Forall (λ z, lo <= z <= hi)%Z (m :: l) →
  (lo <= foldl Z.max m l <= hi)%Z ∧ (lo <= foldl Z.min m l <= hi)%Z.
Proof.
  revert m. induction l as [|x l IH]; intros m [Hm Hl]%Forall_cons; [done|]. simpl.
  apply Forall_cons in Hl as [Hx Hl]. split; apply IH; constructor; try done; lia.
Qed.

(** The NAT of a host is easy exactly when all its mapped addresses agree; it is hard
    with the behaviour that names what changed, and its ports change regularly exactly
    when only ports changed and they lie within five of each other. *)
Theorem ClassifyNATFeature_spec addrs localIPs ip port n ps f :
  parsed addrs ((ip, port, n) :: ps) → ps ≠ [] →
  Forall (λ p, (0 <= snd p <= 65535)%Z) ((ip, port, n) :: ps) →
  ClassifyNATFeature addrs localIPs = Some f →
  (NatType f = EasyNAT ↔ ∀ p, p ∈ ps → fst (fst p) = ip ∧ snd (fst p) = port) ∧
  (Behavior f = BehaviorPortChanged ↔
     (∀ p, p ∈ ps → fst (fst p) = ip) ∧ ∃ p, p ∈ ps ∧ snd (fst p) ≠ port) ∧
  (RegularPortsChange f = true ↔ Behavior f = BehaviorPortChanged ∧
     1 <= foldl Z.max n (snd <$> ps) - foldl Z.min n (snd <$> ps) <= 5)%Z ∧
  (PublicNetwork f = true ↔ ∃ p, p ∈ (ip, port, n) :: ps ∧ fst (fst p) ∈ localIPs).
Proof.
  intros Hp Hne Hrange. apply Forall2_cons_inv_r in Hp as (a & addrs' & (Hs & Hn & Hip) & Hrest & ->).
  unfold ClassifyNATFeature.
  assert (length addrs' = length ps) as Hlen by (by eapply Forall2_length).
  assert (1 <= length ps)%nat as Hlen1 by (destruct ps; [done|simpl; lia]).
  assert ((length (a :: addrs') <=? 1)%nat = false) as -> by (apply Nat.leb_gt; simpl in *; lia).
  simpl. unfold scan_addr at 1. simpl. rewrite Hs, Hn.
  rewrite (scan_addrs_spec localIPs (mkScan (contains localIPs ip) false false ip port n n) addrs' ps Hrest Hip).
  cbn [fmap option_fmap option_map orb sc_public ipChanged portChanged baseIP basePort portMax portMin].
  intros [= <-]. destruct (differs_spec (λ p : string * string * Z, fst (fst p)) ip ps) as [Hic _].
  destruct (differs_spec (λ p : string * string * Z, snd (fst p)) port ps) as [Hpc Hpc'].
  pose proof (public_spec localIPs (ip, port, n) ps) as Hpub. cbn [fst] in Hpub.
  assert (∀ d, d = (foldl Z.max n (snd <$> ps) - foldl Z.min n (snd <$> ps))%Z → wrap64 d = d) as Hw.
  { intros d ->. apply wrap64_id. destruct (fold_bounds 0 65535 (snd <$> ps) n);
      [|unfold int64_min, int64_max; lia].
    apply Forall_cons in Hrange as [? ?]. constructor; [done|]. by apply Forall_fmap. }
  unfold feature_of. cbn [ipChanged portChanged portMax portMin sc_public].
  rewrite (Hw _ eq_refl), <- Hic, <- Hpub, <- Hpc'.
  assert ((∀ p, p ∈ ps → fst (fst p) = ip ∧ snd (fst p) = port) ↔
    (∀ p, p ∈ ps → fst (fst p) = ip) ∧ ∀ p, p ∈ ps → snd (fst p) = port) as -> by (clear; naive_solver).
  rewrite <- Hic, <- Hpc. clear.
  destruct (existsb _ ps), (existsb (λ p, negb (port =s? _)) ps); simpl;
    rewrite ?decide_False, ?decide_True by done; simpl;
    rewrite ?andb_true_iff, ?Z.leb_le; split_and!; naive_solver lia.
Qed.

(** ** Properties of the analyzer *)

(** What of a pair of features decides the modes to try: the NAT types and whether the
    ports change regularly.  Both are part of the analysis key. *)
Definition nat_class : Type := NatType_ * bool.
Definition class_of (f : NatFeature) : nat_class := (NatType f, RegularPortsChange f).

Definition hard (k : nat_class) : bool := match fst k with HardNAT => true | EasyNAT => false end.
Definition regular (k : nat_class) : bool := hard k && snd k.

(** The modes that make sense for a pair of NATs. *)
Definition modes_for (kc kv : nat_class) : list Z :=
  match hard kc, hard kv with
  | false, false => [0]%Z
  | true, true => if regular kc && regular kv then [3; 4]%Z
                  else if regular kc || regular kv then [4]%Z else [0; 1; 3]%Z
  | _, _ => [0; 1; 2]%Z
  end.

(** The scores name behaviours of those modes and are at most 10. *)
Definition scores_ok (kc kv : nat_class) (l : list BehaviorScore) : Prop :=
  l ≠ [] ∧ Forall (λ s, Mode s ∈ modes_for kc kv ∧ (Index s < length (getBehaviorByMode (Mode s)))%nat ∧
                        (Score s <= 10)%Z) l.

Lemma new_scores_ok c v : scores_ok (class_of c) (class_of v) (new_scores c v).
Proof.
  destruct c as [[] bc dc [] []], v as [[] bv dv [] []]; vm_compute;
    (split; [discriminate|]); repeat (apply Forall_cons; split); try apply Forall_nil; try done;
    (split; [repeat (first [left; reflexivity|right])|split; [lia|discriminate]]).
Qed.

Lemma report_scores_ok kc kv mode index l : scores_ok kc kv l → scores_ok kc kv (report_scores mode index l).
Proof.
  intros [Hne Hl]. split.
  - destruct l as [|s l]; [done|]. simpl. by case_match.
  - clear Hne. induction Hl as [|s l (? & ? & ?) Hl IH]; simpl; [constructor|]. case_match.
    + by constructor.
    + constructor; [|done]. simpl. split_and!; [done..|lia].
Qed.

Lemma max_from_bound i best bs l : (best < i)%nat → (max_from i best bs l < i + length l)%nat.
Proof.
  revert i best bs. induction l as [|s l IH]; intros i best bs Hb; simpl; [lia|].
  case_match.
  - specialize (IH (S i) i (Score s) ltac:(lia)). lia.
  - specialize (IH (S i) best bs ltac:(lia)). lia.
Qed.

Lemma max_index_lookup l : l ≠ [] → is_Some (l !! max_index l).
Proof.
  destruct l as [|s l]; [done|]. intros _. apply lookup_lt_is_Some_2. simpl.
  pose proof (max_from_bound 1 0 (Score s) l ltac:(lia)). lia.
Qed.

Lemma Recommand_ok now r kc kv :
  scores_ok kc kv (scores r) →
  let '((mode, index), r') := Recommand now r in
  mode ∈ modes_for kc kv ∧ (index < length (getBehaviorByMode mode))%nat ∧ scores_ok kc kv (scores r').
Proof.
  intros [Hne Hl]. unfold Recommand. destruct (max_index_lookup _ Hne) as [s Hs]. rewrite Hs.
  pose proof (Forall_lookup_1 _ _ _ _ Hl Hs) as (Hm & Hi & Hsc). split_and!; [done..|]. split; simpl.
  - intros E. apply Hne. apply length_zero_iff_nil. rewrite <- (length_alter dec_score _ (max_index (scores r))).
    by rewrite E.
  - apply Forall_alter; [done|]. intros x Hx (? & ? & ?). simpl. split_and!; [done..|lia].
Qed.

(** In every list of behaviours one side sends and the other receives. *)
Lemma behaviors_roles mode index :
  (index < length (getBehaviorByMode mode))%nat →
  let '(a, b) := getBehaviorByModeAndIndex mode index in
  (Role a = "sender" ∧ Role b = "receiver") ∨ (Role a = "receiver" ∧ Role b = "sender").
Proof.
  assert (∀ l : list (RecommandBehavior * RecommandBehavior),
    l ∈ [mode0Behaviors; mode1Behaviors; mode2Behaviors; mode3Behaviors; mode4Behaviors] →
    Forall (λ ab, (Role ab.1 = "sender" ∧ Role ab.2 = "receiver") ∨
                  (Role ab.1 = "receiver" ∧ Role ab.2 = "sender")) l) as Hall.
  { intros l Hl. repeat (apply elem_of_cons in Hl as [->|Hl]; [decide_vm|]). by apply not_elem_of_nil in Hl. }
  intros Hi. unfold getBehaviorByModeAndIndex. destruct (lookup_lt_is_Some_2 _ _ Hi) as [[a b] Hab].
  rewrite Hab. simpl.
  assert (getBehaviorByMode mode ∈ [mode0Behaviors; mode1Behaviors; mode2Behaviors; mode3Behaviors; mode4Behaviors])
    as Hin by (unfold getBehaviorByMode; repeat case_match; set_solver).
  exact (Forall_lookup_1 _ _ _ _ (Hall _ Hin) Hab).
Qed.

(** In the modes 1, 2 and 4 the first of the pair is the sender. *)
Lemma sender_first mode index :
  mode ∈ [1; 2; 4]%Z → (index < length (getBehaviorByMode mode))%nat →
  Role (fst (getBehaviorByModeAndIndex mode index)) = "sender" ∧
  Role (snd (getBehaviorByModeAndIndex mode index)) = "receiver".
Proof.
  intros Hm Hi. unfold getBehaviorByModeAndIndex.
  destruct (lookup_lt_is_Some_2 _ _ Hi) as [[a b] Hab]. rewrite Hab. simpl.
  assert (Forall (λ ab, Role ab.1 = "sender" ∧ Role ab.2 = "receiver") (getBehaviorByMode mode)) as Hall.
  { repeat (apply elem_of_cons in Hm as [->|Hm]; [decide_vm|]). by apply not_elem_of_nil in Hm. }
  exact (Forall_lookup_1 _ _ _ _ Hall Hab).
Qed.

Section analyzer.
(** The classes behind an analysis key, client first. *)
Variable classes : string → nat_class * nat_class.

Inductive astep : Analyzer → Analyzer → Prop :=
| as_recommand a now key c v :
    classes key = (class_of c, class_of v) → astep a (snd (GetRecommandBehaviors now key c v a))
| as_report a now key mode index : astep a (analyzer_ReportSuccess now key mode index a)
| as_clean a now : astep a (snd (analyzer_Clean now a)).

Definition analyzer_ok (a : Analyzer) : Prop :=
  ∀ key r, records a !! key = Some r → scores_ok (fst (classes key)) (snd (classes key)) (scores r).

Lemma recommand_inv now key c v a :
  analyzer_ok a → classes key = (class_of c, class_of v) →
  analyzer_ok (snd (GetRecommandBehaviors now key c v a)).
Proof.
  intros Ha Hcls. unfold GetRecommandBehaviors.
  set (r := match records a !! key with Some r => r | None => _ end).
  assert (scores_ok (class_of c) (class_of v) (scores r)) as Hr.
  { subst r. destruct (records a !! key) as [r|] eqn:Hk; [|apply new_scores_ok].
    specialize (Ha key r Hk). by rewrite Hcls in Ha. }
  pose proof (Recommand_ok now r _ _ Hr) as Hrec.
  destruct (Recommand now r) as [[mode index] r']. destruct Hrec as (_ & _ & Hr').
  intros key' q. simpl. rewrite lookup_insert. case_decide; [|apply Ha].
  intros [= <-]. subst key'. by rewrite Hcls.
Qed.

Lemma astep_inv a a' : analyzer_ok a → astep a a' → analyzer_ok a'.
Proof.
  intros Ha Hs. destruct Hs as [a now key c v Hc|a now key mode index|a now]; [by apply recommand_inv|..].
  - unfold analyzer_ReportSuccess. destruct (records a !! key) as [r|] eqn:Hk; [|done].
    intros key' q. simpl. rewrite lookup_insert. case_decide; [|apply Ha].
    intros [= <-]. subst key'. simpl. apply report_scores_ok. by apply Ha.
  - intros key r. simpl. rewrite map_lookup_filter_Some. intros [Hk _]. by apply Ha.
Qed.

Lemma arun_inv d a : rtc astep (NewAnalyzer d) a → analyzer_ok a.
Proof. apply (rtc_ind_r analyzer_ok); [done|]. intros x y _ Hxy Hx. by eapply astep_inv. Qed.

(** In every history of recommendations, reports and clean-ups, a recommendation has
    one sender and one receiver, its mode is one that fits the two NATs, and the parts
    are played by the right side: in mode 1 a single hard NAT sends, in mode 2 a hard NAT
    receives, in mode 4 a single side with regular ports sends. *)
Theorem recommand_roles d a now key c v :
  rtc astep (NewAnalyzer d) a → classes key = (class_of c, class_of v) →
  let '((mode, index, (bc, bv)), _) := GetRecommandBehaviors now key c v a in
  mode ∈ modes_for (class_of c) (class_of v) ∧
  ((Role bc = "sender" ∧ Role bv = "receiver") ∨ (Role bc = "receiver" ∧ Role bv = "sender")) ∧
  (mode = 1%Z → NatType c ≠ NatType v →
     (NatType c = HardNAT → Role bc = "sender") ∧ (NatType v = HardNAT → Role bv = "sender")) ∧
  (mode = 2%Z → (NatType c = HardNAT → Role bc = "receiver") ∧ (NatType v = HardNAT → Role bv = "receiver")) ∧
  (mode = 4%Z → RegularPortsChange c ≠ RegularPortsChange v →
     (RegularPortsChange c = true → Role bc = "sender") ∧ (RegularPortsChange v = true → Role bv = "sender")).
Proof.
  intros Ha%arun_inv Hcls. unfold GetRecommandBehaviors.
  set (r := match records a !! key with Some r => r | None => _ end).
  assert (scores_ok (class_of c) (class_of v) (scores r)) as Hr.
  { subst r. destruct (records a !! key) as [r|] eqn:Hk; [|apply new_scores_ok].
    specialize (Ha key r Hk). by rewrite Hcls in Ha. }
  pose proof (Recommand_ok now r _ _ Hr) as Hrec.
  destruct (Recommand now r) as [[mode index] r']. destruct Hrec as (Hmode & Hidx & _).
  pose proof (behaviors_roles mode index Hidx) as Hroles. pose proof (sender_first mode index) as Hfirst.
  destruct (getBehaviorByModeAndIndex mode index) as [b1 b2] eqn:Hb. simpl in Hfirst.
  destruct (assign mode c v (b1, b2)) as [bc bv] eqn:Has. unfold assign in Has. split; [done|].
  assert (mode = 2%Z → NatType c = HardNAT ∧ NatType v = HardNAT → False) as H2.
  { intros -> [E1 E2]. unfold modes_for, hard, class_of in Hmode. simpl in Hmode. rewrite E1, E2 in Hmode.
    repeat case_match; set_solver. }
  split_and!.
  - repeat case_match; simplify_eq/=; naive_solver.
  - intros -> Hd. destruct (Hfirst ltac:(set_solver) Hidx). simpl in Has.
    destruct (NatType c) eqn:E; simpl in Has; simplify_eq; (split; [|]; naive_solver).
  - intros ->. destruct (Hfirst ltac:(set_solver) Hidx). simpl in Has.
    destruct (NatType c) eqn:E; simpl in Has; simplify_eq; (split; [|]; naive_solver).
  - intros -> Hd. destruct (Hfirst ltac:(set_solver) Hidx). simpl in Has.
    destruct (RegularPortsChange c) eqn:E; simpl in Has; simplify_eq; (split; [|]; naive_solver).
Qed.
End analyzer.

(** *** What the comments promise and the scores do not keep *)

(** [n] recommendations in a row, none of them reported successful. *)
Fixpoint recommand_n (n : nat) (r : MakeHoleRecords) : MakeHoleRecords :=
  match n with 0%nat => r | S n => recommand_n n (snd (Recommand 0 r)) end.

Definition easy_public : NatFeature := mkNatFeature EasyNAT BehaviorNoChange 0 false true.
Definition easy_private : NatFeature := mkNatFeature EasyNAT BehaviorNoChange 0 false false.
Definition hard_regular : NatFeature := mkNatFeature HardNAT BehaviorPortChanged 2 true false.
Definition hard_random : NatFeature := mkNatFeature HardNAT BehaviorPortChanged 900 false false.

(** The scores, documented to lie between -10 and 10, have no lower bound: every
    recommendation lowers the chosen score, so a pair that never succeeds sinks below
    -10; and a side on a public network, documented to be always the receiver, is told
    to send once its receiving behaviours have been tried without success. *)
Theorem score_and_receiver_comments_fail :
  (∃ s, s ∈ scores (recommand_n 34 (NewMakeHoleRecords 0 hard_regular hard_random)) ∧ (Score s < -10)%Z) ∧
  (let r := recommand_n 5 (NewMakeHoleRecords 0 easy_public easy_private) in
   let '((mode, index), _) := Recommand 0 r in
   mode = 0%Z ∧ Role (fst (assign mode easy_public easy_private (getBehaviorByModeAndIndex mode index))) = "sender").
Proof.
  split.
  - exists (mkScore 4 0 (-12)). split; [vm_compute; by left|done].
  - by vm_compute.
Qed.

(** ** The controller *)

Record PortsRange := mkPortsRange { From : Z; To : Z }.

(** [getRangePorts]; additions of ports and differences are on 64-bit integers. *)
Definition getRangePorts (addrs : list string) (difference maxNumber : Z) : list PortsRange :=
  if (maxNumber <=? 0)%Z then [] else
  match last addrs with
  | None => []
  | Some addr =>
      match SplitHostPort addr with
      | None => []
      | Some (_, portStr) =>
          match ParseInt portStr with
          | Err _ => []
          | Ok port =>
              [mkPortsRange
                 (Z.max (Z.max (wrap64 (port - difference - 5)) (wrap64 (port - maxNumber))) 1)
                 (Z.min (Z.min (wrap64 (port + difference + 5)) (wrap64 (port + maxNumber))) 65535)]
          end
      end
  end.

(** The candidate ports sent to the peers are valid port numbers; when the last
    mapped address holds a valid port, the range contains it and spans at most
    [maxNumber] ports on each side. *)
Theorem getRangePorts_bounds addrs difference maxNumber :
  (∀ r, r ∈ getRangePorts addrs difference maxNumber → (1 <= From r)%Z ∧ (To r <= 65535)%Z) ∧
  (∀ addr host portStr port,
     last addrs = Some addr → SplitHostPort addr = Some (host, portStr) → ParseInt portStr = Ok port →
     (1 <= port <= 65535)%Z → (0 <= difference <= 65535)%Z → (0 < maxNumber <= 65535)%Z →
     ∃ r, getRangePorts addrs difference maxNumber = [r] ∧ (From r <= port <= To r)%Z ∧
       (port - maxNumber <= From r)%Z ∧ (To r <= port + maxNumber)%Z).
Proof.
  split.
  - intros r. unfold getRangePorts. repeat case_match; try (by intros ?%not_elem_of_nil).
    intros ->%list_elem_of_singleton. simpl. lia.
  - intros addr host portStr port Hl Hs Hp Hr Hd Hm. unfold getRangePorts.
    rewrite Hl, Hs, Hp, (proj2 (Z.leb_gt _ _)) by lia. eexists. split; [done|]. simpl.
    rewrite !wrap64_id by (unfold int64_min, int64_max; lia). lia.
Qed.

Record ClientCfg := mkClientCfg { cc_sk : string; cc_allowUsers : list string }.

Record NatHoleVisitor := mkVisitorMsg {
  nv_TransactionID : string; nv_ProxyName : string; PreCheck : bool; nv_Protocol : string;
  SignKey : string; Timestamp : Z; nv_MappedAddrs : list string; nv_AssistedAddrs : list string }.

Record NatHoleClient := mkClientMsg {
  nc_TransactionID : string; nc_Sid : string; nc_MappedAddrs : list string; nc_AssistedAddrs : list string }.

Record Session := mkSession {
  visitorMsg : NatHoleVisitor;
  clientMsg : option NatHoleClient;
  analysisKey : string;
  recommandMode : Z;
  recommandIndex : nat }.

Record Controller := mkController {
  clientCfgs : gmap string ClientCfg;
  sessions : gmap string Session;
  analyzer : Analyzer }.

Definition NewController (d : duration) : Controller := mkController ∅ ∅ (NewAnalyzer d).

Inductive nathole_error := ServerNotExist | UserNotAllowed | AuthFailed | ClassifyClient | ClassifyVisitor.

Definition ListenClient (name sk : string) (users : list string) (c : Controller) : option Controller :=
  match clientCfgs c !! name with
  | Some _ => None
  | None => Some (mkController (<[name := mkClientCfg sk users]> (clientCfgs c)) (sessions c) (analyzer c))
  end.

Definition CloseClient (name : string) (c : Controller) : Controller :=
  mkController (delete name (clientCfgs c)) (sessions c) (analyzer c).

Record DetectBehavior := mkDetect {
  d_Role : string; d_Mode : Z; d_TTL : Z; d_SendDelayMs : Z; ReadTimeoutMs : Z;
  CandidatePorts : list PortsRange; SendRandomPorts : Z; d_ListenRandomPorts : Z }.

Record NatHoleResp := mkResp {
  nr_TransactionID : string; nr_Sid : string; nr_Protocol : string;
  CandidateAddrs : list string; AssistedAddrs : list string; nr_Detect : DetectBehavior }.

(** [slices.Compact]: runs of equal elements become one. *)
Fixpoint Compact (l : list string) : list string :=
  match l with
  | x :: ((y :: _) as l') => if x =s? y then Compact l' else x :: Compact l'
  | _ => l
  end.

Definition parseIPs (addrs : list string) : list string :=
  omap (λ a, fst <$> SplitHostPort a) addrs.

Section controller.
(** [hex.EncodeToString] of the MD5 sum of a string, as in [Auth]. *)
Variable md5_hex : string → string.
Abbreviation GetAuthKey := (Auth.GetAuthKey md5_hex).

Definition nat_type_str (t : NatType_) : string := match t with EasyNAT => "EasyNAT" | HardNAT => "HardNAT" end.
Definition behavior_str (b : Behavior_) : string :=
  match b with
  | BehaviorNoChange => "BehaviorNoChange" | BehaviorIPChanged => "BehaviorIPChanged"
  | BehaviorPortChanged => "BehaviorPortChanged" | BehaviorBothChanged => "BehaviorBothChanged"
  end.

Definition feature_str (addrs : list string) (f : NatFeature) : string :=
  default "" (head (Compact (parseIPs addrs))) +:+ nat_type_str (NatType f) +:+
  behavior_str (Behavior f) +:+ (if RegularPortsChange f then "true" else "false").

Definition genAnalysisKey (vm : NatHoleVisitor) (cm : NatHoleClient) (vf cf : NatFeature) : string :=
  md5_hex (feature_str (nv_MappedAddrs vm) vf +:+ feature_str (nc_MappedAddrs cm) cf).

(** [HandleVisitor] with [PreCheck]: only an answer. *)
Definition HandleVisitor_precheck (m : NatHoleVisitor) (visitorUser : string) (c : Controller)
    : result nathole_error unit :=
  match clientCfgs c !! nv_ProxyName m with
  | None => Err ServerNotExist
  | Some cfg =>
      if negb (contains (cc_allowUsers cfg) visitorUser) && negb (contains (cc_allowUsers cfg) "*")
      then Err UserNotAllowed else Ok tt
  end.

(** [HandleVisitor] without [PreCheck], up to the wait for the client: the session is
    registered under [sid]. *)
Definition HandleVisitor_start (sid : string) (m : NatHoleVisitor) (c : Controller)
    : result nathole_error Controller :=
  match clientCfgs c !! nv_ProxyName m with
  | None => Err ServerNotExist
  | Some cfg =>
      if negb (SignKey m =s? GetAuthKey (cc_sk cfg) (Timestamp m)) then Err AuthFailed
      else Ok (mkController (clientCfgs c) (<[sid := mkSession m None "" 0 0]> (sessions c)) (analyzer c))
  end.

Inductive visitor_answer := Checked (r : result nathole_error unit) | Refused (e : nathole_error) | Pending.

Definition HandleVisitor (sid : string) (m : NatHoleVisitor) (visitorUser : string) (c : Controller)
    : visitor_answer * Controller :=
  if PreCheck m then (Checked (HandleVisitor_precheck m visitorUser c), c)
  else match HandleVisitor_start sid m c with
       | Err e => (Refused e, c)
       | Ok c => (Pending, c)
       end.

Definition HandleClient (m : NatHoleClient) (c : Controller) : Controller :=
  match sessions c !! nc_Sid m with
  | None => c
  | Some s =>
      mkController (clientCfgs c)
        (<[nc_Sid m := mkSession (visitorMsg s) (Some m) (analysisKey s) (recommandMode s) (recommandIndex s)]>
           (sessions c)) (analyzer c)
  end.

Definition HandleReport (now : time) (sid : string) (success : bool) (c : Controller) : Controller :=
  match sessions c !! sid with
  | None => c
  | Some s =>
      if success
      then mkController (clientCfgs c) (sessions c)
             (analyzer_ReportSuccess now (analysisKey s) (recommandMode s) (recommandIndex s) (analyzer c))
      else c
  end.

(** The response to one side: [b] its behaviour, [addrs] and [diff] of the other side. *)
Definition response (tid sid protocol : string) (mode : Z) (b : RecommandBehavior) (timeoutMs : Z)
    (mapped assisted : list string) (diff : Z) : NatHoleResp :=
  mkResp tid sid protocol (Compact mapped) (Compact assisted)
    (mkDetect (Role b) mode (TTL b) (SendDelayMs b) (timeoutMs - SendDelayMs b)
       (getRangePorts mapped diff (PortsRangeNumber b)) (PortsRandomNumber b) (ListenRandomPorts b)).

(** [analysis]: the responses to the visitor and to the client. *)
Definition analysis (now : time) (sid : string) (s : Session) (cm : NatHoleClient) (c : Controller)
    : result nathole_error (NatHoleResp * NatHoleResp) * Controller :=
  let vm := visitorMsg s in
  match ClassifyNATFeature (nc_MappedAddrs cm) (parseIPs (nc_AssistedAddrs cm)) with
  | None => (Err ClassifyClient, c)
  | Some cf =>
      match ClassifyNATFeature (nv_MappedAddrs vm) (parseIPs (nv_AssistedAddrs vm)) with
      | None => (Err ClassifyVisitor, c)
      | Some vf =>
          let key := genAnalysisKey vm cm vf cf in
          let '((mode, index, (bc, bv)), an) := GetRecommandBehaviors now key cf vf (analyzer c) in
          let timeoutMs := (Z.max (SendDelayMs bc) (SendDelayMs bv) + 5000)%Z in
          let timeoutMs :=
            if (0 <? ListenRandomPorts bc)%Z || (0 <? ListenRandomPorts bv)%Z
            then (timeoutMs + 30000)%Z else timeoutMs in
          (Ok (response (nv_TransactionID vm) sid (nv_Protocol vm) mode bv timeoutMs
                 (nc_MappedAddrs cm) (nc_AssistedAddrs cm) (PortsDifference cf),
               response (nc_TransactionID cm) sid (nv_Protocol vm) mode bc timeoutMs
                 (nv_MappedAddrs vm) (nv_AssistedAddrs vm) (PortsDifference vf)),
           mkController (clientCfgs c)
             (<[sid := mkSession vm (Some cm) key mode index]> (sessions c)) an)
      end
  end.

(** A session is opened for a visitor only with the proxy's secret: without
    [PreCheck] the visitor is refused unless the proxy listens and the signature is that
    of its secret key, and a refusal changes nothing. *)
Theorem HandleVisitor_auth sid m user c r c' :
  PreCheck m = false → HandleVisitor sid m user c = (r, c') →
  (r = Pending ↔ ∃ cfg, clientCfgs c !! nv_ProxyName m = Some cfg ∧
     SignKey m = GetAuthKey (cc_sk cfg) (Timestamp m)) ∧
  (r = Pending → sessions c' = <[sid := mkSession m None "" 0 0]> (sessions c)) ∧
  (r ≠ Pending → c' = c).
Proof.
  intros Hpre. unfold HandleVisitor, HandleVisitor_start. rewrite Hpre.
  destruct (clientCfgs c !! nv_ProxyName m) as [cfg|]; [|naive_solver].
  destruct (seqb_spec (SignKey m) (GetAuthKey (cc_sk cfg) (Timestamp m))); naive_solver.
Qed.

(** The list of allowed users is checked only for messages with [PreCheck]: a
    visitor that the check refuses gets its session by not asking for the check. *)
Theorem allow_users_only_prechecked sid m user c cfg :
  clientCfgs c !! nv_ProxyName m = Some cfg →
  SignKey m = GetAuthKey (cc_sk cfg) (Timestamp m) →
  user ∉ cc_allowUsers cfg → "*" ∉ cc_allowUsers cfg → PreCheck m = false →
  fst (HandleVisitor sid (mkVisitorMsg (nv_TransactionID m) (nv_ProxyName m) true (nv_Protocol m)
         (SignKey m) (Timestamp m) (nv_MappedAddrs m) (nv_AssistedAddrs m)) user c)
    = Checked (Err UserNotAllowed) ∧
  fst (HandleVisitor sid m user c) = Pending ∧ is_Some (sessions (snd (HandleVisitor sid m user c)) !! sid).
Proof.
  intros Hc Hs Hu Hstar Hpre. unfold HandleVisitor, HandleVisitor_precheck, HandleVisitor_start. simpl.
  rewrite Hpre, Hc, Hs, seqb_refl. simpl. unfold contains.
  rewrite !bool_decide_eq_false_2 by done. simpl. rewrite lookup_insert_eq. by split_and!.
Qed.
End controller.

(** ** Witnesses *)

Lemma ClassifyNATFeature_spec_witness :
  (NatType <$> ClassifyNATFeature ["1.2.3.4:5000"; "1.2.3.4:5002"] []) = Some HardNAT ∧
  (RegularPortsChange <$> ClassifyNATFeature ["1.2.3.4:5000"; "1.2.3.4:5002"] []) = Some true.
Proof.
  split; [by vm_compute|].
  destruct (ClassifyNATFeature ["1.2.3.4:5000"; "1.2.3.4:5002"] []) as [f|] eqn:E; [|by vm_compute in E].
  destruct (ClassifyNATFeature_spec ["1.2.3.4:5000"; "1.2.3.4:5002"] [] "1.2.3.4" "5000" 5000
    [("1.2.3.4", "5002", 5002%Z)] f) as (_ & _ & H & _); [by repeat constructor|done|decide_vm|done|].
  simpl. f_equal. apply H. split; [|vm_compute; by split]. vm_compute in E. by injection E as <-.
Defined.

Definition mixed (key : string) : nat_class * nat_class := (class_of hard_regular, class_of easy_private).

Lemma recommand_roles_witness :
  let '((mode, _, (bc, bv)), _) := GetRecommandBehaviors 0 "k" hard_regular easy_private (NewAnalyzer 0) in
  mode = 1%Z ∧ Role bc = "sender".
Proof.
  pose proof (recommand_roles mixed 0 (NewAnalyzer 0) 0 "k" hard_regular easy_private (rtc_refl _ _) eq_refl) as H.
  destruct (GetRecommandBehaviors 0 "k" hard_regular easy_private (NewAnalyzer 0)) as [[[mode index] [bc bv]] a] eqn:E.
  destruct H as (_ & _ & H1 & _). assert (mode = 1%Z) as -> by (vm_compute in E; congruence).
  split; [done|]. by apply H1.
Defined.

Lemma getRangePorts_bounds_witness :
  ∃ r, getRangePorts ["1.2.3.4:65534"] 3 10 = [r] ∧ (From r <= 65534 <= To r)%Z.
Proof.
  destruct (getRangePorts_bounds ["1.2.3.4:65534"] 3 10) as [_ H].
  destruct (H "1.2.3.4:65534" "1.2.3.4" "65534" 65534%Z) as (r & Hr & Hin & _); try done; try lia.
  by exists r.
Defined.

Definition p2p : Controller :=
  default (NewController 0) (ListenClient "p2p" "secret" ["alice"] (NewController 0)).
Definition p2p_visit : NatHoleVisitor := mkVisitorMsg "t" "p2p" false "quic" "secret7" 7 [] [].

Lemma HandleVisitor_auth_witness :
  fst (HandleVisitor (λ x, x) "sid" p2p_visit "alice" p2p) = Pending.
Proof.
  destruct (HandleVisitor (λ x, x) "sid" p2p_visit "alice" p2p) as [r c'] eqn:E. simpl.
  apply (HandleVisitor_auth (λ x, x) "sid" p2p_visit "alice" p2p r c' eq_refl E).
  exists (mkClientCfg "secret" ["alice"]). by vm_compute.
Defined.

Lemma allow_users_only_prechecked_witness :
  fst (HandleVisitor (λ x, x) "sid" p2p_visit "mallory" p2p) = Pending.
Proof.
  apply (allow_users_only_prechecked (λ x, x) "sid" p2p_visit "mallory" p2p (mkClientCfg "secret" ["alice"]));
    [by vm_compute|done|decide_vm|decide_vm|done].
Defined.
