(* ===== verification/Metrics.v ===== *)
(** Counters: [src/pkg/util/metric/counter.go] (32 bits), [date_counter.go] (one 64-bit
    count per day), and the statistics of the server, [src/pkg/metrics/mem/server.go]. *)
From Stdlib Require Import ZArith Lia.
From stdpp Require Import base gmap strings list.
From S2P Require Import Prelude.
Local Open Scope string_scope.
Local Open Scope list_scope.
Local Open Scope Z_scope.

(** ** [StandardCounter]: atomic additions on an int32 *)

Definition counter_Inc (n c : Z) : Z := wrap32 (c + n).
Definition counter_Dec (n c : Z) : Z := wrap32 (c + wrap32 (- n)).

(** ** [StandardDateCounter] *)

Definition Day : duration := 24 * Hour.

Record DateCounter := mkDateCounter { reserveDays : nat; counts : list Z; lastUpdateDate : time }.

Section date_counter.
(** Midnight of the local day a time lies in: [time.Date(y, m, d, 0, 0, 0, 0, loc)]. *)
Variable midnight : time → time.

Definition newStandardDateCounter (now : time) (n : nat) : DateCounter :=
  mkDateCounter n (replicate n 0) (midnight now).

Definition NewDateCounter (now : time) (reserve : Z) : DateCounter :=
  newStandardDateCounter now (Z.to_nat (if reserve <=? 0 then 1 else reserve)).

(** [int(now.Sub(lastUpdateDate).Hours() / 24)]: the quotient truncated towards zero. *)
Definition days_since (now : time) (c : DateCounter) : Z :=
  Z.quot (time_sub (midnight now) (lastUpdateDate c)) Day.

Definition rotate (now : time) (c : DateCounter) : DateCounter :=
  let days := days_since now c in
  let new :=
    if days <=? 0 then counts c
    else if Z.of_nat (reserveDays c) <=? days then replicate (reserveDays c) 0
    else replicate (Z.to_nat days) 0 ++ take (reserveDays c - Z.to_nat days) (counts c) in
  mkDateCounter (reserveDays c) new (midnight now).

Definition add_today (n : Z) (c : DateCounter) : DateCounter :=
  mkDateCounter (reserveDays c) (alter (λ x, wrap64 (x + n)) 0%nat (counts c)) (lastUpdateDate c).

Definition date_Inc (now : time) (n : Z) (c : DateCounter) : DateCounter := add_today n (rotate now c).
Definition date_Dec (now : time) (n : Z) (c : DateCounter) : DateCounter := add_today (- n) (rotate now c).

Definition TodayCount (now : time) (c : DateCounter) : option Z * DateCounter :=
  let c := rotate now c in (counts c !! 0%nat, c).

(** [make([]int64, lastdays)] panics ([None]) when [lastdays] is negative. *)
Definition GetLastDaysCount (now : time) (lastdays : Z) (c : DateCounter)
    : option (list Z) * DateCounter :=
  let n := Z.min lastdays (Z.of_nat (reserveDays c)) in
  if n <? 0 then (None, c)
  else let c := rotate now c in (Some (take (Z.to_nat n) (counts c)), c).

Definition date_Snapshot (now : time) (c : DateCounter) : DateCounter :=
  mkDateCounter (reserveDays c) (take (reserveDays c) (counts c)) (midnight now).

Definition date_Clear (c : DateCounter) : DateCounter :=
  mkDateCounter (reserveDays c) (replicate (reserveDays c) 0) (lastUpdateDate c).

(** *** The counts are the daily sums *)

(** What was added, with the number of the day it was added on. *)
Abbreviation history := (list (Z * Z)).
Definition daily (h : history) (d : Z) : Z :=
  foldr (λ x s, if fst x =? d then snd x + s else s) 0 h.

(** [c] holds the sums of the days [k], [k - 1], ... *)
Record holds (h : history) (k : Z) (c : DateCounter) : Prop := {
  h_counts : counts c = (λ i, wrap64 (daily h (k - Z.of_nat i))) <$> seq 0 (reserveDays c);
  h_date : lastUpdateDate c = k * Day;
  h_days : ∀ x, x ∈ h → fst x <= k }.

Lemma daily_none h k d : (∀ x, x ∈ h → fst x <= k) → k < d → daily h d = 0.
Proof.
  intros Hh Hd. induction h as [|x h IH]; [done|]. simpl.
  pose proof (Hh x ltac:(set_solver)). rewrite (proj2 (Z.eqb_neq _ _)) by lia.
  apply IH. intros; apply Hh; set_solver.
Qed.

Lemma days_since_exact now k k' h c :
  holds h k c → midnight now = k' * Day → k <= k' → (k' - k) * Day <= int64_max →
  days_since now c = k' - k.
Proof.
  intros Hc Hn Hk Hmax. unfold days_since. rewrite (h_date _ _ _ Hc), Hn.
  assert (0 < Day) as HD by (vm_compute; done).
  rewrite time_sub_small by (unfold int64_min, int64_max in *; nia).
  replace (k' * Day - k * Day) with ((k' - k) * Day) by lia. apply Z.quot_mul. lia.
Qed.

(** Moving on to day [k']. *)
Lemma rotate_holds h k k' now c :
  holds h k c → midnight now = k' * Day → k <= k' → (k' - k) * Day <= int64_max →
  holds h k' (rotate now c).
Proof.
  intros Hc Hn Hk Hmax. unfold rotate. rewrite (days_since_exact now k k' h c) by done.
  split; simpl; [|done|].
  - apply list_eq. intros i. rewrite list_lookup_fmap.
    destruct (decide (i < reserveDays c)%nat) as [Hi|Hi]; cycle 1.
    { rewrite (lookup_ge_None_2 (seq _ _)) by (rewrite length_seq; lia). simpl.
      apply lookup_ge_None_2. pose proof (f_equal length (h_counts _ _ _ Hc)) as Hl.
      rewrite length_fmap, length_seq in Hl.
      repeat case_match; rewrite ?length_app, ?length_replicate, ?length_take; lia. }
    rewrite lookup_seq_lt by done. simpl.
    destruct (Z.leb_spec (k' - k) 0) as [Hz|Hz].
    { assert (k' = k) as -> by lia. rewrite (h_counts _ _ _ Hc), list_lookup_fmap, lookup_seq_lt by done. done. }
    destruct (Z.leb_spec (Z.of_nat (reserveDays c)) (k' - k)) as [Hbig|Hsmall].
    { rewrite lookup_replicate_2 by done. f_equal.
      rewrite (daily_none h k) by (try apply Hc; lia). done. }
    destruct (decide (i < Z.to_nat (k' - k))%nat) as [Hlt|Hge].
    + rewrite lookup_app_l by (rewrite length_replicate; lia). rewrite lookup_replicate_2 by lia.
      f_equal. rewrite (daily_none h k) by (try apply Hc; lia). done.
    + rewrite lookup_app_r by (rewrite length_replicate; lia). rewrite length_replicate.
      rewrite lookup_take_lt by lia. rewrite (h_counts _ _ _ Hc), list_lookup_fmap, lookup_seq_lt by lia.
      simpl. do 3 f_equal. lia.
  - intros x Hx. pose proof (h_days _ _ _ Hc x Hx). lia.
Qed.

(** On the day of the last update nothing moves. *)
Lemma rotate_same now c :
  days_since now c = 0 → rotate now c = mkDateCounter (reserveDays c) (counts c) (midnight now).
Proof. intros H. unfold rotate. by rewrite H. Qed.

Lemma add_today_holds h k n c :
  holds h k c → holds ((k, n) :: h) k (add_today n c).
Proof.
  intros Hc. split; simpl; [|apply Hc|].
  - rewrite (h_counts _ _ _ Hc). apply list_eq. intros i.
    rewrite list_lookup_alter. case_decide as Hi.
    + subst i. destruct (reserveDays c) as [|m]; [done|]. cbn [seq fmap list_fmap lookup list_lookup option_fmap option_map].
      f_equal. replace (k - Z.of_nat 0) with k by lia. cbn [daily foldr fst snd]. rewrite Z.eqb_refl.
      unfold wrap64. rewrite wrap_add_l. f_equal. unfold daily. lia.
    + rewrite !list_lookup_fmap. destruct (seq 0 (reserveDays c) !! i) as [j|] eqn:Hj; [|done].
      apply lookup_seq in Hj as [-> _]. simpl. rewrite (proj2 (Z.eqb_neq _ _)) by lia. done.
  - intros x [->|Hx]%elem_of_cons; [simpl; lia|]. by apply (h_days _ _ _ Hc).
Qed.

(** An increment, a decrement, or only a read, at a time. *)
Inductive dop := DInc (now : time) (n : Z) | DDec (now : time) (n : Z) | DRead (now : time).
Definition dop_time (o : dop) : time := match o with DInc t _ | DDec t _ | DRead t => t end.
Definition run_dop (c : DateCounter) (o : dop) : DateCounter :=
  match o with
  | DInc t n => date_Inc t n c
  | DDec t n => date_Dec t n c
  | DRead t => snd (TodayCount t c)
  end.

(** The history of a run, newest first; [day_no] numbers the days. *)
Definition entry (day_no : time → Z) (o : dop) : history :=
  match o with DInc t n => [(day_no t, n)] | DDec t n => [(day_no t, - n)] | DRead _ => [] end.

(** Times go forward, from day [k] on, and stay in the range of a duration. *)
Fixpoint forward (day_no : time → Z) (k : Z) (ops : list dop) : Prop :=
  match ops with
  | [] => True
  | o :: ops => k <= day_no (dop_time o) ∧ (day_no (dop_time o) - k) * Day <= int64_max ∧
                forward day_no (day_no (dop_time o)) ops
  end.

Definition last_day (day_no : time → Z) (k : Z) (ops : list dop) : Z :=
  foldl (λ _ o, day_no (dop_time o)) k ops.

Lemma run_holds day_no ops h k c :
  (∀ t, midnight t = day_no t * Day) → holds h k c → forward day_no k ops →
  holds (rev (ops ≫= entry day_no) ++ h) (last_day day_no k ops) (foldl run_dop c ops).
Proof.
  intros Hm. revert h k c. induction ops as [|o ops IH]; intros h k c Hc Hf; [done|].
  simpl in Hf. destruct Hf as (Hk & Hmax & Hf).
  assert (holds (rev (entry day_no o) ++ h) (day_no (dop_time o)) (run_dop c o)) as Hc'.
  { destruct o as [t n|t n|t]; simpl in *; [apply add_today_holds..|]; by eapply rotate_holds. }
  specialize (IH _ _ _ Hc' Hf). simpl. rewrite rev_app_distr, <- app_assoc. exact IH.
Qed.

Lemma daily_app a b d : daily (a ++ b) d = daily a d + daily b d.
Proof. unfold daily. induction a as [|x a IH]; simpl; [lia|]. case_match; lia. Qed.

Lemma daily_rev h d : daily (rev h) d = daily h d.
Proof.
  induction h as [|x h IH]; [done|]. cbn [rev]. rewrite daily_app, IH.
  unfold daily. simpl. case_match; lia.
Qed.

Lemma run_reserve ops c : reserveDays (foldl run_dop c ops) = reserveDays c.
Proof. revert c. induction ops as [|o ops IH]; intros c; [done|]. simpl. rewrite IH. by destruct o. Qed.

Lemma new_holds day_no start reserve :
  midnight start = day_no start * Day → 0 < reserve →
  holds [] (day_no start) (NewDateCounter start reserve).
Proof.
  intros Hm Hr. unfold NewDateCounter. rewrite (proj2 (Z.leb_gt _ _)) by lia.
  split; simpl; [|done|intros x Hx; by apply not_elem_of_nil in Hx].
  apply replicate_as_elem_of. split; [by rewrite length_fmap, length_seq|].
  intros x (i & -> & _)%list_elem_of_fmap. done.
Qed.

(** Where every day has 24 hours, the counters are exact: after any sequence of
    increments, decrements and reads with times that go forward, the counts of the last
    days are, day by day, the sums of what was added on those days, at 64 bits. *)
Theorem date_counter_exact day_no start reserve ops now lastdays :
  (∀ t, midnight t = day_no t * Day) → 0 < reserve → 0 <= lastdays →
  forward day_no (day_no start) (ops ++ [DRead now]) →
  fst (GetLastDaysCount now lastdays (foldl run_dop (NewDateCounter start reserve) ops)) =
  Some ((λ i, wrap64 (daily (ops ≫= entry day_no) (day_no now - Z.of_nat i)))
    <$> seq 0 (Z.to_nat (Z.min lastdays reserve))).
Proof.
  intros Hm Hr Hld Hf.
  pose proof (run_holds day_no _ _ _ _ Hm (new_holds day_no start reserve (Hm start) Hr) Hf) as H.
  unfold last_day in H. rewrite !foldl_app, bind_app in H.
  cbn [foldl run_dop mbind list_bind entry dop_time TodayCount snd] in H. rewrite !app_nil_r in H.
  set (c := foldl run_dop (NewDateCounter start reserve) ops) in *.
  assert (reserveDays c = Z.to_nat reserve) as Hrc.
  { unfold c. rewrite run_reserve. unfold NewDateCounter. by rewrite (proj2 (Z.leb_gt _ _)) by lia. }
  unfold GetLastDaysCount. rewrite Hrc, Z2Nat.id by lia. rewrite (proj2 (Z.ltb_ge _ _)) by lia.
  cbn [fst]. f_equal. rewrite (h_counts _ _ _ H). cbn [rotate reserveDays]. rewrite Hrc.
  rewrite <- fmap_take, take_seq, Nat.min_l by lia. apply list_fmap_ext. intros i j _. by rewrite daily_rev.
Qed.

(** ** [serverMetrics] *)

Definition ReserveDays : Z := 7.

Record ProxyStatistics := mkProxyStatistics {
  ps_Name : string; ps_ProxyType : string; ps_User : string; ps_ClientID : string;
  ps_TrafficIn : DateCounter; ps_TrafficOut : DateCounter; ps_CurConns : Z;
  ps_LastStartTime : time; ps_LastCloseTime : time }.

Record ServerStatistics := mkServerStatistics {
  TotalTrafficIn : DateCounter; TotalTrafficOut : DateCounter; CurConns : Z;
  ClientCounts : Z; ProxyTypeCounts : gmap string Z;
  ProxyStats_ : gmap string ProxyStatistics }.

Definition newServerMetrics (now : time) : ServerStatistics :=
  mkServerStatistics (NewDateCounter now ReserveDays) (NewDateCounter now ReserveDays) 0 0 ∅ ∅.

(** The objects of [ProxyStatistics] are reached through the map only. *)
Definition upd_stats (f : ProxyStatistics → ProxyStatistics) (name : string)
    (m : ServerStatistics) : ServerStatistics :=
  mkServerStatistics (TotalTrafficIn m) (TotalTrafficOut m) (CurConns m) (ClientCounts m)
    (ProxyTypeCounts m) (alter f name (ProxyStats_ m)).

(** The condition on which [clearUselessInfo] deletes an entry. *)
Definition useless (now : time) (continuousOfflineDuration : duration) (p : ProxyStatistics) : bool :=
  negb (IsZero (ps_LastCloseTime p)) && (ps_LastStartTime p <? ps_LastCloseTime p) &&
  (continuousOfflineDuration <? time_sub now (ps_LastCloseTime p)).

Definition clearUselessInfo (now : time) (d : duration) (m : ServerStatistics)
    : (nat * nat) * ServerStatistics :=
  let all := ProxyStats_ m in
  let kept := filter (λ x, useless now d (snd x) = false) all in
  ((size all - size kept, size all)%nat,
   mkServerStatistics (TotalTrafficIn m) (TotalTrafficOut m) (CurConns m) (ClientCounts m)
     (ProxyTypeCounts m) kept).

Definition ClearOfflineProxies (now : time) (m : ServerStatistics) := clearUselessInfo now 0 m.

Definition sm_NewClient (m : ServerStatistics) : ServerStatistics :=
  mkServerStatistics (TotalTrafficIn m) (TotalTrafficOut m) (CurConns m)
    (counter_Inc 1 (ClientCounts m)) (ProxyTypeCounts m) (ProxyStats_ m).
Definition sm_CloseClient (m : ServerStatistics) : ServerStatistics :=
  mkServerStatistics (TotalTrafficIn m) (TotalTrafficOut m) (CurConns m)
    (counter_Dec 1 (ClientCounts m)) (ProxyTypeCounts m) (ProxyStats_ m).

Definition sm_NewProxy (now : time) (name proxyType user clientID : string)
    (m : ServerStatistics) : ServerStatistics :=
  let counter := default 0 (ProxyTypeCounts m !! proxyType) in
  let fresh := mkProxyStatistics name proxyType "" "" (NewDateCounter now ReserveDays)
                 (NewDateCounter now ReserveDays) 0 0 0 in
  let p := match ProxyStats_ m !! name with
           | Some p => if bool_decide (ps_ProxyType p = proxyType) then p else fresh
           | None => fresh
           end in
  mkServerStatistics (TotalTrafficIn m) (TotalTrafficOut m) (CurConns m) (ClientCounts m)
    (<[proxyType := counter_Inc 1 counter]> (ProxyTypeCounts m))
    (<[name := mkProxyStatistics (ps_Name p) (ps_ProxyType p) user clientID (ps_TrafficIn p)
                 (ps_TrafficOut p) (ps_CurConns p) now (ps_LastCloseTime p)]> (ProxyStats_ m)).

Definition closed_at (now : time) (p : ProxyStatistics) : ProxyStatistics :=
  mkProxyStatistics (ps_Name p) (ps_ProxyType p) (ps_User p) (ps_ClientID p) (ps_TrafficIn p)
    (ps_TrafficOut p) (ps_CurConns p) (ps_LastStartTime p) now.

Definition sm_CloseProxy (now : time) (name proxyType : string) (m : ServerStatistics) : ServerStatistics :=
  upd_stats (closed_at now) name
    (mkServerStatistics (TotalTrafficIn m) (TotalTrafficOut m) (CurConns m) (ClientCounts m)
       (alter (counter_Dec 1) proxyType (ProxyTypeCounts m)) (ProxyStats_ m)).

Definition conns_by (f : Z → Z) (p : ProxyStatistics) : ProxyStatistics :=
  mkProxyStatistics (ps_Name p) (ps_ProxyType p) (ps_User p) (ps_ClientID p) (ps_TrafficIn p)
    (ps_TrafficOut p) (f (ps_CurConns p)) (ps_LastStartTime p) (ps_LastCloseTime p).

Definition total_conns_by (f : Z → Z) (m : ServerStatistics) : ServerStatistics :=
  mkServerStatistics (TotalTrafficIn m) (TotalTrafficOut m) (f (CurConns m)) (ClientCounts m)
    (ProxyTypeCounts m) (ProxyStats_ m).

Definition OpenConnection (name : string) (m : ServerStatistics) : ServerStatistics :=
  upd_stats (conns_by (counter_Inc 1)) name (total_conns_by (counter_Inc 1) m).
Definition CloseConnection (name : string) (m : ServerStatistics) : ServerStatistics :=
  upd_stats (conns_by (counter_Dec 1)) name (total_conns_by (counter_Dec 1) m).

Definition AddTrafficIn (now : time) (name : string) (trafficBytes : Z) (m : ServerStatistics)
    : ServerStatistics :=
  upd_stats (λ p, mkProxyStatistics (ps_Name p) (ps_ProxyType p) (ps_User p) (ps_ClientID p)
               (date_Inc now trafficBytes (ps_TrafficIn p)) (ps_TrafficOut p) (ps_CurConns p)
               (ps_LastStartTime p) (ps_LastCloseTime p)) name
    (mkServerStatistics (date_Inc now trafficBytes (TotalTrafficIn m)) (TotalTrafficOut m)
       (CurConns m) (ClientCounts m) (ProxyTypeCounts m) (ProxyStats_ m)).

Definition AddTrafficOut (now : time) (name : string) (trafficBytes : Z) (m : ServerStatistics)
    : ServerStatistics :=
  upd_stats (λ p, mkProxyStatistics (ps_Name p) (ps_ProxyType p) (ps_User p) (ps_ClientID p)
               (ps_TrafficIn p) (date_Inc now trafficBytes (ps_TrafficOut p)) (ps_CurConns p)
               (ps_LastStartTime p) (ps_LastCloseTime p)) name
    (mkServerStatistics (TotalTrafficIn m) (date_Inc now trafficBytes (TotalTrafficOut m))
       (CurConns m) (ClientCounts m) (ProxyTypeCounts m) (ProxyStats_ m)).

(** *** Queries, which rotate the counters they read; [None] is a panic *)

Variable Format : time → string. (* [t.Format("01-02 15:04:05")] *)

Record ServerStats := mkServerStats {
  st_TotalTrafficIn : Z; st_TotalTrafficOut : Z; st_CurConns : Z; st_ClientCounts : Z;
  st_ProxyTypeCounts : gmap string Z }.

Definition GetServer (now : time) (m : ServerStatistics) : option ServerStats * ServerStatistics :=
  let '(tin, i) := TodayCount now (TotalTrafficIn m) in
  let '(tout, o) := TodayCount now (TotalTrafficOut m) in
  (i0 ← tin; o0 ← tout; Some (mkServerStats i0 o0 (CurConns m) (ClientCounts m) (ProxyTypeCounts m)),
   mkServerStatistics i o (CurConns m) (ClientCounts m) (ProxyTypeCounts m) (ProxyStats_ m)).

Record ProxyStats := mkProxyStats {
  px_Name : string; px_Type : string; px_User : string; px_ClientID : string;
  px_TodayTrafficIn : Z; px_TodayTrafficOut : Z; px_LastStartTime : string;
  px_LastCloseTime : string; px_CurConns : Z }.

Definition rotate_stats (now : time) (p : ProxyStatistics) : ProxyStatistics :=
  mkProxyStatistics (ps_Name p) (ps_ProxyType p) (ps_User p) (ps_ClientID p)
    (rotate now (ps_TrafficIn p)) (rotate now (ps_TrafficOut p)) (ps_CurConns p)
    (ps_LastStartTime p) (ps_LastCloseTime p).

Definition format_time (t : time) : string := if IsZero t then "" else Format t.

(** The answer; the caller keeps [rotate_stats now p] in the map. *)
Definition toProxyStats (now : time) (name : string) (p : ProxyStatistics) : option ProxyStats :=
  i ← fst (TodayCount now (ps_TrafficIn p)); o ← fst (TodayCount now (ps_TrafficOut p));
  Some (mkProxyStats name (ps_ProxyType p) (ps_User p) (ps_ClientID p) i o
          (format_time (ps_LastStartTime p)) (format_time (ps_LastCloseTime p)) (ps_CurConns p)).

(** The list is in the order of the iteration over the map, which Go leaves open. *)
Definition GetProxiesByType (now : time) (proxyType : string) (m : ServerStatistics)
    : list (option ProxyStats) * ServerStatistics :=
  let hit p := bool_decide (ps_ProxyType p = proxyType) in
  ((λ x, toProxyStats now (fst x) (snd x)) <$> filter (λ x, hit (snd x) = true) (map_to_list (ProxyStats_ m)),
   mkServerStatistics (TotalTrafficIn m) (TotalTrafficOut m) (CurConns m) (ClientCounts m)
     (ProxyTypeCounts m)
     ((λ p, if hit p then rotate_stats now p else p) <$> ProxyStats_ m)).

Definition GetProxiesByTypeAndName (now : time) (proxyType proxyName : string) (m : ServerStatistics)
    : option ProxyStats * ServerStatistics :=
  match ProxyStats_ m !! proxyName with
  | Some p => if bool_decide (ps_ProxyType p = proxyType)
              then (toProxyStats now proxyName p, upd_stats (rotate_stats now) proxyName m)
              else (None, m)
  | None => (None, m)
  end.

Definition GetProxyByName (now : time) (proxyName : string) (m : ServerStatistics)
    : option ProxyStats * ServerStatistics :=
  match ProxyStats_ m !! proxyName with
  | Some p => (toProxyStats now proxyName p, upd_stats (rotate_stats now) proxyName m)
  | None => (None, m)
  end.

Record ProxyTrafficInfo := mkProxyTrafficInfo {
  ti_Name : string; ti_TrafficIn : list Z; ti_TrafficOut : list Z }.

Definition GetProxyTraffic (now : time) (name : string) (m : ServerStatistics)
    : option ProxyTrafficInfo * ServerStatistics :=
  match ProxyStats_ m !! name with
  | Some p => (i ← fst (GetLastDaysCount now ReserveDays (ps_TrafficIn p));
               o ← fst (GetLastDaysCount now ReserveDays (ps_TrafficOut p));
               Some (mkProxyTrafficInfo name i o),
               upd_stats (rotate_stats now) name m)
  | None => (None, m)
  end.

(** *** The events the server reports, and the reads of the dashboard *)

Inductive mop :=
  | MNewClient | MCloseClient
  | MNewProxy (now : time) (name typ user id : string)
  | MCloseProxy (now : time) (name typ : string)
  | MOpen (name : string) | MCloseConn (name : string)
  | MIn (now : time) (name : string) (n : Z) | MOut (now : time) (name : string) (n : Z)
  | MGetServer (now : time) | MGetTraffic (now : time) (name : string)
  | MGetByType (now : time) (typ : string)
  | MClear (now : time) (d : duration).

Definition run_mop (m : ServerStatistics) (o : mop) : ServerStatistics :=
  match o with
  | MNewClient => sm_NewClient m
  | MCloseClient => sm_CloseClient m
  | MNewProxy now name typ user id => sm_NewProxy now name typ user id m
  | MCloseProxy now name typ => sm_CloseProxy now name typ m
  | MOpen name => OpenConnection name m
  | MCloseConn name => CloseConnection name m
  | MIn now name n => AddTrafficIn now name n m
  | MOut now name n => AddTrafficOut now name n m
  | MGetServer now => snd (GetServer now m)
  | MGetTraffic now name => snd (GetProxyTraffic now name m)
  | MGetByType now typ => snd (GetProxiesByType now typ m)
  | MClear now d => snd (clearUselessInfo now d m)
  end.

(** What one event adds to a gauge. *)
Definition d_clients (o : mop) : Z :=
  match o with MNewClient => 1 | MCloseClient => -1 | _ => 0 end.
Definition d_conns (o : mop) : Z :=
  match o with MOpen _ => 1 | MCloseConn _ => -1 | _ => 0 end.
Definition d_conns_of (name : string) (o : mop) : Z :=
  match o with
  | MOpen n => if bool_decide (n = name) then 1 else 0
  | MCloseConn n => if bool_decide (n = name) then -1 else 0
  | _ => 0
  end.
Definition d_type (typ : string) (o : mop) : Z :=
  match o with
  | MNewProxy _ _ t _ _ => if bool_decide (t = typ) then 1 else 0
  | MCloseProxy _ _ t => if bool_decide (t = typ) then -1 else 0
  | _ => 0
  end.
Definition total (d : mop → Z) (ops : list mop) : Z := foldr (λ o s, d o + s) 0 ops.

Lemma total_snoc d ops o : total d (ops ++ [o]) = total d ops + d o.
Proof. unfold total. induction ops as [|x ops IH]; simpl; lia. Qed.

(** Proxies of a type are closed after they were started. *)
Definition type_balanced (typ : string) (ops : list mop) : Prop :=
  ∀ pre o post, ops = pre ++ o :: post → 0 <= total (d_type typ) (pre ++ [o]).

Lemma type_balanced_snoc typ ops o :
  type_balanced typ (ops ++ [o]) → type_balanced typ ops ∧ 0 <= total (d_type typ) (ops ++ [o]).
Proof.
  intros H. split; [|by apply (H ops o [])].
  intros pre x post ->. apply (H pre x (post ++ [o])). by rewrite <- app_assoc.
Qed.

Lemma counter_Inc_wrap z : counter_Inc 1 (wrap32 z) = wrap32 (z + 1).
Proof. apply wrap_add_l. Qed.
Lemma counter_Dec_wrap z : counter_Dec 1 (wrap32 z) = wrap32 (z + -1).
Proof. unfold counter_Dec, wrap32. by rewrite wrap_add_r, wrap_add_l. Qed.

(** The state of the counter of a type. *)
Definition type_count (typ : string) (ops : list mop) (m : ServerStatistics) : Prop :=
  match ProxyTypeCounts m !! typ with
  | Some c => c = wrap32 (total (d_type typ) ops)
  | None => total (d_type typ) ops = 0
  end.

Lemma type_count_run typ start ops :
  type_balanced typ ops → type_count typ ops (foldl run_mop (newServerMetrics start) ops).
Proof.
  induction ops as [|o ops IH] using rev_ind; intros Hb; [done|].
  apply type_balanced_snoc in Hb as [Hb Hnow]. specialize (IH Hb).
  rewrite foldl_app. cbn [foldl]. set (m := foldl _ _ ops) in *. clearbody m.
  unfold type_count in *. rewrite total_snoc in *.
  assert (∀ z, z = 0 → 0 = wrap32 z) as Hz by by intros z ->.
  destruct o; cbn -[GetProxyTraffic] in *; rewrite ?Z.add_0_r; try done.
  - case_bool_decide as Ht.
    + subst. rewrite lookup_insert_eq. rewrite <- counter_Inc_wrap. f_equal.
      destruct (_ !! typ) eqn:E; simpl; [done|auto].
    + by rewrite lookup_insert_ne, Z.add_0_r by done.
  - case_bool_decide as Ht.
    + subst. rewrite lookup_alter_eq. destruct (_ !! typ) eqn:E; simpl; [|lia].
      rewrite IH. apply counter_Dec_wrap.
    + by rewrite lookup_alter_ne, Z.add_0_r by done.
  - unfold GetProxyTraffic. by destruct (ProxyStats_ m !! name).
Qed.

Lemma gauges_run start ops :
  let m := foldl run_mop (newServerMetrics start) ops in
  ClientCounts m = wrap32 (total d_clients ops) ∧ CurConns m = wrap32 (total d_conns ops).
Proof.
  induction ops as [|o ops IH] using rev_ind; [done|].
  rewrite foldl_app. cbn [foldl]. cbv zeta in *. set (m := foldl _ _ ops) in *. clearbody m.
  destruct IH as [IH1 IH2]. rewrite !total_snoc.
  destruct o; cbn -[GetProxyTraffic]; rewrite ?Z.add_0_r, ?IH1, ?IH2, ?counter_Inc_wrap, ?counter_Dec_wrap;
    auto.
  unfold GetProxyTraffic. by destruct (ProxyStats_ m !! name).
Qed.

(** *** The statistics of one proxy *)

(** The proxy keeps its type and its entry is not cleared. *)
Definition steady (name typ : string) (o : mop) : bool :=
  match o with
  | MNewProxy _ n t _ _ => bool_decide (n = name → t = typ)
  | MClear _ _ => false
  | _ => true
  end.

(** The operations on its two traffic counters. *)
Definition reads_of (name typ : string) (o : mop) : list dop :=
  match o with
  | MGetTraffic t n => if bool_decide (n = name) then [DRead t] else []
  | MGetByType t ty => if bool_decide (ty = typ) then [DRead t] else []
  | _ => []
  end.
Definition in_of (name typ : string) (o : mop) : list dop :=
  match o with
  | MIn t n k => if bool_decide (n = name) then [DInc t k] else []
  | o => reads_of name typ o
  end.
Definition out_of (name typ : string) (o : mop) : list dop :=
  match o with
  | MOut t n k => if bool_decide (n = name) then [DInc t k] else []
  | o => reads_of name typ o
  end.

Definition stats_are (name typ : string) (conns : Z) (i o : DateCounter) (m : ServerStatistics) : Prop :=
  ∃ p, ProxyStats_ m !! name = Some p ∧ ps_ProxyType p = typ ∧ ps_CurConns p = wrap32 conns ∧
       ps_TrafficIn p = i ∧ ps_TrafficOut p = o.

Lemma stats_are_upd name typ conns i o m f n :
  stats_are name typ conns i o m → n ≠ name → stats_are name typ conns i o (upd_stats f n m).
Proof. intros (p & Hp & Hrest) Hn. exists p. split; [|done]. simpl. by rewrite lookup_alter_ne. Qed.

Lemma stats_are_step name typ conns i o m op :
  stats_are name typ conns i o m → steady name typ op = true →
  stats_are name typ (conns + d_conns_of name op) (foldl run_dop i (in_of name typ op))
    (foldl run_dop o (out_of name typ op)) (run_mop m op).
Proof.
  intros Hs Hst. pose proof Hs as (p & Hp & Ht & Hc & Hi & Ho).
  destruct op as [| |now n t u id|now n t|n|n|now n b|now n b|now|now n|now t|now d];
    cbn [d_conns_of in_of out_of reads_of foldl]; rewrite ?Z.add_0_r; simpl in Hst; try done.
  - apply bool_decide_eq_true in Hst. destruct (decide (n = name)) as [->|Hn].
    + rewrite (Hst eq_refl) in *. eexists. split; [by simpl; rewrite lookup_insert_eq|].
      rewrite Hp, bool_decide_eq_true_2 by done. done.
    + exists p. simpl. by rewrite lookup_insert_ne.
  - destruct (decide (n = name)) as [->|Hn]; [|by apply stats_are_upd].
    eexists. split; [by simpl; rewrite lookup_alter_eq, Hp|]. done.
  - case_bool_decide as Hn; [subst n|rewrite Z.add_0_r; by apply stats_are_upd].
    eexists. split; [by simpl; rewrite lookup_alter_eq, Hp|]. simpl.
    by rewrite Hc, counter_Inc_wrap.
  - case_bool_decide as Hn; [subst n|rewrite Z.add_0_r; by apply stats_are_upd].
    eexists. split; [by simpl; rewrite lookup_alter_eq, Hp|]. simpl.
    by rewrite Hc, counter_Dec_wrap.
  - case_bool_decide as Hn; [subst n|by apply stats_are_upd].
    eexists. split; [by simpl; rewrite lookup_alter_eq, Hp|]. simpl. by rewrite Hi.
  - case_bool_decide as Hn; [subst n|by apply stats_are_upd].
    eexists. split; [by simpl; rewrite lookup_alter_eq, Hp|]. simpl. by rewrite Ho.
  - simpl. unfold GetProxyTraffic. case_bool_decide as Hn.
    + subst n. rewrite Hp. eexists. split; [by simpl; rewrite lookup_alter_eq, Hp|]. simpl.
      by rewrite Hi, Ho.
    + destruct (ProxyStats_ m !! n); [by apply stats_are_upd|done].
  - case_bool_decide as Hty; simpl.
    + eexists. split; [by simpl; rewrite lookup_fmap, Hp|]. simpl.
      rewrite bool_decide_eq_true_2 by congruence. simpl. by rewrite Hi, Ho.
    + exists p. simpl. rewrite lookup_fmap, Hp. simpl. by rewrite bool_decide_eq_false_2 by congruence.
Qed.

Lemma stats_are_run name typ ops conns i o m :
  stats_are name typ conns i o m → Forall (λ op, steady name typ op = true) ops →
  stats_are name typ (conns + total (d_conns_of name) ops)
    (foldl run_dop i (ops ≫= in_of name typ)) (foldl run_dop o (ops ≫= out_of name typ))
    (foldl run_mop m ops).
Proof.
  revert conns i o m. induction ops as [|op ops IH]; intros conns i o m Hs Hf.
  { simpl. by rewrite Z.add_0_r. }
  apply Forall_cons in Hf as [Hop Hf]. cbn [mbind list_bind foldl]. rewrite !foldl_app.
  replace (conns + total (d_conns_of name) (op :: ops))
    with (conns + d_conns_of name op + total (d_conns_of name) ops) by (simpl; lia).
  apply IH; [by apply stats_are_step|done].
Qed.

(** The statistics of the server are exact. The gauges of clients and connections are
    the numbers opened less the numbers closed, and so is the gauge of a proxy type whose
    proxies are closed only after they were started. From the start of a proxy that has
    no entry of its type, while its type does not change and its entry is not cleared, its
    gauge is the number of its open connections, and its two traffic counters have received
    its bytes and the reads of the dashboard, and nothing else. *)
Theorem server_metrics_exact start ops name typ now user id post :
  let m := foldl run_mop (newServerMetrics start) ops in
  (∀ p, ProxyStats_ m !! name = Some p → ps_ProxyType p ≠ typ) →
  Forall (λ o, steady name typ o = true) post →
  ClientCounts m = wrap32 (total d_clients ops) ∧
  CurConns m = wrap32 (total d_conns ops) ∧
  (∀ t, type_balanced t ops → default 0 (ProxyTypeCounts m !! t) = wrap32 (total (d_type t) ops)) ∧
  ∃ p, ProxyStats_ (foldl run_mop m (MNewProxy now name typ user id :: post)) !! name = Some p ∧
    ps_CurConns p = wrap32 (total (d_conns_of name) post) ∧
    ps_TrafficIn p = foldl run_dop (NewDateCounter now ReserveDays) (post ≫= in_of name typ) ∧
    ps_TrafficOut p = foldl run_dop (NewDateCounter now ReserveDays) (post ≫= out_of name typ).
Proof.
  intros m Hnew Hst. split; [apply gauges_run|]. split; [apply gauges_run|]. split.
  - intros t Hb%(type_count_run t start). unfold type_count in Hb. fold m in Hb.
    destruct (ProxyTypeCounts m !! t); simpl; [done|by rewrite Hb].
  - assert (stats_are name typ 0 (NewDateCounter now ReserveDays) (NewDateCounter now ReserveDays)
              (run_mop m (MNewProxy now name typ user id))) as H0.
    { eexists. split; [by simpl; rewrite lookup_insert_eq|].
      destruct (ProxyStats_ m !! name) as [p|] eqn:E; [|done].
      rewrite bool_decide_eq_false_2 by (by eapply Hnew). done. }
    destruct (stats_are_run _ _ post _ _ _ _ H0 Hst) as (p & Hp & _ & Hc & Hi & Ho).
    exists p. done.
Qed.
End date_counter.

(** A zone whose days have 24 hours. *)
Definition utc_midnight (t : time) : time := t / Day * Day.

Definition no_format (_ : time) : string := "".

Lemma date_counter_exact_witness :
  fst (GetLastDaysCount utc_midnight (9 * Day + 1) 3
         (foldl (run_dop utc_midnight) (NewDateCounter utc_midnight (5 * Day) 7)
            [DInc (7 * Day + 5) 10; DDec (7 * Day + 6) 4; DInc (9 * Day) 1])) = Some [1; 0; 6].
Proof.
  apply (date_counter_exact utc_midnight (λ t, t / Day) (5 * Day) 7
    [DInc (7 * Day + 5) 10; DDec (7 * Day + 6) 4; DInc (9 * Day) 1] (9 * Day + 1) 3).
  - done.
  - done.
  - done.
  - vm_compute. repeat split; discriminate.
Defined.

Lemma server_metrics_exact_witness :
  ∃ p, ProxyStats_ (foldl (run_mop utc_midnight no_format) (newServerMetrics utc_midnight 0)
         [MNewProxy 5 "web" "http" "u" "c"; MOpen "web"; MOpen "ssh"; MOpen "web"; MCloseConn "web"])
       !! "web" = Some p ∧ ps_CurConns p = 1.
Proof.
  destruct (server_metrics_exact utc_midnight no_format 0 [] "web" "http" 5 "u" "c"
    [MOpen "web"; MOpen "ssh"; MOpen "web"; MCloseConn "web"]) as (_ & _ & _ & p & Hp & Hc & _).
  - intros p Hp. vm_compute in Hp. discriminate.
  - repeat constructor.
  - exists p. split; [exact Hp|]. rewrite Hc. reflexivity.
Defined.

(** A zone in which the day from [24h] to [47h] has 23 hours: the clocks go forward. *)
Definition dst_midnight (t : time) : time :=
  if t <? 24 * Hour then 0 else if t <? 47 * Hour then 24 * Hour else 47 * Hour.

Lemma add_today_two n x y t : add_today n (mkDateCounter 2 [x; y] t) = mkDateCounter 2 [wrap64 (x + n); y] t.
Proof. done. Qed.

(** After a day of 23 hours the counters do not move on: the hours between the two
    midnights, divided by 24 and truncated, are no day, so that the bytes of the new day are
    added to those of the day before and yesterday's count is shown as nothing. *)
Theorem short_day_merges_counts a b t1 t2 t3 :
  24 * Hour <= t1 < 47 * Hour → 47 * Hour <= t2 → t2 <= t3 →
  fst (GetLastDaysCount dst_midnight t3 2
         (foldl (run_dop dst_midnight) (NewDateCounter dst_midnight t1 2) [DInc t1 a; DInc t2 b])) =
  Some [wrap64 (a + b); 0].
Proof.
  intros H1 H2 H3.
  assert (dst_midnight t1 = 24 * Hour) as E1.
  { unfold dst_midnight. rewrite (proj2 (Z.ltb_ge _ _)), (proj2 (Z.ltb_lt _ _)) by lia. done. }
  assert (∀ t, t2 <= t → dst_midnight t = 47 * Hour) as E2.
  { intros t Ht. unfold dst_midnight. rewrite !(proj2 (Z.ltb_ge _ _)) by (unfold Hour, Second, Millisecond in *; lia).
    done. }
  assert (time_sub (24 * Hour) (24 * Hour) ÷ Day = 0 ∧ time_sub (47 * Hour) (24 * Hour) ÷ Day = 0 ∧
          time_sub (47 * Hour) (47 * Hour) ÷ Day = 0) as (D1 & D2 & D3) by (repeat split; vm_compute; reflexivity).
  assert (NewDateCounter dst_midnight t1 2 = mkDateCounter 2 [0; 0] (24 * Hour)) as ->
    by (rewrite <- E1; reflexivity).
  cbn [foldl run_dop]. unfold date_Inc.
  rewrite (rotate_same dst_midnight t1) by (unfold days_since; cbn [lastUpdateDate]; by rewrite E1).
  rewrite E1. cbn [reserveDays counts]. rewrite add_today_two.
  rewrite (rotate_same dst_midnight t2) by (unfold days_since; cbn [lastUpdateDate]; by rewrite E2).
  rewrite E2 by lia. cbn [reserveDays counts]; rewrite add_today_two.
  unfold GetLastDaysCount. cbn [reserveDays]. change (Z.min 2 (Z.of_nat 2)) with 2. cbn [Z.ltb Z.compare fst].
  rewrite (rotate_same dst_midnight t3) by (unfold days_since; cbn [lastUpdateDate]; by rewrite E2 by lia).
  cbn [counts]. change (Z.to_nat 2) with 2%nat. cbn [take]. unfold wrap64. by rewrite wrap_add_l.
Qed.

Lemma short_day_merges_counts_witness :
  fst (GetLastDaysCount dst_midnight (50 * Hour) 2
         (foldl (run_dop dst_midnight) (NewDateCounter dst_midnight (25 * Hour) 2)
            [DInc (25 * Hour) 100; DInc (48 * Hour) 5])) = Some [105; 0].
Proof. apply (short_day_merges_counts 100 5 (25 * Hour) (48 * Hour) (50 * Hour)); vm_compute; repeat split; intros H; discriminate H. Defined.

(** Events that arrive after the next start of a proxy spoil its statistics. A
    connection that outlives its proxy and ends after a start with another type makes the
    gauge of the new entry negative; and the close of an old session reported after the
    start of a new one dates the entry of the running proxy as closed, and it is deleted. *)
Theorem late_events_spoil_statistics midnight Format start name a b u c t1 t2 t3 t4 d :
  a ≠ b → 0 <= t2 < t3 → d < time_sub t4 t3 →
  (ps_CurConns <$> ProxyStats_ (foldl (run_mop midnight Format) (newServerMetrics midnight start)
     [MNewProxy t1 name a u c; MOpen name; MCloseProxy t2 name a; MNewProxy t3 name b u c;
      MCloseConn name]) !! name) = Some (-1) ∧
  ProxyStats_ (foldl (run_mop midnight Format) (newServerMetrics midnight start)
     [MNewProxy t1 name a u c; MNewProxy t2 name a u c; MCloseProxy t3 name a; MClear t4 d])
     !! name = None.
Proof.
  intros Hab Ht Hd. split.
  - cbn [foldl run_mop sm_NewProxy sm_CloseProxy OpenConnection CloseConnection upd_stats
         total_conns_by ProxyStats_ ProxyTypeCounts newServerMetrics].
    repeat rewrite ?lookup_alter_eq, ?lookup_insert_eq, ?lookup_empty, ?fmap_alter; simpl.
    rewrite bool_decide_eq_false_2 by done. done.
  - cbn [foldl run_mop]. simpl. apply map_lookup_filter_None. right. intros p Hp. simpl.
    rewrite lookup_alter_eq, lookup_insert_eq in Hp. simpl in Hp. injection Hp as <-. unfold useless. simpl.
    unfold IsZero. rewrite (proj2 (Z.eqb_neq t3 0)) by lia. rewrite (proj2 (Z.ltb_lt t2 t3)) by lia.
    rewrite (proj2 (Z.ltb_lt d _)) by done. done.
Qed.

Lemma late_events_spoil_statistics_witness :
  (ps_CurConns <$> ProxyStats_ (foldl (run_mop utc_midnight no_format) (newServerMetrics utc_midnight 0)
     [MNewProxy 1 "p" "tcp" "" ""; MOpen "p"; MCloseProxy 2 "p" "tcp"; MNewProxy 3 "p" "udp" "" "";
      MCloseConn "p"]) !! "p") = Some (-1).
Proof.
  apply (late_events_spoil_statistics utc_midnight no_format 0 "p" "tcp" "udp" "" "" 1 2 3 9 5);
    vm_compute; repeat split; intros H; discriminate H.
Defined.
