(* ===== verification/ServerPlugins.v ===== *)
(** Server plugins: [src/pkg/plugin/server/manager.go], with the contents of [types.go] and
    the operations of [plugin.go].  A plugin is an HTTP service outside the program; it is
    given by its answers.  The answer to a content has the type of the content, since
    [httpPlugin.Handle] decodes it into a new value of that type. *)
From Stdlib Require Import ZArith Lia Ascii String.
From stdpp Require Import base gmap strings list.
From S2P Require Import Prelude GoStrings Auth ProxyConf.
Local Open Scope string_scope.
Local Open Scope list_scope.

(** ** Contents *)

Record UserInfo := mkUserInfo { u_User : string; u_Metas : gmap string string; u_RunID : string }.

Record LoginContent := mkLoginContent { lc_Login : Login; lc_ClientAddress : string }.
Record NewProxyContent := mkNewProxyContent { nc_User : UserInfo; nc_NewProxy : NewProxy }.
Record CloseProxyContent := mkCloseProxyContent { cc_User : UserInfo; cc_ProxyName : string }.
Record PingContent := mkPingContent { pc_User : UserInfo; pc_Ping : Ping }.
Record NewWorkConnContent := mkNewWorkConnContent { wc_User : UserInfo; wc_NewWorkConn : NewWorkConn }.
Record NewUserConnContent := mkNewUserConnContent {
  uc_User : UserInfo; uc_ProxyName : string; uc_ProxyType : string; uc_RemoteAddr : string }.

Inductive op := OpLogin | OpNewProxy | OpCloseProxy | OpPing | OpNewWorkConn | OpNewUserConn.

Definition op_name (o : op) : string :=
  match o with
  | OpLogin => "Login" | OpNewProxy => "NewProxy" | OpCloseProxy => "CloseProxy"
  | OpPing => "Ping" | OpNewWorkConn => "NewWorkConn" | OpNewUserConn => "NewUserConn"
  end.

Definition content_of (o : op) : Type :=
  match o with
  | OpLogin => LoginContent | OpNewProxy => NewProxyContent | OpCloseProxy => CloseProxyContent
  | OpPing => PingContent | OpNewWorkConn => NewWorkConnContent | OpNewUserConn => NewUserConnContent
  end.

(** ** Plugins *)

Record Response := mkResponse { Reject : bool; RejectReason : string; Unchange : bool }.

(** [Handle] is [None] when the request fails. *)
Record Plugin := mkPlugin {
  pl_Name : string;
  pl_Ops : list string;
  Handle : ∀ o, content_of o → option (Response * content_of o) }.

Definition IsSupport (p : Plugin) (o : op) : bool := contains (pl_Ops p) (op_name o).

Inductive plugin_error := SendError (o : op) | Rejected (reason : string) | CloseErrors (names : list string).

Record PluginManager := mkPluginManager {
  loginPlugins : list Plugin; newProxyPlugins : list Plugin; closeProxyPlugins : list Plugin;
  pingPlugins : list Plugin; newWorkConnPlugins : list Plugin; newUserConnPlugins : list Plugin }.

Definition NewPluginManager : PluginManager := mkPluginManager [] [] [] [] [] [].

Definition plugin_Register (m : PluginManager) (p : Plugin) : PluginManager :=
  let add o l := if IsSupport p o then l ++ [p] else l in
  mkPluginManager (add OpLogin (loginPlugins m)) (add OpNewProxy (newProxyPlugins m))
    (add OpCloseProxy (closeProxyPlugins m)) (add OpPing (pingPlugins m))
    (add OpNewWorkConn (newWorkConnPlugins m)) (add OpNewUserConn (newUserConnPlugins m)).

(** The loop of [Login], [NewProxy], [Ping], [NewWorkConn] and [NewUserConn]. *)
Fixpoint chain (o : op) (ps : list Plugin) (content : content_of o) : result plugin_error (content_of o) :=
  match ps with
  | [] => Ok content
  | p :: ps =>
      match Handle p o content with
      | None => Err (SendError o)
      | Some (res, retContent) =>
          if Reject res then Err (Rejected (RejectReason res))
          else chain o ps (if Unchange res then content else retContent)
      end
  end.

Definition plugin_Login (m : PluginManager) := chain OpLogin (loginPlugins m).
Definition plugin_NewProxy (m : PluginManager) := chain OpNewProxy (newProxyPlugins m).
Definition plugin_Ping (m : PluginManager) := chain OpPing (pingPlugins m).
Definition plugin_NewWorkConn (m : PluginManager) := chain OpNewWorkConn (newWorkConnPlugins m).
Definition plugin_NewUserConn (m : PluginManager) := chain OpNewUserConn (newUserConnPlugins m).

(** Every plugin is told of a closed proxy; the answers are not looked at. *)
Definition plugin_CloseProxy (m : PluginManager) (c : CloseProxyContent) : result plugin_error unit :=
  match filter (λ p, Handle p OpCloseProxy c = None) (closeProxyPlugins m) with
  | [] => Ok tt
  | failed => Err (CloseErrors (pl_Name <$> failed))
  end.
