(* ===== verification/Handlers.v ===== *)
(** The entry points of the server: the first message of a connection
    ([handleConnection], [RegisterControl], [RegisterWorkConn] and [RegisterVisitorConn] of
    [src/server/service.go]) and the messages of a session ([handleNewProxy] and
    [handlePing] of [src/server/control.go]), composed of plugins, authentication,
    configuration, sessions, proxies and statistics. *)
From Stdlib Require Import ZArith Lia Ascii String.
From stdpp Require Import base gmap strings list.
From S2P Require Import Prelude GoStrings Auth ProxyConf Validation Control Service ServerPlugins NetListener ServerProxy Metrics.
Local Open Scope string_scope.
Local Open Scope list_scope.

(** ** Answers *)

(** The text of an error: its own, or only a summary ([GenerateResponseErrorString]). *)
Inductive resp_error (E : Type) := NoError | Summary (s : string) | Detailed (e : E).
Arguments NoError {E}.
Arguments Summary {E} _.
Arguments Detailed {E} _.

Definition GenerateResponseErrorString {E} (summary : string) (e : E) (detailed : bool) : resp_error E :=
  if detailed then Detailed e else Summary summary.

Section server.
Context {V : Type} `{!Verifier V}.
(** [svr.auth.Verifier], [svr.pluginManager] and the configuration of the server. *)
Variable verifier : V.
Variable plugins : PluginManager.
Variable cfg : ServerConfig.
Variable DetailedErrorsToClient : bool.
Variable MaxPortsPerClient : Z.
Variable MaxPoolCount : Z.
(** What the other components are parameterised by. *)
Variable IsQualifiedName : string → list string.
Variable parse_scaled : string → Z → option Z.
Variable plugin : Type.
Variable plugin_Complete : plugin → plugin.
Variable midnight : time → time.
Variable md5_hex : string → string.

(** ** Proxies of a session *)

Abbreviation configurer := (ProxyConfigurer plugin).

Inductive reg_error :=
| PluginErr (e : plugin_error) | ConfigErr (e : list val_error) | CtlErr (e : ctl_error).

Record NewProxyResp := mkNewProxyResp {
  npr_ProxyName : string; npr_RemoteAddr : string; npr_Error : resp_error reg_error }.

(** [proxy.NewProxy]: the constructors of [TCPProxy] and [UDPProxy] count one port. *)
Definition used_ports (c : configurer) : Z :=
  match c with TCPProxyConfig _ _ | UDPProxyConfig _ _ => 1 | _ => 0 end.

Definition loginUserInfo (l : Login) : UserInfo := mkUserInfo (l_User l) (l_Metas l) (l_RunID l).

(** [RegisterProxy] on a message; [Run] is the outcome of [pxy.Run]: the address. *)
Definition RegisterProxy_msg (Run : configurer → option string) (k : nat) (m : NewProxy) (c : Control)
    (s : server) : result reg_error string * server :=
  match NewProxyConfigurerFromMsg IsQualifiedName parse_scaled plugin plugin_Complete m cfg with
  | Err e => (Err (ConfigErr e), s)
  | Ok conf =>
      let addr := Run conf in
      match RegisterProxy MaxPortsPerClient k (np_ProxyName m) (used_ports conf)
              (bool_decide (is_Some addr)) c s with
      | (Err e, s) => (Err (CtlErr e), s)
      | (Ok _, s) => (Ok (default "" addr), s)
      end
  end.

Record node := mkNode { srv : server; stats : ServerStatistics }.

Definition handleNewProxy (now : time) (Run : configurer → option string) (k : nat) (login : Login)
    (inMsg : NewProxy) (c : Control) (n : node) : NewProxyResp * node :=
  let fail name e :=
    mkNewProxyResp name ""
      (GenerateResponseErrorString ("new proxy [" +:+ name +:+ "] error") e DetailedErrorsToClient) in
  match plugin_NewProxy plugins (mkNewProxyContent (loginUserInfo login) inMsg) with
  | Err e => (fail (np_ProxyName inMsg) (PluginErr e), n)
  | Ok ret =>
      let inMsg := nc_NewProxy ret in
      match RegisterProxy_msg Run k inMsg c (srv n) with
      | (Err e, s) => (fail (np_ProxyName inMsg) e, mkNode s (stats n))
      | (Ok remoteAddr, s) =>
          let clientID := if l_ClientID login =s? "" then l_RunID login else l_ClientID login in
          (mkNewProxyResp (np_ProxyName inMsg) remoteAddr NoError,
           mkNode s (sm_NewProxy midnight now (np_ProxyName inMsg) (EmptyOr (np_ProxyType inMsg) "tcp")
                       (l_User login) clientID (stats n)))
      end
  end.

(** C2: what [NewProxy] of a client does. It succeeds exactly when the plugins accept it,
    the message they leave is a valid configuration for this server, the ports of the
    client suffice, the name is free and the proxy runs; then the proxy is in the table
    under the name of that message, it is told its address and the statistics
    record its start. In every other case the tables, the resources, the sessions and the
    statistics are as before, and the client is told an error, which has its cause only
    when the server is configured to reveal it. *)
Theorem handleNewProxy_spec now Run k login inMsg c n resp n' :
  ctls (srv n) !! k = Some c → ctl_phase c = Idle →
  handleNewProxy now Run k login inMsg c n = (resp, n') →
  (npr_Error resp = NoError ↔ ∃ ret conf addr,
     plugin_NewProxy plugins (mkNewProxyContent (loginUserInfo login) inMsg) = Ok ret ∧
     NewProxyConfigurerFromMsg IsQualifiedName parse_scaled plugin plugin_Complete (nc_NewProxy ret) cfg = Ok conf ∧
     (limited MaxPortsPerClient = true → portsUsedNum c + used_ports conf <= MaxPortsPerClient)%Z ∧
     pxys (srv n) !! np_ProxyName (nc_NewProxy ret) = None ∧ Run conf = Some addr ∧
     npr_RemoteAddr resp = addr ∧ npr_ProxyName resp = np_ProxyName (nc_NewProxy ret) ∧
     pxys (srv n') = <[npr_ProxyName resp := next_px (srv n)]> (pxys (srv n)) ∧
     running (srv n') = {[next_px (srv n)]} ∪ running (srv n) ∧
     is_Some (ProxyStats_ (stats n') !! npr_ProxyName resp)) ∧
  (npr_Error resp ≠ NoError →
     pxys (srv n') = pxys (srv n) ∧ running (srv n') = running (srv n) ∧
     ctls (srv n') = ctls (srv n) ∧ stats n' = stats n ∧
     ((∃ e, npr_Error resp = Detailed e) ↔ DetailedErrorsToClient = true)).
Proof using Type.
  clear md5_hex MaxPoolCount verifier Verifier0 V.
  intros Hk Hidle. unfold handleNewProxy.
  assert (∀ s e, GenerateResponseErrorString (E:=reg_error) s e DetailedErrorsToClient ≠ NoError ∧
    ((∃ e', GenerateResponseErrorString (E:=reg_error) s e DetailedErrorsToClient = Detailed e') ↔
      DetailedErrorsToClient = true)) as Hgen.
  { intros s e. unfold GenerateResponseErrorString. destruct DetailedErrorsToClient; naive_solver. }
  destruct (plugin_NewProxy _ _) as [ret|e] eqn:Hp; cycle 1.
  { intros [= <- <-]. simpl. split; [|by intros; split_and!; try apply Hgen].
    split; [by intros H; apply Hgen in H|]. intros (? & ? & ? & ? & _). done. }
  unfold RegisterProxy_msg. destruct (NewProxyConfigurerFromMsg _ _ _ _ _ _) as [conf|e] eqn:Hc; cycle 1.
  { intros [= <- <-]. simpl. split; [|by intros; split_and!; try apply Hgen].
    split; [by intros H; apply Hgen in H|]. intros (? & ? & ? & [= <-] & ? & _). congruence. }
  destruct (RegisterProxy _ _ _ _ _ _ _) as [r s'] eqn:Hr.
  destruct (RegisterProxy_spec _ _ _ _ _ _ _ _ _ Hk Hidle Hr) as (Hiff & Hres).
  destruct r as [p|e]; intros [= <- <-]; simpl in *.
  - destruct Hres as (-> & Hpx & Hrun & Hct). destruct (proj1 Hiff eq_refl) as (Hl & Hfree & [addr Ha]%bool_decide_eq_true).
    split; [|done]. split; [|done]. intros _. exists ret, conf, addr. rewrite Ha. simpl in *.
    split_and!; try done. rewrite lookup_insert_eq. by eexists.
  - split; [|by intros; split_and!; try apply Hres; try apply Hgen].
    split; [by intros H; apply Hgen in H|].
    intros (ret' & conf' & addr & [= <-] & Hc' & Hl & Hfree & Ha & _). assert (conf' = conf) as -> by congruence.
    exfalso. assert (false = true) as [=]. apply Hiff. split_and!; [exact Hl|exact Hfree|]. apply bool_decide_eq_true. by exists addr.
Qed.

(** ** The first message of a connection *)

Section connections.
Context {Conn : Type}.

(** What the program keeps in a [SessionContext], and the pool of the session. *)
Record SessionCtx := mkSessionCtx {
  sc_Login : Login; sc_AlwaysPass : bool; sc_Pool : pool (Conn:=Conn) }.

Record front := mkFront {
  svc : Service; ctxs : gmap nat SessionCtx; visitors : VisitorManager Conn }.

Inductive login_error :=
| LoginPlugin (e : plugin_error) | RandFailed | AuthFailed (e : string) | CryptoFailed.

(** [Entered]: the session is in the table; what is left is [finish_login] of [Service]. *)
Inductive login_outcome := Entered (k : nat) (m : Login) | LoginErr (e : login_error) | LoginPanic.

(** The verifier of a session. *)
Definition session_VerifyLogin (always : bool) (m : Login) : result string unit :=
  if always then VerifyLogin AlwaysPassVerifier m else VerifyLogin verifier m.
Definition session_VerifyPing (always : bool) (m : Ping) : result string unit :=
  if always then VerifyPing AlwaysPassVerifier m else VerifyPing verifier m.
Definition session_VerifyNewWorkConn (always : bool) (m : NewWorkConn) : result string unit :=
  if always then VerifyNewWorkConn AlwaysPassVerifier m else VerifyNewWorkConn verifier m.

(** [RegisterControl] up to [ctlManager.Add]; [rand] is the outcome of [RandID], [crypto_ok]
    that of [NewCryptoReadWriter] on a connection that is not internal. *)
Definition RegisterControl (rand : option string) (crypto_ok internal : bool) (loginMsg : Login)
    (f : front) : login_outcome * front :=
  match (if l_RunID loginMsg =s? "" then rand else Some (l_RunID loginMsg)) with
  | None => (LoginErr RandFailed, f)
  | Some runID =>
      let m := set_login_run runID loginMsg in
      let always := internal && AlwaysAuthPass (l_ClientSpec m) in
      match session_VerifyLogin always m with
      | Err e => (LoginErr (AuthFailed e), f)
      | Ok _ =>
          match new_pool (l_PoolCount m) MaxPoolCount with
          | None => (LoginPanic, f)
          | Some (_, pl) =>
              if negb internal && negb crypto_ok then (LoginErr CryptoFailed, f)
              else let '(k, s) := login runID (svc f) in
                   (Entered k m, mkFront s (<[k := mkSessionCtx m always pl]> (ctxs f)) (visitors f))
          end
      end
  end.

Definition handle_login (rand : option string) (crypto_ok internal : bool) (addr : string) (m : Login)
    (f : front) : login_outcome * front :=
  match plugin_Login plugins (mkLoginContent m addr) with
  | Err e => (LoginErr (LoginPlugin e), f)
  | Ok ret => RegisterControl rand crypto_ok internal (lc_Login ret) f
  end.

Inductive work_outcome :=
| NoControl (runID : string) | InvalidWorkConn | WorkRegistered | WorkPoolFull.

(** [Service.RegisterWorkConn]. *)
Definition svc_RegisterWorkConn (conn : Conn) (newMsg : NewWorkConn) (f : front) : work_outcome * front :=
  match (k ← cm_GetByID (w_RunID newMsg) (svc f); x ← ctxs f !! k; Some (k, x)) with
  | None => (NoControl (w_RunID newMsg), f)
  | Some (k, x) =>
      match plugin_NewWorkConn plugins (mkNewWorkConnContent (loginUserInfo (sc_Login x)) newMsg) with
      | Err _ => (InvalidWorkConn, f)
      | Ok ret =>
          match session_VerifyNewWorkConn (sc_AlwaysPass x) (wc_NewWorkConn ret) with
          | Err _ => (InvalidWorkConn, f)
          | Ok _ =>
              let '(r, pl) := ServerProxy.RegisterWorkConn conn (sc_Pool x) in
              (match r with Registered => WorkRegistered | PoolFull => WorkPoolFull end,
               mkFront (svc f) (<[k := mkSessionCtx (sc_Login x) (sc_AlwaysPass x) pl]> (ctxs f))
                 (visitors f))
          end
      end
  end.

Record NewVisitorConn := mkNewVisitorConn {
  vc_RunID : string; vc_ProxyName : string; vc_SignKey : string; vc_Timestamp : Z;
  vc_UseEncryption : bool; vc_UseCompression : bool }.

(** [VisitorOk queued]: no error; the listener queued the connection, or it was full and closed it. *)
Inductive visitor_outcome := VisitorNoControl (runID : string) | VisitorErr (e : visitor_error) | VisitorOk (queued : bool).

(** The user a visitor acts for: the one of its session, nobody without a run ID. *)
Definition visitor_user (runID : string) (f : front) : option string :=
  if runID =s? "" then Some ""
  else k ← cm_GetByID runID (svc f); x ← ctxs f !! k; Some (l_User (sc_Login x)).

(** [Service.RegisterVisitorConn]; [enc_ok] is the outcome of setting up the encryption. *)
Definition RegisterVisitorConn (conn : Conn) (enc_ok : bool) (m : NewVisitorConn) (f : front) : visitor_outcome * front :=
  match visitor_user (vc_RunID m) f with
  | None => (VisitorNoControl (vc_RunID m), f)
  | Some visitorUser =>
      let '(r, vm) := vm_NewConn md5_hex (vc_ProxyName m) conn (vc_Timestamp m) (vc_SignKey m)
                        (vc_UseEncryption m) (vc_UseCompression m) visitorUser enc_ok (visitors f) in
      (match r with Ok queued => VisitorOk queued | Err e => VisitorErr e end, mkFront (svc f) (ctxs f) vm)
  end.

Inductive first_msg := FLogin (m : Login) | FWork (m : NewWorkConn) | FVisitor (m : NewVisitorConn) | FOther.

(** [handleConnection] after the first message was read: is the connection kept open? *)
Definition handleConnection (rand : option string) (crypto_ok internal enc_ok : bool) (addr : string)
    (conn : Conn) (m : first_msg) (f : front) : bool * front :=
  match m with
  | FLogin m => let '(r, f) := handle_login rand crypto_ok internal addr m f in
                (match r with Entered _ _ => true | _ => false end, f)
  | FWork m => let '(r, f) := svc_RegisterWorkConn conn m f in
               (match r with WorkRegistered => true | _ => false end, f)
  | FVisitor m => let '(r, f) := RegisterVisitorConn conn enc_ok m f in
                  (match r with VisitorOk queued => queued | _ => false end, f)
  | FOther => (false, f)
  end.

Lemma login_table r f k s :
  login r (svc f) = (k, s) → cm_GetByID r s = Some k.
Proof. unfold login, cm_GetByID. simpl. intros [= <- <-]. apply lookup_insert_eq. Qed.

(** C1: nobody gets a session without authentication. A login enters the table of sessions
    exactly when the plugins accept it, it has a run ID or gets a random one, the verifier
    accepts the message the plugins leave, and the session can be created; the verifier is
    passed over only for the connections the server makes to itself that ask for it. The
    session is found under the run ID of that message. Otherwise nothing changes. *)
Theorem login_authenticated rand crypto_ok internal addr m (f : front) r f' :
  handle_login rand crypto_ok internal addr m f = (r, f') →
  match r with
  | Entered k m' =>
      cm_GetByID (l_RunID m') (svc f') = Some k ∧
      ctxs f' !! k = Some (mkSessionCtx m' (internal && AlwaysAuthPass (l_ClientSpec m'))
                             (mkPool [] (Z.min (l_PoolCount m') MaxPoolCount + 10) false)) ∧
      (∃ ret, plugin_Login plugins (mkLoginContent m addr) = Ok ret ∧
         m' = set_login_run (l_RunID m') (lc_Login ret) ∧
         (l_RunID (lc_Login ret) = "" → rand = Some (l_RunID m')) ∧
         (l_RunID (lc_Login ret) ≠ "" → m' = lc_Login ret)) ∧
      (VerifyLogin verifier m' = Ok tt ∨ internal = true ∧ AlwaysAuthPass (l_ClientSpec m') = true)
  | LoginErr _ => f' = f
  | LoginPanic => f' = f ∧ (l_PoolCount m < -10 ∨ MaxPoolCount < -10 ∨ loginPlugins plugins ≠ [])%Z
  end.
Proof using Type.
  unfold handle_login. destruct (plugin_Login _ _) as [ret|e] eqn:Hp; [|by intros [= <- <-]].
  unfold RegisterControl. destruct (if _ =s? _ then _ else _) as [runID|] eqn:Hrun; [|by intros [= <- <-]].
  destruct (session_VerifyLogin _ _) as [[]|e] eqn:Hv; [|by intros [= <- <-]].
  unfold new_pool. destruct (Z.min _ _ + 10 <? 0)%Z eqn:Hpool.
  { intros [= <- <-]. split; [done|]. apply Z.ltb_lt in Hpool. simpl in Hpool.
    destruct (loginPlugins plugins) eqn:Hl; [|by right; right].
    unfold plugin_Login in Hp. rewrite Hl in Hp. injection Hp as <-. simpl in Hpool. lia. }
  destruct (negb internal && negb crypto_ok); [by intros [= <- <-]|]. destruct (login runID (svc f)) as [k s] eqn:Hlog.
  intros [= <- <-]. simpl. split_and!.
  - by eapply login_table.
  - by rewrite lookup_insert_eq.
  - exists ret. split_and!; [done|done| |].
    + intros E. by rewrite E in Hrun.
    + intros E. rewrite (proj2 (seqb_false _ _) E) in Hrun. injection Hrun as <-. by destruct ret as [[] ?].
  - unfold session_VerifyLogin in Hv. simpl in Hv. destruct internal, (AlwaysAuthPass _); auto.
Qed.

(** C28: a work connection reaches the pool of a session only if it names the run ID of a
    session in the table, the plugins accept it and the verifier of that session accepts
    what they leave; then it is appended to the pool of that session, unless the pool is
    full or already closed, and no other session is touched. Otherwise nothing changes. *)
Theorem work_conn_admitted conn m (f : front) r f' :
  svc_RegisterWorkConn conn m f = (r, f') →
  match r with
  | WorkRegistered | WorkPoolFull => ∃ k x ret,
      cm_GetByID (w_RunID m) (svc f) = Some k ∧ ctxs f !! k = Some x ∧
      plugin_NewWorkConn plugins (mkNewWorkConnContent (loginUserInfo (sc_Login x)) m) = Ok ret ∧
      (VerifyNewWorkConn verifier (wc_NewWorkConn ret) = Ok tt ∨ sc_AlwaysPass x = true) ∧
      svc f' = svc f ∧ (∀ j, j ≠ k → ctxs f' !! j = ctxs f !! j) ∧
      ∃ x', ctxs f' !! k = Some x' ∧ sc_Login x' = sc_Login x ∧
        conns (sc_Pool x') = conns (sc_Pool x) ++
          (match r with WorkRegistered => if pool_closed (sc_Pool x) then [] else [conn] | _ => [] end)
  | _ => f' = f
  end.
Proof using Type.
  unfold svc_RegisterWorkConn. destruct (cm_GetByID _ _) as [k|] eqn:Hk; [|by intros [= <- <-]]. simpl.
  destruct (ctxs f !! k) as [x|] eqn:Hx; [|by intros [= <- <-]]. simpl.
  destruct (plugin_NewWorkConn _ _) as [ret|e] eqn:Hp; [|by intros [= <- <-]].
  destruct (session_VerifyNewWorkConn _ _) as [[]|e] eqn:Hv; [|by intros [= <- <-]].
  destruct (ServerProxy.RegisterWorkConn conn (sc_Pool x)) as [q pl] eqn:Hr.
  assert (∃ x', ctxs (mkFront (svc f) (<[k := mkSessionCtx (sc_Login x) (sc_AlwaysPass x) pl]> (ctxs f))
      (visitors f)) !! k = Some x' ∧ sc_Login x' = sc_Login x ∧
    conns (sc_Pool x') = conns (sc_Pool x) ++
      (match q with Registered => if pool_closed (sc_Pool x) then [] else [conn] | PoolFull => [] end)) as Hpool.
  { eexists. split; [apply lookup_insert_eq|]. split; [done|]. simpl.
    unfold ServerProxy.RegisterWorkConn in Hr. destruct (pool_closed (sc_Pool x)); [|case_match];
      injection Hr as <- <-;
      simpl; rewrite ?app_nil_r; done. }
  destruct Hpool as (x' & Hx' & Hl & Hc).
  destruct q; intros [= <- <-]; exists k, x, ret; split_and!; try done;
    try (unfold session_VerifyNewWorkConn in Hv; destruct (sc_AlwaysPass x); by auto);
    try (intros j Hj; simpl; by rewrite lookup_insert_ne);
    exists x'; split_and!; try done; rewrite Hc; done.
Qed.

(** Whom a secret proxy admits: the key is the secret key of the proxy, and the user is allowed.
    The user is the one that logged in to the session of the run ID, never one the visitor
    names itself; without a run ID it is the empty user. Allowed are the users the proxy
    lists, everybody if it lists ["*"], and the proxy's own user if it lists nobody. *)
Definition admitted (user secretKey : string) (users : list string) (s : Service) (cx : gmap nat SessionCtx)
    (m : NewVisitorConn) : Prop :=
  GetAuthKey md5_hex secretKey (vc_Timestamp m) = vc_SignKey m ∧
  ∃ visitorUser,
    (vc_RunID m = "" ∧ visitorUser = "" ∨
     vc_RunID m ≠ "" ∧ ∃ k x, cm_GetByID (vc_RunID m) s = Some k ∧ cx !! k = Some x ∧
       visitorUser = l_User (sc_Login x)) ∧
    (visitorUser ∈ users ∨ "*" ∈ users ∨ users = [] ∧ (visitorUser = user ∨ user = "*")).

Lemma visitor_user_spec m s cx vm u :
  visitor_user (vc_RunID m) (mkFront s cx vm) = Some u ↔
  vc_RunID m = "" ∧ u = "" ∨
  vc_RunID m ≠ "" ∧ ∃ k x, cm_GetByID (vc_RunID m) s = Some k ∧ cx !! k = Some x ∧ u = l_User (sc_Login x).
Proof using Type.
  clear parse_scaled midnight MaxPoolCount IsQualifiedName md5_hex.
  unfold visitor_user. cbn [svc ctxs]. destruct (seqb_spec (vc_RunID m) ""); [naive_solver|].
  destruct (cm_GetByID (vc_RunID m) s) as [k|] eqn:Hk; simpl; [|naive_solver].
  destruct (cx !! k) as [x|] eqn:Hx; simpl; [|naive_solver]. split; [intros [= <-]; right; eauto 10|].
  intros [[? _]|(_ & k' & x' & [= <-] & Hx' & ->)]; [done|]. congruence.
Qed.

(** C29: what becomes of a visitor's connection to a secret proxy (stcp, sudp), from the moment
    the proxy listens until its name is given back, whatever other proxies and visitors do
    meanwhile and whatever state the proxy's listener is in. The connection is queued for the
    proxy, with the encryption and the compression the visitor asked for, exactly when the
    visitor is admitted (the secret key, an allowed user), the encryption can be set up if it is
    asked for, and the listener is open and not full. An admitted visitor is refused exactly
    when the encryption cannot be set up or the proxy has closed its listener; with a full
    listener it is told that it succeeded, and its connection is closed. In all other cases
    nothing changes. *)
Theorem visitor_conn_admitted name user secretKey users vm0 vm1 vm (s : Service) cx m conn enc_ok r f' :
  startVisitorListener name user secretKey users vm0 = Ok vm1 → rtc (vm_step md5_hex name) vm1 vm → vc_ProxyName m = name →
  RegisterVisitorConn conn enc_ok m (mkFront s cx vm) = (r, f') →
  let adm := admitted user secretKey users s cx m in
  let enc := vc_UseEncryption m = true → enc_ok = true in
  ∃ l ul, vm !! name = Some (mkBundle l secretKey ul) ∧
  let room := (length (InternalListener.acceptCh l) < InternalListener.cap)%nat in
  (r = VisitorOk true ↔ adm ∧ enc ∧ InternalListener.closed l = false ∧ room) ∧
  (r = VisitorOk false ↔ adm ∧ enc ∧ InternalListener.closed l = false ∧ ¬ room) ∧
  (r = VisitorErr EncryptionFailed ↔ adm ∧ ¬ enc) ∧
  (r = VisitorErr ListenerClosed ↔ adm ∧ enc ∧ InternalListener.closed l = true) ∧
  f' = mkFront s cx (match r with
    | VisitorOk true =>
        let c := mkWrapped conn (if vc_UseEncryption m then Some secretKey else None) (vc_UseCompression m) in
        <[name := mkBundle (InternalListener.mk (InternalListener.acceptCh l ++ [c]) false) secretKey ul]> vm
    | _ => vm end).
Proof using Type.
  clear parse_scaled midnight MaxPoolCount IsQualifiedName.
  intros Hl Hr <- Hreg adm enc. set (name := vc_ProxyName m) in *.
  unfold startVisitorListener, vm_Listen in Hl. destruct (vm0 !! name) eqn:E0; [done|]. injection Hl as <-.
  destruct (bundle_kept md5_hex name _ vm _ (lookup_insert_eq _ _ _) Hr) as [l Hb]. simpl in Hb.
  set (ul := match users with [] => [user] | _ => users end) in *. exists l, ul. split; [done|]. intros room.
  unfold RegisterVisitorConn in Hreg. destruct (visitor_user _ _) as [u|] eqn:Eu.
  - pose proof (vm_NewConn_spec md5_hex name conn (vc_Timestamp m) (vc_SignKey m) (vc_UseEncryption m) (vc_UseCompression m)
      u enc_ok vm _ Hb) as H.
    assert (adm ↔ GetAuthKey md5_hex secretKey (vc_Timestamp m) = vc_SignKey m ∧
            negb (contains ul u) && negb (contains ul "*") = false) as ->.
    { pose proof (visitor_user_spec m s cx vm) as Hvu. split.
      - intros [Hk (u' & Hu & Ha)]. apply Hvu in Hu. rewrite Eu in Hu. injection Hu as <-. split; [done|]. by apply users_admitted.
      - intros [Hk Ha%users_admitted]. split; [done|]. exists u. split; [by apply Hvu|done]. }
    cbn [visitors] in Hreg. fold name in Hreg. destruct (vm_NewConn _ _ _ _ _ _ _ _ _ _) as [r0 vm'].
    destruct H as (H1 & H2 & H3 & H4 & ->). injection Hreg as <- <-. cbn [ln sk allowUsers svc ctxs] in *.
    assert (¬ enc ↔ vc_UseEncryption m = true ∧ enc_ok = false) as ->
      by (unfold enc; destruct (vc_UseEncryption m), enc_ok; naive_solver).
    assert (¬ room ↔ (InternalListener.cap <= length (InternalListener.acceptCh l))%nat) as -> by (unfold room; lia).
    unfold enc, room. split_and!; [rewrite <- H1|rewrite <- H2|rewrite <- H3|rewrite <- H4|]; destruct r0 as [[]|e]; try reflexivity; split; congruence.
  - injection Hreg as <- <-. assert (¬ adm) as Hna.
    { intros (_ & u & Hu & _). apply (visitor_user_spec m s cx vm) in Hu. congruence. }
    split_and!; naive_solver.
Qed.

(** ** Heartbeats of a session *)

(** [handlePing]: the new [lastPing], or the old one and an error in the answer. *)
Definition handlePing (now : time) (x : SessionCtx) (inMsg : Ping) (lastPing : time) : bool * time :=
  match plugin_Ping plugins (mkPingContent (loginUserInfo (sc_Login x)) inMsg) with
  | Err _ => (false, lastPing)
  | Ok ret =>
      match session_VerifyPing (sc_AlwaysPass x) (pc_Ping ret) with
      | Err _ => (false, lastPing)
      | Ok _ => (true, now)
      end
  end.

(** [ServerCfg.Transport.HeartbeatTimeout], in seconds. *)
Variable HeartbeatTimeout : Z.

(** One round of [heartbeatWorker]: is the connection closed? *)
Definition heartbeat_expired (now lastPing : time) : bool :=
  (0 <? HeartbeatTimeout)%Z && (HeartbeatTimeout * Second <? time_sub now lastPing)%Z.

(** Pings of the client and the rounds of the worker, in the order they happen. *)
Inductive hb_event := HPing (now : time) (m : Ping) | HTick (now : time).

Record heartbeat := mkHeartbeat { lastPing : time; hb_closed : bool }.

Definition hb_step (x : SessionCtx) (h : heartbeat) (e : hb_event) : heartbeat :=
  match e with
  | HPing now m => mkHeartbeat (snd (handlePing now x m (lastPing h))) (hb_closed h)
  | HTick now => mkHeartbeat (lastPing h) (hb_closed h || heartbeat_expired now (lastPing h))
  end.

Definition ping_valid (x : SessionCtx) (m : Ping) : Prop :=
  ∃ ret, plugin_Ping plugins (mkPingContent (loginUserInfo (sc_Login x)) m) = Ok ret ∧
         (VerifyPing verifier (pc_Ping ret) = Ok tt ∨ sc_AlwaysPass x = true).

(** Something valid was heard at [t], and nothing since: a ping, or the login at [start]. *)
Definition last_heard (x : SessionCtx) (start : time) (evs : list hb_event) (t : time) : Prop :=
  (∃ pre m post, evs = pre ++ HPing t m :: post ∧ ping_valid x m ∧
     ∀ t' m', HPing t' m' ∈ post → ¬ ping_valid x m') ∨
  (t = start ∧ ∀ t' m', HPing t' m' ∈ evs → ¬ ping_valid x m').

Lemma handlePing_spec now x m last :
  (ping_valid x m ∧ handlePing now x m last = (true, now)) ∨
  (¬ ping_valid x m ∧ handlePing now x m last = (false, last)).
Proof.
  unfold handlePing, ping_valid. destruct (plugin_Ping _ _) as [ret|e]; [|right; split; [|done]; naive_solver].
  unfold session_VerifyPing. destruct (sc_AlwaysPass x); simpl; [left; split; [|done]; eauto|].
  destruct (VerifyPing verifier _) as [[]|] eqn:E; [left; split; [|done]; eauto|right; split; [|done]].
  intros (ret' & [= <-] & [?|?]); congruence.
Qed.

Lemma last_heard_run x start evs :
  last_heard x start evs (lastPing (foldl (hb_step x) (mkHeartbeat start false) evs)).
Proof.
  induction evs as [|e evs IH] using rev_ind; [right; split; [done|]; intros t' m' H; by apply not_elem_of_nil in H|].
  rewrite foldl_app. cbn [foldl]. set (h := foldl _ _ evs) in *.
  assert (∀ t, last_heard x start evs t → (∀ t' m', e = HPing t' m' → ¬ ping_valid x m') →
               last_heard x start (evs ++ [e]) t) as Hkeep.
  { intros t [(pre & m & post & -> & Hv & Hn)|[-> Hn]] He.
    - left. exists pre, m, (post ++ [e]). rewrite <- app_assoc. split_and!; [done..|].
      intros t' m' [Hin|Hin]%elem_of_app; [by eapply Hn|]. apply list_elem_of_singleton in Hin. eauto.
    - right. split; [done|]. intros t' m' [Hin|Hin]%elem_of_app; [by eapply Hn|].
      apply list_elem_of_singleton in Hin. eauto. }
  destruct e as [now m|now]; simpl; [|apply Hkeep; [done|discriminate]].
  destruct (handlePing_spec now x m (lastPing h)) as [[Hv ->]|[Hv ->]]; simpl.
  - left. exists evs, m, []. split_and!; [done..|]. intros t' m' H. by apply not_elem_of_nil in H.
  - apply Hkeep; [done|]. intros t' m' [= <- <-]. done.
Qed.

Lemma last_heard_unique x start evs t :
  last_heard x start evs t → t = lastPing (foldl (hb_step x) (mkHeartbeat start false) evs).
Proof.
  revert t. induction evs as [|e evs IH] using rev_ind; intros t Ht.
  { destruct Ht as [(pre & m & post & H & _)|[-> _]]; [|done]. by destruct pre. }
  rewrite foldl_app. cbn [foldl]. set (h := foldl _ _ evs) in *.
  assert (last_heard x start evs t ∧ (∀ t' m', e = HPing t' m' → ¬ ping_valid x m') ∨
          ∃ m, e = HPing t m ∧ ping_valid x m) as [[Hold He]|(m & -> & Hv)].
  { destruct Ht as [(pre & m & post & Heq & Hv & Hn)|[-> Hn]].
    - destruct post as [|y post _] using rev_ind.
      + apply app_inj_tail in Heq as [-> ->]. right. eauto.
      + rewrite app_comm_cons, app_assoc in Heq. apply app_inj_tail in Heq as [-> ->]. left. split.
        * left. exists pre, m, post. split_and!; [done..|]. intros t' m' Hin. apply (Hn t').
          apply elem_of_app. by left.
        * intros t' m' ->. apply (Hn t'). apply elem_of_app. right. by left.
    - left. split; [right; split; [done|]|].
      + intros t' m' Hin. apply (Hn t'). apply elem_of_app. by left.
      + intros t' m' ->. apply (Hn t'). apply elem_of_app. right. by left. }
  - rewrite (IH _ Hold). destruct e as [now m|now]; simpl; [|done].
    destruct (handlePing_spec now x m (lastPing h)) as [[Hv _]|[_ ->]]; [|done].
    by destruct (He now m eq_refl).
  - simpl. by destruct (handlePing_spec t x m (lastPing h)) as [[_ ->]|[? _]].
Qed.

(** Heartbeats. A session is closed for want of a heartbeat exactly when a timeout is
    configured and some round of the worker comes more than the timeout after the last
    valid ping before it (or after the login, if there was none); pings the plugins
    or the verifier refuse do not count. *)
Theorem heartbeat_exact x start evs :
  hb_closed (foldl (hb_step x) (mkHeartbeat start false) evs) = true ↔
  (0 < HeartbeatTimeout)%Z ∧ ∃ pre now post t,
    evs = pre ++ HTick now :: post ∧ last_heard x start pre t ∧
    (HeartbeatTimeout * Second < time_sub now t)%Z.
Proof.
  assert (∀ now t, heartbeat_expired now t = true ↔
    (0 < HeartbeatTimeout)%Z ∧ (HeartbeatTimeout * Second < time_sub now t)%Z) as Hexp.
  { intros now t. unfold heartbeat_expired. rewrite andb_true_iff, !Z.ltb_lt. done. }
  induction evs as [|e evs IH] using rev_ind.
  { split; [done|]. intros (_ & pre & now & post & t & H & _). by destruct pre. }
  rewrite foldl_app. cbn [foldl]. pose proof (last_heard_run x start evs) as Hlast.
  set (h := foldl _ _ evs) in *. split.
  - intros H. assert (hb_closed h = true ∨ ∃ now, e = HTick now ∧ heartbeat_expired now (lastPing h) = true)
      as [Hc|(now & -> & [H0 Ht]%Hexp)].
    { destruct e; simpl in H; [by left|]. apply orb_true_iff in H as [?|?]; eauto. }
    + apply IH in Hc as (H0 & pre & now & post & t & -> & ? & ?). split; [done|].
      exists pre, now, (post ++ [e]), t. by rewrite <- app_assoc.
    + split; [done|]. by exists evs, now, [], (lastPing h).
  - intros (H0 & pre & now & post & t & Heq & Hl & Ht).
    destruct post as [|y post _] using rev_ind.
    + apply app_inj_tail in Heq as [<- ->]. simpl. apply orb_true_iff. right. apply Hexp.
      apply last_heard_unique in Hl. by subst t.
    + rewrite app_comm_cons, app_assoc in Heq. apply app_inj_tail in Heq as [-> ->].
      assert (hb_closed h = true) as Hc by (apply IH; eauto 10).
      destruct y; simpl; rewrite Hc; done.
Qed.
End connections.
End server.

(** ** Witnesses: a server with the token [good], no plugins and at most two ports per client *)

#[local] Instance id_Verifier : Verifier TokenAuth := token_Verifier (λ x, x).
Definition good : TokenAuth := NewTokenAuth [] "good".

Definition new_msg : NewProxy :=
  mkNewProxy "db" "tcp" false false "" "" "" "" ∅ ∅ 6000 [] "" [] "" "" "" ∅ ∅ "" "" [] "".

Definition a_login : Login := mkLogin "" "" "" "" "alice" "good7" 7 "run" "" ∅ (mkClientSpec "" false) 1.

Definition a_node : node := mkNode s_web (newServerMetrics (λ t, t) 0).

Definition a_resp : NewProxyResp * node :=
  handleNewProxy NewPluginManager frps false 2 (λ _, []) parse_ten unit (λ p, p) (λ t, t)
    5 (λ _, Some ":6000") 0 a_login new_msg c_web a_node.

Lemma handleNewProxy_spec_witness : npr_Error (fst a_resp) = NoError.
Proof.
  destruct (handleNewProxy_spec NewPluginManager frps false 2 (λ _, []) parse_ten unit (λ p, p) (λ t, t)
    5 (λ _, Some ":6000") 0 a_login new_msg c_web a_node (fst a_resp) (snd a_resp)) as [H _].
  - exact s_web_session.
  - reflexivity.
  - reflexivity.
  - apply H. eexists _, _, ":6000". split; [reflexivity|]. split; [reflexivity|].
    split_and!; try reflexivity. vm_compute. by eexists.
Defined.

Definition no_front : front (Conn:=nat) := mkFront new_service ∅ ∅.

Definition a_front : login_outcome * front (Conn:=nat) :=
  handle_login good NewPluginManager 5 None true false "" a_login no_front.

Lemma login_authenticated_witness : VerifyLogin good a_login = Ok tt.
Proof.
  destruct a_front as [r f'] eqn:E.
  pose proof (login_authenticated good NewPluginManager 5 None true false "" a_login no_front r f' E) as H.
  vm_compute in E. injection E as <- <-. destruct H as (_ & _ & _ & [H|[H _]]); [exact H|discriminate].
Defined.

Lemma work_conn_admitted_witness :
  ∃ x, ctxs (snd (svc_RegisterWorkConn good NewPluginManager 9%nat (mkNewWorkConn "run" "" 0) (snd a_front)))
    !! 0%nat = Some x ∧ conns (sc_Pool x) = [9%nat].
Proof.
  destruct (svc_RegisterWorkConn good NewPluginManager 9%nat (mkNewWorkConn "run" "" 0) (snd a_front))
    as [r f'] eqn:E.
  pose proof (work_conn_admitted good NewPluginManager 9%nat (mkNewWorkConn "run" "" 0) (snd a_front) r f' E) as H.
  assert (r = WorkRegistered) as -> by (vm_compute in E; by injection E as <- _).
  destruct H as (k & x & ret & Hk & Hx & _ & _ & _ & _ & x' & Hx' & _ & Hc).
  vm_compute in Hk. injection Hk as <-. vm_compute in Hx. injection Hx as <-.
  exists x'. split; [exact Hx'|]. exact Hc.
Defined.

Definition ssh_listening : VisitorManager nat := {["ssh" := mkBundle InternalListener.New "key" ["alice"]]}.

Definition ssh_visit : visitor_outcome * front (Conn:=nat) :=
  RegisterVisitorConn (λ x, x) 9%nat true (mkNewVisitorConn "run" "ssh" "key3" 3 true false)
    (mkFront (svc (snd a_front)) (ctxs (snd a_front)) ssh_listening).

Lemma visitor_conn_admitted_witness :
  fst ssh_visit = VisitorOk true ∧
  (ln <$> visitors (snd ssh_visit) !! "ssh") = Some (InternalListener.mk [mkWrapped 9%nat (Some "key") false] false).
Proof.
  destruct ssh_visit as [r f'] eqn:E.
  destruct (visitor_conn_admitted (λ x, x) "ssh" "alice" "key" [] ∅ ssh_listening ssh_listening (svc (snd a_front)) (ctxs (snd a_front))
    (mkNewVisitorConn "run" "ssh" "key3" 3 true false) 9%nat true r f') as (l & ul & Hl & H1 & _ & _ & _ & ->);
    [reflexivity|apply rtc_refl|reflexivity|exact E|].
  assert (l = InternalListener.New) as -> by (unfold ssh_listening in Hl; rewrite lookup_singleton_eq in Hl; congruence).
  assert (r = VisitorOk true) as ->; [|split; [reflexivity|]; simpl; by rewrite lookup_insert_eq].
  apply H1. split; [|split; [done|]; split; [reflexivity|simpl; unfold InternalListener.cap; lia]].
  split; [reflexivity|]. exists "alice". split; [|right; right; by auto].
  right. split; [discriminate|]. eexists 0%nat, _. split_and!; vm_compute; reflexivity.
Defined.
