(* ===== verification/Health.v ===== *)
(** Health checks of the local service of a proxy: [src/client/health/health.go]. *)
From Stdlib Require Import ZArith Lia Ascii String.
From stdpp Require Import base strings list.
From S2P Require Import Prelude GoStrings ProxyConf.
Local Open Scope string_scope.
Local Open Scope list_scope.
Local Open Scope Z_scope.

Record Monitor := mkMonitor {
  checkType : string; interval : duration; timeout : duration; maxFailedTimes : Z;
  mon_addr : string; mon_url : string; failedTimes : Z; statusOK : bool }.

Definition positive_or (n d : Z) : Z := if n <=? 0 then d else n.

(** [NewMonitor]; the callbacks of the wrapper are never nil. *)
Definition NewMonitor (cfg : HealthCheckConfig) (addr : string) : Monitor :=
  let url := if (hc_Type cfg =s? "http") && negb (hc_Path cfg =s? "")
             then "http://" +:+ addr +:+ (if HasPrefix (hc_Path cfg) "/" then "" else "/") +:+ hc_Path cfg
             else "" in
  mkMonitor (hc_Type cfg) (positive_or (hc_IntervalSeconds cfg) 10 * Second)
    (positive_or (hc_TimeoutSeconds cfg) 3 * Second) (positive_or (hc_MaxFailed cfg) 1)
    addr url 0 false.

(** What one check does on the network: dial the address, or ask the URL for a status. *)
Record probe := mkProbe { dial : string → bool; http_get : string → option Z }.

Definition doTCPCheck (p : probe) (m : Monitor) : bool :=
  if mon_addr m =s? "" then true else dial p (mon_addr m).

Definition doHTTPCheck (p : probe) (m : Monitor) : bool :=
  match http_get p (mon_url m) with
  | None => false
  | Some status => Z.quot status 100 =? 2
  end.

Definition doCheck (p : probe) (m : Monitor) : bool :=
  if checkType m =s? "tcp" then doTCPCheck p m
  else if checkType m =s? "http" then doHTTPCheck p m
  else false.

Inductive callback := statusNormalFn | statusFailedFn.

Definition mon_set (m : Monitor) (failed : Z) (ok : bool) : Monitor :=
  mkMonitor (checkType m) (interval m) (timeout m) (maxFailedTimes m) (mon_addr m) (mon_url m) failed ok.

(** One round of [checkWorker] of a monitor that was not closed; [failedTimes] is a uint64. *)
Definition check_round (m : Monitor) (ok : bool) : option callback * Monitor :=
  if ok then
    if negb (statusOK m) then (Some statusNormalFn, mon_set m (failedTimes m) true) else (None, m)
  else
    let failed := (failedTimes m + 1) mod 2 ^ 64 in
    if statusOK m && (maxFailedTimes m <=? wrap64 failed)
    then (Some statusFailedFn, mon_set m failed false)
    else (None, mon_set m failed (statusOK m)).

Fixpoint check_rounds (m : Monitor) (oks : list bool) : list callback * Monitor :=
  match oks with
  | [] => ([], m)
  | ok :: oks => let '(c, m) := check_round m ok in
                 let '(cs, m) := check_rounds m oks in
                 (option_list c ++ cs, m)
  end.

(** ** What the monitor reports *)

Definition failures (oks : list bool) : Z := Z.of_nat (length (filter (λ b, b = false) oks)).

Definition other (c : callback) : callback :=
  match c with statusNormalFn => statusFailedFn | statusFailedFn => statusNormalFn end.

(** Callbacks alternate, beginning with [next]. *)
Fixpoint alternate (next : callback) (cs : list callback) : Prop :=
  match cs with
  | [] => True
  | c :: cs => c = next ∧ alternate (other c) cs
  end.

Definition next_callback (m : Monitor) : callback := if statusOK m then statusFailedFn else statusNormalFn.

Lemma check_rounds_app m a b :
  check_rounds m (a ++ b) =
  let '(cs, m') := check_rounds m a in let '(ds, m'') := check_rounds m' b in (cs ++ ds, m'').
Proof.
  revert m. induction a as [|ok a IH]; intros m; simpl.
  - by destruct (check_rounds m b).
  - destruct (check_round m ok) as [c m1]. rewrite IH. destruct (check_rounds m1 a) as [cs m2].
    destruct (check_rounds m2 b) as [ds m3]. by rewrite app_assoc.
Qed.

Lemma failures_app a b : failures (a ++ b) = failures a + failures b.
Proof. unfold failures. rewrite filter_app, length_app. lia. Qed.

Lemma failures_nonneg a : 0 <= failures a.
Proof. unfold failures. lia. Qed.

(** The status after some rounds: there was a success, and the failures after the last one
    leave the count of all failures below the limit. *)
Definition reported_ok (limit : Z) (oks : list bool) : Prop :=
  ∃ pre n, oks = pre ++ true :: replicate n false ∧ (n = 0%nat ∨ failures oks < limit).

(** The documented rule, of the comments in [conf/frpc_full_example.toml] and in the legacy
    example: after a success a proxy stays until [limit] checks have failed one after the other. *)
Definition documented_ok (limit : Z) (oks : list bool) : Prop :=
  ∃ pre n, oks = pre ++ true :: replicate n false ∧ Z.of_nat n < limit.

Lemma last_success_unique pre n pre' n' :
  pre ++ true :: replicate n false = pre' ++ true :: replicate n' false → pre = pre' ∧ n = n'.
Proof.
  revert n'. induction n as [|n IH]; intros [|n'] Heq; simpl in Heq.
  - by apply app_inj_tail in Heq as [-> _].
  - change (false :: replicate n' false) with (replicate (S n') false) in Heq.
    rewrite replicate_S_end, app_comm_cons, app_assoc in Heq. by apply app_inj_tail in Heq as [_ ?].
  - change (false :: replicate n false) with (replicate (S n) false) in Heq.
    rewrite replicate_S_end, app_comm_cons, app_assoc in Heq. by apply app_inj_tail in Heq as [_ ?].
  - change (false :: replicate n false) with (replicate (S n) false) in Heq.
    change (false :: replicate n' false) with (replicate (S n') false) in Heq.
    rewrite !replicate_S_end, !app_comm_cons, !app_assoc in Heq. apply app_inj_tail in Heq as [Heq _].
    by destruct (IH _ Heq) as [-> ->].
Qed.

Lemma failures_tail pre n : failures (pre ++ true :: replicate n false) = failures pre + Z.of_nat n.
Proof.
  rewrite failures_app. f_equal. unfold failures. f_equal. rewrite filter_cons_False by done.
  induction n as [|n IH]; [done|]. rewrite replicate_S, filter_cons_True by done. cbn [length]. by rewrite IH.
Qed.

(** The code is stricter than the documents, exactly by the failures before the last success. *)
Lemma reported_vs_documented limit oks :
  0 < limit →
  (reported_ok limit oks → documented_ok limit oks) ∧
  (documented_ok limit oks ∧ ¬ reported_ok limit oks ↔
   ∃ pre n, oks = pre ++ true :: replicate n false ∧ (0 < n)%nat ∧ Z.of_nat n < limit <= failures pre + Z.of_nat n).
Proof.
  intros Hl. split.
  - intros (pre & n & -> & Hn). exists pre, n. split; [done|]. rewrite failures_tail in Hn. pose proof (failures_nonneg pre). lia.
  - split.
    + intros [(pre & n & -> & Hn) Hr]. exists pre, n. split; [done|].
      destruct (decide (n = 0%nat)) as [->|]; [exfalso; apply Hr; exists pre, 0%nat; auto|]. split; [lia|]. split; [done|].
      destruct (Z.le_gt_cases limit (failures pre + Z.of_nat n)) as [|Hgt]; [done|]. exfalso. apply Hr.
      exists pre, n. rewrite failures_tail. auto.
    + intros (pre & n & -> & Hn & Hlt & Hle). split; [by exists pre, n|].
      intros (pre' & n' & [<- <-]%last_success_unique & [->|Hf]); [lia|]. rewrite failures_tail in Hf. lia.
Qed.

Lemma reported_ok_true limit oks : reported_ok limit (oks ++ [true]).
Proof. exists oks, 0%nat. split; [done|by left]. Qed.

Lemma reported_ok_false limit oks :
  reported_ok limit (oks ++ [false]) ↔ reported_ok limit oks ∧ failures oks + 1 < limit.
Proof.
  assert (failures (oks ++ [false]) = failures oks + 1) as Hf by (rewrite failures_app; done).
  split.
  - intros (pre & n & Heq & Hn). destruct n as [|n].
    { apply app_inj_tail in Heq as [_ Heq]. done. }
    rewrite (replicate_S_end n), app_comm_cons, app_assoc in Heq. apply app_inj_tail in Heq as [-> _].
    destruct Hn as [|Hn]; [done|]. rewrite Hf in Hn. split; [|lia]. exists pre, n. split; [done|]. right. lia.
  - intros ((pre & n & -> & _) & Hlt). exists pre, (S n). split; [|right; by rewrite Hf].
    by rewrite (replicate_S_end n), app_comm_cons, app_assoc.
Qed.

Lemma alternate_next x cs c : alternate x (cs ++ [c]) → alternate x ((cs ++ [c]) ++ [other c]).
Proof.
  revert x. induction cs as [|d cs IH]; intros x; simpl; [by intros [-> _]|].
  intros [-> H]. split; [done|]. by apply IH.
Qed.

Lemma rounds_inv cfg addr oks :
  failures oks < 2 ^ 63 →
  let '(cs, m) := check_rounds (NewMonitor cfg addr) oks in
  maxFailedTimes m = positive_or (hc_MaxFailed cfg) 1 ∧ failedTimes m = failures oks ∧
  (statusOK m = true ↔ reported_ok (maxFailedTimes m) oks) ∧
  alternate statusNormalFn (cs ++ [next_callback m]).
Proof.
  induction oks as [|ok oks IH] using rev_ind; intros Hlt.
  { simpl. split_and!; try done. split; [done|]. intros (pre & n & H & _). by destruct pre. }
  rewrite failures_app in Hlt. pose proof (failures_nonneg oks). pose proof (failures_nonneg [ok]).
  specialize (IH ltac:(lia)). rewrite check_rounds_app.
  destruct (check_rounds _ oks) as [cs m]. destruct IH as (Hmax & Hf & Hok & Halt).
  destruct ok; simpl in *.
  - unfold check_round. pose proof (reported_ok_true (maxFailedTimes m) oks) as Hr.
    assert (failures (oks ++ [true]) = failures oks) as Hf' by (rewrite failures_app; change (failures [true]) with 0; lia).
    unfold next_callback in *. destruct (statusOK m) eqn:Hs; simpl.
    + rewrite app_nil_r, Hf', Hs. by split_and!.
    + rewrite Hf'. split_and!; [done..|]. by apply (alternate_next _ _ statusNormalFn).
  - change (failures [false]) with 1 in Hlt.
    assert (failures (oks ++ [false]) = failures oks + 1) as Hf' by (rewrite failures_app; done).
    unfold check_round. rewrite Hf, Z.mod_small by lia.
    rewrite wrap64_id by (unfold int64_min, int64_max; lia).
    unfold next_callback in *. rewrite Hf'. destruct (statusOK m) eqn:Hs; simpl.
    + destruct (Z.leb_spec (maxFailedTimes m) (failures oks + 1)) as [Hle|Hgt]; simpl.
      * split_and!; [done..| |by apply (alternate_next _ _ statusFailedFn)].
        rewrite reported_ok_false. split; [done|]. lia.
      * rewrite app_nil_r. split_and!; [done..| |done]. rewrite reported_ok_false. split; [|done].
        intros _. split; [by apply Hok|lia].
    + rewrite app_nil_r. split_and!; [done..| |done]. rewrite reported_ok_false. split; [done|].
      intros [Hr _]. by apply Hok in Hr.
Qed.

(** C31: what a monitor reports, and what the documents say it reports. Its reports alternate, a
    success first. After any rounds of checks the last report is a success exactly when some
    check succeeded and either the last check did, or the failures since the start of the
    monitor are fewer than the configured number. The examples of configurations speak of
    continuous failures instead: a proxy that the code keeps the documents keep too, and the
    code takes a proxy off that the documents keep exactly when fewer checks than configured
    have failed since the last success, but not fewer together with those before it. *)
Theorem health_status_exact cfg addr oks :
  failures oks < 2 ^ 63 →
  let limit := positive_or (hc_MaxFailed cfg) 1 in
  let '(cs, m) := check_rounds (NewMonitor cfg addr) oks in
  alternate statusNormalFn cs ∧
  (last cs = Some statusNormalFn ↔ reported_ok limit oks) ∧
  (last cs = Some statusNormalFn → documented_ok limit oks) ∧
  (documented_ok limit oks ∧ last cs ≠ Some statusNormalFn ↔
   ∃ pre n, oks = pre ++ true :: replicate n false ∧ (0 < n)%nat ∧ Z.of_nat n < limit <= failures pre + Z.of_nat n).
Proof.
  intros Hlt limit. pose proof (rounds_inv cfg addr oks Hlt) as H.
  assert (0 < limit) as Hl by (unfold limit, positive_or; destruct (Z.leb_spec (hc_MaxFailed cfg) 0); lia).
  destruct (reported_vs_documented limit oks Hl) as [Hrd Hdiv].
  destruct (check_rounds _ oks) as [cs m]. destruct H as (Hmax & _ & Hok & Halt). fold limit in Hmax. rewrite Hmax in Hok.
  assert (∀ c cs', alternate c (cs' ++ [next_callback m]) → alternate c cs' ∧
    (last cs' = Some statusNormalFn ↔ statusOK m = true ∧ cs' ≠ [])) as Hlast.
  { clear. intros c cs'. revert c. induction cs' as [|d cs' IH]; intros c; simpl.
    - intros _. split; [done|]. naive_solver.
    - intros [-> H]. destruct (IH _ H) as [Ha Hl]. split; [done|].
      destruct cs' as [|e cs']; [|rewrite last_cons_cons, Hl; naive_solver].
      simpl in *. unfold next_callback in H. destruct c, (statusOK m); naive_solver. }
  destruct (Hlast _ _ Halt) as [Ha Hl'].
  assert (last cs = Some statusNormalFn ↔ reported_ok limit oks) as Hrep.
  { rewrite Hl', <- Hok. split; [naive_solver|]. intros Hs. split; [done|]. intros ->. simpl in Halt.
    unfold next_callback in Halt. rewrite Hs in Halt. naive_solver. }
  rewrite Hrep. by split_and!.
Qed.

(** Failures are counted since the start of the monitor and not reset by a success:
    as soon as the monitor has seen the configured number of failures less one, however
    long ago and with successes in between, each single failure after a success is reported
    as failed, and the proxy is taken off the server. *)
Theorem health_failures_never_reset cfg addr oks :
  failures oks + 1 < 2 ^ 63 → hc_MaxFailed cfg - 1 <= failures oks →
  let '(cs, m) := check_rounds (NewMonitor cfg addr) (oks ++ [true]) in
  fst (check_round m false) = Some statusFailedFn.
Proof.
  intros Hlt Hmax.
  assert (failures (oks ++ [true]) = failures oks) as Hf by (rewrite failures_app; change (failures [true]) with 0; lia).
  pose proof (rounds_inv cfg addr (oks ++ [true]) ltac:(lia)) as H.
  destruct (check_rounds _ (oks ++ [true])) as [cs m]. destruct H as (Hm & Hfm & Hok & _).
  unfold check_round. rewrite (proj2 Hok (reported_ok_true _ _)), Hfm, Hf.
  pose proof (failures_nonneg oks). rewrite Z.mod_small by lia.
  rewrite wrap64_id by (unfold int64_min, int64_max; lia).
  rewrite Hm. unfold positive_or. destruct (Z.leb_spec (hc_MaxFailed cfg) 0);
    rewrite (proj2 (Z.leb_le _ _)) by lia; done.
Qed.

(** ** Witnesses *)

Definition three : HealthCheckConfig := mkHealthCheck "tcp" 3 3 10 "" [].

Lemma health_status_exact_witness :
  last (fst (check_rounds (NewMonitor three "127.0.0.1:22") [true; false; false])) = Some statusNormalFn.
Proof.
  pose proof (health_status_exact three "127.0.0.1:22" [true; false; false] ltac:(vm_compute; reflexivity)) as H.
  destruct (check_rounds (NewMonitor three "127.0.0.1:22") [true; false; false]) as [cs m].
  destruct H as (_ & H & _). apply H. exists [], 2%nat. split; [reflexivity|]. right. vm_compute. reflexivity.
Defined.

Lemma health_failures_never_reset_witness :
  fst (check_round (snd (check_rounds (NewMonitor three "127.0.0.1:22")
    ([true; false; true; true; false] ++ [true]))) false) = Some statusFailedFn.
Proof.
  pose proof (health_failures_never_reset three "127.0.0.1:22" [true; false; true; true; false]
    ltac:(vm_compute; reflexivity) ltac:(vm_compute; discriminate)) as H.
  destruct (check_rounds _ _) as [cs m]. exact H.
Defined.
