(* ===== verification/ClientProxy.v ===== *)
(** The client's side of a proxy: the wrapper that asks the server for it
    ([src/client/proxy/proxy_wrapper.go]), the manager that follows the configuration
    ([proxy_manager.go]), and the names of proxies ([src/pkg/naming/names.go]).

    A wrapper is changed by rounds of its [checkWorker], by answers of the server, by the
    two callbacks of its health monitor and by [Stop]; each of them holds the wrapper's
    lock while it runs, so that a run is a sequence of these events. *)
From Stdlib Require Import ZArith Lia Ascii String.
From stdpp Require Import base gmap strings list fin_maps.
From S2P Require Import Prelude GoStrings ProxyConf.
Local Open Scope string_scope.
Local Open Scope list_scope.

(** ** Names *)

Definition AddUserPrefix (user name : string) : string :=
  if user =s? "" then name else user +:+ "." +:+ name.

Definition StripUserPrefix (user name : string) : string :=
  if user =s? "" then name else default name (CutPrefix name (user +:+ ".")).

Definition BuildTargetServerProxyName (localUser serverUser serverName : string) : string :=
  if negb (serverUser =s? "") then AddUserPrefix serverUser serverName
  else AddUserPrefix localUser serverName.

(** The answer of the server finds the proxy that asked. *)
Lemma Strip_Add user name : StripUserPrefix user (AddUserPrefix user name) = name.
Proof.
  unfold StripUserPrefix, AddUserPrefix. destruct (seqb_spec user "") as [->|]; [done|].
  rewrite <- append_assoc. by rewrite (proj2 (CutPrefix_spec _ _ name) eq_refl).
Qed.

(** ** Wrappers *)

Inductive ProxyPhase := PhaseNew | PhaseWaitStart | PhaseStartErr | PhaseRunning | PhaseCheckFailed | PhaseClosed.
#[global] Instance ProxyPhase_eq_dec : EqDecision ProxyPhase.
Proof. solve_decision. Defined.

Definition waitResponseTimeout : duration := (20 * Second)%Z.
Definition startErrTimeout : duration := (30 * Second)%Z.

Section client.
Context {plugin : Type} `{EqDecision plugin}.
Abbreviation configurer := (ProxyConfigurer plugin).

(** [ClientCommonConfig.User]. *)
Variable User : string.

Record Wrapper := mkWrapper {
  Cfg : configurer; Phase : ProxyPhase; pw_Err : string; RemoteAddr : string;
  unhealthy : bool;                       (* the field health: 1 means failed *)
  lastSendStartMsg : time; lastStartErr : time }.

Definition pw_name (pw : Wrapper) : string := Name (GetBaseConfig (Cfg pw)).
Definition wireName (pw : Wrapper) : string := AddUserPrefix User (pw_name pw).

(** The messages a wrapper sends to the server. *)
Inductive wmsg := StartProxy (m : NewProxy) | CloseProxyMsg (name : string).

Definition has_monitor (c : configurer) : bool :=
  negb (hc_Type (HealthCheck (GetBaseConfig c)) =s? "") && (0 <? LocalPort (Backend (GetBaseConfig c)))%Z.

Definition NewWrapper (cfg : configurer) : Wrapper := mkWrapper cfg PhaseNew "" "" (has_monitor cfg) 0 0.

Definition pw_set (pw : Wrapper) (ph : ProxyPhase) (err addr : string) (sent started : time) : Wrapper :=
  mkWrapper (Cfg pw) ph err addr (unhealthy pw) sent started.

(** [SetRunningStatus]; [run_err] is the error of [pw.pxy.Run], empty for none. *)
Definition SetRunningStatus (now : time) (remoteAddr respErr run_err : string) (pw : Wrapper)
    : list wmsg * Wrapper :=
  if negb (bool_decide (Phase pw = PhaseWaitStart)) then ([], pw)
  else if negb (respErr =s? "")
  then ([], pw_set pw PhaseStartErr respErr remoteAddr (lastSendStartMsg pw) now)
  else if negb (run_err =s? "")
  then ([CloseProxyMsg (wireName pw)], pw_set pw PhaseStartErr run_err remoteAddr (lastSendStartMsg pw) now)
  else ([], pw_set pw PhaseRunning "" remoteAddr (lastSendStartMsg pw) (lastStartErr pw)).

(** The message: the configuration's, with the name the server knows. *)
Definition with_name (n : string) (m : NewProxy) : NewProxy :=
  mkNewProxy n (np_ProxyType m) (np_UseEncryption m) (np_UseCompression m)
    (np_BandwidthLimit m) (np_BandwidthLimitMode m) (np_Group m) (np_GroupKey m) (np_Metas m)
    (np_Annotations m) (np_RemotePort m) (np_CustomDomains m) (np_SubDomain m) (np_Locations m)
    (np_HTTPUser m) (np_HTTPPwd m) (np_HostHeaderRewrite m) (np_Headers m) (np_ResponseHeaders m)
    (np_RouteByHTTPUser m) (np_Sk m) (np_AllowUsers m) (np_Multiplexer m).

Definition start_msg (pw : Wrapper) : NewProxy :=
  with_name (wireName pw) (MarshalToMsg (Cfg pw) zero_NewProxy).

Definition due (now : time) (pw : Wrapper) : bool :=
  match Phase pw with
  | PhaseNew | PhaseCheckFailed => true
  | PhaseWaitStart => time_after now (lastSendStartMsg pw + waitResponseTimeout)
  | PhaseStartErr => time_after now (lastStartErr pw + startErrTimeout)
  | PhaseRunning | PhaseClosed => false
  end.

(** One round of [checkWorker]. *)
Definition check_status (now : time) (pw : Wrapper) : list wmsg * Wrapper :=
  if negb (unhealthy pw) then
    if due now pw
    then ([StartProxy (start_msg pw)],
          pw_set pw PhaseWaitStart (pw_Err pw) (RemoteAddr pw) now (lastStartErr pw))
    else ([], pw)
  else
    if bool_decide (Phase pw = PhaseRunning ∨ Phase pw = PhaseWaitStart)
    then ([CloseProxyMsg (wireName pw)],
          pw_set pw PhaseCheckFailed (pw_Err pw) (RemoteAddr pw) (lastSendStartMsg pw) (lastStartErr pw))
    else ([], pw).

Definition set_health (failed : bool) (pw : Wrapper) : Wrapper :=
  mkWrapper (Cfg pw) (Phase pw) (pw_Err pw) (RemoteAddr pw) failed (lastSendStartMsg pw) (lastStartErr pw).
Definition statusNormalCallback (pw : Wrapper) : Wrapper := set_health false pw.
Definition statusFailedCallback (pw : Wrapper) : Wrapper := set_health true pw.

(** [Stop]; [None] is the panic of closing a channel twice. *)
Definition Stop (pw : Wrapper) : option (list wmsg * Wrapper) :=
  match Phase pw with
  | PhaseClosed => None
  | _ => Some ([CloseProxyMsg (wireName pw)],
               pw_set pw PhaseClosed (pw_Err pw) (RemoteAddr pw) (lastSendStartMsg pw) (lastStartErr pw))
  end.

(** [InWorkConn]: is the connection handed to the proxy, or closed? *)
Definition pw_InWorkConn (pw : Wrapper) : bool := bool_decide (Phase pw = PhaseRunning).

(** *** Runs of one wrapper; a second [Stop] does not happen, since [Stop] is called on
    the wrappers the manager drops. *)

Inductive wevent :=
| EvCheck (now : time)
| EvResp (now : time) (remoteAddr respErr run_err : string)
| EvHealthy | EvUnhealthy
| EvStop (now : time).

Definition ev_time (e : wevent) : option time :=
  match e with EvCheck t | EvResp t _ _ _ | EvStop t => Some t | _ => None end.

Definition wstep (pw : Wrapper) (e : wevent) : list wmsg * Wrapper :=
  match e with
  | EvCheck now => check_status now pw
  | EvResp now addr err run_err => SetRunningStatus now addr err run_err pw
  | EvHealthy => ([], statusNormalCallback pw)
  | EvUnhealthy => ([], statusFailedCallback pw)
  | EvStop _ => default ([], pw) (Stop pw)
  end.

(** The messages sent, each with its time, oldest first. *)
Abbreviation trace := (list (time * wmsg)).

Definition stamp (e : wevent) (ms : list wmsg) : trace := pair (default 0%Z (ev_time e)) <$> ms.

Definition wrun_step (s : trace * Wrapper) (e : wevent) : trace * Wrapper :=
  let '(ms, pw) := wstep (snd s) e in (fst s ++ stamp e ms, pw).

Definition wrun (cfg : configurer) (evs : list wevent) : trace * Wrapper :=
  foldl wrun_step ([], NewWrapper cfg) evs.

(** *** What the server was told last *)

Definition told (tr : trace) (pw : Wrapper) : Prop :=
  match Phase pw with
  | PhaseNew => tr = []
  | PhaseWaitStart => ∃ tr', tr = tr' ++ [(lastSendStartMsg pw, StartProxy (start_msg pw))]
  | PhaseRunning => ∃ tr' t, tr = tr' ++ [(t, StartProxy (start_msg pw))]
  | PhaseStartErr => ∃ tr' t m, tr = tr' ++ [(t, m)] ∧
      (m = StartProxy (start_msg pw) ∧ (t <= lastStartErr pw)%Z ∨ m = CloseProxyMsg (wireName pw))
  | PhaseCheckFailed | PhaseClosed => ∃ tr' t, tr = tr' ++ [(t, CloseProxyMsg (wireName pw))]
  end.

(** The clock does not go back; [T] is its last reading. *)
Fixpoint ordered (T : time) (evs : list wevent) : Prop :=
  match evs with
  | [] => True
  | e :: evs => match ev_time e with
                | Some t => (T <= t)%Z ∧ ordered t evs
                | None => ordered T evs
                end
  end.

(** Two starts in a row are apart. *)
Definition spaced (tr : trace) : Prop :=
  ∀ pre t1 m1 t2 m2 post, tr = pre ++ (t1, StartProxy m1) :: (t2, StartProxy m2) :: post →
    (t1 + waitResponseTimeout < t2)%Z.

Lemma spaced_close tr t n : spaced tr → spaced (tr ++ [(t, CloseProxyMsg n)]).
Proof.
  intros H pre t1 m1 t2 m2 post Heq. destruct post as [|y post _] using rev_ind.
  - change (pre ++ _) with (pre ++ [(t1, StartProxy m1)] ++ [(t2, StartProxy m2)]) in Heq.
    rewrite app_assoc in Heq. by apply app_inj_tail in Heq as [_ [=]].
  - rewrite !app_comm_cons, app_assoc in Heq. apply app_inj_tail in Heq as [-> _]. by eapply H.
Qed.

Lemma spaced_start tr t m :
  spaced tr → (∀ tr' t' m', tr = tr' ++ [(t', StartProxy m')] → (t' + waitResponseTimeout < t)%Z) →
  spaced (tr ++ [(t, StartProxy m)]).
Proof.
  intros H Hlast pre t1 m1 t2 m2 post Heq. destruct post as [|y post _] using rev_ind.
  - change (pre ++ _) with (pre ++ [(t1, StartProxy m1)] ++ [(t2, StartProxy m2)]) in Heq.
    rewrite app_assoc in Heq. apply app_inj_tail in Heq as [-> [= <- <-]]. by eapply Hlast.
  - rewrite !app_comm_cons, app_assoc in Heq. apply app_inj_tail in Heq as [-> _]. by eapply H.
Qed.

Record winv (cfg : configurer) (T : time) (s : trace * Wrapper) : Prop := {
  wi_cfg : Cfg (snd s) = cfg;
  wi_told : told (fst s) (snd s);
  wi_sent : Phase (snd s) = PhaseWaitStart → (lastSendStartMsg (snd s) <= T)%Z;
  wi_spaced : spaced (fst s) }.

Lemma winv_later cfg T T' s : winv cfg T s → (T <= T')%Z → winv cfg T' s.
Proof. intros [H1 H2 H3 H4] HT. split; [done|done| |done]. intros E. specialize (H3 E). lia. Qed.

(** Starting is only due long after the last start. *)
Lemma due_spaced now tr pw :
  told tr pw → due now pw = true →
  ∀ tr' t' m', tr = tr' ++ [(t', StartProxy m')] → (t' + waitResponseTimeout < now)%Z.
Proof.
  unfold told, due, time_after, waitResponseTimeout, startErrTimeout, Second, Millisecond.
  intros Ht Hd tr' t' m' ->. destruct (Phase pw); try done.
  - by destruct tr'.
  - destruct Ht as (tr0 & Heq). apply app_inj_tail in Heq as [_ [= -> ->]]. lia.
  - destruct Ht as (tr0 & t & m & Heq & Hor). apply app_inj_tail in Heq as [_ [= -> <-]].
    destruct Hor as [[_ Hle]|[=]]. lia.
  - destruct Ht as (tr0 & t & Heq). by apply app_inj_tail in Heq as [_ [=]].
Qed.

Lemma check_inv cfg now tr pw :
  winv cfg now (tr, pw) → winv cfg now (wrun_step (tr, pw) (EvCheck now)).
Proof.
  intros [Hcfg Ht Hs Hsp]. simpl in *. unfold wrun_step. simpl. unfold check_status.
  destruct (unhealthy pw) eqn:Hu; simpl.
  - case_bool_decide as Hph; [|simpl; rewrite app_nil_r; by split].
    split; simpl; [done| |done|by apply spaced_close]. by exists tr, now.
  - destruct (due now pw) eqn:Hd; [|simpl; rewrite app_nil_r; by split].
    split; simpl; [done|by exists tr|done|]. apply spaced_start; [done|]. by eapply due_spaced.
Qed.

Lemma resp_inv cfg now addr err run_err tr pw :
  winv cfg now (tr, pw) → winv cfg now (wrun_step (tr, pw) (EvResp now addr err run_err)).
Proof.
  intros [Hcfg Ht Hs Hsp]. simpl in *. unfold wrun_step. simpl. unfold SetRunningStatus.
  case_bool_decide as Hph; [|simpl; rewrite app_nil_r; by split]. simpl. specialize (Hs Hph).
  unfold told in Ht. rewrite Hph in Ht. destruct Ht as (tr' & ->).
  destruct (err =s? ""); simpl; [destruct (run_err =s? ""); simpl|].
  - rewrite app_nil_r. split; simpl; [done| |done|done]. by eexists _, _.
  - split; simpl; [done| |done|by apply spaced_close]. eexists _, _, _. split; [done|by right].
  - rewrite app_nil_r. split; simpl; [done| |done|done]. eexists _, _, _. split; [done|]. by left.
Qed.

Lemma stop_inv cfg now tr pw :
  winv cfg now (tr, pw) → winv cfg now (wrun_step (tr, pw) (EvStop now)).
Proof.
  intros [Hcfg Ht Hs Hsp]. simpl in *. unfold wrun_step. simpl. unfold Stop.
  destruct (Phase pw) eqn:Hph; simpl;
    try (split; simpl; [done| |done|by apply spaced_close]; by eexists _, _).
  rewrite app_nil_r. split; simpl; [done..| |done]. by rewrite Hph.
Qed.

Lemma health_inv cfg T b tr pw : winv cfg T (tr, pw) → winv cfg T (tr ++ [], set_health b pw).
Proof. intros [Hcfg Ht Hs Hsp]. rewrite app_nil_r. by split. Qed.

Lemma wrun_inv cfg T evs s :
  winv cfg T s → ordered T evs → ∃ T', winv cfg T' (foldl wrun_step s evs).
Proof.
  revert T s. induction evs as [|e evs IH]; intros T [tr pw] Hi Ho; [by exists T|].
  destruct e as [now|now addr err run_err| | |now]; simpl in Ho.
  - destruct Ho as [Hle Ho]. apply (IH now); [|done]. apply check_inv. by eapply winv_later.
  - destruct Ho as [Hle Ho]. apply (IH now); [|done]. apply resp_inv. by eapply winv_later.
  - apply (IH T); [|done]. by apply health_inv.
  - apply (IH T); [|done]. by apply health_inv.
  - destruct Ho as [Hle Ho]. apply (IH now); [|done]. apply stop_inv. by eapply winv_later.
Qed.

Lemma new_inv cfg T : winv cfg T ([], NewWrapper cfg).
Proof. split; simpl; [done..|]. intros pre t1 m1 t2 m2 post H. by destruct pre. Qed.

Lemma closed_stays evs s :
  Phase (snd s) = PhaseClosed →
  fst (foldl wrun_step s evs) = fst s ∧ Phase (snd (foldl wrun_step s evs)) = PhaseClosed.
Proof.
  revert s. induction evs as [|e evs IH]; intros [tr pw] Hc; [done|]. simpl in *.
  assert (fst (wrun_step (tr, pw) e) = tr ∧ Phase (snd (wrun_step (tr, pw) e)) = PhaseClosed) as [Htr Hph].
  { unfold wrun_step. destruct e as [now|now addr err run_err| | |now]; simpl.
    - unfold check_status, due. rewrite Hc.
      destruct (unhealthy pw); simpl; by rewrite app_nil_r.
    - unfold SetRunningStatus. rewrite Hc, bool_decide_eq_false_2 by done. simpl. by rewrite app_nil_r.
    - by rewrite app_nil_r.
    - by rewrite app_nil_r.
    - unfold Stop. rewrite Hc. simpl. by rewrite app_nil_r. }
  destruct (IH _ Hph) as [-> ?]. by rewrite Htr.
Qed.

(** C30: what the server was told. In every run of a wrapper the last message it sent agrees
    with its phase: while it waits or runs it is a request for the proxy of its
    configuration, under the user's name; when its check failed or it is closed it is the
    request to close it. Once closed it says nothing any more. *)
Theorem wrapper_server_view cfg T evs :
  ordered T evs →
  let '(tr, pw) := wrun cfg evs in
  Cfg pw = cfg ∧
  match Phase pw with
  | PhaseNew => tr = []
  | PhaseWaitStart | PhaseRunning => ∃ t, snd <$> last tr = Some t ∧ t = StartProxy (start_msg pw) ∧
      np_ProxyName (start_msg pw) = AddUserPrefix User (Name (GetBaseConfig cfg))
  | PhaseStartErr => ∃ t, snd <$> last tr = Some t ∧
      (t = StartProxy (start_msg pw) ∨ t = CloseProxyMsg (wireName pw))
  | PhaseCheckFailed => snd <$> last tr = Some (CloseProxyMsg (wireName pw))
  | PhaseClosed => snd <$> last tr = Some (CloseProxyMsg (wireName pw)) ∧
      ∀ evs', fst (wrun cfg (evs ++ evs')) = tr ∧ Phase (snd (wrun cfg (evs ++ evs'))) = PhaseClosed
  end.
Proof.
  intros Ho. destruct (wrun_inv cfg T evs _ (new_inv cfg T) Ho) as [T' Hi].
  pose proof (closed_stays) as Hc. unfold wrun.
  specialize (λ evs', Hc evs' (foldl wrun_step ([], NewWrapper cfg) evs)).
  assert (∀ evs', foldl wrun_step ([], NewWrapper cfg) (evs ++ evs') =
    foldl wrun_step (foldl wrun_step ([], NewWrapper cfg) evs) evs') as Happ by (intros; apply foldl_app).
  destruct (foldl wrun_step _ evs) as [tr pw]. destruct Hi as [Hcfg Ht _ _]. simpl in *.
  split; [done|]. unfold told in Ht. destruct (Phase pw) eqn:Hph; [done|..].
  - destruct Ht as (tr' & ->). rewrite last_snoc. simpl. eexists. split_and!; [done..|].
    unfold wireName, pw_name. by rewrite Hcfg.
  - destruct Ht as (tr' & t & m & -> & Hor). rewrite last_snoc. simpl. eexists. split; [done|].
    destruct Hor as [[-> _]| ->]; auto.
  - destruct Ht as (tr' & t & ->). rewrite last_snoc. simpl. eexists. split_and!; [done..|].
    unfold wireName, pw_name. by rewrite Hcfg.
  - destruct Ht as (tr' & t & ->). by rewrite last_snoc.
  - destruct Ht as (tr' & t & ->). split; [by rewrite last_snoc|]. intros evs'. rewrite Happ. by apply Hc.
Qed.

(** A wrapper does not press the server: two requests for a proxy with no request to
    close it in between are more than the 20 seconds of [waitResponseTimeout] apart, as
    long as the clock does not go back. *)
Theorem wrapper_retry_spacing cfg T evs pre t1 m1 t2 m2 post :
  ordered T evs →
  fst (wrun cfg evs) = pre ++ (t1, StartProxy m1) :: (t2, StartProxy m2) :: post →
  (t1 + 20 * Second < t2)%Z.
Proof.
  intros Ho Heq. destruct (wrun_inv cfg T evs _ (new_inv cfg T) Ho) as [T' Hi].
  by eapply (wi_spaced _ _ _ Hi).
Qed.

(** Answers are not matched with requests. If the check of a proxy fails and recovers
    while the answer to its first request is under way, the wrapper asks again and takes the
    first answer for the second request; the second answer is then ignored, so that
    the wrapper runs, with the address of the first, although the server has closed the
    first proxy at its request and refused the second. *)
Theorem stale_answer_taken cfg t1 t2 t3 t4 t5 addr err :
  err ≠ "" → has_monitor cfg = true →
  let '(tr, pw) := wrun cfg [EvHealthy; EvCheck t1; EvUnhealthy; EvCheck t2; EvHealthy; EvCheck t3;
                             EvResp t4 addr "" ""; EvResp t5 "" err ""] in
  snd <$> tr = [StartProxy (start_msg pw); CloseProxyMsg (wireName pw); StartProxy (start_msg pw)] ∧
  Phase pw = PhaseRunning ∧ RemoteAddr pw = addr ∧ pw_Err pw = "" ∧ pw_InWorkConn pw = true.
Proof.
  intros Herr Hm. unfold wrun, NewWrapper. rewrite Hm. cbn [foldl wrun_step wstep snd fst].
  unfold check_status, SetRunningStatus, statusNormalCallback, statusFailedCallback, due, set_health. simpl.
  by split_and!.
Qed.

(** ** The manager of the client's proxies *)

(** A wrapper object has an identity; the trace of the others is kept out of it. *)
Record Manager := mkManager {
  pm_proxies : gmap string (nat * Wrapper);
  pm_next : nat;
  pm_stopped : list nat;             (* objects whose Stop was called *)
  pm_sent : list wmsg }.

Definition NewManager : Manager := mkManager ∅ 0 [] [].

(** [StartProxy], [HandleWorkConn]: [None] where no proxy has the name. *)
Definition pm_StartProxy (now : time) (name remoteAddr respErr run_err : string) (m : Manager)
    : option Manager :=
  match pm_proxies m !! name with
  | None => None
  | Some (id, pw) =>
      let '(ms, pw) := SetRunningStatus now remoteAddr respErr run_err pw in
      Some (mkManager (<[name := (id, pw)]> (pm_proxies m)) (pm_next m) (pm_stopped m) (pm_sent m ++ ms))
  end.

Definition HandleWorkConn (name : string) (m : Manager) : bool :=
  match pm_proxies m !! name with Some (_, pw) => pw_InWorkConn pw | None => false end.

Definition stop_one (x : string * (nat * Wrapper)) (m : Manager) : Manager :=
  match Stop (snd (snd x)) with
  | None => m
  | Some (ms, _) => mkManager (pm_proxies m) (pm_next m) (pm_stopped m ++ [fst (snd x)]) (pm_sent m ++ ms)
  end.

Definition pm_Close (m : Manager) : Manager :=
  let m' := foldr stop_one m (map_to_list (pm_proxies m)) in
  mkManager ∅ (pm_next m') (pm_stopped m') (pm_sent m').

Definition cfg_name (c : configurer) : string := Name (GetBaseConfig c).

(** [lo.KeyBy]: of two configurations with one name the later one. *)
Definition KeyBy (cfgs : list configurer) : gmap string configurer := key_by cfg_name cfgs.

Definition keeps (cfgs : gmap string configurer) (x : string * (nat * Wrapper)) : Prop :=
  cfgs !! fst x = Some (Cfg (snd (snd x))).
#[global] Instance keeps_dec cfgs x : Decision (keeps cfgs x).
Proof. unfold keeps. apply _. Defined.

Definition add_one (m : Manager) (c : configurer) : Manager :=
  match pm_proxies m !! cfg_name c with
  | Some _ => m
  | None => mkManager (<[cfg_name c := (pm_next m, NewWrapper c)]> (pm_proxies m)) (S (pm_next m))
              (pm_stopped m) (pm_sent m)
  end.

(** [UpdateAll]: what is gone or changed is deleted and stopped, then what is missing is
    added and started; the order of the stops is that of the iteration over the map. *)
Definition drop_changed (cfgs : gmap string configurer) (m : Manager) : Manager :=
  let m' := foldr stop_one m (filter (λ x, ¬ keeps cfgs x) (map_to_list (pm_proxies m))) in
  mkManager (filter (keeps cfgs) (pm_proxies m)) (pm_next m') (pm_stopped m') (pm_sent m').

Definition UpdateAll (cfgs : list configurer) (m : Manager) : Manager :=
  foldl add_one (drop_changed (KeyBy cfgs) m) cfgs.

(** *** Runs of the manager *)

Inductive pm_op := PUpdate (cfgs : list configurer) | PEvent (name : string) (e : wevent) | PClose.

Definition not_stop (e : wevent) : bool := match e with EvStop _ => false | _ => true end.

(** An event of a wrapper of the manager; only the manager stops wrappers. *)
Definition pm_event (name : string) (e : wevent) (m : Manager) : Manager :=
  match pm_proxies m !! name with
  | Some (id, pw) =>
      if not_stop e then
        let '(ms, pw) := wstep pw e in
        mkManager (<[name := (id, pw)]> (pm_proxies m)) (pm_next m) (pm_stopped m) (pm_sent m ++ ms)
      else m
  | None => m
  end.

Definition pm_step (m : Manager) (o : pm_op) : Manager :=
  match o with
  | PUpdate cfgs => if decide (NoDup (cfg_name <$> cfgs)) then UpdateAll cfgs m else m
  | PEvent name e => pm_event name e m
  | PClose => pm_Close m
  end.

Definition pm_run (ops : list pm_op) : Manager := foldl pm_step NewManager ops.

Record pm_wf (m : Manager) : Prop := {
  pw_keyed : ∀ n id pw, pm_proxies m !! n = Some (id, pw) → cfg_name (Cfg pw) = n;
  pw_live : ∀ n id pw, pm_proxies m !! n = Some (id, pw) → Phase pw ≠ PhaseClosed;
  pw_fresh : ∀ n id pw, pm_proxies m !! n = Some (id, pw) → (id < pm_next m)%nat ∧ id ∉ pm_stopped m;
  pw_inj : ∀ n1 n2 id p1 p2, pm_proxies m !! n1 = Some (id, p1) → pm_proxies m !! n2 = Some (id, p2) → n1 = n2;
  pw_old : ∀ id, id ∈ pm_stopped m → (id < pm_next m)%nat }.

Lemma stop_live pw : Phase pw ≠ PhaseClosed → ∃ pw', Stop pw = Some ([CloseProxyMsg (wireName pw)], pw').
Proof. unfold Stop. destruct (Phase pw); try done; intros _; by eexists. Qed.

(** The effect of stopping a list of live wrappers. *)
Lemma stop_all l m :
  Forall (λ x : string * (nat * Wrapper), Phase (snd (snd x)) ≠ PhaseClosed) l →
  pm_proxies (foldr stop_one m l) = pm_proxies m ∧ pm_next (foldr stop_one m l) = pm_next m ∧
  (∀ id, id ∈ pm_stopped (foldr stop_one m l) ↔ id ∈ pm_stopped m ∨ id ∈ (λ x, fst (snd x)) <$> l) ∧
  (∀ x, x ∈ l → CloseProxyMsg (wireName (snd (snd x))) ∈ pm_sent (foldr stop_one m l)) ∧
  (l = [] → foldr stop_one m l = m).
Proof.
  intros Hl. induction Hl as [|x l Hx Hl IH]; simpl.
  { split_and!; try done. - intros id. split; [by left|]. intros [?|H]; [done|]. by apply not_elem_of_nil in H.
    - intros x H. by apply not_elem_of_nil in H. }
  destruct IH as (IH1 & IH2 & IH3 & IH4 & _). unfold stop_one at 1 3 5 7 9.
  destruct (stop_live _ Hx) as [pw' ->]. cbn [pm_proxies pm_next pm_stopped pm_sent]. split_and!; [done|done| | |done].
  - intros id. rewrite elem_of_app, IH3, list_elem_of_singleton, elem_of_cons. tauto.
  - intros y [->|Hy]%elem_of_cons; rewrite elem_of_app; [right; by left|left; by apply IH4].
Qed.

Lemma live_list m :
  pm_wf m → Forall (λ x : string * (nat * Wrapper), Phase (snd (snd x)) ≠ PhaseClosed) (map_to_list (pm_proxies m)).
Proof.
  intros Hwf. apply Forall_forall. intros [n [id pw]] Hx%elem_of_map_to_list. by eapply (pw_live _ Hwf).
Qed.

Lemma drop_spec cfgs m :
  pm_wf m →
  pm_proxies (drop_changed cfgs m) = filter (keeps cfgs) (pm_proxies m) ∧
  pm_next (drop_changed cfgs m) = pm_next m ∧
  (∀ id, id ∈ pm_stopped (drop_changed cfgs m) ↔ id ∈ pm_stopped m ∨
     ∃ n pw, pm_proxies m !! n = Some (id, pw) ∧ ¬ keeps cfgs (n, (id, pw))) ∧
  (∀ n id pw, pm_proxies m !! n = Some (id, pw) → ¬ keeps cfgs (n, (id, pw)) →
     CloseProxyMsg (wireName pw) ∈ pm_sent (drop_changed cfgs m)) ∧
  ((∀ n x, pm_proxies m !! n = Some x → keeps cfgs (n, x)) → drop_changed cfgs m = m).
Proof.
  intros Hwf. unfold drop_changed. cbn [pm_proxies pm_next pm_stopped pm_sent].
  set (l := filter (λ x, ¬ keeps cfgs x) (map_to_list (pm_proxies m))).
  assert (Forall (λ x : string * (nat * Wrapper), Phase (snd (snd x)) ≠ PhaseClosed) l) as Hl
    by (apply Forall_filter_2, live_list, Hwf).
  assert (∀ x, x ∈ l ↔ pm_proxies m !! fst x = Some (snd x) ∧ ¬ keeps cfgs x) as Hin.
  { intros [n x]. unfold l. rewrite list_elem_of_filter, elem_of_map_to_list. tauto. }
  destruct (stop_all l m Hl) as (H1 & H2 & H3 & H4 & H5). split_and!; [done|done| | |].
  - intros id. rewrite H3, list_elem_of_fmap. split; (intros [?|H]; [by left|right]).
    + destruct H as ([n [id' pw]] & -> & [Hx Hk]%Hin). eauto.
    + destruct H as (n & pw & Hn & Hk). exists (n, (id, pw)). split; [done|]. by apply Hin.
  - intros n id pw Hn Hk. apply (H4 (n, (id, pw))). by apply Hin.
  - intros Hall. assert (l = []) as Hnil.
    { destruct l as [|[n x] l'] eqn:E; [done|]. destruct (proj1 (Hin (n, x))) as [Hx Hk]; [by left|].
      destruct Hk. by apply Hall. }
    rewrite (H5 Hnil). rewrite map_filter_id by (intros n x Hx; by apply Hall). by destruct m.
Qed.

(** *** Adding *)

Lemma KeyBy_lookup cfgs n c :
  NoDup (cfg_name <$> cfgs) → KeyBy cfgs !! n = Some c ↔ c ∈ cfgs ∧ cfg_name c = n.
Proof. apply key_by_lookup. Qed.

Lemma add_wf m c : pm_wf m → pm_wf (add_one m c).
Proof.
  intros Hwf. unfold add_one. destruct (pm_proxies m !! cfg_name c) eqn:E; [done|].
  split; cbn [pm_proxies pm_next pm_stopped]; intros *.
  - intros [[<- [= <- <-]]|[_ H]]%lookup_insert_Some; [done|by eapply (pw_keyed _ Hwf)].
  - intros [[<- [= <- <-]]|[_ H]]%lookup_insert_Some; [done|by eapply (pw_live _ Hwf)].
  - intros [[<- [= <- <-]]|[_ H]]%lookup_insert_Some.
    + split; [lia|]. intros H%(pw_old _ Hwf). lia.
    + destruct (pw_fresh _ Hwf _ _ _ H). split; [lia|done].
  - intros [[<- E1]|[_ H1]]%lookup_insert_Some [[<- E2]|[_ H2]]%lookup_insert_Some; [done|..].
    + injection E1 as <- _. apply (pw_fresh _ Hwf) in H2 as [? _]. lia.
    + injection E2 as <- _. apply (pw_fresh _ Hwf) in H1 as [? _]. lia.
    + by eapply (pw_inj _ Hwf).
  - intros H%(pw_old _ Hwf). lia.
Qed.

(** Adding keeps what is there and fills in what is missing. *)
Lemma add_all cfgs m :
  pm_wf m → NoDup (cfg_name <$> cfgs) →
  let m' := foldl add_one m cfgs in
  pm_wf m' ∧ pm_stopped m' = pm_stopped m ∧ pm_sent m' = pm_sent m ∧ (pm_next m <= pm_next m')%nat ∧
  (∀ n x, pm_proxies m !! n = Some x → pm_proxies m' !! n = Some x) ∧
  (∀ n x, pm_proxies m' !! n = Some x → pm_proxies m !! n = Some x ∨
     pm_proxies m !! n = None ∧ ∃ c, c ∈ cfgs ∧ cfg_name c = n ∧ snd x = NewWrapper c ∧ (pm_next m <= fst x)%nat) ∧
  (∀ c, c ∈ cfgs → is_Some (pm_proxies m' !! cfg_name c)) ∧
  ((∀ c, c ∈ cfgs → is_Some (pm_proxies m !! cfg_name c)) → m' = m).
Proof.
  revert m. induction cfgs as [|c cfgs IH]; intros m Hwf Hnd; simpl.
  { split_and!; try done; [by left|]. intros c H. by apply not_elem_of_nil in H. }
  apply NoDup_cons in Hnd as [Hni Hnd].
  destruct (IH (add_one m c) (add_wf m c Hwf) Hnd) as (H1 & H2 & H3 & H4 & H5 & H6 & H7 & H8).
  assert (pm_stopped (add_one m c) = pm_stopped m ∧ pm_sent (add_one m c) = pm_sent m ∧
    (pm_next m <= pm_next (add_one m c))%nat ∧
    (∀ n x, pm_proxies m !! n = Some x → pm_proxies (add_one m c) !! n = Some x) ∧
    is_Some (pm_proxies (add_one m c) !! cfg_name c) ∧
    (∀ n, n ≠ cfg_name c → pm_proxies (add_one m c) !! n = pm_proxies m !! n) ∧
    (∀ x, pm_proxies (add_one m c) !! cfg_name c = Some x → pm_proxies m !! cfg_name c = Some x ∨
       pm_proxies m !! cfg_name c = None ∧ x = (pm_next m, NewWrapper c)) ∧
    (is_Some (pm_proxies m !! cfg_name c) → add_one m c = m)) as (A1 & A2 & A3 & A4 & A5 & A6 & A7 & A8).
  { unfold add_one. destruct (pm_proxies m !! cfg_name c) eqn:E.
    { rewrite E. split_and!; try done; by left. }
    cbn [pm_stopped pm_sent pm_next pm_proxies].
    split_and!; try done; [lia| | | |].
    - intros n x Hx. rewrite lookup_insert_ne; [done|congruence].
    - rewrite lookup_insert_eq. eauto.
    - intros n Hn. by rewrite lookup_insert_ne.
    - intros x. rewrite lookup_insert_eq. intros [= <-]. auto. }
  split_and!; [done|congruence|congruence|lia|by eauto| | |].
  - intros n x [Hx|(Hx & d & Hd & Hdn & Hw & Hge)]%H6.
    + destruct (decide (n = cfg_name c)) as [->|Hn]; [|rewrite A6 in Hx by done; by left].
      destruct (A7 _ Hx) as [?|[? ->]]; [by left|]. right. split; [done|]. exists c. split_and!; [by left|done..].
    + destruct (decide (n = cfg_name c)) as [->|Hn]; [rewrite Hx in A5; by destruct A5|].
      rewrite A6 in Hx by done. right. split; [done|]. exists d. split_and!; [by right|done|done|lia].
  - intros d [->|Hd]%elem_of_cons; [|by apply H7]. destruct A5 as [x Hx]. exists x. by apply H5.
  - intros Hall. rewrite H8; [apply A8, Hall; by left|]. intros d Hd.
    destruct (Hall d ltac:(by right)) as [x Hx]. exists x. by apply A4.
Qed.

Lemma drop_wf cfgs m : pm_wf m → pm_wf (drop_changed cfgs m).
Proof.
  intros Hwf. destruct (drop_spec cfgs m Hwf) as (H1 & H2 & H3 & _).
  assert (∀ n x, pm_proxies (drop_changed cfgs m) !! n = Some x → pm_proxies m !! n = Some x ∧ keeps cfgs (n, x)) as Hsub.
  { intros n x. rewrite H1. apply map_lookup_filter_Some. }
  split; rewrite ?H2; intros *.
  - intros [H _]%Hsub. by eapply (pw_keyed _ Hwf).
  - intros [H _]%Hsub. by eapply (pw_live _ Hwf).
  - intros [H Hk]%Hsub. destruct (pw_fresh _ Hwf _ _ _ H) as [? Hns]. split; [done|].
    rewrite H3. intros [?|(n' & pw' & H' & Hk')]; [done|].
    assert (n' = n) as -> by (by eapply (pw_inj _ Hwf)). congruence.
  - intros [Ha _]%Hsub [Hb _]%Hsub. by eapply (pw_inj _ Hwf).
  - rewrite H3. intros [?|(n & pw & H & _)]; [by eapply (pw_old _ Hwf)|]. by apply (pw_fresh _ Hwf) in H as [? _].
Qed.

Lemma step_live pw e :
  not_stop e = true → Phase pw ≠ PhaseClosed →
  Phase (snd (wstep pw e)) ≠ PhaseClosed ∧ Cfg (snd (wstep pw e)) = Cfg pw.
Proof.
  intros He Hp. destruct e; simpl in *; try done.
  - unfold check_status. repeat case_match; done.
  - unfold SetRunningStatus. repeat case_match; done.
Qed.

Lemma event_wf n e m : pm_wf m → pm_wf (pm_event n e m).
Proof.
  intros Hwf. unfold pm_event. destruct (pm_proxies m !! n) as [[id pw]|] eqn:E; [|done].
  destruct (not_stop e) eqn:He; [|done].
  pose proof (step_live pw e He (pw_live _ Hwf _ _ _ E)) as [Hl Hc].
  destruct (wstep pw e) as [ms pw'] eqn:Hw. simpl in *.
  split; cbn [pm_proxies pm_next pm_stopped]; intros *.
  - intros [[<- [= <- <-]]|[_ H]]%lookup_insert_Some; [rewrite Hc|]; by eapply (pw_keyed _ Hwf).
  - intros [[<- [= <- <-]]|[_ H]]%lookup_insert_Some; [done|by eapply (pw_live _ Hwf)].
  - intros [[<- [= <- <-]]|[_ H]]%lookup_insert_Some; by eapply (pw_fresh _ Hwf).
  - intros [[<- E1]|[_ H1]]%lookup_insert_Some [[<- E2]|[_ H2]]%lookup_insert_Some; [done|..].
    + injection E1 as <- _. by eapply (pw_inj _ Hwf).
    + injection E2 as <- _. by eapply (pw_inj _ Hwf).
    + by eapply (pw_inj _ Hwf).
  - apply (pw_old _ Hwf).
Qed.

Lemma close_wf m : pm_wf m → pm_wf (pm_Close m).
Proof.
  intros Hwf. destruct (stop_all _ m (live_list m Hwf)) as (_ & H2 & H3 & _).
  unfold pm_Close. split; cbn [pm_proxies pm_next pm_stopped]; intros *; rewrite ?lookup_empty; try done.
  rewrite H2, H3. intros [?|Hid]; [by eapply (pw_old _ Hwf)|].
  apply list_elem_of_fmap in Hid as ([n [id' pw]] & -> & Hx%elem_of_map_to_list).
  by apply (pw_fresh _ Hwf) in Hx as [? _].
Qed.

Lemma update_wf cfgs m : pm_wf m → NoDup (cfg_name <$> cfgs) → pm_wf (UpdateAll cfgs m).
Proof. intros Hwf Hnd. by apply (add_all cfgs _ (drop_wf (KeyBy cfgs) m Hwf) Hnd). Qed.

Lemma pm_run_wf ops : pm_wf (pm_run ops).
Proof.
  unfold pm_run. induction ops as [|o ops IH] using rev_ind.
  { split; intros *; simpl; try done. intros H. by apply not_elem_of_nil in H. }
  rewrite foldl_app. simpl. destruct o as [cfgs|n e|]; simpl.
  - case_decide; [|done]. by apply update_wf.
  - by apply event_wf.
  - by apply close_wf.
Qed.

(** What the first half of [UpdateAll] leaves: the wrappers with a configuration of the list. *)
Lemma drop_lookup cfgs m n x :
  pm_wf m → NoDup (cfg_name <$> cfgs) →
  pm_proxies (drop_changed (KeyBy cfgs) m) !! n = Some x ↔ pm_proxies m !! n = Some x ∧ Cfg (snd x) ∈ cfgs.
Proof.
  intros Hwf Hnd. destruct (drop_spec (KeyBy cfgs) m Hwf) as (-> & _). rewrite map_lookup_filter_Some.
  unfold keeps. simpl. rewrite KeyBy_lookup by done. destruct x as [id pw]. simpl.
  split; [naive_solver|]. intros [Hn Hc]. pose proof (pw_keyed _ Hwf _ _ _ Hn). naive_solver.
Qed.

Lemma update_lookup cfgs m c :
  pm_wf m → NoDup (cfg_name <$> cfgs) → c ∈ cfgs →
  ∃ id pw, pm_proxies (UpdateAll cfgs m) !! cfg_name c = Some (id, pw) ∧ Cfg pw = c ∧
    (pm_proxies m !! cfg_name c = Some (id, pw) ∨
     pw = NewWrapper c ∧ (pm_next m <= id)%nat ∧
     ∀ x, pm_proxies m !! cfg_name c = Some x → Cfg (snd x) ≠ c).
Proof.
  intros Hwf Hnd Hc. destruct (add_all cfgs _ (drop_wf (KeyBy cfgs) m Hwf) Hnd) as (_ & _ & _ & _ & _ & A6 & A7 & _).
  fold (UpdateAll cfgs m) in A6, A7. destruct (A7 c Hc) as [[id pw] Hx]. exists id, pw. split; [done|].
  destruct (A6 _ _ Hx) as [Hold|(Hnone & d & Hin & Hname & Hw & Hge)].
  - apply drop_lookup in Hold as [Hold Hin]; [|done..]. simpl in Hin.
    assert (Cfg pw = c) as Heq; [|split; [done|by left]].
    apply (NoDup_fmap_inj_elem cfg_name cfgs); [done..|]. by apply (pw_keyed _ Hwf _ _ _ Hold).
  - cbn [fst snd] in *. assert (d = c) as -> by (by apply (NoDup_fmap_inj_elem cfg_name cfgs)).
    subst pw. split; [done|]. right. destruct (drop_spec (KeyBy cfgs) m Hwf) as (_ & D2 & _). rewrite D2 in Hge.
    split_and!; [done..|]. intros x Hx' Hcx.
    assert (pm_proxies (drop_changed (KeyBy cfgs) m) !! cfg_name c = Some x); [|congruence].
    apply drop_lookup; [done..|]. split; [done|]. by rewrite Hcx.
Qed.

Lemma update_names cfgs m n :
  pm_wf m → NoDup (cfg_name <$> cfgs) →
  is_Some (pm_proxies (UpdateAll cfgs m) !! n) ↔ n ∈ cfg_name <$> cfgs.
Proof.
  intros Hwf Hnd. split.
  - intros [x Hx]. destruct (add_all cfgs _ (drop_wf (KeyBy cfgs) m Hwf) Hnd) as (_ & _ & _ & _ & _ & A6 & _).
    fold (UpdateAll cfgs m) in A6. apply A6 in Hx as [Hold|(_ & d & Hin & <- & _)].
    + apply drop_lookup in Hold as [Hold Hin]; [|done..]. destruct x as [id pw].
      rewrite <- (pw_keyed _ Hwf _ _ _ Hold). by apply list_elem_of_fmap_2.
    + by apply list_elem_of_fmap_2.
  - intros (c & -> & Hc)%list_elem_of_fmap. destruct (update_lookup cfgs m c Hwf Hnd Hc) as (id & pw & H & _). eauto.
Qed.

Lemma update_again cfgs m :
  pm_wf m → NoDup (cfg_name <$> cfgs) → UpdateAll cfgs (UpdateAll cfgs m) = UpdateAll cfgs m.
Proof.
  intros Hwf Hnd. pose proof (update_wf cfgs m Hwf Hnd) as Hwf'. set (m' := UpdateAll cfgs m) in *.
  unfold UpdateAll at 1. destruct (drop_spec (KeyBy cfgs) m' Hwf') as (_ & _ & _ & _ & ->).
  - apply (add_all cfgs m' Hwf' Hnd). intros c Hc.
    destruct (update_lookup cfgs m c Hwf Hnd Hc) as (id & pw & H & _). eauto.
  - intros n [id pw] Hx. assert (n ∈ cfg_name <$> cfgs) as (c & -> & Hc)%list_elem_of_fmap
      by (apply (update_names cfgs m n Hwf Hnd); eauto).
    destruct (update_lookup cfgs m c Hwf Hnd Hc) as (id' & pw' & H & Hcfg & _). fold m' in H.
    rewrite H in Hx. injection Hx as -> ->. unfold keeps. simpl. apply KeyBy_lookup; [done|]. by rewrite Hcfg.
Qed.

(** [UpdateAll] makes the proxies those of the configuration, and disturbs nothing else.
    After any history, for configurations with different names: the names are those of the
    configurations and each wrapper has its configuration; a proxy whose configuration did
    not change keeps its wrapper, in its state; every other wrapper of before is stopped and
    the server is told to close its proxy; wrappers that are new have never run. A
    second update with the same configurations changes nothing. *)
Theorem UpdateAll_spec ops cfgs :
  NoDup (cfg_name <$> cfgs) →
  let m := pm_run ops in
  let m' := UpdateAll cfgs m in
  (∀ n, is_Some (pm_proxies m' !! n) ↔ n ∈ cfg_name <$> cfgs) ∧
  (∀ c, c ∈ cfgs → ∃ id pw, pm_proxies m' !! cfg_name c = Some (id, pw) ∧ Cfg pw = c ∧
     (pm_proxies m !! cfg_name c = Some (id, pw) ∨
      pw = NewWrapper c ∧ (pm_next m <= id)%nat ∧
      ∀ x, pm_proxies m !! cfg_name c = Some x → Cfg (snd x) ≠ c)) ∧
  (∀ n id pw, pm_proxies m !! n = Some (id, pw) →
     if decide (Cfg pw ∈ cfgs) then pm_proxies m' !! n = Some (id, pw) ∧ id ∉ pm_stopped m'
     else id ∈ pm_stopped m' ∧ CloseProxyMsg (wireName pw) ∈ pm_sent m') ∧
  UpdateAll cfgs m' = m'.
Proof.
  intros Hnd m m'. pose proof (pm_run_wf ops : pm_wf m) as Hwf. fold m'.
  split_and!; [by intros; apply update_names|by intros; apply update_lookup| |by apply update_again].
  intros n id pw Hn. pose proof (pw_keyed _ Hwf _ _ _ Hn) as Hname.
  destruct (drop_spec (KeyBy cfgs) m Hwf) as (_ & _ & D3 & D4 & _).
  destruct (add_all cfgs _ (drop_wf (KeyBy cfgs) m Hwf) Hnd) as (Hwf' & A2 & A3 & _ & A5 & _).
  fold (UpdateAll cfgs m) in Hwf', A2, A3, A5. fold m' in Hwf', A2, A3, A5. case_decide as Hc.
  - assert (pm_proxies m' !! n = Some (id, pw)) as Hn'; [|by split; [|apply (pw_fresh _ Hwf' _ _ _ Hn')]].
    apply A5. by apply drop_lookup.
  - assert (¬ keeps (KeyBy cfgs) (n, (id, pw))) as Hk
      by (unfold keeps; simpl; rewrite KeyBy_lookup by done; naive_solver).
    rewrite A2, A3. split; [apply D3; right; eauto|by eapply D4].
Qed.
End client.

(** ** Witnesses: a proxy with a health check, and a configuration that changes *)

Definition ssh_base (port : Z) (check : string) : ProxyBaseConfig unit :=
  mkBase "ssh" "tcp" None ∅ (mkTransport false false zero_bandwidth "client" "") ∅ (mkLoadBalancer "" "")
    (mkHealthCheck check 0 0 0 "" []) (mkBackend "127.0.0.1" port None).

Definition ssh_conf (port : Z) : ProxyConfigurer unit := TCPProxyConfig (ssh_base port "tcp") 6000.

Definition ssh_events : list wevent :=
  [EvHealthy; EvCheck 5; EvResp 6 "" "port already used" ""; EvCheck (40 * Second)].

Lemma wrapper_server_view_witness :
  ∃ t, snd <$> last (fst (wrun "alice" (ssh_conf 22) ssh_events)) = Some (StartProxy t) ∧
       np_ProxyName t = "alice.ssh".
Proof.
  pose proof (wrapper_server_view "alice" (ssh_conf 22) 0 ssh_events
    ltac:(vm_compute; repeat split; discriminate)) as H.
  destruct (wrun "alice" (ssh_conf 22) ssh_events) as [tr pw] eqn:E.
  assert (Phase pw = PhaseWaitStart) as Hph by (vm_compute in E; injection E as _ <-; reflexivity).
  destruct H as [_ H]. rewrite Hph in H. destruct H as (t & Hl & -> & Hn). by exists (start_msg "alice" pw).
Defined.

Lemma wrapper_retry_spacing_witness : (5 + 20 * Second < 40 * Second)%Z.
Proof.
  apply (wrapper_retry_spacing "alice" (ssh_conf 22) 0 ssh_events [] 5
    (start_msg "alice" (NewWrapper (ssh_conf 22))) (40 * Second)
    (start_msg "alice" (NewWrapper (ssh_conf 22))) []).
  - vm_compute. repeat split; discriminate.
  - vm_compute. reflexivity.
Defined.

Lemma stale_answer_taken_witness :
  Phase (snd (wrun "alice" (ssh_conf 22)
    [EvHealthy; EvCheck 1; EvUnhealthy; EvCheck 2; EvHealthy; EvCheck 3;
     EvResp 4 ":6000" "" ""; EvResp 5 "" "refused" ""])) = PhaseRunning.
Proof.
  pose proof (stale_answer_taken "alice" (ssh_conf 22) 1 2 3 4 5 ":6000" "refused"
    ltac:(discriminate) eq_refl) as H.
  destruct (wrun _ _ _) as [tr pw]. by destruct H as (_ & ? & _).
Defined.

Lemma UpdateAll_spec_witness :
  0%nat ∈ pm_stopped (UpdateAll "alice" [ssh_conf 23] (pm_run "alice" [PUpdate [ssh_conf 22]])).
Proof.
  destruct (UpdateAll_spec "alice" [PUpdate [ssh_conf 22]] [ssh_conf 23] ltac:(by apply NoDup_singleton))
    as (_ & _ & H & _).
  specialize (H "ssh" 0%nat (NewWrapper (ssh_conf 22)) ltac:(vm_compute; reflexivity)).
  rewrite decide_False in H; [by destruct H|].
  intros [Hc|Hc]%elem_of_cons; [discriminate|by apply not_elem_of_nil in Hc].
Defined.
