(* ===== verification/ConfigSource.v ===== *)
(** Where the client's configurations come from: the configuration file
    ([src/pkg/config/source/config_source.go]), the store the API writes ([store.go]), both on
    [base_source.go], and their union ([aggregator.go]).

    JSON is outside the program: [encode] and [decode] stand for the marshalling of the
    stored lists.  A save is a sequence of calls of the operating system, each of which may
    fail, and a crash may come between any two of them.  Of a file that was not synced a crash
    may leave anything; directory entries change atomically and in order. *)
From Stdlib Require Import ZArith Lia Ascii String.
From stdpp Require Import base gmap strings list sorting fin_maps.
From S2P Require Import Prelude GoStrings.
Local Open Scope string_scope.
Local Open Scope list_scope.

(** What the sources need of a configuration, of a proxy or of a visitor. *)
Class Configurer (C : Type) := { conf_name : C → string; conf_enabled : C → option bool }.

Section tables.
Context {C : Type} `{!Configurer C}.

(** A map from names, as Go builds it from a list. *)
Definition of_list (l : list C) : gmap string C := foldl (λ m c, <[conf_name c := c]> m) ∅ l.
Definition values (m : gmap string C) : list C := snd <$> map_to_list m.

Definition keyed (m : gmap string C) : Prop := ∀ n c, m !! n = Some c → conf_name c = n ∧ n ≠ "".

Definition is_enabled (c : C) : bool := default true (conf_enabled c).

Lemma of_list_lookup l n c :
  NoDup (conf_name <$> l) → of_list l !! n = Some c ↔ c ∈ l ∧ conf_name c = n.
Proof.
  unfold of_list. induction l as [|d l IH] using rev_ind; intros Hnd.
  { simpl. rewrite lookup_empty. split; [done|]. intros [H _]. by apply not_elem_of_nil in H. }
  rewrite fmap_app in Hnd. apply NoDup_app in Hnd as (Hnd & Hdis & _).
  rewrite foldl_app. cbn [foldl]. rewrite elem_of_app, list_elem_of_singleton.
  destruct (decide (conf_name d = n)) as [<-|Hne].
  - rewrite lookup_insert_eq. split; [intros [= <-]; auto|]. intros [[Hc| ->] Hn]; [|done].
    destruct (Hdis (conf_name d)); [|by left]. rewrite <- Hn. by apply list_elem_of_fmap_2.
  - rewrite lookup_insert_ne by done. rewrite IH by done. naive_solver.
Qed.

Lemma values_names m : keyed m → NoDup (conf_name <$> values m).
Proof.
  intros Hk. unfold values. rewrite <- list_fmap_compose.
  rewrite (list_fmap_ext (conf_name ∘ snd) fst).
  - apply NoDup_fst_map_to_list.
  - intros i [n c] Hx%list_elem_of_lookup_2%elem_of_map_to_list. simpl. by apply Hk.
Qed.

Lemma elem_of_values m c : keyed m → c ∈ values m ↔ m !! conf_name c = Some c.
Proof.
  intros Hk. unfold values. rewrite list_elem_of_fmap. split.
  - intros ([n d] & -> & Hx%elem_of_map_to_list). simpl. destruct (Hk _ _ Hx) as [-> _]. done.
  - intros Hc. exists (conf_name c, c). split; [done|]. by apply elem_of_map_to_list.
Qed.

(** Saving a map as a list and reading it back. *)
Lemma of_list_values m : keyed m → of_list (values m) = m.
Proof.
  intros Hk. apply map_eq. intros n. apply option_eq. intros c.
  rewrite of_list_lookup by (by apply values_names). rewrite elem_of_values by done.
  split; [by intros [? <-]|]. intros Hc. destruct (Hk _ _ Hc) as [<- _]. done.
Qed.

Lemma keyed_insert m c : keyed m → conf_name c ≠ "" → keyed (<[conf_name c := c]> m).
Proof. intros Hk Hn n d [[<- <-]|[_ H]]%lookup_insert_Some; [done|by apply Hk]. Qed.

Lemma keyed_delete m n : keyed m → keyed (delete n m).
Proof. intros Hk n' d [_ H]%lookup_delete_Some. by apply Hk. Qed.

Lemma keyed_empty : keyed ∅.
Proof. intros n c. by rewrite lookup_empty. Qed.
End tables.

(** ** Sources *)

Inductive source_error :=
| NameEmpty | AlreadyExists (n : string) | NotFound (n : string) | PersistFailed | LoadFailed | FileNotExist.

Section sources.
Context {P V : Type} `{!Configurer P, !Configurer V}.

Record baseSource := mkSource { s_proxies : gmap string P; s_visitors : gmap string V }.

Definition newBaseSource : baseSource := mkSource ∅ ∅.

(** [Load]: what is not disabled, in the order of the iteration over the maps. *)
Definition base_Load (s : baseSource) : list P * list V :=
  (filter (λ c, is_enabled c = true) (values (s_proxies s)),
   filter (λ c, is_enabled c = true) (values (s_visitors s))).

(** [ConfigSource.ReplaceAll]. *)
Definition ReplaceAll (proxies : list P) (visitors : list V) (s : baseSource) : result source_error baseSource :=
  if decide (Exists (λ p, conf_name p = "") proxies) then Err NameEmpty
  else if decide (Exists (λ v, conf_name v = "") visitors) then Err NameEmpty
  else Ok (mkSource (of_list proxies) (of_list visitors)).

(** ** The file of the store *)

Section store.
Context {bytes : Type}.
Variable encode : list P * list V → option bytes.
Variable decode : bytes → option (list P * list V).

(** What a file reads as, [None] for a part of the data, and whether it is sure to survive a crash. *)
Record file := mkFile { fl_data : option bytes; fl_synced : bool }.
Record fs := mkFs { f_main : option file; f_tmp : option file }.

(** Which operations of a save succeed. *)
Record io := mkIo {
  mkdir_ok : bool; open_ok : bool; write_ok : bool; sync_ok : bool; close_ok : bool; rename_ok : bool; remove_ok : bool }.

(** [loadFromFileUnlocked]; a name that is empty is refused. *)
Definition loadFromFile (f : fs) : result source_error baseSource :=
  match f_main f with
  | None => Err FileNotExist
  | Some fl =>
      match data ← fl_data fl; decode data with
      | None => Err LoadFailed
      | Some (ps, vs) =>
          if decide (Exists (λ p, conf_name p = "") ps) then Err LoadFailed
          else if decide (Exists (λ v, conf_name v = "") vs) then Err LoadFailed
          else Ok (mkSource (of_list ps) (of_list vs))
      end
  end.

(** [NewStoreSource] with a path: a file that does not exist is an empty store. *)
Definition NewStoreSource (f : fs) : result source_error baseSource :=
  match loadFromFile f with
  | Ok s => Ok s
  | Err FileNotExist => Ok newBaseSource
  | Err e => Err e
  end.

Definition save_data (s : baseSource) : option bytes := encode (values (s_proxies s), values (s_visitors s)).

(** The calls of [saveToFileUnlocked] on the temporary file, [Path + ".tmp"]. *)
Inductive fcall := FMkdirAll | FOpenTrunc | FWrite (data : bytes) | FSync | FClose | FRename | FRemove.

Definition fcall_ok (i : io) (c : fcall) : bool :=
  match c with
  | FMkdirAll => mkdir_ok i | FOpenTrunc => open_ok i | FWrite _ => write_ok i | FSync => sync_ok i
  | FClose => close_ok i | FRename => rename_ok i | FRemove => remove_ok i
  end.

(** What a call does; one that fails changes nothing but for a write, which may leave a part. *)
Definition fdo (ok : bool) (c : fcall) (f : fs) : fs :=
  match c, ok with
  | FOpenTrunc, true => mkFs (f_main f) (Some (mkFile None false))
  | FWrite data, true => mkFs (f_main f) (Some (mkFile (Some data) false))
  | FWrite _, false => mkFs (f_main f) (Some (mkFile None false))
  | FSync, true => mkFs (f_main f) ((λ x, mkFile (fl_data x) true) <$> f_tmp f)
  | FRename, true => mkFs (f_tmp f) None
  | FRemove, true => mkFs (f_main f) None
  | _, _ => f
  end.

(** The calls in their order, and whether the temporary file is removed when one fails. *)
Definition save_calls (data : bytes) : list (fcall * bool) :=
  [(FMkdirAll, false); (FOpenTrunc, false); (FWrite data, true); (FSync, true); (FClose, true); (FRename, true)].

(** The result, the disk afterwards, and all states of the disk on the way. *)
Fixpoint fexec (i : io) (calls : list (fcall * bool)) (f : fs) : bool * fs * list fs :=
  match calls with
  | [] => (true, f, [f])
  | (c, cleanup) :: calls =>
      if fcall_ok i c
      then let '(ok, f', tr) := fexec i calls (fdo true c f) in (ok, f', f :: tr)
      else let f1 := fdo false c f in
           let f2 := if cleanup then fdo (fcall_ok i FRemove) FRemove f1 else f1 in
           (false, f2, [f; f1; f2])
  end.

(** [saveToFileUnlocked]. *)
Definition save_exec (i : io) (s : baseSource) (f : fs) : bool * fs * list fs :=
  match save_data s with
  | None => (false, f, [f])
  | Some data => fexec i (save_calls data) f
  end.
Definition saveToFile (i : io) (s : baseSource) (f : fs) : bool * fs := fst (save_exec i s f).
Definition save_trace (i : io) (s : baseSource) (f : fs) : list fs := snd (save_exec i s f).

(** A crash: names stay as the calls left them, a file that was synced survives, of another one anything
    may be left. *)
Definition survives (x y : option file) : Prop :=
  match x with
  | None => y = None
  | Some fl => if fl_synced fl then y = Some fl else ∃ d, y = Some (mkFile d true)
  end.
Definition crash (f g : fs) : Prop := survives (f_main f) (f_main g) ∧ survives (f_tmp f) (f_tmp g).

(** *** Changes: on the map, then on disk, taken back if that fails *)

Definition persist (i : io) (new old : baseSource) (f : fs) : result source_error unit * (baseSource * fs) :=
  match saveToFile i new f with
  | (true, f) => (Ok tt, (new, f))
  | (false, f) => (Err PersistFailed, (old, f))
  end.

Definition set_proxies (m : gmap string P) (s : baseSource) : baseSource := mkSource m (s_visitors s).
Definition set_visitors (m : gmap string V) (s : baseSource) : baseSource := mkSource (s_proxies s) m.

Definition AddProxy (i : io) (p : P) (s : baseSource) (f : fs) : result source_error unit * (baseSource * fs) :=
  let name := conf_name p in
  if name =s? "" then (Err NameEmpty, (s, f))
  else match s_proxies s !! name with
       | Some _ => (Err (AlreadyExists name), (s, f))
       | None => let new := <[name := p]> (s_proxies s) in
                 persist i (set_proxies new s) (set_proxies (delete name new) s) f
       end.

Definition UpdateProxy (i : io) (p : P) (s : baseSource) (f : fs) : result source_error unit * (baseSource * fs) :=
  let name := conf_name p in
  if name =s? "" then (Err NameEmpty, (s, f))
  else match s_proxies s !! name with
       | None => (Err (NotFound name), (s, f))
       | Some oldProxy => let new := <[name := p]> (s_proxies s) in
                 persist i (set_proxies new s) (set_proxies (<[name := oldProxy]> new) s) f
       end.

Definition RemoveProxy (i : io) (name : string) (s : baseSource) (f : fs) : result source_error unit * (baseSource * fs) :=
  if name =s? "" then (Err NameEmpty, (s, f))
  else match s_proxies s !! name with
       | None => (Err (NotFound name), (s, f))
       | Some oldProxy => let new := delete name (s_proxies s) in
                 persist i (set_proxies new s) (set_proxies (<[name := oldProxy]> new) s) f
       end.

Definition AddVisitor (i : io) (v : V) (s : baseSource) (f : fs) : result source_error unit * (baseSource * fs) :=
  let name := conf_name v in
  if name =s? "" then (Err NameEmpty, (s, f))
  else match s_visitors s !! name with
       | Some _ => (Err (AlreadyExists name), (s, f))
       | None => let new := <[name := v]> (s_visitors s) in
                 persist i (set_visitors new s) (set_visitors (delete name new) s) f
       end.

Definition UpdateVisitor (i : io) (v : V) (s : baseSource) (f : fs) : result source_error unit * (baseSource * fs) :=
  let name := conf_name v in
  if name =s? "" then (Err NameEmpty, (s, f))
  else match s_visitors s !! name with
       | None => (Err (NotFound name), (s, f))
       | Some oldVisitor => let new := <[name := v]> (s_visitors s) in
                 persist i (set_visitors new s) (set_visitors (<[name := oldVisitor]> new) s) f
       end.

Definition RemoveVisitor (i : io) (name : string) (s : baseSource) (f : fs) : result source_error unit * (baseSource * fs) :=
  if name =s? "" then (Err NameEmpty, (s, f))
  else match s_visitors s !! name with
       | None => (Err (NotFound name), (s, f))
       | Some oldVisitor => let new := delete name (s_visitors s) in
                 persist i (set_visitors new s) (set_visitors (<[name := oldVisitor]> new) s) f
       end.

Definition GetProxy (name : string) (s : baseSource) : option P := s_proxies s !! name.
Definition GetVisitor (name : string) (s : baseSource) : option V := s_visitors s !! name.

(** *** Runs of the store on a disk that is empty at first *)

Inductive sop :=
| OAddProxy (p : P) | OUpdateProxy (p : P) | ORemoveProxy (name : string)
| OAddVisitor (v : V) | OUpdateVisitor (v : V) | ORemoveVisitor (name : string).

Definition run_sop (i : io) (o : sop) (x : baseSource * fs) : result source_error unit * (baseSource * fs) :=
  let '(s, f) := x in
  match o with
  | OAddProxy p => AddProxy i p s f
  | OUpdateProxy p => UpdateProxy i p s f
  | ORemoveProxy n => RemoveProxy i n s f
  | OAddVisitor v => AddVisitor i v s f
  | OUpdateVisitor v => UpdateVisitor i v s f
  | ORemoveVisitor n => RemoveVisitor i n s f
  end.

Definition store_run (ops : list (io * sop)) : baseSource * fs :=
  foldl (λ x o, snd (run_sop (fst o) (snd o) x)) (newBaseSource, mkFs None None) ops.

(** What an operation asks for, and what it makes of the maps. *)
Definition allowed (o : sop) (s : baseSource) : Prop :=
  match o with
  | OAddProxy p => conf_name p ≠ "" ∧ s_proxies s !! conf_name p = None
  | OUpdateProxy p => conf_name p ≠ "" ∧ is_Some (s_proxies s !! conf_name p)
  | ORemoveProxy n => n ≠ "" ∧ is_Some (s_proxies s !! n)
  | OAddVisitor v => conf_name v ≠ "" ∧ s_visitors s !! conf_name v = None
  | OUpdateVisitor v => conf_name v ≠ "" ∧ is_Some (s_visitors s !! conf_name v)
  | ORemoveVisitor n => n ≠ "" ∧ is_Some (s_visitors s !! n)
  end.

Definition intended (o : sop) (s : baseSource) : baseSource :=
  match o with
  | OAddProxy p | OUpdateProxy p => set_proxies (<[conf_name p := p]> (s_proxies s)) s
  | ORemoveProxy n => set_proxies (delete n (s_proxies s)) s
  | OAddVisitor v | OUpdateVisitor v => set_visitors (<[conf_name v := v]> (s_visitors s)) s
  | ORemoveVisitor n => set_visitors (delete n (s_visitors s)) s
  end.

Lemma set_proxies_id s : set_proxies (s_proxies s) s = s.
Proof. by destruct s. Qed.
Lemma set_visitors_id s : set_visitors (s_visitors s) s = s.
Proof. by destruct s. Qed.

(** Every operation is refused without effect, or is a save of the intended maps with the
    old ones to fall back to. *)
Lemma run_sop_eq i o s f :
  (¬ allowed o s ∧ ∃ e, run_sop i o (s, f) = (Err e, (s, f))) ∨
  (allowed o s ∧ run_sop i o (s, f) = persist i (intended o s) s f).
Proof.
  destruct o as [p|p|n|v|v|n]; simpl; unfold AddProxy, UpdateProxy, RemoveProxy, AddVisitor, UpdateVisitor, RemoveVisitor;
    (match goal with |- context [?n =s? ""] => destruct (seqb_spec n "") as [Hn|Hn] end; [left; split; [naive_solver|eauto]|]);
    (match goal with |- context [?m !! ?n] => destruct (m !! n) as [old|] eqn:E end);
    try (left; split; [intros [_ H]; by (done || destruct H)|by eauto]);
    right; (split; [by eauto|]); f_equal.
  - by rewrite delete_insert_id, set_proxies_id.
  - by rewrite insert_insert_eq, insert_id, set_proxies_id.
  - by rewrite insert_delete_id, set_proxies_id.
  - by rewrite delete_insert_id, set_visitors_id.
  - by rewrite insert_insert_eq, insert_id, set_visitors_id.
  - by rewrite insert_delete_id, set_visitors_id.
Qed.

Definition all_ok (i : io) : bool :=
  mkdir_ok i && open_ok i && write_ok i && sync_ok i && close_ok i && rename_ok i.

Lemma saveToFile_spec i s f :
  let '(ok, f') := saveToFile i s f in
  match save_data s with
  | Some data => ok = all_ok i ∧ f_main f' = if all_ok i then Some (mkFile (Some data) true) else f_main f
  | None => ok = false ∧ f' = f
  end.
Proof.
  unfold saveToFile, save_exec, all_ok. destruct (save_data s); [|done].
  destruct i as [[] [] [] [] [] [] []]; done.
Qed.

(** The main file of every state on the way is the old one, or the new one, complete and synced. *)
Lemma save_trace_main i s f g : g ∈ save_trace i s f →
  f_main g = f_main f ∨ ∃ data, save_data s = Some data ∧ f_main g = Some (mkFile (Some data) true).
Proof.
  unfold save_trace, save_exec. destruct (save_data s) as [data|]; [|intros ->%list_elem_of_singleton; by left].
  assert (Forall (λ g, f_main g = f_main f ∨ f_main g = Some (mkFile (Some data) true)) (snd (fexec i (save_calls data) f))) as H.
  { destruct i as [[] [] [] [] [] [] []]; simpl; repeat (apply Forall_cons_2; [first [by left|by right]|]); apply Forall_nil_2. }
  intros Hg. destruct (proj1 (Forall_forall _ _) H g Hg) as [->|Hm]; [by left|]. right. eauto.
Qed.

Definition keyed_source (s : baseSource) : Prop := keyed (s_proxies s) ∧ keyed (s_visitors s).

Lemma intended_keyed o s : keyed_source s → allowed o s → keyed_source (intended o s).
Proof.
  intros [Hp Hv] Ha. destruct o; simpl in *; destruct Ha; split; simpl;
    auto using keyed_insert, keyed_delete.
Qed.

Section durable.
Hypothesis decode_encode : ∀ d b, encode d = Some b → decode b = Some d.

Lemma keyed_no_empty {C} `{!Configurer C} (m : gmap string C) : keyed m → ¬ Exists (λ c, conf_name c = "") (values m).
Proof.
  intros Hk (c & Hc & Hn)%Exists_exists. apply elem_of_values in Hc; [|done]. apply Hk in Hc as [_ Hc].
  by rewrite Hn in Hc.
Qed.

(** Reading back what was written. *)
Lemma load_saved s data t :
  keyed_source s → save_data s = Some data → NewStoreSource (mkFs (Some (mkFile (Some data) true)) t) = Ok s.
Proof using decode_encode.
  intros [Hp Hv] Hd. unfold NewStoreSource, loadFromFile. simpl. rewrite (decode_encode _ _ Hd).
  rewrite !decide_False by (by apply keyed_no_empty). rewrite !of_list_values by done. by destruct s.
Qed.

Lemma load_main f f' : f_main f = f_main f' → NewStoreSource f = NewStoreSource f'.
Proof. unfold NewStoreSource, loadFromFile. by intros ->. Qed.

(** The main file survives a crash. *)
Definition main_synced (f : fs) : Prop := ∀ fl, f_main f = Some fl → fl_synced fl = true.

Lemma crash_main f g : main_synced f → crash f g → f_main g = f_main f.
Proof.
  unfold main_synced, crash, survives. intros Hs [Hc _]. destruct (f_main f) as [fl|]; [|done]. by rewrite Hs in Hc.
Qed.

Lemma persist_spec i new s f :
  keyed_source new → NewStoreSource f = Ok s → main_synced f →
  let '(r, (s', f')) := persist i new s f in
  NewStoreSource f' = Ok s' ∧ main_synced f' ∧
  match r with
  | Ok _ => s' = new ∧ all_ok i = true ∧ is_Some (save_data new)
  | Err e => e = PersistFailed ∧ s' = s ∧ f_main f' = f_main f ∧ (all_ok i = false ∨ save_data new = None)
  end.
Proof using decode_encode.
  intros Hk Hf Hsy. unfold persist. pose proof (saveToFile_spec i new f) as Hs.
  destruct (saveToFile i new f) as [ok f']. destruct (save_data new) as [data|] eqn:Hd.
  - destruct Hs as [-> Hm]. destruct (all_ok i).
    + split; [|split; [|by eauto]].
      * rewrite (load_main f' (mkFs (Some (mkFile (Some data) true)) None)) by done. by apply load_saved.
      * intros fl. rewrite Hm. by intros [= <-].
    + split; [by rewrite (load_main f' f)|]. split; [|auto]. unfold main_synced. by rewrite Hm.
  - destruct Hs as [-> ->]. auto 10.
Qed.

Lemma store_run_ok ops :
  let '(s, f) := store_run ops in keyed_source s ∧ NewStoreSource f = Ok s ∧ main_synced f.
Proof using decode_encode.
  unfold store_run. induction ops as [|[i o] ops IH] using rev_ind.
  { simpl. split; [split; apply keyed_empty|]. split; [done|]. by intros fl. }
  rewrite foldl_app. cbn [foldl fst snd]. destruct (foldl _ _ ops) as [s f]. destruct IH as (Hk & Hf & Hsy).
  destruct (run_sop_eq i o s f) as [[_ [e ->]]|[Ha ->]]; [done|].
  pose proof (intended_keyed o s Hk Ha) as Hk'. pose proof (persist_spec i _ s f Hk' Hf Hsy) as Hp.
  destruct (persist i (intended o s) s f) as [r [s' f']]. destruct Hp as (Hn & Hsy' & Hr). simpl. split; [|done].
  destruct r; destruct Hr as [? Hr]; [by subst|]. by destruct Hr as [-> _].
Qed.

End durable.
End store.
End sources.

(** ** The union of the sources *)

Section union.
Context {C : Type} `{!Configurer C}.

Lemma of_list_snoc (l : list C) c : of_list (l ++ [c]) = <[conf_name c := c]> (of_list l).
Proof. unfold of_list. by rewrite foldl_app. Qed.

Lemma of_list_app (a b : list C) : of_list (a ++ b) = of_list b ∪ of_list a.
Proof.
  induction b as [|c b IH] using rev_ind.
  { rewrite app_nil_r. unfold of_list at 2. simpl. by rewrite (left_id_L ∅ (∪)). }
  by rewrite app_assoc, !of_list_snoc, IH, insert_union_l.
Qed.

Lemma of_list_keyed (l : list C) : Forall (λ c, conf_name c ≠ "") l → keyed (of_list l).
Proof.
  induction l as [|c l IH] using rev_ind; intros Hl; [apply keyed_empty|].
  apply Forall_app in Hl as [Hl Hc]. apply Forall_cons in Hc as [Hc _]. rewrite of_list_snoc.
  apply keyed_insert; [by apply IH|exact Hc].
Qed.

Definition by_name (x y : C) : Prop := (conf_name x ≤ conf_name y)%string.
#[global] Instance by_name_dec : RelDecision by_name.
Proof. intros x y. unfold by_name. apply _. Defined.
#[global] Instance by_name_trans : Transitive by_name.
Proof. intros x y z. unfold by_name. apply (transitivity (R:=String.le)). Qed.
#[global] Instance by_name_total : Total by_name.
Proof. intros x y. unfold by_name. apply (total String.le). Qed.

(** [mapsToSortedSlices] on one of the maps. *)
Definition sorted_values (m : gmap string C) : list C := merge_sort by_name (values m).

(** The enabled entries of a table, as [Load] lists them. *)
Definition enabled_values (m : gmap string C) : list C := filter (λ c, is_enabled c = true) (values m).

Lemma enabled_lookup m n c :
  keyed m → of_list (enabled_values m) !! n = Some c ↔ m !! n = Some c ∧ is_enabled c = true.
Proof.
  intros Hk. rewrite of_list_lookup.
  - unfold enabled_values. rewrite list_elem_of_filter, elem_of_values by done. split.
    + intros [[He Hc] <-]. done.
    + intros [Hc He]. destruct (Hk _ _ Hc) as [<- _]. done.
  - apply NoDup_fmap_filter, values_names, Hk.
Qed.

Lemma enabled_names m : keyed m → Forall (λ c, conf_name c ≠ "") (enabled_values m).
Proof.
  intros Hk. apply Forall_forall. intros c [_ Hc]%list_elem_of_filter.
  apply elem_of_values in Hc; [|done]. by destruct (Hk _ _ Hc).
Qed.

(** Two tables, the second over the first. *)
Lemma union_spec (config store : gmap string C) :
  keyed config → keyed store →
  let l := sorted_values (of_list (enabled_values config ++ enabled_values store)) in
  NoDup (conf_name <$> l) ∧ StronglySorted by_name l ∧
  ∀ c, c ∈ l ↔ is_enabled c = true ∧
    (store !! conf_name c = Some c ∨
     config !! conf_name c = Some c ∧ ∀ d, store !! conf_name c = Some d → is_enabled d = false).
Proof.
  intros Hc Hs. set (m := of_list _). cbv zeta.
  assert (keyed m) as Hm.
  { apply of_list_keyed, Forall_app. split; by apply enabled_names. }
  unfold sorted_values. split_and!.
  - rewrite merge_sort_Permutation. by apply values_names.
  - apply StronglySorted_merge_sort; apply _.
  - intros c. rewrite merge_sort_Permutation, elem_of_values by done.
    unfold m. rewrite of_list_app, lookup_union_Some_raw, !enabled_lookup by done.
    split.
    + intros [[H1 H2]|[H1 [H2 H3]]]; [by auto|]. split; [done|]. right. split; [done|]. intros d Hd.
      destruct (is_enabled d) eqn:E; [|done]. assert (of_list (enabled_values store) !! conf_name c = Some d)
        by (by apply enabled_lookup). congruence.
    + intros [He [Hst|[Hcf Hno]]]; [by left|]. destruct (of_list (enabled_values store) !! conf_name c) as [d|] eqn:E.
      * apply enabled_lookup in E as [Hd He']; [|done]. specialize (Hno d Hd). congruence.
      * by right.
Qed.
End union.

Section aggregator.
Context {P V : Type} `{!Configurer P, !Configurer V}.

(** [Aggregator.Load]; there is always a configuration source. *)
Definition aggregator_Load (config : baseSource (P:=P) (V:=V)) (store : option (baseSource (P:=P) (V:=V)))
    : list P * list V :=
  let sources := config :: option_list store in
  (sorted_values (of_list (sources ≫= λ s, fst (base_Load s))),
   sorted_values (of_list (sources ≫= λ s, snd (base_Load s)))).

(** The union of the sources. The proxies and visitors the client runs are sorted, have
    different names, and are exactly the entries that are not disabled: the store's entry
    under a name takes precedence over that of the configuration file, unless it is
    disabled, in which case the one of the file is used. *)
Theorem aggregator_union (config store : baseSource (P:=P) (V:=V)) :
  keyed_source config → keyed_source store →
  let '(ps, vs) := aggregator_Load config (Some store) in
  NoDup (conf_name <$> ps) ∧ NoDup (conf_name <$> vs) ∧
  StronglySorted by_name ps ∧ StronglySorted by_name vs ∧
  (∀ p, p ∈ ps ↔ is_enabled p = true ∧
     (s_proxies store !! conf_name p = Some p ∨
      s_proxies config !! conf_name p = Some p ∧
      ∀ q, s_proxies store !! conf_name p = Some q → is_enabled q = false)) ∧
  (∀ v, v ∈ vs ↔ is_enabled v = true ∧
     (s_visitors store !! conf_name v = Some v ∨
      s_visitors config !! conf_name v = Some v ∧
      ∀ w, s_visitors store !! conf_name v = Some w → is_enabled w = false)).
Proof.
  intros [Hcp Hcv] [Hsp Hsv]. unfold aggregator_Load.
  assert (∀ A (g : baseSource → list A), (config :: option_list (Some store)) ≫= g = g config ++ g store) as Hb
    by (intros A g; simpl; by rewrite app_nil_r).
  cbv zeta. rewrite !Hb.
  destruct (union_spec _ _ Hcp Hsp) as (H1 & H2 & H3), (union_spec _ _ Hcv Hsv) as (H4 & H5 & H6).
  by split_and!.
Qed.
End aggregator.

(** ** Witnesses: configurations that are a name and a flag *)

#[local] Instance pair_Configurer : Configurer (string * bool) :=
  {| conf_name := fst; conf_enabled x := Some (snd x) |}.

Abbreviation pairs := (list (string * bool) * list (string * bool))%type.

(** A proxy is saved, its removal fails at the sync, and a second removal crashes after the write. *)
Definition fine : io := mkIo true true true true true true true.
Definition w_store_ops : list (io * sop (P := string * bool) (V := string * bool)) :=
  [(fine, OAddProxy ("web", true)); (mkIo true true true false true true false, ORemoveProxy "web")].
Definition w_main : file (bytes := pairs) := mkFile (Some ([("web", true)], [])) true.


Lemma aggregator_union_witness :
  ("web", true) ∈ fst (aggregator_Load (mkSource {["web" := ("web", true)]} ∅ : baseSource (P:=string*bool) (V:=string*bool))
     (Some (mkSource {["web" := ("web", false)]} ∅))).
Proof.
  pose proof (aggregator_union
    (mkSource {["web" := ("web", true)]} ∅ : baseSource (P:=string*bool) (V:=string*bool))
    (mkSource {["web" := ("web", false)]} ∅)) as H.
  destruct (aggregator_Load _ _) as [ps vs].
  destruct H as (_ & _ & _ & _ & H & _).
  - split; [|apply keyed_empty]. intros n c Hn. cbn in Hn. apply lookup_singleton_Some in Hn as [<- <-]. done.
  - split; [|apply keyed_empty]. intros n c Hn. cbn in Hn. apply lookup_singleton_Some in Hn as [<- <-]. done.
  - apply H. split; [done|]. right. split; [reflexivity|]. intros q Hq.
    cbn in Hq. apply lookup_singleton_Some in Hq as [_ <-]. done.
Defined.
