(* ===== verification/Ranges.v ===== *)
(** Ranges of numbers in text: [PortsRangeSlice.String] and [NewPortsRangeSliceFromString] of
    [src/pkg/config/types/types.go], [ParseRangeNumbers] of [src/pkg/util/util/util.go] and
    the template functions of [src/pkg/config/template.go]. *)
From Stdlib Require Import ZArith Lia Ascii String Decimal DecimalString DecimalZ.
From stdpp Require Import base gmap strings list numbers.
From S2P Require Import Prelude GoStrings Ports.
Local Open Scope string_scope.
Local Open Scope list_scope.
Local Open Scope Z_scope.

(** ** Printing *)

Definition range_string (v : PortsRange) : string :=
  if 0 <? Single v then Itoa (Single v) else Itoa (Start v) +:+ "-" +:+ Itoa (End_ v).

Definition PortsRangeSlice_String (p : list PortsRange) : string :=
  match p with [] => "" | _ => Join (range_string <$> p) "," end.

(** ** Parsing *)

Inductive range_error := RangeInvalid | RangeNumber (e : num_error).

Definition range_int (s : string) : result range_error Z :=
  match ParseInt (TrimSpace s) with Ok n => Ok n | Err e => Err (RangeNumber e) end.

(** One part between commas: a number, or two. *)
Definition parse_part (s : string) : result range_error (Z * option Z) :=
  match Split "-"%char s with
  | [a] => match range_int a with Ok n => Ok (n, None) | Err e => Err e end
  | [a; b] =>
      match range_int a with
      | Err e => Err e
      | Ok lo => match range_int b with
                 | Err e => Err e
                 | Ok hi => if hi <? lo then Err RangeInvalid else Ok (lo, Some hi)
                 end
      end
  | _ => Err RangeInvalid
  end.

Fixpoint parse_ranges (parts : list string) : result range_error (list PortsRange) :=
  match parts with
  | [] => Ok []
  | s :: parts =>
      match parse_part s with
      | Err e => Err e
      | Ok (lo, hi) =>
          match parse_ranges parts with
          | Err e => Err e
          | Ok out => Ok (match hi with None => mkPortsRange 0 0 lo | Some hi => mkPortsRange lo hi 0 end :: out)
          end
      end
  end.

Definition NewPortsRangeSliceFromString (str : string) : result range_error (list PortsRange) :=
  parse_ranges (Split ","%char (TrimSpace str)).

(** [for i := minValue; i <= maxValue; i++] on an int64; [None] when the fuel is used up. *)
Fixpoint range_loop (fuel : nat) (i maxValue : Z) : option (list Z) :=
  if i <=? maxValue then
    match fuel with
    | O => None
    | S fuel => match range_loop fuel (wrap64 (i + 1)) maxValue with
                | Some l => Some (i :: l)
                | None => None
                end
    end
  else Some [].

(** [None] is running out of fuel. *)
Fixpoint parse_numbers (fuel : nat) (parts : list string) : option (result range_error (list Z)) :=
  match parts with
  | [] => Some (Ok [])
  | s :: parts =>
      match parse_part s with
      | Err e => Some (Err e)
      | Ok (lo, hi) =>
          match (match hi with None => Some [lo] | Some hi => range_loop fuel lo hi end) with
          | None => None
          | Some numbers =>
              match parse_numbers fuel parts with
              | Some (Ok rest) => Some (Ok (numbers ++ rest))
              | r => r
              end
          end
      end
  end.

Definition ParseRangeNumbers (fuel : nat) (rangeStr : string) : option (result range_error (list Z)) :=
  parse_numbers fuel (Split ","%char (TrimSpace rangeStr)).

(** [parseNumberRange] and [parseNumberRangePair]; the error of unequal lengths is
    [RangeInvalid]. *)
Definition parseNumberRange := ParseRangeNumbers.

Definition parseNumberRangePair (fuel : nat) (first second : string) : option (result range_error (list (Z * Z))) :=
  match ParseRangeNumbers fuel first with
  | None => None
  | Some (Err e) => Some (Err e)
  | Some (Ok a) =>
      match ParseRangeNumbers fuel second with
      | None => None
      | Some (Err e) => Some (Err e)
      | Some (Ok b) => Some (if (length a =? length b)%nat then Ok (zip a b) else Err RangeInvalid)
      end
  end.

(** ** Digits *)

Definition is_digit (c : ascii) : bool := let n := N_of_ascii c in ((48 <=? n)%N && (n <=? 57)%N).

Fixpoint all_chars (P : ascii → bool) (s : string) : bool :=
  match s with "" => true | String c s => P c && all_chars P s end.

Lemma all_chars_impl (P Q : ascii → bool) s :
  (∀ c, P c = true → Q c = true) → all_chars P s = true → all_chars Q s = true.
Proof. intros H. induction s as [|c s IH]; simpl; [done|]. rewrite !andb_true_iff. naive_solver. Qed.

Lemma all_chars_app P a b : all_chars P (a +:+ b) = all_chars P a && all_chars P b.
Proof. induction a as [|c a IH]; simpl; [done|]. by rewrite IH, andb_assoc. Qed.

Lemma all_chars_contains s c : all_chars (λ d, negb (bool_decide (d = c))) s = true → ContainsByte s c = false.
Proof.
  induction s as [|d s IH]; simpl; [done|]. rewrite andb_true_iff, negb_true_iff, bool_decide_eq_false.
  intros [Hd Hs]. destruct (ascii_dec d c); [done|]. by apply IH.
Qed.

Lemma TrimLeft_id s : all_chars (λ c, negb (is_space c)) s = true → TrimLeft s = s.
Proof. destruct s as [|c s]; simpl; [done|]. rewrite andb_true_iff, negb_true_iff. by intros [-> _]. Qed.

Lemma TrimRight_id s : all_chars (λ c, negb (is_space c)) s = true → TrimRight s = s.
Proof.
  induction s as [|c s IH]; simpl; [done|]. rewrite andb_true_iff, negb_true_iff. intros [Hc Hs].
  rewrite IH by done. destruct s; [by rewrite Hc|done].
Qed.

Lemma TrimSpace_id s : all_chars (λ c, negb (is_space c)) s = true → TrimSpace s = s.
Proof. intros H. unfold TrimSpace. by rewrite TrimLeft_id, TrimRight_id. Qed.

Lemma digit_not c : is_digit c = true →
  negb (is_space c) = true ∧ negb (bool_decide (c = "-"%char)) = true ∧ negb (bool_decide (c = ","%char)) = true.
Proof. destruct c as [[] [] [] [] [] [] [] []]; vm_compute; try done; by split_and!. Qed.

Lemma Itoa_digits z : 0 <= z → all_chars is_digit (Itoa z) = true ∧ Itoa z ≠ "".
Proof.
  intros Hz. unfold Itoa. assert (∃ d, Z.to_int z = Pos d) as [d ->] by (destruct z; [by eexists|by eexists|lia]).
  simpl. assert (∀ d, all_chars is_digit (NilEmpty.string_of_uint d) = true) as H by (clear; induction d; simpl; done).
  unfold NilZero.string_of_uint. destruct d; split; try apply H; done.
Qed.

Lemma ParseInt_Itoa z : 0 <= z <= int64_max → ParseInt (Itoa z) = Ok z.
Proof.
  intros Hz. destruct (Itoa_digits z ltac:(lia)) as [Hd Hn].
  assert (NilZero.uint_of_string (Itoa z) = Some (match Z.to_int z with Pos d | Neg d => d end)) as Hu.
  { unfold Itoa in *. destruct (Z.to_int z) as [d|d] eqn:E.
    - simpl in *. apply NilZero.usu. intros ->.
      pose proof (of_to z) as H. rewrite E in H. simpl in H. subst z. discriminate E.
    - exfalso. destruct z; [done|done|lia]. }
  assert (Z.of_uint (match Z.to_int z with Pos d | Neg d => d end) = z) as Ho.
  { pose proof (of_to z) as H. destruct (Z.to_int z) as [d|d] eqn:E; [done|]. destruct z; [done|done|lia]. }
  assert (∀ s, all_chars is_digit s = true → s ≠ "" → ParseInt s =
    match NilZero.uint_of_string s with
    | None => Err ErrSyntax
    | Some d => if (int64_min <=? Z.of_uint d) && (Z.of_uint d <=? int64_max) then Ok (Z.of_uint d) else Err ErrRange
    end) as Hp.
  { clear. intros s Hd Hn. destruct s as [|c s]; [done|]. simpl in Hd. apply andb_true_iff in Hd as [Hc _].
    destruct c as [[] [] [] [] [] [] [] []]; try discriminate Hc; reflexivity. }
  rewrite Hp, Hu, Ho by done. rewrite (proj2 (Z.leb_le _ _)) by (unfold int64_min; lia).
  by rewrite (proj2 (Z.leb_le z _)) by lia.
Qed.

Lemma range_int_Itoa z : 0 <= z <= int64_max → range_int (Itoa z) = Ok z.
Proof.
  intros Hz. destruct (Itoa_digits z ltac:(lia)) as [Hd _]. unfold range_int. rewrite TrimSpace_id.
  - by rewrite ParseInt_Itoa.
  - eapply all_chars_impl, Hd. intros c Hc. by apply digit_not.
Qed.

(** ** Round trip *)

(** A range as the parser builds it. *)
Definition range_wf (r : PortsRange) : Prop :=
  (0 < Single r <= int64_max ∧ Start r = 0 ∧ End_ r = 0) ∨
  (Single r = 0 ∧ 0 <= Start r <= End_ r ∧ End_ r <= int64_max).

Lemma no_dash z : 0 <= z → ContainsByte (Itoa z) "-" = false.
Proof.
  intros Hz. apply all_chars_contains. eapply all_chars_impl, (proj1 (Itoa_digits z Hz)). intros c Hc. by apply digit_not.
Qed.

Definition ends_of (r : PortsRange) : Z * option Z :=
  if 0 <? Single r then (Single r, None) else (Start r, Some (End_ r)).

Lemma parse_part_string r : range_wf r → parse_part (range_string r) = Ok (ends_of r).
Proof.
  unfold range_string, ends_of, parse_part. intros [(Hs & _ & _)|(Hs & He & Hm)].
  - rewrite (proj2 (Z.ltb_lt _ _)) by lia. rewrite Split_nosep by (apply no_dash; lia).
    by rewrite range_int_Itoa by lia.
  - rewrite Hs. simpl. change ("-" +:+ Itoa (End_ r)) with (String "-"%char (Itoa (End_ r))).
    rewrite Split_sep by (apply no_dash; lia). rewrite Split_nosep by (apply no_dash; lia).
    rewrite !range_int_Itoa by lia. by rewrite (proj2 (Z.ltb_ge _ _)) by lia.
Qed.

Lemma range_chars r :
  range_wf r → all_chars (λ c, negb (is_space c) && negb (bool_decide (c = ","%char))) (range_string r) = true.
Proof.
  assert (∀ z, 0 <= z → all_chars (λ c, negb (is_space c) && negb (bool_decide (c = ","%char))) (Itoa z) = true) as Hi.
  { intros z Hz. eapply all_chars_impl, (proj1 (Itoa_digits z Hz)). intros c Hc.
    apply andb_true_iff. split; by apply digit_not. }
  unfold range_string. intros [(Hs & _ & _)|(Hs & He & Hm)].
  - rewrite (proj2 (Z.ltb_lt _ _)) by lia. apply Hi. lia.
  - rewrite Hs. simpl. rewrite all_chars_app. cbn [all_chars]. rewrite !Hi by lia. by vm_compute.
Qed.

Lemma Split_ranges p :
  p ≠ [] → Forall range_wf p →
  Split ","%char (TrimSpace (PortsRangeSlice_String p)) = range_string <$> p.
Proof.
  intros Hne Hp. assert (Forall (λ s, all_chars (λ c, negb (is_space c) && negb (bool_decide (c = ","%char))) s = true)
    (range_string <$> p)) as Hc.
  { apply Forall_fmap. eapply Forall_impl; [|exact Hp]. intros r Hr. by apply range_chars. }
  assert (PortsRangeSlice_String p = Join (range_string <$> p) ",") as -> by (by destruct p).
  rewrite TrimSpace_id.
  - rewrite Split_Join; [done|by destruct p|]. eapply Forall_impl; [|exact Hc]. intros s Hs.
    apply all_chars_contains. eapply all_chars_impl, Hs. intros c. rewrite andb_true_iff. tauto.
  - clear Hne Hp. induction Hc as [|s l Hs Hl IH]; [done|].
    assert (all_chars (λ c, negb (is_space c)) s = true) as Hs'
      by (eapply all_chars_impl, Hs; intros c; rewrite andb_true_iff; tauto).
    destruct l as [|t l]; [done|]. simpl in *. rewrite !all_chars_app, Hs'. simpl. apply IH.
Qed.

Lemma parse_ranges_string l : Forall range_wf l → parse_ranges (range_string <$> l) = Ok l.
Proof.
  intros Hl. induction Hl as [|r l Hr Hl IH]; [done|].
  change (range_string <$> r :: l) with (range_string r :: (range_string <$> l)). cbn [parse_ranges].
  rewrite parse_part_string, IH by done. unfold ends_of.
  destruct (Z.ltb_spec 0 (Single r)) as [Hs|Hs]; do 2 f_equal; destruct r as [a b c];
    destruct Hr as [(? & ? & ?)|(? & ? & ?)]; simpl in *; subst; done || lia.
Qed.

(** Printing and parsing port ranges. What [String] prints for a list of ranges that is
    not empty, [NewPortsRangeSliceFromString] reads back as the same list; the empty list
    is printed as the empty string, which is not read back. *)
Theorem ports_range_roundtrip p :
  Forall range_wf p →
  NewPortsRangeSliceFromString (PortsRangeSlice_String p) =
  match p with [] => Err (RangeNumber ErrSyntax) | _ => Ok p end.
Proof.
  intros Hp. destruct p as [|r p]; [done|]. unfold NewPortsRangeSliceFromString.
  rewrite Split_ranges by done. by apply parse_ranges_string.
Qed.

(** ** Expansion into numbers *)

Definition numbers_of (r : PortsRange) : list Z :=
  if 0 <? Single r then [Single r] else seqZ (Start r) (End_ r - Start r + 1).

Lemma range_loop_ok fuel i hi :
  int64_min <= i → hi < int64_max → hi + 1 - i <= Z.of_nat fuel →
  range_loop fuel i hi = Some (seqZ i (hi + 1 - i)).
Proof.
  revert i. induction fuel as [|fuel IH]; intros i Hi Hhi Hf.
  - simpl. rewrite (proj2 (Z.leb_gt _ _)) by lia. by rewrite seqZ_nil by lia.
  - cbn [range_loop]. destruct (Z.leb_spec i hi) as [Hle|Hgt]; [|by rewrite seqZ_nil by lia].
    rewrite wrap64_id by lia. rewrite IH by lia. rewrite (seqZ_cons i) by lia.
    do 3 f_equal. lia.
Qed.

(** The counter wraps around at the largest number, which is never passed. *)
Lemma range_loop_max fuel i : int64_min <= i <= int64_max → range_loop fuel i int64_max = None.
Proof.
  revert i. induction fuel as [|fuel IH]; intros i Hi; cbn [range_loop];
    rewrite (proj2 (Z.leb_le _ _)) by lia; [done|].
  rewrite IH; [done|]. unfold wrap64. pose proof (wrap_range 64 (i + 1) ltac:(lia)).
  unfold int64_min, int64_max. change (64 - 1) with 63 in *. lia.
Qed.

(** [ParseRangeNumbers] expands a list of ranges into their numbers, in order, and
    returns (with fuel for the longest range) as long as no range ends with the largest
    64-bit number; if one does, it never returns, whatever the fuel. *)
Theorem ParseRangeNumbers_spec p fuel :
  p ≠ [] → Forall range_wf p →
  Forall (λ r, End_ r - Start r < Z.of_nat fuel) p →
  ParseRangeNumbers fuel (PortsRangeSlice_String p) =
  if decide (Exists (λ r, End_ r = int64_max) p) then None else Some (Ok (p ≫= numbers_of)).
Proof.
  intros Hne Hp Hf. unfold ParseRangeNumbers. rewrite Split_ranges by done. clear Hne.
  induction Hp as [|r l Hr Hl IH]; [done|]. pose proof (Forall_inv Hf) as Hrf. simpl in Hrf. apply Forall_inv_tail in Hf. specialize (IH Hf).
  change (range_string <$> r :: l) with (range_string r :: (range_string <$> l)). cbn [parse_numbers].
  rewrite parse_part_string by done.
  assert (let '(lo, hi) := ends_of r in
    match hi with None => Some [lo] | Some hi => range_loop fuel lo hi end =
    if decide (End_ r = int64_max) then None else Some (numbers_of r)) as Hone.
  { unfold ends_of, numbers_of. destruct Hr as [(Hs & _ & He)|(Hs & He & Hm)].
    - rewrite (proj2 (Z.ltb_lt _ _)) by lia. rewrite decide_False; [done|]. rewrite He. done.
    - rewrite Hs. simpl. destruct (decide (End_ r = int64_max)) as [Hx|Hx]; [rewrite Hx; apply range_loop_max; unfold int64_min; lia|].
      rewrite range_loop_ok by (unfold int64_min in *; lia). do 2 f_equal. lia. }
  destruct (ends_of r) as [lo hi]. rewrite Hone.
  destruct (decide (End_ r = int64_max)) as [Hx|Hx].
  { rewrite decide_True; [done|]. by left. }
  rewrite IH. destruct (decide (Exists (λ r, End_ r = int64_max) l)) as [Hex|Hex].
  - rewrite decide_True; [done|]. by right.
  - rewrite decide_False; [done|]. intros [?|?]%Exists_cons; done.
Qed.

(** ** Witnesses *)

Definition some_ranges : list PortsRange := [mkPortsRange 1000 1003 0; mkPortsRange 0 0 2000].

Lemma some_ranges_wf : Forall range_wf some_ranges.
Proof.
  constructor; [right|constructor; [left|constructor]]; vm_compute; repeat split; discriminate.
Qed.

Lemma ports_range_roundtrip_witness :
  NewPortsRangeSliceFromString "1000-1003,2000" = Ok some_ranges.
Proof. exact (ports_range_roundtrip some_ranges some_ranges_wf). Defined.

Lemma ParseRangeNumbers_spec_witness :
  ParseRangeNumbers 10 "1000-1003,2000" = Some (Ok [1000; 1001; 1002; 1003; 2000]).
Proof.
  apply (ParseRangeNumbers_spec some_ranges 10); [discriminate|exact some_ranges_wf|].
  repeat constructor; vm_compute; reflexivity.
Defined.
