(* ===== verification/VisitorConf.v ===== *)
(** Visitor configurations, [src/pkg/config/v1/visitor.go] and [visitor_plugin.go]: the
    three visitor types with their defaults, and their validation,
    [src/pkg/config/v1/validation/visitor.go]. *)
From Stdlib Require Import ZArith Lia Ascii String.
From stdpp Require Import base gmap strings list.
From S2P Require Import Prelude GoStrings ProxyConf Router.
Local Open Scope string_scope.
Local Open Scope list_scope.

(** [util.EmptyOr] on numbers and on pointers. *)
Definition EmptyOrZ (v fallback : Z) : Z := if (v =? 0)%Z then fallback else v.
Definition EmptyOrPtr {A} (v : option A) (fallback : A) : option A := Some (default fallback v).

(** ** Configurations *)

Record VisitorTransport := mkVTransport { vt_UseEncryption : bool; vt_UseCompression : bool }.

Inductive VisitorPluginOptions := VirtualNetVisitorPluginOptions (type DestinationIP : string).

Record TypedVisitorPluginOptions := mkVPlugin { vp_Type : string; vp_Options : option VisitorPluginOptions }.

Record VisitorBaseConfig := mkVBase {
  v_Name : string; v_Type : string; v_Enabled : option bool; v_Transport : VisitorTransport;
  v_SecretKey : string; v_ServerUser : string; v_ServerName : string;
  v_BindAddr : string; v_BindPort : Z; v_Plugin : TypedVisitorPluginOptions }.

Record XTCPFields := mkXTCP {
  Protocol : string; KeepTunnelOpen : bool; MaxRetriesAnHour : Z; MinRetryInterval : Z;
  FallbackTo : string; FallbackTimeoutMs : Z;
  NatTraversal : option bool                    (* DisableAssistedAddrs *) }.

Inductive VisitorConfigurer :=
| STCPVisitorConfig (b : VisitorBaseConfig)
| SUDPVisitorConfig (b : VisitorBaseConfig)
| XTCPVisitorConfig (b : VisitorBaseConfig) (x : XTCPFields).

#[global] Instance VisitorTransport_eq_dec : EqDecision VisitorTransport.
Proof. solve_decision. Defined.
#[global] Instance VisitorPluginOptions_eq_dec : EqDecision VisitorPluginOptions.
Proof. solve_decision. Defined.
#[global] Instance TypedVisitorPluginOptions_eq_dec : EqDecision TypedVisitorPluginOptions.
Proof. solve_decision. Defined.
#[global] Instance VisitorBaseConfig_eq_dec : EqDecision VisitorBaseConfig.
Proof. solve_decision. Defined.
#[global] Instance XTCPFields_eq_dec : EqDecision XTCPFields.
Proof. solve_decision. Defined.
#[global] Instance VisitorConfigurer_eq_dec : EqDecision VisitorConfigurer.
Proof. solve_decision. Defined.

Definition v_GetBaseConfig (c : VisitorConfigurer) : VisitorBaseConfig :=
  match c with STCPVisitorConfig b | SUDPVisitorConfig b | XTCPVisitorConfig b _ => b end.

Definition v_set_base (b : VisitorBaseConfig) (c : VisitorConfigurer) : VisitorConfigurer :=
  match c with
  | STCPVisitorConfig _ => STCPVisitorConfig b
  | SUDPVisitorConfig _ => SUDPVisitorConfig b
  | XTCPVisitorConfig _ x => XTCPVisitorConfig b x
  end.

(** The type name of a constructor. *)
Definition v_type_name (c : VisitorConfigurer) : string :=
  match c with STCPVisitorConfig _ => "stcp" | SUDPVisitorConfig _ => "sudp" | XTCPVisitorConfig _ _ => "xtcp" end.

(** *** [Complete] *)

Definition v_base_Complete (c : VisitorBaseConfig) : VisitorBaseConfig :=
  mkVBase (v_Name c) (v_Type c) (v_Enabled c) (v_Transport c) (v_SecretKey c) (v_ServerUser c)
    (v_ServerName c) (if v_BindAddr c =s? "" then "127.0.0.1" else v_BindAddr c) (v_BindPort c) (v_Plugin c).

Definition xtcp_Complete (x : XTCPFields) : XTCPFields :=
  mkXTCP (EmptyOr (Protocol x) "quic") (KeepTunnelOpen x) (EmptyOrZ (MaxRetriesAnHour x) 8)
    (EmptyOrZ (MinRetryInterval x) 90) (FallbackTo x) (EmptyOrZ (FallbackTimeoutMs x) 1000) (NatTraversal x).

Definition v_Complete (c : VisitorConfigurer) : VisitorConfigurer :=
  match c with
  | STCPVisitorConfig b => STCPVisitorConfig (v_base_Complete b)
  | SUDPVisitorConfig b => SUDPVisitorConfig (v_base_Complete b)
  | XTCPVisitorConfig b x => XTCPVisitorConfig (v_base_Complete b) (xtcp_Complete x)
  end.

(** *** [NewVisitorConfigurerByType]: the zero configuration of a type *)

Definition v_zero_base (ty : string) : VisitorBaseConfig :=
  mkVBase "" ty None (mkVTransport false false) "" "" "" "" 0 (mkVPlugin "" None).

Definition NewVisitorConfigurerByType (ty : string) : option VisitorConfigurer :=
  if ty =s? "stcp" then Some (STCPVisitorConfig (v_zero_base ty))
  else if ty =s? "xtcp" then Some (XTCPVisitorConfig (v_zero_base ty) (mkXTCP "" false 0 0 "" 0 None))
  else if ty =s? "sudp" then Some (SUDPVisitorConfig (v_zero_base ty))
  else None.

(** ** Validation *)

Inductive visitor_error := VNameRequired | VServerNameRequired | VBindPortRequired | VProtocolInvalid.

Definition validateVisitorBaseConfig (c : VisitorBaseConfig) : result visitor_error unit :=
  if v_Name c =s? "" then Err VNameRequired
  else if v_ServerName c =s? "" then Err VServerNameRequired
  else if (v_BindPort c =? 0)%Z then Err VBindPortRequired
  else Ok tt.

Definition validateXTCPVisitorConfig (x : XTCPFields) : result visitor_error unit :=
  if negb (contains ["kcp"; "quic"] (Protocol x)) then Err VProtocolInvalid else Ok tt.

Definition ValidateVisitorConfigurer (c : VisitorConfigurer) : result visitor_error unit :=
  try _ := validateVisitorBaseConfig (v_GetBaseConfig c) in
  match c with
  | STCPVisitorConfig _ | SUDPVisitorConfig _ => Ok tt
  | XTCPVisitorConfig _ x => validateXTCPVisitorConfig x
  end.

(** ** Properties *)

Lemma v_Complete_base c :
  v_GetBaseConfig (v_Complete c) = v_base_Complete (v_GetBaseConfig c) ∧ v_type_name (v_Complete c) = v_type_name c.
Proof. by destruct c. Qed.

Lemma EmptyOr_idem v f : EmptyOr (EmptyOr v f) f = EmptyOr v f.
Proof. unfold EmptyOr. destruct (v =s? "") eqn:E; [by destruct (f =s? "")|by rewrite E]. Qed.

Lemma EmptyOrZ_idem v f : EmptyOrZ (EmptyOrZ v f) f = EmptyOrZ v f.
Proof. unfold EmptyOrZ. repeat case_match; lia. Qed.

Lemma EmptyOrPtr_idem {A} (v : option A) f : EmptyOrPtr (EmptyOrPtr v f) f = EmptyOrPtr v f.
Proof. done. Qed.

Lemma v_Complete_idem c : v_Complete (v_Complete c) = v_Complete c.
Proof.
  assert (∀ b, v_base_Complete (v_base_Complete b) = v_base_Complete b) as Hb.
  { intros b. unfold v_base_Complete. simpl. f_equal. destruct (v_BindAddr b =s? "") eqn:E; [done|by rewrite E]. }
  destruct c as [b|b|b x]; simpl; rewrite Hb; [done..|]. f_equal. unfold xtcp_Complete. simpl.
  by rewrite EmptyOr_idem, !EmptyOrZ_idem.
Qed.

(** A visitor is accepted exactly when it names itself and the server's proxy, says where
    to listen (a negative port for not at all) and, for xtcp, uses a known protocol. *)
Theorem ValidateVisitorConfigurer_spec c :
  ValidateVisitorConfigurer c = Ok tt ↔
  v_Name (v_GetBaseConfig c) ≠ "" ∧ v_ServerName (v_GetBaseConfig c) ≠ "" ∧
  v_BindPort (v_GetBaseConfig c) ≠ 0%Z ∧
  (∀ b x, c = XTCPVisitorConfig b x → Protocol x = "kcp" ∨ Protocol x = "quic").
Proof.
  unfold ValidateVisitorConfigurer, validateVisitorBaseConfig.
  destruct (seqb_spec (v_Name (v_GetBaseConfig c)) ""); [simpl; naive_solver|].
  destruct (seqb_spec (v_ServerName (v_GetBaseConfig c)) ""); [simpl; naive_solver|].
  destruct (Z.eqb_spec (v_BindPort (v_GetBaseConfig c)) 0); [simpl; naive_solver|].
  destruct c as [b|b|b x]; simpl; [naive_solver..|].
  unfold validateXTCPVisitorConfig, contains. case_bool_decide as Hp; simpl.
  - split; [|done]. intros _. split_and!; [done..|]. intros b' x' [= <- <-]. set_solver.
  - split; [done|]. intros (_ & _ & _ & H). destruct (H b x eq_refl) as [E|E]; rewrite E in Hp; set_solver.
Qed.
