(* ===== verification/PluginConf.v ===== *)
(** Options of client plugins, [src/pkg/config/v1/proxy_plugin.go]: the ten plugin types
    with their defaults, and their validation,
    [src/pkg/config/v1/validation/plugin.go]. *)
From Stdlib Require Import ZArith Lia Ascii String.
From stdpp Require Import base gmap strings list.
From S2P Require Import Prelude GoStrings VisitorConf.
Local Open Scope string_scope.
Local Open Scope list_scope.

(** [HeaderOperations]: the headers to set. *)
Abbreviation HeaderOperations := (gmap string string).

Inductive ClientPluginOptions :=
| HTTP2HTTPSPluginOptions (Type_ LocalAddr HostHeaderRewrite : string) (RequestHeaders : HeaderOperations)
| HTTPProxyPluginOptions (Type_ HTTPUser HTTPPassword : string)
| HTTPS2HTTPPluginOptions (Type_ LocalAddr HostHeaderRewrite : string) (RequestHeaders : HeaderOperations)
    (EnableHTTP2 : option bool) (CrtPath KeyPath : string)
| HTTPS2HTTPSPluginOptions (Type_ LocalAddr HostHeaderRewrite : string) (RequestHeaders : HeaderOperations)
    (EnableHTTP2 : option bool) (CrtPath KeyPath : string)
| HTTP2HTTPPluginOptions (Type_ LocalAddr HostHeaderRewrite : string) (RequestHeaders : HeaderOperations)
| Socks5PluginOptions (Type_ Username Password : string)
| StaticFilePluginOptions (Type_ LocalPath StripPrefix HTTPUser HTTPPassword : string)
| UnixDomainSocketPluginOptions (Type_ UnixPath : string)
| TLS2RawPluginOptions (Type_ LocalAddr CrtPath KeyPath : string)
| VirtualNetPluginOptions (Type_ : string).

#[global] Instance ClientPluginOptions_eq_dec : EqDecision ClientPluginOptions.
Proof. solve_decision. Defined.

(** [TypedClientPluginOptions]; the options are an interface, which the conversion of an old
    file leaves nil for the types it does not know. *)
Record TypedClientPluginOptions := mkPlugin { cp_Type : string; cp_Options : option ClientPluginOptions }.

#[global] Instance TypedClientPluginOptions_eq_dec : EqDecision TypedClientPluginOptions.
Proof. solve_decision. Defined.

(** [clientPluginOptionsTypeMap]: the zero options of a type. *)
Definition zero_plugin (ty : string) : option ClientPluginOptions :=
  if ty =s? "http2https" then Some (HTTP2HTTPSPluginOptions "" "" "" ∅)
  else if ty =s? "http_proxy" then Some (HTTPProxyPluginOptions "" "" "")
  else if ty =s? "https2http" then Some (HTTPS2HTTPPluginOptions "" "" "" ∅ None "" "")
  else if ty =s? "https2https" then Some (HTTPS2HTTPSPluginOptions "" "" "" ∅ None "" "")
  else if ty =s? "http2http" then Some (HTTP2HTTPPluginOptions "" "" "" ∅)
  else if ty =s? "socks5" then Some (Socks5PluginOptions "" "" "")
  else if ty =s? "static_file" then Some (StaticFilePluginOptions "" "" "" "" "")
  else if ty =s? "unix_domain_socket" then Some (UnixDomainSocketPluginOptions "" "")
  else if ty =s? "tls2raw" then Some (TLS2RawPluginOptions "" "" "" "")
  else if ty =s? "virtual_net" then Some (VirtualNetPluginOptions "")
  else None.

(** The type name of a constructor. *)
Definition plugin_name (o : ClientPluginOptions) : string :=
  match o with
  | HTTP2HTTPSPluginOptions _ _ _ _ => "http2https"
  | HTTPProxyPluginOptions _ _ _ => "http_proxy"
  | HTTPS2HTTPPluginOptions _ _ _ _ _ _ _ => "https2http"
  | HTTPS2HTTPSPluginOptions _ _ _ _ _ _ _ => "https2https"
  | HTTP2HTTPPluginOptions _ _ _ _ => "http2http"
  | Socks5PluginOptions _ _ _ => "socks5"
  | StaticFilePluginOptions _ _ _ _ _ => "static_file"
  | UnixDomainSocketPluginOptions _ _ => "unix_domain_socket"
  | TLS2RawPluginOptions _ _ _ _ => "tls2raw"
  | VirtualNetPluginOptions _ => "virtual_net"
  end.

(** [Complete]: the plugins that terminate TLS speak HTTP/2 unless told not to. *)
Definition options_Complete (o : ClientPluginOptions) : ClientPluginOptions :=
  match o with
  | HTTPS2HTTPPluginOptions t a h r e c k => HTTPS2HTTPPluginOptions t a h r (EmptyOrPtr e true) c k
  | HTTPS2HTTPSPluginOptions t a h r e c k => HTTPS2HTTPSPluginOptions t a h r (EmptyOrPtr e true) c k
  | o => o
  end.

Definition plugin_Complete (p : TypedClientPluginOptions) : TypedClientPluginOptions :=
  mkPlugin (cp_Type p) (options_Complete <$> cp_Options p).

Inductive plugin_error := LocalAddrRequired | LocalPathRequired | UnixPathRequired.

Definition ValidateClientPluginOptions (o : ClientPluginOptions) : result plugin_error unit :=
  match o with
  | HTTP2HTTPSPluginOptions _ a _ _ | HTTPS2HTTPPluginOptions _ a _ _ _ _ _
  | HTTPS2HTTPSPluginOptions _ a _ _ _ _ _ | TLS2RawPluginOptions _ a _ _ =>
      if a =s? "" then Err LocalAddrRequired else Ok tt
  | StaticFilePluginOptions _ p _ _ _ => if p =s? "" then Err LocalPathRequired else Ok tt
  | UnixDomainSocketPluginOptions _ p => if p =s? "" then Err UnixPathRequired else Ok tt
  | HTTPProxyPluginOptions _ _ _ | HTTP2HTTPPluginOptions _ _ _ _ | Socks5PluginOptions _ _ _
  | VirtualNetPluginOptions _ => Ok tt
  end.

(** [ValidateClientPluginOptions] on the interface: nil is none of the cases. *)
Definition validate_options (o : option ClientPluginOptions) : result plugin_error unit :=
  match o with Some o => ValidateClientPluginOptions o | None => Ok tt end.

(** ** Properties *)

Lemma options_Complete_name o : plugin_name (options_Complete o) = plugin_name o.
Proof. by destruct o. Qed.

Lemma plugin_Complete_idem p : plugin_Complete (plugin_Complete p) = plugin_Complete p.
Proof. by destruct p as [t [[]|]]. Qed.

Lemma plugin_Complete_valid o :
  ValidateClientPluginOptions (options_Complete o) = ValidateClientPluginOptions o.
Proof. by destruct o. Qed.

Lemma zero_plugin_name ty o : zero_plugin ty = Some o → plugin_name o = ty.
Proof.
  unfold zero_plugin. repeat (case_match; [intros [= <-]; simpl; by match goal with
    H : (_ =s? _) = true |- _ => apply seqb_true in H end|]). done.
Qed.

(** http2http is the one plugin with a local address that is not required. *)
Lemma http2http_without_address t h r : ValidateClientPluginOptions (HTTP2HTTPPluginOptions t "" h r) = Ok tt.
Proof. done. Qed.
