(* ===== verification/CommonConf.v ===== *)
(** The common configuration of a client and the configuration of a server:
    [src/pkg/config/v1/client.go], [server.go], [common.go] with their defaults, values read
    from files or programs ([value_source.go]), unsafe features
    ([src/pkg/policy/security/unsafe.go]), feature gates
    ([src/pkg/policy/featuregate/feature_gate.go]) and the validation of both configurations
    ([src/pkg/config/v1/validation/client.go], [server.go], [common.go], [oidc.go]). *)
From Stdlib Require Import ZArith Lia Ascii String.
From stdpp Require Import base gmap strings list fin_maps.
From S2P Require Import Prelude GoStrings ProxyConf VisitorConf.
Local Open Scope string_scope.
Local Open Scope list_scope.

(** ** Feature gates *)

Module FeatureGate.
Record FeatureSpec := mkSpec { fs_Default : bool; LockToDefault : bool; Stage : string }.
#[export] Instance FeatureSpec_eq_dec : EqDecision FeatureSpec.
Proof. solve_decision. Defined.

Definition VirtualNet : string := "VirtualNet".
Definition defaultFeatures : gmap string FeatureSpec := {[ VirtualNet := mkSpec false false "ALPHA" ]}.

(** [closed] is never set by the program. *)
Record featureGate := mkGate { known : gmap string FeatureSpec; enabled : gmap string bool; closed : bool }.

Definition NewFeatureGate : featureGate := mkGate defaultFeatures ∅ false.

Inductive gate_error :=
| UnrecognizedFeature (k : string) | FeatureLocked (k : string) | GateClosed | DifferentSpec (k : string).

(** One round of the loop of [SetFromMap]; Go iterates over the map in any order. *)
Definition set_one (known : gmap string FeatureSpec) (r : result gate_error (gmap string bool))
    (kv : string * bool) : result gate_error (gmap string bool) :=
  try enabled := r in
  match known !! fst kv with
  | None => Err (UnrecognizedFeature (fst kv))
  | Some s => if LockToDefault s && negb (eqb (fs_Default s) (snd kv)) then Err (FeatureLocked (fst kv))
              else Ok (<[fst kv := snd kv]> enabled)
  end.

Definition SetFromMap (m : list (string * bool)) (f : featureGate) : result gate_error featureGate :=
  try e := foldl (set_one (known f)) (Ok (enabled f)) m in Ok (mkGate (known f) e (closed f)).

Definition add_feature (r : result gate_error (gmap string FeatureSpec)) (kv : string * FeatureSpec)
    : result gate_error (gmap string FeatureSpec) :=
  try known := r in
  match known !! fst kv with
  | Some s => if decide (s = snd kv) then Ok known else Err (DifferentSpec (fst kv))
  | None => Ok (<[fst kv := snd kv]> known)
  end.

Definition AddFeatures (fs : list (string * FeatureSpec)) (f : featureGate) : result gate_error featureGate :=
  if closed f then Err GateClosed
  else try k := foldl add_feature (Ok (known f)) fs in Ok (mkGate k (enabled f) (closed f)).

Definition Enabled (f : featureGate) (k : string) : bool :=
  match enabled f !! k with
  | Some v => v
  | None => match known f !! k with Some s => fs_Default s | None => false end
  end.

(** *** Properties *)

Definition settable (f : featureGate) (kv : string * bool) : Prop :=
  ∃ s, known f !! fst kv = Some s ∧ (LockToDefault s = true → fs_Default s = snd kv).

Lemma set_one_err kn e l : foldl (set_one kn) (Err e) l = Err e.
Proof. by induction l. Qed.

Lemma set_one_cases kn en kv :
  let P := ∃ s, kn !! fst kv = Some s ∧ (LockToDefault s = true → fs_Default s = snd kv) in
  P ∧ set_one kn (Ok en) kv = Ok (<[fst kv := snd kv]> en) ∨ ¬ P ∧ ∃ e, set_one kn (Ok en) kv = Err e.
Proof.
  unfold set_one. simpl. destruct (kn !! fst kv) as [s|]; [|right; split; [by intros (? & ? & _)|eauto]].
  destruct (LockToDefault s) eqn:Hl; simpl; [|left; split; [exists s; split; [done|congruence]|done]].
  destruct (eqb (fs_Default s) (snd kv)) eqn:He; simpl; [apply eqb_prop in He; left; naive_solver|].
  right. split; [|eauto]. intros (s' & [= <-] & H). rewrite (H Hl), eqb_reflx in He. done.
Qed.

Lemma set_all_ok kn l en :
  is_ok (foldl (set_one kn) (Ok en) l) = true ↔
  Forall (λ kv, ∃ s, kn !! fst kv = Some s ∧ (LockToDefault s = true → fs_Default s = snd kv)) l.
Proof.
  revert en. induction l as [|kv l IH]; intros en; cbn [foldl]; [done|]. rewrite Forall_cons.
  destruct (set_one_cases kn en kv) as [[HP ->]|[HP [e ->]]]; [rewrite IH; naive_solver|].
  rewrite set_one_err. naive_solver.
Qed.

Lemma set_all_value kn l en en' k :
  NoDup (fst <$> l) → foldl (set_one kn) (Ok en) l = Ok en' →
  en' !! k = match list_to_map (M:=gmap string bool) l !! k with Some v => Some v | None => en !! k end.
Proof.
  revert en. induction l as [|[k' v] l IH]; intros en Hnd; cbn [foldl list_to_map foldr]; [naive_solver|].
  apply NoDup_cons in Hnd as [Hni Hnd].
  destruct (set_one_cases kn en (k', v)) as [[_ ->]|[_ [e ->]]]; [|by rewrite set_one_err].
  simpl. intros H. rewrite (IH _ Hnd H). destruct (decide (k = k')) as [->|Hne].
  - rewrite lookup_insert_eq. rewrite (proj1 (not_elem_of_list_to_map l k')) by done. by rewrite lookup_insert_eq.
  - by rewrite !lookup_insert_ne.
Qed.

(** Setting gates is all or nothing, whatever order the map is visited in: it succeeds
    exactly when every name is known and no locked feature is moved from its default; then
    a feature has its new value if it was given one and its old value otherwise. *)
Theorem SetFromMap_spec m l f :
  map_to_list m ≡ₚ l →
  (is_ok (SetFromMap l f) = true ↔
     ∀ k v, m !! k = Some v → settable f (k, v)) ∧
  (∀ f', SetFromMap l f = Ok f' → known f' = known f ∧
     ∀ k, Enabled f' k = match m !! k with Some v => v | None => Enabled f k end).
Proof.
  intros Hl. assert (NoDup (fst <$> l)) as Hnd by (rewrite <- Hl; apply NoDup_fst_map_to_list).
  split.
  - assert (is_ok (SetFromMap l f) = is_ok (foldl (set_one (known f)) (Ok (enabled f)) l)) as ->
      by (unfold SetFromMap; by destruct (foldl _ _ _)).
    rewrite set_all_ok, <- Hl, Forall_forall. unfold settable. split.
    + intros H k v Hk. by apply H, elem_of_map_to_list.
    + intros H [k v] Hk%elem_of_map_to_list. by apply H.
  - intros f'. unfold SetFromMap. destruct (foldl _ _ _) as [e|] eqn:E; [|done]. simpl. intros [= <-].
    split; [done|]. intros k. unfold Enabled. simpl. rewrite (set_all_value _ _ _ _ _ Hnd E).
    assert (list_to_map l = m) as ->; [|by destruct (m !! k)].
    rewrite <- (list_to_map_to_list m). symmetry. by apply list_to_map_proper; [apply NoDup_fst_map_to_list|].
Qed.
End FeatureGate.

(** ** Unsafe features; a nil pointer enables nothing *)

Definition TokenSourceExec : string := "TokenSourceExec".

Definition UnsafeFeatures : Type := option (gmap string bool).

Definition NewUnsafeFeatures (allowed : list string) : UnsafeFeatures :=
  Some (foldl (λ m f, <[f := true]> m) ∅ allowed).

Definition IsEnabled (u : UnsafeFeatures) (feature : string) : bool :=
  match u with None => false | Some m => default false (m !! feature) end.

(** ** Values from files and programs *)

Record ExecSource := mkExec { Command : string; Args : list string; Env : list (string * string) }.

Record ValueSource := mkValueSource { vs_Type : string; vs_File : option string; vs_Exec : option ExecSource }.

Inductive value_error :=
| FileConfigRequired | ExecConfigRequired | UnsupportedSource (t : string)
| FilePathEmpty | ExecCommandEmpty | EnvNameEmpty | EnvNameHasEquals | ReadFileFailed | ExecFailed.

Definition file_Validate (path : string) : result value_error unit :=
  if path =s? "" then Err FilePathEmpty else Ok tt.

Fixpoint env_Validate (env : list (string * string)) : result value_error unit :=
  match env with
  | [] => Ok tt
  | e :: rest => if fst e =s? "" then Err EnvNameEmpty
                 else if ContainsByte (fst e) "=" then Err EnvNameHasEquals
                 else env_Validate rest
  end.

Definition exec_Validate (e : ExecSource) : result value_error unit :=
  if Command e =s? "" then Err ExecCommandEmpty else env_Validate (Env e).

Definition source_Validate (v : ValueSource) : result value_error unit :=
  if vs_Type v =s? "file" then match vs_File v with None => Err FileConfigRequired | Some f => file_Validate f end
  else if vs_Type v =s? "exec" then match vs_Exec v with None => Err ExecConfigRequired | Some e => exec_Validate e end
  else Err (UnsupportedSource (vs_Type v)).

(** What the system does for the program. *)
Inductive effect := ReadFile (path : string) | RunCommand (cmd : string) (args : list string) (env : option (list string)).

Section resolve.
Variable read_file : string → option string.
Variable run_command : string → list string → option (list string) → option string.
Variable Environ : list string.

(** [Resolve]: the result, and what was done to get it. *)
Definition file_Resolve (path : string) : result value_error string * list effect :=
  match file_Validate path with
  | Err e => (Err e, [])
  | Ok _ => (match read_file path with Some c => Ok (TrimSpace c) | None => Err ReadFileFailed end, [ReadFile path])
  end.

Definition exec_env (e : ExecSource) : option (list string) :=
  match Env e with [] => None | env => Some (Environ ++ ((λ kv, fst kv +:+ "=" +:+ snd kv) <$> env)) end.

Definition exec_Resolve (e : ExecSource) : result value_error string * list effect :=
  match exec_Validate e with
  | Err er => (Err er, [])
  | Ok _ => (match run_command (Command e) (Args e) (exec_env e) with
             | Some c => Ok (TrimSpace c) | None => Err ExecFailed end,
             [RunCommand (Command e) (Args e) (exec_env e)])
  end.

Definition Resolve (v : ValueSource) : result value_error string * list effect :=
  match source_Validate v with
  | Err e => (Err e, [])
  | Ok _ => if vs_Type v =s? "file" then match vs_File v with Some f => file_Resolve f | None => (Err FileConfigRequired, []) end
            else if vs_Type v =s? "exec" then match vs_Exec v with Some e => exec_Resolve e | None => (Err ExecConfigRequired, []) end
            else (Err (UnsupportedSource (vs_Type v)), [])
  end.

(** A program is only run for a source of the type exec. *)
Lemma Resolve_exec v c a e : RunCommand c a e ∈ snd (Resolve v) → vs_Type v = "exec".
Proof.
  unfold Resolve. destruct (source_Validate v); [|set_solver].
  destruct (vs_Type v =s? "file").
  { destruct (vs_File v); simpl; [|set_solver]. unfold file_Resolve. case_match; simpl; set_solver. }
  destruct (seqb_spec (vs_Type v) "exec"); [done|]. simpl. set_solver.
Qed.

(** A value that was found has no blanks at its ends, and its source was valid. *)
Lemma Resolve_ok v s : fst (Resolve v) = Ok s → source_Validate v = Ok tt ∧ ∃ raw, s = TrimSpace raw.
Proof.
  unfold Resolve. destruct (source_Validate v) as [[]|]; [|done]. intros H. split; [done|]. revert H.
  repeat case_match; try done; unfold file_Resolve, exec_Resolve; repeat case_match; naive_solver.
Qed.
End resolve.

(** ** The configurations *)

Record AuthOIDCClientConfig := mkOIDC {
  o_ClientID : string; o_ClientSecret : string; o_Audience : string; o_Scope : string;
  o_TokenEndpointURL : string; o_AdditionalEndpointParams : gmap string string; o_TrustedCaFile : string;
  o_InsecureSkipVerify : bool; o_ProxyURL : string; o_TokenSource : option ValueSource }.

Record AuthClientConfig := mkAuth {
  a_Method : string; a_AdditionalScopes : list string; a_Token : string;
  a_TokenSource : option ValueSource; a_OIDC : AuthOIDCClientConfig }.

Record LogConfig := mkLog { log_To : string; log_Level : string; log_MaxDays : Z; log_DisablePrintColor : bool }.

Record TLSConfig := mkTLS { tls_CertFile : string; tls_KeyFile : string; tls_TrustedCaFile : string; tls_ServerName : string }.

Record WebServerConfig := mkWeb {
  web_Addr : string; web_Port : Z; web_User : string; web_Password : string; web_AssetsDir : string;
  web_PprofEnable : bool; web_TLS : option TLSConfig }.

Record QUICOptions := mkQUIC { KeepalivePeriod : Z; MaxIdleTimeout : Z; MaxIncomingStreams : Z }.

Record TLSClientConfig := mkTLSClient {
  tls_Enable : option bool; DisableCustomTLSFirstByte : option bool; tls_Config : TLSConfig }.

Record ClientTransportConfig := mkClientTransport {
  ct_Protocol : string; DialServerTimeout : Z; DialServerKeepAlive : Z; ConnectServerLocalIP : string;
  ct_ProxyURL : string; ct_PoolCount : Z; ct_TCPMux : option bool; ct_TCPMuxKeepaliveInterval : Z;
  ct_QUIC : QUICOptions; ct_HeartbeatInterval : Z; ct_HeartbeatTimeout : Z; ct_TLS : TLSClientConfig }.

Record ClientCommonConfig := mkClientCommon {
  cc_Auth : AuthClientConfig; cc_User : string; cc_ClientID : string; cc_ServerAddr : string;
  cc_ServerPort : Z; cc_NatHoleSTUNServer : string; cc_DNSServer : string; cc_LoginFailExit : option bool;
  cc_Start : list string; cc_Log : LogConfig; cc_WebServer : WebServerConfig;
  cc_Transport : ClientTransportConfig; cc_VirtualNet : string; cc_FeatureGates : gmap string bool;
  cc_UDPPacketSize : Z; cc_Metadatas : gmap string string; cc_IncludeConfigFiles : list string;
  cc_Store : string }.

(** *** [Complete] *)

Definition auth_Complete (a : AuthClientConfig) : AuthClientConfig :=
  mkAuth (EmptyOr (a_Method a) "token") (a_AdditionalScopes a) (a_Token a) (a_TokenSource a) (a_OIDC a).

Definition log_Complete (l : LogConfig) : LogConfig :=
  mkLog (EmptyOr (log_To l) "console") (EmptyOr (log_Level l) "info") (EmptyOrZ (log_MaxDays l) 3)
    (log_DisablePrintColor l).

Definition web_Complete (w : WebServerConfig) : WebServerConfig :=
  mkWeb (EmptyOr (web_Addr w) "127.0.0.1") (web_Port w) (web_User w) (web_Password w) (web_AssetsDir w)
    (web_PprofEnable w) (web_TLS w).

Definition quic_Complete (q : QUICOptions) : QUICOptions :=
  mkQUIC (EmptyOrZ (KeepalivePeriod q) 10) (EmptyOrZ (MaxIdleTimeout q) 30) (EmptyOrZ (MaxIncomingStreams q) 100000).

Definition tls_Complete (t : TLSClientConfig) : TLSClientConfig :=
  mkTLSClient (EmptyOrPtr (tls_Enable t) true) (EmptyOrPtr (DisableCustomTLSFirstByte t) true) (tls_Config t).

(** [http_proxy] is the environment variable of that name. *)
Definition transport_Complete (http_proxy : string) (c : ClientTransportConfig) : ClientTransportConfig :=
  let mux := EmptyOrPtr (ct_TCPMux c) true in
  let on := default false mux in
  mkClientTransport (EmptyOr (ct_Protocol c) "tcp") (EmptyOrZ (DialServerTimeout c) 10)
    (EmptyOrZ (DialServerKeepAlive c) 7200) (ConnectServerLocalIP c) (EmptyOr (ct_ProxyURL c) http_proxy)
    (EmptyOrZ (ct_PoolCount c) 1) mux (EmptyOrZ (ct_TCPMuxKeepaliveInterval c) 30) (quic_Complete (ct_QUIC c))
    (EmptyOrZ (ct_HeartbeatInterval c) (if on then -1 else 30))
    (EmptyOrZ (ct_HeartbeatTimeout c) (if on then -1 else 90)) (tls_Complete (ct_TLS c)).

Definition client_Complete (http_proxy : string) (c : ClientCommonConfig) : ClientCommonConfig :=
  mkClientCommon (auth_Complete (cc_Auth c)) (cc_User c) (cc_ClientID c) (EmptyOr (cc_ServerAddr c) "0.0.0.0")
    (EmptyOrZ (cc_ServerPort c) 7000) (EmptyOr (cc_NatHoleSTUNServer c) "stun.easyvoip.com:3478")
    (cc_DNSServer c) (EmptyOrPtr (cc_LoginFailExit c) true) (cc_Start c) (log_Complete (cc_Log c))
    (web_Complete (cc_WebServer c)) (transport_Complete http_proxy (cc_Transport c)) (cc_VirtualNet c)
    (cc_FeatureGates c) (EmptyOrZ (cc_UDPPacketSize c) 1500) (cc_Metadatas c) (cc_IncludeConfigFiles c) (cc_Store c).

Module ServerConf.
Record AuthOIDCServerConfig := mkOIDCServer {
  Issuer : string; Audience : string; SkipExpiryCheck : bool; SkipIssuerCheck : bool }.

Record AuthServerConfig := mkAuthServer {
  as_Method : string; as_AdditionalScopes : list string; as_Token : string;
  as_TokenSource : option ValueSource; as_OIDC : AuthOIDCServerConfig }.

Record ServerTransportConfig := mkServerTransport {
  st_TCPMux : option bool; st_TCPMuxKeepaliveInterval : Z; TCPKeepAlive : Z; st_MaxPoolCount : Z;
  st_HeartbeatTimeout : Z; st_QUIC : QUICOptions; TLS_Force : bool; st_TLS : TLSConfig }.

Record SSHTunnelGateway := mkSSH {
  ssh_BindPort : Z; PrivateKeyFile : string; AutoGenPrivateKeyPath : string; AuthorizedKeysFile : string }.

Record HTTPPluginOptions := mkHTTPPlugin {
  hp_Name : string; hp_Addr : string; hp_Path : string; hp_Ops : list string; hp_TLSVerify : bool }.

Record ServerConfig := mkServer {
  sc_Auth : AuthServerConfig; sc_BindAddr : string; sc_BindPort : Z; sc_KCPBindPort : Z; sc_QUICBindPort : Z;
  sc_ProxyBindAddr : string; sc_VhostHTTPPort : Z; sc_VhostHTTPTimeout : Z; sc_VhostHTTPSPort : Z;
  sc_TCPMuxHTTPConnectPort : Z; sc_TCPMuxPassthrough : bool; sc_SubDomainHost : string;
  sc_Custom404Page : string; sc_SSHTunnelGateway : SSHTunnelGateway; sc_WebServer : WebServerConfig;
  sc_EnablePrometheus : bool; sc_Log : LogConfig; sc_Transport : ServerTransportConfig;
  sc_DetailedErrorsToClient : option bool; sc_MaxPortsPerClient : Z; sc_UserConnTimeout : Z;
  sc_UDPPacketSize : Z; sc_NatHoleAnalysisDataReserveHours : Z; sc_AllowPorts : list (Z * Z * Z);
  sc_HTTPPlugins : list HTTPPluginOptions }.

Definition auth_server_Complete (a : AuthServerConfig) : AuthServerConfig :=
  mkAuthServer (EmptyOr (as_Method a) "token") (as_AdditionalScopes a) (as_Token a) (as_TokenSource a) (as_OIDC a).

Definition server_transport_Complete (c : ServerTransportConfig) : ServerTransportConfig :=
  let mux := EmptyOrPtr (st_TCPMux c) true in
  mkServerTransport mux (EmptyOrZ (st_TCPMuxKeepaliveInterval c) 30) (EmptyOrZ (TCPKeepAlive c) 7200)
    (EmptyOrZ (st_MaxPoolCount c) 5)
    (EmptyOrZ (st_HeartbeatTimeout c) (if default false mux then -1 else 90)) (quic_Complete (st_QUIC c))
    (if negb (tls_TrustedCaFile (st_TLS c) =s? "") then true else TLS_Force c) (st_TLS c).

Definition ssh_Complete (c : SSHTunnelGateway) : SSHTunnelGateway :=
  mkSSH (ssh_BindPort c) (PrivateKeyFile c) (EmptyOr (AutoGenPrivateKeyPath c) "./.autogen_ssh_key")
    (AuthorizedKeysFile c).

Definition set_web_addr (a : string) (w : WebServerConfig) : WebServerConfig :=
  mkWeb a (web_Port w) (web_User w) (web_Password w) (web_AssetsDir w) (web_PprofEnable w) (web_TLS w).

Definition server_Complete (c : ServerConfig) : ServerConfig :=
  let web := web_Complete (sc_WebServer c) in
  let bind := EmptyOr (sc_BindAddr c) "0.0.0.0" in
  mkServer (auth_server_Complete (sc_Auth c)) bind (EmptyOrZ (sc_BindPort c) 7000) (sc_KCPBindPort c)
    (sc_QUICBindPort c) (if sc_ProxyBindAddr c =s? "" then bind else sc_ProxyBindAddr c) (sc_VhostHTTPPort c)
    (EmptyOrZ (sc_VhostHTTPTimeout c) 60) (sc_VhostHTTPSPort c) (sc_TCPMuxHTTPConnectPort c)
    (sc_TCPMuxPassthrough c) (sc_SubDomainHost c) (sc_Custom404Page c) (ssh_Complete (sc_SSHTunnelGateway c))
    (if (0 <? web_Port web)%Z then set_web_addr (EmptyOr (web_Addr web) "0.0.0.0") web else web)
    (sc_EnablePrometheus c) (log_Complete (sc_Log c)) (server_transport_Complete (sc_Transport c))
    (EmptyOrPtr (sc_DetailedErrorsToClient c) true) (sc_MaxPortsPerClient c) (EmptyOrZ (sc_UserConnTimeout c) 10)
    (EmptyOrZ (sc_UDPPacketSize c) 1500) (EmptyOrZ (sc_NatHoleAnalysisDataReserveHours c) (7 * 24))
    (sc_AllowPorts c) (sc_HTTPPlugins c).

(** The second default for the address of the dashboard never applies: the first one has
    filled it in. *)
Lemma web_fallback_dead c : web_Addr (sc_WebServer (server_Complete c)) = EmptyOr (web_Addr (sc_WebServer c)) "127.0.0.1".
Proof.
  unfold server_Complete. simpl. case_match; [|done]. simpl. unfold EmptyOr.
  destruct (web_Addr (sc_WebServer c) =s? "") eqn:E; [done|]. by rewrite E.
Qed.
End ServerConf.
Import ServerConf.

(** ** Validation: the errors and the warnings that are joined *)

Inductive conf_error :=
| VirtualNetNotEnabled | InvalidAuthMethod | InvalidScopes | TokenAndTokenSource | UnsafeFeature (f : string)
| InvalidTokenSource (e : value_error) | OIDCSourceExclusive | InvalidOIDCSource (e : value_error)
| OIDCInvalid (e : list string) | InvalidLogLevel | WebCertFileMissing | WebKeyFileMissing
| InvalidPort (field : string) (p : Z) | HeartbeatTimeoutTooShort | InvalidProtocol
| IncludeDirFails (f : string) | IncludeDirNotExist (f : string) | InvalidPluginOps
| TLSFieldWithoutTLS (name : string).

Abbreviation errors := (list conf_error).
Definition err_if (b : bool) (e : conf_error) : errors := if b then [e] else [].

Definition SupportedTransportProtocols : list string := ["tcp"; "kcp"; "quic"; "websocket"; "wss"].
Definition SupportedAuthMethods : list string := ["token"; "oidc"].
Definition SupportedAuthAdditionalScopes : list string := ["HeartBeats"; "NewWorkConns"].
Definition SupportedLogLevels : list string := ["trace"; "debug"; "info"; "warn"; "error"].
Definition SupportedHTTPPluginOps : list string :=
  ["Login"; "NewProxy"; "CloseProxy"; "Ping"; "NewWorkConn"; "NewUserConn"].

(** [lo.Every(all, subset)]. *)
Definition Every (all subset : list string) : bool := forallb (contains all) subset.

Inductive dir_state := AbsFails | DirNotExist | DirOther.

Section validation.
(** [url.Parse]: scheme and host; the state of the directory of a path. *)
Variable url_Parse : string → option (string * string).
Variable dir_of : string → dir_state.
Variable unsafeFeatures : UnsafeFeatures.

Definition ValidateUnsafeFeature (f : string) : errors := err_if (negb (IsEnabled unsafeFeatures f)) (UnsafeFeature f).

Definition validatePort (p : Z) (field : string) : errors :=
  err_if (negb ((0 <=? p) && (p <=? 65535))%Z) (InvalidPort field p).

Definition validateLogConfig (l : LogConfig) : errors :=
  err_if (negb (contains SupportedLogLevels (log_Level l))) InvalidLogLevel.

Definition validateWebServerConfig (w : WebServerConfig) : errors :=
  match web_TLS w with
  | Some t => if tls_CertFile t =s? "" then [WebCertFileMissing]
              else if tls_KeyFile t =s? "" then [WebKeyFileMissing]
              else validatePort (web_Port w) "webServer.port"
  | None => validatePort (web_Port w) "webServer.port"
  end.

Definition validateFeatureGates (gate : FeatureGate.featureGate) (c : ClientCommonConfig) : errors :=
  err_if (negb (cc_VirtualNet c =s? "") && negb (FeatureGate.Enabled gate FeatureGate.VirtualNet)) VirtualNetNotEnabled.

(** The checks of a source that may run a program. *)
Definition validate_source (wrap : value_error → conf_error) (s : ValueSource) : errors :=
  (if vs_Type s =s? "exec" then ValidateUnsafeFeature TokenSourceExec else []) ++
  match source_Validate s with Ok _ => [] | Err e => [wrap e] end.

(** [ValidateOIDCClientCredentialsConfig]: the texts that are joined. *)
Definition ValidateOIDCClientCredentialsConfig (c : AuthOIDCClientConfig) : list string :=
  (if o_ClientID c =s? "" then ["auth.oidc.clientID is required"] else []) ++
  (if o_TokenEndpointURL c =s? "" then ["auth.oidc.tokenEndpointURL is required"]
   else match url_Parse (o_TokenEndpointURL c) with
        | None => ["auth.oidc.tokenEndpointURL must be an absolute http or https URL"]
        | Some (scheme, host) =>
            if (scheme =s? "") || (host =s? "")
            then ["auth.oidc.tokenEndpointURL must be an absolute http or https URL"]
            else if negb (scheme =s? "http") && negb (scheme =s? "https")
            then ["auth.oidc.tokenEndpointURL must use http or https"] else []
        end) ++
  (if bool_decide (is_Some (o_AdditionalEndpointParams c !! "scope"))
   then ["auth.oidc.additionalEndpointParams.scope is not allowed; use auth.oidc.scope instead"] else []) ++
  (if negb (o_Audience c =s? "") && bool_decide (is_Some (o_AdditionalEndpointParams c !! "audience"))
   then ["cannot specify both auth.oidc.audience and auth.oidc.additionalEndpointParams.audience"] else []).

Definition validateOIDCConfig (c : AuthOIDCClientConfig) : errors :=
  match o_TokenSource c with
  | None => []
  | Some s =>
      err_if (negb (o_ClientID c =s? "") || negb (o_ClientSecret c =s? "") || negb (o_Audience c =s? "")
              || negb (o_Scope c =s? "") || negb (o_TokenEndpointURL c =s? "")
              || negb (bool_decide (o_AdditionalEndpointParams c = ∅)) || negb (o_TrustedCaFile c =s? "")
              || o_InsecureSkipVerify c || negb (o_ProxyURL c =s? "")) OIDCSourceExclusive ++
      validate_source InvalidOIDCSource s
  end.

Definition validateAuthConfig (c : AuthClientConfig) : errors :=
  err_if (negb (contains SupportedAuthMethods (a_Method c))) InvalidAuthMethod ++
  err_if (negb (Every SupportedAuthAdditionalScopes (a_AdditionalScopes c))) InvalidScopes ++
  err_if (negb (a_Token c =s? "") && bool_decide (is_Some (a_TokenSource c))) TokenAndTokenSource ++
  match a_TokenSource c with Some s => validate_source InvalidTokenSource s | None => [] end ++
  validateOIDCConfig (a_OIDC c) ++
  (if (a_Method c =s? "oidc") && negb (bool_decide (is_Some (o_TokenSource (a_OIDC c))))
   then match ValidateOIDCClientCredentialsConfig (a_OIDC c) with [] => [] | es => [OIDCInvalid es] end else []).

Definition validateTransportConfig (c : ClientTransportConfig) : errors * errors :=
  (if negb (default false (tls_Enable (ct_TLS c)))
   then err_if (negb (tls_CertFile (tls_Config (ct_TLS c)) =s? "")) (TLSFieldWithoutTLS "transport.tls.certFile") ++
        err_if (negb (tls_KeyFile (tls_Config (ct_TLS c)) =s? "")) (TLSFieldWithoutTLS "transport.tls.keyFile") ++
        err_if (negb (tls_TrustedCaFile (tls_Config (ct_TLS c)) =s? "")) (TLSFieldWithoutTLS "transport.tls.trustedCaFile")
   else [],
   err_if ((0 <? ct_HeartbeatTimeout c) && (0 <? ct_HeartbeatInterval c)
           && (ct_HeartbeatTimeout c <? ct_HeartbeatInterval c))%Z HeartbeatTimeoutTooShort ++
   err_if (negb (contains SupportedTransportProtocols (ct_Protocol c))) InvalidProtocol).

Definition validateIncludeFiles (files : list string) : errors :=
  files ≫= λ f, match dir_of f with
                | AbsFails => [IncludeDirFails f] | DirNotExist => [IncludeDirNotExist f] | DirOther => []
                end.

(** Warnings and errors. *)
Definition ValidateClientCommonConfig (gate : FeatureGate.featureGate) (c : ClientCommonConfig) : errors * errors :=
  let '(w, e) := validateTransportConfig (cc_Transport c) in
  (w, validateFeatureGates gate c ++ validateAuthConfig (cc_Auth c) ++ validateLogConfig (cc_Log c) ++
      validateWebServerConfig (cc_WebServer c) ++ e ++ validateIncludeFiles (cc_IncludeConfigFiles c)).

Definition ValidateServerConfig (c : ServerConfig) : errors :=
  err_if (negb (contains SupportedAuthMethods (as_Method (sc_Auth c)))) InvalidAuthMethod ++
  err_if (negb (Every SupportedAuthAdditionalScopes (as_AdditionalScopes (sc_Auth c)))) InvalidScopes ++
  err_if (negb (as_Token (sc_Auth c) =s? "") && bool_decide (is_Some (as_TokenSource (sc_Auth c)))) TokenAndTokenSource ++
  match as_TokenSource (sc_Auth c) with Some s => validate_source InvalidTokenSource s | None => [] end ++
  validateLogConfig (sc_Log c) ++ validateWebServerConfig (sc_WebServer c) ++
  validatePort (sc_BindPort c) "bindPort" ++ validatePort (sc_KCPBindPort c) "kcpBindPort" ++
  validatePort (sc_QUICBindPort c) "quicBindPort" ++ validatePort (sc_VhostHTTPPort c) "vhostHTTPPort" ++
  validatePort (sc_VhostHTTPSPort c) "vhostHTTPSPort" ++
  validatePort (sc_TCPMuxHTTPConnectPort c) "tcpMuxHTTPConnectPort" ++
  (sc_HTTPPlugins c ≫= λ p, err_if (negb (Every SupportedHTTPPluginOps (hp_Ops p))) InvalidPluginOps).
End validation.

(** ** Properties *)

Lemma client_Complete_idem env c : client_Complete env (client_Complete env c) = client_Complete env c.
Proof.
  unfold client_Complete, auth_Complete, log_Complete, web_Complete, transport_Complete, quic_Complete, tls_Complete.
  simpl. by rewrite !EmptyOr_idem, !EmptyOrZ_idem.
Qed.

Lemma server_Complete_idem c : server_Complete (server_Complete c) = server_Complete c.
Proof.
  destruct c. unfold server_Complete, auth_server_Complete, server_transport_Complete, log_Complete, web_Complete,
    quic_Complete, ssh_Complete. simpl. rewrite !EmptyOr_idem, !EmptyOrZ_idem. f_equal.
  - unfold EmptyOr. destruct (sc_ProxyBindAddr0 =s? "") eqn:E; [|by rewrite E].
    by destruct (sc_BindAddr0 =s? "") eqn:E'; [|rewrite E'].
  - destruct (0 <? web_Port sc_WebServer0)%Z eqn:E; simpl; rewrite ?E; [|by rewrite EmptyOr_idem].
    unfold set_web_addr, EmptyOr. simpl. by destruct (web_Addr sc_WebServer0 =s? "") eqn:Ew; rewrite ?Ew.
  - f_equal. by destruct (tls_TrustedCaFile (st_TLS sc_Transport0) =s? ""); simpl.
Qed.

Lemma err_if_nil b e : err_if b e = [] ↔ b = false.
Proof. by destruct b. Qed.

(** A source that passed may run a program only where that is allowed. *)
Lemma validate_source_nil u wrap s :
  validate_source u wrap s = [] ↔
  source_Validate s = Ok tt ∧ (vs_Type s = "exec" → IsEnabled u TokenSourceExec = true).
Proof.
  unfold validate_source. rewrite app_nil. unfold ValidateUnsafeFeature.
  destruct (seqb_spec (vs_Type s) "exec"), (source_Validate s) as [[]|]; rewrite ?err_if_nil, ?negb_false_iff; naive_solver.
Qed.

Lemma validateAuthConfig_sources url u c :
  validateAuthConfig url u c = [] →
  (∀ s, a_TokenSource c = Some s → a_Token c = "" ∧ validate_source u InvalidTokenSource s = []) ∧
  (∀ s, o_TokenSource (a_OIDC c) = Some s → validate_source u InvalidOIDCSource s = []).
Proof.
  unfold validateAuthConfig. rewrite !app_nil, !err_if_nil. intros (_ & _ & Hex & Hs & Ho & _). split.
  - intros s E. rewrite E in *. split; [|done]. simpl in Hex.
    by destruct (seqb_spec (a_Token c) "").
  - intros s E. unfold validateOIDCConfig in Ho. rewrite E in Ho. by apply app_nil in Ho as [_ ?].
Qed.

(** The heartbeats of a validated client: where both are on, the timeout is not shorter
    than the interval. *)
Lemma validated_heartbeat url dir u gate c w :
  ValidateClientCommonConfig url dir u gate c = (w, []) →
  (0 < ct_HeartbeatInterval (cc_Transport c) → 0 < ct_HeartbeatTimeout (cc_Transport c) →
   ct_HeartbeatInterval (cc_Transport c) <= ct_HeartbeatTimeout (cc_Transport c))%Z.
Proof.
  unfold ValidateClientCommonConfig, validateTransportConfig. intros H. injection H as _ H.
  rewrite !app_nil, !err_if_nil in H. destruct H as (_ & _ & _ & _ & [H _] & _).
  destruct (Z.ltb_spec 0 (ct_HeartbeatTimeout (cc_Transport c))), (Z.ltb_spec 0 (ct_HeartbeatInterval (cc_Transport c)));
    simpl in H; lia.
Qed.

(** An empty configuration, completed, is valid and without warnings, on a client and on a
    server. *)
Definition zero_oidc : AuthOIDCClientConfig := mkOIDC "" "" "" "" "" ∅ "" false "" None.
Definition zero_tls : TLSConfig := mkTLS "" "" "" "".
Definition zero_web : WebServerConfig := mkWeb "" 0 "" "" "" false None.
Definition zero_client : ClientCommonConfig :=
  mkClientCommon (mkAuth "" [] "" None zero_oidc) "" "" "" 0 "" "" None [] (mkLog "" "" 0 false) zero_web
    (mkClientTransport "" 0 0 "" "" 0 None 0 (mkQUIC 0 0 0) 0 0 (mkTLSClient None None zero_tls)) "" ∅ 0 ∅ [] "".
Definition zero_server : ServerConfig :=
  mkServer (mkAuthServer "" [] "" None (mkOIDCServer "" "" false false)) "" 0 0 0 "" 0 0 0 0 false "" ""
    (mkSSH 0 "" "" "") zero_web false (mkLog "" "" 0 false)
    (mkServerTransport None 0 0 0 0 (mkQUIC 0 0 0) false zero_tls) None 0 0 0 0 [] [].

Lemma defaults_valid url dir u gate env :
  ValidateClientCommonConfig url dir u gate (client_Complete env zero_client) = ([], []) ∧
  ValidateServerConfig u (server_Complete zero_server) = [].
Proof. by vm_compute. Qed.
