(* ===== verification/AuthBuild.v ===== *)
(** How a client and a server get their authentication: [BuildClientAuth],
    [BuildServerAuth] of [src/pkg/auth/auth.go] and OIDC, [src/pkg/auth/oidc.go].

    Outside the program are the token endpoint and the verification of tokens of the OIDC
    library, certificates, files and programs: they are arguments or inputs of a step. *)
From Stdlib Require Import ZArith Lia Ascii String.
From stdpp Require Import base gmap strings list fin_maps.
From S2P Require Import Prelude GoStrings ProxyConf VisitorConf CommonConf Auth.
Import ServerConf.
Local Open Scope string_scope.
Local Open Scope list_scope.

(** ** The server's verifier: [OidcAuthConsumer] *)

Record OidcAuthConsumer := mkConsumer { oc_scopes : list string; subjectsFromLogin : gset string }.

Definition NewOidcAuthVerifier (scopes : list string) : OidcAuthConsumer := mkConsumer scopes ∅.

Inductive oidc_error := InvalidToken | DifferentSubject (s : string).

Section consumer.
(** [TokenVerifier.Verify]: the subject of a token that is valid. *)
Variable Verify : string → option string.

Definition oidc_VerifyLogin (m : Login) (c : OidcAuthConsumer) : result oidc_error unit * OidcAuthConsumer :=
  match Verify (l_PrivilegeKey m) with
  | None => (Err InvalidToken, c)
  | Some s => (Ok tt, mkConsumer (oc_scopes c) ({[s]} ∪ subjectsFromLogin c))
  end.

Definition verifyPostLoginToken (key : string) (c : OidcAuthConsumer) : result oidc_error unit :=
  match Verify key with
  | None => Err InvalidToken
  | Some s => if decide (s ∈ subjectsFromLogin c) then Ok tt else Err (DifferentSubject s)
  end.

Definition oidc_VerifyPing (m : Ping) (c : OidcAuthConsumer) : result oidc_error unit :=
  if contains (oc_scopes c) AuthScopeHeartBeats then verifyPostLoginToken (p_PrivilegeKey m) c else Ok tt.

Definition oidc_VerifyNewWorkConn (m : NewWorkConn) (c : OidcAuthConsumer) : result oidc_error unit :=
  if contains (oc_scopes c) AuthScopeNewWorkConns then verifyPostLoginToken (w_PrivilegeKey m) c else Ok tt.

(** The verifier after the logins of all clients, accepted or not. *)
Definition after_logins (scopes : list string) (ms : list Login) : OidcAuthConsumer :=
  foldl (λ c m, snd (oidc_VerifyLogin m c)) (NewOidcAuthVerifier scopes) ms.

Lemma after_logins_spec scopes ms :
  oc_scopes (after_logins scopes ms) = scopes ∧
  ∀ s, s ∈ subjectsFromLogin (after_logins scopes ms) ↔ ∃ m, m ∈ ms ∧ Verify (l_PrivilegeKey m) = Some s.
Proof.
  unfold after_logins. induction ms as [|m ms [IH1 IH2]] using rev_ind.
  { simpl. split; [done|]. intros s. split; [set_solver|]. intros (m & Hm & _). by apply not_elem_of_nil in Hm. }
  rewrite foldl_app. simpl. unfold oidc_VerifyLogin. destruct (Verify (l_PrivilegeKey m)) as [s0|] eqn:E; simpl.
  - split; [done|]. intros s. rewrite elem_of_union, elem_of_singleton, IH2. setoid_rewrite elem_of_app.
    setoid_rewrite list_elem_of_singleton. naive_solver.
  - split; [done|]. intros s. rewrite IH2. setoid_rewrite elem_of_app.
    setoid_rewrite list_elem_of_singleton. naive_solver.
Qed.

(** OIDC after login: with the scope configured a ping or a work connection is accepted
    exactly when its token is valid and its subject is that of some login; the subject need
    not be that of the session the message came on. *)
Theorem oidc_post_login_exact scopes ms (p : Ping) (w : NewWorkConn) :
  let c := after_logins scopes ms in
  let logged key := ∃ s m, Verify key = Some s ∧ m ∈ ms ∧ Verify (l_PrivilegeKey m) = Some s in
  (oidc_VerifyPing p c = Ok tt ↔ AuthScopeHeartBeats ∉ scopes ∨ logged (p_PrivilegeKey p)) ∧
  (oidc_VerifyNewWorkConn w c = Ok tt ↔ AuthScopeNewWorkConns ∉ scopes ∨ logged (w_PrivilegeKey w)).
Proof.
  intros c logged. destruct (after_logins_spec scopes ms) as [Hs Hsub]. fold c in Hs, Hsub.
  assert (∀ key, verifyPostLoginToken key c = Ok tt ↔ logged key) as Hv.
  { intros key. unfold verifyPostLoginToken, logged. destruct (Verify key) as [s|]; [|naive_solver].
    case_decide as Hin; rewrite Hsub in Hin; naive_solver. }
  unfold oidc_VerifyPing, oidc_VerifyNewWorkConn, contains. rewrite Hs.
  split; case_bool_decide; rewrite ?Hv; naive_solver.
Qed.
End consumer.

(** ** The client's token source: caching until the provider is known to send no expiry *)

Record idp_token := mkToken { AccessToken : string; Expiry : time }.

Inductive token_source := CachingSource | NonCachingSource.
Record oidcTokenSource := mkTS { ts_initialized : bool; ts_source : token_source }.

(** What the caching source and the endpoint answer at the moment of the call. *)
Definition Token (cached fresh : option idp_token) (s : oidcTokenSource)
    : option idp_token * oidcTokenSource :=
  let ask := match ts_source s with CachingSource => cached | NonCachingSource => fresh end in
  if negb (ts_initialized s) then
    match ask with
    | None => (None, s)
    | Some t => (Some t, mkTS true (if IsZero (Expiry t) then NonCachingSource else ts_source s))
    end
  else (ask, s).

Definition new_token_source : oidcTokenSource := mkTS false CachingSource.

Definition token_run (answers : list (option idp_token * option idp_token)) : oidcTokenSource :=
  foldl (λ s a, snd (Token (fst a) (snd a) s)) new_token_source answers.

(** The first token the caching source handed out. *)
Definition first_token (answers : list (option idp_token * option idp_token)) : option idp_token :=
  head (omap fst answers).

(** Once a first token came without expiry every further token is fetched; with an expiry,
    or before any token, the caching source is asked. *)
Lemma token_source_choice answers cached fresh :
  fst (Token cached fresh (token_run answers)) =
  match first_token answers with
  | Some t => if IsZero (Expiry t) then fresh else cached
  | None => cached
  end.
Proof.
  assert (token_run answers = match first_token answers with
    | Some t => mkTS true (if IsZero (Expiry t) then NonCachingSource else CachingSource)
    | None => new_token_source end) as ->.
  { unfold token_run, first_token. induction answers as [|[c f] l IH] using rev_ind; [done|].
    rewrite foldl_app, omap_app. simpl. rewrite IH. destruct (head (omap fst l)) as [t|] eqn:Eh.
    - assert (head (omap fst l ++ match c with Some y => [y] | None => [] end) = Some t) as ->
        by (destruct (omap fst l); [done|naive_solver]).
      unfold Token. simpl. by destruct (IsZero (Expiry t)).
    - assert (omap fst l = []) as -> by (by destruct (omap fst l)). unfold Token. simpl. destruct c; done. }
  unfold Token. destruct (first_token answers) as [t|]; simpl; [|by destruct cached].
  by destruct (IsZero (Expiry t)).
Qed.

(** ** Building the authentication of a client and of a server *)

Inductive build_error :=
| ResolveFailed (e : value_error) | UnsupportedAuthMethod (m : string) | OIDCConfigInvalid (es : list string)
| HTTPClientFailed | TokenUnavailable.

(** The transport of the OIDC client: TLS options with the certificates of a file, and a
    proxy. *)
Record httpClient := mkHttpClient { hc_tls : option (bool * option string); hc_proxy : option string }.

(** [clientcredentials.Config]. *)
Record tokenConfig := mkTokenConfig {
  tg_ClientID : string; tg_ClientSecret : string; tg_Scopes : list string; tg_TokenURL : string;
  tg_EndpointParams : gmap string (list string); tg_HTTPClient : option httpClient }.

Inductive Setter :=
| TokenSetter (a : TokenAuth)
| OidcAuthProvider (scopes : list string) (cfg : tokenConfig) (ts : oidcTokenSource)
| OidcTokenSourceAuthProvider (scopes : list string) (v : ValueSource).

Section build.
Variable url_Parse : string → option (string * string).
Variable read_file : string → option string.
Variable run_command : string → list string → option (list string) → option string.
Variable Environ : list string.
(** [AppendCertsFromPEM] finds a certificate. *)
Variable is_pem : string → bool.
Variable md5_hex : string → string.

Definition createOIDCHTTPClient (trustedCAFile : string) (insecureSkipVerify : bool) (proxyURL : string)
    : option httpClient * list effect :=
  let ca := negb (trustedCAFile =s? "") && negb insecureSkipVerify in
  let eff := if ca then [ReadFile trustedCAFile] else [] in
  let tls :=                                       (* [None]: an error *)
    if negb (trustedCAFile =s? "") || insecureSkipVerify then
      if ca then match read_file trustedCAFile with
                 | Some c => if is_pem c then Some (Some (insecureSkipVerify, Some c)) else None
                 | None => None
                 end
      else Some (Some (insecureSkipVerify, None))
    else Some None in
  match tls with
  | None => (None, eff)
  | Some t =>
      if negb (proxyURL =s? "") then
        match url_Parse proxyURL with
        | None => (None, eff)
        | Some _ => (Some (mkHttpClient t (Some proxyURL)), eff)
        end
      else (Some (mkHttpClient t None), eff)
  end.

Definition endpoint_params (c : AuthOIDCClientConfig) : gmap string (list string) :=
  let eps := (λ v, [v]) <$> o_AdditionalEndpointParams c in
  if negb (o_Audience c =s? "") then <["audience" := [o_Audience c]]> eps else eps.

Definition NewOidcAuthSetter (scopes : list string) (c : AuthOIDCClientConfig)
    : result build_error Setter * list effect :=
  match ValidateOIDCClientCredentialsConfig url_Parse c with
  | _ :: _ as es => (Err (OIDCConfigInvalid es), [])
  | [] =>
      let cfg h := mkTokenConfig (o_ClientID c) (o_ClientSecret c) [o_Scope c] (o_TokenEndpointURL c)
                     (endpoint_params c) h in
      if negb (o_TrustedCaFile c =s? "") || o_InsecureSkipVerify c || negb (o_ProxyURL c =s? "") then
        match createOIDCHTTPClient (o_TrustedCaFile c) (o_InsecureSkipVerify c) (o_ProxyURL c) with
        | (None, eff) => (Err HTTPClientFailed, eff)
        | (Some h, eff) => (Ok (OidcAuthProvider scopes (cfg (Some h)) new_token_source), eff)
        end
      else (Ok (OidcAuthProvider scopes (cfg None) new_token_source), [])
  end.

Definition NewAuthSetter (c : AuthClientConfig) : result build_error Setter * list effect :=
  if a_Method c =s? "token" then (Ok (TokenSetter (NewTokenAuth (a_AdditionalScopes c) (a_Token c))), [])
  else if a_Method c =s? "oidc" then
    match o_TokenSource (a_OIDC c) with
    | Some v => (Ok (OidcTokenSourceAuthProvider (a_AdditionalScopes c) v), [])
    | None => NewOidcAuthSetter (a_AdditionalScopes c) (a_OIDC c)
    end
  else (Err (UnsupportedAuthMethod (a_Method c)), []).

Definition set_token (t : string) (c : AuthClientConfig) : AuthClientConfig :=
  mkAuth (a_Method c) (a_AdditionalScopes c) t (a_TokenSource c) (a_OIDC c).

(** The configuration with its token read; the setter with the encryption key. *)
Definition resolve_token (method : string) (source : option ValueSource) (token : string)
    : result build_error string * list effect :=
  match source with
  | Some v => if method =s? "token" then
                match Resolve read_file run_command Environ v with
                | (Ok t, eff) => (Ok t, eff)
                | (Err e, eff) => (Err (ResolveFailed e), eff)
                end
              else (Ok token, [])
  | None => (Ok token, [])
  end.

Definition BuildClientAuth (c : AuthClientConfig) : result build_error (Setter * string) * list effect :=
  match resolve_token (a_Method c) (a_TokenSource c) (a_Token c) with
  | (Err e, eff) => (Err e, eff)
  | (Ok t, eff) =>
      match NewAuthSetter (set_token t c) with
      | (Err e, eff') => (Err e, eff ++ eff')
      | (Ok s, eff') => (Ok (s, t), eff ++ eff')
      end
  end.

(** The server's verifier: none for a method that is neither. *)
Definition server_Verifier : Type := option (TokenAuth + OidcAuthConsumer).

Definition NewAuthVerifier (c : AuthServerConfig) (token : string) : server_Verifier :=
  if as_Method c =s? "token" then Some (inl (NewTokenAuth (as_AdditionalScopes c) token))
  else if as_Method c =s? "oidc" then Some (inr (NewOidcAuthVerifier (as_AdditionalScopes c)))
  else None.

Definition BuildServerAuth (c : AuthServerConfig) : result build_error (server_Verifier * string) * list effect :=
  match resolve_token (as_Method c) (as_TokenSource c) (as_Token c) with
  | (Err e, eff) => (Err e, eff)
  | (Ok t, eff) => (Ok (NewAuthVerifier c t, t), eff)
  end.

(** *** What a setter puts into a message: [None] where nothing is to be set *)

(** The access token at this moment; [cached] and [fresh] are the provider's answers. *)
Definition generateAccessToken (cached fresh : option idp_token) (s : Setter)
    : result build_error string * Setter * list effect :=
  match s with
  | TokenSetter a => (Ok "", s, [])
  | OidcAuthProvider sc cfg ts =>
      let '(t, ts) := Token cached fresh ts in
      (match t with Some t => Ok (AccessToken t) | None => Err TokenUnavailable end, OidcAuthProvider sc cfg ts, [])
  | OidcTokenSourceAuthProvider sc v =>
      let '(r, eff) := Resolve read_file run_command Environ v in
      (match r with Ok t => Ok t | Err _ => Err TokenUnavailable end, s, eff)
  end.

Definition setter_SetLogin (cached fresh : option idp_token) (s : Setter) (m : Login)
    : result build_error Login * Setter * list effect :=
  match s with
  | TokenSetter a => (Ok (SetLogin md5_hex a m), s, [])
  | _ => let '(r, s, eff) := generateAccessToken cached fresh s in
         (match r with Ok k => Ok (set_login_key k m) | Err e => Err e end, s, eff)
  end.

Definition setter_scopes (s : Setter) : list string :=
  match s with
  | TokenSetter a => additionalAuthScopes a
  | OidcAuthProvider sc _ _ => sc
  | OidcTokenSourceAuthProvider sc _ => sc
  end.

Definition setter_SetPing (now : Z) (cached fresh : option idp_token) (s : Setter) (m : Ping)
    : result build_error Ping * Setter * list effect :=
  match s with
  | TokenSetter a => (Ok (SetPing md5_hex now a m), s, [])
  | _ => if negb (contains (setter_scopes s) AuthScopeHeartBeats) then (Ok m, s, [])
         else let '(r, s, eff) := generateAccessToken cached fresh s in
              (match r with Ok k => Ok (mkPing k (p_Timestamp m)) | Err e => Err e end, s, eff)
  end.

Definition setter_SetNewWorkConn (now : Z) (cached fresh : option idp_token) (s : Setter) (m : NewWorkConn)
    : result build_error NewWorkConn * Setter * list effect :=
  match s with
  | TokenSetter a => (Ok (SetNewWorkConn md5_hex now a m), s, [])
  | _ => if negb (contains (setter_scopes s) AuthScopeNewWorkConns) then (Ok m, s, [])
         else let '(r, s, eff) := generateAccessToken cached fresh s in
              (match r with Ok k => Ok (mkNewWorkConn (w_RunID m) k (w_Timestamp m)) | Err e => Err e end, s, eff)
  end.

(** ** Properties *)

Definition runs_program (eff : list effect) : Prop := ∃ c a e, RunCommand c a e ∈ eff.

Lemma resolve_token_runs method source token :
  runs_program (snd (resolve_token method source token)) → ∃ v, source = Some v ∧ vs_Type v = "exec".
Proof.
  unfold resolve_token, runs_program. intros (c & a & e & H). destruct source as [v|]; [|set_solver].
  exists v. split; [done|]. case_match; [|set_solver].
  apply (Resolve_exec read_file run_command Environ v c a e). by destruct (Resolve _ _ _ v) as [[]].
Qed.

Lemma createOIDCHTTPClient_reads ca ins proxy : ¬ runs_program (snd (createOIDCHTTPClient ca ins proxy)).
Proof.
  intros (c & a & e & H). revert H. unfold createOIDCHTTPClient. cbv zeta.
  repeat case_match; simpl; set_solver.
Qed.

Lemma NewAuthSetter_runs c : ¬ runs_program (snd (NewAuthSetter c)).
Proof.
  unfold NewAuthSetter, NewOidcAuthSetter.
  assert (¬ runs_program []) by (intros (? & ? & ? & H); by apply not_elem_of_nil in H).
  destruct (a_Method c =s? "token"); [done|]. destruct (a_Method c =s? "oidc"); [|done].
  destruct (o_TokenSource (a_OIDC c)); [done|].
  destruct (ValidateOIDCClientCredentialsConfig _ _); [|done]. case_match; [|done].
  pose proof (createOIDCHTTPClient_reads (o_TrustedCaFile (a_OIDC c)) (o_InsecureSkipVerify (a_OIDC c))
    (o_ProxyURL (a_OIDC c))) as H'.
  destruct (createOIDCHTTPClient _ _ _) as [[h|] eff]; done.
Qed.

(** The setter a configuration leads to resolves a source only if it is the one of the
    configuration. *)
Definition setter_source (s : Setter) : option ValueSource :=
  match s with OidcTokenSourceAuthProvider _ v => Some v | _ => None end.

Lemma generate_runs cached fresh s :
  let '(_, s', eff) := generateAccessToken cached fresh s in
  setter_source s' = setter_source s ∧
  (runs_program eff → ∃ v, setter_source s = Some v ∧ vs_Type v = "exec").
Proof.
  unfold generateAccessToken. destruct s as [a|sc cfg ts|sc v]; simpl.
  - split; [done|]. intros (? & ? & ? & H). by apply not_elem_of_nil in H.
  - destruct (Token _ _ _). split; [done|]. intros (? & ? & ? & H). by apply not_elem_of_nil in H.
  - destruct (Resolve _ _ _ v) as [r eff] eqn:E. split; [done|]. intros (c & a & e & H). exists v. split; [done|].
    apply (Resolve_exec read_file run_command Environ v c a e). by rewrite E.
Qed.

(** The messages a client sets up, each with the provider's answers at that time. *)
Inductive setter_call := CallLogin (m : Login) | CallPing (now : Z) (m : Ping) | CallWork (now : Z) (m : NewWorkConn).

Definition setter_step (x : Setter * list effect) (c : setter_call * (option idp_token * option idp_token))
    : Setter * list effect :=
  let '(s, eff) := x in
  let '(call, (cached, fresh)) := c in
  match call with
  | CallLogin m => let '(_, s, e) := setter_SetLogin cached fresh s m in (s, eff ++ e)
  | CallPing now m => let '(_, s, e) := setter_SetPing now cached fresh s m in (s, eff ++ e)
  | CallWork now m => let '(_, s, e) := setter_SetNewWorkConn now cached fresh s m in (s, eff ++ e)
  end.

Lemma runs_program_app a b : runs_program (a ++ b) ↔ runs_program a ∨ runs_program b.
Proof. unfold runs_program. setoid_rewrite elem_of_app. naive_solver. Qed.

Lemma runs_program_nil : ¬ runs_program [].
Proof. intros (? & ? & ? & H). by apply not_elem_of_nil in H. Qed.

(** A step asks for a token, or does nothing. *)
Lemma setter_step_cases s eff c :
  setter_step (s, eff) c = (s, eff ++ []) ∨
  setter_step (s, eff) c =
    (let '(_, s', e) := generateAccessToken (fst (snd c)) (snd (snd c)) s in (s', eff ++ e)).
Proof.
  destruct c as [[m|now m|now m] [cached fresh]]; destruct s as [a|sc cfg ts|sc v]; cbn [setter_step fst snd];
    unfold setter_SetLogin, setter_SetPing, setter_SetNewWorkConn; try (by left); try destruct (negb (contains _ _)); try (by left);
    right; by destruct (generateAccessToken _ _ _) as [[r s'] e].
Qed.

Lemma setter_step_runs s eff c :
  let '(s', eff') := setter_step (s, eff) c in
  setter_source s' = setter_source s ∧
  (runs_program eff' → runs_program eff ∨ ∃ v, setter_source s = Some v ∧ vs_Type v = "exec").
Proof.
  pose proof (generate_runs (fst (snd c)) (snd (snd c)) s) as Hg.
  destruct (setter_step_cases s eff c) as [-> | ->].
  - rewrite app_nil_r. auto.
  - destruct (generateAccessToken _ _ _) as [[r s'] e]. rewrite runs_program_app. naive_solver.
Qed.

Lemma setter_run_runs s calls :
  runs_program (snd (foldl setter_step (s, []) calls)) → ∃ v, setter_source s = Some v ∧ vs_Type v = "exec".
Proof.
  assert (∀ eff, runs_program (snd (foldl setter_step (s, eff) calls)) →
    runs_program eff ∨ ∃ v, setter_source s = Some v ∧ vs_Type v = "exec") as H.
  { revert s. induction calls as [|c calls IH]; intros s eff; [by left|]. cbn [foldl].
    pose proof (setter_step_runs s eff c) as Hs. destruct (setter_step (s, eff) c) as [s' eff'].
    destruct Hs as [Hsrc Hr]. intros [H|H]%IH; [auto|]. rewrite Hsrc in H. auto. }
  intros [H'|H']%H; [|done]. by apply runs_program_nil in H'.
Qed.

Lemma BuildClientAuth_source c s key :
  fst (BuildClientAuth c) = Ok (s, key) → ∀ v, setter_source s = Some v → o_TokenSource (a_OIDC c) = Some v.
Proof.
  unfold BuildClientAuth. destruct (resolve_token _ _ _) as [[t|] eff]; [|done].
  unfold NewAuthSetter. simpl. destruct (a_Method c =s? "token"); [naive_solver|].
  destruct (a_Method c =s? "oidc"); [|done]. destruct (o_TokenSource (a_OIDC c)) as [v|].
  - intros [= <- <-]. naive_solver.
  - unfold NewOidcAuthSetter. repeat case_match; naive_solver.
Qed.

Lemma unsafe_source_no_exec u w v : IsEnabled u TokenSourceExec = false → validate_source u w v = [] → vs_Type v ≠ "exec".
Proof. intros Hu [_ Hv]%validate_source_nil E. rewrite (Hv E) in Hu. done. Qed.

Lemma client_no_exec u (c : AuthClientConfig) :
  IsEnabled u TokenSourceExec = false → validateAuthConfig url_Parse u c = [] →
  ¬ runs_program (snd (BuildClientAuth c)) ∧
  ∀ s key calls, fst (BuildClientAuth c) = Ok (s, key) → ¬ runs_program (snd (foldl setter_step (s, []) calls)).
Proof.
  intros Hu [Hts Ho]%validateAuthConfig_sources. split.
  - unfold BuildClientAuth. pose proof (resolve_token_runs (a_Method c) (a_TokenSource c) (a_Token c)) as Hr.
    destruct (resolve_token _ _ _) as [r eff].
    assert (¬ runs_program eff) as He by (intros (v & Hv & Hx)%Hr; by eapply unsafe_source_no_exec; [done|apply Hts|]).
    destruct r as [t|]; [|done]. pose proof (NewAuthSetter_runs (set_token t c)) as Hn.
    destruct (NewAuthSetter (set_token t c)) as [[s|e] eff']; simpl in *; rewrite runs_program_app; naive_solver.
  - intros s key calls Hb (v & Hv & Hx)%setter_run_runs.
    pose proof (BuildClientAuth_source c s key Hb v Hv) as Hsrc. by eapply unsafe_source_no_exec; [done|apply Ho|].
Qed.

Lemma server_no_exec u (sc : ServerConfig) :
  IsEnabled u TokenSourceExec = false → ValidateServerConfig u sc = [] → ¬ runs_program (snd (BuildServerAuth (sc_Auth sc))).
Proof.
  intros Hu Hv Hr. assert (∃ v, as_TokenSource (sc_Auth sc) = Some v ∧ vs_Type v = "exec") as (v & Hs & Hx).
  { apply (resolve_token_runs (as_Method (sc_Auth sc)) _ (as_Token (sc_Auth sc))). revert Hr. unfold BuildServerAuth.
    by destruct (resolve_token _ _ _) as [[]]. }
  unfold ValidateServerConfig in Hv. rewrite !app_nil in Hv. destruct Hv as (_ & _ & _ & Hv & _).
  rewrite Hs in Hv. by eapply unsafe_source_no_exec.
Qed.

(** Programs are run for a token only where that was allowed: a client whose configuration
    passed the validation without the unsafe feature [TokenSourceExec] runs no program,
    neither when its authentication is built nor for any message afterwards; a server
    likewise. *)
Theorem no_exec_unless_allowed u (c : AuthClientConfig) (sc : ServerConfig) :
  IsEnabled u TokenSourceExec = false →
  (validateAuthConfig url_Parse u c = [] →
     ¬ runs_program (snd (BuildClientAuth c)) ∧
     ∀ s key calls, fst (BuildClientAuth c) = Ok (s, key) → ¬ runs_program (snd (foldl setter_step (s, []) calls))) ∧
  (ValidateServerConfig u sc = [] → ¬ runs_program (snd (BuildServerAuth (sc_Auth sc)))).
Proof. intros Hu. split; [by apply client_no_exec|by apply server_no_exec]. Qed.
End build.

(** ** Witnesses *)

(** The provider accepts a token that names its subject. *)
Definition subject_of (t : string) : option string := if t =s? "" then None else Some t.
Definition oidc_login (k : string) : Login := mkLogin "" "" "" "" "" k 0 "" "" ∅ (mkClientSpec "" false) 0.

(** Alice's token is good for a ping on Bob's session. *)
Lemma oidc_other_subject :
  oidc_VerifyPing subject_of (mkPing "alice" 0)
    (after_logins subject_of [AuthScopeHeartBeats] [oidc_login "alice"; oidc_login "bob"]) = Ok tt.
Proof. by vm_compute. Qed.

Definition exec_auth : AuthClientConfig :=
  mkAuth "token" [] "" (Some (mkValueSource "exec" None (Some (mkExec "vault" ["read"] [])))) zero_oidc.
Definition file_auth : AuthClientConfig :=
  mkAuth "token" [] "" (Some (mkValueSource "file" (Some "/etc/token") None)) zero_oidc.

Lemma no_exec_unless_allowed_witness :
  validateAuthConfig (λ _, None) None exec_auth = [UnsafeFeature TokenSourceExec] ∧
  validateAuthConfig (λ _, None) None file_auth = [] ∧
  fst (BuildClientAuth (λ _, None) (λ _, Some "s3cret ") (λ _ _ _, None) [] (λ _, false) file_auth) =
    Ok (TokenSetter (NewTokenAuth [] "s3cret"), "s3cret") ∧
  ¬ runs_program (snd (BuildClientAuth (λ _, None) (λ _, Some "s3cret ") (λ _ _ _, None) [] (λ _, false) file_auth)).
Proof.
  split_and!; [by vm_compute..|].
  destruct (no_exec_unless_allowed (λ _, None) (λ _, Some "s3cret ") (λ _ _ _, None) [] (λ _, false) (λ s, s) None
    file_auth zero_server eq_refl) as [H _].
  apply H. by vm_compute.
Defined.
