(* ===== verification/Decode.v ===== *)
(** Reading a configuration file: decoding of proxies, visitors and plugins by their type,
    [src/pkg/config/v1/decode.go], and loading, filtering and completing the client's
    configuration, [src/pkg/config/load.go].

    The JSON, YAML and TOML libraries, templates, the file system and the old ini format are
    arguments; of the JSON library the theorems use that unmarshalling into a structure
    keeps the Go type of the structure and fills its member [type] from the document, as it
    fills the envelope's. *)
From Stdlib Require Import ZArith Lia Ascii String.
From stdpp Require Import base gmap strings list fin_maps.
From S2P Require Import Prelude GoStrings ProxyConf VisitorConf PluginConf CommonConf.
Local Open Scope string_scope.
Local Open Scope list_scope.

Abbreviation proxy_conf := (ProxyConfigurer TypedClientPluginOptions).

Inductive decode_error :=
| TypeRequired | JSONError | UnknownProxyType (t : string) | UnknownVisitorType (t : string)
| UnmarshalProxyError | UnmarshalVisitorError | PluginTypeEmpty | UnknownPluginType (t : string)
| UnmarshalPluginError | PluginError (e : decode_error)
| ProxyAt (i : nat) (e : decode_error) | VisitorAt (i : nat) (e : decode_error).

(** Nothing, or the literal null. *)
Definition isJSONNull (b : string) : bool := (b =s? "") || (b =s? "null").

Definition set_plugin (p : TypedClientPluginOptions) (c : proxy_conf) : proxy_conf :=
  let b := GetBaseConfig c in
  set_base (mkBase (Name b) (Type_ b) (Enabled b) (Annotations b) (Transport b) (Metadatas b) (LoadBalancer b)
    (HealthCheck b) (mkBackend (LocalIP (Backend b)) (LocalPort (Backend b)) (Some p))) c.

Definition v_set_plugin (p : TypedVisitorPluginOptions) (c : VisitorConfigurer) : VisitorConfigurer :=
  let b := v_GetBaseConfig c in
  v_set_base (mkVBase (v_Name b) (v_Type b) (v_Enabled b) (v_Transport b) (v_SecretKey b) (v_ServerUser b)
    (v_ServerName b) (v_BindAddr b) (v_BindPort b) p) c.

(** The library's unmarshalling into the program's structures; [true] refuses unknown
    members. *)
Record json_lib := mkJson {
  un_envelope : string → option (string * string);        (* type; plugin, empty if absent *)
  un_proxy : bool → string → proxy_conf → option proxy_conf;
  un_visitor : bool → string → VisitorConfigurer → option VisitorConfigurer;
  un_plugin : bool → string → ClientPluginOptions → option ClientPluginOptions;
  un_vplugin : bool → string → VisitorPluginOptions → option VisitorPluginOptions;
  un_client : bool → string → option (ClientCommonConfig * list string * list string) }.

Section decode.
Variable J : json_lib.

Definition DecodeClientPluginOptionsJSON (strict : bool) (b : string)
    : result decode_error (option TypedClientPluginOptions) :=
  if isJSONNull b then Ok None else
  match un_envelope J b with
  | None => Err JSONError
  | Some (ty, _) =>
      if ty =s? "" then Err PluginTypeEmpty else
      match zero_plugin ty with
      | None => Err (UnknownPluginType ty)
      | Some o => match un_plugin J strict b o with
                  | None => Err UnmarshalPluginError
                  | Some o => Ok (Some (mkPlugin ty (Some o)))
                  end
      end
  end.

(** [visitorPluginOptionsTypeMap]. *)
Definition zero_vplugin (ty : string) : option VisitorPluginOptions :=
  if ty =s? "virtual_net" then Some (VirtualNetVisitorPluginOptions "" "") else None.

Definition DecodeVisitorPluginOptionsJSON (strict : bool) (b : string)
    : result decode_error TypedVisitorPluginOptions :=
  if isJSONNull b then Ok (mkVPlugin "" None) else
  match un_envelope J b with
  | None => Err JSONError
  | Some (ty, _) =>
      if ty =s? "" then Err PluginTypeEmpty else
      match zero_vplugin ty with
      | None => Err (UnknownPluginType ty)
      | Some o => match un_vplugin J strict b o with
                  | None => Err UnmarshalPluginError
                  | Some o => Ok (mkVPlugin ty (Some o))
                  end
      end
  end.

Definition DecodeProxyConfigurerJSON (strict : bool) (b : string) : result decode_error proxy_conf :=
  if isJSONNull b then Err TypeRequired else
  match un_envelope J b with
  | None => Err JSONError
  | Some (ty, plugin) =>
      match NewProxyConfigurerByType _ ty with
      | None => Err (UnknownProxyType ty)
      | Some c =>
          match un_proxy J strict b c with
          | None => Err UnmarshalProxyError
          | Some c =>
              if negb (isJSONNull plugin) then
                match DecodeClientPluginOptionsJSON strict plugin with
                | Err e => Err (PluginError e)
                | Ok (Some p) => Ok (set_plugin p c)
                | Ok None => Ok c
                end
              else Ok c
          end
      end
  end.

Definition DecodeVisitorConfigurerJSON (strict : bool) (b : string) : result decode_error VisitorConfigurer :=
  if isJSONNull b then Err TypeRequired else
  match un_envelope J b with
  | None => Err JSONError
  | Some (ty, plugin) =>
      match NewVisitorConfigurerByType ty with
      | None => Err (UnknownVisitorType ty)
      | Some c =>
          match un_visitor J strict b c with
          | None => Err UnmarshalVisitorError
          | Some c =>
              if negb (isJSONNull plugin) then
                match DecodeVisitorPluginOptionsJSON strict plugin with
                | Err e => Err (PluginError e)
                | Ok p => Ok (v_set_plugin p c)
                end
              else Ok c
          end
      end
  end.

(** The loops over the proxies and the visitors: the first error, with its index. *)
Fixpoint decode_all {A} (wrap : nat → decode_error → decode_error) (f : string → result decode_error A)
    (i : nat) (l : list string) : result decode_error (list A) :=
  match l with
  | [] => Ok []
  | b :: l => match f b with
              | Err e => Err (wrap i e)
              | Ok a => match decode_all wrap f (S i) l with Err e => Err e | Ok r => Ok (a :: r) end
              end
  end.

Record ClientConfig := mkClientConfig {
  cl_Common : ClientCommonConfig;
  cl_Proxies : list (string * proxy_conf);               (* TypedProxyConfig *)
  cl_Visitors : list (string * VisitorConfigurer) }.

Definition DecodeClientConfigJSON (strict : bool) (b : string) : result decode_error ClientConfig :=
  match un_client J strict b with
  | None => Err JSONError
  | Some (common, ps, vs) =>
      try ps := decode_all ProxyAt (DecodeProxyConfigurerJSON strict) 0 ps in
      try vs := decode_all VisitorAt (DecodeVisitorConfigurerJSON strict) 0 vs in
      Ok (mkClientConfig common ((λ c, (Type_ (GetBaseConfig c), c)) <$> ps)
            ((λ c, (v_Type (v_GetBaseConfig c), c)) <$> vs))
  end.
End decode.

(** ** What a decoded configuration is *)

(** Documented behaviour of the library, for the structures of the program: the Go type of
    the target stays, and a member [type] of the document is read into both structures. *)
Record json_laws (J : json_lib) : Prop := {
  law_proxy : ∀ strict b ty pl c c', un_envelope J b = Some (ty, pl) → NewProxyConfigurerByType _ ty = Some c →
    un_proxy J strict b c = Some c' → type_name c' = type_name c ∧ Type_ (GetBaseConfig c') = ty;
  law_visitor : ∀ strict b ty pl c c', un_envelope J b = Some (ty, pl) → NewVisitorConfigurerByType ty = Some c →
    un_visitor J strict b c = Some c' → v_type_name c' = v_type_name c ∧ v_Type (v_GetBaseConfig c') = ty;
  law_plugin : ∀ strict b o o', un_plugin J strict b o = Some o' → plugin_name o' = plugin_name o }.

Section laws.
Context {J : json_lib} (HJ : json_laws J).

Lemma proxy_by_type ty c : NewProxyConfigurerByType TypedClientPluginOptions ty = Some c → type_name c = ty.
Proof.
  unfold NewProxyConfigurerByType. repeat (case_match; [intros [= <-]; simpl; by match goal with
    H : (_ =s? _) = true |- _ => apply seqb_true in H end|]). done.
Qed.

Lemma visitor_by_type ty c : NewVisitorConfigurerByType ty = Some c → v_type_name c = ty.
Proof.
  unfold NewVisitorConfigurerByType. repeat (case_match; [intros [= <-]; simpl; by match goal with
    H : (_ =s? _) = true |- _ => apply seqb_true in H end|]). done.
Qed.

(** Well typed: the structure, its member [type] and its plugin agree. *)
Definition well_typed (c : proxy_conf) : Prop := Type_ (GetBaseConfig c) = type_name c.
Definition v_well_typed (c : VisitorConfigurer) : Prop := v_Type (v_GetBaseConfig c) = v_type_name c.

Lemma set_plugin_type p c :
  type_name (set_plugin p c) = type_name c ∧ Type_ (GetBaseConfig (set_plugin p c)) = Type_ (GetBaseConfig c) ∧
  Plugin (Backend (GetBaseConfig (set_plugin p c))) = Some p.
Proof. by destruct c. Qed.

Lemma v_set_plugin_type p c :
  v_type_name (v_set_plugin p c) = v_type_name c ∧
  v_Type (v_GetBaseConfig (v_set_plugin p c)) = v_Type (v_GetBaseConfig c).
Proof. by destruct c. Qed.

(** Plugin options are what the library reads from the plugin's document into the structure of the
    type the document names, and that is also their label. *)
Definition decoded_plugin (strict : bool) (doc : string) (p : TypedClientPluginOptions) : Prop :=
  ∃ ty x z o, un_envelope J doc = Some (ty, x) ∧ zero_plugin ty = Some z ∧ un_plugin J strict doc z = Some o ∧
    p = mkPlugin ty (Some o) ∧ plugin_name o = ty.

Definition decoded_vplugin (strict : bool) (doc : string) (p : TypedVisitorPluginOptions) : Prop :=
  ∃ ty x z o, un_envelope J doc = Some (ty, x) ∧ zero_vplugin ty = Some z ∧ un_vplugin J strict doc z = Some o ∧
    p = mkVPlugin ty (Some o).

Lemma DecodePlugin_typed strict b p :
  DecodeClientPluginOptionsJSON J strict b = Ok (Some p) → decoded_plugin strict b p.
Proof using HJ.
  unfold DecodeClientPluginOptionsJSON, decoded_plugin. case_match; [done|]. destruct (un_envelope J b) as [[ty pl]|]; [|done].
  destruct (ty =s? ""); [done|]. destruct (zero_plugin ty) as [z|] eqn:Hz; [|done].
  destruct (un_plugin J strict b z) as [o|] eqn:Hu; [|done]. intros [= <-]. exists ty, pl, z, o. split_and!; [done..|].
  rewrite (law_plugin _ HJ _ _ _ _ Hu). by apply zero_plugin_name.
Qed.

Lemma DecodeVPlugin_typed strict b p :
  isJSONNull b = false → DecodeVisitorPluginOptionsJSON J strict b = Ok p → decoded_vplugin strict b p.
Proof using Type.
  unfold DecodeVisitorPluginOptionsJSON, decoded_vplugin. intros ->. destruct (un_envelope J b) as [[ty pl]|]; [|done].
  destruct (ty =s? ""); [done|]. destruct (zero_vplugin ty) as [z|] eqn:Hz; [|done].
  destruct (un_vplugin J strict b z) as [o|] eqn:Hu; [|done]. intros [= <-]. by exists ty, pl, z, o.
Qed.

(** What an entry decodes to: the structure of the type it names, filled by the library, with the
    plugin of its document. *)
Definition decoded_proxy (strict : bool) (raw : string) (c : proxy_conf) : Prop :=
  ∃ ty pl c0 c1, un_envelope J raw = Some (ty, pl) ∧ NewProxyConfigurerByType _ ty = Some c0 ∧ un_proxy J strict raw c0 = Some c1 ∧
    type_name c = ty ∧ well_typed c ∧
    if isJSONNull pl then c = c1 else ∃ p, decoded_plugin strict pl p ∧ c = set_plugin p c1.

Definition decoded_visitor (strict : bool) (raw : string) (c : VisitorConfigurer) : Prop :=
  ∃ ty pl c0 c1, un_envelope J raw = Some (ty, pl) ∧ NewVisitorConfigurerByType ty = Some c0 ∧ un_visitor J strict raw c0 = Some c1 ∧
    v_type_name c = ty ∧ v_well_typed c ∧
    if isJSONNull pl then c = c1 else ∃ p, decoded_vplugin strict pl p ∧ c = v_set_plugin p c1.

Lemma DecodeProxy_typed strict b c : DecodeProxyConfigurerJSON J strict b = Ok c → decoded_proxy strict b c.
Proof using HJ.
  unfold DecodeProxyConfigurerJSON. case_match; [done|]. destruct (un_envelope J b) as [[ty pl]|] eqn:He; [|done].
  destruct (NewProxyConfigurerByType _ ty) as [c0|] eqn:Hn; [|done].
  destruct (un_proxy J strict b c0) as [c1|] eqn:Hu; [|done].
  destruct (law_proxy _ HJ _ _ _ _ _ _ He Hn Hu) as [Ht Hty]. pose proof (proxy_by_type _ _ Hn) as Hn'.
  intros Hd. exists ty, pl, c0, c1. split; [done|]. split; [done|]. split; [done|]. unfold well_typed.
  destruct (isJSONNull pl) eqn:Hnull; simpl in Hd.
  { injection Hd as <-. split_and!; congruence. }
  destruct (DecodeClientPluginOptionsJSON J strict pl) as [[p|]|] eqn:Hp; [| |done].
  - injection Hd as <-. destruct (set_plugin_type p c1) as (-> & -> & _). split_and!; [congruence..|].
    exists p. split; [by apply DecodePlugin_typed|done].
  - exfalso. revert Hp. unfold DecodeClientPluginOptionsJSON. rewrite Hnull. repeat case_match; naive_solver.
Qed.

Lemma DecodeVisitor_typed strict b c : DecodeVisitorConfigurerJSON J strict b = Ok c → decoded_visitor strict b c.
Proof using HJ.
  unfold DecodeVisitorConfigurerJSON. case_match; [done|]. destruct (un_envelope J b) as [[ty pl]|] eqn:He; [|done].
  destruct (NewVisitorConfigurerByType ty) as [c0|] eqn:Hn; [|done].
  destruct (un_visitor J strict b c0) as [c1|] eqn:Hu; [|done].
  destruct (law_visitor _ HJ _ _ _ _ _ _ He Hn Hu) as [Ht Hty]. pose proof (visitor_by_type _ _ Hn) as Hn'.
  intros Hd. exists ty, pl, c0, c1. split; [done|]. split; [done|]. split; [done|]. unfold v_well_typed.
  destruct (isJSONNull pl) eqn:Hnull; simpl in Hd.
  { injection Hd as <-. split_and!; congruence. }
  destruct (DecodeVisitorPluginOptionsJSON J strict pl) as [p|] eqn:Hp; [|done].
  injection Hd as <-. destruct (v_set_plugin_type p c1) as [-> ->]. split_and!; [congruence..|].
  exists p. split; [by apply DecodeVPlugin_typed|done].
Qed.

Lemma decode_all_ok {A} wrap (f : string → result decode_error A) i l r :
  decode_all wrap f i l = Ok r ↔ Forall2 (λ b a, f b = Ok a) l r.
Proof.
  revert i r. induction l as [|b l IH]; intros i r; simpl.
  { split; [by intros [= <-]|]. by intros ->%Forall2_nil_inv_l. }
  split.
  - destruct (f b) as [a|] eqn:Ef; [|done]. destruct (decode_all wrap f (S i) l) as [r'|] eqn:Er; [|done].
    intros [= <-]. constructor; [done|]. by eapply IH.
  - intros (a & r' & Ha & Hr & ->)%Forall2_cons_inv_l. rewrite Ha. rewrite (proj2 (IH (S i) r') Hr). done.
Qed.

(** C37: a decoded client configuration is what the file says.  There is one proxy per raw entry,
    in order: the library's reading of the entry into the structure of the type the entry
    names, whose member [type] and label are that type, and whose plugin is the reading of the
    entry's plugin document into the options of the plugin type that document names; an entry
    without a plugin keeps what the library read.  Visitors likewise.  An entry that does not
    decode makes the whole file fail. *)
Theorem DecodeClientConfig_typed strict b common ps vs :
  un_client J strict b = Some (common, ps, vs) →
  match DecodeClientConfigJSON J strict b with
  | Ok cfg =>
      cl_Common cfg = common ∧
      Forall2 (λ raw tc, decoded_proxy strict raw (snd tc) ∧ fst tc = type_name (snd tc)) ps (cl_Proxies cfg) ∧
      Forall2 (λ raw tc, decoded_visitor strict raw (snd tc) ∧ fst tc = v_type_name (snd tc)) vs (cl_Visitors cfg)
  | Err _ => Exists (λ raw, is_ok (DecodeProxyConfigurerJSON J strict raw) = false) ps ∨
      Exists (λ raw, is_ok (DecodeVisitorConfigurerJSON J strict raw) = false) vs
  end.
Proof using HJ.
  intros Hu. unfold DecodeClientConfigJSON. rewrite Hu.
  assert (∀ A wrap (f : string → result decode_error A) i l e, decode_all wrap f i l = Err e →
    Exists (λ raw, is_ok (f raw) = false) l) as Herr.
  { intros A wrap f i l. revert i. induction l as [|x l IH]; intros i e; simpl; [done|].
    destruct (f x) eqn:Ef; [|intros _; left; by rewrite Ef].
    destruct (decode_all wrap f (S i) l) eqn:Er; [done|]. intros _. right. by eapply IH. }
  destruct (decode_all ProxyAt _ 0 ps) as [cps|] eqn:Hps; simpl; [|left; by eapply Herr].
  destruct (decode_all VisitorAt _ 0 vs) as [cvs|] eqn:Hvs; simpl; [|right; by eapply Herr].
  apply decode_all_ok in Hps, Hvs. split; [done|]. split; apply Forall2_fmap_r.
  - eapply Forall2_impl; [exact Hps|]. intros raw c Hc%DecodeProxy_typed. simpl. split; [done|].
    destruct Hc as (ty & pl & c0 & c1 & _ & _ & _ & _ & Hw & _). exact Hw.
  - eapply Forall2_impl; [exact Hvs|]. intros raw c Hc%DecodeVisitor_typed. simpl. split; [done|].
    destruct Hc as (ty & pl & c0 & c1 & _ & _ & _ & _ & Hw & _). exact Hw.
Qed.
End laws.

(** ** Witness: a library that reads two documents *)

Definition w_json : json_lib := mkJson
  (λ b, if b =s? "P" then Some ("tcp", "G") else if b =s? "G" then Some ("socks5", "")
        else if b =s? "V" then Some ("xtcp", "") else None)
  (λ _ _ c, Some c) (λ _ _ c, Some c) (λ _ _ o, Some o) (λ _ _ o, Some o)
  (λ _ b, if b =s? "F" then Some (zero_client, ["P"], ["V"]) else None).

Lemma w_json_laws : json_laws w_json.
Proof.
  split; simpl; [| |naive_solver]; intros strict b ty pl c c' _ Hn [= <-]; (split; [done|]); revert Hn;
    unfold NewProxyConfigurerByType, NewVisitorConfigurerByType;
    repeat (case_match; [intros [= <-]; simpl; by match goal with H : (_ =s? _) = true |- _ => apply seqb_true in H end|]); done.
Qed.

Lemma DecodeClientConfig_typed_witness :
  match DecodeClientConfigJSON w_json true "F" with
  | Ok cfg => fst <$> cl_Proxies cfg = ["tcp"] ∧ Forall2 (λ (raw : string) tc, fst tc = v_type_name (snd tc)) ["V"] (cl_Visitors cfg)
  | Err _ => False
  end.
Proof.
  pose proof (DecodeClientConfig_typed w_json_laws true "F" zero_client ["P"] ["V"] eq_refl) as H.
  revert H. destruct (DecodeClientConfigJSON w_json true "F") as [cfg|] eqn:E; [|vm_compute in E; discriminate].
  intros (_ & _ & Hv). split; [vm_compute in E; injection E as <-; reflexivity|].
  eapply Forall2_impl; [exact Hv|]. intros raw tc [_ Ht]. exact Ht.
Defined.
