(* ===== verification/ClientLoad.v ===== *)
(** Loading the client's configuration file, [src/pkg/config/load.go]: the format of a file,
    the fields of error messages, files that are included, and the proxies and visitors that
    are left after filtering and completing. *)
From Stdlib Require Import ZArith Lia Ascii String.
From stdpp Require Import base gmap strings list fin_maps.
From S2P Require Import Prelude GoStrings ProxyConf VisitorConf PluginConf CommonConf Decode ConfigSource.
Local Open Scope string_scope.
Local Open Scope list_scope.

(** ** Formats *)

(** [filepath.Ext]: from the last dot of the last element of a path. *)
Definition Ext (path : string) : string :=
  let base := default "" (last (Split "/"%char path)) in
  match Split "."%char base with
  | _ :: _ :: _ as l => "." +:+ default "" (last l)
  | _ => ""
  end.

Definition detectFormatFromPath (path : string) : string :=
  let e := ToLower (Ext path) in
  if e =s? ".toml" then "toml"
  else if (e =s? ".yaml") || (e =s? ".yml") then "yaml"
  else if e =s? ".json" then "json"
  else "".

(** *** [findFieldLineInContent] *)

Definition newline : ascii := Ascii.ascii_of_nat 10.

Definition Contains (s sub : string) : bool :=
  match index 0 sub s with Some _ => true | None => false end.

(** Does a line set the key, or open a table array of that name? *)
Definition line_has_key (key line : string) : bool :=
  let trimmed := TrimSpace line in
  match CutPrefix trimmed key with
  | Some rest => match TrimSpace rest with String c _ => Ascii.eqb c "=" | "" => false end
  | None => false
  end || Contains trimmed ("[[" +:+ key +:+ "]]").

Fixpoint find_line (key : string) (i : nat) (lines : list string) : nat :=
  match lines with
  | [] => 0
  | l :: rest => if line_has_key key l then S i else find_line key (S i) rest
  end.

Definition findFieldLineInContent (content fieldPath : string) : nat :=
  if fieldPath =s? "" then 0%nat
  else find_line (default "" (last (Split "."%char fieldPath))) 0 (Split newline content).

Lemma find_line_spec key i lines :
  match find_line key i lines with
  | 0 => Forall (λ l, line_has_key key l = false) lines
  | S n => ∃ k l, n = i + k ∧ lines !! k = Some l ∧ line_has_key key l = true ∧
      ∀ k' l', k' < k → lines !! k' = Some l' → line_has_key key l' = false
  end.
Proof.
  revert i. induction lines as [|l lines IH]; intros i; simpl; [constructor|].
  destruct (line_has_key key l) eqn:E.
  { exists 0, l. split_and!; [lia|done|done|]. intros k' l' Hk. lia. }
  specialize (IH (S i)). destruct (find_line key (S i) lines) as [|n]; [by constructor|].
  destruct IH as (k & l0 & -> & Hk & Hl & Hmin). exists (S k), l0. split_and!; [lia|done|done|].
  intros [|k'] l' Hlt Hk'; [by injection Hk' as <-|]. apply (Hmin k'); [lia|done].
Qed.

(** [enhanceDecodeError]: [typeErr] is the field of a type error, the place where it occurs is
    added to the message. *)
Inductive enhanced := AtLine (line : nat) (field : string) | AtField (field : string) | Unchanged.

Definition enhanceDecodeError (typeErr : option string) (originalContent : string) (includeLine : bool) : enhanced :=
  match typeErr with
  | Some field =>
      if field =s? "" then Unchanged
      else if includeLine then
        match findFieldLineInContent originalContent field with O => AtField field | line => AtLine line field end
      else AtField field
  | None => Unchanged
  end.

(** ** [LoadConfigure] *)

Inductive load_error :=
| ReadError | TemplateError | TOMLError | MarshalError | DecodeFailed (e : decode_error) | YAMLError
| DirError | AdditionalFile (f : string) (e : load_error) | LegacyError.

(** What a TOML parser makes of a text, as JSON. *)
Inductive toml_result := TOMLOk (json : string) | TOMLMarshalFails | TOMLFails.

(** A YAML document: an object with its members, or anything else. *)
Inductive yaml_doc := YMap (members : list (string * string)) | YOther (v : string).

Section load.
Variable toml_Unmarshal : string → toml_result.
(** The first byte that is not a blank is an opening brace. *)
Variable IsJSONBuffer : string → bool.
Variable yaml_Unmarshal : string → option yaml_doc.
Variable jsonx_Marshal : yaml_doc → option string.
Variable os_ReadFile : string → option string.
Variable render : string → option string.                  (* the template with the environment *)

Definition RenderWithTemplate (raw : string) : result load_error string :=
  match render raw with None => Err TemplateError | Some content => Ok content end.

Definition LoadFileContentWithTemplate (path : string) : result load_error string :=
  match os_ReadFile path with None => Err ReadError | Some raw => RenderWithTemplate raw end.

(** *** [LoadConfigure] into a target: [decodeJSONContent] on its type, and the YAML library
    into it when the mode is not strict *)

Section target.
Context {T : Type}.
Variable decodeJSONContent : string → bool → result load_error T.
Variable yaml_into : string → option T.

Definition parseYAMLWithDotFieldsHandling (content : string) : result load_error T :=
  match yaml_Unmarshal content with
  | None => Err YAMLError
  | Some doc =>
      let doc := match doc with
                 | YMap ms => YMap (filter (λ kv, HasPrefix (fst kv) "." = false) ms)
                 | YOther v => YOther v
                 end in
      match jsonx_Marshal doc with
      | None => Err MarshalError
      | Some b => decodeJSONContent b true
      end
  end.

Definition LoadConfigure (b : string) (strict : bool) (format : string) : result load_error T :=
  let go b :=
    if IsJSONBuffer b then decodeJSONContent b strict
    else if strict then parseYAMLWithDotFieldsHandling b
    else match yaml_into b with Some c => Ok c | None => Err YAMLError end in
  match toml_Unmarshal b with
  | TOMLOk json => go json
  | TOMLMarshalFails => Err MarshalError
  | TOMLFails => if format =s? "toml" then Err TOMLError else go b
  end.

Definition LoadConfigureFromFile (path : string) (strict : bool) : result load_error T :=
  match LoadFileContentWithTemplate path with
  | Err e => Err e
  | Ok content => LoadConfigure content strict (detectFormatFromPath path)
  end.
End target.

(** *** Into a client configuration *)

Variable J : json_lib.
Variable yaml_client : string → option ClientConfig.

Definition decodeJSONContent (content : string) (strict : bool) : result load_error ClientConfig :=
  match DecodeClientConfigJSON J strict content with Ok c => Ok c | Err e => Err (DecodeFailed e) end.

Definition LoadClientFile (path : string) (strict : bool) : result load_error ClientConfig :=
  LoadConfigureFromFile decodeJSONContent yaml_client path strict.

(** The directory of a path with its entries (name, is a directory): [None] if it cannot be
    read or does not exist; a pattern against a file. *)
Variable list_dir : string → option (string * list (string * bool)).
Variable filepath_Match : string → string → bool.
Variable filepath_Join : string → string → string.
Variable filepath_Base : string → string.

(** The files of a directory a pattern selects, in the order of the directory. *)
Definition matched_files (path : string) : option (list string) :=
  match list_dir path with
  | None => None
  | Some (absDir, files) =>
      Some (filter (λ f, filepath_Match (filepath_Join absDir (filepath_Base path)) f = true)
              ((λ e, filepath_Join absDir (fst e)) <$> filter (λ e, snd e = false) files))
  end.

Fixpoint load_files (strict : bool) (files : list string)
    : result load_error (list proxy_conf * list VisitorConfigurer) :=
  match files with
  | [] => Ok ([], [])
  | f :: rest =>
      match LoadClientFile f strict with
      | Err e => Err (AdditionalFile f e)
      | Ok c => match load_files strict rest with
                | Err e => Err e
                | Ok (ps, vs) => Ok ((snd <$> cl_Proxies c) ++ ps, (snd <$> cl_Visitors c) ++ vs)
                end
      end
  end.

Fixpoint LoadAdditionalClientConfigs (paths : list string) (strict : bool)
    : result load_error (list proxy_conf * list VisitorConfigurer) :=
  match paths with
  | [] => Ok ([], [])
  | p :: rest =>
      match matched_files p with
      | None => Err DirError
      | Some fs => match load_files strict fs with
                   | Err e => Err e
                   | Ok (ps, vs) => match LoadAdditionalClientConfigs rest strict with
                                    | Err e => Err e
                                    | Ok (ps', vs') => Ok (ps ++ ps', vs ++ vs')
                                    end
                   end
      end
  end.

(** *** [LoadClientConfigResult] *)

Record ClientConfigLoadResult := mkLoaded {
  ld_Common : ClientCommonConfig; ld_Proxies : list proxy_conf; ld_Visitors : list VisitorConfigurer;
  ld_IsLegacy : bool }.

(** The old ini format, converted; its includes are part of it. *)
Variable DetectLegacyINIFormatFromFile : string → bool.
Variable load_legacy : string → option (ClientCommonConfig * list proxy_conf * list VisitorConfigurer).
Variable http_proxy : string.

Definition LoadClientConfigResult (path : string) (strict : bool) : result load_error ClientConfigLoadResult :=
  try r := (if DetectLegacyINIFormatFromFile path then
              match load_legacy path with
              | None => Err LegacyError
              | Some (c, ps, vs) => Ok (mkLoaded c ps vs true)
              end
            else match LoadClientFile path strict with
                 | Err e => Err e
                 | Ok c => Ok (mkLoaded (cl_Common c) (snd <$> cl_Proxies c) (snd <$> cl_Visitors c) false)
                 end) in
  try r := (if negb (bool_decide (cc_IncludeConfigFiles (ld_Common r) = [])) && negb (ld_IsLegacy r) then
              match LoadAdditionalClientConfigs (cc_IncludeConfigFiles (ld_Common r)) strict with
              | Err e => Err e
              | Ok (ps, vs) => Ok (mkLoaded (ld_Common r) (ld_Proxies r ++ ps) (ld_Visitors r ++ vs) false)
              end
            else Ok r) in
  Ok (mkLoaded (client_Complete http_proxy (ld_Common r)) (ld_Proxies r) (ld_Visitors r) (ld_IsLegacy r)).

Lemma LoadClientConfigResult_completes path strict r :
  LoadClientConfigResult path strict = Ok r → client_Complete http_proxy (ld_Common r) = ld_Common r.
Proof.
  unfold LoadClientConfigResult, rbind.
  repeat (case_match; try done).
  all: intros [= <-]; apply client_Complete_idem.
Qed.

(** ** Filtering and completing *)

Definition CompleteProxyConfigurers (ps : list proxy_conf) : list proxy_conf := Complete _ plugin_Complete <$> ps.
Definition CompleteVisitorConfigurers (vs : list VisitorConfigurer) : list VisitorConfigurer := v_Complete <$> vs.

(** A list of names that is empty starts everything. *)
Definition started (start : list string) (name : string) : bool :=
  if decide (start = []) then true else contains start name.

Definition enabled_ptr (e : option bool) : bool := match e with None => true | Some b => b end.

Definition FilterClientConfigurers (start : list string) (ps : list proxy_conf) (vs : list VisitorConfigurer)
    : list proxy_conf * list VisitorConfigurer :=
  (filter (λ c, enabled_ptr (Enabled (GetBaseConfig c)) = true)
     (filter (λ c, started start (Name (GetBaseConfig c)) = true) ps),
   filter (λ c, enabled_ptr (v_Enabled (v_GetBaseConfig c)) = true)
     (filter (λ c, started start (v_Name (v_GetBaseConfig c)) = true) vs)).

Definition LoadClientConfig (path : string) (strict : bool)
    : result load_error (ClientCommonConfig * list proxy_conf * list VisitorConfigurer * bool) :=
  match LoadClientConfigResult path strict with
  | Err e => Err e
  | Ok r =>
      let '(ps, vs) := FilterClientConfigurers (cc_Start (ld_Common r)) (ld_Proxies r) (ld_Visitors r) in
      Ok (ld_Common r, CompleteProxyConfigurers ps, CompleteVisitorConfigurers vs, ld_IsLegacy r)
  end.
End load.

(** ** What the sources ask of the configurations *)

#[global] Instance proxy_Configurer : Configurer proxy_conf := {
  conf_name c := Name (GetBaseConfig c); conf_enabled c := Enabled (GetBaseConfig c) }.
#[global] Instance visitor_Configurer : Configurer VisitorConfigurer := {
  conf_name c := v_Name (v_GetBaseConfig c); conf_enabled c := v_Enabled (v_GetBaseConfig c) }.

(** ** Properties *)

Lemma proxy_Complete_idem (c : proxy_conf) :
  Complete _ plugin_Complete (Complete _ plugin_Complete c) = Complete _ plugin_Complete c.
Proof.
  assert (∀ b : ProxyBaseConfig TypedClientPluginOptions,
    base_Complete _ plugin_Complete (base_Complete _ plugin_Complete b) = base_Complete _ plugin_Complete b) as Hb.
  { intros b. unfold base_Complete, set_mode. simpl. rewrite !EmptyOr_idem. f_equal. f_equal.
    destruct (Plugin (Backend b)); simpl; [|done]. by rewrite plugin_Complete_idem. }
  unfold Complete. destruct c; simpl; by rewrite Hb.
Qed.

Lemma proxy_Complete_keeps (c : proxy_conf) :
  Name (GetBaseConfig (Complete _ plugin_Complete c)) = Name (GetBaseConfig c) ∧
  Enabled (GetBaseConfig (Complete _ plugin_Complete c)) = Enabled (GetBaseConfig c).
Proof. by destruct c. Qed.

Lemma visitor_Complete_keeps c :
  v_Name (v_GetBaseConfig (v_Complete c)) = v_Name (v_GetBaseConfig c) ∧
  v_Enabled (v_GetBaseConfig (v_Complete c)) = v_Enabled (v_GetBaseConfig c).
Proof. by destruct c. Qed.

Lemma Filter_elem start ps vs :
  (∀ c, c ∈ fst (FilterClientConfigurers start ps vs) ↔
     c ∈ ps ∧ started start (Name (GetBaseConfig c)) = true ∧ is_enabled c = true) ∧
  (∀ c, c ∈ snd (FilterClientConfigurers start ps vs) ↔
     c ∈ vs ∧ started start (v_Name (v_GetBaseConfig c)) = true ∧ is_enabled c = true).
Proof.
  split; intros c; simpl; rewrite !list_elem_of_filter; unfold is_enabled, enabled_ptr; simpl;
    repeat case_match; naive_solver.
Qed.

(** A file that is named as TOML and does not parse is refused, never taken for YAML. *)
Lemma toml_never_yaml {T} dec (yc : string → option T) toml buf yu mar rd ren path strict c :
  detectFormatFromPath path = "toml" → rd path = Some c → toml (default c (ren c)) = TOMLFails →
  is_ok (LoadConfigureFromFile toml buf yu mar rd ren dec yc path strict) = false.
Proof.
  intros Hf Hr Ht. unfold LoadConfigureFromFile, LoadFileContentWithTemplate, RenderWithTemplate. rewrite Hr.
  destruct (ren c) as [c'|]; [|done].
  simpl in Ht. unfold LoadConfigure. by rewrite Ht, Hf.
Qed.
