(* ===== verification/Visitors.v ===== *)
(** The client's visitors: the three kinds with [Run] and [Close]
    ([src/client/visitor/visitor.go], [stcp.go], [sudp.go], [xtcp.go]), what becomes of a
    user's connection, and the manager that follows the configuration
    ([visitor_manager.go]).

    A visitor is an object with an identity; its resources are fields that say whether they
    are held.  The manager changes under its lock, so a run is a sequence of operations;
    whether a visitor can be created and can listen is an input of each operation. *)
From Stdlib Require Import ZArith Lia Ascii String.
From stdpp Require Import base gmap strings list fin_maps.
From S2P Require Import Prelude GoStrings ProxyConf NetListener VisitorConf.
Local Open Scope string_scope.
Local Open Scope list_scope.

(** ** A visitor and its resources *)

Record Visitor := mkVisitor {
  vo_cfg : VisitorConfigurer;
  vo_listener : bool;               (* l: the local listener is open *)
  vo_internal : bool;               (* internalLn is open *)
  vo_plugin : option bool;          (* a plugin, that is open *)
  vo_udp : bool;                    (* udpConn, with the channels of packets *)
  vo_ctx : bool;                    (* the context of xtcp is live *)
  vo_session : bool;                (* a tunnel session, sv.session, that is open *)
  vo_closed : bool }.               (* checkCloseCh *)

(** Whether the system lets a visitor be created and listen. *)
Record start_env := mkStart { create_ok : bool; listen_ok : bool }.

Definition NewVisitor (e : start_env) (c : VisitorConfigurer) : option Visitor :=
  if vp_Type (v_Plugin (v_GetBaseConfig c)) =s? ""
  then Some (mkVisitor c false true None false false false false)
  else if create_ok e then Some (mkVisitor c false true (Some true) false false false false) else None.

Definition binds (c : VisitorConfigurer) : bool := (0 <? v_BindPort (v_GetBaseConfig c))%Z.

Definition stcp_Run (e : start_env) (v : Visitor) : bool * Visitor :=
  if binds (vo_cfg v) then
    if listen_ok e then (true, mkVisitor (vo_cfg v) true (vo_internal v) (vo_plugin v) false (vo_ctx v) (vo_session v) false)
    else (false, v)
  else (true, v).

Definition xtcp_Run (e : start_env) (v : Visitor) : bool * Visitor :=
  let v := mkVisitor (vo_cfg v) (vo_listener v) (vo_internal v) (vo_plugin v) (vo_udp v) true true (vo_closed v) in
  if binds (vo_cfg v) then
    if listen_ok e then (true, mkVisitor (vo_cfg v) true (vo_internal v) (vo_plugin v) (vo_udp v) true true (vo_closed v))
    else (false, v)
  else (true, v).

Definition sudp_Run (e : start_env) (v : Visitor) : bool * Visitor :=
  if listen_ok e
  then (true, mkVisitor (vo_cfg v) (vo_listener v) (vo_internal v) (vo_plugin v) true (vo_ctx v) (vo_session v) (vo_closed v))
  else (false, v).

Definition Run (e : start_env) (v : Visitor) : bool * Visitor :=
  match vo_cfg v with
  | STCPVisitorConfig _ => stcp_Run e v
  | XTCPVisitorConfig _ _ => xtcp_Run e v
  | SUDPVisitorConfig _ => sudp_Run e v
  end.

(** [BaseVisitor.Close]. *)
Definition base_Close (v : Visitor) : Visitor :=
  mkVisitor (vo_cfg v) false false ((λ _, false) <$> vo_plugin v) (vo_udp v) (vo_ctx v) (vo_session v) (vo_closed v).

Definition xtcp_Close (v : Visitor) : Visitor :=
  let v := base_Close v in
  mkVisitor (vo_cfg v) (vo_listener v) (vo_internal v) (vo_plugin v) (vo_udp v) false false (vo_closed v).

Definition sudp_Close (v : Visitor) : Visitor :=
  if vo_closed v then v
  else let v := base_Close v in
       mkVisitor (vo_cfg v) (vo_listener v) (vo_internal v) (vo_plugin v) false (vo_ctx v) (vo_session v) true.

Definition Close (v : Visitor) : Visitor :=
  match vo_cfg v with
  | STCPVisitorConfig _ => base_Close v
  | XTCPVisitorConfig _ _ => xtcp_Close v
  | SUDPVisitorConfig _ => sudp_Close v
  end.

(** Nothing is held any more. *)
Definition released (v : Visitor) : Prop :=
  vo_listener v = false ∧ vo_internal v = false ∧ vo_plugin v ≠ Some true ∧ vo_udp v = false ∧
  vo_ctx v = false ∧ vo_session v = false.

(** A visitor that was created, and perhaps run: what it can hold. *)
Definition fresh_or_run (v : Visitor) : Prop :=
  ∃ e e' c w, NewVisitor e c = Some w ∧ (v = w ∨ v = snd (Run e' w)).

Lemma NewVisitor_eq e c w : NewVisitor e c = Some w → w = mkVisitor c false true (vo_plugin w) false false false false.
Proof. unfold NewVisitor. repeat case_match; naive_solver. Qed.

Lemma fresh_or_run_fields v :
  fresh_or_run v → vo_closed v = false ∧
  match vo_cfg v with
  | STCPVisitorConfig _ => vo_udp v = false ∧ vo_ctx v = false ∧ vo_session v = false
  | XTCPVisitorConfig _ _ => vo_udp v = false
  | SUDPVisitorConfig _ => vo_ctx v = false ∧ vo_session v = false
  end.
Proof.
  intros (e & e' & c & w & ->%NewVisitor_eq & Hv). generalize (vo_plugin w) Hv. clear. intros p [->| ->].
  - by destruct c.
  - unfold Run, stcp_Run, xtcp_Run, sudp_Run, binds. destruct c; simpl; repeat case_match; done.
Qed.

Lemma Close_releases v : fresh_or_run v → released (Close v) ∧ Close (Close v) = Close v ∧ vo_cfg (Close v) = vo_cfg v.
Proof.
  intros [Hc Hf]%fresh_or_run_fields. destruct v as [c l i p u x s d]. simpl in *. subst d.
  unfold Close, released. destruct c; simpl; destruct p; simpl; naive_solver.
Qed.

(** What is left of a visitor whose [Run] fails: it is not closed.  The context that an
    xtcp visitor made is never cancelled. *)
Lemma failed_run_leaks e c w :
  NewVisitor e c = Some w → fst (Run (mkStart true false) w) = false →
  vo_internal (snd (Run (mkStart true false) w)) = true ∧
  (v_type_name c = "xtcp" → vo_ctx (snd (Run (mkStart true false) w)) = true).
Proof.
  intros ->%NewVisitor_eq. unfold Run, stcp_Run, xtcp_Run, sudp_Run, binds. simpl.
  destruct c; simpl; repeat case_match; simpl; done.
Qed.
