(* ===== verification/VisitorConn.v ===== *)
(** What becomes of a connection of a user at a visitor: the connection a visitor opens to the
    server ([dialRawVisitorConn], [wrapVisitorConn] of [src/client/visitor/visitor.go]), the
    handlers of stcp and xtcp ([handleConn]), the tunnel of xtcp ([openTunnel],
    [getTunnelConn] and the tunnel sessions of [xtcp.go]), and the connection of both ends:
    the message of the visitor at the server's [RegisterVisitorConn].

    A handler is a function from the outcomes of its calls to the list of the things it does,
    in order; deferred calls come last, the latest first. *)
From Stdlib Require Import ZArith Lia Ascii String.
From stdpp Require Import base gmap strings list fin_maps.
From S2P Require Import Prelude GoStrings Auth ProxyConf Service NetListener ServerProxy Handlers ClientProxy VisitorConf.
Local Open Scope string_scope.
Local Open Scope list_scope.

(** ** Dialling *)

Inductive action :=
| Opened | Sent (m : NewVisitorConn) | ClosedRemote | Recycled
| Joined | Transferred (visitor : string) | ClosedUser | ClosedUserWithError.

Inductive dial_error := ConnectError | SendError | ReadError | Refused (why : string).

Section dial.
Variable md5_hex : string → string.

(** The outcomes of the calls of a dial; [answer] is the [Error] field of the response, or
    nothing when it cannot be read. *)
Record dial_env := mkDial { connect_ok : bool; send_ok : bool; answer : option string }.

(** The message; [user] is [clientCfg.User], [runID] that of the control. *)
Definition visitor_msg (user runID : string) (now : Z) (c : VisitorBaseConfig) : NewVisitorConn :=
  mkNewVisitorConn runID (BuildTargetServerProxyName user (v_ServerUser c) (v_ServerName c))
    (GetAuthKey md5_hex (v_SecretKey c) now) now
    (vt_UseEncryption (v_Transport c)) (vt_UseCompression (v_Transport c)).

Definition dialRawVisitorConn (user runID : string) (now : Z) (c : VisitorBaseConfig) (e : dial_env)
    : list action * result dial_error unit :=
  if negb (connect_ok e) then ([], Err ConnectError)
  else
    let m := visitor_msg user runID now c in
    if negb (send_ok e) then ([Opened; ClosedRemote], Err SendError)
    else match answer e with
         | None => ([Opened; Sent m; ClosedRemote], Err ReadError)
         | Some why =>
             if negb (why =s? "") then ([Opened; Sent m; ClosedRemote], Err (Refused why))
             else ([Opened; Sent m], Ok tt)
         end.

(** [wrapVisitorConn]: it fails only when the encryption cannot be set up; compression
    leaves a function to call at the end. *)
Definition wrapVisitorConn (c : VisitorBaseConfig) (encryption_ok : bool) : option (list action) :=
  if vt_UseEncryption (v_Transport c) && negb encryption_ok then None
  else Some (if vt_UseCompression (v_Transport c) then [Recycled] else []).

(** The deferred end of both handlers: the user's connection is closed, with the error where
    there is one and the connection can take it. *)
Definition finish_user (err with_error : bool) : list action :=
  if err && with_error then [ClosedUserWithError] else [ClosedUser].

Definition stcp_handleConn (user runID : string) (now : Z) (c : VisitorBaseConfig) (e : dial_env)
    (encryption_ok with_error : bool) : list action :=
  match dialRawVisitorConn user runID now c e with
  | (a, Err _) => a ++ finish_user true with_error
  | (a, Ok _) =>
      match wrapVisitorConn c encryption_ok with
      | None => a ++ [ClosedRemote] ++ finish_user true with_error
      | Some recycle => a ++ [Joined] ++ recycle ++ [ClosedRemote] ++ finish_user false with_error
      end
  end.

(** [XTCPVisitor.handleConn]; [tunnel] is the outcome of [openTunnel], [transfer_ok] that of
    handing the connection to the visitor of [FallbackTo]. *)
Definition xtcp_handleConn (c : VisitorBaseConfig) (x : XTCPFields) (tunnel transfer_ok encryption_ok with_error : bool)
    : list action :=
  if negb tunnel then
    if FallbackTo x =s? "" then finish_user true with_error
    else if transfer_ok then [Transferred (FallbackTo x)] else finish_user true with_error
  else
    match wrapVisitorConn c encryption_ok with
    | None => [Opened; ClosedRemote] ++ finish_user true with_error
    | Some recycle => [Opened; Joined] ++ recycle ++ finish_user false with_error
    end.

(** [SUDPVisitor.getNewVisitorConn]. *)
Definition sudp_getNewVisitorConn (user runID : string) (now : Z) (c : VisitorBaseConfig) (e : dial_env)
    (encryption_ok : bool) : list action * option (list action) :=
  match dialRawVisitorConn user runID now c e with
  | (a, Err _) => (a, None)
  | (a, Ok _) =>
      match wrapVisitorConn c encryption_ok with
      | None => (a ++ [ClosedRemote], None)
      | Some recycle => (a, Some recycle)
      end
  end.

(** How often the handler lets go of the user's connection; [Join] copies until both ends are
    done and is not counted. *)
Definition ends_user (a : action) : bool :=
  match a with ClosedUser | ClosedUserWithError | Transferred _ => true | _ => false end.
Definition count (P : action → bool) (l : list action) : nat := length (filter P l).

Lemma count_app P l k : count P (l ++ k) = (count P l + count P k)%nat.
Proof. unfold count. by rewrite filter_app, length_app. Qed.

Definition remote_opened (a : action) : bool := match a with Opened => true | _ => false end.
(** The remote connection is given up: closed, or joined, which closes it. *)
Definition remote_ended (a : action) : bool := match a with ClosedRemote | Joined => true | _ => false end.

(** Whatever fails, a handler lets go of the user's connection exactly once, as its last act,
    and of every connection it opened. *)
Lemma handlers_release user runID now c x e enc we tun tr :
  let a := stcp_handleConn user runID now c e enc we in
  let b := xtcp_handleConn c x tun tr enc we in
  count ends_user a = 1%nat ∧ count ends_user b = 1%nat ∧
  ends_user <$> last a = Some true ∧ ends_user <$> last b = Some true ∧
  (count remote_opened a <= count remote_ended a)%nat ∧ (count remote_opened b <= count remote_ended b)%nat.
Proof.
  unfold stcp_handleConn, xtcp_handleConn, dialRawVisitorConn, wrapVisitorConn, finish_user. simpl.
  split_and!; repeat case_match; simplify_eq;
    first [reflexivity | (unfold count; simpl; lia)].
Qed.

(** Joined only after the whole exchange: the server answered without an error. *)
Lemma stcp_joined user runID now c e enc we :
  Joined ∈ stcp_handleConn user runID now c e enc we ↔
    connect_ok e = true ∧ send_ok e = true ∧ answer e = Some "" ∧
    (vt_UseEncryption (v_Transport c) = true → enc = true).
Proof.
  unfold stcp_handleConn, dialRawVisitorConn, wrapVisitorConn, finish_user.
  destruct (connect_ok e); simpl; [|split; [destruct we; set_solver|naive_solver]].
  destruct (send_ok e); simpl; [|split; [destruct we; set_solver|naive_solver]].
  destruct (answer e) as [why|]; [|split; [destruct we; set_solver|naive_solver]].
  destruct (seqb_spec why "") as [->|]; simpl; [|split; [destruct we; set_solver|naive_solver]].
  destruct (vt_UseEncryption (v_Transport c)), enc; simpl;
    split; try (destruct we; set_solver); try naive_solver;
    intros _; repeat apply list_elem_of_further; constructor.
Qed.

(** ** Both ends *)

(** What the server writes into the response: nothing on success, else a text. *)
Definition response_text (err : string) (r : visitor_outcome) : string :=
  match r with VisitorOk _ => "" | _ => err end.

(** A stcp visitor and the server: while the listener of the target proxy is open and has room,
    and the encryption can be set up on both sides, the user's connection is joined with the
    remote service exactly when the key and the users of the proxy admit it. *)
Lemma stcp_end_to_end {V Conn : Type} `{!Verifier V} (s : Service) (cx : gmap nat (SessionCtx (Conn:=Conn))) vm vm' owner sk users
    user runID now c k (x : SessionCtx (Conn:=Conn)) (conn : Conn) err enc we :
  let m := visitor_msg user runID now c in
  startVisitorListener (BuildTargetServerProxyName user (v_ServerUser c) (v_ServerName c)) owner sk users vm = Ok vm' →
  runID ≠ "" → cm_GetByID runID s = Some k → cx !! k = Some x → err ≠ "" →
  (vt_UseEncryption (v_Transport c) = true → enc = true) →
  let e := mkDial true true (Some (response_text err (fst (RegisterVisitorConn md5_hex conn enc m (mkFront s cx vm'))))) in
  Joined ∈ stcp_handleConn user runID now c e enc we ↔
    GetAuthKey md5_hex sk now = GetAuthKey md5_hex (v_SecretKey c) now ∧
    (l_User (sc_Login x) ∈ users ∨ "*" ∈ users ∨ users = [] ∧ (l_User (sc_Login x) = owner ∨ owner = "*")).
Proof using Type.
  intros m Hl Hr Hk Hx Herr Henc e. rewrite stcp_joined. simpl.
  unfold startVisitorListener, vm_Listen in Hl. destruct (vm !! _) eqn:E0; [done|]. injection Hl as <-.
  set (name := BuildTargetServerProxyName _ _ _) in *. set (vm' := <[name := _]> vm).
  pose proof (vm_NewConn_spec md5_hex name conn now (GetAuthKey md5_hex (v_SecretKey c) now) (vt_UseEncryption (v_Transport c))
    (vt_UseCompression (v_Transport c)) (l_User (sc_Login x)) enc vm' _ (lookup_insert_eq _ _ _)) as H. cbn [ln ServerProxy.sk allowUsers] in H.
  pose proof (users_admitted owner users (l_User (sc_Login x))) as Hu. cbv zeta in Hu. unfold RegisterVisitorConn, visitor_user, m, visitor_msg.
  cbn [vc_RunID vc_ProxyName vc_Timestamp vc_SignKey vc_UseEncryption vc_UseCompression svc ctxs visitors].
  destruct (seqb_spec runID ""); [done|]. rewrite Hk. simpl. rewrite Hx. simpl. fold name.
  destruct (vm_NewConn _ _ _ _ _ _ _ _ _ _) as [r vm2]. destruct H as (H1 & H2 & _).
  rewrite Hu in H1, H2. simpl in H1, H2. unfold InternalListener.cap in *.
  split.
  - intros (_ & _ & Ha & _). destruct r as [[]|]; [by apply H1|by apply H2|]. simpl in Ha. congruence.
  - intros Ha. assert (r = Ok true) as -> by (apply H1; split_and!; [apply Ha..|done|done|lia]). by split_and!.
Qed.
End dial.

(** ** The tunnel of an xtcp visitor *)

Module Tunnel.

(** [KCPTunnelSession] and [QUICTunnelSession]: the session and the socket under it, each with
    an identity; [live_*] are those that are open in the process. *)
Record t := mk {
  session : option nat; conn : option nat;
  live_sessions : gset nat; live_conns : gset nat; next : nat }.

Definition New : t := mk None None ∅ ∅ 0.

Inductive outcome := InitOk | DialFailed | SessionFailed.

(** [KCPTunnelSession.Init]: the socket of the hole is closed and dialled again; the socket is
    closed again when the session cannot be set up. *)
Definition kcp_Init (o : outcome) (s : t) : bool * t :=
  match o with
  | InitOk => (true, mk (Some (next s)) (Some (next s)) ({[next s]} ∪ live_sessions s)
                       ({[next s]} ∪ live_conns s) (S (next s)))
  | DialFailed | SessionFailed => (false, mk (session s) (conn s) (live_sessions s) (live_conns s) (S (next s)))
  end.

(** [QUICTunnelSession.Init] takes the socket [c] of the hole over; on an error the caller
    closes it. *)
Definition quic_Init (o : outcome) (s : t) : bool * t :=
  match o with
  | InitOk => (true, mk (Some (next s)) (Some (next s)) ({[next s]} ∪ live_sessions s)
                       ({[next s]} ∪ live_conns s) (S (next s)))
  | DialFailed | SessionFailed => (false, mk (session s) (conn s) (live_sessions s) (live_conns s) (S (next s)))
  end.

Inductive open_error := NoTunnelSession | OpenFailed.

Definition OpenConn (ok : bool) (s : t) : result open_error unit :=
  match session s with
  | None => Err NoTunnelSession
  | Some _ => if ok then Ok tt else Err OpenFailed
  end.

Definition drop (x : option nat) (live : gset nat) : gset nat :=
  match x with Some i => live ∖ {[i]} | None => live end.

Definition Close (s : t) : t :=
  mk None None (drop (session s) (live_sessions s)) (drop (conn s) (live_conns s)) (next s).

(** [getTunnelConn]: an error closes the session and asks for a new hole; the request is
    dropped when the worker is busy. *)
Definition getTunnelConn (ok idle : bool) (s : t) : result open_error unit * bool * t :=
  match OpenConn ok s with
  | Ok _ => (Ok tt, false, s)
  | Err e => (Err e, idle, Close s)
  end.

(** The sessions and sockets that are open are the one the visitor refers to. *)
Definition owned (s : t) : Prop :=
  live_sessions s = match session s with Some i => {[i]} | None => ∅ end ∧
  live_conns s = match conn s with Some i => {[i]} | None => ∅ end ∧
  (is_Some (session s) ↔ is_Some (conn s)).

Inductive op := OInit (kcp : bool) (o : outcome) | OGet (ok idle : bool) | OClose.
Definition step (s : t) (x : op) : t :=
  match x with
  | OInit kcp o => snd (if kcp then kcp_Init o s else quic_Init o s)
  | OGet ok idle => snd (getTunnelConn ok idle s)
  | OClose => Close s
  end.

(** A hole is made only while there is no session. *)
Fixpoint quiet (s : t) (l : list op) : Prop :=
  match l with
  | [] => True
  | x :: l => (match x with OInit _ _ => session s = None | _ => True end) ∧ quiet (step s x) l
  end.

Lemma Close_owned s : owned s → owned (Close s) ∧ live_sessions (Close s) = ∅ ∧ live_conns (Close s) = ∅.
Proof.
  intros (H1 & H2 & H3). unfold Close, owned, drop. simpl. rewrite H1, H2.
  destruct (session s), (conn s); simpl; split_and!; try set_solver.
Qed.

Lemma step_owned s x :
  owned s → (match x with OInit _ _ => session s = None | _ => True end) → owned (step s x).
Proof.
  intros Ho Hq. destruct x as [kcp o|ok idle|]; simpl.
  - assert (conn s = None) as Hc.
    { destruct Ho as (_ & _ & H). destruct (conn s); [|done]. rewrite Hq in H.
      destruct H as [_ H]. destruct H as [? ?]; [by eexists|done]. }
    assert (live_sessions s = ∅ ∧ live_conns s = ∅) as [E1 E2].
    { destruct Ho as (-> & -> & _). by rewrite Hq, Hc. }
    destruct kcp, o; simpl; try done; unfold owned; simpl; rewrite E1, E2; split_and!; try set_solver; split; eauto.
  - unfold getTunnelConn, OpenConn. destruct (session s); [destruct ok|]; simpl; try done; by apply Close_owned.
  - by apply Close_owned.
Qed.

(** The visitor never holds more than one session and its socket, and none after a close. *)
Lemma tunnel_owned l : quiet New l → owned (foldl step New l) ∧ live_conns (Close (foldl step New l)) = ∅.
Proof.
  assert (∀ s, owned s → quiet s l → owned (foldl step s l)) as H.
  { induction l as [|x l IH]; intros s Hs; [done|]. intros [Hx Hl]. simpl. apply IH; [by apply step_owned|done]. }
  intros Hq. assert (owned (foldl step New l)) as Ho.
  { apply H; [|done]. unfold owned. simpl. split_and!; done. }
  split; [done|]. by apply Close_owned.
Qed.

(** [Init] does not close the session it replaces: a hole made while there is a session
    leaves the old session and its socket open for ever. *)
Lemma Init_over_session_leaks :
  let s := foldl step New [OInit true InitOk; OInit true InitOk; OClose] in
  session s = None ∧ live_sessions s = {[0%nat]} ∧ live_conns s = {[0%nat]}.
Proof. vm_compute. done. Qed.

(** [openTunnel]: the first attempt at once, then one every half second after the end of the
    last, until the deadline.  [took] and [got] are the duration (in ms) and the outcome of
    each attempt; at a tie of the timer and the deadline [pick] chooses.  The result is the
    number of attempts and whether there is a connection. *)
Definition retry_ms : Z := 500.
Definition limit_ms : Z := 20000.

Fixpoint open_loop (fuel : nat) (deadline : Z) (took : nat → Z) (got pick : nat → bool) (i : nat) (t : Z)
    : option (nat * bool) :=
  match fuel with
  | O => None
  | S fuel =>
      if bool_decide (deadline < t)%Z || (bool_decide (deadline = t) && pick i) then Some (i, false)
      else if got i then Some (S i, true)
      else open_loop fuel deadline took got pick (S i) (t + took i + retry_ms)%Z
  end.

Definition openTunnel (fuel : nat) (timeout : option Z) (took : nat → Z) (got pick : nat → bool)
    : option (nat * bool) :=
  open_loop fuel (match timeout with Some ms => Z.min ms limit_ms | None => limit_ms end) took got pick 0 0.

Lemma open_loop_result fuel deadline took got pick i t :
  (∀ j, 0 <= took j)%Z → (deadline < t + Z.of_nat fuel * retry_ms - retry_ms)%Z →
  (0 < fuel)%nat →
  ∃ n b, open_loop fuel deadline took got pick i t = Some (n, b) ∧ (i <= n)%nat ∧
    (b = true → ∃ j, n = S j ∧ got j = true) ∧
    (b = false → ∀ j, (i <= j < n)%nat → got j = false).
Proof.
  intros Ht. revert i t. induction fuel as [|fuel IH]; intros i t Hd Hf; [lia|]. cbn [open_loop].
  destruct (bool_decide (deadline < t)%Z || (bool_decide (deadline = t) && pick i)) eqn:Hc.
  { exists i, false. split_and!; [done|lia|done|]. intros _ j Hj. lia. }
  destruct (got i) eqn:Hg.
  { exists (S i), true. split_and!; [done|lia| |done]. intros _. by exists i. }
  apply orb_false_iff in Hc as [Hc _]. apply bool_decide_eq_false in Hc.
  destruct fuel as [|fuel]; [lia|].
  destruct (IH (S i) (t + took i + retry_ms)%Z) as (n & b & E & Hn & Hb & Hnb); [specialize (Ht i); lia|lia|].
  exists n, b. split_and!; [done|lia|done|]. intros Hf' j Hj. destruct (decide (j = i)) as [->|]; [done|].
  apply Hnb; [done|lia].
Qed.

(** [openTunnel] returns, after at most 42 rounds, a connection from its first successful
    attempt or an error when no attempt succeeded. *)
Lemma openTunnel_returns timeout took got pick :
  (∀ j, 0 <= took j)%Z →
  ∃ n b, openTunnel 42 timeout took got pick = Some (n, b) ∧
    (b = true → ∃ j, n = S j ∧ got j = true) ∧ (b = false → ∀ j, (j < n)%nat → got j = false).
Proof.
  intros Ht. unfold openTunnel.
  destruct (open_loop_result 42 (match timeout with Some ms => Z.min ms limit_ms | None => limit_ms end)
    took got pick 0 0 Ht) as (n & b & E & _ & H1 & H2); [unfold limit_ms, retry_ms; destruct timeout; lia|lia|].
  exists n, b. split_and!; [done|done|]. intros Hb j Hj. apply H2; [done|lia].
Qed.
End Tunnel.
