(* ===== verification/VisitorManager.v ===== *)
(** The visitor manager of the client ([src/client/visitor/visitor_manager.go]): it follows the
    configuration ([UpdateAll]), starts what is not running ([keepVisitorsRunning]), passes
    connections on ([TransferConn]) and closes everything ([Close]).

    Visitors are objects with identities; [m_objs] holds every object that was ever created,
    those whose [Run] failed included, so that what is left open can be stated.  Every
    operation holds the manager's lock, so a run is a sequence of operations; whether a visitor
    can be created and can listen is an input of each. *)
From Stdlib Require Import ZArith Lia Ascii String.
From stdpp Require Import base gmap strings list fin_maps.
From S2P Require Import Prelude GoStrings ProxyConf VisitorConf Visitors.
Local Open Scope string_scope.
Local Open Scope list_scope.

Definition vname (c : VisitorConfigurer) : string := v_Name (v_GetBaseConfig c).

Record vManager := mkVManager {
  m_cfgs : gmap string VisitorConfigurer;
  m_visitors : gmap string nat;
  m_objs : gmap nat Visitor;
  m_next : nat;
  m_keeper : bool;                 (* keepVisitorsRunningOnce was done *)
  m_stopped : bool }.              (* stopCh is closed *)

Definition vm_NewManager : vManager := mkVManager ∅ ∅ ∅ 0 false false.

Abbreviation outcomes := (string → start_env).

(** [startVisitor]: a visitor whose [Run] fails is dropped, not closed. *)
Definition startVisitor (env : outcomes) (c : VisitorConfigurer) (m : vManager) : vManager :=
  match NewVisitor (env (vname c)) c with
  | None => m
  | Some w =>
      let '(ok, v) := Run (env (vname c)) w in
      mkVManager (m_cfgs m) (if ok then <[vname c := m_next m]> (m_visitors m) else m_visitors m)
        (<[m_next m := v]> (m_objs m)) (S (m_next m)) (m_keeper m) (m_stopped m)
  end.

(** The body of the ticks of [keepVisitorsRunning]. *)
Definition tick_one (env : outcomes) (x : string * VisitorConfigurer) (m : vManager) : vManager :=
  match m_visitors m !! vname (snd x) with Some _ => m | None => startVisitor env (snd x) m end.
Definition tick (env : outcomes) (m : vManager) : vManager :=
  foldr (tick_one env) m (map_to_list (m_cfgs m)).

Definition close_objs (ids : list nat) (objs : gmap nat Visitor) : gmap nat Visitor :=
  foldr (λ id o, alter Close id o) objs ids.

Definition vm_Close (m : vManager) : vManager :=
  mkVManager (m_cfgs m) (m_visitors m) (close_objs (snd <$> map_to_list (m_visitors m)) (m_objs m))
    (m_next m) (m_keeper m) true.

(** The two loops of [UpdateAll]. *)
Definition vm_drop (n : string) (m : vManager) : vManager :=
  mkVManager (delete n (m_cfgs m)) (delete n (m_visitors m))
    (match m_visitors m !! n with Some id => alter Close id (m_objs m) | None => m_objs m end)
    (m_next m) (m_keeper m) (m_stopped m).

Definition changed (new : gmap string VisitorConfigurer) (x : string * VisitorConfigurer) : Prop :=
  new !! fst x ≠ Some (snd x).
#[global] Instance changed_dec new x : Decision (changed new x).
Proof. unfold changed. apply _. Defined.

Definition vm_drop_changed (new : gmap string VisitorConfigurer) (m : vManager) : vManager :=
  foldr (λ x m, vm_drop (fst x) m) m (filter (changed new) (map_to_list (m_cfgs m))).

Definition vm_add (env : outcomes) (m : vManager) (c : VisitorConfigurer) : vManager :=
  match m_cfgs m !! vname c with
  | Some _ => m
  | None => startVisitor env c (mkVManager (<[vname c := c]> (m_cfgs m)) (m_visitors m) (m_objs m)
              (m_next m) (m_keeper m) (m_stopped m))
  end.

Definition start_keeper (cfgs : list VisitorConfigurer) (m : vManager) : vManager :=
  mkVManager (m_cfgs m) (m_visitors m) (m_objs m) (m_next m)
    (m_keeper m || negb (bool_decide (cfgs = []))) (m_stopped m).

Definition vm_UpdateAll (env : outcomes) (cfgs : list VisitorConfigurer) (m : vManager) : vManager :=
  foldl (vm_add env) (vm_drop_changed (key_by vname cfgs) (start_keeper cfgs m)) cfgs.

(** [TransferConn]: the visitor takes the connection, when its internal listener is open. *)
Inductive transfer := TakenBy (id : nat) | VisitorNotFound | ListenerClosed.
Definition TransferConn (name : string) (m : vManager) : transfer :=
  match m_visitors m !! name with
  | None => VisitorNotFound
  | Some id => match m_objs m !! id with
               | Some v => if vo_internal v then TakenBy id else ListenerClosed
               | None => VisitorNotFound
               end
  end.

Definition GetVisitorCfg (name : string) (m : vManager) : option VisitorConfigurer := m_cfgs m !! name.

(** ** Runs *)

(** A tick comes from the goroutine of the keeper.  After the close a tick that was due can
    still come: [select] may choose either. *)
Inductive vm_op := VUpdate (env : outcomes) (cfgs : list VisitorConfigurer) | VTick (env : outcomes) | VClose.

Definition vm_step (m : vManager) (o : vm_op) : vManager :=
  match o with
  | VUpdate env cfgs => if decide (NoDup (vname <$> cfgs)) then vm_UpdateAll env cfgs m else m
  | VTick env => if m_keeper m then tick env m else m
  | VClose => vm_Close m
  end.

Definition vm_run (ops : list vm_op) : vManager := foldl vm_step vm_NewManager ops.

(** A visitor that holds a socket of the machine. *)
Definition holds (v : Visitor) : bool := vo_listener v || vo_udp v.

(** A visitor that does its work. *)
Definition running (v : Visitor) : Prop :=
  vo_internal v = true ∧ vo_closed v = false ∧ vo_plugin v ≠ Some false ∧
  match vo_cfg v with
  | SUDPVisitorConfig _ => vo_udp v = true
  | _ => binds (vo_cfg v) = true → vo_listener v = true
  end.

(** What a visitor of the table is: run with success, and closed or not. *)
Definition sound (v : Visitor) : Prop :=
  ∃ w, fresh_or_run w ∧ running w ∧ (v = w ∨ v = Close w).

Lemma Run_ok e e' c w v : NewVisitor e c = Some w → Run e' w = (true, v) → sound v ∧ running v ∧ vo_cfg v = c.
Proof.
  intros Hw Hr. assert (fresh_or_run v) as Hf by (exists e, e', c, w; rewrite Hr; auto).
  enough (running v ∧ vo_cfg v = c) as [? ?] by (split_and!; [exists v; auto|done..]).
  revert Hw Hr. unfold NewVisitor, Run, stcp_Run, xtcp_Run, sudp_Run, running.
  intros Hw Hr; repeat case_match; simplify_eq/=; split_and!; try done; intros; congruence.
Qed.

Lemma Run_failed e e' c w v : NewVisitor e c = Some w → Run e' w = (false, v) → holds v = false ∧ vo_cfg v = c.
Proof.
  intros ->%NewVisitor_eq. unfold Run, stcp_Run, xtcp_Run, sudp_Run, binds, holds. simpl.
  destruct c; simpl; repeat case_match; intros; simplify_eq/=; done.
Qed.

Lemma sound_Close v : sound v → sound (Close v) ∧ released (Close v) ∧ vo_cfg (Close v) = vo_cfg v.
Proof.
  intros (w & Hf & Hr & [->| ->]); destruct (Close_releases w Hf) as (H1 & H2 & H3).
  - split_and!; [exists w; auto|done..].
  - rewrite H2. split_and!; [exists w; auto|done..].
Qed.

Lemma released_holds v : released v → holds v = false.
Proof. unfold released, holds. by intros (-> & _ & _ & -> & _). Qed.

(** The invariant of the manager. *)
Record vm_wf (m : vManager) : Prop := {
  wf_keyed : ∀ n c, m_cfgs m !! n = Some c → vname c = n;
  wf_table : ∀ n id, m_visitors m !! n = Some id →
    ∃ v, m_objs m !! id = Some v ∧ m_cfgs m !! n = Some (vo_cfg v) ∧ sound v ∧ (m_stopped m = false → running v);
  wf_holds : ∀ id v, m_objs m !! id = Some v → holds v = true → ∃ n, m_visitors m !! n = Some id;
  wf_fresh : ∀ id v, m_objs m !! id = Some v → (id < m_next m)%nat;
  wf_keeper : m_keeper m = false → m_cfgs m = ∅ }.

Lemma wf_inj m n1 n2 id : vm_wf m → m_visitors m !! n1 = Some id → m_visitors m !! n2 = Some id → n1 = n2.
Proof.
  intros Hwf H1 H2. destruct (wf_table _ Hwf _ _ H1) as (v1 & E1 & C1 & _).
  destruct (wf_table _ Hwf _ _ H2) as (v2 & E2 & C2 & _). rewrite E1 in E2. injection E2 as <-.
  apply (wf_keyed _ Hwf) in C1, C2. congruence.
Qed.

Lemma wf_next m n : vm_wf m → m_visitors m !! n = Some (m_next m) → False.
Proof. intros Hwf H. destruct (wf_table _ Hwf _ _ H) as (v & E & _). apply (wf_fresh _ Hwf) in E. lia. Qed.

(** What starting a visitor does to the table: nothing, or the name gets a running visitor. *)
Lemma startVisitor_spec env c m :
  let m' := startVisitor env c m in
  m_cfgs m' = m_cfgs m ∧ m_keeper m' = m_keeper m ∧ m_stopped m' = m_stopped m ∧ (m_next m <= m_next m')%nat ∧
  (∀ id, (id < m_next m)%nat → m_objs m' !! id = m_objs m !! id) ∧
  (m_visitors m' = m_visitors m ∨
   m_visitors m' = <[vname c := m_next m]> (m_visitors m) ∧
   ∃ v, m_objs m' !! m_next m = Some v ∧ running v ∧ vo_cfg v = c).
Proof.
  unfold startVisitor. destruct (NewVisitor _ c) as [w|] eqn:Hw; [|split_and!; auto].
  destruct (Run _ w) as [ok v] eqn:Hr. cbn [m_cfgs m_keeper m_stopped m_next m_objs m_visitors].
  split_and!; [done..|lia| |].
  - intros id Hid. rewrite lookup_insert_ne; [done|lia].
  - destruct ok; [right|by left]. split; [done|]. exists v. rewrite lookup_insert_eq.
    destruct (Run_ok _ _ _ _ _ Hw Hr) as (_ & ? & ?). done.
Qed.

Lemma startVisitor_ok env c m :
  create_ok (env (vname c)) = true → listen_ok (env (vname c)) = true →
  m_visitors (startVisitor env c m) = <[vname c := m_next m]> (m_visitors m).
Proof.
  intros H1 H2. unfold startVisitor, NewVisitor. rewrite H1.
  unfold Run, stcp_Run, xtcp_Run, sudp_Run. rewrite H2. by destruct c; simpl; repeat case_match; simplify_eq/=.
Qed.

Lemma startVisitor_wf env c m :
  vm_wf m → m_cfgs m !! vname c = Some c → m_visitors m !! vname c = None → vm_wf (startVisitor env c m).
Proof.
  intros Hwf Hc Hn. unfold startVisitor. destruct (NewVisitor _ c) as [w|] eqn:Hw; [|done].
  destruct (Run _ w) as [ok v] eqn:Hr.
  assert (m_objs m !! m_next m = None) as Hnx.
  { destruct (m_objs m !! m_next m) eqn:E; [|done]. apply (wf_fresh _ Hwf) in E. lia. }
  split; cbn [m_cfgs m_keeper m_stopped m_next m_objs m_visitors]; [apply (wf_keyed _ Hwf)| | | |apply (wf_keeper _ Hwf)].
  - intros n id Hid. assert (m_visitors m !! n = Some id ∨ ok = true ∧ n = vname c ∧ id = m_next m) as [Ho|(-> & -> & ->)].
    { destruct ok; [|auto]. apply lookup_insert_Some in Hid as [[<- <-]|[_ ?]]; auto. }
    + destruct (wf_table _ Hwf _ _ Ho) as (u & Hu & ?). exists u. split; [|done].
      rewrite lookup_insert_ne; [done|]. intros <-. congruence.
    + exists v. rewrite lookup_insert_eq. destruct (Run_ok _ _ _ _ _ Hw Hr) as (? & ? & ->). done.
  - intros id u [[<- <-]|[Hne Hu]]%lookup_insert_Some Hh.
    + destruct ok; [exists (vname c); by rewrite lookup_insert_eq|].
      destruct (Run_failed _ _ _ _ _ Hw Hr). congruence.
    + destruct (wf_holds _ Hwf _ _ Hu Hh) as [n H]. exists n. destruct ok; [|done].
      rewrite lookup_insert_ne; [done|]. intros <-. congruence.
  - intros id u [[<- <-]|[Hne Hu]]%lookup_insert_Some; [lia|]. apply (wf_fresh _ Hwf) in Hu. lia.
Qed.

(** *** Dropping *)

Lemma vm_drop_wf n m : vm_wf m → vm_wf (vm_drop n m).
Proof.
  intros Hwf. split; cbn [vm_drop m_cfgs m_keeper m_stopped m_next m_objs m_visitors].
  - intros k c [_ H]%lookup_delete_Some. by apply (wf_keyed _ Hwf).
  - intros k id [Hne H]%lookup_delete_Some. destruct (wf_table _ Hwf _ _ H) as (v & Hv & Hc & ?).
    exists v. rewrite lookup_delete_ne by done. split; [|done].
    destruct (m_visitors m !! n) as [j|] eqn:E; [|done]. rewrite lookup_alter_ne; [done|].
    intros ->. destruct Hne. by eapply wf_inj.
  - intros id v Hv Hh. assert (∃ k, m_visitors m !! k = Some id ∧ m_visitors m !! n ≠ Some id) as (k & Hk & Hne).
    { destruct (m_visitors m !! n) as [j|] eqn:E.
      - destruct (decide (j = id)) as [->|].
        + rewrite lookup_alter_eq in Hv. apply fmap_Some in Hv as (u & Hu & ->).
          destruct (wf_table _ Hwf _ _ E) as (u' & Hu' & _ & Hs & _). rewrite Hu in Hu'. injection Hu' as <-.
          destruct (sound_Close u Hs) as (_ & Hr & _). rewrite released_holds in Hh; done.
        + rewrite lookup_alter_ne in Hv by done. destruct (wf_holds _ Hwf _ _ Hv Hh) as [k Hk].
          exists k. split; [done|congruence].
      - destruct (wf_holds _ Hwf _ _ Hv Hh) as [k Hk]. by exists k. }
    exists k. rewrite lookup_delete_ne; [done|]. intros ->. done.
  - intros id v Hv. destruct (m_visitors m !! n) as [j|]; [|by eapply (wf_fresh _ Hwf)].
    apply lookup_alter_Some in Hv as [(-> & u & Hu & _)|[_ Hu]]; by eapply (wf_fresh _ Hwf).
  - intros H%(wf_keeper _ Hwf). by rewrite H, delete_empty.
Qed.

(** Dropping several names: their entries go, their objects are closed, the rest stays. *)
Lemma drops_spec (l : list (string * VisitorConfigurer)) m :
  vm_wf m →
  let m' := foldr (λ x m, vm_drop (fst x) m) m l in
  vm_wf m' ∧ m_next m' = m_next m ∧ m_keeper m' = m_keeper m ∧ m_stopped m' = m_stopped m ∧
  (∀ n, m_cfgs m' !! n = if decide (n ∈ fst <$> l) then None else m_cfgs m !! n) ∧
  (∀ n, m_visitors m' !! n = if decide (n ∈ fst <$> l) then None else m_visitors m !! n) ∧
  (∀ n id v, m_visitors m !! n = Some id → m_objs m !! id = Some v →
     m_objs m' !! id = Some (if decide (n ∈ fst <$> l) then Close v else v)).
Proof.
  intros Hwf. induction l as [|[k c] l IH]; cbn [foldr fst fmap list_fmap].
  { split_and!; try done; intros *; rewrite ?decide_False by (by apply not_elem_of_nil); done. }
  destruct IH as (W & I1 & I2 & I3 & I4 & I5 & I6). set (m1 := foldr _ m l) in *.
  split_and!; [by apply vm_drop_wf|done..| | |]; cbn [vm_drop m_cfgs m_visitors m_objs].
  - intros n. destruct (decide (n = k)) as [->|Hne].
    + rewrite lookup_delete_eq, decide_True; [done|left].
    + rewrite lookup_delete_ne, I4 by done. apply decide_ext. rewrite elem_of_cons. naive_solver.
  - intros n. destruct (decide (n = k)) as [->|Hne].
    + rewrite lookup_delete_eq, decide_True; [done|left].
    + rewrite lookup_delete_ne, I5 by done. apply decide_ext. rewrite elem_of_cons. naive_solver.
  - intros n id v Hn Hv. pose proof (I6 _ _ _ Hn Hv) as Hv1.
    assert (sound v) as Hs by (destruct (wf_table _ Hwf _ _ Hn) as (u & Hu & _ & ? & _); congruence).
    destruct (decide (n = k)) as [->|Hne].
    + rewrite (decide_True (P := k ∈ k :: _)) by left. rewrite I5.
      destruct (decide (k ∈ fst <$> l)); [done|]. rewrite Hn, lookup_alter_eq, Hv1. reflexivity.
    + rewrite (decide_ext (n ∈ k :: _) (n ∈ fst <$> l)) by (rewrite elem_of_cons; naive_solver).
      rewrite I5. destruct (decide (k ∈ fst <$> l)); [done|]. destruct (m_visitors m !! k) as [j|] eqn:E; [|done].
      rewrite lookup_alter_ne; [done|]. intros ->. destruct Hne. by apply (wf_inj m n k id).
Qed.

Definition kept (cfgs : list VisitorConfigurer) (m : vManager) (n : string) : Prop :=
  ∃ c, m_cfgs m !! n = Some c ∧ c ∈ cfgs.
#[global] Instance kept_dec cfgs m n : Decision (kept cfgs m n).
Proof.
  unfold kept. destruct (m_cfgs m !! n) as [c|]; [|right; naive_solver].
  destruct (decide (c ∈ cfgs)); [left|right]; naive_solver.
Defined.

Lemma drop_changed_names cfgs m n :
  vm_wf m → NoDup (vname <$> cfgs) →
  n ∈ fst <$> filter (changed (key_by vname cfgs)) (map_to_list (m_cfgs m)) ↔
    is_Some (m_cfgs m !! n) ∧ ¬ kept cfgs m n.
Proof.
  intros Hwf Hnd. rewrite list_elem_of_fmap. split.
  - intros ([k c] & -> & [Hc Hk%elem_of_map_to_list]%list_elem_of_filter). simpl. split; [eauto|].
    intros (d & Hd & Hin). rewrite Hk in Hd. injection Hd as <-. apply Hc. simpl.
    apply key_by_lookup; [done|]. split; [done|]. by apply (wf_keyed _ Hwf).
  - intros [[c Hc] Hk]. exists (n, c). split; [done|]. apply list_elem_of_filter. split; [|by apply elem_of_map_to_list].
    unfold changed. simpl. rewrite key_by_lookup by done. intros [? _]. apply Hk. by exists c.
Qed.

Lemma table_named m n : vm_wf m → is_Some (m_visitors m !! n) → is_Some (m_cfgs m !! n).
Proof. intros Hwf [id H]. destruct (wf_table _ Hwf _ _ H) as (v & _ & ? & _). eauto. Qed.

(** The first half of [UpdateAll]. *)
Lemma vm_drop_changed_spec cfgs m :
  vm_wf m → NoDup (vname <$> cfgs) →
  let m' := vm_drop_changed (key_by vname cfgs) m in
  vm_wf m' ∧ m_next m' = m_next m ∧ m_keeper m' = m_keeper m ∧ m_stopped m' = m_stopped m ∧
  (∀ n, m_cfgs m' !! n = if decide (kept cfgs m n) then m_cfgs m !! n else None) ∧
  (∀ n, m_visitors m' !! n = if decide (kept cfgs m n) then m_visitors m !! n else None) ∧
  (∀ n id v, m_visitors m !! n = Some id → m_objs m !! id = Some v →
     m_objs m' !! id = Some (if decide (kept cfgs m n) then v else Close v)).
Proof.
  intros Hwf Hnd m'. pose proof (λ n, drop_changed_names cfgs m n Hwf Hnd) as Hin.
  destruct (drops_spec (filter (changed (key_by vname cfgs)) (map_to_list (m_cfgs m))) m Hwf)
    as (H1 & H2 & H3 & H4 & H5 & H6 & H7).
  split_and!; [done..| | |].
  - intros n. unfold m', vm_drop_changed. rewrite (H5 n). specialize (Hin n). repeat case_decide; try done; [naive_solver|].
    destruct (m_cfgs m !! n); [|done]. naive_solver.
  - intros n. unfold m', vm_drop_changed. rewrite (H6 n). specialize (Hin n). repeat case_decide; try done; [naive_solver|].
    destruct (m_visitors m !! n) eqn:E; [|done].
    destruct (table_named m n Hwf) as [c Hc]; [by rewrite E|]. naive_solver.
  - intros n id v Hn Hv. unfold m', vm_drop_changed. rewrite (H7 n id v Hn Hv). f_equal. specialize (Hin n).
    assert (is_Some (m_cfgs m !! n)) as Hs by (apply table_named; [done|by rewrite Hn]).
    repeat case_decide; naive_solver.
Qed.

(** *** Adding and starting *)

Lemma vm_add_wf env m c : vm_wf m → m_keeper m = true → vm_wf (vm_add env m c).
Proof.
  intros Hwf Hk. unfold vm_add. destruct (m_cfgs m !! vname c) eqn:E; [done|].
  assert (m_visitors m !! vname c = None) as Hn.
  { destruct (m_visitors m !! vname c) eqn:E'; [|done]. destruct (table_named m (vname c) Hwf) as [? ?]; [by rewrite E'|].
    congruence. }
  apply startVisitor_wf; cbn [m_cfgs m_visitors]; [|by rewrite lookup_insert_eq|done].
  split; cbn [m_cfgs m_keeper m_stopped m_next m_objs m_visitors].
  - intros n d [[<- <-]|[_ ?]]%lookup_insert_Some; [done|by apply (wf_keyed _ Hwf)].
  - intros n id Hid. destruct (wf_table _ Hwf _ _ Hid) as (v & ? & Hc & ?). exists v.
    rewrite lookup_insert_ne; [done|]. intros <-. congruence.
  - apply (wf_holds _ Hwf).
  - apply (wf_fresh _ Hwf).
  - congruence.
Qed.

(** The visitor of a configuration runs. *)
Definition runs (c : VisitorConfigurer) (m : vManager) : Prop :=
  ∃ id v, m_visitors m !! vname c = Some id ∧ m_objs m !! id = Some v ∧ running v ∧ vo_cfg v = c.

(** Steps that only add: the table and its objects grow. *)
Definition grows (m m' : vManager) : Prop :=
  (m_next m <= m_next m')%nat ∧ m_keeper m' = m_keeper m ∧ m_stopped m' = m_stopped m ∧
  (∀ n id, m_visitors m !! n = Some id → m_visitors m' !! n = Some id) ∧
  (∀ id, (id < m_next m)%nat → m_objs m' !! id = m_objs m !! id).

#[global] Instance grows_refl : Reflexive grows.
Proof. intros m. split_and!; auto. Qed.
#[global] Instance grows_trans : Transitive grows.
Proof.
  intros m1 m2 m3 (A1 & A2 & A3 & A4 & A5) (B1 & B2 & B3 & B4 & B5). split_and!; [lia|congruence|congruence|auto|].
  intros id Hid. rewrite B5 by lia. auto.
Qed.

Lemma grows_runs c m m' : vm_wf m → grows m m' → runs c m → runs c m'.
Proof.
  intros Hwf (_ & _ & _ & Hv & Ho) (id & v & H1 & H2 & ?). exists id, v. rewrite Ho; [auto|].
  by eapply (wf_fresh _ Hwf).
Qed.

Lemma start_grows env c m : m_visitors m !! vname c = None → grows m (startVisitor env c m).
Proof.
  intros Hn. destruct (startVisitor_spec env c m) as (H1 & H2 & H3 & H4 & H5 & H6). split_and!; [done..| |done].
  intros n id Hid. destruct H6 as [->|[-> _]]; [done|]. rewrite lookup_insert_ne; [done|]. intros <-. congruence.
Qed.

Lemma start_runs env c m :
  create_ok (env (vname c)) = true → listen_ok (env (vname c)) = true → runs c (startVisitor env c m).
Proof.
  intros H1 H2. pose proof (startVisitor_ok env c m H1 H2) as Hv.
  destruct (startVisitor_spec env c m) as (_ & _ & _ & _ & _ & [Heq|(_ & v & Hv' & Hr & Hc)]).
  - unfold startVisitor in Hv, Heq |- *. destruct (NewVisitor _ c) as [w|] eqn:Hw.
    + destruct (Run _ w) as [[] v] eqn:Hr.
      * destruct (Run_ok _ _ _ _ _ Hw Hr) as (_ & ? & ?). exists (m_next m), v. cbn [m_visitors m_objs].
        by rewrite !lookup_insert_eq.
      * exfalso. revert Hr. unfold Run, stcp_Run, xtcp_Run, sudp_Run. rewrite H2. by repeat case_match.
    + exfalso. revert Hw. unfold NewVisitor. rewrite H1. by case_match.
  - exists (m_next m), v. rewrite Hv, lookup_insert_eq. done.
Qed.

Lemma tick_one_wf env x m :
  vm_wf m → m_cfgs m !! vname (snd x) = Some (snd x) →
  vm_wf (tick_one env x m) ∧ grows m (tick_one env x m) ∧ m_cfgs (tick_one env x m) = m_cfgs m.
Proof.
  intros Hwf Hc. unfold tick_one. destruct (m_visitors m !! vname (snd x)) eqn:E; [done|].
  split_and!; [by apply startVisitor_wf|by apply start_grows|apply startVisitor_spec].
Qed.

Lemma ticks_spec env l m :
  vm_wf m → (∀ x, x ∈ l → m_cfgs m !! vname (snd x) = Some (snd x)) →
  let m' := foldr (tick_one env) m l in
  vm_wf m' ∧ grows m m' ∧ m_cfgs m' = m_cfgs m ∧
  (∀ x, x ∈ l → create_ok (env (vname (snd x))) = true → listen_ok (env (vname (snd x))) = true →
     is_Some (m_visitors m' !! vname (snd x))).
Proof.
  intros Hwf. induction l as [|x l IH]; intros Hl; cbn [foldr].
  { split_and!; try done. intros x H. by apply not_elem_of_nil in H. }
  destruct IH as (W & G & C & V); [intros y Hy; apply Hl; by right|]. set (m1 := foldr _ m l) in *.
  destruct (tick_one_wf env x m1 W) as (W' & G' & C'); [rewrite C; apply Hl; left|].
  split_and!; [done|by etransitivity|congruence|].
  intros y [->|Hy]%elem_of_cons H1 H2.
  - unfold tick_one. destruct (m_visitors m1 !! vname (snd x)) eqn:E; [by rewrite E|].
    rewrite startVisitor_ok by done. rewrite lookup_insert_eq. eauto.
  - destruct (V y Hy H1 H2) as [id Hid]. exists id. by apply G'.
Qed.

Lemma tick_spec env m :
  vm_wf m →
  vm_wf (tick env m) ∧ grows m (tick env m) ∧ m_cfgs (tick env m) = m_cfgs m ∧
  (∀ n c, m_cfgs m !! n = Some c → create_ok (env n) = true → listen_ok (env n) = true →
     is_Some (m_visitors (tick env m) !! n)).
Proof.
  intros Hwf. destruct (ticks_spec env (map_to_list (m_cfgs m)) m Hwf) as (H1 & H2 & H3 & H4).
  - intros [n c] H%elem_of_map_to_list. simpl. by rewrite (wf_keyed _ Hwf _ _ H).
  - split_and!; [done..|]. intros n c Hc Ho Hl. pose proof (wf_keyed _ Hwf _ _ Hc) as <-.
    apply (H4 (vname c, c)); [by apply elem_of_map_to_list|done..].
Qed.

(** The second half of [UpdateAll]. *)
Lemma vm_add_spec env m c :
  vm_wf m →
  grows m (vm_add env m c) ∧
  (m_cfgs m !! vname c = None → m_cfgs (vm_add env m c) = <[vname c := c]> (m_cfgs m)) ∧
  (is_Some (m_cfgs m !! vname c) → vm_add env m c = m) ∧
  (m_cfgs m !! vname c = None → create_ok (env (vname c)) = true → listen_ok (env (vname c)) = true →
     runs c (vm_add env m c)).
Proof.
  intros Hwf. unfold vm_add. destruct (m_cfgs m !! vname c) eqn:E; [split_and!; done|].
  set (m1 := mkVManager (<[_:=c]> _) _ _ _ _ _).
  assert (m_visitors m1 !! vname c = None) as Hn.
  { simpl. destruct (m_visitors m !! vname c) eqn:E'; [|done].
    destruct (table_named m (vname c) Hwf) as [? ?]; [by rewrite E'|congruence]. }
  split_and!.
  - exact (start_grows env c m1 Hn).
  - intros _. by destruct (startVisitor_spec env c m1) as (-> & _).
  - by intros [? ?].
  - intros _ H1 H2. by apply start_runs.
Qed.

Lemma adds_spec env cfgs m :
  vm_wf m → m_keeper m = true ∨ cfgs = [] → NoDup (vname <$> cfgs) →
  let m' := foldl (vm_add env) m cfgs in
  vm_wf m' ∧ grows m m' ∧
  (∀ n c, m_cfgs m' !! n = Some c ↔ m_cfgs m !! n = Some c ∨ m_cfgs m !! n = None ∧ c ∈ cfgs ∧ vname c = n) ∧
  (∀ c, c ∈ cfgs → m_cfgs m !! vname c = None → create_ok (env (vname c)) = true → listen_ok (env (vname c)) = true →
     runs c m').
Proof.
  revert m. induction cfgs as [|d cfgs IH]; intros m Hwf Hk Hnd; cbn [foldl].
  { split_and!; try done; [|intros c H; by apply not_elem_of_nil in H]. intros n c. split; [by left|].
    intros [?|(_ & H & _)]; [done|by apply not_elem_of_nil in H]. }
  destruct Hk as [Hk|?]; [|done]. apply NoDup_cons in Hnd as [Hni Hnd].
  destruct (vm_add_spec env m d Hwf) as (G & C1 & C2 & R). pose proof (vm_add_wf env m d Hwf Hk) as W.
  destruct (IH (vm_add env m d)) as (W' & G' & C' & R'); [done|left; destruct G as (_ & -> & _); done|done|].
  assert (∀ c, c ∈ cfgs → vname c ≠ vname d) as Hne.
  { intros c Hc Heq. apply Hni. rewrite <- Heq. by apply list_elem_of_fmap_2. }
  split_and!; [done|by etransitivity| |].
  - intros n c. rewrite C', elem_of_cons. destruct (m_cfgs m !! vname d) as [o|] eqn:E.
    + rewrite C2 by eauto. split; [naive_solver|]. intros [?|(? & [->|?] & ?)]; [by left|congruence|by right].
    + rewrite C1 by done. destruct (decide (n = vname d)) as [->|Hn].
      * rewrite lookup_insert_eq, E. naive_solver.
      * rewrite lookup_insert_ne by done. naive_solver.
  - intros c [->|Hc]%elem_of_cons Hn H1 H2; [apply (grows_runs d (vm_add env m d)); [done..|by apply R]|].
    apply R'; [done| |done..]. destruct (m_cfgs m !! vname d) as [o|] eqn:E; [by rewrite C2 by eauto|].
    rewrite C1 by done. rewrite lookup_insert_ne; [done|]. intros Heq. by apply (Hne c).
Qed.

Lemma start_keeper_wf cfgs m : vm_wf m → vm_wf (start_keeper cfgs m).
Proof.
  intros Hwf. split; cbn; [apply (wf_keyed _ Hwf)|apply (wf_table _ Hwf)|apply (wf_holds _ Hwf)|apply (wf_fresh _ Hwf)|].
  intros [H _]%orb_false_iff. by apply (wf_keeper _ Hwf).
Qed.

Lemma start_keeper_on cfgs m : m_keeper (start_keeper cfgs m) = true ∨ cfgs = [].
Proof. unfold start_keeper. simpl. destruct cfgs; [by right|left]. by rewrite orb_true_r. Qed.

Lemma update_halves env cfgs m :
  vm_wf m → NoDup (vname <$> cfgs) →
  let m1 := vm_drop_changed (key_by vname cfgs) (start_keeper cfgs m) in
  vm_wf m1 ∧ vm_wf (vm_UpdateAll env cfgs m) ∧ grows m1 (vm_UpdateAll env cfgs m) ∧
  m_next m1 = m_next m ∧ m_stopped m1 = m_stopped m ∧
  (∀ n, m_cfgs m1 !! n = if decide (kept cfgs m n) then m_cfgs m !! n else None) ∧
  (∀ n, m_visitors m1 !! n = if decide (kept cfgs m n) then m_visitors m !! n else None) ∧
  (∀ n id v, m_visitors m !! n = Some id → m_objs m !! id = Some v →
     m_objs m1 !! id = Some (if decide (kept cfgs m n) then v else Close v)) ∧
  (∀ n c, m_cfgs (vm_UpdateAll env cfgs m) !! n = Some c ↔
     m_cfgs m1 !! n = Some c ∨ m_cfgs m1 !! n = None ∧ c ∈ cfgs ∧ vname c = n) ∧
  (∀ c, c ∈ cfgs → m_cfgs m1 !! vname c = None → create_ok (env (vname c)) = true → listen_ok (env (vname c)) = true →
     runs c (vm_UpdateAll env cfgs m)).
Proof.
  intros Hwf Hnd m1. destruct (vm_drop_changed_spec cfgs _ (start_keeper_wf cfgs m Hwf) Hnd) as (H1 & H2 & H3 & H4 & H5 & H6 & H7).
  destruct (adds_spec env cfgs m1 H1) as (A1 & A2 & A3 & A4); [unfold m1; rewrite H3; apply start_keeper_on|done|].
  split_and!; done.
Qed.

(** After an update the configurations are those of the list. *)
Lemma update_cfgs env cfgs m :
  vm_wf m → NoDup (vname <$> cfgs) →
  ∀ n c, m_cfgs (vm_UpdateAll env cfgs m) !! n = Some c ↔ c ∈ cfgs ∧ vname c = n.
Proof.
  intros Hwf Hnd n c. destruct (update_halves env cfgs m Hwf Hnd) as (_ & _ & _ & _ & _ & C1 & _ & _ & C & _).
  rewrite C, !C1. case_decide as Hk; [|naive_solver].
  destruct Hk as (d & Hd & Hin). rewrite Hd. pose proof (wf_keyed _ Hwf _ _ Hd) as Hn. split.
  - intros [[= <-]|[? _]]; done.
  - intros [Hc <-]. left. f_equal. by apply (NoDup_fmap_inj_elem vname cfgs).
Qed.

Lemma close_objs_lookup ids objs id :
  NoDup ids → close_objs ids objs !! id = if decide (id ∈ ids) then Close <$> objs !! id else objs !! id.
Proof.
  induction 1 as [|j ids Hj Hnd IH]; cbn [close_objs foldr].
  { by rewrite decide_False by (by apply not_elem_of_nil). }
  fold (close_objs ids objs). destruct (decide (j = id)) as [->|Hne].
  - by rewrite lookup_alter_eq, IH, decide_False, decide_True by (done || left).
  - rewrite lookup_alter_ne, IH by done. apply decide_ext. rewrite elem_of_cons. naive_solver.
Qed.

Lemma table_ids m : vm_wf m →
  NoDup (snd <$> map_to_list (m_visitors m)) ∧
  (∀ id, id ∈ snd <$> map_to_list (m_visitors m) ↔ ∃ n, m_visitors m !! n = Some id).
Proof.
  intros Hwf. split.
  - apply NoDup_fmap_2_strong; [|apply NoDup_map_to_list].
    intros [n1 i1] [n2 i2] H1%elem_of_map_to_list H2%elem_of_map_to_list Heq. simpl in Heq. subst i2.
    by rewrite (wf_inj m n1 n2 i1).
  - intros id. rewrite list_elem_of_fmap. split.
    + intros ([n i] & -> & H%elem_of_map_to_list). eauto.
    + intros [n H%elem_of_map_to_list]. by exists (n, id).
Qed.

(** After [Close] every visitor of the table is closed, and no socket is open. *)
Lemma vm_Close_spec m :
  vm_wf m →
  vm_wf (vm_Close m) ∧ (∀ id v, m_objs (vm_Close m) !! id = Some v → holds v = false) ∧
  (∀ n id v, m_visitors m !! n = Some id → m_objs m !! id = Some v →
     m_objs (vm_Close m) !! id = Some (Close v) ∧ released (Close v)).
Proof.
  intros Hwf. destruct (table_ids m Hwf) as [Hnd Hin].
  assert (∀ n id v, m_visitors m !! n = Some id → m_objs m !! id = Some v →
    m_objs (vm_Close m) !! id = Some (Close v) ∧ sound (Close v) ∧ released (Close v) ∧ vo_cfg (Close v) = vo_cfg v) as Hc.
  { intros n id v Hn Hv. simpl. rewrite close_objs_lookup, decide_True, Hv by (done || (apply Hin; eauto)).
    split; [done|]. apply sound_Close. destruct (wf_table _ Hwf _ _ Hn) as (u & ? & _ & ? & _). congruence. }
  assert (∀ id v, m_objs (vm_Close m) !! id = Some v → holds v = false ∧ ∃ u, m_objs m !! id = Some u) as Hh.
  { intros id v Hv. simpl in Hv. rewrite close_objs_lookup in Hv by done. case_decide as Hi.
    - apply Hin in Hi as [n Hn]. destruct (m_objs m !! id) as [u|] eqn:E; [|done]. injection Hv as <-.
      split; [|eauto]. by apply released_holds, (Hc n id u).
    - split; [|eauto]. destruct (holds v) eqn:E; [|done]. destruct Hi. apply Hin. by apply (wf_holds _ Hwf id v). }
  split_and!; [|intros id v Hv; by apply (Hh id v)|intros n id v Hn Hv; by destruct (Hc n id v Hn Hv) as (? & _ & ? & _)].
  split; cbn [m_cfgs m_visitors m_keeper m_next m_stopped vm_Close].
  - apply (wf_keyed _ Hwf).
  - intros n id Hn. destruct (wf_table _ Hwf _ _ Hn) as (v & Hv & Hcf & _). exists (Close v).
    destruct (Hc _ _ _ Hn Hv) as (H1 & H2 & _ & ->). done.
  - intros id v Hv Hp. destruct (Hh id v Hv) as [? _]. congruence.
  - intros id v Hv. destruct (Hh id v Hv) as [_ [u Hu]]. by apply (wf_fresh _ Hwf id u).
  - apply (wf_keeper _ Hwf).
Qed.

Lemma vm_run_wf ops : vm_wf (vm_run ops).
Proof.
  unfold vm_run. induction ops as [|o ops IH] using rev_ind.
  { split; intros *; simpl; rewrite ?lookup_empty; done. }
  rewrite foldl_app. cbn [foldl]. destruct o as [env cfgs|env|]; simpl.
  - case_decide; [|done]. by apply update_halves.
  - destruct (m_keeper _); [|done]. by apply tick_spec.
  - by apply vm_Close_spec.
Qed.

(** C22: the visitor manager follows the configuration.  After any history of updates, ticks
    and closes, an update with differently named configurations makes the configurations of
    the manager exactly those; a visitor whose configuration did not change is the same object
    in the same state; every other visitor of before is closed and has released all it held;
    a configuration that is new, or changed, has a running visitor when the system lets it
    start; and no socket of the process is held by a visitor that is not in the table. *)
Theorem visitors_follow_config ops env cfgs :
  NoDup (vname <$> cfgs) →
  let m := vm_run ops in
  let m' := vm_UpdateAll env cfgs m in
  (∀ n c, GetVisitorCfg n m' = Some c ↔ c ∈ cfgs ∧ vname c = n) ∧
  (∀ n id v, m_visitors m !! n = Some id → m_objs m !! id = Some v →
     if decide (vo_cfg v ∈ cfgs) then m_visitors m' !! n = Some id ∧ m_objs m' !! id = Some v
     else m_objs m' !! id = Some (Close v) ∧ released (Close v) ∧ m_visitors m' !! n ≠ Some id) ∧
  (∀ c, c ∈ cfgs → GetVisitorCfg (vname c) m ≠ Some c →
     create_ok (env (vname c)) = true → listen_ok (env (vname c)) = true → runs c m') ∧
  (∀ id v, m_objs m' !! id = Some v → holds v = true →
     ∃ n, m_visitors m' !! n = Some id ∧ GetVisitorCfg n m' = Some (vo_cfg v)).
Proof.
  intros Hnd m m'. pose proof (vm_run_wf ops : vm_wf m) as Hwf. unfold GetVisitorCfg.
  destruct (update_halves env cfgs m Hwf Hnd) as (W1 & W' & G & N1 & S1 & C1 & V1 & O1 & C & R).
  fold m' in W', G, C, R. split_and!.
  - apply (update_cfgs env cfgs m Hwf Hnd).
  - intros n id v Hn Hv. destruct (wf_table _ Hwf _ _ Hn) as (u & Hu & Hc & Hs & _).
    rewrite Hv in Hu. injection Hu as <-. pose proof (wf_fresh _ Hwf _ _ Hv) as Hlt.
    destruct G as (_ & _ & _ & Gv & Go). specialize (O1 n id v Hn Hv). rewrite Go by lia. rewrite O1.
    destruct (decide (vo_cfg v ∈ cfgs)) as [Hin|Hin].
    + assert (kept cfgs m n) as Hk by (by exists (vo_cfg v)). rewrite decide_True by done. split; [|done].
      apply Gv. by rewrite V1, decide_True.
    + assert (¬ kept cfgs m n) as Hk by (intros (d & Hd & ?); congruence). rewrite decide_False by done.
      destruct (sound_Close v Hs) as (_ & Hr & Hcl). split_and!; [done..|]. intros Hn'.
      destruct (wf_table _ W' _ _ Hn') as (w & Hw & Hcw & _). rewrite Go, O1, decide_False in Hw by (done || lia).
      injection Hw as <-. rewrite Hcl in Hcw. apply C in Hcw as [Hcw|(_ & ? & _)]; [|done].
      rewrite C1, decide_False in Hcw; done.
  - intros c Hc Hne H1 H2. apply R; [done| |done..]. rewrite C1. case_decide as Hk; [|done].
    destruct Hk as (d & Hd & Hin). destruct Hne. rewrite Hd. f_equal.
    apply (NoDup_fmap_inj_elem vname cfgs); [done..|]. by apply (wf_keyed _ Hwf).
  - intros id v Hv Hh. destruct (wf_holds _ W' _ _ Hv Hh) as [n Hn]. exists n. split; [done|].
    destruct (wf_table _ W' _ _ Hn) as (u & Hu & ? & _). congruence.
Qed.

Definition is_tick (o : vm_op) : Prop := match o with VTick _ => True | _ => False end.

Lemma ticks_keep ticks m :
  vm_wf m → Forall is_tick ticks →
  vm_wf (foldl vm_step m ticks) ∧ grows m (foldl vm_step m ticks) ∧ m_cfgs (foldl vm_step m ticks) = m_cfgs m.
Proof.
  intros Hwf Ht. revert m Hwf. induction Ht as [|o ticks Ho Ht IH]; intros m Hwf; [done|]. cbn [foldl].
  destruct o as [|env|]; try done. simpl. destruct (m_keeper m) eqn:E; [|by apply IH].
  destruct (tick_spec env m Hwf) as (W & G & C & _). destruct (IH _ W) as (W' & G' & C').
  split_and!; [done|by etransitivity|congruence].
Qed.

(** C23: every configured visitor eventually runs.  After any history, while the manager is not
    closed, let the goroutine of the manager tick any number of times: as soon as one tick
    finds the system ready for a visitor - it can be created and can listen - the visitor
    runs with its configuration, and keeps running through all later ticks, whatever they
    find.  The goroutine exists as soon as one visitor was ever configured. *)
Theorem configured_visitors_run ops before env after n c :
  let m := vm_run ops in
  m_stopped m = false → GetVisitorCfg n m = Some c →
  Forall is_tick before → Forall is_tick after →
  create_ok (env n) = true → listen_ok (env n) = true →
  m_keeper m = true ∧ runs c (foldl vm_step m (before ++ [VTick env] ++ after)).
Proof.
  intros m Hst Hc Hb Ha H1 H2. pose proof (vm_run_wf ops : vm_wf m) as Hwf.
  pose proof (wf_keyed _ Hwf _ _ Hc) as Hname. unfold GetVisitorCfg in Hc.
  assert (m_keeper m = true) as Hk.
  { destruct (m_keeper m) eqn:E; [done|]. apply (wf_keeper _ Hwf) in E. rewrite E in Hc. done. }
  split; [done|]. rewrite !foldl_app. destruct (ticks_keep before m Hwf Hb) as (W & G & C).
  set (m1 := foldl vm_step m before) in *. destruct G as (_ & Gk & Gs & _). simpl. rewrite Gk, Hk.
  destruct (tick_spec env m1 W) as (W' & G' & C' & V).
  destruct (V n c) as [id Hid]; [by rewrite C|done..|].
  assert (runs c (tick env m1)) as Hr.
  { destruct (wf_table _ W' _ _ Hid) as (v & Hv & Hcv & _ & Hrun). exists id, v. rewrite Hname.
    split_and!; [done..| |].
    - apply Hrun. destruct G' as (_ & _ & -> & _). congruence.
    - rewrite C', C, Hc in Hcv. by injection Hcv. }
  destruct (ticks_keep after _ W' Ha) as (_ & G'' & _). by eapply grows_runs.
Qed.

(** After [Close] no visitor holds a socket, and a connection handed to any visitor is
    refused. *)
Lemma closed_manager ops name :
  let m := vm_Close (vm_run ops) in
  (∀ id v, m_objs m !! id = Some v → holds v = false) ∧ ∀ id, TransferConn name m ≠ TakenBy id.
Proof.
  intros m. destruct (vm_Close_spec _ (vm_run_wf ops)) as (W & H & Hc). split; [done|].
  intros id. unfold TransferConn. destruct (m_visitors m !! name) as [j|] eqn:E; [|done].
  destruct (wf_table _ (vm_run_wf ops) name j E) as (v & Hv & _). destruct (Hc name j v E Hv) as [Ho Hr].
  fold m in Ho. rewrite Ho. by destruct Hr as (_ & -> & _).
Qed.

(** An update after the close, by a session that is ending, still starts visitors, and a
    second close is needed to stop them: [UpdateAll] does not look at [stopCh]. *)
Lemma update_after_close env c :
  create_ok (env (vname c)) = true → listen_ok (env (vname c)) = true →
  runs c (vm_UpdateAll env [c] (vm_Close vm_NewManager)).
Proof.
  intros H1 H2. unfold vm_UpdateAll. cbn [foldl].
  change (vm_drop_changed _ _) with (start_keeper [c] (vm_Close vm_NewManager)).
  apply vm_add_spec; [|done..]. apply start_keeper_wf, vm_Close_spec, (vm_run_wf []).
Qed.

(** ** Witnesses *)

Definition wbase (n : string) (p : Z) : VisitorBaseConfig :=
  mkVBase n "stcp" None (mkVTransport false false) "key" "" "ssh" "127.0.0.1" p (mkVPlugin "" None).
Definition w_ok : outcomes := λ _, mkStart true true.
Definition w_busy : outcomes := λ _, mkStart true false.

Lemma visitors_follow_config_witness :
  runs (STCPVisitorConfig (wbase "b" 7000)) (vm_UpdateAll w_ok [STCPVisitorConfig (wbase "b" 7000)]
    (vm_run [VUpdate w_ok [STCPVisitorConfig (wbase "a" 6000)]])).
Proof.
  apply (visitors_follow_config [VUpdate w_ok [STCPVisitorConfig (wbase "a" 6000)]] w_ok
    [STCPVisitorConfig (wbase "b" 7000)]); [|left|vm_compute; discriminate|reflexivity..].
  apply NoDup_singleton.
Defined.

Lemma configured_visitors_run_witness :
  m_keeper (vm_run [VUpdate w_busy [STCPVisitorConfig (wbase "a" 6000)]]) = true.
Proof.
  apply (configured_visitors_run [VUpdate w_busy [STCPVisitorConfig (wbase "a" 6000)]] [VTick w_busy] w_ok [VTick w_busy]
    "a" (STCPVisitorConfig (wbase "a" 6000))); [reflexivity|vm_compute; reflexivity| | |reflexivity..];
  constructor; try constructor.
Defined.
