(* ===== verification/Backoff.v ===== *)
(** Delays between attempts ([src/pkg/util/wait/backoff.go]) with the two settings of the
    client: the login loop and the reconnection loop of [src/client/service.go].

    Durations are integers in nanoseconds.  The options [Factor] and the jitters are floating
    point numbers in the source: every use has the factor 2, which is exact below 2^53, and the
    jitters 0.1 and 0.5, written here in thousandths.  A draw of [rand.Float64] appears as the
    amount it adds: an input between 0 and the jitter's share of the duration, rounded down. *)
From Stdlib Require Import ZArith Lia.
From stdpp Require Import base list.
From S2P Require Import Prelude GoStrings VisitorConf.
Local Open Scope Z_scope.

Definition AMinute : Z := 60 * Second.

Record FastBackoffOptions := mkOptions {
  Duration : Z; Factor : Z; Jitter_ : Z; MaxDuration : Z; InitDurationIfFail : Z;
  FastRetryCount : Z; FastRetryDelay : Z; FastRetryJitter : Z; FastRetryWindow : Z }.

(** [fastBackoffImpl]; [None] is the zero time. *)
Record backoff := mkBackoff {
  lastCalledTime : option Z; consecutiveErrCount : Z;
  fastRetryCutoffTime : option Z; countsInFastRetryWindow : Z }.

Definition NewFastBackoffManager : backoff := mkBackoff None 0 None 1.

(** [Jitter]: the duration and the draw. *)
Definition permille (maxFactor : Z) : Z := if maxFactor <=? 0 then 1000 else maxFactor.
Definition draw_ok (d maxFactor r : Z) : Prop := 0 <= r ∧ 1000 * r <= d * permille maxFactor.
Definition Jitter (d r : Z) : Z := d + r.

Section options.
Variable o : FastBackoffOptions.

(** The duration after an error, before and after the jitter. *)
Definition scaled (prev errs : Z) : Z :=
  let d := if errs =? 1 then EmptyOrZ (InitDurationIfFail o) prev else prev in
  let d := EmptyOrZ d Second in
  if Factor o =? 0 then d else d * Factor o.

Definition error_delay (prev errs r : Z) : Z :=
  let d := scaled prev errs in
  let d := if 0 <? Jitter_ o then Jitter d r else d in
  if (0 <? MaxDuration o) && (MaxDuration o <? d) then MaxDuration o else d.

Definition after_cutoff (now : Z) (c : option Z) : bool := match c with None => true | Some c => c <? now end.

(** Is this call a fast retry? *)
Definition is_fast (err : bool) (b : backoff) : bool :=
  (0 <? FastRetryCount o) && err && (countsInFastRetryWindow b + 1 <=? FastRetryCount o).

(** [Backoff] at time [now] with the draw [r]. *)
Definition Backoff (now r prev : Z) (err : bool) (b : backoff) : Z * backoff :=
  match lastCalledTime b with
  | None => (Duration o, mkBackoff (Some now) (consecutiveErrCount b) (fastRetryCutoffTime b) (countsInFastRetryWindow b))
  | Some _ =>
      let errs := if err then consecutiveErrCount b + 1 else 0 in
      let counts := if (0 <? FastRetryCount o) && err then countsInFastRetryWindow b + 1 else countsInFastRetryWindow b in
      if is_fast err b then
        (Jitter (FastRetryDelay o) r, mkBackoff (Some now) errs (fastRetryCutoffTime b) counts)
      else
        let reset := (0 <? FastRetryCount o) && err && after_cutoff now (fastRetryCutoffTime b) in
        let b' := mkBackoff (Some now) errs
          (if reset then Some (now + FastRetryWindow o) else fastRetryCutoffTime b) (if reset then 0 else counts) in
        if err then (error_delay prev errs r, b') else (Duration o, b')
  end.

(** One call of the function under [BackoffUntil]: when it returned, whether it is done or
    failed, and the draw of the delay after it. *)
Record call := mkCall { c_at : Z; c_done : bool; c_err : bool; c_draw : Z }.

(** [BackoffUntil] with [sliding], until the function is done or [stopCh] is closed after the
    calls [l]: the delays it waits. *)
Fixpoint sliding_loop (prev : Z) (b : backoff) (l : list call) : list Z :=
  match l with
  | [] => []
  | c :: l =>
      if c_done c then []
      else let '(d, b) := Backoff (c_at c) (c_draw c) prev (c_err c) b in d :: sliding_loop d b l
  end.

Definition BackoffUntil (start : Z) (l : list call) : list Z :=
  sliding_loop 0 (snd (Backoff start 0 0 false NewFastBackoffManager)) l.

(** Without [sliding] the delay is fixed before the call, from the outcome of the last one. *)
Fixpoint fixed_loop (prev : Z) (err : bool) (b : backoff) (l : list call) : list Z :=
  match l with
  | [] => []
  | c :: l =>
      let '(d, b) := Backoff (c_at c) (c_draw c) prev err b in
      if c_done c then [] else d :: fixed_loop d (c_err c) b l
  end.
End options.

(** [Until]: the same delay for ever. *)
Definition Until (period : Z) (l : list call) : list Z := (λ _, period) <$> l.

(** The two settings; [maxInterval] is 10 s for the first login and 20 s later. *)
Definition login_options (maxInterval : Z) : FastBackoffOptions :=
  mkOptions Second 2 100 maxInterval 0 0 0 0 0.
Definition reconnect_options : FastBackoffOptions :=
  mkOptions Second 2 100 (20 * Second) 0 3 (200 * Millisecond) 500 AMinute.
(** The heartbeats of [src/client/control.go]. *)
Definition heartbeat_options (interval : Z) : FastBackoffOptions :=
  mkOptions (interval * Second) 2 100 (interval * Second) Second 0 0 0 0.

(** ** Logins *)

Definition failed (r : Z) (t : Z) : call := mkCall t false true r.

(** The delays after n failures in a row, without fast retries. *)
Fixpoint fail_delays (o : FastBackoffOptions) (prev errs : Z) (draws : list Z) : list Z :=
  match draws with
  | [] => []
  | r :: draws => let d := error_delay o prev (errs + 1) r in d :: fail_delays o d (errs + 1) draws
  end.

Lemma sliding_failures o prev b draws times :
  FastRetryCount o = 0 → lastCalledTime b ≠ None → length draws = length times →
  sliding_loop o prev b (zip_with failed draws times) = fail_delays o prev (consecutiveErrCount b) draws.
Proof.
  intros Hf. revert prev b times. induction draws as [|r draws IH]; intros prev b [|t times] Hb Hl; try done.
  cbn [zip_with sliding_loop failed c_done c_at c_draw c_err fail_delays]. unfold Backoff, is_fast. rewrite Hf. simpl.
  destruct (lastCalledTime b) eqn:E; [|done]. f_equal. rewrite IH; simpl; [done|done|]. by injection Hl.
Qed.

(** Draws that a run can have. *)
Fixpoint draws_ok (o : FastBackoffOptions) (prev errs : Z) (draws : list Z) : Prop :=
  match draws with
  | [] => True
  | r :: draws => draw_ok (scaled o prev (errs + 1)) (Jitter_ o) r ∧
                  draws_ok o (error_delay o prev (errs + 1) r) (errs + 1) draws
  end.

Lemma login_first max errs r :
  Second <= max → draw_ok (scaled (login_options max) 0 (errs + 1)) 100 r →
  Z.min max (2 * Second) <= error_delay (login_options max) 0 (errs + 1) r <= Z.min max (2200 * Millisecond).
Proof.
  unfold draw_ok, permille, error_delay, scaled, login_options, EmptyOrZ, Jitter, Second, Millisecond. simpl.
  intros Hm Hr. destruct (errs + 1 =? 1); simpl in *; repeat case_match; simpl in *; try lia.
Qed.

Lemma login_next max errs prev r :
  0 < prev -> Second <= max → draw_ok (scaled (login_options max) prev (errs + 1)) 100 r → errs <> 0 →
  Z.min max (2 * prev) <= error_delay (login_options max) prev (errs + 1) r <= max ∧
  10 * error_delay (login_options max) prev (errs + 1) r <= 22 * prev.
Proof.
  unfold draw_ok, permille, error_delay, scaled, login_options, EmptyOrZ, Jitter, Second, Millisecond. simpl.
  intros Hp Hm Hr He. destruct (Z.eqb_spec (errs + 1) 1); [lia|]. simpl in *.
  destruct (Z.eqb_spec prev 0); [lia|]. repeat case_match; simpl in *; try lia.
Qed.

Lemma fail_delays_bounds max k prev errs draws i d :
  Second <= max → 0 <= k → errs <> 0 →
  Z.min max (2 ^ k * Second) <= prev <= max → 10 ^ k * prev <= 22 ^ k * Second →
  draws_ok (login_options max) prev errs draws → 0 <= errs →
  fail_delays (login_options max) prev errs draws !! i = Some d →
  Z.min max (2 ^ (k + 1 + Z.of_nat i) * Second) <= d <= max ∧
  10 ^ (k + 1 + Z.of_nat i) * d <= 22 ^ (k + 1 + Z.of_nat i) * Second.
Proof.
  intros Hm. revert k prev errs draws. induction i as [|i IH]; intros k prev errs [|r draws] Hk He Hp Hu Hd Hpos; try done;
    cbn [fail_delays lookup list_lookup]; destruct Hd as [Hr Hd].
  - intros [= <-]. assert (0 < 2 ^ k) as H2 by (apply Z.pow_pos_nonneg; lia).
    assert (0 < 10 ^ k) as H10 by (apply Z.pow_pos_nonneg; lia).
    assert (0 < Second) as Hs by done.
    destruct (login_next max errs prev r) as [Hb Hx]; [nia|done..|].
    rewrite !Z.add_0_r, !Z.pow_add_r, !Z.pow_1_r by lia. split; nia.
  - intros Hi. apply (IH (k + 1)) in Hi; [|lia|lia| | |done|lia].
    + replace (k + 1 + 1 + Z.of_nat i) with (k + 1 + Z.of_nat (S i)) in Hi by lia. done.
    + assert (0 < 2 ^ k) as H2 by (apply Z.pow_pos_nonneg; lia). assert (0 < Second) as Hs by done.
      destruct (login_next max errs prev r) as [Hb Hx]; [nia|done..|]. rewrite Z.pow_add_r, Z.pow_1_r by lia. nia.
    + assert (0 < 2 ^ k) as H2 by (apply Z.pow_pos_nonneg; lia). assert (0 < Second) as Hs by done.
      assert (0 < 10 ^ k) as H10 by (apply Z.pow_pos_nonneg; lia).
      destruct (login_next max errs prev r) as [Hb Hx]; [nia|done..|]. rewrite !Z.pow_add_r, !Z.pow_1_r by lia. nia.
Qed.

(** Logins are retried with exponentially growing delays up to the limit.  After the n-th
    failed attempt in a row (n from 1), whatever the random draws are, the client waits at
    least 2^n seconds, or the limit where that is less, at most the limit, and at most 2.2^n
    seconds. *)
Theorem login_delays max start draws times i d :
  Second <= max → length draws = length times → draws_ok (login_options max) 0 0 draws →
  BackoffUntil (login_options max) start (zip_with failed draws times) !! i = Some d →
  let n := Z.of_nat i + 1 in
  Z.min max (2 ^ n * Second) <= d <= max ∧ 10 ^ n * d <= 22 ^ n * Second.
Proof.
  intros Hm Hl Hd. unfold BackoffUntil. cbn [Backoff lastCalledTime NewFastBackoffManager snd].
  rewrite sliding_failures by done. cbn [consecutiveErrCount NewFastBackoffManager]. destruct draws as [|r draws]; [done|].
  destruct Hd as [Hr Hd]. pose proof (login_first max 0 r Hm Hr) as Hf. cbn [fail_delays].
  assert (2200 * Millisecond = 22 * Second / 10) as Hs by done.
  destruct i as [|i]; cbn [lookup list_lookup].
  - intros [= <-]. change (Z.of_nat 0 + 1) with 1. rewrite !Z.pow_1_r.
    unfold Second, Millisecond in *. lia.
  - intros Hi. apply (fail_delays_bounds max 1) in Hi; [|done|done|done| | |done|done].
    + replace (Z.of_nat (S i) + 1) with (1 + 1 + Z.of_nat i) by lia. done.
    + rewrite Z.pow_1_r. lia.
    + rewrite !Z.pow_1_r. unfold Second, Millisecond in *. lia.
Qed.

(** ** Reconnections *)

(** The times of the fast retries of a run. *)
Fixpoint fast_times (o : FastBackoffOptions) (b : backoff) (l : list call) : list Z :=
  match l with
  | [] => []
  | c :: l =>
      if c_done c then []
      else let b' := snd (Backoff o (c_at c) (c_draw c) 0 (c_err c) b) in
           if is_fast o (c_err c) b then c_at c :: fast_times o b' l else fast_times o b' l
  end.

(** Calls in order of time, from [T] on. *)
Fixpoint in_order (T : Z) (l : list call) : Prop :=
  match l with [] => True | c :: l => T <= c_at c ∧ in_order (c_at c) l end.

Lemma in_order_le T T' l : in_order T l → T' <= T → in_order T' l.
Proof. destruct l; simpl; [done|]. intros [? ?] ?. split; [lia|done]. Qed.

Lemma fast_times_after o b T l t : in_order T l → t ∈ fast_times o b l → T <= t.
Proof.
  revert b T. induction l as [|c l IH]; intros b T Ho Ht; [by apply not_elem_of_nil in Ht|].
  destruct Ho as [Hc Ho]. simpl in Ht. destruct (c_done c); [by apply not_elem_of_nil in Ht|].
  pose proof (in_order_le _ T _ Ho Hc). destruct (is_fast o (c_err c) b); [|by eauto].
  apply elem_of_cons in Ht as [->|Ht]; [done|by eauto].
Qed.

Abbreviation R := reconnect_options.
(** Fast retries left before the window has to be reset. *)
Definition left_fast (b : backoff) : nat := Z.to_nat (3 - countsInFastRetryWindow b).

(** What a call does to the counters. *)
Lemma reconnect_step c b T :
  lastCalledTime b = Some T → 0 <= countsInFastRetryWindow b →
  let b' := snd (Backoff R (c_at c) (c_draw c) 0 (c_err c) b) in
  lastCalledTime b' ≠ None ∧ 0 <= countsInFastRetryWindow b' ∧
  (if is_fast R (c_err c) b
   then fastRetryCutoffTime b' = fastRetryCutoffTime b ∧ left_fast b = S (left_fast b')
   else fastRetryCutoffTime b' = fastRetryCutoffTime b ∧ (left_fast b' <= left_fast b)%nat ∨
        after_cutoff (c_at c) (fastRetryCutoffTime b) = true ∧
        fastRetryCutoffTime b' = Some (c_at c + AMinute) ∧ countsInFastRetryWindow b' = 0).
Proof.
  intros Hb Hc. unfold Backoff. rewrite Hb. unfold is_fast, left_fast. change (FastRetryCount R) with 3.
  change (FastRetryWindow R) with AMinute. simpl.
  destruct (c_err c); simpl; [|split_and!; [done|done|left; split; [done|lia]]].
  destruct (Z.leb_spec (countsInFastRetryWindow b + 1) 3); simpl; [split_and!; [done|lia|done|lia]|].
  destruct (after_cutoff (c_at c) (fastRetryCutoffTime b)) eqn:E; simpl.
  - split_and!; [done|done|]. by right.
  - split_and!; [done|lia|]. left. split; [done|lia].
Qed.

(** Past the fast retries that are left, a fast retry comes after the end of the window. *)
Lemma fast_after_cutoff l b C i t :
  lastCalledTime b ≠ None → 0 <= countsInFastRetryWindow b → fastRetryCutoffTime b = Some C →
  (∃ T, in_order T l) → (left_fast b <= i)%nat → fast_times R b l !! i = Some t → C < t.
Proof.
  revert b i. induction l as [|c l IH]; intros b i Hb Hp HC [T Ho] Hi Ht; [done|]. destruct Ho as [Hc Ho].
  destruct (lastCalledTime b) as [T0|] eqn:EL; [|done].
  simpl in Ht. destruct (c_done c); [done|].
  destruct (reconnect_step c b T0 EL Hp) as (H1 & H2 & H3).
  destruct (is_fast R (c_err c) b).
  - destruct H3 as [H3 H4]. destruct i as [|i]; [lia|]. simpl in Ht.
    eapply (IH _ i); [done|done|congruence|eauto|lia|done].
  - destruct H3 as [[H3 H4]|(H3 & _)]; [eapply (IH _ i); [done|done|congruence|eauto|lia|done]|].
    rewrite HC in H3. simpl in H3. apply Z.ltb_lt in H3.
    assert (t ∈ fast_times R (snd (Backoff R (c_at c) (c_draw c) 0 (c_err c) b)) l) as Hin
      by (by eapply list_elem_of_lookup_2).
    pose proof (fast_times_after _ _ _ _ _ Ho Hin). lia.
Qed.

Lemma fast_after_minute l b T i t :
  lastCalledTime b ≠ None → 0 <= countsInFastRetryWindow b →
  in_order T l → (left_fast b + 3 <= i)%nat → fast_times R b l !! i = Some t → T + AMinute < t.
Proof.
  revert b i T. induction l as [|c l IH]; intros b i T Hb Hp Ho Hi Ht; [done|]. destruct Ho as [Hc Ho].
  destruct (lastCalledTime b) as [T0|] eqn:EL; [|done].
  simpl in Ht. destruct (c_done c); [done|].
  destruct (reconnect_step c b T0 EL Hp) as (H1 & H2 & H3).
  destruct (is_fast R (c_err c) b).
  - destruct H3 as [H3 H4]. destruct i as [|i]; [lia|]. simpl in Ht.
    eapply (IH _ i T) in Ht; [done|done|done|by eapply in_order_le|lia].
  - destruct H3 as [[H3 H4]|(_ & H3 & H4)]; [eapply (IH _ i T) in Ht; [done|done|done|by eapply in_order_le|lia]|].
    assert (c_at c + AMinute < t); [|lia].
    eapply (fast_after_cutoff l _ _ i); [done|done|done|eauto| |done]. unfold left_fast. rewrite H4. lia.
Qed.

(** Draws that a run of [BackoffUntil] can have. *)
Fixpoint run_draws (o : FastBackoffOptions) (prev : Z) (b : backoff) (l : list call) : Prop :=
  match l with
  | [] => True
  | c :: l =>
      let errs := if c_err c then consecutiveErrCount b + 1 else 0 in
      (if is_fast o (c_err c) b then draw_ok (FastRetryDelay o) (FastRetryJitter o) (c_draw c)
       else draw_ok (scaled o prev errs) (Jitter_ o) (c_draw c)) ∧
      let '(d, b) := Backoff o (c_at c) (c_draw c) prev (c_err c) b in run_draws o d b l
  end.

Lemma reconnect_delay_bounds c prev b T :
  lastCalledTime b = Some T → prev = 0 ∨ 200 * Millisecond <= prev <= 20 * Second →
  run_draws R prev b [c] →
  200 * Millisecond <= fst (Backoff R (c_at c) (c_draw c) prev (c_err c) b) <= 20 * Second ∧
  lastCalledTime (snd (Backoff R (c_at c) (c_draw c) prev (c_err c) b)) ≠ None.
Proof.
  intros Hb Hp. cbn [run_draws]. intros [Hd _]. revert Hd. unfold Backoff. rewrite Hb.
  destruct (is_fast R (c_err c) b).
  - unfold draw_ok, Jitter, permille. simpl. unfold Second, Millisecond in *. intros. split; [lia|done].
  - destruct (c_err c); simpl; [|unfold Second, Millisecond; intros; split; [lia|done]].
    unfold draw_ok, permille, error_delay, scaled, EmptyOrZ, Jitter. simpl. unfold Second, Millisecond in *.
    intros. split; [|done]. repeat case_match; simpl in *; lia.
Qed.

Lemma sliding_bounds l prev b d :
  lastCalledTime b ≠ None → prev = 0 ∨ 200 * Millisecond <= prev <= 20 * Second →
  run_draws R prev b l → d ∈ sliding_loop R prev b l → 200 * Millisecond <= d <= 20 * Second.
Proof.
  revert prev b. induction l as [|c l IH]; intros prev b Hb Hp Hr Hd; [by apply not_elem_of_nil in Hd|].
  destruct (lastCalledTime b) as [T|] eqn:EL; [|done].
  cbn [sliding_loop] in Hd. destruct (c_done c); [by apply not_elem_of_nil in Hd|].
  cbn [run_draws] in Hr. destruct Hr as [Hr Hr'].
  destruct (reconnect_delay_bounds c prev b T EL Hp) as [H1 H2].
  { cbn [run_draws]. split; [done|]. by destruct (Backoff _ _ _ _ _ _). }
  destruct (Backoff R (c_at c) (c_draw c) prev (c_err c) b) as [x b'] eqn:E. simpl in H1, H2.
  apply elem_of_cons in Hd as [->|Hd]; [done|]. eapply IH; [exact H2|by right|exact Hr'|exact Hd].
Qed.

(** The reconnections of a client whose sessions keep ending are limited.  Every delay is
    between 200 ms and 20 s; and of the short delays, those that do not grow, no seven fall
    into one minute: between one and the sixth after it more than a minute passes. *)
Theorem reconnect_limited start l :
  in_order start l →
  let b := snd (Backoff R start 0 0 false NewFastBackoffManager) in
  run_draws R 0 b l →
  (∀ d, d ∈ BackoffUntil R start l → 200 * Millisecond <= d <= 20 * Second) ∧
  (∀ i t t', fast_times R b l !! i = Some t → fast_times R b l !! (i + 6)%nat = Some t' → t + AMinute < t').
Proof.
  intros Ho b Hd. split; [intros d; apply sliding_bounds; [done|by left|done]|].
  assert (∀ l b T i t t', lastCalledTime b ≠ None → 0 <= countsInFastRetryWindow b → in_order T l →
    fast_times R b l !! i = Some t → fast_times R b l !! (i + 6)%nat = Some t' → t + AMinute < t') as H;
    [|intros i t t'; by apply (H l b start)].
  clear. induction l as [|c l IH]; intros b T i t t' Hb Hp Ho H1 H2; [done|]. destruct Ho as [Hc Ho].
  destruct (lastCalledTime b) as [T0|] eqn:EL; [|done].
  simpl in H1, H2. destruct (c_done c); [done|].
  destruct (reconnect_step c b T0 EL Hp) as (S1 & S2 & S3). destruct (is_fast R (c_err c) b); [|by eapply IH].
  destruct i as [|i]; [|by eapply IH]. simpl in H1, H2. injection H1 as <-.
  eapply (fast_after_minute l _ _ 5); [done|done|done| |done].
  destruct S3 as [_ S3]. unfold left_fast in *. lia.
Qed.

(** What the first reconnections look like, without jitter: the session ends right after each
    login.  The first reconnection is immediate (before the loop), two short delays follow,
    then one that has already doubled, then three short ones again before the growth starts:
    the window of the short delays is opened anew by the first delay outside it. *)
Lemma first_reconnections :
  BackoffUntil R 1 ((λ t, mkCall t false true 0) <$> [2; 3; 4; 5; 6; 7; 8; 9; 10]) =
    (λ n, n * Millisecond) <$> [200; 200; 400; 200; 200; 200; 400; 800; 1600].
Proof. vm_compute. done. Qed.

(** After a burst the first reconnection is slow however long the last session lived: the
    count of the old window is reset only after the delay was chosen.  Here the client was
    connected for a whole day. *)
Lemma reconnect_after_long_session :
  drop 14 (BackoffUntil R 1 (((λ t, mkCall t false true 0) <$>
    [2; 3; 4; 5; 6; 7; 8; 9; 10; 11; 12; 13; 14; 15]) ++
    [mkCall (24 * Hour) false true 0; mkCall (25 * Hour) false true 0])) = [20 * Second; 200 * Millisecond].
Proof. vm_compute. done. Qed.

(** ** Witnesses *)

Lemma login_delays_witness : Z.min (10 * Second) (2 ^ 2 * Second) <= 4 * Second.
Proof.
  apply (login_delays (10 * Second) 1 [0; 0] [2; 5] 1 (4 * Second)); [by vm_compute|reflexivity| |reflexivity].
  vm_compute. repeat split; discriminate.
Defined.

Definition short_sessions : list call := (λ t, mkCall t false true 0) <$> [2; 3; 4; 5; 6; 7; 8].

Lemma reconnect_limited_witness :
  Forall (λ d, 200 * Millisecond <= d <= 20 * Second) (BackoffUntil R 1 short_sessions).
Proof.
  apply Forall_forall. apply (reconnect_limited 1 short_sessions); vm_compute; repeat split; discriminate.
Defined.
