(* ===== verification/MsgTransport.v ===== *)
(** Requests and responses on the control connection: the dispatcher of messages
    ([src/pkg/msg/handler.go]) and the transporter that hands a response to the goroutine that
    waits for it ([src/pkg/transport/message.go]).

    Channels are objects with identities.  [Do] and [DispatchWithType] run in different
    goroutines, so they are split into the steps between which others can run: registering,
    waiting, unregistering and closing the channel; looking the channel up and sending to it. *)
From Stdlib Require Import ZArith Lia Ascii String.
From stdpp Require Import base gmap strings list fin_maps.
From S2P Require Import Prelude GoStrings.
Local Open Scope string_scope.
Local Open Scope list_scope.

(** ** [Dispatcher] *)

Module Dispatcher.
Section dispatcher.
Context {Msg Kind H : Type} `{EqDecision Kind, Countable Kind}.
Variable kind : Msg → Kind.

Record t := mk { sendCh : list Msg; done : bool; handlers : gmap Kind H; defaultHandler : option H }.
Definition New : t := mk [] false ∅ None.
Definition cap : nat := 100.

Definition RegisterHandler (k : Kind) (h : H) (d : t) : t := mk (sendCh d) (done d) (<[k := h]> (handlers d)) (defaultHandler d).
Definition RegisterDefaultHandler (h : H) (d : t) : t := mk (sendCh d) (done d) (handlers d) (Some h).

(** The handler the read loop calls. *)
Definition handler_of (m : Msg) (d : t) : option H :=
  match handlers d !! kind m with Some h => Some h | None => defaultHandler d end.

(** [Send]: the queue takes the message, or the end of the connection is reported; when both
    are possible [pick_done] chooses, when none is the caller waits. *)
Inductive sent := Accepted | EOF | Waits.
Definition Send (pick_done : bool) (m : Msg) (d : t) : sent * t :=
  if done d && (pick_done || bool_decide (cap <= length (sendCh d))%nat) then (EOF, d)
  else if bool_decide (length (sendCh d) < cap)%nat then (Accepted, mk (sendCh d ++ [m]) (done d) (handlers d) (defaultHandler d))
  else (Waits, d).

(** One round of the send loop: a message that is written, or the end. *)
Definition sendLoop_step (pick_done : bool) (d : t) : option Msg * t :=
  match sendCh d with
  | m :: q => if done d && pick_done then (None, d) else (Some m, mk q (done d) (handlers d) (defaultHandler d))
  | [] => (None, d)
  end.

(** A message that cannot be read ends the connection. *)
Definition readLoop_step (m : option Msg) (d : t) : option H * t :=
  match m with
  | None => (None, mk (sendCh d) true (handlers d) (defaultHandler d))
  | Some m => (handler_of m d, d)
  end.

Inductive op := OSend (pick : bool) (m : Msg) | OWrite (pick : bool) | ORead (m : option Msg).
Definition step (x : list Msg * list Msg * t) (o : op) : list Msg * list Msg * t :=
  let '(acc, out, d) := x in
  match o with
  | OSend pick m => let '(r, d) := Send pick m d in (match r with Accepted => acc ++ [m] | _ => acc end, out, d)
  | OWrite pick => let '(m, d) := sendLoop_step pick d in (acc, match m with Some m => out ++ [m] | None => out end, d)
  | ORead m => (acc, out, snd (readLoop_step m d))
  end.

(** Messages are written in the order they were accepted, each once, and at most 100 wait. *)
Lemma sends_in_order ops :
  let '(acc, out, d) := foldl step ([], [], New) ops in acc = out ++ sendCh d ∧ (length (sendCh d) <= cap)%nat.
Proof.
  induction ops as [|o ops IH] using rev_ind; [simpl; split; [done|lia]|].
  rewrite foldl_app. destruct (foldl step _ ops) as [[acc out] d]. destruct IH as [IH Hc]. cbn [foldl step].
  destruct o as [pick m|pick|m].
  - unfold Send. destruct (done d && _); [done|]. case_bool_decide as Hl; [|done]. simpl.
    rewrite IH, app_assoc, length_app. simpl. split; [done|lia].
  - unfold sendLoop_step. destruct (sendCh d) as [|m q] eqn:E; [by rewrite E|].
    destruct (done d && pick); simpl; [by rewrite E|]. simpl in Hc. rewrite IH, <- app_assoc. split; [done|lia].
  - by destruct m.
Qed.
End dispatcher.
End Dispatcher.

(** ** [transporterImpl] *)

Section transporter.
Context {Msg : Type}.

(** The channel of a [Do]: one place, and whether it is closed. *)
Record chan := mkChan { buf : option Msg; ch_closed : bool }.

Inductive phase := Waiting | Returned (r : option Msg) | Unregistered (r : option Msg) | Finished (r : option Msg).
Record doer := mkDoer { d_type : string; d_lane : string; d_phase : phase }.

(** A dispatch that has looked its channel up. *)
Record pending := mkPending { p_msg : Msg; p_type : string; p_lane : string; p_chan : nat }.

Record transporter := mkTransporter {
  registry : gmap string (gmap string nat);
  chans : gmap nat chan;
  dos : gmap nat doer;
  pend : gmap nat pending;
  t_next : nat }.

Definition NewMessageTransporter : transporter := mkTransporter ∅ ∅ ∅ ∅ 0.

Definition reg_find (msgType laneKey : string) (t : transporter) : option nat :=
  byLane ← registry t !! msgType; byLane !! laneKey.

(** [registerMsgChan], at the start of [Do]. *)
Definition registerMsgChan (laneKey msgType : string) (t : transporter) : transporter :=
  mkTransporter (<[msgType := <[laneKey := t_next t]> (default ∅ (registry t !! msgType))]> (registry t))
    (<[t_next t := mkChan None false]> (chans t))
    (<[t_next t := mkDoer msgType laneKey Waiting]> (dos t)) (pend t) (S (t_next t)).

Definition set_phase (i : nat) (p : phase) (t : transporter) : gmap nat doer :=
  alter (λ d, mkDoer (d_type d) (d_lane d) p) i (dos t).

(** The wait of [Do]: an error of [Send] or of the context, or a message of the channel. *)
Definition Do_fails (i : nat) (t : transporter) : transporter :=
  match dos t !! i with
  | Some (mkDoer _ _ Waiting) => mkTransporter (registry t) (chans t) (set_phase i (Returned None) t) (pend t) (t_next t)
  | _ => t
  end.

Definition Do_receives (i : nat) (t : transporter) : transporter :=
  match dos t !! i, chans t !! i with
  | Some (mkDoer _ _ Waiting), Some (mkChan (Some m) c) =>
      mkTransporter (registry t) (<[i := mkChan None c]> (chans t)) (set_phase i (Returned (Some m)) t) (pend t) (t_next t)
  | _, _ => t
  end.

(** The deferred calls: [unregister] deletes by the key, then the channel is closed. *)
Definition unregister (i : nat) (t : transporter) : transporter :=
  match dos t !! i with
  | Some (mkDoer ty lane (Returned r)) =>
      mkTransporter (alter (delete lane) ty (registry t)) (chans t) (set_phase i (Unregistered r) t) (pend t) (t_next t)
  | _ => t
  end.

Definition close_chan (i : nat) (t : transporter) : transporter :=
  match dos t !! i, chans t !! i with
  | Some (mkDoer _ _ (Unregistered r)), Some c =>
      mkTransporter (registry t) (<[i := mkChan (buf c) true]> (chans t)) (set_phase i (Finished r) t) (pend t) (t_next t)
  | _, _ => t
  end.

(** [DispatchWithType] by the goroutine [g]: the lookup, false without a channel; then the
    send: a closed channel panics, which is turned into false, a full one waits. *)
Definition dispatch_lookup (g : nat) (m : Msg) (msgType laneKey : string) (t : transporter) : option bool * transporter :=
  match reg_find msgType laneKey t with
  | None => (Some false, t)
  | Some i => (None, mkTransporter (registry t) (chans t) (dos t) (<[g := mkPending m msgType laneKey i]> (pend t)) (t_next t))
  end.

Definition dispatch_send (g : nat) (t : transporter) : option bool * transporter :=
  match pend t !! g with
  | None => (None, t)
  | Some p =>
      match chans t !! p_chan p with
      | None => (None, t)
      | Some c =>
          if ch_closed c then (Some false, mkTransporter (registry t) (chans t) (dos t) (delete g (pend t)) (t_next t))
          else match buf c with
               | Some _ => (None, t)
               | None => (Some true, mkTransporter (registry t) (<[p_chan p := mkChan (Some (p_msg p)) false]> (chans t))
                                       (dos t) (delete g (pend t)) (t_next t))
               end
      end
  end.

Inductive t_op :=
| TDo (laneKey msgType : string) | TFail (i : nat) | TRecv (i : nat) | TUnreg (i : nat) | TClose (i : nat)
| TLook (g : nat) (m : Msg) (msgType laneKey : string) | TSend (g : nat).

(** A goroutine dispatches one message at a time. *)
Definition t_step (t : transporter) (o : t_op) : transporter :=
  match o with
  | TDo lane ty => registerMsgChan lane ty t
  | TFail i => Do_fails i t
  | TRecv i => Do_receives i t
  | TUnreg i => unregister i t
  | TClose i => close_chan i t
  | TLook g m ty lane => match pend t !! g with Some _ => t | None => snd (dispatch_lookup g m ty lane t) end
  | TSend g => snd (dispatch_send g t)
  end.

Definition t_run (ops : list t_op) : transporter := foldl t_step NewMessageTransporter ops.

(** What was dispatched, to which type and lane. *)
Definition dispatched (ops : list t_op) (m : Msg) (ty lane : string) : Prop := ∃ g, TLook g m ty lane ∈ ops.

Definition response (p : phase) : option Msg :=
  match p with Waiting => None | Returned r | Unregistered r | Finished r => r end.

(** Whatever is in a channel, or on its way to it, was dispatched to the type and lane of the
    [Do] that owns the channel. *)
Record t_wf (D : Msg → string → string → Prop) (t : transporter) : Prop := {
  tw_fresh : ∀ i d, dos t !! i = Some d → (i < t_next t)%nat;
  tw_reg : ∀ ty lane i, reg_find ty lane t = Some i → ∃ d, dos t !! i = Some d ∧ d_type d = ty ∧ d_lane d = lane;
  tw_buf : ∀ i c m, chans t !! i = Some c → buf c = Some m → ∃ d, dos t !! i = Some d ∧ D m (d_type d) (d_lane d);
  tw_pend : ∀ g p, pend t !! g = Some p → D (p_msg p) (p_type p) (p_lane p) ∧
    ∃ d, dos t !! p_chan p = Some d ∧ d_type d = p_type p ∧ d_lane d = p_lane p;
  tw_resp : ∀ i d m, dos t !! i = Some d → response (d_phase d) = Some m → D m (d_type d) (d_lane d);
  tw_chan : ∀ i d, dos t !! i = Some d → ∃ c, chans t !! i = Some c ∧
    (ch_closed c = true ↔ ∃ r, d_phase d = Finished r) }.

Lemma reg_find_insert ty lane ty' lane' i t :
  reg_find ty' lane' (registerMsgChan lane ty t) = Some i ↔
    (ty', lane') = (ty, lane) ∧ i = t_next t ∨ (ty', lane') ≠ (ty, lane) ∧ reg_find ty' lane' t = Some i.
Proof.
  unfold reg_find. simpl. destruct (decide (ty' = ty)) as [->|Ht].
  - rewrite lookup_insert_eq. simpl. destruct (decide (lane' = lane)) as [->|Hl].
    + rewrite lookup_insert_eq. naive_solver.
    + rewrite lookup_insert_ne by done. destruct (registry t !! ty); simpl; [naive_solver|].
      rewrite lookup_empty. naive_solver.
  - rewrite lookup_insert_ne by done. naive_solver.
Qed.

Lemma reg_find_unregister i t ty lane j d r :
  dos t !! i = Some d → d_phase d = Returned r →
  reg_find ty lane (unregister i t) = Some j ↔ reg_find ty lane t = Some j ∧ (ty, lane) ≠ (d_type d, d_lane d).
Proof.
  intros Hd Hp. destruct d as [dt dl dp]. simpl in *. subst dp. unfold unregister. rewrite Hd. unfold reg_find. simpl.
  destruct (decide (ty = dt)) as [->|Ht].
  - rewrite lookup_alter_eq. destruct (registry t !! dt) as [b|]; simpl; [|naive_solver].
    rewrite lookup_delete_Some. naive_solver.
  - rewrite lookup_alter_ne by done. naive_solver.
Qed.

Lemma set_phase_Some i p t j d' :
  set_phase i p t !! j = Some d' ↔
    ∃ d, dos t !! j = Some d ∧ d' = if decide (j = i) then mkDoer (d_type d) (d_lane d) p else d.
Proof.
  unfold set_phase. destruct (decide (j = i)) as [->|Hne].
  - rewrite lookup_alter_eq, fmap_Some. naive_solver.
  - rewrite lookup_alter_ne by done. naive_solver.
Qed.

(** A step that changes the phase of one [Do], and perhaps its channel. *)
Lemma phase_wf D t i d p reg cs c :
  t_wf D t → dos t !! i = Some d →
  (∀ m, response p = Some m → D m (d_type d) (d_lane d)) →
  (∀ ty lane j, reg_find ty lane (mkTransporter reg cs (dos t) (pend t) (t_next t)) = Some j → reg_find ty lane t = Some j) →
  cs !! i = Some c → (∀ j, j ≠ i → cs !! j = chans t !! j) →
  (∀ m, buf c = Some m → D m (d_type d) (d_lane d)) → (ch_closed c = true ↔ ∃ r, p = Finished r) →
  t_wf D (mkTransporter reg cs (set_phase i p t) (pend t) (t_next t)).
Proof.
  intros Hwf Hd Hp Hreg Hc Hcs Hb Hcl.
  assert (∀ j e, dos t !! j = Some e → ∃ e', set_phase i p t !! j = Some e' ∧ d_type e' = d_type e ∧ d_lane e' = d_lane e) as Hset.
  { intros j e He. eexists. split; [apply set_phase_Some; eauto|]. by destruct (decide (j = i)). }
  split; cbn [registry chans dos pend t_next].
  - intros j e (e' & He & _)%set_phase_Some. by eapply (tw_fresh _ _ Hwf).
  - intros ty lane j Hj. apply Hreg in Hj. destruct (tw_reg _ _ Hwf _ _ _ Hj) as (e & He & <- & <-).
    destruct (Hset _ _ He) as (e' & ? & ? & ?). eauto.
  - intros j c' m Hj Hm. destruct (decide (j = i)) as [->|Hne].
    + rewrite Hc in Hj. injection Hj as <-. destruct (Hset _ _ Hd) as (e' & ? & E1 & E2).
      exists e'. rewrite E1, E2. auto.
    + rewrite Hcs in Hj by done. destruct (tw_buf _ _ Hwf _ _ _ Hj Hm) as (e & He & HD).
      destruct (Hset _ _ He) as (e' & ? & E1 & E2). exists e'. rewrite E1, E2. auto.
  - intros g q Hq. destruct (tw_pend _ _ Hwf _ _ Hq) as (HD & e & He & E1 & E2). split; [done|].
    destruct (Hset _ _ He) as (e' & ? & E3 & E4). exists e'. by rewrite E3, E4.
  - intros j e m (e' & He & ->)%set_phase_Some. destruct (decide (j = i)) as [->|]; [|by eapply (tw_resp _ _ Hwf)].
    rewrite Hd in He. injection He as <-. simpl. apply Hp.
  - intros j e (e' & He & ->)%set_phase_Some. destruct (decide (j = i)) as [->|Hne]; [by exists c|].
    rewrite Hcs by done. by apply (tw_chan _ _ Hwf).
Qed.

Lemma t_step_wf (D : Msg → string → string → Prop) t o :
  t_wf D t → (∀ g m ty lane, o = TLook g m ty lane → D m ty lane) → t_wf D (t_step t o).
Proof.
  intros Hwf HD. destruct o as [lane ty|i|i|i|i|g m ty lane|g]; cbn [t_step].
  - assert (dos t !! t_next t = None) as Hn.
    { destruct (dos t !! t_next t) eqn:E; [|done]. apply (tw_fresh _ _ Hwf) in E. lia. }
    split; cbn [registerMsgChan registry chans dos pend t_next].
    + intros j e [[<- _]|[_ He]]%lookup_insert_Some; [lia|]. apply (tw_fresh _ _ Hwf) in He. lia.
    + intros ty' lane' j [[[= -> ->] ->]|[_ Hj]]%reg_find_insert; [rewrite lookup_insert_eq; eauto|].
      destruct (tw_reg _ _ Hwf _ _ _ Hj) as (e & He & ?). exists e. rewrite lookup_insert_ne; [done|congruence].
    + intros j c m [[<- <-]|[Hne Hj]]%lookup_insert_Some Hm; [done|]. rewrite lookup_insert_ne by done. by eapply (tw_buf _ _ Hwf).
    + intros g q Hq. destruct (tw_pend _ _ Hwf _ _ Hq) as (? & e & He & ?). split; [done|]. exists e.
      rewrite lookup_insert_ne; [done|congruence].
    + intros j e m [[<- <-]|[_ He]]%lookup_insert_Some; [done|]. by eapply (tw_resp _ _ Hwf).
    + intros j e [[<- <-]|[Hne He]]%lookup_insert_Some.
      * rewrite lookup_insert_eq. eexists. split; [done|]. split; [done|]. by intros [? ?].
      * rewrite lookup_insert_ne by done. by apply (tw_chan _ _ Hwf).
  - unfold Do_fails. destruct (dos t !! i) as [[ty lane []]|] eqn:E; try done.
    destruct (tw_chan _ _ Hwf _ _ E) as (c & Hc & Hcl).
    eapply phase_wf; try done; [|naive_solver]. intros m Hm. destruct (tw_buf _ _ Hwf _ _ _ Hc Hm) as (e & He & ?). congruence.
  - unfold Do_receives. destruct (dos t !! i) as [[ty lane []]|] eqn:E; try done.
    destruct (chans t !! i) as [[[m|] c]|] eqn:Ec; try done.
    destruct (tw_buf _ _ Hwf _ _ m Ec eq_refl) as (e & He & Hm). rewrite E in He. injection He as <-.
    destruct (tw_chan _ _ Hwf _ _ E) as (c' & Hc' & Hcl). rewrite Ec in Hc'. injection Hc' as <-.
    eapply (phase_wf D t i _ _ _ _ (mkChan None c) Hwf E); [naive_solver|done|by rewrite lookup_insert_eq| |done|naive_solver].
    intros j Hj. by rewrite lookup_insert_ne.
  - destruct (dos t !! i) as [d|] eqn:E; [|by unfold unregister; rewrite E].
    destruct (d_phase d) as [|r|r|r] eqn:Ep; destruct d as [ty lane p]; simpl in Ep; subst p; try (by unfold unregister; rewrite E).
    destruct (tw_chan _ _ Hwf _ _ E) as (c & Hc & Hcl).
    pose proof (λ ty' lane' j, proj1 (reg_find_unregister i t ty' lane' j _ r E eq_refl)) as Hreg.
    unfold unregister in *. rewrite E in *.
    eapply phase_wf; try done; [|..|naive_solver].
    + intros m Hm. by apply (tw_resp _ _ Hwf i _ m E).
    + intros ty' lane' j Hj. by apply Hreg in Hj as [? _].
    + intros m Hm. destruct (tw_buf _ _ Hwf _ _ _ Hc Hm) as (e & He & ?). congruence.
  - unfold close_chan. destruct (dos t !! i) as [[ty lane []]|] eqn:E; try done.
    destruct (chans t !! i) as [c|] eqn:Ec; [|done].
    eapply (phase_wf D t i _ _ _ _ (mkChan (buf c) true) Hwf E); [|done|by rewrite lookup_insert_eq| | |naive_solver].
    + intros m Hm. by apply (tw_resp _ _ Hwf i _ m E).
    + intros j Hj. by rewrite lookup_insert_ne.
    + intros m Hm. destruct (tw_buf _ _ Hwf _ _ _ Ec Hm) as (e & He & ?). congruence.
  - destruct (pend t !! g) eqn:Eg; [done|]. unfold dispatch_lookup. destruct (reg_find ty lane t) as [i|] eqn:E; [|done]. simpl.
    split; cbn [registry chans dos pend t_next]; try apply Hwf.
    intros g' q [[<- <-]|[_ Hq]]%lookup_insert_Some; [|exact (tw_pend _ _ Hwf _ _ Hq)]. simpl.
    split; [by eapply HD|]. destruct (tw_reg _ _ Hwf _ _ _ E) as (d & ? & ? & ?). eauto.
  - unfold dispatch_send. destruct (pend t !! g) as [q|] eqn:Eg; [|done].
    destruct (chans t !! p_chan q) as [c|] eqn:Ec; [|done].
    assert (∀ g' p, delete g (pend t) !! g' = Some p → pend t !! g' = Some p) as Hdel.
    { intros g' p [_ ?]%lookup_delete_Some. done. }
    destruct (ch_closed c) eqn:Hcl; [|destruct (buf c) eqn:Hb; [done|]]; simpl.
    + split; cbn [registry chans dos pend t_next]; try apply Hwf. intros g' p Hp%Hdel. exact (tw_pend _ _ Hwf g' p Hp).
    + destruct (tw_pend _ _ Hwf _ _ Eg) as (HDq & d & Hd & Ht & Hl).
      split; cbn [registry chans dos pend t_next]; try apply Hwf.
      * intros j c' m [[<- <-]|[_ Hj]]%lookup_insert_Some; [|exact (tw_buf _ _ Hwf _ _ m Hj)]. simpl. intros [= <-].
        exists d. by rewrite Ht, Hl.
      * intros g' p Hp%Hdel. exact (tw_pend _ _ Hwf g' p Hp).
      * intros j e He. destruct (tw_chan _ _ Hwf _ _ He) as (c' & Hc' & Hx). destruct (decide (j = p_chan q)) as [->|Hne].
        -- rewrite lookup_insert_eq. eexists. split; [done|]. rewrite Ec in Hc'. injection Hc' as <-. simpl. by rewrite <- Hx, Hcl.
        -- rewrite lookup_insert_ne by done. eauto.
Qed.

Lemma t_run_wf ops : t_wf (dispatched ops) (t_run ops).
Proof.
  assert (∀ pre, pre `prefix_of` ops → t_wf (dispatched ops) (t_run pre)) as H; [|by apply H].
  unfold t_run. induction pre as [|o pre IH] using rev_ind; intros Hpre.
  { split; intros *; simpl; rewrite ?lookup_empty; done. }
  rewrite foldl_app. simpl. apply t_step_wf; [apply IH; by eapply prefix_app_l|].
  intros g m ty lane ->. exists g. destruct Hpre as [k ->]. rewrite !elem_of_app, list_elem_of_singleton. auto.
Qed.

(** No two requests use one type and lane. *)
Definition lanes_unique (t : transporter) : Prop :=
  ∀ i j d e, dos t !! i = Some d → dos t !! j = Some e → (d_type d, d_lane d) = (d_type e, d_lane e) → i = j.

Definition live (p : phase) : bool := match p with Waiting | Returned _ => true | _ => false end.

(** A [Do] of the table before a step is in it afterwards, with its type and lane, and not
    livelier. *)
Lemma t_step_doers t o i d :
  dos t !! i = Some d → (i < t_next t)%nat →
  ∃ d', dos (t_step t o) !! i = Some d' ∧ d_type d' = d_type d ∧ d_lane d' = d_lane d ∧
    (live (d_phase d') = true → live (d_phase d) = true).
Proof.
  intros Hd Hi.
  assert (∀ j p, (j = i → live p = true → live (d_phase d) = true) →
    ∃ d', set_phase j p t !! i = Some d' ∧ d_type d' = d_type d ∧ d_lane d' = d_lane d ∧
      (live (d_phase d') = true → live (d_phase d) = true)) as Hset.
  { intros j p Hp. eexists. split; [apply set_phase_Some; eauto|]. destruct (decide (i = j)) as [->|]; [|done].
    simpl. split_and!; [done..|]. by apply Hp. }
  assert (∃ d', dos t !! i = Some d' ∧ d_type d' = d_type d ∧ d_lane d' = d_lane d ∧
      (live (d_phase d') = true → live (d_phase d) = true)) as Hid by (exists d; auto).
  destruct o as [lane ty|j|j|j|j|g m ty lane|g]; cbn [t_step].
  - simpl. rewrite lookup_insert_ne by lia. done.
  - unfold Do_fails. repeat case_match; try done. apply Hset. intros ->. simpl. naive_solver.
  - unfold Do_receives. repeat case_match; try done. apply Hset. intros ->. simpl. naive_solver.
  - unfold unregister. repeat case_match; try done. by apply Hset.
  - unfold close_chan. repeat case_match; try done. by apply Hset.
  - unfold dispatch_lookup. repeat case_match; done.
  - unfold dispatch_send. repeat case_match; done.
Qed.

Lemma live_registered D t o :
  t_wf D t → lanes_unique (t_step t o) →
  (∀ i d, dos t !! i = Some d → live (d_phase d) = true → reg_find (d_type d) (d_lane d) t = Some i) →
  (∀ i d, dos (t_step t o) !! i = Some d → live (d_phase d) = true → reg_find (d_type d) (d_lane d) (t_step t o) = Some i).
Proof.
  intros Hwf Hu IH i d' Hd' Hl.
  destruct (decide (i < t_next t ∧ is_Some (dos t !! i))%nat) as [[Hi [d Hd]]|Hno].
  - destruct (t_step_doers t o i d Hd Hi) as (e & He & Ht & Hla & Hlv). rewrite Hd' in He. injection He as <-.
    pose proof (IH i d Hd (Hlv Hl)) as Hr. rewrite Ht, Hla in *.
    destruct o as [lane ty|j|j|j|j|g m ty lane|g]; cbn [t_step] in *.
    + apply reg_find_insert. right. split; [|done]. intros [= E1 E2].
      assert (i = t_next t); [|lia]. eapply Hu; [exact Hd'|simpl; apply lookup_insert_eq|]. simpl. congruence.
    + unfold Do_fails. repeat case_match; done.
    + unfold Do_receives. repeat case_match; done.
    + destruct (dos t !! j) as [b|] eqn:Ej; [|by unfold unregister; rewrite Ej].
      destruct (d_phase b) as [|r|r|r] eqn:Ep; destruct b as [bt bl bp]; simpl in Ep; subst bp; try (by unfold unregister; rewrite Ej).
      apply (reg_find_unregister j t _ _ _ _ r Ej eq_refl). split; [done|]. simpl. intros [= E1 E2].
      assert (j = i) as ->; [|].
      { rewrite E1, E2 in Hr. pose proof (IH j _ Ej eq_refl) as Hj. simpl in Hj. congruence. }
      unfold unregister in Hd'. rewrite Ej in Hd'. apply set_phase_Some in Hd' as (x & _ & ->).
      rewrite decide_True in Hl by done. done.
    + unfold close_chan. repeat case_match; done.
    + unfold dispatch_lookup. repeat case_match; done.
    + unfold dispatch_send. repeat case_match; done.
  - assert (i = t_next t ∧ ∃ lane ty, o = TDo lane ty ∧ d' = mkDoer ty lane Waiting) as (-> & lane & ty & -> & ->).
    { assert (dos t !! i = None) as Hn.
      { destruct (dos t !! i) eqn:E; [|done]. destruct Hno. split; [by eapply (tw_fresh _ _ Hwf)|eauto]. }
      assert (∀ j p, set_phase j p t !! i = Some d' → False) as Hs.
      { intros j p (x & Hx & _)%set_phase_Some. congruence. }
      destruct o as [lane ty|j|j|j|j|g m ty lane|g]; cbn [t_step] in Hd'.
      - simpl in Hd'. apply lookup_insert_Some in Hd' as [[<- <-]|[_ ?]]; [eauto|congruence].
      - exfalso. revert Hd'. unfold Do_fails. repeat case_match; simpl; try congruence; by eauto.
      - exfalso. revert Hd'. unfold Do_receives. repeat case_match; simpl; try congruence; by eauto.
      - exfalso. revert Hd'. unfold unregister. repeat case_match; simpl; try congruence; by eauto.
      - exfalso. revert Hd'. unfold close_chan. repeat case_match; simpl; try congruence; by eauto.
      - exfalso. revert Hd'. unfold dispatch_lookup. repeat case_match; simpl; congruence.
      - exfalso. revert Hd'. unfold dispatch_send. repeat case_match; simpl; congruence. }
    simpl. apply reg_find_insert. by left.
Qed.

(** The lanes of a longer run are more. *)
Lemma lanes_unique_prefix D t o : t_wf D t → lanes_unique (t_step t o) → lanes_unique t.
Proof.
  intros Hwf Hu i j d e Hd He Heq.
  destruct (t_step_doers t o i d Hd (tw_fresh _ _ Hwf _ _ Hd)) as (d' & Hd' & T1 & L1 & _).
  destruct (t_step_doers t o j e He (tw_fresh _ _ Hwf _ _ He)) as (e' & He' & T2 & L2 & _).
  eapply Hu; [done..|]. by rewrite T1, L1, T2, L2.
Qed.

Lemma t_run_registered ops :
  lanes_unique (t_run ops) →
  ∀ i d, dos (t_run ops) !! i = Some d → live (d_phase d) = true → reg_find (d_type d) (d_lane d) (t_run ops) = Some i.
Proof.
  induction ops as [|o ops IH] using rev_ind; [done|]. unfold t_run. rewrite foldl_app. cbn [foldl]. fold (t_run ops).
  intros Hu. pose proof (t_run_wf ops) as Hwf. apply (live_registered _ _ _ Hwf Hu). apply IH.
  by apply (lanes_unique_prefix _ _ _ Hwf Hu).
Qed.

(** A request gets a response to it, and the connection never hangs on one that nobody
    takes.  In every interleaving of requests and dispatched messages: what [Do] returns was
    dispatched to its type and lane; when requests use different lanes, a message dispatched
    to the lane of a request that still waits finds its channel; and a dispatch that has to
    wait, because the channel is full, ends after steps of the request alone: it receives, or
    it unregisters and closes the channel. *)
Theorem responses_reach_requests ops :
  let t := t_run ops in
  (∀ i d m, dos t !! i = Some d → response (d_phase d) = Some m → dispatched ops m (d_type d) (d_lane d)) ∧
  (lanes_unique t → ∀ i d g m, dos t !! i = Some d → d_phase d = Waiting → pend t !! g = None →
     pend (t_step t (TLook g m (d_type d) (d_lane d))) !! g = Some (mkPending m (d_type d) (d_lane d) i)) ∧
  (∀ g p, pend t !! g = Some p →
     let i := p_chan p in
     is_Some (fst (dispatch_send g t)) ∨ is_Some (fst (dispatch_send g (t_step t (TRecv i)))) ∨
     is_Some (fst (dispatch_send g (t_step (t_step t (TUnreg i)) (TClose i))))).
Proof.
  intros t. pose proof (t_run_wf ops : t_wf _ t) as Hwf. split_and!.
  - apply (tw_resp _ _ Hwf).
  - intros Hu i d g m Hd Hp Hg. simpl. rewrite Hg. unfold dispatch_lookup.
    assert (reg_find (d_type d) (d_lane d) t = Some i) as -> by (apply (t_run_registered ops Hu i d Hd); by rewrite Hp). simpl. by rewrite lookup_insert_eq.
  - intros g [pm pt pl i] Hg. destruct (tw_pend _ _ Hwf _ _ Hg) as (_ & d & Hd & _). cbn [p_chan] in *.
    destruct (tw_chan _ _ Hwf _ _ Hd) as (c & Hc & Hcl).
    destruct (ch_closed c) eqn:Ec; [left; unfold dispatch_send; rewrite Hg; cbn [p_chan]; rewrite Hc, Ec; eauto|].
    destruct (buf c) as [m|] eqn:Eb; [|left; unfold dispatch_send; rewrite Hg; cbn [p_chan]; rewrite Hc, Ec, Eb; eauto].
    right. destruct d as [ty lane ph]. destruct ph as [|r|r|r].
    + left. unfold t_step, Do_receives. rewrite Hd, Hc. destruct c as [cb cc]. simpl in *. subst cb.
      unfold dispatch_send. simpl. rewrite Hg. cbn [p_chan]. rewrite lookup_insert_eq. simpl. subst cc. eauto.
    + right. unfold t_step, unregister. rewrite Hd. unfold close_chan. simpl. unfold set_phase at 1.
      rewrite lookup_alter_eq, Hd, Hc. simpl. unfold dispatch_send. simpl. rewrite Hg. cbn [p_chan]. rewrite lookup_insert_eq. eauto.
    + right. unfold t_step, unregister. rewrite Hd. unfold close_chan. rewrite Hd, Hc.
      unfold dispatch_send. simpl. rewrite Hg. cbn [p_chan]. rewrite lookup_insert_eq. eauto.
    + simpl in Hcl. destruct Hcl as [_ H]. discriminate H. eauto.
Qed.

(** With one lane for two requests, the end of the first takes the channel of the second out
    of the registry: its response is lost. *)
Lemma shared_lane_loses_response m :
  let t := t_run [TDo "l" "R"; TDo "l" "R"; TFail 0; TUnreg 0; TClose 0] in
  (dos t !! 1%nat = Some (mkDoer "R" "l" Waiting)) ∧ fst (dispatch_lookup 0 m "R" "l" t) = Some false.
Proof. split; reflexivity. Qed.
End transporter.

(** ** Witness: one request that waits *)

Lemma responses_reach_requests_witness :
  pend (t_step (t_run (Msg := nat) [TDo "l" "R"]) (TLook 0 7 "R" "l")) !! 0%nat = Some (mkPending 7 "R" "l" 0).
Proof.
  apply (proj1 (proj2 (responses_reach_requests [TDo "l" "R"])) ) with (d := mkDoer "R" "l" Waiting); try reflexivity.
  intros i j d e Hi Hj _.
  assert (∀ k x, dos (t_run (Msg := nat) [TDo "l" "R"]) !! k = Some x → k = 0%nat) as Hk; [|by rewrite (Hk i d Hi), (Hk j e Hj)].
  intros k x Hx. change (dos _) with ({[0%nat := mkDoer (Msg := nat) "R" "l" Waiting]} : gmap nat doer) in Hx.
  by apply lookup_singleton_Some in Hx as [<- _].
Defined.
