(* ===== verification/ClientService.v ===== *)
(** The client's service ([src/client/service.go]) and its sessions with the server
    ([src/client/control.go]): logging in, replacing the session, applying a new configuration,
    heartbeats and the end.

    A session ([CControl]) is an object with an identity, with its proxy manager and its
    visitor manager.  One goroutine logs in, others apply configurations or stop the service;
    they are split into the steps between which others can run.  The goroutine that logs in
    copies the configuration, sets the new session up with the copy, and only then makes it
    the session of the service. *)
From Stdlib Require Import ZArith Lia Ascii String.
From stdpp Require Import base gmap strings list fin_maps.
From S2P Require Import Prelude GoStrings Auth ProxyConf VisitorConf PluginConf ClientProxy Visitors VisitorManager.
Local Open Scope string_scope.
Local Open Scope list_scope.

(** ** [login] *)

Record login_env := mkLoginEnv {
  le_open : bool;                     (* connector.Open *)
  le_connect : bool;                  (* connector.Connect *)
  le_set : option Login;              (* the message with its authentication *)
  le_write : bool;
  le_resp : option (string * string)  (* Error and RunID of the answer *) }.

(** What is open afterwards: the connector, and the connection it gave. *)
Record login_held := mkHeld { h_connector : bool; h_conn : bool }.

(** [Connector.Close] closes the connections that are streams of it: with [tcpMux] or quic. *)
Definition connector_Close (streams : bool) (h : login_held) : login_held :=
  mkHeld false (h_conn h && negb streams).

Inductive login_failure := OpenFailed | ConnectFailed | AuthSetFailed | WriteFailed | ReadFailed | LoginRefused (e : string).

Definition loginMsg (os arch host version user clientID runID : string) (pool now : Z) (metas : gmap string string)
    (spec : option ClientSpec) : Login :=
  mkLogin version host os arch user "" now runID clientID metas (default (mkClientSpec "" false) spec) pool.

(** The deferred function closes the connector on every error after [Open]. *)
Definition client_login (streams : bool) (e : login_env) : result login_failure string * login_held :=
  if negb (le_open e) then (Err OpenFailed, mkHeld false false)
  else if negb (le_connect e) then (Err ConnectFailed, connector_Close streams (mkHeld true false))
  else match le_set e with
       | None => (Err AuthSetFailed, connector_Close streams (mkHeld true true))
       | Some _ =>
           if negb (le_write e) then (Err WriteFailed, connector_Close streams (mkHeld true true))
           else match le_resp e with
                | None => (Err ReadFailed, connector_Close streams (mkHeld true true))
                | Some (err, runID) =>
                    if negb (err =s? "") then (Err (LoginRefused err), connector_Close streams (mkHeld true true))
                    else (Ok runID, mkHeld true true)
                end
       end.

(** A login that fails leaves no connector open, and no connection where connections are
    streams; without multiplexing the connection of a refused login stays open. *)
Lemma client_login_held streams e err h :
  client_login streams e = (Err err, h) →
  h_connector h = false ∧ (streams = true → h_conn h = false) ∧
  (streams = false → h_conn h = true ↔ le_open e = true ∧ le_connect e = true).
Proof.
  unfold client_login, connector_Close. destruct (le_open e), (le_connect e); simpl;
    repeat case_match; intros; simplify_eq/=; destruct streams; simpl; naive_solver.
Qed.

(** ** Sessions *)

Section service.
(** [ClientCommonConfig.User]. *)
Variable User : string.

Abbreviation proxy_conf := (ProxyConfigurer TypedClientPluginOptions).
Abbreviation pmanager := (Manager (plugin := TypedClientPluginOptions)).

Record CControl := mkCControl { c_pm : pmanager; c_vm : vManager; c_closed : bool; c_done : bool }.

Definition CNewControl : CControl := mkCControl NewManager vm_NewManager false false.

Definition c_Run (env : outcomes) (ps : list proxy_conf) (vs : list VisitorConfigurer) (c : CControl) : CControl :=
  let c := mkCControl (UpdateAll User ps (c_pm c)) (c_vm c) (c_closed c) (c_done c) in
  mkCControl (c_pm c) (vm_UpdateAll env vs (c_vm c)) (c_closed c) (c_done c).

(** [UpdateAllConfigurer]: the visitors first. *)
Definition c_UpdateAllConfigurer (env : outcomes) (ps : list proxy_conf) (vs : list VisitorConfigurer) (c : CControl) : CControl :=
  let c := mkCControl (c_pm c) (vm_UpdateAll env vs (c_vm c)) (c_closed c) (c_done c) in
  mkCControl (UpdateAll User ps (c_pm c)) (c_vm c) (c_closed c) (c_done c).

(** [GracefulClose], and the end of [worker] when the control connection is gone. *)
Definition c_GracefulClose (c : CControl) : CControl :=
  mkCControl (pm_Close User (c_pm c)) (vm_Close (c_vm c)) true (c_done c).
Definition c_worker_exit (c : CControl) : CControl :=
  mkCControl (pm_Close User (c_pm c)) (vm_Close (c_vm c)) true true.

(** [handlePong] and the check of [heartbeatWorker], every second: the time of the last pong
    without an error, and whether the session is closed. *)
Definition c_handlePong (now : time) (err : string) (x : time * bool) : time * bool :=
  if negb (err =s? "") then (fst x, true) else (now, snd x).
Definition c_heartbeat_check (interval timeout : Z) (now : time) (x : time * bool) : time * bool :=
  if (0 <? interval)%Z && (0 <? timeout)%Z && (timeout * Second <? time_sub now (fst x))%Z then (fst x, true) else x.

(** ** The service *)

Inductive login_phase :=
| LIdle
| LRead (ps : list proxy_conf) (vs : list VisitorConfigurer)   (* logged in, configuration copied *)
| LRan (id : nat).                                             (* the new session is set up *)

Inductive update_phase := UIdle | UStored | UChecked | UPanic.

Record CService := mkCService {
  ctls : gmap nat CControl;
  cs_next : nat;
  cs_ctl : option nat;                   (* svr.ctl *)
  cs_ps : list proxy_conf; cs_vs : list VisitorConfigurer;
  cs_login : login_phase;
  cs_update : update_phase;
  cs_stopped : bool }.

Definition CNewService (ps : list proxy_conf) (vs : list VisitorConfigurer) : CService :=
  mkCService ∅ 0 None ps vs LIdle UIdle false.

Definition set_ctls (m : gmap nat CControl) (s : CService) : CService :=
  mkCService m (cs_next s) (cs_ctl s) (cs_ps s) (cs_vs s) (cs_login s) (cs_update s) (cs_stopped s).
Definition set_login (l : login_phase) (s : CService) : CService :=
  mkCService (ctls s) (cs_next s) (cs_ctl s) (cs_ps s) (cs_vs s) l (cs_update s) (cs_stopped s).
Definition set_update (u : update_phase) (s : CService) : CService :=
  mkCService (ctls s) (cs_next s) (cs_ctl s) (cs_ps s) (cs_vs s) (cs_login s) u (cs_stopped s).

(** The function of [loopLoginUntilSuccess], after a login that succeeded. *)
Definition login_read (s : CService) : CService :=
  match cs_login s with LIdle => set_login (LRead (cs_ps s) (cs_vs s)) s | _ => s end.

(** [NewControl] and [ctl.Run]; without encryption no session is made and the loop goes on. *)
Definition login_run (env : outcomes) (crypto_ok : bool) (s : CService) : CService :=
  match cs_login s with
  | LRead ps vs =>
      if crypto_ok then
        mkCService (<[cs_next s := c_Run env ps vs CNewControl]> (ctls s)) (S (cs_next s)) (cs_ctl s) (cs_ps s) (cs_vs s)
          (LRan (cs_next s)) (cs_update s) (cs_stopped s)
      else set_login LIdle s
  | _ => s
  end.

Definition close_old (id : option nat) (m : gmap nat CControl) : gmap nat CControl :=
  match id with Some i => alter c_GracefulClose i m | None => m end.

Definition login_swap (s : CService) : CService :=
  match cs_login s with
  | LRan id => mkCService (close_old (cs_ctl s) (ctls s)) (cs_next s) (Some id) (cs_ps s) (cs_vs s) LIdle (cs_update s) (cs_stopped s)
  | _ => s
  end.

(** [Service.UpdateAllConfigurer]: store; look at [svr.ctl]; then use [svr.ctl], read again.
    A nil pointer there is a panic. *)
Definition update_store (ps : list proxy_conf) (vs : list VisitorConfigurer) (s : CService) : CService :=
  match cs_update s with
  | UIdle => mkCService (ctls s) (cs_next s) (cs_ctl s) ps vs (cs_login s) UStored (cs_stopped s)
  | _ => s
  end.
Definition update_check (s : CService) : CService :=
  match cs_update s with
  | UStored => set_update (match cs_ctl s with None => UIdle | Some _ => UChecked end) s
  | _ => s
  end.
Definition update_apply (env : outcomes) (s : CService) : CService :=
  match cs_update s with
  | UChecked =>
      match cs_ctl s with
      | None => set_update UPanic s
      | Some id => set_update UIdle (set_ctls (alter (c_UpdateAllConfigurer env (cs_ps s) (cs_vs s)) id (ctls s)) s)
      end
  | _ => s
  end.

(** The part of [stop] that concerns the session. *)
Definition service_stop (s : CService) : CService :=
  mkCService (close_old (cs_ctl s) (ctls s)) (cs_next s) None (cs_ps s) (cs_vs s) (cs_login s) (cs_update s) true.

Inductive s_op :=
| SRead | SRun (env : outcomes) (crypto_ok : bool) | SSwap
| SStore (ps : list proxy_conf) (vs : list VisitorConfigurer) | SCheck | SApply (env : outcomes)
| SStop
| SExit (id : nat)                                    (* the connection of a session ends *)
| SEvent (id : nat) (name : string) (e : wevent)      (* of a proxy of a session *)
| STick (id : nat) (env : outcomes).                  (* of the visitors of a session *)

Definition s_step (s : CService) (o : s_op) : CService :=
  match o with
  | SRead => login_read s
  | SRun env ok => login_run env ok s
  | SSwap => login_swap s
  | SStore ps vs => update_store ps vs s
  | SCheck => update_check s
  | SApply env => update_apply env s
  | SStop => service_stop s
  | SExit id => set_ctls (alter c_worker_exit id (ctls s)) s
  | SEvent id n e => set_ctls (alter (λ c, mkCControl (pm_event User n e (c_pm c)) (c_vm c) (c_closed c) (c_done c)) id (ctls s)) s
  | STick id env => set_ctls (alter (λ c, mkCControl (c_pm c) (vm_step (c_vm c) (VTick env)) (c_closed c) (c_done c)) id (ctls s)) s
  end.

Definition named_apart (ps : list proxy_conf) (vs : list VisitorConfigurer) : Prop :=
  NoDup (cfg_name <$> ps) ∧ NoDup (vname <$> vs).

(** The steps of a run: configurations have different names, and no update is stored between
    the copy of a login and the end of it. *)
Fixpoint undisturbed (s : CService) (ops : list s_op) : Prop :=
  match ops with
  | [] => True
  | o :: ops =>
      match o with SStore ps vs => named_apart ps vs ∧ cs_login s = LIdle | _ => True end ∧
      undisturbed (s_step s o) ops
  end.

(** The session runs exactly the configuration. *)
Definition configured (ps : list proxy_conf) (vs : list VisitorConfigurer) (c : CControl) : Prop :=
  (∀ n, is_Some (pm_proxies (c_pm c) !! n) ↔ n ∈ cfg_name <$> ps) ∧
  (∀ p, p ∈ ps → ∃ id pw, pm_proxies (c_pm c) !! cfg_name p = Some (id, pw) ∧ Cfg pw = p) ∧
  (∀ n v, GetVisitorCfg n (c_vm c) = Some v ↔ v ∈ vs ∧ vname v = n).

Definition c_wf (c : CControl) : Prop := pm_wf (c_pm c) ∧ vm_wf (c_vm c).

Lemma CNewControl_wf : c_wf CNewControl.
Proof.
  split; [exact (pm_run_wf User [])|exact (vm_run_wf [])].
Qed.

Lemma pm_updated (ps : list proxy_conf) (m : pmanager) :
  pm_wf m → NoDup (cfg_name <$> ps) →
  (∀ n, is_Some (pm_proxies (UpdateAll User ps m) !! n) ↔ n ∈ cfg_name <$> ps) ∧
  (∀ p, p ∈ ps → ∃ id pw, pm_proxies (UpdateAll User ps m) !! cfg_name p = Some (id, pw) ∧ Cfg pw = p).
Proof.
  intros Hwf Hnd. split; [intros n; by apply update_names|]. intros p Hp.
  destruct (update_lookup User ps m p Hwf Hnd Hp) as (id & pw & ? & ? & _). eauto.
Qed.

(** Setting a session up and updating it give it the configuration. *)
Lemma c_updated env ps vs c :
  c_wf c → named_apart ps vs →
  c_wf (c_Run env ps vs c) ∧ configured ps vs (c_Run env ps vs c) ∧
  c_wf (c_UpdateAllConfigurer env ps vs c) ∧ configured ps vs (c_UpdateAllConfigurer env ps vs c).
Proof.
  intros [Hp Hv] [Np Nv]. destruct (pm_updated ps (c_pm c) Hp Np) as [H1 H2].
  pose proof (update_cfgs env vs (c_vm c) Hv Nv) as H3. pose proof (update_wf User ps (c_pm c) Hp Np) as H4.
  destruct (update_halves env vs (c_vm c) Hv Nv) as (_ & H5 & _). by split_and!.
Qed.

Lemma c_closed_wf c : c_wf c → c_wf (c_GracefulClose c) ∧ c_wf (c_worker_exit c).
Proof. intros [Hp Hv]. split; (split; [by apply close_wf|by apply vm_Close_spec]). Qed.

(** Events of proxies and ticks of visitors do not change the configuration of a session. *)
Lemma c_event n e c :
  c_wf c → let c' := mkCControl (pm_event User n e (c_pm c)) (c_vm c) (c_closed c) (c_done c) in
  c_wf c' ∧ ∀ ps vs, configured ps vs c → configured ps vs c'.
Proof.
  intros [Hp Hv] c'. split; [split; [by apply event_wf|done]|]. intros ps vs (H1 & H2 & H3).
  assert (∀ k, (∀ id pw, pm_proxies (c_pm c) !! k = Some (id, pw) →
      ∃ pw', pm_proxies (pm_event User n e (c_pm c)) !! k = Some (id, pw') ∧ Cfg pw' = Cfg pw) ∧
    (is_Some (pm_proxies (pm_event User n e (c_pm c)) !! k) → is_Some (pm_proxies (c_pm c) !! k))) as Hk.
  { intros k. unfold pm_event. destruct (pm_proxies (c_pm c) !! n) as [[id pw]|] eqn:En; [|by eauto].
    destruct (not_stop e) eqn:He; [|by eauto].
    pose proof (step_live User pw e He (pw_live _ Hp _ _ _ En)) as [_ Hc].
    destruct (wstep User pw e) as [ms pw']. simpl in *. destruct (decide (k = n)) as [->|Hne].
    - rewrite lookup_insert_eq, En. split; [|by eauto]. intros id' q [= <- <-]. eauto.
    - rewrite lookup_insert_ne by done. eauto. }
  split_and!; [|intros p Hin; destruct (H2 p Hin) as (id & pw & E & <-)|done].
  - intros k. rewrite <- H1. simpl. split; [apply Hk|]. intros [[id pw] E]. destruct (Hk k) as [Hk' _].
    destruct (Hk' _ _ E) as (pw' & ? & _). eauto.
  - destruct (Hk (cfg_name (Cfg pw))) as [Hk' _]. destruct (Hk' _ _ E) as (pw' & ? & ?). eauto.
Qed.

Lemma c_tick env c :
  c_wf c → let c' := mkCControl (c_pm c) (vm_step (c_vm c) (VTick env)) (c_closed c) (c_done c) in
  c_wf c' ∧ ∀ ps vs, configured ps vs c → configured ps vs c'.
Proof.
  intros [Hp Hv] c'. destruct (tick_spec env (c_vm c) Hv) as (H1 & _ & H2 & _). split.
  - split; [done|]. simpl. by destruct (m_keeper (c_vm c)).
  - intros ps vs (A & B & C). split_and!; [done..|]. intros n v. rewrite <- C. unfold GetVisitorCfg. simpl.
    destruct (m_keeper (c_vm c)); [by rewrite H2|done].
Qed.

(** *** The invariant *)

Record s_inv (s : CService) : Prop := {
  si_wf : ∀ id c, ctls s !! id = Some c → c_wf c ∧ (id < cs_next s)%nat;
  si_apart : named_apart (cs_ps s) (cs_vs s);
  si_read : ∀ ps vs, cs_login s = LRead ps vs → ps = cs_ps s ∧ vs = cs_vs s;
  si_ran : ∀ id, cs_login s = LRan id → cs_ctl s ≠ Some id ∧ (id < cs_next s)%nat ∧
    ∀ c, ctls s !! id = Some c → c_closed c = false → configured (cs_ps s) (cs_vs s) c;
  si_ctl : ∀ id c, cs_update s = UIdle → cs_ctl s = Some id → ctls s !! id = Some c → c_closed c = false →
    configured (cs_ps s) (cs_vs s) c;
  si_id : ∀ id, cs_ctl s = Some id → (id < cs_next s)%nat;
  si_open : ∀ id c, ctls s !! id = Some c → c_closed c = false → cs_ctl s = Some id ∨ cs_login s = LRan id }.

(** Steps of one session, among them its end. *)
Lemma s_inv_alter f id s :
  s_inv s →
  (∀ c, c_wf c → c_wf (f c) ∧ (c_closed (f c) = false → c_closed c = false ∧
     ∀ ps vs, configured ps vs c → configured ps vs (f c))) →
  s_inv (set_ctls (alter f id (ctls s)) s).
Proof.
  intros Hi Hf.
  assert (∀ j c', alter f id (ctls s) !! j = Some c' → ∃ c, ctls s !! j = Some c ∧ c_wf c' ∧
    (c_closed c' = false → c_closed c = false ∧ ∀ ps vs, configured ps vs c → configured ps vs c')) as Ha.
  { intros j c' [(-> & c & Hc & ->)|[_ Hc]]%lookup_alter_Some.
    - exists c. split; [done|]. by apply Hf, (si_wf _ Hi j).
    - exists c'. split; [done|]. split; [by apply (si_wf _ Hi j)|auto]. }
  split; cbn [set_ctls ctls cs_next cs_ctl cs_ps cs_vs cs_login cs_update].
  - intros j c' (c & Hc & ? & _)%Ha. split; [done|]. by apply (si_wf _ Hi j c).
  - apply (si_apart _ Hi).
  - apply (si_read _ Hi).
  - intros j Hj. destruct (si_ran _ Hi j Hj) as (? & ? & H). split_and!; [done..|].
    intros c' (c & Hc & _ & Hx)%Ha Ho. destruct (Hx Ho). eauto.
  - intros j c' Hu Hj (c & Hc & _ & Hx)%Ha Ho. destruct (Hx Ho) as [? Hx']. by eapply Hx', (si_ctl _ Hi).
  - apply (si_id _ Hi).
  - intros j c' (c & Hc & _ & Hx)%Ha Ho. destruct (Hx Ho). by apply (si_open _ Hi j c).
Qed.

Lemma s_inv_close_old id s : s_inv s → s_inv (set_ctls (close_old id (ctls s)) s).
Proof.
  intros Hi. destruct id as [i|]; [|by destruct s]. apply s_inv_alter; [done|]. intros c Hc.
  split; [by apply c_closed_wf|done].
Qed.

Lemma close_old_closed i m c : close_old (Some i) m !! i = Some c → c_closed c = true.
Proof. simpl. rewrite lookup_alter_eq. by intros (d & _ & ->)%fmap_Some. Qed.

Lemma s_step_inv s o :
  s_inv s → match o with SStore ps vs => named_apart ps vs ∧ cs_login s = LIdle | _ => True end → s_inv (s_step s o).
Proof.
  intros Hi Ho. destruct o as [|env ok| |ps vs| |env| |id|id n e|id env]; cbn [s_step].
  - unfold login_read. destruct (cs_login s) eqn:E; try done. destruct Hi as [A B C D F G H].
    split; cbn [set_login ctls cs_next cs_ctl cs_ps cs_vs cs_login cs_update]; try done.
    + by intros ps vs [= <- <-].
    + intros id c Hc Hcl. destruct (H id c Hc Hcl) as [?|?]; [by left|congruence].
  - unfold login_run. destruct (cs_login s) as [|ps vs|] eqn:E; try done. destruct Hi as [A B C D F G H].
    destruct (C _ _ E) as [-> ->]. destruct ok.
    2:{ split; cbn [set_login ctls cs_next cs_ctl cs_ps cs_vs cs_login cs_update]; try done.
        intros id c Hc Hcl. destruct (H id c Hc Hcl) as [?|?]; [by left|congruence]. }
    destruct (c_updated env _ _ _ CNewControl_wf B) as (W & Hconf & _).
    split; cbn [ctls cs_next cs_ctl cs_ps cs_vs cs_login cs_update]; try done.
    + intros id c [[<- <-]|[_ Hc]]%lookup_insert_Some; [split; [done|lia]|]. destruct (A id c Hc). split; [done|lia].
    + intros id [= <-]. split_and!; [intros ?%G; lia|lia|]. intros c. rewrite lookup_insert_eq. by intros [= <-].
    + intros id c Hu Hid Hc. rewrite lookup_insert_ne in Hc by (intros <-; apply G in Hid; lia). by eapply F.
    + intros id Hid%G. lia.
    + intros id c [[<- <-]|[Hne Hc]]%lookup_insert_Some Hcl; [by right|].
      destruct (H id c Hc Hcl) as [?|?]; [by left|congruence].
  - unfold login_swap. destruct (cs_login s) as [| |id] eqn:E; try done.
    pose proof (s_inv_close_old (cs_ctl s) s Hi) as [A B C D F G H].
    cbn [set_ctls ctls cs_next cs_ctl cs_ps cs_vs cs_login cs_update] in *. destruct (D id E) as (D1 & D2 & D3).
    split; cbn [ctls cs_next cs_ctl cs_ps cs_vs cs_login cs_update]; try done.
    + intros j c _ [= <-] Hc Hcl. by apply D3.
    + by intros j [= <-].
    + intros j c Hc Hcl. destruct (H j c Hc Hcl) as [Hj|Hj]; [|left; congruence].
      rewrite Hj in Hc. apply close_old_closed in Hc. congruence.
  - destruct Ho as [Hap HL]. unfold update_store. destruct (cs_update s) eqn:E; try done. destruct Hi as [A B C D F G H].
    split; cbn [ctls cs_next cs_ctl cs_ps cs_vs cs_login cs_update]; try done; intros; congruence.
  - unfold update_check. destruct (cs_update s) eqn:E; try done. destruct Hi as [A B C D F G H].
    split; cbn [set_update ctls cs_next cs_ctl cs_ps cs_vs cs_login cs_update]; try done.
    intros id c Hu Hid. rewrite Hid in Hu. done.
  - unfold update_apply. destruct (cs_update s) eqn:E; try done. destruct (cs_ctl s) as [id|] eqn:Ec.
    2:{ destruct Hi as [A B C D F G H]. split; cbn [set_update ctls cs_next cs_ctl cs_ps cs_vs cs_login cs_update]; try done. }
    destruct Hi as [A B C D F G H].
    assert (∀ j c', alter (c_UpdateAllConfigurer env (cs_ps s) (cs_vs s)) id (ctls s) !! j = Some c' →
      ∃ c, ctls s !! j = Some c ∧ c_wf c' ∧ c_closed c' = c_closed c ∧
        (if decide (j = id) then configured (cs_ps s) (cs_vs s) c' else c' = c)) as Ha.
    { intros j c' [(-> & c & Hc & ->)|[Hne Hc]]%lookup_alter_Some.
      - exists c. destruct (A _ _ Hc) as [Hw _]. destruct (c_updated env _ _ c Hw B) as (_ & _ & ? & ?).
        rewrite decide_True by done. done.
      - exists c'. rewrite decide_False by done. destruct (A _ _ Hc). done. }
    split; cbn [set_update set_ctls ctls cs_next cs_ctl cs_ps cs_vs cs_login cs_update]; try done.
    + intros j c' (c & Hc & ? & _)%Ha. split; [done|]. by apply (A j c).
    + intros j Hj. destruct (D j Hj) as (D1 & D2 & D3). split_and!; [congruence|done|].
      intros c' (c & Hc & _ & Hcl & Hd)%Ha Ho'. rewrite decide_False in Hd by congruence. subst c'. by apply D3.
    + intros j c' _ Hj (c & Hc & _ & _ & Hd)%Ha _. by rewrite decide_True in Hd by congruence.
    + intros j c' (c & Hc & _ & Hcl & _)%Ha Ho'. rewrite Hcl in Ho'. destruct (H j c Hc Ho'); [left; congruence|by right].
  - pose proof (s_inv_close_old (cs_ctl s) s Hi) as [A B C D F G H]. unfold service_stop.
    cbn [set_ctls ctls cs_next cs_ctl cs_ps cs_vs cs_login cs_update] in *.
    split; cbn [ctls cs_next cs_ctl cs_ps cs_vs cs_login cs_update]; try done.
    + intros j Hj. destruct (D j Hj) as (_ & D2 & D3). done.
    + intros j c Hc Hcl. destruct (H j c Hc Hcl) as [Hj|Hj]; [|by right].
      rewrite Hj in Hc. apply close_old_closed in Hc. congruence.
  - apply s_inv_alter; [done|]. intros c Hc. split; [by apply c_closed_wf|done].
  - apply s_inv_alter; [done|]. intros c Hc. destruct (c_event n e c Hc). done.
  - apply s_inv_alter; [done|]. intros c Hc. destruct (c_tick env c Hc). done.
Qed.

Lemma s_run_inv s ops : s_inv s → undisturbed s ops → s_inv (foldl s_step s ops).
Proof.
  revert s. induction ops as [|o ops IH]; intros s Hi; [done|]. cbn [foldl undisturbed]. intros [Ho Hu].
  apply IH; [by apply s_step_inv|done].
Qed.

Lemma s_init_inv ps vs : named_apart ps vs → s_inv (CNewService ps vs).
Proof. intros Ha. split; simpl; intros; done. Qed.

(** C16: the client runs the configuration it was given last.  In every interleaving of logins,
    ends of sessions, events, updates and stops in which no update is stored between the
    moment a login copies the configuration and the moment its session becomes the one of the
    service: whenever no update is under way, the session of the service, if it is not closed,
    has exactly the proxies and visitors of the last update; and no other session is open but
    the one a login is just setting up. *)
Theorem service_runs_configuration ps vs ops :
  named_apart ps vs → undisturbed (CNewService ps vs) ops →
  let s := foldl s_step (CNewService ps vs) ops in
  (∀ id c, cs_update s = UIdle → cs_ctl s = Some id → ctls s !! id = Some c → c_closed c = false →
     configured (cs_ps s) (cs_vs s) c) ∧
  (∀ id c, ctls s !! id = Some c → c_closed c = false → cs_ctl s = Some id ∨ cs_login s = LRan id).
Proof.
  intros Ha Hu s. pose proof (s_run_inv _ _ (s_init_inv ps vs Ha) Hu : s_inv s) as Hi. split.
  - intros id c. apply (si_ctl _ Hi).
  - apply (si_open _ Hi).
Qed.

(** An update that falls into a login is lost: the new session gets the old configuration,
    although the update is over and was reported as done. *)
Lemma update_during_login_lost env (p : proxy_conf) :
  let s := foldl s_step (CNewService [] []) [SRead; SStore [p] []; SCheck; SRun env true; SSwap] in
  cs_update s = UIdle ∧ cs_ps s = [p] ∧
  ∃ c, cs_ctl s = Some 0%nat ∧ ctls s !! 0%nat = Some c ∧ c_closed c = false ∧ pm_proxies (c_pm c) = ∅.
Proof. split_and!; [done..|]. eexists. split_and!; done. Qed.

(** An update that looked at the session before a stop, and uses it after, has a nil pointer.
    Reloads hold [reloadMu], which [stop] takes first; [UpdateProxyConfigurer] of
    [src/pkg/virtual/client.go] does not. *)
Lemma update_during_stop_panics env (p : proxy_conf) :
  cs_update (foldl s_step (CNewService [] [])
    [SRead; SRun env true; SSwap; SStore [p] []; SCheck; SStop; SApply env]) = UPanic.
Proof. done. Qed.

(** A login that ends after the stop leaves an open session that nobody closes. *)
Lemma login_after_stop env :
  let s := foldl s_step (CNewService [] []) [SRead; SStop; SRun env true; SSwap] in
  cs_stopped s = true ∧ ∃ c, ctls s !! 0%nat = Some c ∧ c_closed c = false.
Proof. split; [done|]. by eexists. Qed.

(** ** Heartbeats *)

Inductive pong_event := PPong (now : time) (err : string) | PCheck (now : time).
Definition pong_step (interval timeout : Z) (x : time * bool) (e : pong_event) : time * bool :=
  match e with
  | PPong now err => c_handlePong now err x
  | PCheck now => c_heartbeat_check interval timeout now x
  end.

(** Without an error in a pong, a session of a client is closed for want of pongs exactly when
    a check comes more than the timeout after the last pong before it. *)
Lemma client_heartbeat interval timeout start evs :
  (∀ now err, PPong now err ∈ evs → err = "") → (0 < interval)%Z → (0 < timeout)%Z →
  snd (foldl (pong_step interval timeout) (start, false) evs) = true ↔
  ∃ pre now post, evs = pre ++ PCheck now :: post ∧
    (timeout * Second < time_sub now (fst (foldl (pong_step interval timeout) (start, false) pre)))%Z.
Proof.
  intros Hp Hint Hto. induction evs as [|e evs IH] using rev_ind.
  { split; [done|]. intros (pre & now & post & E & _). by destruct pre. }
  rewrite foldl_app. cbn [foldl]. set (x := foldl _ _ evs) in *.
  assert (∀ now err, PPong now err ∈ evs → err = "") as Hp' by (intros now err H; apply (Hp now), elem_of_app; by left).
  specialize (IH Hp'). destruct e as [now err|now]; cbn [pong_step].
  - assert (err = "") as -> by (apply (Hp now), elem_of_app; right; left).
    unfold c_handlePong. simpl. rewrite IH. split.
    + intros (pre & n & post & -> & H). exists pre, n, (post ++ [PPong now ""]). by rewrite <- app_assoc.
    + intros (pre & n & post & E & H). destruct post as [|z post _] using rev_ind.
      * apply app_inj_tail in E as [_ ?]. done.
      * rewrite app_comm_cons, app_assoc in E. apply app_inj_tail in E as [-> _]. eauto.
  - unfold c_heartbeat_check. rewrite !(proj2 (Z.ltb_lt _ _)) by done. simpl.
    destruct (Z.ltb_spec (timeout * Second) (time_sub now (fst x))) as [Hlt|Hge]; simpl.
    + split; [|done]. intros _. exists evs, now, []. done.
    + rewrite IH. split.
      * intros (pre & n & post & -> & H). exists pre, n, (post ++ [PCheck now]). by rewrite <- app_assoc.
      * intros (pre & n & post & E & H). destruct post as [|z post _] using rev_ind.
        -- apply app_inj_tail in E as [-> [= ->]]. fold x in H. lia.
        -- rewrite app_comm_cons, app_assoc in E. apply app_inj_tail in E as [-> _]. eauto.
Qed.
End service.

(** ** Witness: a client that logs in, reloads and loses a session *)

Definition w_proxy (n : string) : ProxyConfigurer TypedClientPluginOptions :=
  TCPProxyConfig (mkBase n "tcp" None ∅ (mkTransport false false zero_bandwidth "client" "") ∅ (mkLoadBalancer "" "")
    (mkHealthCheck "" 0 0 0 "" []) (mkBackend "127.0.0.1" 22 None)) 6000.

Definition w_ops : list s_op :=
  [SRead; SRun w_ok true; SSwap; SStore [w_proxy "b"] []; SCheck; SApply w_ok; SExit 0; SRead; SRun w_ok true; SSwap].
Definition w_final : CService := foldl (s_step "") (CNewService [w_proxy "a"] []) w_ops.

Lemma service_runs_configuration_witness :
  ∃ c, cs_ctl w_final = Some 1%nat ∧ ctls w_final !! 1%nat = Some c ∧ configured [w_proxy "b"] [] c.
Proof.
  eexists. split_and!; [reflexivity|reflexivity|].
  refine (proj1 (service_runs_configuration "" [w_proxy "a"] [] w_ops _ _) 1%nat _ _ _ _ _); [| |reflexivity..].
  - split; [apply NoDup_singleton|constructor].
  - vm_compute. repeat split; try exact I; [apply NoDup_singleton|constructor].
Defined.
