(* ===== verification/ConfigManager.v ===== *)
(** The API's access to the client's configuration: the reload of the file and the changes of
    the store ([src/client/config_manager.go]), with the reload transactions of
    [src/client/service.go].

    Every operation that changes something holds [reloadMu], so a run is a sequence of
    operations.  [load] stands for [LoadClientConfigResult] of ClientLoad and [check_common]
    for [ValidateClientCommonConfig] of CommonConf, each at its parameters. *)
From Stdlib Require Import ZArith Lia Ascii String.
From stdpp Require Import base gmap strings list sorting fin_maps.
From S2P Require Import Prelude GoStrings ProxyConf Validation VisitorConf PluginConf CommonConf Decode ConfigSource ClientLoad.
Local Open Scope string_scope.
Local Open Scope list_scope.

Section manager.
Variable IsQualifiedName : string → list string.
Context {bytes : Type}.
Variable encode : list proxy_conf * list VisitorConfigurer → option bytes.
Variable load : string → bool → result load_error ClientConfigLoadResult.
Variable check_common : ClientCommonConfig → bool.

Abbreviation source := (baseSource (P := proxy_conf) (V := VisitorConfigurer)).
Abbreviation disk := (fs (bytes := bytes)).

(** The sentinels of [src/client/configmgmt/types.go]; [Internal] is an error with none. *)
Inductive mgr_error := ErrInvalidArgument | ErrNotFound | ErrConflict | ErrStoreDisabled | ErrApplyConfig | Internal.

(** The fields of the service the operations use; [applied] is what [UpdateAllConfigurer] was
    called with last. *)
Record mgr := mkMgr {
  g_config : option source;
  g_store : option (source * disk);
  g_aggregator : bool;
  g_start : list string;                     (* reloadCommon.Start *)
  g_applied : list proxy_conf * list VisitorConfigurer;
  g_path : string }.

(** What the sources say: their union, filtered and completed. *)
Definition effective (config : source) (store : option source) (start : list string)
    : list proxy_conf * list VisitorConfigurer :=
  let '(ps, vs) := aggregator_Load config store in
  let '(ps, vs) := FilterClientConfigurers start ps vs in
  (CompleteProxyConfigurers ps, CompleteVisitorConfigurers vs).

Definition reloadConfigFromSourcesLocked (m : mgr) : bool * mgr :=
  match g_aggregator m, g_config m with
  | true, Some c =>
      (true, mkMgr (g_config m) (g_store m) true (g_start m) (effective c (fst <$> g_store m) (g_start m)) (g_path m))
  | _, _ => (false, m)
  end.

Definition UpdateConfigSource (start : list string) (ps : list proxy_conf) (vs : list VisitorConfigurer) (m : mgr) : bool * mgr :=
  match g_config m with
  | None => (false, m)
  | Some c =>
      match ReplaceAll ps vs c with
      | Err _ => (false, m)
      | Ok c => reloadConfigFromSourcesLocked (mkMgr (Some c) (g_store m) (g_aggregator m) start (g_applied m) (g_path m))
      end
  end.

Definition plugin_valid (p : TypedClientPluginOptions) : bool := is_ok (validate_options (cp_Options p)).

Definition proxy_valid (c : proxy_conf) : bool :=
  bool_decide (ValidateProxyConfigurerForClient IsQualifiedName _ plugin_valid c = []).
Definition visitor_valid (c : VisitorConfigurer) : bool := is_ok (ValidateVisitorConfigurer c).

Definition ValidateAllClientConfig (common : ClientCommonConfig) (ps : list proxy_conf) (vs : list VisitorConfigurer) : bool :=
  check_common common && forallb proxy_valid ps && forallb visitor_valid vs.

Definition ReloadFromFile (strict : bool) (m : mgr) : result mgr_error unit * mgr :=
  if g_path m =s? "" then (Err ErrInvalidArgument, m)
  else match load (g_path m) strict with
       | Err _ => (Err ErrInvalidArgument, m)
       | Ok r =>
           let '(ps, vs) := FilterClientConfigurers (cc_Start (ld_Common r)) (ld_Proxies r) (ld_Visitors r) in
           if negb (ValidateAllClientConfig (ld_Common r) (CompleteProxyConfigurers ps) (CompleteVisitorConfigurers vs))
           then (Err ErrInvalidArgument, m)
           else match UpdateConfigSource (cc_Start (ld_Common r)) (ld_Proxies r) (ld_Visitors r) m with
                | (true, m) => (Ok tt, m)
                | (false, m) => (Err ErrApplyConfig, m)
                end
       end.

Definition validateStoreProxyConfigurer (c : proxy_conf) : bool := proxy_valid (Complete _ plugin_Complete c).
Definition validateStoreVisitorConfigurer (c : VisitorConfigurer) : bool := visitor_valid (v_Complete c).

(** The errors of the store, as the operations wrap them. *)
Definition wrap_add (e : source_error) : mgr_error := match e with AlreadyExists _ => ErrConflict | _ => Internal end.
Definition wrap_known (e : source_error) : mgr_error := match e with NotFound _ => ErrNotFound | _ => Internal end.

(** [withStoreMutationAndReload]. *)
Definition withStoreMutationAndReload (wrap : source_error → mgr_error) (i : io) (o : sop) (m : mgr)
    : result mgr_error unit * mgr :=
  match g_store m with
  | None => (Err ErrStoreDisabled, m)
  | Some x =>
      match run_sop encode i o x with
      | (Err e, x) => (Err (wrap e), mkMgr (g_config m) (Some x) (g_aggregator m) (g_start m) (g_applied m) (g_path m))
      | (Ok _, x) =>
          match reloadConfigFromSourcesLocked (mkMgr (g_config m) (Some x) (g_aggregator m) (g_start m) (g_applied m) (g_path m)) with
          | (true, m) => (Ok tt, m)
          | (false, m) => (Err ErrApplyConfig, m)
          end
      end
  end.

(** The variants that return what is in the store afterwards, a clone of it. *)
Definition withStoreProxyMutationAndReload (wrap : source_error → mgr_error) (i : io) (o : sop) (name : string) (m : mgr)
    : result mgr_error proxy_conf * mgr :=
  match withStoreMutationAndReload wrap i o m with
  | (Err e, m) => (Err e, m)
  | (Ok _, m) => (match g_store m ≫= λ x, GetProxy name (fst x) with Some p => Ok p | None => Err ErrApplyConfig end, m)
  end.
Definition withStoreVisitorMutationAndReload (wrap : source_error → mgr_error) (i : io) (o : sop) (name : string) (m : mgr)
    : result mgr_error VisitorConfigurer * mgr :=
  match withStoreMutationAndReload wrap i o m with
  | (Err e, m) => (Err e, m)
  | (Ok _, m) => (match g_store m ≫= λ x, GetVisitor name (fst x) with Some p => Ok p | None => Err ErrApplyConfig end, m)
  end.

Definition CreateStoreProxy (i : io) (c : proxy_conf) (m : mgr) : result mgr_error proxy_conf * mgr :=
  if negb (validateStoreProxyConfigurer c) then (Err ErrInvalidArgument, m)
  else withStoreProxyMutationAndReload wrap_add i (OAddProxy c) (conf_name c) m.
Definition UpdateStoreProxy (i : io) (name : string) (c : proxy_conf) (m : mgr) : result mgr_error proxy_conf * mgr :=
  if name =s? "" then (Err ErrInvalidArgument, m)
  else if negb (conf_name c =s? name) then (Err ErrInvalidArgument, m)
  else if negb (validateStoreProxyConfigurer c) then (Err ErrInvalidArgument, m)
  else withStoreProxyMutationAndReload wrap_known i (OUpdateProxy c) name m.
Definition DeleteStoreProxy (i : io) (name : string) (m : mgr) : result mgr_error unit * mgr :=
  if name =s? "" then (Err ErrInvalidArgument, m)
  else withStoreMutationAndReload wrap_known i (ORemoveProxy name) m.

Definition CreateStoreVisitor (i : io) (c : VisitorConfigurer) (m : mgr) : result mgr_error VisitorConfigurer * mgr :=
  if negb (validateStoreVisitorConfigurer c) then (Err ErrInvalidArgument, m)
  else withStoreVisitorMutationAndReload wrap_add i (OAddVisitor c) (conf_name c) m.
Definition UpdateStoreVisitor (i : io) (name : string) (c : VisitorConfigurer) (m : mgr) : result mgr_error VisitorConfigurer * mgr :=
  if name =s? "" then (Err ErrInvalidArgument, m)
  else if negb (conf_name c =s? name) then (Err ErrInvalidArgument, m)
  else if negb (validateStoreVisitorConfigurer c) then (Err ErrInvalidArgument, m)
  else withStoreVisitorMutationAndReload wrap_known i (OUpdateVisitor c) name m.
Definition DeleteStoreVisitor (i : io) (name : string) (m : mgr) : result mgr_error unit * mgr :=
  if name =s? "" then (Err ErrInvalidArgument, m)
  else withStoreMutationAndReload wrap_known i (ORemoveVisitor name) m.

(** Readers. *)
Definition GetStoreProxy (name : string) (m : mgr) : result mgr_error proxy_conf :=
  if name =s? "" then Err ErrInvalidArgument
  else match g_store m with
       | None => Err ErrStoreDisabled
       | Some x => match GetProxy name (fst x) with Some p => Ok p | None => Err ErrNotFound end
       end.
Definition GetStoreVisitor (name : string) (m : mgr) : result mgr_error VisitorConfigurer :=
  if name =s? "" then Err ErrInvalidArgument
  else match g_store m with
       | None => Err ErrStoreDisabled
       | Some x => match GetVisitor name (fst x) with Some p => Ok p | None => Err ErrNotFound end
       end.
Definition IsStoreProxyEnabled (name : string) (m : mgr) : bool :=
  if name =s? "" then false
  else match g_store m with
       | None => false
       | Some x => match GetProxy name (fst x) with Some p => is_enabled p | None => false end
       end.
Definition StoreEnabled (m : mgr) : bool := if g_store m then true else false.

(** [stop] takes the sources away. *)
Definition mgr_stop (m : mgr) : mgr := mkMgr None None false (g_start m) (g_applied m) (g_path m).

(** [NewService], as far as the configuration goes. *)
Definition NewMgr (config : source) (store : option (source * disk)) (start : list string) (path : string) : mgr :=
  mkMgr (Some config) store true start (effective config (fst <$> store) start) path.

(** ** Runs *)

Inductive api :=
| AReload (strict : bool)
| ACreateProxy (i : io) (c : proxy_conf) | AUpdateProxy (i : io) (n : string) (c : proxy_conf) | ADeleteProxy (i : io) (n : string)
| ACreateVisitor (i : io) (c : VisitorConfigurer) | AUpdateVisitor (i : io) (n : string) (c : VisitorConfigurer)
| ADeleteVisitor (i : io) (n : string).

Definition forget {E A} (x : result E A * mgr) : result E unit * mgr :=
  (match fst x with Ok _ => Ok tt | Err e => Err e end, snd x).

Definition api_step (a : api) (m : mgr) : result mgr_error unit * mgr :=
  match a with
  | AReload strict => ReloadFromFile strict m
  | ACreateProxy i c => forget (CreateStoreProxy i c m)
  | AUpdateProxy i n c => forget (UpdateStoreProxy i n c m)
  | ADeleteProxy i n => DeleteStoreProxy i n m
  | ACreateVisitor i c => forget (CreateStoreVisitor i c m)
  | AUpdateVisitor i n c => forget (UpdateStoreVisitor i n c m)
  | ADeleteVisitor i n => DeleteStoreVisitor i n m
  end.

Definition api_run (m : mgr) (l : list api) : mgr := foldl (λ m a, snd (api_step a m)) m l.

(** *** What runs *)

Definition store_of (m : mgr) : source := default newBaseSource (fst <$> g_store m).

Lemma keyed_new : keyed_source (P := proxy_conf) (V := VisitorConfigurer) newBaseSource.
Proof. split; apply keyed_empty. Qed.

(** Without a store the union is that with an empty one. *)
Lemma aggregator_no_store (c : source) : aggregator_Load c None = aggregator_Load c (Some newBaseSource).
Proof. reflexivity. Qed.

(** The entry a name stands for: that of the store unless it is missing or disabled. *)
Definition entry {C} `{!Configurer C} (config store : gmap string C) (c : C) : Prop :=
  is_enabled c = true ∧
  (store !! conf_name c = Some c ∨
   config !! conf_name c = Some c ∧ ∀ d, store !! conf_name c = Some d → is_enabled d = false).

Lemma aggregator_entries (c s : source) :
  keyed_source c → keyed_source s →
  let '(ps, vs) := aggregator_Load c (Some s) in
  NoDup (conf_name <$> ps) ∧ NoDup (conf_name <$> vs) ∧
  (∀ p, p ∈ ps ↔ entry (s_proxies c) (s_proxies s) p) ∧ (∀ v, v ∈ vs ↔ entry (s_visitors c) (s_visitors s) v).
Proof.
  intros [Hcp Hcv] [Hsp Hsv]. unfold aggregator_Load.
  assert (∀ A (g : source → list A), (c :: option_list (Some s)) ≫= g = g c ++ g s) as Hb
    by (intros A g; simpl; by rewrite app_nil_r).
  cbv zeta. rewrite !Hb. destruct (union_spec _ _ Hcp Hsp) as (H1 & _ & H3), (union_spec _ _ Hcv Hsv) as (H4 & _ & H6).
  by split_and!.
Qed.

Lemma names_complete_p (l : list proxy_conf) : conf_name <$> CompleteProxyConfigurers l = conf_name <$> l.
Proof.
  unfold CompleteProxyConfigurers. rewrite <- list_fmap_compose. apply list_fmap_ext. intros i x _.
  apply (proxy_Complete_keeps x).
Qed.
Lemma names_complete_v (l : list VisitorConfigurer) : conf_name <$> CompleteVisitorConfigurers l = conf_name <$> l.
Proof.
  unfold CompleteVisitorConfigurers. rewrite <- list_fmap_compose. apply list_fmap_ext. intros i x _.
  apply (visitor_Complete_keeps x).
Qed.

(** What the sources amount to. *)
Lemma effective_spec (c : source) (so : option source) start :
  let s := default newBaseSource so in
  keyed_source c → keyed_source s →
  NoDup (conf_name <$> fst (effective c so start)) ∧ NoDup (conf_name <$> snd (effective c so start)) ∧
  (∀ p, p ∈ fst (effective c so start) ↔
     ∃ q, p = Complete _ plugin_Complete q ∧ entry (s_proxies c) (s_proxies s) q ∧ started start (conf_name q) = true) ∧
  (∀ v, v ∈ snd (effective c so start) ↔
     ∃ w, v = v_Complete w ∧ entry (s_visitors c) (s_visitors s) w ∧ started start (conf_name w) = true).
Proof.
  intros s Hc Hs. assert (aggregator_Load c so = aggregator_Load c (Some s)) as E by (destruct so; [done|apply aggregator_no_store]).
  unfold effective. rewrite E. pose proof (aggregator_entries c s Hc Hs) as H.
  destruct (aggregator_Load c (Some s)) as [ps vs]. destruct H as (H1 & H2 & H3 & H4).
  pose proof (Filter_elem start ps vs) as [F1 F2].
  assert (NoDup (conf_name <$> fst (FilterClientConfigurers start ps vs)) ∧
    NoDup (conf_name <$> snd (FilterClientConfigurers start ps vs))) as [N1 N2] by (split; simpl; by do 2 apply NoDup_fmap_filter).
  destruct (FilterClientConfigurers start ps vs) as [fp fv]. cbn [fst snd] in *. split_and!.
  - by rewrite names_complete_p.
  - by rewrite names_complete_v.
  - intros p. unfold CompleteProxyConfigurers. rewrite list_elem_of_fmap. split.
    + intros (q & -> & (Hq & Hst & _)%F1). exists q. split_and!; [done|by apply H3|done].
    + intros (q & -> & Hq & Hst). exists q. split; [done|]. apply F1. split_and!; [by apply H3|done|apply Hq].
  - intros p. unfold CompleteVisitorConfigurers. rewrite list_elem_of_fmap. split.
    + intros (q & -> & (Hq & Hst & _)%F2). exists q. split_and!; [done|by apply H4|done].
    + intros (q & -> & Hq & Hst). exists q. split; [done|]. apply F2. split_and!; [by apply H4|done|apply Hq].
Qed.

(** *** The invariant: what runs is what the sources say, and it is valid *)

Record mgr_wf (m : mgr) : Prop := {
  gw_agg : g_aggregator m = true;
  gw_sync : ∃ c, g_config m = Some c ∧ keyed_source c ∧ g_applied m = effective c (fst <$> g_store m) (g_start m) ∧
    (∀ q, q ∈ values (s_proxies c) → is_enabled q = true → started (g_start m) (conf_name q) = true →
       proxy_valid (Complete _ plugin_Complete q) = true) ∧
    (∀ w, w ∈ values (s_visitors c) → is_enabled w = true → started (g_start m) (conf_name w) = true →
       visitor_valid (v_Complete w) = true);
  gw_store : keyed_source (store_of m) ∧
    (∀ q, q ∈ values (s_proxies (store_of m)) → proxy_valid (Complete _ plugin_Complete q) = true) ∧
    (∀ w, w ∈ values (s_visitors (store_of m)) → visitor_valid (v_Complete w) = true) }.

(** The observable state: what a failed operation must leave alone. *)
Definition same (m m' : mgr) : Prop :=
  g_config m' = g_config m ∧ (fst <$> g_store m') = (fst <$> g_store m) ∧
  (f_main ∘ snd <$> g_store m') = (f_main ∘ snd <$> g_store m) ∧
  g_start m' = g_start m ∧ g_applied m' = g_applied m.

Lemma same_refl m : same m m.
Proof. by split_and!. Qed.

Lemma forget_Err {A} (x : result mgr_error A * mgr) e m : forget x = (Err e, m) ↔ x = (Err e, m).
Proof. destruct x as [[a|e'] m']; unfold forget; simpl; naive_solver. Qed.

(** A service that has not been stopped. *)
Definition live (m : mgr) : Prop := g_aggregator m = true ∧ is_Some (g_config m).

Lemma wf_live m : mgr_wf m → live m.
Proof. intros [A (c & Hc & _) _]. split; [done|by exists c]. Qed.

(** A change of the store that passes, and one that does not. *)
Lemma store_change wrap i o m r m' :
  live m → withStoreMutationAndReload wrap i o m = (r, m') →
  (∃ e, r = Err e ∧ same m m' ∧ (e = ErrStoreDisabled ∨ ∃ e', e = wrap e')) ∨
  (r = Ok tt ∧ ∃ s f f', g_store m = Some (s, f) ∧ allowed o s ∧ g_store m' = Some (intended o s, f') ∧
     g_config m' = g_config m ∧ g_start m' = g_start m ∧ g_aggregator m' = true ∧
     ∃ c, g_config m = Some c ∧ g_applied m' = effective c (Some (intended o s)) (g_start m)).
Proof.
  intros [Hagg [c Hc]]. unfold withStoreMutationAndReload. destruct (g_store m) as [[s f]|] eqn:Es; [|intros [= <- <-]; left; eauto using same_refl].
  assert (∀ e f', f_main f' = f_main f → (Err (wrap e), mkMgr (g_config m) (Some (s, f')) (g_aggregator m) (g_start m) (g_applied m) (g_path m)) = (r, m') →
    ∃ e, r = Err e ∧ same m m' ∧ (e = ErrStoreDisabled ∨ ∃ e', e = wrap e')) as Herr.
  { intros e f' Hf [= <- <-]. eexists. split_and!; [done| |by eauto]. split_and!; try done; rewrite Es; simpl; [done|by rewrite Hf]. }
  destruct (run_sop_eq encode i o s f) as [[_ [e ->]]|[Ha ->]]; [intros H; left; by eapply Herr|].
  unfold persist. pose proof (saveToFile_spec encode i (intended o s) f) as Hsave.
  destruct (saveToFile encode i (intended o s) f) as [ok f']. destruct ok.
  - unfold reloadConfigFromSourcesLocked. cbn [g_aggregator g_config g_store g_start g_path]. rewrite Hagg, Hc.
    intros [= <- <-]. right. split; [done|]. exists s, f, f'. cbn [g_aggregator g_config g_store g_start g_applied]. split_and!; try done.
    exists c. done.
  - intros H. left. eapply Herr; [|exact H]. destruct (save_data encode (intended o s)); [|by destruct Hsave as [_ ->]].
    destruct Hsave as [Hok ->]. by rewrite <- Hok.
Qed.

(** Every entry of the changed store was there, or is the new one. *)
Lemma intended_values o (s : source) :
  keyed_source s → allowed o s →
  (∀ q, q ∈ values (s_proxies (intended o s)) → q ∈ values (s_proxies s) ∨ o = OAddProxy q ∨ o = OUpdateProxy q) ∧
  (∀ w, w ∈ values (s_visitors (intended o s)) → w ∈ values (s_visitors s) ∨ o = OAddVisitor w ∨ o = OUpdateVisitor w).
Proof.
  intros Hk Ha. pose proof (intended_keyed o s Hk Ha) as Hk'. destruct Hk as [K1 K2], Hk' as [K1' K2']. split.
  - intros q Hq. rewrite elem_of_values in Hq |- * by done.
    destruct o as [p|p|n|v|v|n]; simpl in Hq; try (by left).
    + apply lookup_insert_Some in Hq as [[_ <-]|[_ ?]]; auto.
    + apply lookup_insert_Some in Hq as [[_ <-]|[_ ?]]; auto.
    + apply lookup_delete_Some in Hq as [_ ?]. by left.
  - intros q Hq. rewrite elem_of_values in Hq |- * by done.
    destruct o as [p|p|n|v|v|n]; simpl in Hq; try (by left).
    + apply lookup_insert_Some in Hq as [[_ <-]|[_ ?]]; auto.
    + apply lookup_insert_Some in Hq as [[_ <-]|[_ ?]]; auto.
    + apply lookup_delete_Some in Hq as [_ ?]. by left.
Qed.

(** The operations on the store keep the invariant, when they put in only what is valid. *)
Definition valid_sop (o : sop (P := proxy_conf) (V := VisitorConfigurer)) : Prop :=
  match o with
  | OAddProxy c | OUpdateProxy c => proxy_valid (Complete _ plugin_Complete c) = true
  | OAddVisitor c | OUpdateVisitor c => visitor_valid (v_Complete c) = true
  | _ => True
  end.

Lemma same_wf m m' : mgr_wf m → same m m' → g_aggregator m' = true → mgr_wf m'.
Proof.
  intros [A (c & B) D] (E1 & E2 & _ & E4 & E5) Ha. split; [done| |].
  - exists c. by rewrite E1, E2, E4, E5.
  - unfold store_of. by rewrite E2.
Qed.

Lemma store_change_wf wrap i o m r m' :
  mgr_wf m → valid_sop o → withStoreMutationAndReload wrap i o m = (r, m') →
  mgr_wf m' ∧ (∀ e, r = Err e → same m m').
Proof.
  intros Hwf Hv H. assert (g_aggregator m' = true) as Ha.
  { revert H. unfold withStoreMutationAndReload, reloadConfigFromSourcesLocked.
    repeat case_match; intros; simplify_eq/=; try done; apply (gw_agg _ Hwf). }
  destruct (store_change wrap i o m r m' (wf_live m Hwf) H) as [(e & -> & Hs & _)|(-> & s & f & f' & Es & Hal & Es' & Ec & Est & _ & c & Hc & Happ)].
  { split; [by eapply same_wf|done]. }
  split; [|done]. destruct (gw_store _ Hwf) as (K & V1 & V2). unfold store_of in K, V1, V2. rewrite Es in K, V1, V2. simpl in *.
  destruct (intended_values o s K Hal) as [I1 I2]. destruct (gw_sync _ Hwf) as (c' & Hc' & Kc & _ & P1 & P2).
  rewrite Hc in Hc'. injection Hc' as <-. split; [done| |].
  - exists c. rewrite Ec, Es', Est. by split_and!.
  - unfold store_of. rewrite Es'. simpl. split_and!; [by apply intended_keyed| |].
    + intros q [?|[-> | ->]]%I1; [by apply V1|done..].
    + intros q [?|[-> | ->]]%I2; [by apply V2|done..].
Qed.

Lemma of_list_sub {C} `{!Configurer C} (l : list C) c : c ∈ values (of_list l) → c ∈ l.
Proof.
  unfold values. intros ([n d] & -> & H%elem_of_map_to_list)%list_elem_of_fmap. simpl. revert H.
  unfold of_list. induction l as [|x l IH] using rev_ind; [simpl; by rewrite lookup_empty|].
  rewrite foldl_app. cbn [foldl]. intros [[_ <-]|[_ ?]]%lookup_insert_Some; apply elem_of_app; [right; left|left; auto].
Qed.

Lemma reload_wf strict m r m' :
  mgr_wf m → ReloadFromFile strict m = (r, m') → mgr_wf m' ∧ (∀ e, r = Err e → same m m').
Proof.
  intros Hwf. unfold ReloadFromFile. destruct (g_path m =s? ""); [intros [= <- <-]; auto using same_refl|].
  destruct (load (g_path m) strict) as [l|]; [|intros [= <- <-]; auto using same_refl].
  pose proof (Filter_elem (cc_Start (ld_Common l)) (ld_Proxies l) (ld_Visitors l)) as [F1 F2].
  destruct (FilterClientConfigurers _ _ _) as [ps vs]. cbn [fst snd] in *.
  unfold ValidateAllClientConfig. destruct (check_common (ld_Common l)); simpl; [|intros [= <- <-]; auto using same_refl].
  destruct (forallb proxy_valid _) eqn:Vp; simpl; [|intros [= <- <-]; auto using same_refl].
  destruct (forallb visitor_valid _) eqn:Vv; simpl; [|intros [= <- <-]; auto using same_refl].
  destruct (gw_sync _ Hwf) as (c & Hc & _). unfold UpdateConfigSource. rewrite Hc. unfold ReplaceAll.
  case_decide as D1; [intros [= <- <-]; auto using same_refl|].
  case_decide as D2; [intros [= <- <-]; auto using same_refl|].
  unfold reloadConfigFromSourcesLocked. cbn [g_aggregator g_config g_store g_start g_path]. rewrite (gw_agg _ Hwf).
  intros [= <- <-]. split; [|done]. split; [done| |exact (gw_store _ Hwf)].
  eexists. split_and!; [done| |done| |]; cbn [g_start s_proxies s_visitors].
  - split; apply of_list_keyed, Forall_forall; intros x Hx Hn; [destruct D1|destruct D2]; apply Exists_exists; eauto.
  - intros q Hq He Hs. apply of_list_sub in Hq. rewrite forallb_forall in Vp. apply Vp, list_elem_of_In.
    unfold CompleteProxyConfigurers. apply list_elem_of_fmap_2, F1. done.
  - intros q Hq He Hs. apply of_list_sub in Hq. rewrite forallb_forall in Vv. apply Vv, list_elem_of_In.
    unfold CompleteVisitorConfigurers. apply list_elem_of_fmap_2, F2. done.
Qed.

(** The entry that was put into the store is the one that is returned. *)
Lemma proxy_change_live wrap i o c m r m' :
  live m → o = OAddProxy c ∨ o = OUpdateProxy c →
  withStoreProxyMutationAndReload wrap i o (conf_name c) m = (r, m') →
  match r with
  | Ok p => p = c ∧ GetProxy (conf_name c) (store_of m') = Some c ∧ withStoreMutationAndReload wrap i o m = (Ok tt, m')
  | Err e => withStoreMutationAndReload wrap i o m = (Err e, m')
  end.
Proof.
  intros Hl Ho. unfold withStoreProxyMutationAndReload.
  destruct (withStoreMutationAndReload wrap i o m) as [r1 m1] eqn:E.
  destruct r1 as [[]|e]; [|by intros [= <- <-]].
  destruct (store_change wrap i o m _ m1 Hl E) as [(e & ? & _)|(_ & s & f & f' & _ & _ & Es & _)]; [done|].
  assert (GetProxy (conf_name c) (intended o s) = Some c) as Hg
    by (unfold GetProxy; destruct Ho as [-> | ->]; simpl; apply lookup_insert_eq).
  rewrite Es. cbn [mbind option_bind fst]. rewrite Hg. intros [= <- <-]. split; [done|]. split; [|done].
  unfold store_of. by rewrite Es.
Qed.

Lemma visitor_change_live wrap i o c m r m' :
  live m → o = OAddVisitor c ∨ o = OUpdateVisitor c →
  withStoreVisitorMutationAndReload wrap i o (conf_name c) m = (r, m') →
  match r with
  | Ok p => p = c ∧ GetVisitor (conf_name c) (store_of m') = Some c ∧ withStoreMutationAndReload wrap i o m = (Ok tt, m')
  | Err e => withStoreMutationAndReload wrap i o m = (Err e, m')
  end.
Proof.
  intros Hl Ho. unfold withStoreVisitorMutationAndReload.
  destruct (withStoreMutationAndReload wrap i o m) as [r1 m1] eqn:E.
  destruct r1 as [[]|e]; [|by intros [= <- <-]].
  destruct (store_change wrap i o m _ m1 Hl E) as [(e & ? & _)|(_ & s & f & f' & _ & _ & Es & _)]; [done|].
  assert (GetVisitor (conf_name c) (intended o s) = Some c) as Hg
    by (unfold GetVisitor; destruct Ho as [-> | ->]; simpl; apply lookup_insert_eq).
  rewrite Es. cbn [mbind option_bind fst]. rewrite Hg. intros [= <- <-]. split; [done|]. split; [|done].
  unfold store_of. by rewrite Es.
Qed.

(** The same, with the invariant. *)
Lemma proxy_change wrap i o c m r m' :
  mgr_wf m → o = OAddProxy c ∨ o = OUpdateProxy c → proxy_valid (Complete _ plugin_Complete c) = true →
  withStoreProxyMutationAndReload wrap i o (conf_name c) m = (r, m') →
  mgr_wf m' ∧ match r with
              | Ok p => p = c ∧ GetProxy (conf_name c) (store_of m') = Some c
              | Err e => same m m'
              end.
Proof.
  intros Hwf Ho Hv E. pose proof (proxy_change_live _ _ _ c _ _ _ (wf_live m Hwf) Ho E) as H.
  assert (valid_sop o) as Hvs by (destruct Ho as [-> | ->]; done).
  destruct r as [p|e]; [destruct H as (-> & Hg & H)|]; destruct (store_change_wf wrap i o m _ m' Hwf Hvs H) as [W Hs]; [done|]. split; [done|by eapply Hs].
Qed.
Lemma visitor_change wrap i o c m r m' :
  mgr_wf m → o = OAddVisitor c ∨ o = OUpdateVisitor c → visitor_valid (v_Complete c) = true →
  withStoreVisitorMutationAndReload wrap i o (conf_name c) m = (r, m') →
  mgr_wf m' ∧ match r with
              | Ok p => p = c ∧ GetVisitor (conf_name c) (store_of m') = Some c
              | Err e => same m m'
              end.
Proof.
  intros Hwf Ho Hv E. pose proof (visitor_change_live _ _ _ c _ _ _ (wf_live m Hwf) Ho E) as H.
  assert (valid_sop o) as Hvs by (destruct Ho as [-> | ->]; done).
  destruct r as [p|e]; [destruct H as (-> & Hg & H)|]; destruct (store_change_wf wrap i o m _ m' Hwf Hvs H) as [W Hs]; [done|]. split; [done|by eapply Hs].
Qed.

(** A request is a reload, is refused at once, or is a valid change of the store. *)
Lemma api_step_cases a m r m' : live m → api_step a m = (r, m') →
  (∃ strict, a = AReload strict) ∨ (m' = m ∧ ∃ e, r = Err e) ∨
  ∃ wrap i o, valid_sop o ∧ withStoreMutationAndReload wrap i o m = (r, m').
Proof.
  intros Hl. destruct a as [strict|i c|i n c|i n|i c|i n c|i n]; cbn [api_step]; [by eauto|..].
  - unfold CreateStoreProxy, validateStoreProxyConfigurer. destruct (proxy_valid (Complete _ plugin_Complete c)) eqn:V; simpl; [|intros [= <- <-]; by eauto].
    destruct (withStoreProxyMutationAndReload _ _ _ _ _) as [r1 m1] eqn:E. intros [= <- <-].
    pose proof (proxy_change_live _ _ _ c m r1 m1 Hl (or_introl eq_refl) E) as H. right; right. exists wrap_add, i, (OAddProxy c). destruct r1; naive_solver.
  - unfold UpdateStoreProxy, validateStoreProxyConfigurer. destruct (n =s? ""); [intros [= <- <-]; by eauto|].
    destruct (seqb_spec (conf_name c) n) as [<-|]; simpl; [|intros [= <- <-]; by eauto].
    destruct (proxy_valid (Complete _ plugin_Complete c)) eqn:V; simpl; [|intros [= <- <-]; by eauto].
    destruct (withStoreProxyMutationAndReload _ _ _ _ _) as [r1 m1] eqn:E. intros [= <- <-].
    pose proof (proxy_change_live _ _ _ c m r1 m1 Hl (or_intror eq_refl) E) as H. right; right. exists wrap_known, i, (OUpdateProxy c). destruct r1; naive_solver.
  - unfold DeleteStoreProxy. destruct (n =s? ""); [intros [= <- <-]; by eauto|]. intros H. right; right. by exists wrap_known, i, (ORemoveProxy n).
  - unfold CreateStoreVisitor, validateStoreVisitorConfigurer. destruct (visitor_valid (v_Complete c)) eqn:V; simpl; [|intros [= <- <-]; by eauto].
    destruct (withStoreVisitorMutationAndReload _ _ _ _ _) as [r1 m1] eqn:E. intros [= <- <-].
    pose proof (visitor_change_live _ _ _ c m r1 m1 Hl (or_introl eq_refl) E) as H. right; right. exists wrap_add, i, (OAddVisitor c). destruct r1; naive_solver.
  - unfold UpdateStoreVisitor, validateStoreVisitorConfigurer. destruct (n =s? ""); [intros [= <- <-]; by eauto|].
    destruct (seqb_spec (conf_name c) n) as [<-|]; simpl; [|intros [= <- <-]; by eauto].
    destruct (visitor_valid (v_Complete c)) eqn:V; simpl; [|intros [= <- <-]; by eauto].
    destruct (withStoreVisitorMutationAndReload _ _ _ _ _) as [r1 m1] eqn:E. intros [= <- <-].
    pose proof (visitor_change_live _ _ _ c m r1 m1 Hl (or_intror eq_refl) E) as H. right; right. exists wrap_known, i, (OUpdateVisitor c). destruct r1; naive_solver.
  - unfold DeleteStoreVisitor. destruct (n =s? ""); [intros [= <- <-]; by eauto|]. intros H. right; right. by exists wrap_known, i, (ORemoveVisitor n).
Qed.

Lemma api_step_wf a m r m' : mgr_wf m → api_step a m = (r, m') → mgr_wf m' ∧ (∀ e, r = Err e → same m m').
Proof.
  intros Hwf H. destruct (api_step_cases a m r m' (wf_live m Hwf) H) as [[strict ->]|[[-> _]|(wrap & i & o & Hv & Hc)]].
  - by apply (reload_wf strict).
  - split; [done|]. intros; apply same_refl.
  - by eapply store_change_wf.
Qed.

Lemma api_run_wf m l : mgr_wf m → mgr_wf (api_run m l).
Proof.
  intros Hwf. unfold api_run. induction l as [|a l IH] using rev_ind; [done|]. rewrite foldl_app. cbn [foldl].
  destruct (api_step a _) as [r m'] eqn:E. by destruct (api_step_wf a _ r m' IH E).
Qed.

(** *** In step, whatever the configurations are *)

Section in_step.
Variable decode : bytes → option (list proxy_conf * list VisitorConfigurer).
Hypothesis decode_encode : ∀ d b, encode d = Some b → decode b = Some d.

(** The store in memory is what a restart reads, also after a crash. *)
Definition stored (x : option (source * disk)) : Prop :=
  match x with Some (s, f) => keyed_source s ∧ NewStoreSource decode f = Ok s ∧ main_synced f | None => True end.

Record in_step (m : mgr) : Prop := {
  gi_agg : g_aggregator m = true;
  gi_sync : ∃ c, g_config m = Some c ∧ keyed_source c ∧ g_applied m = effective c (fst <$> g_store m) (g_start m);
  gi_store : stored (g_store m) }.

Lemma in_step_live m : in_step m → live m.
Proof. intros [A (c & Hc & _) _]. split; [done|by exists c]. Qed.

Lemma NewMgr_in_step config store start path :
  keyed_source config → stored store → in_step (NewMgr config store start path).
Proof. intros Hc Hs. split; [done| |done]. by exists config. Qed.

Lemma store_change_in_step wrap i o m r m' :
  in_step m → withStoreMutationAndReload wrap i o m = (r, m') → in_step m' ∧ (∀ e, r = Err e → same m m').
Proof using decode_encode.
  intros Hi H. pose proof (in_step_live m Hi) as Hl. destruct Hi as [Ha (c & Hc & Kc & Happ) Hst].
  assert (stored (g_store m') ∧ g_aggregator m' = true) as [Hst' Ha'].
  { revert H. unfold withStoreMutationAndReload. destruct (g_store m) as [[s f]|] eqn:Es; [|intros [= <- <-]; by rewrite Es].
    destruct Hst as (Hk & Hf & Hsy). destruct (run_sop_eq encode i o s f) as [[_ [e ->]]|[Hal ->]]; [by intros [= <- <-]|].
    pose proof (persist_spec encode decode decode_encode i _ s f (intended_keyed o s Hk Hal) Hf Hsy) as Hp.
    destruct (persist encode i (intended o s) s f) as [[?|e] [s' f']]; destruct Hp as (Hn & Hs' & Hr).
    - destruct Hr as (-> & _). unfold reloadConfigFromSourcesLocked. cbn [g_aggregator g_config g_store g_start]. rewrite Ha, Hc.
      intros [= <- <-]. simpl. split_and!; [by apply intended_keyed|done..].
    - destruct Hr as (_ & -> & _). by intros [= <- <-]. }
  destruct (store_change wrap i o m r m' Hl H) as [(e & -> & Hs & _)|(-> & s & f & f' & Es & Hal & Es' & Ec & Est & _ & c' & Hc' & Happ')].
  - split; [|done]. destruct Hs as (E1 & E2 & _ & E4 & E5). split; [done| |done]. exists c. by rewrite E1, E2, E4, E5.
  - split; [|done]. split; [done| |done]. rewrite Hc in Hc'. injection Hc' as <-. exists c. rewrite Ec, Es', Est. by split_and!.
Qed.

Lemma reload_in_step strict m r m' :
  in_step m → ReloadFromFile strict m = (r, m') → in_step m' ∧ (∀ e, r = Err e → same m m').
Proof.
  intros [Ha (c & Hc & Kc & Happ) Hst]. assert (in_step m) as Hi by (split; [done|by exists c|done]).
  unfold ReloadFromFile. destruct (g_path m =s? ""); [intros [= <- <-]; auto using same_refl|].
  destruct (load (g_path m) strict) as [l|]; [|intros [= <- <-]; auto using same_refl].
  destruct (FilterClientConfigurers _ _ _) as [ps vs].
  destruct (negb _); [intros [= <- <-]; auto using same_refl|]. unfold UpdateConfigSource. rewrite Hc. unfold ReplaceAll.
  case_decide as D1; [intros [= <- <-]; auto using same_refl|].
  case_decide as D2; [intros [= <- <-]; auto using same_refl|].
  unfold reloadConfigFromSourcesLocked. cbn [g_aggregator g_config g_store g_start g_path]. rewrite Ha.
  intros [= <- <-]. split; [|done]. split; [done| |done]. eexists. split_and!; [done| |done].
  split; apply of_list_keyed, Forall_forall; intros x Hx Hn; [destruct D1|destruct D2]; apply Exists_exists; eauto.
Qed.

Lemma api_step_in_step a m r m' : in_step m → api_step a m = (r, m') → in_step m' ∧ (∀ e, r = Err e → same m m').
Proof using decode_encode.
  intros Hi H. destruct (api_step_cases a m r m' (in_step_live m Hi) H) as [[strict ->]|[[-> _]|(wrap & i & o & _ & Hc)]].
  - by apply (reload_in_step strict).
  - split; [done|]. intros; apply same_refl.
  - by eapply store_change_in_step.
Qed.

Lemma api_run_in_step m l : in_step m → in_step (api_run m l).
Proof using decode_encode.
  intros Hwf. unfold api_run. induction l as [|a l IH] using rev_ind; [done|]. rewrite foldl_app. cbn [foldl].
  destruct (api_step a _) as [r m'] eqn:E. by destruct (api_step_in_step a _ r m' IH E).
Qed.

(** What runs of a state whose entries are valid is valid. *)
Lemma wf_applied_valid m : mgr_wf m →
  Forall (λ p, proxy_valid p = true) (fst (g_applied m)) ∧ Forall (λ v, visitor_valid v = true) (snd (g_applied m)).
Proof.
  intros Hwf. destruct (gw_sync _ Hwf) as (c & Hc & Kc & Happ & P1 & P2). destruct (gw_store _ Hwf) as (Ks & Q1 & Q2).
  destruct (effective_spec c (fst <$> g_store m) (g_start m) Kc Ks) as (N1 & N2 & E1 & E2).
  rewrite <- Happ in E1, E2. fold (store_of m) in E1, E2. destruct Kc as [Kc1 Kc2], Ks as [Ks1 Ks2]. split.
  - apply Forall_forall. intros p (q & -> & [He [Hs|[Hf _]]] & Hst)%E1.
    + apply Q1. by apply elem_of_values.
    + apply P1; [by apply elem_of_values|done..].
  - apply Forall_forall. intros p (q & -> & [He [Hs|[Hf _]]] & Hst)%E2.
    + apply Q2. by apply elem_of_values.
    + apply P2; [by apply elem_of_values|done..].
Qed.

(** C20: the API keeps what runs, what is configured and what is on disk in step.  Take the
    service as it is made from a configuration file and, if there is one, from the store that
    its file on disk reads as.  After any requests - reloads of the file, creations, changes
    and deletions in the store, with any failures of the disk - the proxies and visitors that
    were handed to the session are exactly those the sources stand for: enabled, selected by
    [start], the store over the file, completed, with different names; a restart reads from
    disk the store that is in memory; and the next request that reports an error, of whatever
    kind, has changed neither the sources, nor the file of the store, nor what runs. If all
    entries of the file and of the store were valid at the start, all that runs is valid;
    without that condition it need not be ([uncovered_proxy_unchecked]). *)
Theorem api_in_step config store start path l :
  keyed_source config → stored store →
  let m0 := NewMgr config store start path in
  let m := api_run m0 l in
  (∃ c, g_config m = Some c ∧ g_applied m = effective c (fst <$> g_store m) (g_start m) ∧
     (∀ p, p ∈ fst (g_applied m) ↔ ∃ q, p = Complete _ plugin_Complete q ∧
        entry (s_proxies c) (s_proxies (store_of m)) q ∧ started (g_start m) (conf_name q) = true) ∧
     (∀ v, v ∈ snd (g_applied m) ↔ ∃ w, v = v_Complete w ∧
        entry (s_visitors c) (s_visitors (store_of m)) w ∧ started (g_start m) (conf_name w) = true)) ∧
  NoDup (conf_name <$> fst (g_applied m)) ∧ NoDup (conf_name <$> snd (g_applied m)) ∧
  (∀ s f, g_store m = Some (s, f) → NewStoreSource decode f = Ok s) ∧
  (∀ a e m', api_step a m = (Err e, m') → same m m') ∧
  (mgr_wf m0 → Forall (λ p, proxy_valid p = true) (fst (g_applied m)) ∧ Forall (λ v, visitor_valid v = true) (snd (g_applied m))).
Proof using decode_encode.
  intros Kc0 Hst0 m0 m1. pose proof (api_run_in_step m0 l (NewMgr_in_step config store start path Kc0 Hst0) : in_step m1) as Hi.
  destruct (gi_sync _ Hi) as (c & Hc & Kc & Happ). pose proof (gi_store _ Hi) as Hst.
  assert (keyed_source (store_of m1)) as Ks.
  { unfold store_of. destruct (g_store m1) as [[s f]|]; [apply Hst|apply keyed_new]. }
  destruct (effective_spec c (fst <$> g_store m1) (g_start m1) Kc Ks) as (N1 & N2 & E1 & E2).
  rewrite <- Happ in N1, N2, E1, E2. fold (store_of m1) in E1, E2.
  split_and!; [by exists c|done|done| |intros a e m' H; by eapply (api_step_in_step a m1)|].
  - intros s f E. rewrite E in Hst. apply Hst.
  - intros Hwf. by apply wf_applied_valid, api_run_wf.
Qed.
End in_step.

(** How a request for a new proxy ends, by what it finds. *)
Lemma create_outcome i c m :
  mgr_wf m →
  fst (CreateStoreProxy i c m) =
    if negb (validateStoreProxyConfigurer c) then Err ErrInvalidArgument
    else match g_store m with
         | None => Err ErrStoreDisabled
         | Some (s, _) =>
             if conf_name c =s? "" then Err Internal
             else match s_proxies s !! conf_name c with
                  | Some _ => Err ErrConflict
                  | None => if all_ok i && bool_decide (is_Some (save_data encode (intended (OAddProxy c) s))) then Ok c else Err Internal
                  end
         end.
Proof.
  intros Hwf. unfold CreateStoreProxy. destruct (validateStoreProxyConfigurer c); [|done]. cbn [negb].
  unfold withStoreProxyMutationAndReload, withStoreMutationAndReload. destruct (g_store m) as [[s f]|] eqn:Es; [|done].
  unfold run_sop, AddProxy. destruct (conf_name c =s? ""); [done|].
  destruct (s_proxies s !! conf_name c) eqn:E; [done|]. unfold persist.
  change (set_proxies (<[conf_name c := c]> (s_proxies s)) s) with (intended (OAddProxy c) s).
  pose proof (saveToFile_spec encode i (intended (OAddProxy c) s) f) as Hs.
  destruct (saveToFile encode i (intended (OAddProxy c) s) f) as [ok f'].
  destruct (save_data encode (intended (OAddProxy c) s)) as [d|].
  - destruct Hs as [-> _]. rewrite bool_decide_true by eauto. rewrite andb_true_r.
    destruct (all_ok i); [|done]. unfold reloadConfigFromSourcesLocked. cbn [g_aggregator g_config g_store].
    destruct (gw_sync _ Hwf) as (c' & Hc' & _). rewrite (gw_agg _ Hwf), Hc'. simpl. unfold GetProxy. simpl. by rewrite lookup_insert_eq.
  - destruct Hs as [-> _]. rewrite bool_decide_false by (intros [? ?]; done). by rewrite andb_false_r.
Qed.

(** A request that comes after the stop of the service changes nothing and is refused. *)
Lemma api_after_stop a m : ∃ e, api_step a (mgr_stop m) = (Err e, mgr_stop m).
Proof.
  destruct a; cbn [api_step]; unfold ReloadFromFile, CreateStoreProxy, UpdateStoreProxy, DeleteStoreProxy,
    CreateStoreVisitor, UpdateStoreVisitor, DeleteStoreVisitor, withStoreProxyMutationAndReload,
    withStoreVisitorMutationAndReload, withStoreMutationAndReload, UpdateConfigSource; simpl; repeat case_match; simplify_eq/=; eauto.
Qed.
End manager.

(** ** Witness: a store on a disk that works *)

Definition w_store_proxy (n : string) : proxy_conf :=
  TCPProxyConfig (mkBase n "tcp" None ∅ (mkTransport false false zero_bandwidth "client" "") ∅ (mkLoadBalancer "" "")
    (mkHealthCheck "" 0 0 0 "" []) (mkBackend "127.0.0.1" 22 None)) 6000.
Definition w_io : io := fine.
Definition w_encode (x : list proxy_conf * list VisitorConfigurer) : option nat := Some 0%nat.
Definition w_load (p : string) (strict : bool) : result load_error ClientConfigLoadResult := Err ReadError.
Definition w_mgr : mgr (bytes := nat) := NewMgr newBaseSource (Some (newBaseSource, mkFs None None)) [] "frpc.toml".

Lemma w_mgr_wf : mgr_wf (λ _, []) w_mgr.
Proof.
  split; [done| |].
  - exists newBaseSource. split_and!; [done|apply keyed_new|done|by intros q H%not_elem_of_nil..].
  - split_and!; [apply keyed_new|by intros q H%not_elem_of_nil..].
Qed.

(** A format that can be read back. *)
Abbreviation stored_lists := (list proxy_conf * list VisitorConfigurer)%type.

Lemma api_in_step_witness :
  let m := api_run (λ _, []) (λ d : stored_lists, Some d) w_load (λ _, true)
    (NewMgr newBaseSource (Some (newBaseSource, mkFs None None)) [] "frpc.toml") [ACreateProxy w_io (w_store_proxy "a")] in
  fst (g_applied m) = [w_store_proxy "a"] ∧
  (∀ s f, g_store m = Some (s, f) → NewStoreSource (λ d : stored_lists, Some d) f = Ok s).
Proof.
  split; [vm_compute; reflexivity|].
  destruct (api_in_step (λ _, []) (λ d : stored_lists, Some d) w_load (λ _, true) (λ d, Some d)
    ltac:(intros d b H; injection H as <-; reflexivity) newBaseSource (Some (newBaseSource, mkFs None None)) [] "frpc.toml"
    [ACreateProxy w_io (w_store_proxy "a")]) as (_ & _ & _ & H & _).
  - apply keyed_new.
  - split; [apply keyed_new|]. split; [reflexivity|]. discriminate.
  - exact H.
Defined.
