(* ===== verification/ServerMuxProxy.v ===== *)
(** The proxies of the server that share a listener: HTTPS and tcpmux
    ([src/server/proxy/https.go], [tcpmux.go]), with and without load-balancing groups, over one
    muxer; and the secret ones: stcp, sudp and xtcp ([stcp.go], [sudp.go], [xtcp.go]).

    A proxy without a group registers its routes with the muxer itself, one with a group
    through the group, so the muxer is used by both.  The state of the muxer carries, beside
    the routes, the list of the listeners that proxies hold directly: it decides nothing and
    says whose a route is. *)
From Stdlib Require Import ZArith Lia Ascii String.
From stdpp Require Import base gmap strings list relations.
From S2P Require Import Prelude GoStrings Router Vhost Group ListenGroups ProxyConf Validation ServerProxy Nathole.
Local Open Scope string_scope.
Local Open Scope list_scope.

#[global] Instance Listener_eq_dec : EqDecision Listener.
Proof. solve_decision. Defined.

(** ** The muxer under groups and proxies *)

Section muxer.
Context {F : Type}.
Abbreviation cfg := (RouteConfig F).

(** Routes, and the listeners held without a group. *)
Abbreviation mux_state := (Routers Listener * list Listener)%type.

Definition dmux_open (u : unit) (c : cfg) (r : mux_state) : result RouterError Listener * mux_state :=
  let '(h, rs) := mux_open u c (fst r) in (h, (rs, snd r)).
Definition dmux_close (u : unit) (l : Listener) (r : mux_state) : mux_state := (mux_close u l (fst r), snd r).

(** For the groups a listener is live when it is registered and no proxy holds it directly. *)
Definition dmux_resource (check : cfg → cfg → option (GroupError RouterError))
    : GroupResource unit cfg mux_state Listener RouterError := {|
  res_open := dmux_open;
  res_close := dmux_close;
  res_check := check;
  live r l := listening (fst r) l ∧ l ∉ snd r;
  res_ok r := wf_routers (fst r) ∧ NoDup (snd r) ∧ ∀ l, l ∈ snd r → listening (fst r) l;
  env_ok _ _ := True |}.

Lemma dmux_laws check : @GroupResourceLaws unit cfg mux_state Listener RouterError (dmux_resource check).
Proof.
  split; simpl; unfold dmux_open, dmux_close, mux_open, mux_close.
  - intros _ prm [rs D] h r' (Hw & Hn & Hd) _. cbn [fst snd] in *. destruct (mux_Listen prm rs) as [[l rs']|] eqn:Hl; [|done].
    intros ?; simplify_eq; cbn [fst snd] in *. destruct (mux_Listen_listening prm rs _ rs' Hw Hl) as (Hw' & Hnl & Hiff).
    split_and!; [done|done| | |].
    + intros l' Hl'. apply Hiff. left. by apply Hd.
    + intros [? _]. done.
    + intros l'. rewrite Hiff. split; [naive_solver|]. intros [[? ?]| ->]; [by auto|]. split; [by right|]. intros ?%Hd. done.
  - intros _ prm [rs D] e r' Hr _. cbn [fst snd] in *. destruct (mux_Listen prm rs) as [[l rs']|]; [done|].
    intros ?; by simplify_eq.
  - intros _ h [rs D] (Hw & Hn & Hd) [Hl Hni]. cbn [fst snd] in *.
    destruct (listener_Close_listening rs h Hw Hl) as [Hw' Hiff]. split_and!; [done|done| |].
    + intros l' Hl'. apply Hiff. split; [by apply Hd|]. intros ->. done.
    + intros l'. rewrite Hiff. naive_solver.
Qed.

Section proxies.
(** [https_check] or [tcpmux_check]: what the members of a group must agree on. *)
Variable check : cfg → cfg → option (GroupError RouterError).
#[local] Instance the_resource : GroupResource unit cfg mux_state Listener RouterError := dmux_resource check.
#[local] Instance the_laws : GroupResourceLaws unit cfg mux_state Listener RouterError := dmux_laws check.

Abbreviation state := (ctl cfg mux_state Listener).

(** A listener of a proxy: of the muxer, or of a group. *)
Inductive handle := HMux (l : Listener) | HGroup (ln : nat).

(** [listenForDomain], [httpConnectListen]; [fuel] bounds the retries of the controller's
    loop, which a run without interference leaves in the first round. *)
Definition listen_one (fuel : nat) (group key : string) (c : cfg) (s : state)
    : option (result (GroupError RouterError) handle) * state :=
  if negb (group =s? "") then
    match ctl_listen fuel tt group key c s with
    | Some (Ok ln, s) => (Some (Ok (HGroup ln)), s)
    | Some (Err e, s) => (Some (Err e), s)
    | None => (None, s)
    end
  else match mux_Listen c (fst (res s)) with
       | Ok (l, rs) => (Some (Ok (HMux l)), set_res (rs, l :: snd (res s)) s)
       | Err e => (Some (Err (ErrResource e)), s)
       end.

(** [Listener.Close] of either kind; [None] is a panic. *)
Definition close_one (h : handle) (s : state) : option state :=
  match h with
  | HMux l => Some (set_res (listener_Close l (fst (res s)), remove_one l (snd (res s))) s)
  | HGroup ln => ln_close tt ln s
  end.

(** [BaseProxy.Close]: every listener, in order. *)
Fixpoint close_all (hs : list handle) (s : state) : option state :=
  match hs with [] => Some s | h :: hs => s ← close_one h s; close_all hs s end.

(** The loop over the domains; the listeners so far are fields of the proxy. *)
Fixpoint listen_all (fuel : nat) (group key : string) (cs : list cfg) (hs : list handle) (s : state)
    : option (result (GroupError RouterError) unit) * list handle * state :=
  match cs with
  | [] => (Some (Ok tt), hs, s)
  | c :: cs =>
      match listen_one fuel group key c s with
      | (Some (Ok h), s) => listen_all fuel group key cs (hs ++ [h]) s
      | (Some (Err e), s) => (Some (Err e), hs, s)
      | (None, s) => (None, hs, s)
      end
  end.

Inductive mux_run_error := RunGroup (e : GroupError RouterError) | RunUnknownMultiplexer (m : string).

(** [Run] from the routes of the domains on: an error closes what was opened. *)
Definition run_routes (fuel : nat) (group key : string) (cs : list cfg) (s : state)
    : option (result mux_run_error (list handle) * state) :=
  match listen_all fuel group key cs [] s with
  | (Some (Ok _), hs, s) => Some (Ok hs, s)
  | (Some (Err e), hs, s) => s ← close_all hs s; Some (Err (RunGroup e), s)
  | (None, _, _) => None
  end.
(** ** Interleavings *)

Hypothesis check_not_stale : ∀ a b, check a b ≠ Some errGroupStale.

(** A step of the muxer: of a group, or of a proxy that listens or closes by itself. *)
Inductive mstep : state → state → Prop :=
| m_group s s' : gstep false s s' → mstep s s'
| m_listen s (c : cfg) l rs : mux_Listen c (fst (res s)) = Ok (l, rs) → mstep s (set_res (rs, l :: snd (res s)) s)
| m_close s l : l ∈ snd (res s) → mstep s (set_res (listener_Close l (fst (res s)), remove_one l (snd (res s))) s).

Lemma mstep_inv s s' : inv false s → mstep s s' → inv false s'.
Proof.
  intros Hi Hs. destruct Hs as [s s' Hg|s c l rs Hl|s l Hl]; [by eapply gstep_inv| |].
  - pose proof (i_res _ _ Hi) as (Hw & Hn & Hd). destruct (mux_Listen_listening c _ l rs Hw Hl) as (Hw' & Hnl & Hiff).
    apply set_res_same_inv; [done| |].
    + simpl. split_and!; [done|constructor; [|done]; by intros ?%Hd|]. intros l' [->|Hl']%elem_of_cons; apply Hiff; auto.
    + intros h. simpl. rewrite Hiff, not_elem_of_cons. split; [naive_solver|]. intros [H1 H2]. split_and!; [by left|by intros ->|done].
  - pose proof (i_res _ _ Hi) as (Hw & Hn & Hd). destruct (listener_Close_listening _ l Hw (Hd l Hl)) as [Hw' Hiff].
    apply set_res_same_inv; [done| |].
    + simpl. split_and!; [done|by apply remove_one_NoDup|]. intros l' Hl'%remove_one_NoDup_iff; [|done]. apply Hiff. naive_solver.
    + intros h. simpl. rewrite Hiff, remove_one_NoDup_iff by done. split; [|naive_solver].
      intros [[H1 H2] H3]. split; [done|]. intros H4. by destruct H3.
Qed.

Definition mux_init : state := init (NewRouters, []).

Lemma mux_reach_inv s : rtc mstep mux_init s → inv false s.
Proof.
  apply (rtc_ind_r (inv false)); [|intros x y _ Hxy Hx; by eapply mstep_inv].
  apply init_inv.
  - split; [apply NewRouters_wf|]. split; [constructor|]. intros l H. by apply not_elem_of_nil in H.
  - intros _ h [(r & Hr & _) _]. unfold routers_at, NewRouters in Hr. simpl in Hr. rewrite lookup_empty in Hr. by apply not_elem_of_nil in Hr.
Qed.

(** *** [Run] and [Close] are made of these steps *)

(** What a proxy holds: listeners of the muxer, and listeners of groups. *)
Definition directs (hs : list handle) : list Listener := omap (λ h, match h with HMux l => Some l | HGroup _ => None end) hs.
Definition members (hs : list handle) : list nat := omap (λ h, match h with HMux _ => None | HGroup ln => Some ln end) hs.

(** The listeners of groups that are not closed. *)
Definition open_ln (s : state) (ln : nat) : Prop := is_Some (ln_group s !! ln) ∧ ln ∉ ln_closed s.

Lemma directs_app a b : directs (a ++ b) = directs a ++ directs b.
Proof. apply omap_app. Qed.
Lemma members_app a b : members (a ++ b) = members a ++ members b.
Proof. apply omap_app. Qed.

Lemma remove_one_Permutation (l : Listener) D : l ∈ D → D ≡ₚ l :: remove_one l D.
Proof.
  induction D as [|x D IH]; intros Hl; [by apply not_elem_of_nil in Hl|]. simpl. case_decide as Hx; [by subst|].
  apply elem_of_cons in Hl as [->|Hl]; [done|]. rewrite (IH Hl) at 1. by constructor.
Qed.

Lemma ln_close_fields ln s s' :
  ln_close tt ln s = Some s' →
  snd (res s') = snd (res s) ∧ ln_group s' = ln_group s ∧
  (∀ k, open_ln s' k ↔ open_ln s k ∧ k ≠ ln).
Proof.
  unfold ln_close, open_ln. destruct (ln_group s !! ln) as [l|] eqn:E.
  2:{ intros [= <-]. split_and!; [done..|]. intros k. split; [|naive_solver]. intros [[x Hx] ?]. split; [by eauto|]. intros ->. congruence. }
  case_decide as Hc; [intros [= <-]; split_and!; [done..|]; naive_solver|].
  unfold closeListener, removeIf. simpl. intros H.
  assert (snd (res s') = snd (res s) ∧ ln_group s' = ln_group s ∧ ln_closed s' = {[ln]} ∪ ln_closed s) as (-> & -> & ->).
  { revert H. repeat (case_match; simplify_eq/=); intros; simplify_eq/=; try done. }
  split_and!; [done..|]. intros k. rewrite not_elem_of_union, not_elem_of_singleton. naive_solver.
Qed.

Lemma group_listen_fields l group key c s r s' :
  inv false s → group_listen tt l group key c s = (r, s') →
  snd (res s') = snd (res s) ∧
  match r with
  | Ok ln => ¬ open_ln s ln ∧ ∀ k, open_ln s' k ↔ open_ln s k ∨ k = ln
  | Err _ => ∀ k, open_ln s' k ↔ open_ln s k
  end.
Proof.
  intros Hi. destruct (i_fresh _ _ Hi (next s) (Nat.le_refl _)) as [_ Hf].
  assert (next s ∉ ln_closed s) as Hnc by (intros [x Hx]%(i_closed _ _ Hi); congruence).
  assert (∀ m cl, m = ln_group s → cl = ln_closed s → ∀ k, (is_Some (<[next s := l]> m !! k) ∧ k ∉ cl) ↔ open_ln s k ∨ k = next s) as Hnew.
  { intros m cl -> -> k. unfold open_ln. destruct (decide (k = next s)) as [->|Hk].
    - rewrite lookup_insert_eq. naive_solver.
    - rewrite lookup_insert_ne by done. naive_solver. }
  unfold group_listen, newListener. simpl. unfold dmux_open.
  repeat (case_match; simplify_eq/=); intros; simplify_eq/=; try (split_and!; done);
    (split; [done|split; [unfold open_ln; rewrite Hf; by intros [[? ?] _]|intros k; by apply Hnew]]).
Qed.

(** One listener more: of the muxer or of the group. *)
Lemma listen_one_spec fuel group key c s r s' :
  inv false s → listen_one (S fuel) group key c s = (r, s') →
  rtc mstep s s' ∧ inv false s' ∧
  match r with
  | Some (Ok h) => snd (res s') = directs [h] ++ snd (res s) ∧
      (∀ k, k ∈ members [h] → ¬ open_ln s k) ∧ (∀ k, open_ln s' k ↔ open_ln s k ∨ k ∈ members [h])
  | Some (Err _) => snd (res s') = snd (res s) ∧ ∀ k, open_ln s' k ↔ open_ln s k
  | None => False
  end.
Proof.
  intros Hi H. enough (rtc mstep s s' ∧ match r with
  | Some (Ok h) => snd (res s') = directs [h] ++ snd (res s) ∧
      (∀ k, k ∈ members [h] → ¬ open_ln s k) ∧ (∀ k, open_ln s' k ↔ open_ln s k ∨ k ∈ members [h])
  | Some (Err _) => snd (res s') = snd (res s) ∧ ∀ k, open_ln s' k ↔ open_ln s k
  | None => False
  end) as [H1 H2].
  { split_and!; [done| |done]. eapply (rtc_ind_r (inv false) s); [done|intros x y _ Hxy Hx; by eapply mstep_inv|done]. }
  revert H. unfold listen_one. destruct (seqb_spec group "") as [->|Hne]; cbn [negb].
  - destruct (mux_Listen c (fst (res s))) as [[l rs]|e] eqn:E; intros [= <- <-]; [|done].
    split; [apply rtc_once; by eapply m_listen|]. simpl. split_and!; [done|intros k H; by apply not_elem_of_nil in H|].
    intros k. split; [by left|]. intros [?|H]; [done|by apply not_elem_of_nil in H].
  - pose proof (ctl_listen_first s tt group key c fuel (i_heap _ _ Hi) check_not_stale) as Hf.
    assert (mstep s (snd (getOrCreate group s))) as Hg1 by apply m_group, step_get.
    pose proof (getOrCreate_inv false s group Hi) as Hi1.
    assert (snd (res (snd (getOrCreate group s))) = snd (res s) ∧ ∀ k, open_ln (snd (getOrCreate group s)) k ↔ open_ln s k) as [Hr1 Ho1]
      by (unfold getOrCreate; by destruct (groups s !! group)).
    destruct (getOrCreate group s) as [l s1]. cbn [snd] in *. destruct Hf as [-> _].
    pose proof (step_listen false s1 tt l group key c I) as Hg2.
    destruct (group_listen tt l group key c s1) as [r1 s2] eqn:Hl. cbn [snd] in Hg2.
    destruct (group_listen_fields l group key c s1 r1 s2 Hi1 Hl) as [Hd Hr].
    assert (rtc mstep s s2) as Hsteps by (eapply rtc_l; [done|]; by apply rtc_once, m_group).
    destruct r1 as [ln|e]; intros [= <- <-]; (split; [done|]); simpl; rewrite Hd, Hr1.
    + destruct Hr as [Hr Hr']. split_and!; [done| |].
      * intros k ->%list_elem_of_singleton. by rewrite <- Ho1.
      * intros k. by rewrite Hr', Ho1, list_elem_of_singleton.
    + split; [done|]. intros k. by rewrite Hr, Ho1.
Qed.

Lemma listen_all_spec fuel group key cs hs s0 s r hs' s' :
  inv false s → rtc mstep s0 s →
  snd (res s) ≡ₚ directs hs ++ snd (res s0) → NoDup (members hs) → (∀ k, k ∈ members hs → ¬ open_ln s0 k) →
  (∀ k, open_ln s k ↔ open_ln s0 k ∨ k ∈ members hs) →
  listen_all (S fuel) group key cs hs s = (r, hs', s') →
  r ≠ None ∧ rtc mstep s0 s' ∧ inv false s' ∧ snd (res s') ≡ₚ directs hs' ++ snd (res s0) ∧ NoDup (members hs') ∧
  (∀ k, k ∈ members hs' → ¬ open_ln s0 k) ∧ (∀ k, open_ln s' k ↔ open_ln s0 k ∨ k ∈ members hs') ∧
  (r = Some (Ok tt) → length hs' = (length hs + length cs)%nat).
Proof.
  revert hs s. induction cs as [|c cs IH]; intros hs s Hi Hst Hd Hnd Hfr Ho; cbn [listen_all].
  { intros [= <- <- <-]. split_and!; done. }
  destruct (listen_one (S fuel) group key c s) as [r1 s1] eqn:E.
  destruct (listen_one_spec fuel group key c s r1 s1 Hi E) as (Hs1 & Hi1 & Hr).
  assert (rtc mstep s0 s1) as Hs01 by (by etransitivity).
  destruct r1 as [[h|e]|]; [|destruct Hr as [Hr1 Hr2]; intros [= <- <- <-]; split_and!; try done|done].
  - destruct Hr as (Hr1 & Hr2 & Hr3). intros H. destruct (IH (hs ++ [h]) s1 Hi1 Hs01) as (A1 & A2 & A3 & A4 & A5 & A6 & A7 & A8); [| | | |exact H|].
    + rewrite Hr1, Hd, directs_app, !app_assoc. f_equiv. apply Permutation_app_comm.
    + rewrite members_app. apply NoDup_app. split_and!; [done| |destruct h; simpl; [constructor|apply NoDup_singleton]].
      intros k Hk Hk'. apply (Hr2 k Hk'). apply Ho. by right.
    + intros k. rewrite members_app, elem_of_app. intros [Hk|Hk]; [by apply Hfr|]. intros Hop. apply (Hr2 k Hk), Ho. by left.
    + intros k. rewrite Hr3, Ho, members_app, elem_of_app. tauto.
    + split_and!; try done. intros ->. rewrite A8 by done. rewrite length_app. simpl. lia.
  - by rewrite Hr1.
  - intros k. by rewrite Hr2.
Qed.

Lemma close_all_spec hs s :
  inv false s → directs hs ⊆+ snd (res s) →
  ∃ s', close_all hs s = Some s' ∧ rtc mstep s s' ∧ inv false s' ∧ snd (res s) ≡ₚ directs hs ++ snd (res s') ∧
    ∀ k, open_ln s' k ↔ open_ln s k ∧ k ∉ members hs.
Proof.
  revert s. induction hs as [|h hs IH]; intros s Hi Hd.
  { exists s. split_and!; try done. intros k. split; [intros ?; split; [done|apply not_elem_of_nil]|naive_solver]. }
  cbn [close_all]. destruct h as [l|ln]; cbn [close_one].
  - simpl in Hd. assert (l ∈ snd (res s)) as Hl by (eapply elem_of_submseteq; [left|exact Hd]).
    pose proof (remove_one_Permutation l _ Hl) as Hp. rewrite Hp in Hd. apply (submseteq_app_inv_l _ _ [l]) in Hd.
    pose proof (m_close s l Hl) as Hstep. pose proof (mstep_inv _ _ Hi Hstep) as Hi1.
    set (s1 := set_res _ s) in *. destruct (IH s1 Hi1 Hd) as (s' & Hc & Hs & Hi' & Hp' & Ho).
    exists s'. simpl. split_and!; [done|by eapply rtc_l|done| |].
    + rewrite Hp. simpl in Hp'. by rewrite Hp'.
    + intros k. by rewrite Ho.
  - destruct (ln_close_inv false s tt ln Hi) as (s1 & Hc1 & Hi1). rewrite Hc1. simpl.
    destruct (ln_close_fields ln s s1 Hc1) as (Hr1 & _ & Ho1).
    destruct (IH s1 Hi1) as (s' & Hc & Hs & Hi' & Hp' & Ho); [by rewrite Hr1|].
    exists s'. split_and!; [done| |done|by rewrite <- Hr1|].
    + eapply rtc_l; [|done]. apply m_group. by eapply step_close.
    + intros k. rewrite Ho, Ho1. simpl. rewrite not_elem_of_cons. naive_solver.
Qed.

(** [Run] is all or nothing, with and without a group. *)
Lemma run_routes_spec fuel group key cs s :
  inv false s →
  ∃ r s', run_routes (S fuel) group key cs s = Some (r, s') ∧ rtc mstep s s' ∧ inv false s' ∧
  match r with
  | Err _ => snd (res s') ≡ₚ snd (res s) ∧ ∀ k, open_ln s' k ↔ open_ln s k
  | Ok hs => length hs = length cs ∧ snd (res s') ≡ₚ directs hs ++ snd (res s) ∧
      (∀ k, open_ln s' k ↔ open_ln s k ∨ k ∈ members hs) ∧
      ∃ s'', close_all hs s' = Some s'' ∧ rtc mstep s' s'' ∧
        snd (res s'') ≡ₚ snd (res s) ∧ ∀ k, open_ln s'' k ↔ open_ln s k
  end.
Proof.
  intros Hi. unfold run_routes. destruct (listen_all (S fuel) group key cs [] s) as [[r hs] s1] eqn:E.
  destruct (listen_all_spec fuel group key cs [] s s r hs s1 Hi (rtc_refl _ _)) as (A1 & A2 & A3 & A4 & A5 & A6 & A7 & A8);
    [done|constructor|by intros k H%not_elem_of_nil|intros k; split; [by left|]; intros [?|H]; [done|by apply not_elem_of_nil in H]|exact E|].
  destruct (close_all_spec hs s1 A3) as (s2 & B1 & B2 & B3 & B4 & B5); [rewrite A4; by apply submseteq_inserts_r|].
  assert (snd (res s2) ≡ₚ snd (res s)) as Hr by (apply (Permutation_app_inv_l (directs hs)); by rewrite <- B4, <- A4).
  assert (∀ k, open_ln s2 k ↔ open_ln s k) as Ho.
  { intros k. rewrite B5, A7. split; [naive_solver|]. intros H. split; [by left|]. intros H'. by apply (A6 k). }
  destruct r as [[[]|e]|]; [| |done].
  - exists (Ok hs), s1. split_and!; [done..|by apply A8|done|done|]. exists s2. done.
  - rewrite B1. simpl. exists (Err (RunGroup e)), s2. split_and!; try done. by etransitivity.
Qed.
End proxies.

(** [HTTPSProxy.Run] and [TCPMuxProxy.Run]. *)
Definition https_cfg (dom : string) : cfg := mkRouteConfig dom "" "" "" "" ∅ ∅ "" None None None.
Definition https_Run (fuel : nat) (s : ServerConfig) (lb : LoadBalancerConfig) (d : DomainConfig) :=
  run_routes https_check fuel (Group lb) (GroupKey lb) (https_cfg <$> buildDomains s (CustomDomains d) (SubDomain d)).

Definition tcpmux_cfg (t : TCPMuxFields) (dom : string) : cfg :=
  mkRouteConfig dom "" "" (tf_HTTPUser t) (tf_HTTPPassword t) ∅ ∅ (tf_RouteByHTTPUser t) None None None.
Definition tcpmux_Run (fuel : nat) (s : ServerConfig) (lb : LoadBalancerConfig) (d : DomainConfig) (t : TCPMuxFields)
    (st : ctl cfg mux_state Listener) :=
  if Multiplexer t =s? "httpconnect"
  then run_routes tcpmux_check fuel (Group lb) (GroupKey lb) (tcpmux_cfg t <$> buildDomains s (CustomDomains d) (SubDomain d)) st
  else Some (Err (RunUnknownMultiplexer (Multiplexer t)), st).


Lemma https_check_not_stale a b : https_check (F := F) a b ≠ Some errGroupStale.
Proof. unfold https_check. by case_match. Qed.
Lemma tcpmux_check_not_stale a b : tcpmux_check (F := F) a b ≠ Some errGroupStale.
Proof. unfold tcpmux_check. by case_match. Qed.

(** HTTPS proxies share the muxer without leaking routes.  In every interleaving of
    proxies that listen and close, directly or through groups: a route is registered exactly
    when a group with members owns it or a proxy holds it, never both; and then [Run] of any
    HTTPS proxy ends, either with one listener per domain, all of which its [Close] gives back,
    or, when a domain is taken or the group refuses it, with an error and nothing left
    of the listeners it had opened, in the muxer or in the group. *)
Theorem https_proxies_share_muxer st fuel s lb d :
  rtc (mstep https_check) mux_init st →
  let domains := buildDomains s (CustomDomains d) (SubDomain d) in
  (∀ l, listening (fst (res st)) l ↔ owned st l ∨ l ∈ snd (res st)) ∧ (∀ l, owned st l → l ∉ snd (res st)) ∧
  ∃ r st', https_Run (S fuel) s lb d st = Some (r, st') ∧ rtc (mstep https_check) mux_init st' ∧
  match r with
  | Ok hs => length hs = length domains ∧
      (∀ k, open_ln st' k ↔ open_ln st k ∨ k ∈ members hs) ∧ snd (res st') ≡ₚ directs hs ++ snd (res st) ∧
      ∃ st'', close_all https_check hs st' = Some st'' ∧ rtc (mstep https_check) mux_init st'' ∧
        snd (res st'') ≡ₚ snd (res st) ∧ ∀ k, open_ln st'' k ↔ open_ln st k
  | Err _ => snd (res st') ≡ₚ snd (res st) ∧ ∀ k, open_ln st' k ↔ open_ln st k
  end.
Proof.
  intros Hr domains. pose proof (mux_reach_inv https_check st Hr) as Hi. pose proof (i_res _ _ Hi) as (_ & _ & Hd).
  assert (∀ l, owned st l → listening (fst (res st)) l ∧ l ∉ snd (res st)) as Hown
    by (intros l Hl; exact (@inv_owned_live _ _ _ _ _ (dmux_resource https_check) _ _ _ Hi Hl)).
  split_and!.
  - intros l. split; [|intros [Hl|Hl]; [by apply Hown|by apply Hd]]. intros Hl.
    destruct (decide (l ∈ snd (res st))); [by right|left]. by apply (i_exact _ _ Hi).
  - intros l Hl. by apply Hown.
  - destruct (run_routes_spec https_check https_check_not_stale fuel (Group lb) (GroupKey lb) (https_cfg <$> domains) st Hi)
      as (r & st' & E & Hs & _ & Hr'). exists r, st'. split; [done|]. split; [by etransitivity|].
    destruct r as [hs|e]; [|done]. destruct Hr' as (Hl & Hp & Ho & st'' & Hc & Hs' & Hp' & Ho').
    rewrite length_fmap in Hl. split_and!; try done. exists st''. split_and!; try done. by do 2 (etransitivity; [done|]).
Qed.

(** The same for tcpmux proxies. *)
Lemma tcpmux_run_all_or_nothing st fuel s lb d t :
  rtc (mstep tcpmux_check) mux_init st →
  ∃ r st', tcpmux_Run (S fuel) s lb d t st = Some (r, st') ∧ rtc (mstep tcpmux_check) mux_init st' ∧
  match r with
  | Ok hs => Multiplexer t = "httpconnect" ∧ length hs = length (buildDomains s (CustomDomains d) (SubDomain d)) ∧
      ∃ st'', close_all tcpmux_check hs st' = Some st'' ∧
        snd (res st'') ≡ₚ snd (res st) ∧ ∀ k, open_ln st'' k ↔ open_ln st k
  | Err _ => snd (res st') ≡ₚ snd (res st) ∧ ∀ k, open_ln st' k ↔ open_ln st k
  end.
Proof.
  intros Hr. pose proof (mux_reach_inv tcpmux_check st Hr) as Hi. unfold tcpmux_Run.
  destruct (seqb_spec (Multiplexer t) "httpconnect") as [Hm|Hm]; [|eexists _, _; split_and!; done].
  destruct (run_routes_spec tcpmux_check tcpmux_check_not_stale fuel (Group lb) (GroupKey lb)
    (tcpmux_cfg t <$> buildDomains s (CustomDomains d) (SubDomain d)) st Hi) as (r & st' & E & Hs & _ & Hr').
  exists r, st'. split; [done|]. split; [by etransitivity|]. destruct r as [hs|e]; [|done].
  destruct Hr' as (Hl & Hp & Ho & st'' & Hc & Hs' & Hp' & Ho'). rewrite length_fmap in Hl. split_and!; try done. by exists st''.
Qed.
End muxer.

(** ** Secret proxies *)

(** [Close] closes the listener, then gives the name back. *)
Definition stcp_Run {Conn} (name user sk : string) (users : list string) (vm : VisitorManager Conn)
    : result visitor_error (VisitorManager Conn) := startVisitorListener name user sk users vm.
Definition stcp_Close {Conn} (name : string) (vm : VisitorManager Conn) : VisitorManager Conn := vm_CloseListener name (ln_Close name vm).
Definition sudp_Run {Conn} (name user sk : string) (users : list string) (vm : VisitorManager Conn)
    : result visitor_error (VisitorManager Conn) := startVisitorListener name user sk users vm.
Definition sudp_Close {Conn} (name : string) (vm : VisitorManager Conn) : VisitorManager Conn := vm_CloseListener name (ln_Close name vm).

Inductive xtcp_error := XtcpNotSupported | XtcpRepeated.

(** [XTCPProxy]: the controller may be missing, and a close is done once. *)
Definition xtcp_Run (name user sk : string) (users : list string) (c : option Controller) : result xtcp_error (option Controller) :=
  match c with
  | None => Err XtcpNotSupported
  | Some c => match ListenClient name sk (match users with [] => [user] | _ => users end) c with
              | Some c => Ok (Some c)
              | None => Err XtcpRepeated
              end
  end.
Definition xtcp_Close (name : string) (closed : bool) (c : Controller) : bool * Controller :=
  if closed then (true, c) else (true, CloseClient name c).

(** A secret proxy takes its name if it is free, and its [Close] gives it back; the users are
    those of the configuration, or its own. *)
Lemma secret_run_close {Conn} name user sk users (vm : VisitorManager Conn) c :
  (is_ok (stcp_Run name user sk users vm) = true ↔ vm !! name = None) ∧
  (∀ vm', stcp_Run name user sk users vm = Ok vm' → stcp_Close name vm' = vm) ∧
  (is_ok (xtcp_Run name user sk users (Some c)) = true ↔ clientCfgs c !! name = None) ∧
  (∀ c', xtcp_Run name user sk users (Some c) = Ok (Some c') → xtcp_Close name false c' = (true, c)).
Proof.
  assert (∀ b, vm !! name = None → stcp_Close name (<[name := b]> vm) = vm) as Hc.
  { intros b Hn. unfold stcp_Close, vm_CloseListener, ln_Close. apply map_eq. intros i. rewrite lookup_delete. case_decide; [by subst|].
    by rewrite lookup_alter_ne, lookup_insert_ne by done. }
  unfold stcp_Run, startVisitorListener, vm_Listen, xtcp_Run, xtcp_Close, ListenClient, CloseClient.
  destruct (vm !! name) eqn:E1, (clientCfgs c !! name) eqn:E2; simpl; split_and!; try done; intros x Hx;
    simplify_eq/=; rewrite ?Hc, ?delete_insert_id by done; (done || by destruct c).
Qed.

(** ** Limits of groups *)

(** The members of an HTTPS group have one domain, so a proxy with a group and two different
    domains never runs: its own first domain is the group's. *)
Lemma https_group_one_domain :
  let d := mkDomains ["a.example.com"; "b.example.com"] "" in
  fst <$> https_Run (F := unit) 1 (mkServerConfig "" 80 443 0) (mkLoadBalancer "web" "k") d mux_init =
    Some (Err (RunGroup ErrGroupParamsInvalid)).
Proof. vm_compute. reflexivity. Qed.

(** ** Witness *)

Definition shop : DomainConfig := mkDomains ["shop.example.com"] "".

Definition shop_run := https_Run (F := unit) 1 (mkServerConfig "" 80 443 0) (mkLoadBalancer "" "") shop mux_init.

Lemma https_proxies_share_muxer_witness :
  fst <$> shop_run = Some (Ok [HMux (mkListener "shop.example.com" "" "" "" "" "")]) ∧
  ∃ x, shop_run = Some x ∧ rtc (mstep https_check) mux_init (snd x).
Proof.
  split; [vm_compute; reflexivity|].
  destruct (https_proxies_share_muxer (F := unit) mux_init 0 (mkServerConfig "" 80 443 0) (mkLoadBalancer "" "") shop
    (rtc_refl _ _)) as (_ & _ & r & st' & E & Hs & _).
  exists (r, st'). split; [exact E|exact Hs].
Defined.
