(* ===== verification/Vnet.v ===== *)
(** The virtual network: the frames on a connection ([src/pkg/vnet/message.go]), the routing
    tables of the controller and what becomes of a packet ([src/pkg/vnet/controller.go]), and
    the reconnections of the visitor plugin ([src/pkg/plugin/visitor/virtual_net.go]).

    A byte is an integer between 0 and 255, an address is an integer with its family.  Parsing
    the header of a packet is the library's: a packet comes with its source and destination,
    or without when the header does not parse. *)
From Stdlib Require Import ZArith Lia Ascii String.
From stdpp Require Import base gmap strings list fin_maps.
From S2P Require Import Prelude GoStrings.
Local Open Scope list_scope.

(** ** Frames *)

Definition maxMessageSize : Z := 1024 * 1024.

(** [binary.LittleEndian] on 4 bytes. *)
Fixpoint le_bytes (n : nat) (z : Z) : list Z :=
  match n with O => [] | S n => (z mod 256)%Z :: le_bytes n (z / 256)%Z end.
Fixpoint le_value (l : list Z) : Z := match l with [] => 0 | b :: l => b + 256 * le_value l end%Z.

Definition byte (b : Z) : Prop := (0 <= b < 256)%Z.

Inductive frame_error := EmptyMessage | TooLarge | Truncated.

(** [uint32] of the length: modulo 2^32. *)
Definition WriteMessage (data : list Z) : result frame_error (list Z) :=
  let length32 := (Z.of_nat (length data) mod 2 ^ 32)%Z in
  if (length32 =? 0)%Z then Err EmptyMessage
  else if (maxMessageSize <? length32)%Z then Err TooLarge
  else Ok (le_bytes 4 length32 ++ data).

(** The message and the rest of the stream. *)
Definition ReadMessage (r : list Z) : result frame_error (list Z * list Z) :=
  if decide (length r < 4)%nat then Err Truncated
  else
    let length32 := le_value (take 4 r) in
    let r := drop 4 r in
    if (length32 =? 0)%Z then Err EmptyMessage
    else if (maxMessageSize <? length32)%Z then Err TooLarge
    else if decide (length r < Z.to_nat length32)%nat then Err Truncated
    else Ok (take (Z.to_nat length32) r, drop (Z.to_nat length32) r).

Lemma le_bytes_length n z : length (le_bytes n z) = n.
Proof. revert z. induction n; intros z; simpl; [done|]. by f_equal. Qed.

Lemma le_value_bytes n z : (0 <= z < 256 ^ Z.of_nat n)%Z → le_value (le_bytes n z) = z.
Proof.
  revert z. induction n as [|n IH]; intros z Hz; cbn [le_bytes le_value]; [simpl in Hz; lia|].
  rewrite Nat2Z.inj_succ, Z.pow_succ_r in Hz by lia.
  rewrite IH; [pose proof (Z.div_mod z 256); lia|].
  split; [apply Z.div_pos; lia|]. apply Z.div_lt_upper_bound; lia.
Qed.

Lemma le_value_nonneg l : Forall byte l → (0 <= le_value l)%Z.
Proof. induction 1 as [|b l Hb _ IH]; cbn [le_value]; unfold byte in *; lia. Qed.

Lemma WriteMessage_ok data w :
  WriteMessage data = Ok w → (Z.of_nat (length data) < 2 ^ 32)%Z →
  (1 <= Z.of_nat (length data) <= maxMessageSize)%Z ∧ w = le_bytes 4 (Z.of_nat (length data)) ++ data.
Proof.
  unfold WriteMessage. intros H Hl. rewrite Z.mod_small in H by lia. revert H.
  destruct (Z.eqb_spec (Z.of_nat (length data)) 0); [done|].
  destruct (Z.ltb_spec maxMessageSize (Z.of_nat (length data))); [done|]. intros [= <-]. split; [lia|done].
Qed.

Lemma Read_frame data rest :
  (1 <= Z.of_nat (length data) <= maxMessageSize)%Z →
  ReadMessage (le_bytes 4 (Z.of_nat (length data)) ++ data ++ rest) = Ok (data, rest).
Proof.
  intros Hl. unfold maxMessageSize in Hl. set (n := Z.of_nat (length data)) in *. unfold ReadMessage.
  rewrite decide_False by (rewrite length_app, le_bytes_length; lia).
  rewrite take_app_length', drop_app_length' by (by rewrite le_bytes_length).
  rewrite le_value_bytes by (simpl; lia). unfold maxMessageSize.
  destruct (Z.eqb_spec n 0); [lia|]. destruct (Z.ltb_spec (1024 * 1024) n); [lia|].
  replace (Z.to_nat n) with (length data) by (unfold n; by rewrite Nat2Z.id).
  rewrite decide_False by (rewrite length_app; lia).
  by rewrite take_app_length, drop_app_length.
Qed.

(** Every message of a stream, until one cannot be read. *)
Fixpoint read_all (fuel : nat) (r : list Z) : list (list Z) :=
  match fuel with
  | O => []
  | S fuel => match ReadMessage r with Ok (m, r) => m :: read_all fuel r | Err _ => [] end
  end.

Fixpoint write_all (ms : list (list Z)) : list Z :=
  match ms with
  | [] => []
  | m :: ms => match WriteMessage m with Ok w => w | Err _ => [] end ++ write_all ms
  end.

(** Frames round-trip.  A message that [WriteMessage] accepts, of less than 4 GiB, is read
    back unchanged with the rest of the stream, whatever follows; a whole sequence of writes
    is read back as the messages that were accepted, in order; and the reader never yields an
    empty message or one of more than a megabyte, whatever bytes it is given. *)
Theorem frames_roundtrip ms rest :
  Forall (λ m, Z.of_nat (length m) < 2 ^ 32)%Z ms →
  (∀ m w, m ∈ ms → WriteMessage m = Ok w → ReadMessage (w ++ rest) = Ok (m, rest)) ∧
  read_all (length ms) (write_all ms) = filter (λ m, is_ok (WriteMessage m) = true) ms ∧
  (∀ r m r', Forall byte r → ReadMessage r = Ok (m, r') → (1 <= Z.of_nat (length m) <= maxMessageSize)%Z).
Proof.
  intros Hms. rewrite Forall_forall in Hms. split_and!.
  - intros m w Hm Hw. apply WriteMessage_ok in Hw as [Hl ->]; [|by apply Hms].
    rewrite <- app_assoc. by apply Read_frame.
  - assert (∀ k fuel, (length k <= fuel)%nat → (∀ m, m ∈ k → (Z.of_nat (length m) < 2 ^ 32)%Z) →
      read_all fuel (write_all k) = filter (λ m, is_ok (WriteMessage m) = true) k) as H; [|by apply H].
    clear Hms. induction k as [|m k IH]; intros fuel Hf Hk.
    { by destruct fuel. }
    cbn [write_all]. rewrite filter_cons.
    destruct (WriteMessage m) as [w|e] eqn:E.
    + rewrite decide_True by done. apply WriteMessage_ok in E as [Hl ->]; [|apply Hk; left].
      destruct fuel as [|fuel]; [simpl in Hf; lia|]. cbn [read_all].
      rewrite <- app_assoc, Read_frame by done. f_equal. apply IH; [simpl in Hf; lia|]. intros x Hx. apply Hk. by right.
    + rewrite decide_False by done. apply IH; [simpl in Hf; lia|]. intros x Hx. apply Hk. by right.
  - intros r m r' Hb. unfold ReadMessage. case_decide; [done|].
    assert (0 <= le_value (take 4 r))%Z as Hpos by (by apply le_value_nonneg, Forall_take).
    destruct (Z.eqb_spec (le_value (take 4 r)) 0); [done|]. destruct (Z.ltb_spec maxMessageSize (le_value (take 4 r))); [done|].
    case_decide as Hd; [done|]. intros [= <- <-]. rewrite length_take. unfold maxMessageSize in *. lia.
Qed.

(** Past 4 GiB the length wraps and the reader is out of step: what follows the first bytes of
    the message is taken for new frames. *)
Lemma WriteMessage_wraps data :
  Z.of_nat (length data) = (2 ^ 32 + 1)%Z →
  ∃ w, WriteMessage data = Ok w ∧ ReadMessage w = Ok (take 1 data, drop 1 data).
Proof.
  intros Hl. unfold WriteMessage. rewrite Hl. change ((2 ^ 32 + 1) mod 2 ^ 32)%Z with 1%Z.
  change (1 =? 0)%Z with false. change (maxMessageSize <? 1)%Z with false. cbv iota. eexists. split; [done|].
  unfold ReadMessage. rewrite decide_False by (rewrite length_app, le_bytes_length; lia).
  rewrite take_app_length', drop_app_length' by (by rewrite le_bytes_length).
  change (le_value (le_bytes 4 1)) with 1%Z. change (1 =? 0)%Z with false. change (maxMessageSize <? 1)%Z with false. cbv iota.
  change (Z.to_nat 1) with 1%nat. rewrite decide_False by lia. done.
Qed.

(** ** Routes *)

Module Vnet.

(** Addresses of 4 and of 16 bytes; [bits] is the length of the prefix. *)
Record IP := mkIP { v6 : bool; addr : Z }.
Record IPNet := mkIPNet { net_v6 : bool; net_addr : Z; bits : Z }.
#[global] Instance IP_eq_dec : EqDecision IP.
Proof. solve_decision. Defined.
#[global] Instance IP_countable : Countable IP.
Proof. refine (inj_countable' (λ i, (v6 i, addr i)) (λ '(a, b), mkIP a b) _). by intros []. Defined.

Definition width (v6 : bool) : Z := if v6 then 128%Z else 32%Z.
Definition Contains (n : IPNet) (ip : IP) : bool :=
  Bool.eqb (net_v6 n) (v6 ip) &&
  (Z.shiftr (net_addr n) (width (v6 ip) - bits n) =? Z.shiftr (addr ip) (width (v6 ip) - bits n))%Z.

(** The host route the visitor plugin makes of its destination. *)
Definition host_route (ip : IP) : IPNet := mkIPNet (v6 ip) (addr ip) (width (v6 ip)).

(** The routes by name, with their connections; the connection of each source address. *)
Record Controller := mkController {
  clientRoutes : gmap string (list IPNet * nat);
  srcIPConns : gmap IP nat }.
Definition NewController : Controller := mkController ∅ ∅.

Definition addRoute (name : string) (routes : list IPNet) (conn : nat) (c : Controller) : Controller :=
  mkController (<[name := (routes, conn)]> (clientRoutes c)) (srcIPConns c).
Definition delRoute (name : string) (c : Controller) : Controller :=
  mkController (delete name (clientRoutes c)) (srcIPConns c).

(** [removeConnRoute] deletes one route of the connection, the first of the iteration. *)
Definition removeConnRoute (conn : nat) (c : Controller) : Controller :=
  match filter (λ x, snd (snd x) = conn) (map_to_list (clientRoutes c)) with
  | (name, _) :: _ => delRoute name c
  | [] => c
  end.

(** The connections [findConn] may return: the order of the iteration is open. *)
Definition findConn (dst : IP) (c : Controller) : list nat :=
  (λ x, snd (snd x)) <$> filter (λ x, existsb (λ n, Contains n dst) (fst (snd x)) = true) (map_to_list (clientRoutes c)).

Definition registerSrcIP (src : IP) (conn : nat) (c : Controller) : Controller :=
  match srcIPConns c !! src with
  | Some old => if decide (old = conn) then c else mkController (clientRoutes c) (<[src := conn]> (srcIPConns c))
  | None => mkController (clientRoutes c) (<[src := conn]> (srcIPConns c))
  end.
Definition cleanupConnIPs (conn : nat) (c : Controller) : Controller :=
  mkController (clientRoutes c) (filter (λ x, snd x ≠ conn) (srcIPConns c)).

(** A packet: its addresses when it is IP and its header parses. *)
Record packet := mkPacket { p_header : option (IP * IP); p_data : list Z }.

(** [handlePacket] on a packet from the device: the connections it may go to. *)
Definition handlePacket (p : packet) (c : Controller) : list nat :=
  match p_header p with
  | None => []
  | Some (_, dst) =>
      match findConn dst c with
      | [] => option_list (srcIPConns c !! dst)
      | l => l
      end
  end.

(** What the device gets from a connection, and what the tables learn. *)
Definition client_receives (p : packet) : bool := if p_header p then true else false.
Definition server_receives (conn : nat) (p : packet) (c : Controller) : Controller :=
  match p_header p with Some (src, _) => registerSrcIP src conn c | None => c end.

(** *** Runs: connections are objects with identities; each loop reads one *)

Record vstate := mkVstate { ctl : Controller; v_clients : gset nat; v_servers : gset nat; v_next : nat }.

Inductive vop :=
| VRegister (name : string) (routes : list IPNet)   (* RegisterClientRoute with a new connection *)
| VUnregister (name : string)
| VServe                                            (* StartServerConnReadLoop, a new connection *)
| VPacket (conn : nat) (p : packet)                 (* read from a server connection *)
| VEnd (conn : nat).                                (* a read loop ends *)

Definition vstep (s : vstate) (o : vop) : vstate :=
  match o with
  | VRegister name routes => mkVstate (addRoute name routes (v_next s) (ctl s)) ({[v_next s]} ∪ v_clients s) (v_servers s) (S (v_next s))
  | VUnregister name => mkVstate (delRoute name (ctl s)) (v_clients s) (v_servers s) (v_next s)
  | VServe => mkVstate (ctl s) (v_clients s) ({[v_next s]} ∪ v_servers s) (S (v_next s))
  | VPacket conn p =>
      if decide (conn ∈ v_servers s) then mkVstate (server_receives conn p (ctl s)) (v_clients s) (v_servers s) (v_next s) else s
  | VEnd conn =>
      if decide (conn ∈ v_clients s) then mkVstate (removeConnRoute conn (ctl s)) (v_clients s ∖ {[conn]}) (v_servers s) (v_next s)
      else if decide (conn ∈ v_servers s) then mkVstate (cleanupConnIPs conn (ctl s)) (v_clients s) (v_servers s ∖ {[conn]}) (v_next s)
      else s
  end.
Definition vrun (ops : list vop) : vstate := foldl vstep (mkVstate NewController ∅ ∅ 0) ops.

Record vwf (s : vstate) : Prop := {
  vw_client : ∀ n rs c, clientRoutes (ctl s) !! n = Some (rs, c) → c ∈ v_clients s;
  vw_one : ∀ n1 n2 r1 r2 c, clientRoutes (ctl s) !! n1 = Some (r1, c) → clientRoutes (ctl s) !! n2 = Some (r2, c) → n1 = n2;
  vw_server : ∀ ip c, srcIPConns (ctl s) !! ip = Some c → c ∈ v_servers s;
  vw_fresh : ∀ c, c ∈ v_clients s ∪ v_servers s → (c < v_next s)%nat;
  vw_apart : v_clients s ## v_servers s }.

Lemma removeConnRoute_spec conn c :
  (∀ n1 n2 r1 r2, clientRoutes c !! n1 = Some (r1, conn) → clientRoutes c !! n2 = Some (r2, conn) → n1 = n2) →
  srcIPConns (removeConnRoute conn c) = srcIPConns c ∧
  ∀ n x, clientRoutes (removeConnRoute conn c) !! n = Some x ↔ clientRoutes c !! n = Some x ∧ snd x ≠ conn.
Proof.
  intros Hone. unfold removeConnRoute.
  destruct (filter _ (map_to_list (clientRoutes c))) as [|[k y] l] eqn:E.
  - split; [done|]. intros n x. split; [|naive_solver]. intros Hn. split; [done|]. intros Hx.
    assert ((n, x) ∈ filter (λ x, snd (snd x) = conn) (map_to_list (clientRoutes c))) as H
      by (apply list_elem_of_filter; split; [done|by apply elem_of_map_to_list]).
    rewrite E in H. by apply not_elem_of_nil in H.
  - assert ((k, y) ∈ filter (λ x, snd (snd x) = conn) (map_to_list (clientRoutes c))) as [Hy Hk]%list_elem_of_filter by (rewrite E; left).
    apply elem_of_map_to_list in Hk. simpl in Hy. destruct y as [ry cy]. simpl in Hy. subst cy.
    split; [done|]. intros n [rx cx]. simpl. rewrite lookup_delete_Some. split.
    + intros [Hne Hn]. split; [done|]. intros ->. apply Hne. by eapply Hone.
    + intros [Hn Hx]. split; [|done]. intros ->. congruence.
Qed.

Lemma vstep_wf s o : vwf s → vwf (vstep s o).
Proof.
  intros [A B C D E]. destruct o as [name routes|name| |conn p|conn]; cbn [vstep].
  - split; cbn [ctl v_clients v_servers v_next addRoute clientRoutes srcIPConns].
    + intros n rs c [[_ [= <- <-]]|[_ H]]%lookup_insert_Some; [set_solver|]. apply A in H. set_solver.
    + intros n1 n2 r1 r2 c [[<- E1]|[_ H1]]%lookup_insert_Some [[<- E2]|[_ H2]]%lookup_insert_Some; [done|..].
      * injection E1 as _ <-. apply A in H2. assert (v_next s < v_next s)%nat; [apply D; set_solver|lia].
      * injection E2 as _ <-. apply A in H1. assert (v_next s < v_next s)%nat; [apply D; set_solver|lia].
      * by eapply B.
    + done.
    + intros c Hc. destruct (decide (c = v_next s)) as [->|]; [lia|]. assert (c < v_next s)%nat; [apply D; set_solver|lia].
    + apply disjoint_union_l. split; [|done]. intros x ->%elem_of_singleton Hx. assert (v_next s < v_next s)%nat; [apply D; set_solver|lia].
  - split; cbn [ctl v_clients v_servers v_next delRoute clientRoutes srcIPConns]; try done.
    + intros n rs c [_ H]%lookup_delete_Some. by eapply A.
    + intros n1 n2 r1 r2 c [_ H1]%lookup_delete_Some [_ H2]%lookup_delete_Some. by eapply B.
  - split; cbn [ctl v_clients v_servers v_next]; try done.
    + intros ip c H%C. set_solver.
    + intros c Hc. destruct (decide (c = v_next s)) as [->|]; [lia|]. assert (c < v_next s)%nat; [apply D; set_solver|lia].
    + apply disjoint_union_r. split; [|done]. intros x Hx ->%elem_of_singleton. assert (v_next s < v_next s)%nat; [apply D; set_solver|lia].
  - case_decide as Hc; [|done]. unfold server_receives. destruct (p_header p) as [[src dst]|]; [|done].
    assert (∀ ip c, srcIPConns (registerSrcIP src conn (ctl s)) !! ip = Some c → c ∈ v_servers s) as Hr.
    { intros ip c. unfold registerSrcIP. repeat case_match; simpl; try apply C;
        intros [[_ <-]|[_ H1]]%lookup_insert_Some; try done; by eapply C. }
    assert (clientRoutes (registerSrcIP src conn (ctl s)) = clientRoutes (ctl s)) as Hcr
      by (unfold registerSrcIP; by repeat case_match).
    split; cbn [ctl v_clients v_servers v_next]; rewrite ?Hcr; done.
  - case_decide as Hc; [|case_decide as Hs; [|done]].
    + destruct (removeConnRoute_spec conn (ctl s)) as [R1 R2]; [intros n1 n2 r1 r2 H1 H2; by eapply B|].
      split; cbn [ctl v_clients v_servers v_next]; rewrite ?R1; try done.
      * intros n rs c [H Hne]%R2. apply A in H. set_solver.
      * intros n1 n2 r1 r2 c [H1 _]%R2 [H2 _]%R2. by eapply B.
      * intros c H. apply D. set_solver.
      * set_solver.
    + split; cbn [ctl v_clients v_servers v_next cleanupConnIPs clientRoutes srcIPConns]; try done.
      * intros ip c [H Hne]%map_lookup_filter_Some. apply C in H. set_solver.
      * intros c H. apply D. set_solver.
      * set_solver.
Qed.

Lemma vrun_wf ops : vwf (vrun ops).
Proof.
  unfold vrun. induction ops as [|o ops IH] using rev_ind; [split; simpl; set_solver|].
  rewrite foldl_app. by apply vstep_wf.
Qed.

Lemma Contains_host ip ip' : Contains (host_route ip) ip' = true ↔ ip = ip'.
Proof.
  unfold Contains, host_route. simpl. destruct ip as [f a], ip' as [f' a']. simpl.
  rewrite andb_true_iff, eqb_true_iff, Z.eqb_eq. split.
  - intros [-> H]. rewrite Z.sub_diag, !Z.shiftr_0_r in H. by subst.
  - intros [= -> ->]. done.
Qed.

(** Packets only go to connections that are being read.  After any sequence of
    registrations, packets and ends of connections, a packet from the device goes to a
    connection whose loop still runs: that of a client route that contains the destination if
    there is one, else to the server connection the destination last sent from; it is dropped
    when there is none, and when its header does not parse. A connection that ended is in no
    table. *)
Theorem packets_routed ops p conn :
  let s := vrun ops in
  conn ∈ handlePacket p (ctl s) ↔
  ∃ src dst, p_header p = Some (src, dst) ∧
    ((∃ name rs, clientRoutes (ctl s) !! name = Some (rs, conn) ∧ conn ∈ v_clients s ∧
        ∃ n, n ∈ rs ∧ Contains n dst = true) ∨
     (∀ name rs c, clientRoutes (ctl s) !! name = Some (rs, c) → ∀ n, n ∈ rs → Contains n dst = false) ∧
     srcIPConns (ctl s) !! dst = Some conn ∧ conn ∈ v_servers s).
Proof.
  intros s. pose proof (vrun_wf ops : vwf s) as Hwf. unfold handlePacket.
  destruct (p_header p) as [[src dst]|]; [|split; [by intros H%not_elem_of_nil|naive_solver]].
  assert (∀ c, c ∈ findConn dst (ctl s) ↔ ∃ name rs, clientRoutes (ctl s) !! name = Some (rs, c) ∧
    c ∈ v_clients s ∧ ∃ n, n ∈ rs ∧ Contains n dst = true) as Hf.
  { intros c. unfold findConn. rewrite list_elem_of_fmap. split.
    - intros ([name [rs c']] & -> & [Hex Hin%elem_of_map_to_list]%list_elem_of_filter). simpl in *. exists name, rs.
      split; [done|]. split; [by eapply (vw_client _ Hwf)|]. apply existsb_exists in Hex as (n & Hn%list_elem_of_In & ?). eauto.
    - intros (name & rs & H & _ & n & Hn & Hc). exists (name, (rs, c)). split; [done|]. apply list_elem_of_filter. simpl.
      split; [|by apply elem_of_map_to_list]. apply existsb_exists. exists n. split; [by apply list_elem_of_In|done]. }
  destruct (findConn dst (ctl s)) as [|c l] eqn:E.
  - assert (∀ name rs c, clientRoutes (ctl s) !! name = Some (rs, c) → ∀ n, n ∈ rs → Contains n dst = false) as Hno.
    { intros name rs c H n Hn. destruct (Contains n dst) eqn:Ec; [|done].
      assert (c ∈ ([] : list nat)) as H'; [|by apply not_elem_of_nil in H'].
      apply Hf. exists name, rs. split; [done|]. split; [by eapply (vw_client _ Hwf)|eauto]. }
    split.
    + intros H. exists src, dst. split; [done|]. right. destruct (srcIPConns (ctl s) !! dst) as [c|] eqn:Es; simpl in H; [|by apply not_elem_of_nil in H].
      apply list_elem_of_singleton in H as ->. split_and!; [done|done|]. by eapply (vw_server _ Hwf).
    + intros (src' & dst' & [= <- <-] & [(name & rs & H & _ & n & Hn & Hc)|(_ & -> & _)]); [|by left].
      rewrite (Hno _ _ _ H n Hn) in Hc. done.
  - rewrite Hf. split.
    + intros H. exists src, dst. split; [done|]. by left.
    + intros (src' & dst' & [= <- <-] & [H|(Hno & _)]); [done|].
      assert (c ∈ c :: l) as (name & rs & H & _ & n & Hn & Hc)%Hf by left. rewrite (Hno _ _ _ H n Hn) in Hc. done.
Qed.
End Vnet.

(** ** The reconnections of the visitor plugin *)

(** [1 << uint(n-1)] and the product are of type [time.Duration], 64 bits. *)
Definition reconnectDelay (consecutiveErrors : Z) : duration :=
  Z.min (wrap64 (60 * Second * wrap64 (2 ^ (consecutiveErrors - 1)))) (300 * Second).

(** The delay after a connection closed, and the errors in a row. *)
Definition after_close (err : bool) (consecutiveErrors : Z) : duration * Z :=
  if err then (reconnectDelay (consecutiveErrors + 1), (consecutiveErrors + 1)%Z) else ((10 * Second)%Z, 0%Z).

(** The delays of the virtual network's visitor are 60, 120, 240 seconds and then the cap
    of 300 seconds, as the source says, only up to the 28th failure in a row.  At the 29th the
    product of 64 bits is negative, and from the 54th on it is zero: the plugin reconnects
    without any delay until a connection succeeds. *)
Theorem vnet_delay_overflows n :
  ((1 <= n <= 28)%Z → reconnectDelay n = Z.min (60 * 2 ^ (n - 1) * Second) (300 * Second)) ∧
  (reconnectDelay 29 < 0)%Z ∧
  ((54 <= n)%Z → reconnectDelay n = 0%Z).
Proof.
  split_and!.
  - intros Hn. assert (∃ k : nat, n = Z.of_nat k ∧ (1 <= k <= 28)%nat) as (k & -> & Hk) by (exists (Z.to_nat n); lia).
    do 29 (destruct k as [|k]; [first [lia | vm_compute; reflexivity]|]). lia.
  - vm_compute. reflexivity.
  - intros Hn. unfold reconnectDelay.
    assert (∀ z, (2 ^ 64 | z)%Z → wrap64 z = 0%Z) as Hw.
    { intros z [q ->]. unfold wrap64, wrap. rewrite Z.add_comm, Z.mod_add by done. vm_compute. reflexivity. }
    assert (2 ^ 53 | wrap64 (2 ^ (n - 1)))%Z as [q Hq].
    { unfold wrap64, wrap. replace (2 ^ (n - 1))%Z with (2 ^ (n - 54) * 2 ^ 53)%Z by (rewrite <- Z.pow_add_r by lia; f_equal; lia).
      exists (((2 ^ (n - 54) + 2 ^ 10) mod 2 ^ 11) - 2 ^ 10)%Z.
      replace (2 ^ (n - 54) * 2 ^ 53 + 2 ^ (64 - 1))%Z with ((2 ^ (n - 54) + 2 ^ 10) * 2 ^ 53)%Z by (change (2 ^ (64 - 1))%Z with (2 ^ 10 * 2 ^ 53)%Z; ring).
      change (2 ^ 64)%Z with (2 ^ 11 * 2 ^ 53)%Z. rewrite Z.mul_mod_distr_r by done. change (2 ^ (64 - 1))%Z with (2 ^ 10 * 2 ^ 53)%Z. ring. }
    rewrite Hq, Hw; [done|]. exists (q * (60 * Second / 2 ^ 11))%Z.
    change (60 * Second)%Z with (60 * Second / 2 ^ 11 * 2 ^ 11)%Z at 1. change (2 ^ 64)%Z with (2 ^ 11 * 2 ^ 53)%Z. ring.
Qed.

(** ** Witnesses *)

Lemma frames_roundtrip_witness : ReadMessage (le_bytes 4 3 ++ [1; 2; 3] ++ [9])%Z = Ok ([1; 2; 3], [9])%Z.
Proof.
  apply (proj1 (frames_roundtrip [[1; 2; 3]] [9] ltac:(repeat constructor))%Z [1; 2; 3]%Z (le_bytes 4 3 ++ [1; 2; 3])%Z); [left|reflexivity].
Defined.

Lemma vnet_delay_overflows_witness : reconnectDelay 3 = (240 * Second)%Z ∧ reconnectDelay 60 = 0%Z.
Proof.
  split; [exact (proj1 (vnet_delay_overflows 3) ltac:(lia))|].
  apply (proj2 (proj2 (vnet_delay_overflows 60))). lia.
Defined.

Lemma packets_routed_witness :
  0%nat ∈ Vnet.handlePacket (Vnet.mkPacket (Some (Vnet.mkIP false 1, Vnet.mkIP false 10)) [])
    (Vnet.ctl (Vnet.vrun [Vnet.VRegister "a" [Vnet.host_route (Vnet.mkIP false 10)]])).
Proof.
  apply Vnet.packets_routed. eexists _, _. split; [reflexivity|]. left. exists "a", [Vnet.host_route (Vnet.mkIP false 10)].
  split; [reflexivity|]. split; [vm_compute; reflexivity|]. eexists. split; [left|reflexivity].
Defined.
