(* ===== verification/UdpForward.v ===== *)
(** Forwarding of UDP packets ([src/pkg/proto/udp/udp.go]): between the users' socket and the
    channels ([ForwardUserConn], on the server and in a sudp visitor), and between the channels
    and the local service ([Forwarder], on the client).

    A packet is its content; addresses and sockets are identities.  The goroutines are split
    into the steps between which another goroutine, or the close of the proxy, can run. *)
From Stdlib Require Import ZArith Lia.
From stdpp Require Import base gmap list fin_maps.
From S2P Require Import Prelude.
Local Open Scope list_scope.

(** ** [ForwardUserConn] *)

Module UserConn.
Section user.
Context {Pkt : Type}.

(** The channel of 1024 places to the work connection, the packet the loop has read and not
    yet sent, what came in and what went out, and whether the goroutine panicked. *)
Record t := mk {
  sendCh : list Pkt; ch_closed : bool; socket_open : bool; pending : option Pkt;
  received : list Pkt; delivered : list Pkt; panicked : bool }.

Definition New : t := mk [] false true None [] [] false.
Definition cap : nat := 1024.

Inductive op :=
| Receive (p : Pkt)     (* ReadFromUDP returns *)
| Enqueue               (* select: sendCh <- udpMsg, or default *)
| Dequeue               (* the sender of the work connection *)
| CloseSocket | CloseChannel.   (* UDPProxy.Close, SUDPVisitor.Close: in this order *)

Definition step (s : t) (o : op) : t :=
  match o with
  | Receive p =>
      match pending s with
      | Some _ => s
      | None => if socket_open s && negb (panicked s)
                then mk (sendCh s) (ch_closed s) true (Some p) (received s ++ [p]) (delivered s) false else s
      end
  | Enqueue =>
      match pending s with
      | None => s
      | Some p =>
          if ch_closed s then mk (sendCh s) true (socket_open s) None (received s) (delivered s) true
          else if decide (length (sendCh s) < cap)%nat
               then mk (sendCh s ++ [p]) false (socket_open s) None (received s) (delivered s) (panicked s)
               else mk (sendCh s) false (socket_open s) None (received s) (delivered s) (panicked s)
      end
  | Dequeue =>
      match sendCh s with
      | p :: q => mk q (ch_closed s) (socket_open s) (pending s) (received s) (delivered s ++ [p]) (panicked s)
      | [] => s
      end
  | CloseSocket => mk (sendCh s) (ch_closed s) false (pending s) (received s) (delivered s) (panicked s)
  | CloseChannel => mk (sendCh s) true (socket_open s) (pending s) (received s) (delivered s) (panicked s)
  end.

Definition run (ops : list op) : t := foldl step New ops.

(** Packets go out in the order they came in, at most 1024 wait, and those that find the
    channel full are dropped. *)
Lemma forwards_in_order ops :
  let s := run ops in
  (∃ done_, delivered s ++ sendCh s `sublist_of` done_ ∧ received s = done_ ++ option_list (pending s)) ∧
  (length (sendCh s) <= cap)%nat.
Proof.
  unfold run. induction ops as [|o ops IH] using rev_ind.
  { simpl. split; [|unfold cap; lia]. exists []. done. }
  rewrite foldl_app. cbn [foldl]. destruct (foldl step New ops) as [ch cl so pe re de pa].
  destruct IH as [(dn & Hs & Hr) Hc]. cbn [sendCh pending received delivered] in *. destruct o as [p| | | |]; cbn [step].
  - cbn [pending]. destruct pe; [simpl; eauto|]. cbn [socket_open panicked].
    destruct (so && negb pa); simpl; [|eauto]. simpl in Hr. rewrite app_nil_r in Hr. subst re. eauto.
  - cbn [pending]. destruct pe as [p|]; [|simpl; eauto]. cbn [ch_closed sendCh]. simpl in Hr. subst re.
    assert (de ++ ch `sublist_of` dn ++ [p]) as Hs' by (by apply sublist_inserts_r).
    destruct cl; [|case_decide]; cbn [sendCh pending received delivered option_list].
    + split; [|done]. exists (dn ++ [p]). by rewrite app_nil_r.
    + split; [|rewrite length_app; simpl; lia]. exists (dn ++ [p]). rewrite app_nil_r. split; [|done].
      rewrite app_assoc. by apply sublist_app.
    + split; [|done]. exists (dn ++ [p]). by rewrite app_nil_r.
  - cbn [sendCh]. destruct ch as [|p q]; cbn [sendCh pending received delivered]; [eauto|]. simpl in Hc.
    split; [|lia]. exists dn. rewrite <- app_assoc. done.
  - simpl. eauto.
  - simpl. eauto.
Qed.

(** The goroutine that reads the users' socket sends on the channel without the protection the
    other goroutines have: a packet that was read before the proxy is closed, and is sent
    after, is a send on a closed channel, which ends the whole process. *)
Lemma close_panics_reader (p : Pkt) : panicked (run [Receive p; CloseSocket; CloseChannel; Enqueue]) = true.
Proof. done. Qed.

(** It panics in no other way: every packet that was read is sent before the channel closes. *)
Fixpoint calm (s : t) (ops : list op) : Prop :=
  match ops with
  | [] => True
  | o :: ops => (o = CloseChannel → pending s = None ∧ socket_open s = false) ∧ calm (step s o) ops
  end.

Lemma calm_no_panic ops : calm New ops → panicked (run ops) = false.
Proof.
  assert (∀ s, panicked s = false → (ch_closed s = true → pending s = None ∧ socket_open s = false) →
    calm s ops → panicked (foldl step s ops) = false) as H; [|by intros Hc; apply H].
  induction ops as [|o ops IH]; intros s Hp Hi Hc; [done|]. destruct Hc as [Ho Hc]. cbn [foldl].
  apply IH; [| |done]; destruct s as [ch cl so pe re de pa]; simpl in *; subst pa; destruct o; simpl in *;
    repeat case_match; simplify_eq/=; naive_solver.
Qed.
End user.
End UserConn.

(** ** [Forwarder] *)

Module Forwarder.
Section forwarder.
Context {Pkt : Type}.

(** A socket to the local service is made for a user; [header] says whether a packet carries the
    header of the proxy protocol. *)
Record sent := mkSent { s_sock : nat; s_header : bool; s_data : Pkt }.
Record reply := mkReply { r_sock : nat; r_to : nat; r_data : Pkt }.

Record t := mk {
  udpConnMap : gmap nat nat;            (* user address -> socket *)
  owner : gmap nat nat;                 (* socket -> the user it was made for *)
  live : gset nat;                      (* sockets whose reader runs *)
  to_service : list sent;
  to_users : list reply;
  next : nat }.
Definition New : t := mk ∅ ∅ ∅ [] [] 0.

(** [with_header]: the proxy protocol is configured and its header can be built. *)
Inductive op :=
| Packet (user : nat) (data : Pkt) (dial_ok with_header : bool)  (* from the channel *)
| Reply (sock : nat) (data : Pkt) (room : bool)                  (* from the local service *)
| Expire (sock : nat).                                           (* 30 s without a reply, or an error *)

Definition step (s : t) (o : op) : t :=
  match o with
  | Packet user data dial_ok with_header =>
      match udpConnMap s !! user with
      | Some sock => mk (udpConnMap s) (owner s) (live s) (to_service s ++ [mkSent sock false data]) (to_users s) (next s)
      | None =>
          if dial_ok then
            mk (<[user := next s]> (udpConnMap s)) (<[next s := user]> (owner s)) ({[next s]} ∪ live s)
              (to_service s ++ [mkSent (next s) with_header data]) (to_users s) (S (next s))
          else s
      end
  | Reply sock data room =>
      if decide (sock ∈ live s) then
        match owner s !! sock with
        | Some user => if room then mk (udpConnMap s) (owner s) (live s) (to_service s) (to_users s ++ [mkReply sock user data]) (next s) else s
        | None => s
        end
      else s
  | Expire sock =>
      if decide (sock ∈ live s) then
        match owner s !! sock with
        | Some user => mk (delete user (udpConnMap s)) (owner s) (live s ∖ {[sock]}) (to_service s) (to_users s) (next s)
        | None => s
        end
      else s
  end.

Definition run (ops : list op) : t := foldl step New ops.

(** The packets of users, in order, that reached a socket. *)
Definition on_sock (sock : nat) (l : list sent) : list sent := filter (λ x, s_sock x = sock) l.

Record wf (s : t) : Prop := {
  w_map : ∀ u k, udpConnMap s !! u = Some k → owner s !! k = Some u ∧ k ∈ live s;
  w_live : ∀ k, k ∈ live s → ∃ u, owner s !! k = Some u ∧ udpConnMap s !! u = Some k;
  w_fresh : ∀ k u, owner s !! k = Some u → (k < next s)%nat;
  w_sent : ∀ x, x ∈ to_service s → is_Some (owner s !! s_sock x);
  w_reply : ∀ r, r ∈ to_users s → owner s !! r_sock r = Some (r_to r);
  w_first : ∀ k u, owner s !! k = Some u → ∃ x rest, on_sock k (to_service s) = x :: rest ∧ Forall (λ y, s_header y = false) rest }.

Lemma forwarder_step_wf s o : wf s → wf (step s o).
Proof.
  intros [A B C D E F]. destruct o as [u d ok h|k d room|k]; cbn [step].
  - destruct (udpConnMap s !! u) as [k|] eqn:Eu; [|destruct ok; [|done]].
    + destruct (A _ _ Eu) as [Ho Hl].
      split; cbn [udpConnMap owner live to_service to_users next]; try done.
      * intros x [?| ->%list_elem_of_singleton]%elem_of_app; [by apply D|]. simpl. eauto.
      * intros k' u' Hk'. destruct (F _ _ Hk') as (x & rest & Hx & Hr). unfold on_sock in *. rewrite filter_app, Hx.
        eexists _, _. split; [simpl; reflexivity|]. apply Forall_app. split; [done|].
        rewrite filter_cons. case_decide; simpl; [|constructor]. by repeat constructor.
    + assert (owner s !! next s = None) as Hn by (destruct (owner s !! next s) eqn:Eo; [apply C in Eo; lia|done]).
      split; cbn [udpConnMap owner live to_service to_users next].
      * intros u' k' [[<- <-]|[Hne H]]%lookup_insert_Some; [rewrite lookup_insert_eq; set_solver|].
        destruct (A _ _ H) as [H1 H2]. rewrite lookup_insert_ne; [set_solver|congruence].
      * intros k' [->%elem_of_singleton|Hk]%elem_of_union.
        -- exists u. by rewrite !lookup_insert_eq.
        -- destruct (B _ Hk) as (u' & H1 & H2). exists u'. rewrite !lookup_insert_ne; [done|congruence..].
      * intros k' u' [[<- _]|[_ H]]%lookup_insert_Some; [lia|]. apply C in H. lia.
      * intros x [Hx| ->%list_elem_of_singleton]%elem_of_app.
        -- destruct (D x Hx) as [v Hv]. exists v. rewrite lookup_insert_ne; [done|congruence].
        -- simpl. rewrite lookup_insert_eq. eauto.
      * intros r Hr. rewrite lookup_insert_ne; [by apply E|]. intros Heq. apply E in Hr. congruence.
      * intros k' u' Hk'. unfold on_sock. rewrite filter_app. apply lookup_insert_Some in Hk' as [[<- _]|[Hne H]].
        -- assert (filter (λ x, s_sock x = next s) (to_service s) = []) as ->.
           { destruct (filter _ (to_service s)) as [|x l] eqn:Ef; [done|].
             assert (x ∈ filter (λ x, s_sock x = next s) (to_service s)) as [Hx Hin]%list_elem_of_filter by (rewrite Ef; left).
             destruct (D x Hin) as [v Hv]. congruence. }
           rewrite filter_cons, decide_True by done. eexists _, _. split; [simpl; reflexivity|constructor].
        -- destruct (F _ _ H) as (x & rest & Hx & Hr). unfold on_sock in Hx. rewrite Hx, filter_cons, decide_False by done.
           simpl. rewrite app_nil_r. eauto.
  - case_decide as Hl; [|done]. destruct (owner s !! k) as [u|] eqn:Eo; [|done]. destruct room; [|done].
    split; cbn [udpConnMap owner live to_service to_users next]; try done.
    intros r [?| ->%list_elem_of_singleton]%elem_of_app; [by apply E|done].
  - case_decide as Hl; [|done]. destruct (owner s !! k) as [u|] eqn:Eo; [|done].
    destruct (B _ Hl) as (u' & Hu' & Hm). rewrite Eo in Hu'. injection Hu' as <-.
    split; cbn [udpConnMap owner live to_service to_users next]; try done.
    + intros u' k' [Hne H]%lookup_delete_Some. destruct (A _ _ H) as [H1 H2]. split; [done|]. set_solver.
    + intros k' [Hk Hne]%elem_of_difference. destruct (B _ Hk) as (u' & H1 & H2). exists u'. split; [done|].
      rewrite lookup_delete_ne; [done|]. intros ->. set_solver.
Qed.

Lemma forwarder_run_wf ops : wf (run ops).
Proof.
  unfold run. induction ops as [|o ops IH] using rev_ind; [split; simpl; intros; (done || set_solver)|].
  rewrite foldl_app. by apply forwarder_step_wf.
Qed.

(** C40: the users of a UDP proxy are kept apart.  After any packets, replies and expiries:
    every socket to the local service was made for one user and carries only that user's
    packets; what the service answers on it goes to that user; a user has at most one socket
    that is being read; and only the first packet on a socket can carry the header of
    the proxy protocol. *)
Theorem udp_users_apart ops o :
  let s := run ops in
  let s' := step s o in
  (∀ k u, owner s !! k = Some u → owner s' !! k = Some u) ∧
  (∀ u d ok h, o = Packet u d ok h → to_service s' = to_service s ∨
     ∃ k hd, owner s' !! k = Some u ∧ k ∈ live s' ∧ to_service s' = to_service s ++ [mkSent k hd d] ∧
       (hd = true → on_sock k (to_service s) = [])) ∧
  (∀ k d room, o = Reply k d room → to_users s' = to_users s ∨
     ∃ u, owner s !! k = Some u ∧ to_users s' = to_users s ++ [mkReply k u d]) ∧
  (∀ k1 k2 u, k1 ∈ live s' → k2 ∈ live s' → owner s' !! k1 = Some u → owner s' !! k2 = Some u → k1 = k2).
Proof.
  intros s s'. pose proof (forwarder_run_wf ops : wf s) as Hwf. pose proof (forwarder_step_wf s o Hwf : wf s') as Hwf'. split_and!.
  - intros k u Hk. unfold s'. pose proof (w_fresh _ Hwf _ _ Hk). destruct o; cbn [step]; repeat case_match; simpl; try done.
    rewrite lookup_insert_ne; [done|lia].
  - intros u d ok h ->. unfold s'. cbn [step]. destruct (udpConnMap s !! u) as [k|] eqn:Eu; [|destruct ok; [|by left]]; right.
    + exists k, false. destruct (w_map _ Hwf _ _ Eu). split_and!; done.
    + exists (next s), h. simpl. rewrite lookup_insert_eq. split_and!; [done|set_solver|done|]. intros _. unfold on_sock.
      destruct (filter _ (to_service s)) as [|x l] eqn:Ef; [done|].
      assert (x ∈ filter (λ x, s_sock x = next s) (to_service s)) as [Hx Hin]%list_elem_of_filter by (rewrite Ef; left).
      destruct (w_sent _ Hwf _ Hin) as [v Hv]. rewrite Hx in Hv. apply (w_fresh _ Hwf) in Hv. lia.
  - intros k d room ->. unfold s'. cbn [step]. case_decide; [|by left]. destruct (owner s !! k) as [u|] eqn:Eo; [|by left].
    destruct room; [right; eauto|by left].
  - intros k1 k2 u H1 H2 O1 O2. destruct (w_live _ Hwf' _ H1) as (u1 & A1 & B1). destruct (w_live _ Hwf' _ H2) as (u2 & A2 & B2). congruence.
Qed.
End forwarder.
End Forwarder.

(** ** Witness: two users, and an answer to the second *)

Lemma udp_users_apart_witness :
  Forwarder.to_users (Forwarder.step (Forwarder.run [Forwarder.Packet 1 5 true false; Forwarder.Packet 2 6 true false])
    (Forwarder.Reply 1 9 true)) = [Forwarder.mkReply 1 2 9]%nat.
Proof.
  destruct (proj1 (proj2 (proj2 (Forwarder.udp_users_apart [Forwarder.Packet 1 5 true false; Forwarder.Packet 2 6 true false]
    (Forwarder.Reply 1 9 true)))) 1%nat 9%nat true eq_refl) as [H|(u & Hu & H)].
  - vm_compute in H. discriminate H.
  - vm_compute in Hu. injection Hu as <-. rewrite H. reflexivity.
Defined.
