(* ===== verification/HttpAuth.v ===== *)
(** HTTP basic authentication and host names: [src/pkg/util/http/http.go], the check of the
    dashboards ([src/pkg/util/net/http.go]), and the muxer of HTTP CONNECT requests
    ([src/pkg/util/tcpmux/httpconnect.go]) on top of Vhost.

    [encoding/base64] is modelled as the program uses it ([StdEncoding]). *)
From Stdlib Require Import ZArith Lia Ascii String.
From stdpp Require Import base gmap strings list.
From S2P Require Import Prelude GoStrings Router Vhost Nathole.
Local Open Scope string_scope.
Local Open Scope list_scope.

(** ** Base 64 *)

Module Base64.
Definition alphabet : list ascii :=
  String.list_ascii_of_string "ABCDEFGHIJKLMNOPQRSTUVWXYZabcdefghijklmnopqrstuvwxyz0123456789+/".
Definition pad : ascii := "="%char.

Definition digit (n : N) : ascii := nth (N.to_nat n) alphabet pad.

Fixpoint index_of (c : ascii) (i : N) (l : list ascii) : option N :=
  match l with [] => None | a :: l => if ascii_dec a c then Some i else index_of c (N.succ i) l end.
Definition value (c : ascii) : option N := index_of c 0 alphabet.

(** [EncodeToString]: three bytes are four digits; the last group is padded. *)
Fixpoint encode (l : list N) : list ascii :=
  match l with
  | [] => []
  | [a] => [digit (a / 4); digit (a mod 4 * 16); pad; pad]%N
  | [a; b] => [digit (a / 4); digit (a mod 4 * 16 + b / 16); digit (b mod 16 * 4); pad]%N
  | a :: b :: c :: l =>
      digit (a / 4) :: digit (a mod 4 * 16 + b / 16) :: digit (b mod 16 * 4 + c / 64) :: digit (c mod 64) :: encode l
  end%N.

(** [DecodeString], without line breaks: padding only at the end of the text. *)
Fixpoint decode_digits (l : list ascii) : option (list N) :=
  match l with
  | [] => Some []
  | c0 :: c1 :: c2 :: c3 :: l =>
      v0 ← value c0; v1 ← value c1;
      if ascii_dec c2 pad then
        (if ascii_dec c3 pad then match l with [] => Some [v0 * 4 + v1 / 16] | _ => None end else None)
      else
        v2 ← value c2;
        if ascii_dec c3 pad then
          match l with [] => Some [v0 * 4 + v1 / 16; v1 mod 16 * 16 + v2 / 4] | _ => None end
        else
          v3 ← value c3; r ← decode_digits l;
          Some (v0 * 4 + v1 / 16 :: v1 mod 16 * 16 + v2 / 4 :: v2 mod 4 * 64 + v3 :: r)
  | _ => None
  end%N.

(** Line breaks are skipped wherever they are. *)
Definition is_break (c : ascii) : Prop := c = "013"%char ∨ c = "010"%char.
#[export] Instance is_break_dec c : Decision (is_break c).
Proof. unfold is_break. apply _. Defined.
Definition decode (l : list ascii) : option (list N) := decode_digits (filter (λ c, ¬ is_break c) l).

Definition EncodeToString (s : string) : string :=
  String.string_of_list_ascii (encode (N_of_ascii <$> String.list_ascii_of_string s)).
Definition DecodeString (s : string) : option string :=
  (λ l, String.string_of_list_ascii (ascii_of_N <$> l)) <$> decode (String.list_ascii_of_string s).

(** *** Round trip *)

Definition digits : list N := N.of_nat <$> seq 0 64.

Lemma elem_digits n : (n < 64)%N → n ∈ digits.
Proof. intros H. apply list_elem_of_fmap. exists (N.to_nat n). rewrite N2Nat.id, elem_of_seq. lia. Qed.

(** What the tables need, checked digit by digit. *)
Lemma digit_spec n : (n < 64)%N → value (digit n) = Some n ∧ digit n ≠ pad ∧ ¬ is_break (digit n) ∧ digit n ≠ "."%char.
Proof.
  intros H%elem_digits. revert n H. apply Forall_forall.
  assert (forallb (λ n, bool_decide (value (digit n) = Some n) && bool_decide (digit n ≠ pad) &&
    bool_decide (¬ is_break (digit n)) && bool_decide (digit n ≠ "."%char)) digits = true) as H by (vm_compute; reflexivity).
  apply Forall_forall. intros n Hn. rewrite forallb_forall in H. specialize (H n (proj1 (list_elem_of_In _ _) Hn)).
  by rewrite !andb_true_iff, !bool_decide_eq_true in H; destruct_and!.
Qed.

Definition byte (b : N) : Prop := (b < 256)%N.

(** Induction by groups of three. *)
Lemma triples_ind (P : list N → Prop) :
  P [] → (∀ a, P [a]) → (∀ a b, P [a; b]) → (∀ a b c l, P l → P (a :: b :: c :: l)) → ∀ l, P l.
Proof.
  intros H0 H1 H2 H3 l. enough (P l ∧ (∀ a, P (a :: l)) ∧ (∀ a b, P (a :: b :: l))) by naive_solver.
  induction l as [|x l (I1 & I2 & I3)]; naive_solver.
Qed.

Lemma div_lt a n m : (0 < n)%N → (a < n * m)%N → (a / n < m)%N.
Proof. intros. apply N.Div0.div_lt_upper_bound; lia. Qed.

Ltac digit_bounds :=
  repeat match goal with
  | H : byte ?b |- _ => lazymatch goal with K : (b / 4 < 64)%N |- _ => fail | _ => idtac end;
      assert (b / 4 < 64)%N by (apply div_lt; unfold byte in H; lia);
      assert (b / 16 < 16)%N by (apply div_lt; unfold byte in H; lia);
      assert (b / 64 < 4)%N by (apply div_lt; unfold byte in H; lia);
      pose proof (N.mod_lt b 4 ltac:(done)); pose proof (N.mod_lt b 16 ltac:(done)); pose proof (N.mod_lt b 64 ltac:(done))
  end.

Lemma encode_chars l : Forall byte l → Forall (λ c, ¬ is_break c ∧ c ≠ "."%char) (encode l).
Proof.
  induction l using triples_ind; intros Hl; decompose_Forall_hyps; cbn [encode]; digit_bounds;
    repeat match goal with |- Forall _ (_ :: _) => constructor | |- Forall _ [] => constructor end;
    try (split; [intros [[=]|[=]]|discriminate]);
    try (match goal with |- ¬ is_break (digit ?n) ∧ _ => destruct (digit_spec n) as (_ & _ & ? & ?); [lia|done] end); auto.
Qed.

Lemma join_ab a b : byte a → byte b →
  (((a mod 4 * 16 + b / 16) / 16 = a mod 4) ∧ (a mod 4 * 16 + b / 16) mod 16 = b / 16)%N.
Proof.
  unfold byte. intros. digit_bounds. assert (b / 16 < 16)%N by (apply div_lt; lia).
  rewrite (N.add_comm (_ * _)). split; [rewrite N.div_add, N.div_small by lia; lia|rewrite N.Div0.mod_add; by apply N.mod_small].
Qed.
Lemma join_bc b c : byte b → byte c →
  (((b mod 16 * 4 + c / 64) / 4 = b mod 16) ∧ (b mod 16 * 4 + c / 64) mod 4 = c / 64)%N.
Proof.
  unfold byte. intros. assert (c / 64 < 4)%N by (apply div_lt; lia).
  rewrite (N.add_comm (_ * _)). split; [rewrite N.div_add, N.div_small by lia; lia|rewrite N.Div0.mod_add; by apply N.mod_small].
Qed.

Lemma decode_digit {A} n (k : N → option A) : (n < 64)%N → (value (digit n) ≫= k) = k n.
Proof. intros H. by destruct (digit_spec n H) as (-> & _). Qed.

Lemma digit_not_pad {A} n (x y : A) : (n < 64)%N → (if ascii_dec (digit n) pad then x else y) = y.
Proof. intros H. destruct (digit_spec n H) as (_ & ? & _). by destruct (ascii_dec (digit n) pad). Qed.

Lemma decode_encode l : Forall byte l → decode_digits (encode l) = Some l.
Proof.
  induction l using triples_ind; intros Hl; decompose_Forall_hyps; cbn [encode decode_digits]; [done|..]; digit_bounds.
  - rewrite !decode_digit by lia. do 2 (destruct (ascii_dec pad pad); [|done]). do 2 f_equal.
    rewrite (N.mul_comm (a mod 4)), N.mul_comm. rewrite (N.mul_comm 16), N.div_mul by done.
    rewrite N.add_comm. pose proof (N.Div0.div_mod a 4). lia.
  - destruct (join_ab a b) as [E1 E2]; [done..|]. rewrite !decode_digit, digit_not_pad by lia.
    destruct (ascii_dec pad pad); [|done]. rewrite E1, E2, N.div_mul by done. pose proof (N.Div0.div_mod a 4). pose proof (N.Div0.div_mod b 16). repeat f_equal; lia.
  - destruct (join_ab a b) as [E1 E2]; [done..|]. destruct (join_bc b c) as [E3 E4]; [done..|].
    rewrite !decode_digit, !digit_not_pad by lia.
    rewrite IHl by done. simpl. rewrite E1, E2, E3, E4. pose proof (N.Div0.div_mod a 4). pose proof (N.Div0.div_mod b 16).
    pose proof (N.Div0.div_mod c 64). repeat f_equal; lia.
Qed.

Lemma bytes_of_string s : Forall byte (N_of_ascii <$> String.list_ascii_of_string s).
Proof. apply Forall_fmap, Forall_true. intros c. apply N_ascii_bounded. Qed.

Lemma DecodeString_EncodeToString s : DecodeString (EncodeToString s) = Some s.
Proof.
  unfold DecodeString, EncodeToString, decode. rewrite String.list_ascii_of_string_of_list_ascii.
  pose proof (bytes_of_string s) as Hb. rewrite filter_all, decode_encode; [|done|].
  - simpl. f_equal. rewrite <- list_fmap_compose, (list_fmap_ext _ id).
    + by rewrite list_fmap_id, String.string_of_list_ascii_of_string.
    + intros i c _. apply ascii_N_embedding.
  - eapply Forall_impl; [by apply encode_chars|]. by intros c [? _].
Qed.
End Base64.

(** ** Basic authentication *)

(** [strings.Cut] at a byte. *)
Fixpoint Cut (s : string) (c : ascii) : option (string * string) :=
  match s with
  | "" => None
  | String a s' =>
      if ascii_dec a c then Some ("", s')
      else match Cut s' c with Some (b, r) => Some (String a b, r) | None => None end
  end.

(** The prefix is compared without case; it is ASCII. *)
Definition ParseBasicAuth (auth : string) : option (string * string) :=
  if (String.length auth <? 6)%nat || negb (ToLower (take_str 6 auth) =s? "basic ") then None else
  c ← Base64.DecodeString (drop_str 6 auth);
  Cut c ":"%char.

Definition BasicAuth (username passwd : string) : string :=
  "Basic " +:+ Base64.EncodeToString (username +:+ ":" +:+ passwd).

Lemma Cut_spec s c b r : Cut s c = Some (b, r) ↔ s = b +:+ String c r ∧ ContainsByte b c = false.
Proof.
  revert b. induction s as [|a s IH]; intros b; simpl.
  { split; [done|]. intros [H _]. by destruct b. }
  destruct (ascii_dec a c) as [->|Hne].
  - split; [by intros [= <- <-]|]. intros [H Hb]. destruct b as [|x b]; [by injection H as ->|].
    injection H as -> ->. simpl in Hb. by destruct (ascii_dec x x).
  - destruct (Cut s c) as [[b' r']|] eqn:E.
    + split; [intros [= <- <-]|].
      * destruct (proj1 (IH b') eq_refl) as [-> Hb]. split; [done|]. simpl. by destruct (ascii_dec a c).
      * intros [H Hb]. destruct b as [|x b]; [by injection H as -> _|]. injection H as -> Hs. simpl in Hb.
        destruct (ascii_dec x c); [done|]. assert (Some (b', r') = Some (b, r)) as [= -> ->]; [|done]. by apply IH.
    + split; [done|]. intros [H Hb]. destruct b as [|x b]; [by injection H as -> _|]. injection H as -> Hs. simpl in Hb.
      destruct (ascii_dec x c); [done|]. enough (None = Some (b, r)) by done. by apply IH.
Qed.

(** What a client puts into the header is what the server reads, exactly when the user name has
    no colon; otherwise the server cuts at the first colon. *)
Theorem basic_auth_roundtrip user passwd :
  ParseBasicAuth (BasicAuth user passwd) = Cut (user +:+ ":" +:+ passwd) ":"%char ∧
  (ParseBasicAuth (BasicAuth user passwd) = Some (user, passwd) ↔ ContainsByte user ":"%char = false).
Proof.
  assert (ParseBasicAuth (BasicAuth user passwd) = Cut (user +:+ ":" +:+ passwd) ":"%char) as E.
  { unfold ParseBasicAuth, BasicAuth. destruct (take_drop_prefix "Basic " (Base64.EncodeToString (user +:+ ":" +:+ passwd))) as [Ht Hd].
    change (String.length "Basic ") with 6%nat in Ht, Hd. rewrite Ht, Hd, append_length. simpl.
    by rewrite Base64.DecodeString_EncodeToString. }
  split; [done|]. rewrite E, Cut_spec. simpl. naive_solver.
Qed.

(** [req.BasicAuth] of [net/http] reads the header [Authorization] the same way. *)
Definition req_BasicAuth (authorization : string) : option (string * string) := ParseBasicAuth authorization.

(** The middleware of the dashboards: whether the next handler runs. *)
Definition Middleware (user passwd authorization : string) : bool :=
  ((user =s? "") && (passwd =s? "")) ||
  match req_BasicAuth authorization with
  | Some (u, p) => (u =s? user) && (p =s? passwd)
  | None => false
  end.

Lemma Middleware_spec user passwd authorization :
  Middleware user passwd authorization = true ↔
  (user = "" ∧ passwd = "") ∨ req_BasicAuth authorization = Some (user, passwd).
Proof.
  unfold Middleware. autorewrite with frp. destruct (req_BasicAuth authorization) as [[u p]|]; autorewrite with frp; naive_solver.
Qed.

(** ** Host names *)

(** [strings.Contains] for a pair of bytes. *)
Fixpoint contains2 (s : string) (a b : ascii) : bool :=
  match s with
  | String x ((String y _) as s') => (bool_decide (x = a) && bool_decide (y = b)) || contains2 s' a b
  | _ => false
  end.

Definition hasPort (host : string) : bool :=
  match CountByte host ":" with
  | 0%nat => false
  | 1%nat => true
  | _ => HasPrefix host "[" && contains2 host "]" ":"
  end.

(** The error is ignored by all callers, which then go on with the empty host. *)
Definition CanonicalHost (host : string) : string :=
  let host := ToLower host in
  if hasPort host then
    match SplitHostPort host with Some (h, _) => TrimSuffix h "." | None => "" end
  else TrimSuffix host ".".

Example CanonicalHost_port : CanonicalHost "Web.Example.com.:8080" = "web.example.com" ∧ CanonicalHost "[::1]:80" = "::1".
Proof. by split. Qed.

(** ** HTTP CONNECT *)

(** What [http.ReadRequest] reads from a connection, and whether its deadlines and answers can
    be set and written. *)
Record connect_conn := mkConnect {
  cc_request : option (string * string * string);     (* method, host, Proxy-Authorization *)
  cc_set_deadline : bool; cc_write : bool; cc_clear_deadline : bool }.

(** [readHTTPConnectRequest]: host, user, password. *)
Definition readHTTPConnectRequest (c : connect_conn) : option (string * string * string) :=
  match cc_request c with
  | Some (method, host, proxyAuth) =>
      if negb (method =s? "CONNECT") then None else
      let '(u, p) := if negb (proxyAuth =s? "") then default ("", "") (ParseBasicAuth proxyAuth) else ("", "") in
      Some (CanonicalHost host, u, p)
  | None => None
  end.

Definition getHostFromHTTPConnect (c : connect_conn) : option reqInfo :=
  match readHTTPConnectRequest c with Some (h, u, _) => Some (mkReqInfo h "" u) | None => None end.

Definition sendConnectResponse (passthrough : bool) (c : connect_conn) (_ : reqInfo) : bool :=
  if passthrough then true else cc_write c.

Definition connect_auth (c : connect_conn) (username password : string) (i : reqInfo) : bool * bool :=
  let pwd := match readHTTPConnectRequest c with Some (_, _, p) => p | None => "" end in
  ((username =s? ri_HTTPUser i) && (password =s? pwd), true).

Definition NewHTTPConnectTCPMuxer (passthrough : bool) : mux_funcs connect_conn :=
  mkMuxFuncs cc_set_deadline getHostFromHTTPConnect (Some (sendConnectResponse passthrough)) (Some connect_auth) cc_clear_deadline.

(** The status codes a client gets from [handle] and its hooks, in order. *)
Definition connect_responses (passthrough : bool) (rs : Routers Listener) (c : connect_conn) : list Z :=
  if negb (cc_set_deadline c) then [] else
  match getHostFromHTTPConnect c with
  | None => []
  | Some i =>
      match getListener rs (ToLower (ri_Host i)) (ToLower (ri_Path i)) (ri_HTTPUser i) with
      | None => [404%Z]
      | Some l =>
          if negb (sendConnectResponse passthrough c i) then [] else
          (if passthrough then [] else [200%Z]) ++
          (if negb (l_username l =s? "") && negb (fst (connect_auth c (l_username l) (l_password l) i)) then [407%Z] else [])
      end
  end.

(** A CONNECT request reaches a proxy exactly when it names a host the search selects and, where
    the proxy has a user name, carries its user name and password; it is then not refused. *)
Theorem connect_admitted passthrough rs c l :
  mux_handle (NewHTTPConnectTCPMuxer passthrough) rs c = Delivered l ↔
  cc_set_deadline c = true ∧ cc_clear_deadline c = true ∧ (passthrough = true ∨ cc_write c = true) ∧
  ∃ host u p, readHTTPConnectRequest c = Some (host, u, p) ∧ getListener rs (ToLower host) "" u = Some l ∧
    (l_username l = "" ∨ l_username l = u ∧ l_password l = p) ∧
    connect_responses passthrough rs c = if passthrough then [] else [200%Z].
Proof.
  unfold mux_handle, connect_responses, getHostFromHTTPConnect. simpl. unfold getHostFromHTTPConnect, sendConnectResponse, connect_auth.
  destruct (cc_set_deadline c); simpl; [|naive_solver]. destruct (readHTTPConnectRequest c) as [[[h u] p]|] eqn:E; [|naive_solver].
  simpl. destruct (getListener rs (ToLower h) "" u) as [l'|] eqn:El; [|naive_solver].
  destruct passthrough, (cc_write c), (cc_clear_deadline c); simpl;
    destruct (seqb_spec (l_username l') ""), (seqb_spec (l_username l') u), (seqb_spec (l_password l') p); simpl; naive_solver.
Qed.

(** A proxy with a password and no user name is open to everybody: the check of HTTP proxies
    asks for either, that of CONNECT only for a user name. *)
Lemma connect_password_without_user passthrough host :
  let l := mkListener "db.example.com" "" "" "" "" "secret" in
  ToLower (CanonicalHost host) = "db.example.com" →
  mux_handle (NewHTTPConnectTCPMuxer passthrough) {["db.example.com" := {["" := [mkRouter "db.example.com" "" "" l]]}]}
    (mkConnect (Some ("CONNECT", host, "")) true true true) = Delivered l.
Proof.
  intros l Hh. unfold mux_handle. simpl. unfold getHostFromHTTPConnect. simpl. rewrite Hh.
  by destruct passthrough.
Qed.

(** A client with wrong credentials is told 200 and then 407: the success hook runs before the
    check. *)
Lemma connect_ok_before_check :
  let l := mkListener "db.example.com" "" "" "" "u" "p" in
  connect_responses false {["db.example.com" := {["" := [mkRouter "db.example.com" "" "" l]]}]}
    (mkConnect (Some ("CONNECT", "db.example.com:443", BasicAuth "u" "q")) true true true) = [200%Z; 407%Z].
Proof. vm_compute. reflexivity. Qed.
