(* ===== verification/HttpReverse.v ===== *)
(** The HTTP reverse proxy, [src/pkg/util/vhost/http.go]: from the request to the connection that
    serves it.

    [ServeHTTP] finds the route of a request and checks its credentials; the library
    [httputil.ReverseProxy] then calls [Rewrite], and its [http.Transport] either reuses an idle
    connection of the same key or calls [DialContext], which searches the routes again.  Requests
    and dials are threads that take one lookup of the router at a time, between which routes
    are registered and removed.  The pool of idle connections is modelled as documented:
    connections are kept by the host of the rewritten URL (and, in proxy mode, the URL), and a
    request that waits for its dial takes any connection of its key. *)
From Stdlib Require Import ZArith Lia Ascii String.
From stdpp Require Import base gmap strings list sorting.
From S2P Require Import Prelude GoStrings Router Vhost HttpAuth.
Local Open Scope string_scope.
Local Open Scope list_scope.

(** ** Requests *)

Record request := mkRequest {
  r_Method : string; r_Host : string;
  r_URLHost : string; r_Path : string; r_RawQuery : string;
  r_Authorization : string; r_ProxyAuthorization : string; r_RemoteAddr : string }.

Definition getRequestRouteUser (req : request) : string :=
  let basic := default "" (fst <$> req_BasicAuth (r_Authorization req)) in
  if negb (r_URLHost req =s? "") then
    if r_ProxyAuthorization req =s? "" then basic
    else default "" (fst <$> ParseBasicAuth (r_ProxyAuthorization req))
  else basic.

Record RequestRouteInfo := mkInfo {
  i_URL : string; i_Host : string; i_HTTPUser : string; i_RemoteAddr : string; i_URLHost : string; i_Endpoint : string }.

Definition route_info (req : request) : RequestRouteInfo :=
  mkInfo (r_Path req) (r_Host req) (getRequestRouteUser req) (r_RemoteAddr req) (r_URLHost req) "".
Definition set_endpoint (e : string) (i : RequestRouteInfo) : RequestRouteInfo :=
  mkInfo (i_URL i) (i_Host i) (i_HTTPUser i) (i_RemoteAddr i) (i_URLHost i) e.

Section reverse.
Context {F : Type}.
Abbreviation route := (RouteConfig F).
Abbreviation routes := (Routers (RouteConfig F)).

(** [injectRequestInfoToCtx]: the route of a request. *)
Definition find_route (rs : routes) (req : request) : option route :=
  let i := route_info req in GetRouteConfig rs (CanonicalHost (i_Host i)) (i_URL i) (i_HTTPUser i).

Definition checkRouteAuthByRequest (req : request) (rc : option route) : bool :=
  match rc with
  | None => true
  | Some rc =>
      if (Username rc =s? "") && (Password rc =s? "") then true else
      let creds :=
        if negb (r_URLHost req =s? "") then
          if r_ProxyAuthorization req =s? "" then None else ParseBasicAuth (r_ProxyAuthorization req)
        else req_BasicAuth (r_Authorization req) in
      match creds with
      | Some (u, p) => (u =s? Username rc) && (p =s? Password rc)
      | None => false
      end
  end.

(** [CreateConnection]: which function of the route it finds is called, and with what. *)
Inductive dial := DialEndpoint (f : F) (endpoint : string) | DialRoute (f : F).

Definition create_by (rc : route) (endpoint : string) (byEndpoint : bool) : option dial :=
  let own := match CreateConnFn rc with Some f => Some (DialRoute f) | None => None end in
  if byEndpoint then match CreateConnByEndpointFn rc with Some f => Some (DialEndpoint f endpoint) | None => own end
  else own.

(** [CreateConnection] when no route changes while it runs. *)
Definition CreateConnection (rs : routes) (i : RequestRouteInfo) (byEndpoint : bool) : option dial :=
  match getVhost rs (CanonicalHost (i_Host i)) (i_URL i) (i_HTTPUser i) with
  | Some vr => create_by (payload vr) (i_Endpoint i) byEndpoint
  | None => None
  end.

(** The key under which the transport keeps connections. *)
Definition pool_key : Type := string * option string.

Definition url_host (rc : route) (endpoint : string) : string :=
  Domain rc +:+ "." +:+ Base64.EncodeToString (Location rc) +:+ "." +:+
  Base64.EncodeToString (RouteByHTTPUser rc) +:+ "." +:+ Base64.EncodeToString endpoint.

Definition key_of (host : string) (req : request) : pool_key :=
  (host, if negb (r_URLHost req =s? "") then Some (r_Path req +:+ "?" +:+ r_RawQuery req) else None).

(** [Rewrite]: the host header, the headers set, the endpoint and the host of the URL.
    [choose] is the answer of [ChooseEndpointFn]. *)
Record out_request := mkOut { o_Host : string; o_Headers : gmap string string; o_URLHost : string; o_Endpoint : string }.

Definition Rewrite (req : request) (rc : option route) (choose : option string) : out_request :=
  match rc with
  | Some rc =>
      let endpoint := match ChooseEndpointFn rc with Some _ => default "" choose | None => "" end in
      mkOut (if RewriteHost rc =s? "" then r_Host req else RewriteHost rc) (Headers rc) (url_host rc endpoint) endpoint
  | None => mkOut (r_Host req) ∅ (r_Host req) ""
  end.

(** ** The search for a route, one lookup at a time

    [getVhost] takes the lock of the router for each lookup, so that routes may come and go
    between two lookups of one search. *)

Definition query : Type := string * string.

Definition queries (host user : string) : list query := candidates host ≫= λ c, [(c, user); (c, "")].

Definition request_queries (req : request) : list query := queries (CanonicalHost (r_Host req)) (getRequestRouteUser req).

Inductive progress := Found (rc : option route) | More (todo : list query).

Definition look (rs : routes) (path : string) (todo : list query) : progress :=
  match todo with
  | [] => Found None
  | (d, u) :: todo' => match Get rs d path u with Some vr => Found (Some (payload vr)) | None => More todo' end
  end.

(** ** The proxy as a state: routes, requests, connections

    A request goes through the search of its route, the check, and then either the search of
    [connectHandler] or the transport: an idle connection of its key, else a dial is started,
    with its own search, and the request waits for any connection of its key.  The connections a
    dial makes go to the idle connections, where the waiting request takes one. *)

Inductive served :=
| Unauthorized                              (* 401 *)
| ProxyAuthRequired                         (* 407 *)
| NotFound                                  (* 404, the error handler *)
| GatewayTimeout                            (* 504, the error handler *)
| ServerError                               (* 500 *)
| Forwarded (id : nat) (out : out_request)  (* over this connection *)
| Tunnelled (d : dial).                     (* CONNECT: joined with a new connection *)

(** Where a request is; [rc] is the route its check was made with. *)
Inductive phase :=
| Searching (todo : list query)
| Connecting (rc : option route) (todo : list query)
| Sending (rc : option route) (out : out_request)
| Waiting (rc : option route) (out : out_request)
| Answered (rc : option route) (r : served).

(** [f_since]: how often the routes had changed when the request arrived; like [d_since] and the
    last four fields of a connection, history that only statements read. *)
Record flight := mkFlight { f_req : request; f_since : nat; f_phase : phase }.

Record dialing := mkDialing {
  d_req : request; d_rc : option route; d_out : out_request; d_since : nat; d_todo : list query }.

Record conn := mkConn {
  c_key : pool_key; c_dial : dial;
  c_req : request;              (* the request it was made for *)
  c_rc : option route;          (* the route that request was checked with *)
  c_via : route;                (* the route whose function made it *)
  c_steady : bool }.            (* no route changed from the arrival of that request *)

Record rproxy := mkProxy {
  p_routes : routes;
  p_changes : nat;                        (* how often the routes changed *)
  p_flights : list flight;
  p_dials : gmap nat dialing;             (* by the number of the request *)
  p_conns : gmap nat conn;                (* connections that were made *)
  p_idle : gmap pool_key (list nat);
  p_next : nat }.

Definition NewHTTPReverseProxy : rproxy := mkProxy NewRouters 0 [] ∅ ∅ ∅ 0.

Definition set_routes (rs : routes) (s : rproxy) : rproxy :=
  mkProxy rs (S (p_changes s)) (p_flights s) (p_dials s) (p_conns s) (p_idle s) (p_next s).
Definition set_phase (n : nat) (ph : phase) (s : rproxy) : rproxy :=
  mkProxy (p_routes s) (p_changes s) (alter (λ fl, mkFlight (f_req fl) (f_since fl) ph) n (p_flights s))
    (p_dials s) (p_conns s) (p_idle s) (p_next s).
Definition set_dial (n : nat) (d : option dialing) (s : rproxy) : rproxy :=
  mkProxy (p_routes s) (p_changes s) (p_flights s) (partial_alter (λ _, d) n (p_dials s)) (p_conns s) (p_idle s) (p_next s).
Definition set_idle (i : gmap pool_key (list nat)) (s : rproxy) : rproxy :=
  mkProxy (p_routes s) (p_changes s) (p_flights s) (p_dials s) (p_conns s) i (p_next s).

(** [ServeHTTP] up to the search of [injectRequestInfoToCtx]. *)
Definition arrive (req : request) (s : rproxy) : rproxy :=
  mkProxy (p_routes s) (p_changes s) (p_flights s ++ [mkFlight req (p_changes s) (Searching (request_queries req))])
    (p_dials s) (p_conns s) (p_idle s) (p_next s).

(** [ServeHTTP] with the route found: the check, then [connectHandler], or the reverse proxy, which
    calls [Rewrite].  [hijack] says whether the client's connection can be taken over. *)
Definition ServeHTTP (req : request) (choose : option string) (hijack : bool) (rc : option route) : phase :=
  if negb (checkRouteAuthByRequest req rc)
  then Answered rc (if negb (r_URLHost req =s? "") then ProxyAuthRequired else Unauthorized) else
  if r_Method req =s? "CONNECT" then
    if negb hijack then Answered rc ServerError else Connecting rc (request_queries req)
  else Sending rc (Rewrite req rc choose).

(** What the connection function returned. *)
Inductive made := Made | Failed (timeout : bool).

(** [connectHandler] with the result of [CreateConnection]. *)
Definition connectHandler (via : option route) (m : made) : served :=
  match via ≫= λ rc, create_by rc "" false, m with
  | Some d, Made => Tunnelled d
  | _, _ => NotFound
  end.

(** [ErrorHandler], for the error of a dial. *)
Definition ErrorHandler (timeout : bool) : served := if timeout then GatewayTimeout else NotFound.

(** The transport gives a request an idle connection of its key. *)
Definition take_idle (n : nat) (req : request) (rc : option route) (out : out_request) (s : rproxy) : option rproxy :=
  let key := key_of (o_URLHost out) req in
  match p_idle s !! key with
  | Some (id :: l) => Some (set_phase n (Answered rc (Forwarded id out)) (set_idle (<[key := l]> (p_idle s)) s))
  | _ => None
  end.

(** One step of a request. *)
Definition request_step (n : nat) (choose : option string) (hijack : bool) (m : made) (s : rproxy) : rproxy :=
  match p_flights s !! n with
  | None => s
  | Some fl =>
      let req := f_req fl in
      match f_phase fl with
      | Searching todo =>
          match look (p_routes s) (r_Path req) todo with
          | More todo' => set_phase n (Searching todo') s
          | Found rc => set_phase n (ServeHTTP req choose hijack rc) s
          end
      | Connecting rc todo =>
          match look (p_routes s) (r_Path req) todo with
          | More todo' => set_phase n (Connecting rc todo') s
          | Found via => set_phase n (Answered rc (connectHandler via m)) s
          end
      | Sending rc out =>
          match take_idle n req rc out s with
          | Some s' => s'
          | None => set_phase n (Waiting rc out)
                      (set_dial n (Some (mkDialing req rc out (f_since fl) (request_queries req))) s)
          end
      | Waiting rc out => default s (take_idle n req rc out s)
      | Answered _ _ => s
      end
  end.

(** A dial that ends without a connection: its request, if it still waits, gets the error. *)
Definition dial_failed (n : nat) (timeout : bool) (s : rproxy) : rproxy :=
  let s := set_dial n None s in
  match p_flights s !! n with
  | Some (mkFlight _ _ (Waiting rc _)) => set_phase n (Answered rc (ErrorHandler timeout)) s
  | _ => s
  end.

(** One step of [DialContext], that is of [CreateConnection]. *)
Definition dial_step (n : nat) (m : made) (s : rproxy) : rproxy :=
  match p_dials s !! n with
  | None => s
  | Some (mkDialing req rc out since todo) =>
      match look (p_routes s) (r_Path req) todo with
      | More todo' => set_dial n (Some (mkDialing req rc out since todo')) s
      | Found None => dial_failed n false s
      | Found (Some via) =>
          match create_by via (o_Endpoint out) true, m with
          | None, _ => dial_failed n false s
          | Some _, Failed timeout => dial_failed n timeout s
          | Some d, Made =>
              let key := key_of (o_URLHost out) req in
              let s := set_dial n None s in
              mkProxy (p_routes s) (p_changes s) (p_flights s) (p_dials s)
                (<[p_next s := mkConn key d req rc via (since =? p_changes s)%nat]> (p_conns s))
                (<[key := p_next s :: default [] (p_idle s !! key)]> (p_idle s)) (S (p_next s))
          end
      end
  end.

(** A connection whose response has been read goes to the pool; an idle one may be closed. *)
Definition put_idle (id : nat) (s : rproxy) : rproxy :=
  match p_conns s !! id with
  | Some c => set_idle (<[c_key c := id :: default [] (p_idle s !! c_key c)]> (p_idle s)) s
  | None => s
  end.
Definition drop_idle (id : nat) (s : rproxy) : rproxy := set_idle (remove_one id <$> p_idle s) s.

Inductive rp_op :=
| ORegister (rc : route) | OUnRegister (rc : route)
| OArrive (req : request)
| ORequest (n : nat) (choose : option string) (hijack : bool) (m : made)
| ODial (n : nat) (m : made)
| OPut (id : nat) | ODrop (id : nat).

Definition rp_step (s : rproxy) (o : rp_op) : rproxy :=
  match o with
  | ORegister rc => match rp_Register rc (p_routes s) with Ok rs => set_routes rs s | Err _ => s end
  | OUnRegister rc => set_routes (rp_UnRegister rc (p_routes s)) s
  | OArrive req => arrive req s
  | ORequest n choose hijack m => request_step n choose hijack m s
  | ODial n m => dial_step n m s
  | OPut id => put_idle id s
  | ODrop id => drop_idle id s
  end.
Definition rp_run (ops : list rp_op) : rproxy := foldl rp_step NewHTTPReverseProxy ops.
End reverse.

(** ** Keys *)

Lemma last_sep_inj a b a' b' c :
  ContainsByte b c = false → ContainsByte b' c = false → a +:+ String c b = a' +:+ String c b' → a = a' ∧ b = b'.
Proof.
  intros Hb Hb'. revert a'. induction a as [|x a IH]; intros [|y a']; simpl.
  - by intros [= ->].
  - intros [= -> ->]. rewrite ContainsByte_append in Hb. simpl in Hb. destruct (ascii_dec y y); [|done].
    by rewrite orb_true_r in Hb.
  - intros [= <- <-]. rewrite ContainsByte_append in Hb'. simpl in Hb'. destruct (ascii_dec x x); [|done].
    by rewrite orb_true_r in Hb'.
  - intros [= -> H]. by destruct (IH a' H) as [-> ->].
Qed.

Lemma ContainsByte_list l c : Forall (λ a, a ≠ c) l → ContainsByte (String.string_of_list_ascii l) c = false.
Proof. induction 1 as [|a l Ha _ IH]; simpl; [done|]. by destruct (ascii_dec a c). Qed.

Lemma encoded_no_dot s : ContainsByte (Base64.EncodeToString s) "." = false.
Proof.
  unfold Base64.EncodeToString. apply ContainsByte_list.
  eapply Forall_impl; [apply Base64.encode_chars, Base64.bytes_of_string|]. by intros c [_ ?].
Qed.

Lemma EncodeToString_inj s t : Base64.EncodeToString s = Base64.EncodeToString t → s = t.
Proof. intros H. apply (f_equal Base64.DecodeString) in H. rewrite !Base64.DecodeString_EncodeToString in H. by injection H. Qed.

Lemma url_host_inj {F} (rc rc' : RouteConfig F) e e' :
  url_host rc e = url_host rc' e' →
  Domain rc = Domain rc' ∧ Location rc = Location rc' ∧ RouteByHTTPUser rc = RouteByHTTPUser rc' ∧ e = e'.
Proof.
  assert (∀ a b a' b' : string, ContainsByte b "." = false → ContainsByte b' "." = false →
    (a +:+ ".") +:+ b = (a' +:+ ".") +:+ b' → a = a' ∧ b = b') as Hsep.
  { intros a b a' b' Hb Hb' H. rewrite !append_assoc in H. by apply (last_sep_inj a b a' b' "."). }
  unfold url_host. intros H. rewrite <- !append_assoc in H.
  apply Hsep in H as [H He]; [|apply encoded_no_dot..].
  apply Hsep in H as [H Hu]; [|apply encoded_no_dot..].
  apply Hsep in H as [H Hl]; [|apply encoded_no_dot..].
  split_and!; [done|by apply EncodeToString_inj..].
Qed.

(** ** Runs *)

Section runs.
Context {F : Type}.
Abbreviation route := (RouteConfig F).
Implicit Types (s : rproxy (F := F)) (req : request).

Lemma checkRouteAuth_spec req (rc : route) :
  checkRouteAuthByRequest req (Some rc) = true ↔
  (Username rc = "" ∧ Password rc = "") ∨
  (if negb (r_URLHost req =s? "")
   then r_ProxyAuthorization req ≠ "" ∧ ParseBasicAuth (r_ProxyAuthorization req) = Some (Username rc, Password rc)
   else req_BasicAuth (r_Authorization req) = Some (Username rc, Password rc)).
Proof.
  unfold checkRouteAuthByRequest. destruct (seqb_spec (Username rc) "") as [Eu|Eu]; simpl;
    [destruct (seqb_spec (Password rc) "") as [Ep|Ep]; simpl; [naive_solver|]|].
  all: destruct (r_URLHost req =s? ""); simpl;
    [destruct (req_BasicAuth (r_Authorization req)) as [[u p]|]
    |destruct (seqb_spec (r_ProxyAuthorization req) ""); [|destruct (ParseBasicAuth (r_ProxyAuthorization req)) as [[u p]|]]];
    rewrite ?andb_true_iff, ?seqb_true; naive_solver.
Qed.

(** *** The search on routes that do not change *)

Abbreviation search rs path := (first_match (λ q : query, Get rs (fst q) path (snd q))).

Lemma search_queries (rs : Routers route) host path user :
  search rs path (queries host user) = getVhost rs host path user.
Proof.
  rewrite getVhost_candidates. unfold queries. induction (candidates host) as [|c l IH]; [done|]. cbn [mbind list_bind app first_match fst snd].
  unfold findRouter. destruct (Get rs c path user); [done|]. destruct (Get rs c path ""); [done|]. apply IH.
Qed.

Lemma find_route_search (rs : Routers route) req :
  find_route rs req = payload <$> search rs (r_Path req) (request_queries req).
Proof. unfold request_queries. rewrite search_queries. reflexivity. Qed.

Lemma CreateConnection_search (rs : Routers route) req e b :
  CreateConnection rs (set_endpoint e (route_info req)) b = find_route rs req ≫= λ rc, create_by rc e b.
Proof. unfold CreateConnection, find_route, GetRouteConfig. simpl. by destruct (getVhost _ _ _ _). Qed.

(** What is left to look up, and the route found, of a search for [req] that began when the routes
    had changed [since] times. *)
Definition searches s req (since : nat) (todo : list query) : Prop :=
  todo ⊆ request_queries req ∧
  (since = p_changes s → payload <$> search (p_routes s) (r_Path req) todo = find_route (p_routes s) req).

Definition serves (rc : route) req : Prop :=
  ∃ d, (d, RouteByHTTPUser rc) ∈ request_queries req ∧ ToLower (Domain rc) = ToLower d ∧ HasPrefix (r_Path req) (Location rc) = true.

Definition found (H : list route) s req (since : nat) (rc : option route) : Prop :=
  (∀ rc0, rc = Some rc0 → rc0 ∈ H ∧ serves rc0 req) ∧
  (since = p_changes s → rc = find_route (p_routes s) req).

Definition filed (H : list route) (rs : Routers route) : Prop :=
  ∀ d u r, r ∈ routers_at rs d u →
    payload r ∈ H ∧ ToLower (Domain (payload r)) = d ∧ RouteByHTTPUser (payload r) = u ∧ location r = Location (payload r).

Lemma look_searches H s req since todo :
  filed H (p_routes s) → searches s req since todo →
  match look (p_routes s) (r_Path req) todo with
  | More todo' => searches s req since todo'
  | Found rc => found H s req since rc
  end.
Proof.
  intros Hf [Hsub Hs]. destruct todo as [|[d u] todo]; simpl; [by split|]. simpl in Hs.
  destruct (Get (p_routes s) d (r_Path req) u) as [r|] eqn:Hg.
  - split; [|exact Hs]. intros rc0 [= <-]. rewrite Get_at in Hg. apply find_first_elem in Hg as [Hin Hp].
    destruct (Hf _ _ _ Hin) as (? & Hd & Hu & Hl). split; [done|]. exists d. rewrite Hu, Hd, <- Hl.
    split; [apply Hsub; by left|done].
  - split; [|exact Hs]. intros q Hq. apply Hsub. by right.
Qed.

(** *** The invariant of runs *)

(** The configurations that were ever given to [Register]. *)
Definition registered (ops : list (rp_op (F := F))) : list route :=
  omap (λ o, match o with ORegister rc => Some rc | _ => None end) ops.

(** The connection [d] comes from a function of [rc], for the endpoint [ep]. *)
Definition made_by (rc : route) (ep : string) (d : dial (F := F)) : Prop :=
  match d with
  | DialRoute f => CreateConnFn rc = Some f
  | DialEndpoint f e => CreateConnByEndpointFn rc = Some f ∧ e = ep
  end.

Lemma create_by_made rc ep b d : create_by rc ep b = Some d → made_by rc ep d.
Proof.
  unfold create_by. destruct b; [destruct (CreateConnByEndpointFn rc) eqn:E; [intros [= <-]; by split|]|];
    destruct (CreateConnFn rc) eqn:E'; try done; by intros [= <-].
Qed.

Definition rewritten req (rc : option route) (out : out_request) : Prop := ∃ choose, out = Rewrite (F:=F) req rc choose.

Record conn_ok (H : list route) (c : conn (F := F)) : Prop := {
  co_via : c_via c ∈ H ∧ serves (c_via c) (c_req c);
  co_steady : c_steady c = true → c_rc c = Some (c_via c);
  co_made : ∃ out, rewritten (c_req c) (c_rc c) out ∧ c_key c = key_of (o_URLHost out) (c_req c) ∧ made_by (c_via c) (o_Endpoint out) (c_dial c) }.

Definition passed req (rc : option route) : Prop := checkRouteAuthByRequest (F:=F) req rc = true.

Definition answer_ok (H : list route) s req since (rc : option route) (r : served (F := F)) : Prop :=
  (checkRouteAuthByRequest req rc = false ↔ r = Unauthorized ∨ r = ProxyAuthRequired) ∧
  match r with
  | Tunnelled d => ∃ via, found H s req since (Some via) ∧ made_by via "" d
  | Forwarded id out => rewritten req rc out ∧ ∃ c, p_conns s !! id = Some c ∧ c_key c = key_of (o_URLHost out) req
  | _ => True
  end.

Definition phase_ok (H : list route) s req since (ph : phase) : Prop :=
  match ph with
  | Searching todo => searches s req since todo
  | Connecting rc todo => found H s req since rc ∧ passed req rc ∧ searches s req since todo
  | Sending rc out | Waiting rc out => found H s req since rc ∧ passed req rc ∧ rewritten req rc out
  | Answered rc r => found H s req since rc ∧ answer_ok H s req since rc r
  end.

Definition flight_ok (H : list route) s (fl : flight) : Prop :=
  (f_since fl <= p_changes s)%nat ∧ phase_ok H s (f_req fl) (f_since fl) (f_phase fl).

Definition dial_ok (H : list route) s (d : dialing) : Prop :=
  (d_since d <= p_changes s)%nat ∧ found H s (d_req d) (d_since d) (d_rc d) ∧ rewritten (d_req d) (d_rc d) (d_out d) ∧
  searches s (d_req d) (d_since d) (d_todo d).

Record rp_wf (H : list route) s : Prop := {
  rw_routes : filed H (p_routes s);
  rw_flights : Forall (flight_ok H s) (p_flights s);
  rw_dials : map_Forall (λ _, dial_ok H s) (p_dials s);
  rw_conns : ∀ id c, p_conns s !! id = Some c → (id < p_next s)%nat ∧ conn_ok H c;
  rw_idle : ∀ k l id, p_idle s !! k = Some l → id ∈ l → ∃ c, p_conns s !! id = Some c ∧ c_key c = k }.

(** *** Preservation *)

(** [s'] keeps the connections of [s], and either its routes too or their number of changes grows. *)
Definition later s s' : Prop :=
  p_conns s ⊆ p_conns s' ∧
  (p_changes s' = p_changes s ∧ p_routes s' = p_routes s ∨ (p_changes s < p_changes s')%nat).

Lemma searches_later s s' req since todo :
  later s s' → (since <= p_changes s)%nat → searches s req since todo → searches s' req since todo.
Proof. intros [_ [[Ec Er]|?]] Hle [Hs Hq]; split; [done| |done|lia]. by rewrite Ec, Er. Qed.

Lemma found_later H H' s s' req since (rc : option route) :
  (∀ x, x ∈ H → x ∈ H') → later s s' → (since <= p_changes s)%nat → found H s req since rc → found H' s' req since rc.
Proof.
  intros Hi [_ Hl] Hle [Hr Hq]; split; [intros rc0 Hrc; destruct (Hr _ Hrc); auto|].
  destruct Hl as [[Ec Er]|?]; [by rewrite Ec, Er|lia].
Qed.

Lemma phase_later H H' s s' req since ph :
  (∀ x, x ∈ H → x ∈ H') → later s s' → (since <= p_changes s)%nat → phase_ok H s req since ph → phase_ok H' s' req since ph.
Proof.
  intros Hi Hl Hle. pose proof (λ o, found_later H H' s s' req since o Hi Hl Hle) as Hf.
  pose proof (λ todo, searches_later s s' req since todo Hl Hle) as Hse.
  destruct ph as [todo|rc todo|rc out|rc out|rc r]; simpl; [naive_solver..|]. intros [Hfo [Ha Hr]]. split; [auto|]. split; [done|].
  destruct r; try done; [|naive_solver]. destruct Hr as [? (c & Hc & Hk)]. split; [done|]. exists c.
  split; [|done]. destruct Hl as [Hsub _]. by eapply lookup_weaken.
Qed.

Lemma flight_later H H' s s' fl :
  (∀ x, x ∈ H → x ∈ H') → later s s' → flight_ok H s fl → flight_ok H' s' fl.
Proof. intros Hi Hl [Hle Hp]. split; [destruct Hl as [_ [[? _]|?]]; lia|by eapply phase_later]. Qed.

Lemma dial_later H H' s s' d :
  (∀ x, x ∈ H → x ∈ H') → later s s' → dial_ok H s d → dial_ok H' s' d.
Proof.
  intros Hi Hl (Hle & Hf & Hr & Hs). split_and!; [destruct Hl as [_ [[? _]|?]]; lia|by eapply found_later|done|by eapply searches_later].
Qed.

Lemma rp_wf_later H H' s s' :
  (∀ x, x ∈ H → x ∈ H') → later s s' → rp_wf H s →
  Forall (flight_ok H' s') (p_flights s) ∧ map_Forall (λ _, dial_ok H' s') (p_dials s).
Proof.
  intros Hi Hl [_ Hf Hd _ _]. split; [eapply Forall_impl; [exact Hf|]; intros; by eapply flight_later|].
  intros n d Hn. eapply dial_later; [done..|]. by eapply Hd.
Qed.

(** Steps that keep routes and connections and change at most one request, one dial, the idle
    connections. *)
Lemma later_refl s s' : p_conns s' = p_conns s → p_changes s' = p_changes s → p_routes s' = p_routes s → later s s'.
Proof. intros Hc Hn Hr. split; [by rewrite Hc|by left]. Qed.

Lemma set_phase_wf H s n ph :
  rp_wf H s → (∀ fl, p_flights s !! n = Some fl → phase_ok H s (f_req fl) (f_since fl) ph) → rp_wf H (set_phase n ph s).
Proof.
  intros Hwf Hph. destruct (rp_wf_later H H s (set_phase n ph s) (λ _ h, h) (later_refl _ _ eq_refl eq_refl eq_refl) Hwf) as [Hf Hd].
  destruct Hwf as [R F0 _ C I]. split; [done| |done..]. simpl. rewrite Forall_lookup. intros k fl.
  rewrite list_lookup_alter. case_decide as Hk; [subst k|by rewrite Forall_lookup in Hf; apply Hf].
  intros (fl0 & Hfl & ->)%fmap_Some. rewrite Forall_lookup in F0. destruct (F0 _ _ Hfl) as [Hle _]. split; [done|]. simpl.
  eapply phase_later; [intros x h; exact h|by apply (later_refl s)|done|by apply Hph].
Qed.

Lemma set_dial_wf H s n d :
  rp_wf H s → (∀ d', d = Some d' → dial_ok H s d') → rp_wf H (set_dial n d s).
Proof.
  intros Hwf Hdo. destruct (rp_wf_later H H s (set_dial n d s) (λ _ h, h) (later_refl _ _ eq_refl eq_refl eq_refl) Hwf) as [Hf Hd].
  destruct Hwf as [R _ _ C I]. split; [done|done| |done..]. intros k d'. simpl. rewrite lookup_partial_alter.
  case_decide; [|apply Hd]. intros ->. eapply dial_later; [intros x h; exact h|by apply (later_refl s)|]. by apply Hdo.
Qed.

Lemma set_idle_wf H s i :
  rp_wf H s → (∀ k l id, i !! k = Some l → id ∈ l → ∃ c, p_conns s !! id = Some c ∧ c_key c = k) → rp_wf H (set_idle i s).
Proof.
  intros Hwf Hi. destruct (rp_wf_later H H s (set_idle i s) (λ _ h, h) (later_refl _ _ eq_refl eq_refl eq_refl) Hwf) as [Hf Hd].
  destruct Hwf as [R _ _ C I]. by split.
Qed.

Lemma passed_not_refused req rc (r : served (F := F)) :
  passed req rc → r ≠ Unauthorized → r ≠ ProxyAuthRequired →
  checkRouteAuthByRequest req rc = false ↔ r = Unauthorized ∨ r = ProxyAuthRequired.
Proof. unfold passed. intros -> H1 H2. split; [done|]. by intros [?|?]. Qed.

Lemma take_idle_wf H s n fl rc out s' :
  rp_wf H s → p_flights s !! n = Some fl → found H s (f_req fl) (f_since fl) rc → passed (f_req fl) rc → rewritten (f_req fl) rc out →
  take_idle n (f_req fl) rc out s = Some s' → rp_wf H s'.
Proof.
  intros Hwf Hn Hf Hp Hr. unfold take_idle. destruct (p_idle s !! _) as [[|id l]|] eqn:Ei; try done. intros [= <-].
  destruct (rw_idle _ _ Hwf _ _ id Ei) as (c & Hc & Hk); [by left|]. apply set_phase_wf.
  - apply set_idle_wf; [done|]. intros k l' id'. rewrite lookup_insert. case_decide as E; [|apply Hwf].
    subst k. intros [= <-] Hin. eapply Hwf; [exact Ei|by right].
  - intros fl' Hfl. assert (fl' = fl) as -> by (simpl in Hfl; congruence). split; [done|]. split; [by apply passed_not_refused|].
    split; [done|]. by exists c.
Qed.

Lemma ServeHTTP_ok H s req since choose hijack rc :
  found H s req since rc → phase_ok H s req since (ServeHTTP req choose hijack rc).
Proof.
  intros Hf. unfold ServeHTTP. destruct (checkRouteAuthByRequest req rc) eqn:Ea; simpl.
  - destruct (r_Method req =s? "CONNECT"); [destruct hijack; simpl|].
    + split_and!; [done..|]. split; [done|]. intros _. by rewrite find_route_search.
    + split; [done|]. split; [by apply passed_not_refused|done].
    + split_and!; [done..|]. by exists choose.
  - split; [done|]. split; [|by destruct (negb _)]. split; [|done]. intros _. destruct (r_URLHost req =s? ""); auto.
Qed.

Lemma request_step_wf H s n choose hijack m : rp_wf H s → rp_wf H (request_step n choose hijack m s).
Proof.
  intros Hwf. unfold request_step. destruct (p_flights s !! n) as [fl|] eqn:Hn; [|done].
  pose proof (proj1 (Forall_lookup _ _) (rw_flights _ _ Hwf) _ _ Hn) as [Hle Hph].
  assert (∀ ph, phase_ok H s (f_req fl) (f_since fl) ph → rp_wf H (set_phase n ph s)) as Hset.
  { intros ph Hp. apply set_phase_wf; [done|]. intros fl' Hfl. congruence. }
  destruct (f_phase fl) as [todo|rc todo|rc out|rc out|rc r]; simpl in Hph.
  - pose proof (look_searches _ _ _ _ _ (rw_routes _ _ Hwf) Hph) as Hl.
    destruct (look _ _ todo); [|by apply Hset]. by apply Hset, ServeHTTP_ok.
  - destruct Hph as (Hf & Hp & Hs). pose proof (look_searches _ _ _ _ _ (rw_routes _ _ Hwf) Hs) as Hl.
    destruct (look _ _ todo) as [via|]; [|by apply Hset]. apply Hset. split; [done|].
    split; [apply passed_not_refused; [done|unfold connectHandler; by repeat case_match..]|].
    unfold connectHandler. destruct via as [via|]; cbn [mbind option_bind]; [|done]. destruct (create_by via "" false) as [d|] eqn:Ed; [|done].
    destruct m; [|done]. exists via. split; [done|]. by eapply create_by_made.
  - destruct Hph as (Hf & Hp & Hr). destruct (take_idle n (f_req fl) rc out s) as [s'|] eqn:Et; [by eapply take_idle_wf|].
    apply set_phase_wf; [|intros fl' Hfl; assert (fl' = fl) as -> by (simpl in Hfl; congruence); by split_and!].
    apply set_dial_wf; [done|]. intros d [= <-]. split_and!; [done..|]. split; [done|]. intros _. by rewrite find_route_search.
  - destruct Hph as (Hf & Hp & Hr). destruct (take_idle n (f_req fl) rc out s) as [s'|] eqn:Et; [|done]. simpl. by eapply take_idle_wf.
  - done.
Qed.

Lemma dial_failed_wf H s n timeout : rp_wf H s → rp_wf H (dial_failed n timeout s).
Proof.
  intros Hwf. unfold dial_failed. assert (rp_wf H (set_dial n None s)) as Hwf' by by apply set_dial_wf.
  destruct (p_flights _ !! n) as [[req since [| | |rc out|]]|] eqn:Hn; try done.
  pose proof (proj1 (Forall_lookup _ _) (rw_flights _ _ Hwf') _ _ Hn) as [_ (Hf & Hp & _)].
  apply set_phase_wf; [done|]. intros fl Hfl. assert (fl = mkFlight req since (Waiting rc out)) as -> by congruence.
  split; [done|]. simpl in *. split; [apply passed_not_refused; [done|by destruct timeout..]|by destruct timeout].
Qed.

Lemma dial_step_wf H s n m : rp_wf H s → rp_wf H (dial_step n m s).
Proof.
  intros Hwf. unfold dial_step. destruct (p_dials s !! n) as [[req rc out since todo]|] eqn:Hd; [|done].
  destruct (rw_dials _ _ Hwf _ _ Hd) as (Hle & Hf & Hr & Hs). simpl in Hle, Hf, Hr, Hs.
  pose proof (look_searches _ _ _ _ _ (rw_routes _ _ Hwf) Hs) as Hl.
  destruct (look _ _ todo) as [[via|]|todo']; [|by apply dial_failed_wf|].
  2: { apply set_dial_wf; [done|]. intros d [= <-]. by split_and!. }
  destruct (create_by via _ true) as [d|] eqn:Ed; [|by apply dial_failed_wf]. destruct m as [|timeout]; [|by apply dial_failed_wf].
  set (s1 := set_dial n None s). assert (rp_wf H s1) as Hwf1 by by apply set_dial_wf.
  assert (p_conns s !! p_next s = None) as Hfresh.
  { destruct (p_conns s !! p_next s) eqn:E; [|done]. apply (rw_conns _ _ Hwf) in E as [? _]. lia. }
  set (c := mkConn _ _ _ _ _ _). set (s2 := mkProxy _ _ _ _ _ _ _).
  assert (later s1 s2) as Hla by (split; [by apply insert_subseteq|by left]).
  destruct (rp_wf_later H H s1 s2 (λ _ h, h) Hla Hwf1) as [HF HD]. destruct Hwf1 as [R _ _ C I]. split; [done..| |]; simpl.
  - intros id c'. rewrite lookup_insert. case_decide; [|intros [? ?]%C; split; [simpl in *; lia|done]].
    intros [= <-]. split; [lia|]. destruct Hl as [Hv Hq]. split; simpl; [by apply Hv| |].
    + intros Heq%Nat.eqb_eq. destruct Hf as [_ Hf]. by rewrite (Hf Heq), <- (Hq Heq).
    + exists out. split_and!; [done..|]. by eapply create_by_made.
  - intros k l id. rewrite lookup_insert. case_decide as Hk.
    + subst k. intros [= <-] [->|Hin]%elem_of_cons; [exists c; by rewrite lookup_insert_eq|].
      destruct (p_idle s !! _) as [l0|] eqn:El; simpl in Hin; [|by apply not_elem_of_nil in Hin].
      destruct (I _ _ _ El Hin) as (c' & Hc' & Hk'). exists c'. rewrite lookup_insert_ne; [done|]. intros Heq. rewrite <- Heq in Hc'. simpl in Hc'. congruence.
    + intros Hl' Hin. destruct (I _ _ _ Hl' Hin) as (c' & Hc' & Hk'). exists c'. rewrite lookup_insert_ne; [done|]. intros Heq. rewrite <- Heq in Hc'. simpl in Hc'. congruence.
Qed.

Lemma set_routes_wf H H' s rs :
  (∀ x, x ∈ H → x ∈ H') → filed H' rs → rp_wf H s → rp_wf H' (set_routes rs s).
Proof.
  intros Hi Hr Hwf. assert (later s (set_routes rs s)) as Hla by (split; [done|right; simpl; lia]).
  destruct (rp_wf_later H H' s _ Hi Hla Hwf) as [Hf Hd]. destruct Hwf as [R _ _ C I]. split; [done..| |done].
  intros id c Hc. destruct (C _ _ Hc) as [? [[? ?] Hs Hm]]. split; [done|]. split; [split; [auto|done]|done..].
Qed.

Lemma rp_wf_incl H H' s : (∀ rc, rc ∈ H → rc ∈ H') → rp_wf H s → rp_wf H' s.
Proof.
  intros Hi Hwf. destruct (rp_wf_later H H' s s Hi (later_refl _ _ eq_refl eq_refl eq_refl) Hwf) as [Hf Hd].
  destruct Hwf as [R _ _ C I]. split; [|done..| |done].
  - intros d u r Hr. destruct (R _ _ _ Hr) as [? ?]. auto.
  - intros id c Hc. destruct (C _ _ Hc) as [? [[? ?] Hs Hm]]. split; [done|]. split; [split; [auto|done]|done..].
Qed.

Lemma filed_Register H rc rs rs' : filed H rs → rp_Register rc rs = Ok rs' → filed (rc :: H) rs'.
Proof.
  intros R [_ E]%Add_at d u r. rewrite E. case_decide as Hd.
  - rewrite merge_sort_Permutation, elem_of_app, list_elem_of_singleton. destruct Hd as [<- <-].
    intros [Hr| ->]; [|simpl; split_and!; [by left|done..]]. destruct (R _ _ _ Hr) as [? ?]. split; [by right|done].
  - intros Hr. destruct (R _ _ _ Hr) as [? ?]. split; [by right|done].
Qed.

Lemma rp_step_wf H s o : rp_wf H s → rp_wf (registered [o] ++ H) (rp_step s o).
Proof.
  intros Hwf. destruct o as [rc|rc|req|n choose hijack m|n m|id|id]; cbn [rp_step registered omap list_omap app].
  - destruct (rp_Register rc (p_routes s)) as [rs|] eqn:E; [|eapply rp_wf_incl; [|done]; by right].
    eapply set_routes_wf; [|by eapply filed_Register; [apply Hwf|]|done]. by right.
  - eapply set_routes_wf; [intros x h; exact h| |done]. intros d u r. unfold rp_UnRegister. rewrite Del_at.
    case_decide; [|apply Hwf]. intros [_ Hr]%list_elem_of_filter. by apply Hwf.
  - destruct (rp_wf_later H H s (arrive req s) (λ _ h, h) (later_refl _ _ eq_refl eq_refl eq_refl) Hwf) as [Hf Hd].
    destruct Hwf as [R _ _ C I]. split; [done| |done..]. simpl. apply Forall_app. split; [done|]. constructor; [|done].
    split; [done|]. split; [done|]. intros _. by rewrite find_route_search.
  - by apply request_step_wf.
  - by apply dial_step_wf.
  - unfold put_idle. destruct (p_conns s !! id) as [c|] eqn:Ec; [|done]. apply set_idle_wf; [done|].
    intros k l id'. rewrite lookup_insert. case_decide as Hk; [|apply Hwf]. intros [= <-] [->|Hin]%elem_of_cons; [by exists c|].
    destruct (p_idle s !! c_key c) eqn:El; simpl in Hin; [|by apply not_elem_of_nil in Hin]. subst k. by eapply Hwf.
  - apply set_idle_wf; [done|]. intros k l id'. rewrite lookup_fmap, fmap_Some.
    intros (l' & Hl & ->) Hin%remove_one_elem. by eapply Hwf.
Qed.

Lemma rp_run_wf ops : rp_wf (registered ops) (rp_run ops).
Proof.
  unfold rp_run. induction ops as [|o ops IH] using rev_ind.
  { split; simpl; [|done..]. intros d u r. unfold routers_at, NewRouters. rewrite lookup_empty. by intros ?%not_elem_of_nil. }
  rewrite foldl_app. simpl. eapply rp_wf_incl; [|by apply rp_step_wf]. intros rc.
  unfold registered. rewrite omap_app, !elem_of_app. tauto.
Qed.

(** Routes of the same domain, location and user. *)
Definition same_key (rc rc' : route) : Prop :=
  Domain rc = Domain rc' ∧ Location rc = Location rc' ∧ RouteByHTTPUser rc = RouteByHTTPUser rc'.

Lemma steady_conn_key H (c : conn (F := F)) rc ep k :
  conn_ok H c → c_key c = (url_host rc ep, k) → c_steady c = true → same_key (c_via c) rc ∧ made_by (c_via c) ep (c_dial c).
Proof.
  intros [_ Hst (out & (choose & ->) & Hk & Hm)] Hkey Hs. rewrite (Hst Hs) in Hk, Hm. rewrite Hk in Hkey.
  injection Hkey as Hu _. apply url_host_inj in Hu as (? & ? & ? & He). split; [done|]. by rewrite <- He.
Qed.


(** *** A request alone *)

Lemma set_phase_twice n ph ph' s : set_phase n ph (set_phase n ph' s) = set_phase n ph s.
Proof. unfold set_phase. simpl. f_equal. apply list_eq. intros i. rewrite !list_lookup_alter. case_decide; [|done].
  subst. rewrite decide_True by done. by destruct (p_flights s !! i). Qed.

Lemma set_phase_same n req since ph s : p_flights s !! n = Some (mkFlight req since ph) → set_phase n ph s = s.
Proof.
  intros Hn. destruct s as [rs ch fls ds cs i nx]. unfold set_phase. f_equal. simpl in *. apply list_eq. intros j. rewrite list_lookup_alter.
  case_decide as Hj; [subst j|done]. by rewrite Hn.
Qed.

Lemma flight_set_phase n req since ph ph' s :
  p_flights s !! n = Some (mkFlight req since ph) → p_flights (set_phase n ph' s) !! n = Some (mkFlight req since ph').
Proof. intros Hn. simpl. rewrite list_lookup_alter, decide_True by done. by rewrite Hn. Qed.

Lemma search_alone n req since choose hijack m todo s :
  p_flights s !! n = Some (mkFlight req since (Searching todo)) →
  search (p_routes s) (r_Path req) todo = None →
  foldl rp_step s (replicate (length todo) (ORequest n choose hijack m)) = set_phase n (Searching []) s.
Proof.
  revert s. induction todo as [|[d u] todo IH]; intros s Hn Hs; simpl; [by erewrite set_phase_same|].
  simpl in Hs. unfold request_step. rewrite Hn. simpl. destruct (Get (p_routes s) d (r_Path req) u) eqn:Hg; [done|].
  rewrite IH; [by rewrite set_phase_twice|by eapply flight_set_phase|done].
Qed.

(** C25: the password of a route can be passed over.  In any state that can be reached: while a
    connection made for a route is idle, a request whose Host header spells
    the transport's key of that route, and for which no route is found - neither one of that
    name nor one of a pattern or of all domains - is not asked for a password, whatever
    credentials it carries and whatever the route asks for; its Host header is the key, and it is
    forwarded over the idle connection, to the protected service. *)
Theorem idle_connection_passes_password ops (rc : route) ep id l req :
  let s := rp_run ops in
  let n := length (p_flights s) in
  p_idle s !! (url_host rc ep, None) = Some (id :: l) →
  r_Host req = url_host rc ep → r_URLHost req = "" → r_Method req ≠ "CONNECT" →
  find_route (p_routes s) req = None →
  ∃ k out c, let s' := foldl rp_step (arrive req s) (replicate k (ORequest n None true Made)) in
    p_flights s' !! n = Some (mkFlight req (p_changes s) (Answered None (Forwarded id out))) ∧
    p_conns s' !! id = Some c ∧ c_key c = (url_host rc ep, None) ∧ (c_steady c = true → same_key (c_via c) rc).
Proof.
  intros s n Hi Hh Hu Hm Hf. pose proof (rp_run_wf ops : rp_wf _ s) as Hwf.
  destruct (rw_idle _ _ Hwf _ _ id Hi) as (c & Hc & Hk); [by left|]. destruct (rw_conns _ _ Hwf _ _ Hc) as [_ Hco].
  assert (p_flights (arrive req s) !! n = Some (mkFlight req (p_changes s) (Searching (request_queries req)))) as Hn
    by (simpl; by rewrite lookup_app_r, Nat.sub_diag by done).
  exists (length (request_queries req) + 2)%nat, (Rewrite (F:=F) req None None), c.
  rewrite replicate_add, foldl_app. rewrite find_route_search in Hf. apply fmap_None in Hf.
  rewrite (search_alone n req _ _ _ _ _ _ Hn Hf). cbn [replicate foldl rp_step].
  assert (request_step n None true Made (set_phase n (Searching []) (arrive req s)) =
          set_phase n (Sending None (Rewrite (F:=F) req None None)) (arrive req s)) as ->.
  { unfold request_step. rewrite (flight_set_phase _ _ _ _ _ _ Hn). simpl. rewrite set_phase_twice. unfold ServeHTTP. simpl.
    by destruct (seqb_spec (r_Method req) "CONNECT"). }
  unfold request_step. rewrite (flight_set_phase _ _ _ _ _ _ Hn). cbn [f_req f_phase].
  assert (key_of (o_URLHost (Rewrite (F:=F) req None None)) req = (url_host rc ep, None)) as Hkey
    by (unfold key_of, Rewrite; simpl; by rewrite Hh, Hu).
  unfold take_idle. rewrite Hkey. change (p_idle (set_phase n _ (arrive req s))) with (p_idle s). rewrite (Hi : lookup (K := pool_key) (url_host rc ep, None) (p_idle s) = _).
  split_and!; [by eapply flight_set_phase, flight_set_phase|done|done|intros Hs; by apply (steady_conn_key _ _ _ _ _ Hco Hk Hs)].
Qed.
End runs.

(** ** Runs of one host *)

Definition get (host auth : string) : request := mkRequest "GET" host "" "/" "" auth "" "203.0.113.9:5000".

Definition private {F} (user passwd : string) (f : F) : RouteConfig F :=
  mkRouteConfig "private.example.com" "" "" user passwd ∅ ∅ "" (Some f) None None.

(** [k] steps of the request [n]; [k] steps of its dial. *)
Definition steps {F} (n k : nat) : list (rp_op (F := F)) := replicate k (ORequest n None true Made).
Definition dials {F} (n k : nat) : list (rp_op (F := F)) := replicate k (ODial n Made).

(** A request with the password is served over a new connection, which then becomes idle. *)
Definition authorised {F} (f : F) : list rp_op :=
  [ORegister (private "admin" "secret" f); OArrive (get "private.example.com" (BasicAuth "admin" "secret"))] ++
  steps 0 3 ++ dials 0 2 ++ steps 0 1.


Lemma idle_connection_passes_password_witness :
  ∃ k out, let s' := foldl rp_step (arrive (get "private.example.com..." "") (rp_run (authorised 7%nat ++ [OPut 0])))
      (replicate k (ORequest 1 None true Made)) in
    p_flights s' !! 1%nat = Some (mkFlight (get "private.example.com..." "") 1 (Answered None (Forwarded 0 out))).
Proof.
  destruct (idle_connection_passes_password (authorised 7%nat ++ [OPut 0]) (private "admin" "secret" 7%nat) "" 0 []
    (get "private.example.com..." "")) as (k & out & c & H & _); [vm_compute; reflexivity..|discriminate|vm_compute; reflexivity|].
  exists k, out. exact H.
Defined.

(** A route that another proxy has taken over is still served by the idle connections of its
    predecessor. *)
Lemma idle_connection_outlives_route :
  let old := private "" "" 1%nat in
  let new := private "" "" 2%nat in
  let req := get "private.example.com" "" in
  let s := rp_run ([ORegister old; OArrive req] ++ steps 0 2 ++ dials 0 1 ++ steps 0 1 ++
                   [OPut 0; OUnRegister old; ORegister new; OArrive req] ++ steps 1 2) in
  find_route (p_routes s) req = Some new ∧
  (∃ out, p_flights s !! 1%nat = Some (mkFlight req 3 (Answered (Some new) (Forwarded 0 out)))) ∧
  c_dial <$> p_conns s !! 0%nat = Some (DialRoute 1%nat).
Proof. split_and!; [vm_compute; reflexivity|eexists; vm_compute; reflexivity|vm_compute; reflexivity]. Qed.

(** The route is searched again when the connection is made: a proxy that registers between the
    check and the connection is reached without its password. *)
Lemma route_registered_after_check :
  let req := get "private.example.com" "" in
  let s := rp_run ([OArrive req] ++ steps 0 7 ++ [ORegister (private "admin" "secret" 7%nat)] ++ steps 0 1 ++ dials 0 1 ++ steps 0 1) in
  (∃ out, p_flights s !! 0%nat = Some (mkFlight req 0 (Answered None (Forwarded 0 out)))) ∧
  c_via <$> p_conns s !! 0%nat = Some (private "admin" "secret" 7%nat).
Proof. split; [eexists; vm_compute; reflexivity|vm_compute; reflexivity]. Qed.
