(* ===== verification/Streams.v ===== *)
(** Connections and what is wrapped around them: the wrappers of [src/pkg/util/net/conn.go], the
    bandwidth limits of [src/pkg/util/limit], and the stacks of streams that
    [src/server/proxy/proxy.go], [http.go], [udp.go] and [src/client/proxy/proxy.go] build over
    a work connection: who closes what. *)
From Stdlib Require Import ZArith Lia String Sorted.
From stdpp Require Import base strings list gmap sets.
From S2P Require Import Prelude GoStrings ProxyConf.
Local Open Scope string_scope.
Local Open Scope list_scope.

(** ** [StatsConn]: bytes are counted and reported once *)

Module StatsConn.
(** [closes] counts the calls of [Close] on the connection below, [reports] those of
    [statsFunc]. *)
Record t := mk { closed : bool; totalRead : Z; totalWrite : Z; closes : nat; reports : list (Z * Z) }.
Definition New : t := mk false 0 0 0 [].

Inductive op := ORead (n : Z) | OWrite (n : Z) | OClose.

Definition Read (n : Z) (c : t) : t := mk (closed c) (wrap64 (totalRead c + n)) (totalWrite c) (closes c) (reports c).
Definition Write (n : Z) (c : t) : t := mk (closed c) (totalRead c) (wrap64 (totalWrite c + n)) (closes c) (reports c).
Definition Close (c : t) : t :=
  if closed c then c else mk true (totalRead c) (totalWrite c) (S (closes c)) (reports c ++ [(totalRead c, totalWrite c)]).

Definition step (c : t) (o : op) : t := match o with ORead n => Read n c | OWrite n => Write n c | OClose => Close c end.

Definition bytes_read (ops : list op) : Z := foldr (λ o z, match o with ORead n => n + z | _ => z end)%Z 0%Z ops.
Definition bytes_written (ops : list op) : Z := foldr (λ o z, match o with OWrite n => n + z | _ => z end)%Z 0%Z ops.
Definition is_close (o : op) : Prop := o = OClose.

Lemma open_run ops : Forall (λ o, ¬ is_close o) ops → ∀ r w,
  foldl step (mk false (wrap64 r) (wrap64 w) 0 []) ops =
  mk false (wrap64 (r + bytes_read ops)) (wrap64 (w + bytes_written ops)) 0 [].
Proof.
  induction 1 as [|o ops Ho _ IH]; intros r w; simpl; [by rewrite !Z.add_0_r|].
  assert (∀ z n, wrap64 (wrap64 z + n) = wrap64 (z + n)) as Hw by (intros; apply wrap_add_l).
  destruct o as [n|n|]; simpl; [| |by destruct Ho]; unfold Read, Write; simpl; by rewrite Hw, IH, Z.add_assoc.
Qed.

Lemma closed_run ops c : closed c = true → closes (foldl step c ops) = closes c ∧ reports (foldl step c ops) = reports c.
Proof.
  revert c. induction ops as [|o ops IH]; intros c Hc; [done|]. simpl.
  destruct (IH (step c o)) as [-> ->]; [destruct o; simpl; unfold Close; by rewrite ?Hc|].
  destruct o; simpl; unfold Close; by rewrite ?Hc.
Qed.

(** The first [Close] closes the connection below and reports the bytes so far; later calls
    and later bytes report nothing. *)
Lemma reported_once before after :
  Forall (λ o, ¬ is_close o) before →
  let c := foldl step New (before ++ OClose :: after) in
  closes c = 1%nat ∧ reports c = [(wrap64 (bytes_read before), wrap64 (bytes_written before))].
Proof.
  intros Hb c. unfold c. rewrite foldl_app. rewrite (open_run before Hb 0 0 : foldl step New before = _). simpl.
  by apply (closed_run after).
Qed.
End StatsConn.

(** ** [CloseNotifyConn]: the first of [Close] and [CloseWithError] is notified *)

Module CloseNotifyConn.
Section notify.
Context {E : Type}.
Record t := mk { closeFlag : bool; closes : nat; notified : list (option E) }.
Definition New : t := mk false 0 [].
Definition close_with (e : option E) (c : t) : t :=
  if closeFlag c then c else mk true (S (closes c)) (notified c ++ [e]).
Definition Close (c : t) : t := close_with None c.
Definition CloseWithError (e : option E) (c : t) : t := close_with e c.

Lemma notified_once e rest : let c := foldl (λ c e, close_with e c) New (e :: rest) in closes c = 1%nat ∧ notified c = [e].
Proof. simpl. induction rest as [|x rest IH]; [done|exact IH]. Qed.
End notify.
End CloseNotifyConn.

(** ** Bandwidth limits *)

Module Limit.
Section limit.
Context {Byte : Type}.

(** [Reader.Read]: the buffer is cut to the burst; the library's reader fills a part of it. *)
Definition Read (burst : nat) (p : nat) (fill : nat → nat) : nat := fill (Nat.min burst p).

(** [Writer.Write]: how much is asked of the limiter and written, piece by piece. [ok i] says
    whether the [i]-th wait and write succeed.  [None]: more pieces than [fuel]. *)
Fixpoint Write (fuel burst : nat) (ok : nat → bool) (i : nat) (p : list Byte) : option (list (list Byte) * bool) :=
  match p with
  | [] => Some ([], true)
  | _ =>
      match fuel with
      | 0 => None
      | S fuel =>
          let piece := take (if (burst <? length p)%nat then burst else length p) p in
          if ok i then
            match Write fuel burst ok (S i) (drop (length piece) p) with
            | Some (ps, r) => Some (piece :: ps, r)
            | None => None
            end
          else Some ([], false)
      end
  end.

(** With a positive burst the writer ends; what it wrote is a prefix of the data, in order, all
    of it unless a write failed, and no piece is larger than the burst, so that the limiter
    never refuses it. *)
Lemma Write_spec burst ok fuel i p :
  (0 < burst)%nat → (length p <= fuel)%nat →
  ∃ ps r, Write fuel burst ok i p = Some (ps, r) ∧ Forall (λ x, (0 < length x <= burst)%nat) ps ∧
    (∃ rest, p = mjoin ps ++ rest ∧ (r = true ↔ rest = [])) ∧ ((∀ j, ok j = true) → r = true).
Proof.
  intros Hb. revert i p. induction fuel as [|fuel IH]; intros i p Hl.
  { destruct p; [|simpl in Hl; lia]. exists [], true. split_and!; [done|done| |done]. by exists []. }
  destruct p as [|x p]; [exists [], true; split_and!; [done|done| |done]; by exists []|].
  set (q := x :: p) in *. set (n := if (burst <? length q)%nat then burst else length q).
  assert (0 < n <= burst ∧ n <= length q)%nat as Hn.
  { unfold n. destruct (Nat.ltb_spec burst (length q)); [lia|]. simpl in *. lia. }
  change (Write (S fuel) burst ok i q) with
    (if ok i then match Write fuel burst ok (S i) (drop (length (take n q)) q) with
                  | Some (ps, r) => Some (take n q :: ps, r) | None => None end
     else Some ([], false)).
  assert (length (take n q) = n) as Ht by (rewrite length_take; lia). rewrite Ht.
  destruct (ok i) eqn:Eo.
  - destruct (IH (S i) (drop n q)) as (ps & r & -> & Hps & (rest & Hr & Hrest) & Hok); [rewrite length_drop; lia|].
    exists (take n q :: ps), r. split_and!; [done| | |done].
    + constructor; [rewrite Ht; lia|done].
    + exists rest. split; [|done]. simpl. rewrite <- app_assoc, <- Hr. by rewrite take_drop.
  - exists [], false. split_and!; [done|done| |intros H; by rewrite H in Eo]. by exists q.
Qed.

(** A burst of 0 would loop: the limiter is only made for a positive limit. *)
Lemma Write_zero_burst fuel ok i (x : Byte) p : (∀ j, ok j = true) → Write fuel 0 ok i (x :: p) = None.
Proof. intros Ho. revert i. induction fuel as [|fuel IH]; intros i; simpl; [done|]. by rewrite Ho, IH. Qed.

Lemma Read_burst burst p fill : (∀ n, (fill n <= n)%nat) → (Read burst p fill <= burst)%nat.
Proof. intros Hf. unfold Read. specialize (Hf (Nat.min burst p)). lia. Qed.
End limit.
End Limit.

(** ** Stacks of streams over a work connection *)

Module Stack.
(** A stream is known by what its [Close] calls: nothing more (the connection itself), the
    [Close] of the stream below, or that of whatever the Go variable holds that a closure has
    captured.  Object 0 is the connection; a library stream can close no more than what it was
    given: the readers and writers of [limit] have no [Close]. *)
Inductive closer := Raw | Below (id : nat) | Captured.

Record t := mk { objs : list closer; var : nat }.

Definition new : t := mk [Raw] 0.
(** [x = f(x)]: the variable moves on to the new stream. *)
Definition push (c : nat → closer) (s : t) : t := mk (objs s ++ [c (var s)]) (length (objs s)).

Definition WithEncryption (use : bool) (s : t) : t := if use then push Below s else s.
Definition WithCompression (use : bool) (s : t) : t := if use then push Below s else s.
(** [rwc = WrapReadWriteCloser(.., func() error { return rwc.Close() })]. *)
Definition limit_captured (use : bool) (s : t) : t := if use then push (λ _, Captured) s else s.
(** The closure of the client closes the connection. *)
Definition limit_conn (use : bool) (s : t) : t := if use then push (λ _, Below 0) s else s.
(** [WrapReadWriteCloserToConn] and [WrapStatsConn] take the value of the variable. *)
Definition wrap (s : t) : t := push Below s.

(** What closing stream [i] may close next, in a finished stack. *)
Definition next (s : t) (i : nat) : option nat :=
  match objs s !! i with Some (Below j) => Some j | Some Captured => Some (var s) | _ => None end.

Fixpoint closed_from (fuel : nat) (s : t) (i : nat) : list nat :=
  i :: match fuel with
       | 0 => []
       | S fuel => match next s i with Some j => closed_from fuel s j | None => [] end
       end.

(** [NewProxy]: the limit applies on the side its mode names. *)
Definition limited (mode : string) (tr : ProxyTransport) : bool :=
  (0 <? bw_i (BandwidthLimit tr))%Z && (BandwidthLimitMode tr =s? mode).

(** The variable [rwc] at the end of [HTTPProxy.GetRealConn] and in the worker of UDP proxies;
    the connection that is handed on wraps its value. *)
Definition server_stack (tr : ProxyTransport) : t :=
  limit_captured (limited "server" tr) (WithCompression (UseCompression tr) (WithEncryption (UseEncryption tr) new)).

(** Closing the wrapped connection: the wrapper closes the value of [rwc]. *)
Definition closes_work_conn (fuel : nat) (s : t) : bool := bool_decide (0%nat ∈ closed_from fuel s (var s)).

(** [wrapWorkConn] of the client. *)
Definition client_stack (tr : ProxyTransport) : t :=
  WithCompression (UseCompression tr) (WithEncryption (UseEncryption tr) (limit_conn (limited "client" tr) new)).

Lemma captured_loop s fuel : objs s !! var s = Some Captured → closed_from fuel s (var s) = repeat (var s) (S fuel).
Proof. intros H. induction fuel as [|fuel IH]; simpl; [done|]. unfold next. by rewrite H, IH. Qed.

(** A bandwidth limit on the server keeps work connections open.  The connection that
    [GetRealConn] hands to the HTTP transport, and that a UDP proxy reads from, closes the work
    connection exactly when the proxy has no bandwidth limit on the server: with one, the
    closure that should close the stream below the limit captures the variable, which by then
    holds the limited stream itself, and whatever the stream library does, no call reaches the
    work connection.  On the client, where the closure captures the connection, closing always
    reaches it. *)
Theorem server_limit_keeps_conn_open tr :
  (limited "server" tr = true → ∀ fuel, closes_work_conn fuel (server_stack tr) = false) ∧
  (limited "server" tr = false → ∃ fuel, closes_work_conn fuel (server_stack tr) = true) ∧
  ∃ fuel, closes_work_conn fuel (client_stack tr) = true.
Proof.
  unfold server_stack, client_stack. split_and!.
  - intros Hl fuel. rewrite Hl. unfold closes_work_conn. apply bool_decide_eq_false.
    rewrite captured_loop by (destruct (UseEncryption tr), (UseCompression tr); reflexivity).
    intros Hin%list_elem_of_In%repeat_spec. revert Hin. by destruct (UseEncryption tr), (UseCompression tr).
  - intros ->. exists 2%nat. by destruct (UseEncryption tr), (UseCompression tr).
  - exists 3%nat. by destruct (UseEncryption tr), (UseCompression tr), (limited "client" tr).
Qed.
End Stack.

(** ** The handlers of one connection *)

Inductive event :=
| CloseUser | CloseWork | CloseLocal | CloseStack      (* connections closed *)
| JoinBoth                                              (* [libio.Join]: copies, then closes both streams *)
| ByPlugin                                              (* the plugin has taken the connection over *)
| MOpen | MClose | MIn (n : Z) | MOut (n : Z).          (* statistics *)

(** [handleUserTCPConnection] of the server; [work] is whether a work connection was found, [inC] and
    [outC] are the counts of [Join]. *)
Definition handleUserTCPConnection (tr : ProxyTransport) (plugin_ok work enc_ok : bool) (inC outC : Z) : list event :=
  if negb plugin_ok then [CloseUser] else
  if negb work then [CloseUser] else
  if UseEncryption tr && negb enc_ok then [CloseWork; CloseUser] else
  [MOpen; JoinBoth; MClose; MIn inC; MOut outC; CloseWork; CloseUser].

(** What the client knows of a connection: [StartWorkConn]. *)
Record StartWorkConn := mkStartWorkConn { sw_SrcAddr : string; sw_SrcPort : Z; sw_DstAddr : string; sw_DstPort : Z }.

(** Source and destination for a plugin or a header of the proxy protocol. *)
Definition conn_addrs (m : StartWorkConn) : option ((string * Z) * (string * Z)) :=
  if negb (sw_SrcAddr m =s? "") && negb (sw_SrcPort m =? 0)%Z
  then Some ((sw_SrcAddr m, sw_SrcPort m), (if sw_DstAddr m =s? "" then "127.0.0.1" else sw_DstAddr m, sw_DstPort m))
  else None.

Definition proxy_header (tr : ProxyTransport) (m : StartWorkConn) : option (string * ((string * Z) * (string * Z))) :=
  if negb (ProxyProtocolVersion tr =s? "") then
    match conn_addrs m with Some a => Some (ProxyProtocolVersion tr, a) | None => None end
  else None.

(** [HandleTCPWorkConnection]. *)
Definition HandleTCPWorkConnection (tr : ProxyTransport) (m : StartWorkConn) (plugin enc_ok dial_ok header_ok : bool)
    : list event :=
  if UseEncryption tr && negb enc_ok then [CloseWork] else
  if plugin then [ByPlugin] else
  if negb dial_ok then [CloseWork] else
  match proxy_header tr m with
  | Some _ => if header_ok then [JoinBoth] else [CloseWork; CloseLocal]
  | None => [JoinBoth]
  end.

(** [InWorkConn]: a callback may keep the connection for itself. *)
Definition InWorkConn (callback : option bool) (tr : ProxyTransport) (m : StartWorkConn) (plugin enc_ok dial_ok header_ok : bool)
    : list event :=
  match callback with
  | Some false => []
  | _ => HandleTCPWorkConnection tr m plugin enc_ok dial_ok header_ok
  end.

(** [startCommonTCPListenersHandler]: the loop of one listener over the results of [Accept]; it
    gives the connections handed to handlers and the sleeps, in milliseconds, after temporary
    errors. *)
Inductive accepted := AConn (id : nat) | ATemporary | AClosed.

Definition next_delay (tempDelay : Z) : Z := Z.min 1000 (if tempDelay =? 0 then 5 else tempDelay * 2)%Z.

Fixpoint accept_loop (tempDelay : Z) (results : list accepted) : list nat * list Z :=
  match results with
  | [] | AClosed :: _ => ([], [])
  | AConn id :: rest => let '(c, d) := accept_loop tempDelay rest in (id :: c, d)
  | ATemporary :: rest => let '(c, d) := accept_loop (next_delay tempDelay) rest in (c, next_delay tempDelay :: d)
  end.

(** Temporary errors lose no connection: every connection accepted before the listener is closed
    is handed on, in order; the sleeps are between 5 milliseconds and one second and never get
    shorter, connections in between do not reset them. *)
Lemma accept_loop_spec pre rest delay : delay = 0%Z ∨ (5 <= delay <= 1000)%Z → AClosed ∉ pre →
  let r := accept_loop delay (pre ++ AClosed :: rest) in
  r.1 = omap (λ r, match r with AConn id => Some id | _ => None end) pre ∧
  Forall (λ d, Z.max 5 delay <= d <= 1000)%Z r.2 ∧ StronglySorted Z.le r.2.
Proof.
  revert delay. induction pre as [|r pre IH]; intros delay Hd Hpre; [by repeat constructor|].
  apply not_elem_of_cons in Hpre as [Hr Hpre]. destruct r as [id| |]; simpl; [| |done].
  - destruct (IH delay Hd Hpre) as (H1 & H2 & H3). destruct (accept_loop delay _). simpl in *. by rewrite H1.
  - assert (Z.max 5 delay <= next_delay delay <= 1000)%Z as Hn by (unfold next_delay; case_match; lia).
    destruct (IH (next_delay delay)) as (H1 & H2 & H3); [lia|done|].
    destruct (accept_loop (next_delay delay) _). simpl in *.
    assert (Forall (λ d, next_delay delay <= d <= 1000)%Z l0) by (eapply Forall_impl; [exact H2|]; simpl; lia).
    split_and!; [done| |constructor; [done|]; eapply Forall_impl; [done|]; simpl; lia].
    constructor; [auto|]. eapply Forall_impl; [done|]. simpl. lia.
Qed.

(** The user's connection is always closed, the work connection exactly when there was one, and
    the statistics of the proxy are balanced. *)
Lemma user_conn_released tr plugin_ok work enc_ok inC outC :
  let l := handleUserTCPConnection tr plugin_ok work enc_ok inC outC in
  last l = Some CloseUser ∧ (CloseWork ∈ l ↔ plugin_ok = true ∧ work = true) ∧ (MOpen ∈ l ↔ MClose ∈ l) ∧
  (JoinBoth ∈ l ↔ MOpen ∈ l).
Proof.
  unfold handleUserTCPConnection. destruct plugin_ok, work, (UseEncryption tr), enc_ok; simpl; split_and!; set_solver.
Qed.

(** Every work connection of the client is closed, joined with the local service, or taken over
    by a plugin, and a local connection that was made is closed too. *)
Lemma work_conn_released tr m plugin enc_ok dial_ok header_ok :
  let l := HandleTCPWorkConnection tr m plugin enc_ok dial_ok header_ok in
  (CloseWork ∈ l ∨ JoinBoth ∈ l ∨ ByPlugin ∈ l) ∧ (JoinBoth ∈ l → plugin = false ∧ dial_ok = true) ∧
  (CloseLocal ∈ l → CloseWork ∈ l).
Proof.
  unfold HandleTCPWorkConnection. destruct (proxy_header tr m), plugin, (UseEncryption tr), enc_ok, dial_ok, header_ok; simpl; split_and!; set_solver.
Qed.

Lemma server_limit_keeps_conn_open_witness :
  Stack.closes_work_conn 100 (Stack.server_stack (mkTransport false true (mkBandwidth "1MB" 1048576) "server" "")) = false.
Proof. apply (proj1 (Stack.server_limit_keeps_conn_open (mkTransport false true (mkBandwidth "1MB" 1048576) "server" ""))). reflexivity. Defined.
