(* ===== verification/UdpWorkers.v ===== *)
(** The goroutines that carry UDP packets over work connections: the worker of a UDP proxy on
    the server ([src/server/proxy/udp.go]), the UDP and SUDP proxies of the client
    ([src/client/proxy/udp.go], [sudp.go]) and the dispatcher of the SUDP visitor
    ([src/client/visitor/sudp.go]).  Connections are numbers; a step is what one goroutine does
    between two blocking operations. *)
From Stdlib Require Import ZArith Lia String.
From stdpp Require Import base gmap sets list.
From S2P Require Import Prelude.
Local Open Scope list_scope.

(** ** The worker of a UDP proxy *)

Module ServerUdp.
(** The worker fetches a connection, installs it, and waits on [checkCloseCh]. *)
Inductive pc := PGet | PGot (id : nat) | PWait | PDone.
(** A reader reads; after an error it has closed its connection and sends on [checkCloseCh]. *)
Inductive reader := Reading | Notifying.

Record t := mk {
  isClosed : bool;
  workConn : option nat;
  opened : gset nat;               (* work connections that nobody has closed *)
  worker : pc;
  readers : gmap nat reader;
  next : nat }.

Definition Run : t := mk false None ∅ PGet ∅ 0.

Inductive op :=
| Get (found : bool) (taken : option nat)     (* [GetWorkConnFromPool]; a notification read after a failure *)
| Install (enc_ok : bool)
| ReadErr (id : nat) | Packet (id : nat) | Notify (id : nat) | SendErr (id : nat)
| Wake                                        (* the worker reads from the closed channel *)
| Close.

Definition set_worker (w : pc) (s : t) : t := mk (isClosed s) (workConn s) (opened s) w (readers s) (next s).
Definition close_conn (id : nat) (s : t) : t := mk (isClosed s) (workConn s) (opened s ∖ {[id]}) (worker s) (readers s) (next s).
Definition close_old (s : t) : t := match workConn s with Some id => close_conn id s | None => s end.
Definition set_readers (r : gmap nat reader) (s : t) : t := mk (isClosed s) (workConn s) (opened s) (worker s) r (next s).

Definition step (s : t) (o : op) : t :=
  match o with
  | Get found taken =>
      match worker s with
      | PGet =>
          if found then mk (isClosed s) (workConn s) ({[next s]} ∪ opened s) (PGot (next s)) (readers s) (S (next s))
          else match taken with
               | Some id => match readers s !! id with Some Notifying => set_readers (delete id (readers s)) s | _ => s end
               | None => if isClosed s then set_worker PDone s else s
               end
      | _ => s
      end
  | Install enc_ok =>
      match worker s with
      | PGot id =>
          let s := close_old s in
          if enc_ok then mk (isClosed s) (Some id) (opened s) PWait (<[id := Reading]> (readers s)) (next s)
          else set_worker PGet (close_conn id s)
      | _ => s
      end
  | ReadErr id => match readers s !! id with Some Reading => set_readers (<[id := Notifying]> (readers s)) (close_conn id s) | _ => s end
  | Packet id =>                              (* the channel for packets is closed with the proxy *)
      match readers s !! id with
      | Some Reading => if isClosed s then set_readers (delete id (readers s)) (close_conn id s) else s
      | _ => s
      end
  | Notify id =>
      match readers s !! id with
      | Some Notifying =>
          if isClosed s then set_readers (delete id (readers s)) s
          else match worker s with PWait => set_worker PGet (set_readers (delete id (readers s)) s) | _ => s end
      | _ => s
      end
  | SendErr id => close_conn id s
  | Wake => match worker s with PWait => if isClosed s then set_worker PDone s else s | _ => s end
  | Close => if isClosed s then s else let s := close_old s in mk true (workConn s) (opened s) (worker s) (readers s) (next s)
  end.

Definition run (ops : list op) : t := foldl step Run ops.

(** The one connection that may be open, and whose reader may run, in each state of the worker. *)
Definition wf (s : t) : Prop :=
  match worker s with
  | PGet => opened s = ∅ ∧ readers s = ∅
  | PGot id => opened s ⊆ {[id]} ∧ readers s = ∅
  | PWait => ∃ id, workConn s = Some id ∧ opened s ⊆ {[id]} ∧ dom (readers s) ⊆ {[id]} ∧ (readers s !! id = Some Notifying → opened s = ∅)
  | PDone => isClosed s = true ∧ ∃ id, opened s ⊆ {[id]} ∧ dom (readers s) ⊆ {[id]}
  end.

Lemma dom_empty_reader (m : gmap nat reader) id r : m = ∅ → m !! id = Some r → False.
Proof. intros ->. by rewrite lookup_empty. Qed.

Lemma reader_id (m : gmap nat reader) i id r : dom m ⊆ {[i]} → m !! id = Some r → id = i.
Proof. intros Hd Hm. apply elem_of_dom_2 in Hm. set_solver. Qed.

Lemma close_conn_wf id s : wf s → wf (close_conn id s).
Proof.
  unfold wf, close_conn. simpl. destruct (worker s); [intros [-> ?]; split; [set_solver|done]|intros [? ?]; split; [set_solver|done]| |].
  - intros (i & ? & ? & ? & Hn). exists i. split_and!; [done|set_solver|done|]. intros ->%Hn. set_solver.
  - intros (? & i & ? & ?). split; [done|]. exists i. split; [set_solver|done].
Qed.

Lemma get_wf found taken s : wf s → wf (step s (Get found taken)).
Proof.
  unfold wf. cbn [step]. destruct (worker s) eqn:Ew; try (by rewrite Ew). intros [Ho Hr]. destruct found; simpl.
  { rewrite Ho, Hr. split; [set_solver|done]. }
  destruct taken as [id|]; [rewrite Hr, lookup_empty, Ew; done|]. destruct (isClosed s) eqn:Ec; simpl; [|by rewrite Ew].
  split; [done|]. exists 0%nat. rewrite Ho, Hr. split; set_solver.
Qed.

Lemma install_wf enc_ok s : wf s → wf (step s (Install enc_ok)).
Proof.
  intros Hwf. cbn [step]. destruct (worker s) as [|id| |] eqn:Ew; try done. unfold wf in Hwf. rewrite Ew in Hwf. destruct Hwf as [Ho Hr].
  assert (opened (close_old s) ⊆ {[id]} ∧ readers (close_old s) = ∅) as [Ho' Hr'].
  { unfold close_old. destruct (workConn s); simpl; [split; [set_solver|done]|done]. }
  destruct enc_ok; simpl.
  - unfold wf. simpl. exists id. rewrite Hr'. split_and!; [done|done|set_solver|]. by rewrite lookup_insert_eq.
  - unfold wf. simpl. rewrite Hr'. split; [set_solver|done].
Qed.

Lemma reader_wf id s (o : op) : o = ReadErr id ∨ o = Packet id ∨ o = Notify id → wf s → wf (step s o).
Proof.
  intros Ho Hwf. destruct (readers s !! id) as [r|] eqn:Er; [|destruct Ho as [->|[->| ->]]; cbn [step]; by rewrite Er].
  unfold wf in Hwf. destruct (worker s) eqn:Ew.
  1,2: exfalso; destruct Hwf as [_ Hr]; by eapply dom_empty_reader.
  - destruct Hwf as (i & Hw & Hop & Hrd & Hn). pose proof (reader_id _ _ _ _ Hrd Er) as ->.
    destruct Ho as [->|[->| ->]]; cbn [step]; rewrite Er; destruct r; try (unfold wf; rewrite Ew; eauto).
    + unfold wf. simpl. rewrite Ew. exists i. split_and!; [done|set_solver|set_solver|]. intros _. set_solver.
    + destruct (isClosed s); unfold wf; simpl; rewrite Ew; exists i; split_and!; try done; [set_solver|set_solver|].
      by rewrite lookup_delete_eq.
    + destruct (isClosed s); unfold wf; simpl; rewrite ?Ew.
      * exists i. split_and!; [done|done|set_solver|]. by rewrite lookup_delete_eq.
      * split; [by apply Hn|]. apply map_eq. intros j. rewrite lookup_empty. destruct (decide (j = i)) as [->|Hj]; [by rewrite lookup_delete_eq|].
        rewrite lookup_delete_ne by done. destruct (readers s !! j) eqn:Ej; [|done]. by destruct Hj; eapply reader_id.
  - destruct Hwf as (Hc & i & Hop & Hrd).
    destruct Ho as [->|[->| ->]]; cbn [step]; rewrite Er, ?Hc; destruct r; unfold wf; simpl; rewrite Ew; (split; [done|]); exists i;
      (split; [set_solver|]); rewrite ?dom_insert_L, ?dom_delete_L; pose proof (reader_id _ _ _ _ Hrd Er); set_solver.
Qed.

Lemma udp_close_wf s : wf s → wf (step s Close).
Proof.
  intros Hwf. cbn [step]. destruct (isClosed s) eqn:Ec; [done|].
  assert (wf (close_old s)) as H by (unfold close_old; destruct (workConn s); [by apply close_conn_wf|done]).
  revert H. unfold wf. simpl. destruct (worker (close_old s)); try done. intros [_ H]. by split.
Qed.

Lemma server_udp_wf ops : wf (run ops).
Proof.
  unfold run. induction ops as [|o ops IH] using rev_ind; [by split|]. rewrite foldl_app. simpl.
  destruct o as [found taken|enc|id|id|id|id| |];
    [by apply get_wf|by apply install_wf|apply (reader_wf id); auto..|by apply close_conn_wf| |by apply udp_close_wf].
  cbn [step]. revert IH. unfold wf. destruct (worker (foldl step Run ops)) eqn:Ew; try (by rewrite Ew).
  destruct (isClosed (foldl step Run ops)) eqn:Ec; simpl; [|by rewrite Ew].
  intros (i & _ & ? & ? & _). split; [done|]. by exists i.
Qed.

Lemma wf_one s : wf s → ∃ id, opened s ⊆ {[id]} ∧ dom (readers s) ⊆ {[id]}.
Proof.
  unfold wf. destruct (worker s) as [|id| |].
  - intros [-> ->]. exists 0%nat. set_solver.
  - intros [? ->]. exists id. set_solver.
  - intros (id & _ & ? & ? & _). eauto.
  - intros (_ & id & ? & ?). eauto.
Qed.

(** A proxy has at most one work connection open and at most one reader; when it is closed while
    the worker waits, none stays open, whatever happens afterwards. *)
Lemma udp_one_work_conn ops :
  (∀ a b, a ∈ opened (run ops) → b ∈ opened (run ops) → a = b) ∧
  (∀ a b, a ∈ dom (readers (run ops)) → b ∈ dom (readers (run ops)) → a = b) ∧
  (∀ after, worker (run ops) = PWait → isClosed (run ops) = false → opened (run (ops ++ Close :: after)) = ∅).
Proof.
  pose proof (server_udp_wf ops) as Hwf. destruct (wf_one _ Hwf) as (j & Hj1 & Hj2). split_and!.
  1, 2: intros a b Ha Hb; first [apply Hj1 in Ha; apply Hj1 in Hb|apply Hj2 in Ha; apply Hj2 in Hb]; clear -Ha Hb; set_solver.
  intros after Hw Hc. unfold run. rewrite foldl_app. cbn [foldl]. fold (run ops).
    assert (∀ l s, (worker s = PWait ∨ worker s = PDone) → isClosed s = true → opened s = ∅ → opened (foldl step s l) = ∅) as Hkeep.
    { clear. induction l as [|o l IH]; intros s Hw Hc Ho; [done|]. cbn [foldl]. apply IH.
      all: destruct o, Hw as [Hw|Hw]; cbn [step]; unfold close_conn, set_readers, set_worker; rewrite ?Hw, ?Hc; repeat case_match; simpl; auto; set_solver. }
    unfold wf in Hwf. rewrite Hw in Hwf. destruct Hwf as (i & Hi & Ho & _).
    apply Hkeep; cbn [step]; rewrite Hc; unfold close_old; rewrite Hi; simpl; [by left|done|set_solver].
Qed.

(** A connection that is found while the proxy is being closed is installed nevertheless, and
    stays open after the worker has ended. *)
Lemma late_conn_stays_open : let s := run [Get true None; Close; Install true; Wake] in worker s = PDone ∧ opened s = {[0%nat]}.
Proof. by split. Qed.
End ServerUdp.

(** ** The UDP proxy of the client *)

Module ClientUdp.
(** [closed] with [readCh] and [sendCh]; the channels belong to the connection they were made
    with.  [opened] are work connections that nobody has closed. *)
Record t := mk { closed : bool; workConn : option nat; opened : gset nat }.
Definition New : t := mk false None ∅.

Definition Close (s : t) : t :=
  if closed s then s
  else mk true (workConn s) (match workConn s with Some id => opened s ∖ {[id]} | None => opened s end).

(** [InWorkConn] in two critical sections: the resources of the old connection are closed; then
    the new connection takes their place, unless it cannot be wrapped. *)
Definition in_begin (id : nat) (s : t) : t := let s := Close s in mk (closed s) (workConn s) ({[id]} ∪ opened s).
Definition in_set (id : nat) (wrap_ok : bool) (s : t) : t :=
  if wrap_ok then mk false (Some id) (opened s) else mk (closed s) (workConn s) (opened s ∖ {[id]}).
Definition InWorkConn (id : nat) (wrap_ok : bool) (s : t) : t := in_set id wrap_ok (in_begin id s).

Inductive op := OIn (wrap_ok : bool) | OClose.
(** Connections are numbered as they come. *)
Definition step (x : nat * t) (o : op) : nat * t :=
  match o with OIn ok => (S (fst x), InWorkConn (fst x) ok (snd x)) | OClose => (fst x, Close (snd x)) end.
Definition run (ops : list op) : nat * t := foldl step (0%nat, New) ops.

(** One connection after the other: at most the last one is open, and none after [Close]. *)
Lemma client_udp_one_conn ops :
  let s := snd (run ops) in
  (∀ id, id ∈ opened s → closed s = false ∧ workConn s = Some id) ∧ opened (Close s) = ∅.
Proof.
  assert (∀ s : t, (∀ id, id ∈ opened s → closed s = false ∧ workConn s = Some id) → opened (Close s) = ∅) as Hclose.
  { intros [c w o] H. simpl in H. unfold Close. simpl. apply set_eq. intros id. split; [|done].
    destruct c; simpl; [by intros [? _]%H|]. destruct w as [i|]; [intros [[_ [= ->]]%H ?]%elem_of_difference; set_solver|by intros [_ ?]%H]. }
  intros s. enough (∀ id, id ∈ opened s → closed s = false ∧ workConn s = Some id) as H by (split; [done|by apply Hclose]).
  unfold s, run. clear s. induction ops as [|o ops IH] using rev_ind; [done|]. rewrite foldl_app. simpl.
  destruct (foldl step (0%nat, New) ops) as [n s]. simpl in *. pose proof (Hclose s IH) as He. destruct o as [ok|]; simpl.
  - unfold InWorkConn, in_set, in_begin. destruct ok; simpl; rewrite He; intros id Hid; [split; [done|set_solver]|set_solver].
  - rewrite He. set_solver.
Qed.

(** Two connections whose handlers overlap: the first one is forgotten, and stays open when the
    proxy is closed. *)
Lemma overlapping_work_conns_leak :
  opened (Close (in_set 1 true (in_set 0 true (in_begin 1 (in_begin 0 New))))) = {[0%nat]}.
Proof. reflexivity. Qed.
End ClientUdp.

(** ** The SUDP proxy of the client *)

Module ClientSudp.
(** One work connection: [closeFn] and the three goroutines that call it when they end. *)
Inductive who := Reader | Sender | Heartbeat.
#[export] Instance who_eq_dec : EqDecision who.
Proof. solve_decision. Defined.

Record t := mk { isClose : bool; conn_open : bool; chan_closes : nat; running : list who; pxy_closed : bool }.
Definition InWorkConn (pxy_closed : bool) : t := mk false true 0 [Sender; Reader; Heartbeat] pxy_closed.

Definition closeFn (s : t) : t :=
  if isClose s then s else mk true false (S (chan_closes s)) (running s) (pxy_closed s).

(** Whether a goroutine may end: the reader when a read fails or its channel or the proxy is
    closed, the sender when a write fails or its channel is closed, the heartbeat when its channel
    or the proxy is closed. *)
Definition may_end (w : who) (fails : bool) (s : t) : bool :=
  match w with Reader => fails || isClose s || pxy_closed s | Sender => fails || isClose s | Heartbeat => isClose s || pxy_closed s end.

Inductive op := End_ (w : who) (fails : bool) | PxyClose.
Definition step (s : t) (o : op) : t :=
  match o with
  | End_ w fails =>
      if bool_decide (w ∈ running s) && may_end w fails s
      then closeFn (mk (isClose s) (conn_open s) (chan_closes s) (remove_one w (running s)) (pxy_closed s)) else s
  | PxyClose => mk (isClose s) (conn_open s) (chan_closes s) (running s) true
  end.

Lemma step_facts s o :
  (chan_closes s = (if isClose s then 1 else 0)%nat ∧ conn_open s = negb (isClose s) ∧ (isClose s = false → running s = [Sender; Reader; Heartbeat])) →
  let s' := step s o in
  chan_closes s' = (if isClose s' then 1 else 0)%nat ∧ conn_open s' = negb (isClose s') ∧ (isClose s' = false → running s' = [Sender; Reader; Heartbeat]).
Proof.
  destruct s as [ic co cc ru pc]. simpl. intros (-> & -> & Hr). destruct o as [w fails|]; simpl; [|done].
  destruct (bool_decide _ && _); [|done]. by destruct ic.
Qed.

(** The channels are closed at most once, so that no [close] panics; the connection is open
    exactly until the first goroutine ends; and after the proxy is closed, the end of the
    heartbeat alone closes it, also for a connection that arrives later. *)
Lemma sudp_conn_released late ops :
  let s := foldl step (InWorkConn late) ops in
  (chan_closes s <= 1)%nat ∧ (conn_open s = true ↔ chan_closes s = 0%nat) ∧
  (pxy_closed s = true → conn_open (step s (End_ Heartbeat false)) = false).
Proof.
  intros s. assert (chan_closes s = (if isClose s then 1 else 0)%nat ∧ conn_open s = negb (isClose s) ∧
    (isClose s = false → running s = [Sender; Reader; Heartbeat])) as (Hc & Ho & Hr).
  { unfold s. clear s. induction ops as [|o ops IH] using rev_ind; [done|]. rewrite foldl_app. by apply step_facts. }
  destruct s as [ic co cc ru pc]. simpl in *. subst cc co. destruct ic; simpl.
  - split_and!; [lia|naive_solver|]. intros _. by case_match.
  - split_and!; [lia|naive_solver|]. intros ->. by rewrite (Hr eq_refl).
Qed.
End ClientSudp.

(** ** The dispatcher of the SUDP visitor *)

Module SudpVisitor.
Section visitor.
Context {Pkt : Type}.

(** The dispatcher waits for a packet, connects, and runs the worker with that packet first.
    [written] are the packets written to connections; [conn] is the worker's connection,
    [reader] and [sender] whether its goroutines run. *)
Inductive pc := Idle | Connecting (first : Pkt) | Working (conn_open reader sender : bool) (first : option Pkt) | Done.
Record t := mk { taken : list Pkt; written : list Pkt; state : pc; check_closed : bool }.
Definition New : t := mk [] [] Idle false.

Inductive op :=
| Take (p : Pkt)                   (* from [sendCh], by the dispatcher or the sender *)
| Connect (ok : bool)              (* [getNewVisitorConn] *)
| WriteFirst (ok : bool)
| ReaderEnds | SenderEnds
| Wait                             (* both goroutines are done *)
| VClose.

(** A packet the sender takes is written at once, or lost with the connection. *)
Definition step (s : t) (x : op * bool) : t :=
  let '(o, write_ok) := x in
  match o, state s with
  | Take p, Idle => mk (taken s ++ [p]) (written s) (Connecting p) (check_closed s)
  | Take p, Working c r true None =>
      if c && write_ok then mk (taken s ++ [p]) (written s ++ [p]) (state s) (check_closed s)
      else mk (taken s ++ [p]) (written s) (Working false r false None) (check_closed s)
  | Connect ok, Connecting p => mk (taken s) (written s) (if ok then Working true true true (Some p) else Idle) (check_closed s)
  | WriteFirst ok, Working c r true (Some p) =>
      if c && ok then mk (taken s) (written s ++ [p]) (Working c r true None) (check_closed s)
      else mk (taken s) (written s) (Working false r false None) (check_closed s)
  | ReaderEnds, Working c true sd f => mk (taken s) (written s) (Working false false sd f) (check_closed s)
  | SenderEnds, Working c r true None => mk (taken s) (written s) (Working false r false None) (check_closed s)
  | Wait, Working c false false f => mk (taken s) (written s) (if check_closed s then Done else Idle) (check_closed s)
  | VClose, Idle => mk (taken s) (written s) Done true
  | VClose, _ => mk (taken s) (written s) (state s) true
  | _, _ => s
  end.

(** The packet the worker still holds. *)
Definition held (s : t) : list Pkt := match state s with Connecting p => [p] | Working _ _ _ (Some p) => [p] | _ => [] end.

(** What was taken is what was dealt with and what is held. *)
Definition in_order (s : t) : Prop := ∃ l, taken s = l ++ held s ∧ written s `sublist_of` l.
Definition conn_ends (s : t) : Prop := ∀ c r sd f, state s = Working c r sd f → r = false ∨ sd = false → c = false.

Lemma step_in_order s x : in_order s → in_order (step s x).
Proof.
  destruct x as [o w], s as [ta wr st cc]. unfold in_order, held. intros (l & Ht & Hl). simpl in *.
  assert (∀ p, wr `sublist_of` l ++ [p]) as Hr by (intros; by apply sublist_inserts_r).
  assert (∀ p, wr ++ [p] `sublist_of` l ++ [p]) as Ha by (intros; by apply sublist_app).
  destruct o as [p|ok|ok| | | |], st as [|p'|c r sd [p'|]|]; simpl in *; repeat case_match; simplify_eq/=; rewrite ?app_nil_r in *;
    solve [exists l; by rewrite ?app_nil_r|eexists (l ++ [_]); by rewrite ?app_nil_r].
Qed.

Lemma step_conn_ends s x : conn_ends s → conn_ends (step s x).
Proof.
  destruct x as [o w], s as [ta wr st cc]. unfold conn_ends. simpl. intros Hc.
  destruct o as [p|ok|ok| | | |], st as [|p'|c r sd [p'|]|]; simpl in *; try done; repeat case_match; simplify_eq/=; naive_solver.
Qed.

(** Packets are written in the order in which they were taken, none twice; and the connection
    is closed when the worker returns. *)
Lemma sudp_visitor_in_order ops :
  let s := foldl step New ops in
  (written s `sublist_of` taken s) ∧ (∀ c f, state s = Working c false false f → c = false).
Proof.
  intros s. assert (in_order s ∧ conn_ends s) as [(l & -> & Hl) Hc].
  { unfold s. clear s. induction ops as [|x ops [IH1 IH2]] using rev_ind; [split; [by exists []|done]|].
    rewrite foldl_app. split; [by apply step_in_order|by apply step_conn_ends]. }
  split; [by apply sublist_inserts_r|]. intros c f H. eapply Hc; [exact H|by left].
Qed.
End visitor.
End SudpVisitor.
