(* ===== verification/MakeHole.v ===== *)
(** Hole punching on the clients, [src/pkg/nathole]: the discovery of external addresses
    ([discovery.go]), the preparation and the exchange of messages with the server, the packets
    that make the hole and the wait for the answer ([nathole.go]), and the callers of all that
    in [src/client/proxy/xtcp.go] and [src/client/visitor/xtcp.go]. *)
From Stdlib Require Import ZArith Lia Ascii String.
From stdpp Require Import base strings list gmap sets.
From S2P Require Import Prelude GoStrings Auth Nathole Ranges.
Local Open Scope string_scope.
Local Open Scope list_scope.

(** [net.JoinHostPort]. *)
Definition JoinHostPort (host port : string) : string :=
  if ContainsByte host ":" then "[" +:+ host +:+ "]:" +:+ port else host +:+ ":" +:+ port.

(** ** Discovery *)

Module Discover.
(** The attributes of a STUN message that the code asks for. *)
Record stun_attrs := mkAttrs { mapped : option string; xorMapped : option string; changed : option string; other : option string }.

Record stunResponse := mkResponse { externalAddr : string; otherAddr : string }.

Section discover.
Context {Body : Type}.
(** [Decode] of the STUN library. *)
Variable decode : Body → option stun_attrs.

Definition response_of (a : stun_attrs) : stunResponse :=
  mkResponse (default (default "" (mapped a)) (xorMapped a)) (default (default "" (changed a)) (other a)).

(** One request: [sent] is whether the address was resolved and the request written; [arrived]
    are the datagrams that arrive on the socket, from whomever, until the answer is taken.  The
    channel, the reader and the socket are one queue. *)
Record attempt := mkAttempt { sent : bool; arrived : list Body }.

Definition doSTUNRequest (a : attempt) (queue : list Body) : option stunResponse * list Body :=
  if negb (sent a) then (None, queue) else
  match queue ++ arrived a with
  | [] => (None, [])
  | b :: queue => (response_of <$> decode b, queue)
  end.

(** Both requests to one server. *)
Definition discoverFromStunServer (first second : attempt) (queue : list Body) : option (list string) * list Body :=
  let '(r, queue) := doSTUNRequest first queue in
  match r with
  | None => (None, queue)
  | Some r =>
      if externalAddr r =s? "" then (None, queue) else
      if otherAddr r =s? "" then (Some [externalAddr r], queue) else
      let '(r', queue) := doSTUNRequest second queue in
      match r' with
      | None => (None, queue)
      | Some r' => (Some (externalAddr r :: if externalAddr r' =s? "" then [] else [externalAddr r']), queue)
      end
  end.

Fixpoint servers (l : list (attempt * attempt)) (queue : list Body) : option (list string) :=
  match l with
  | [] => Some []
  | (first, second) :: l =>
      let '(r, queue) := discoverFromStunServer first second queue in
      match r with None => None | Some addrs => (λ rest, addrs ++ rest) <$> servers l queue end
  end.

(** [Discover] with one pair of requests for each server; [listen] is whether the socket was
    opened. *)
Definition Discover (listen : bool) (l : list (attempt * attempt)) : option (list string) :=
  if listen then servers l [] else None.

(** The answer [b] arrives to a request, alone. *)
Definition answered (b : Body) : attempt := mkAttempt true [b].

(** What two answers of one server say. *)
Definition two_answers (b b' : Body) (e e' o : string) : Prop :=
  (∃ a, decode b = Some a ∧ response_of a = mkResponse e o) ∧ (∃ a, decode b' = Some a ∧ externalAddr (response_of a) = e') ∧
  e ≠ "" ∧ e' ≠ "" ∧ o ≠ "".

Lemma doSTUNRequest_answered b a : decode b = Some a → doSTUNRequest (answered b) [] = (Some (response_of a), []).
Proof. intros Ha. unfold doSTUNRequest, answered. simpl. by rewrite Ha. Qed.

Lemma server_answered b b' e e' o : two_answers b b' e e' o →
  discoverFromStunServer (answered b) (answered b') [] = (Some [e; e'], []).
Proof.
  intros ((a & Ha & Hr) & (a' & Ha' & Hr') & He & He' & Ho). unfold discoverFromStunServer.
  rewrite (doSTUNRequest_answered b a Ha), (doSTUNRequest_answered b' a' Ha'). rewrite Hr, Hr'. simpl.
  by rewrite !(proj2 (seqb_false _ _)).
Qed.

(** When each request has its answer and nothing else arrives, the addresses are those of the
    answers, two for each server, in order. *)
Lemma Discover_answered (l : list (Body * Body * (string * string * string))) :
  Forall (λ x, two_answers x.1.1 x.1.2 x.2.1.1 x.2.1.2 x.2.2) l →
  Discover true ((λ x, (answered x.1.1, answered x.1.2)) <$> l) = Some (l ≫= λ x, [x.2.1.1; x.2.1.2]).
Proof.
  unfold Discover. induction 1 as [|x l Hx Hl IH]; [done|]. rewrite fmap_cons. cbn [servers].
  rewrite (server_answered _ _ _ _ _ Hx). rewrite IH. reflexivity.
Qed.

(** Answers are not matched with requests: when the answer to the first request arrives twice,
    the copy is taken for the answer to the second request, whatever that is. *)
Lemma duplicate_answer_taken b a second : decode b = Some a → sent second = true →
  externalAddr (response_of a) ≠ "" → otherAddr (response_of a) ≠ "" →
  Discover true [(mkAttempt true [b; b], second)] = Some [externalAddr (response_of a); externalAddr (response_of a)].
Proof.
  intros Ha Hs He Ho. unfold Discover. cbn [servers]. unfold discoverFromStunServer.
  assert (∀ x q, sent x = true → doSTUNRequest x (b :: q) = (Some (response_of a), q ++ arrived x)) as Hq.
  { intros x q Hx. unfold doSTUNRequest. rewrite Hx. simpl. by rewrite Ha. }
  assert (doSTUNRequest (mkAttempt true [b; b]) [] = (Some (response_of a), [b])) as -> by (unfold doSTUNRequest; simpl; by rewrite Ha).
  rewrite (proj2 (seqb_false _ _) He), (proj2 (seqb_false _ _) Ho), Hq by done. by rewrite (proj2 (seqb_false _ _) He).
Qed.
End discover.
End Discover.

(** *** The reader of the socket and the end of the discovery *)

Module DiscoverConn.
Section conn.
Context {Body : Type}.

(** [readLoop]: reading, holding a datagram, sending it to the channel it has loaded from
    [c.messageChan], blocked on a nil channel, ended, or in the panic that ends the program. *)
Inductive reader := RRead | RHave (b : Body) | RSend (b : Body) | RStuck | RDone | RPanic.

(** [buffer] is the content of the channel; [chan_closed], [chan_nil] and [sock_closed] the
    progress of [Close]. *)
Record t := mk { buffer : list Body; rd : reader; chan_closed : bool; chan_nil : bool; sock_closed : bool }.

Definition listen : t := mk [] RRead false false false.

Inductive op :=
| Datagram (b : Body) | ReadFails | LoadChan | Send   (* the reader *)
| Take                                                 (* a request takes an answer *)
| CloseChan | SetNil | CloseSock.                      (* [Close] *)

Definition with_reader (r : reader) (s : t) : t := mk (buffer s) r (chan_closed s) (chan_nil s) (sock_closed s).

Definition capacity : nat := 10.

Definition step (s : t) (o : op) : t :=
  match o, rd s with
  | Datagram b, RRead => if sock_closed s then s else with_reader (RHave b) s
  | ReadFails, RRead => if sock_closed s then with_reader RDone s else s
  | LoadChan, RHave b => with_reader (if chan_nil s then RStuck else RSend b) s
  | Send, RSend b =>
      if chan_closed s then with_reader RPanic s
      else if (length (buffer s) <? capacity)%nat then mk (buffer s ++ [b]) RRead (chan_closed s) (chan_nil s) (sock_closed s)
      else s
  | Take, _ => mk (drop 1 (buffer s)) (rd s) (chan_closed s) (chan_nil s) (sock_closed s)
  | CloseChan, r =>
      (* a sender that is blocked on the channel panics *)
      mk (buffer s) (match r with RSend b => if (length (buffer s) <? capacity)%nat then r else RPanic | _ => r end)
        true (chan_nil s) (sock_closed s)
  | SetNil, _ => mk (buffer s) (rd s) (chan_closed s) true (sock_closed s)
  | CloseSock, _ => mk (buffer s) (rd s) (chan_closed s) (chan_nil s) true
  | _, _ => s
  end.

Definition run (ops : list op) : t := foldl step listen ops.

(** The discovery proper: no part of [Close] yet. *)
Definition open_op (o : op) : bool := match o with CloseChan | SetNil | CloseSock => false | _ => true end.

(** What the reader has received and what was taken, in a run from [s]. *)
Fixpoint received (s : t) (ops : list op) : list Body :=
  match ops with
  | [] => []
  | o :: ops => match o, rd s with Datagram b, RRead => [b] | _, _ => [] end ++ received (step s o) ops
  end.
Fixpoint taken (s : t) (ops : list op) : list Body :=
  match ops with
  | [] => []
  | o :: ops => match o with Take => take 1 (buffer s) | _ => [] end ++ taken (step s o) ops
  end.

Definition holding (r : reader) : list Body := match r with RHave b | RSend b => [b] | _ => [] end.

Definition ready (s : t) : Prop :=
  chan_closed s = false ∧ chan_nil s = false ∧ sock_closed s = false ∧ (length (buffer s) <= capacity)%nat ∧
  match rd s with RStuck | RDone | RPanic => False | _ => True end.

Lemma open_step s o : ready s → open_op o = true →
  ready (step s o) ∧
  buffer s ++ holding (rd s) ++ received s [o] = taken s [o] ++ buffer (step s o) ++ holding (rd (step s o)).
Proof.
  destruct s as [bu r cc cn sc]. intros (Hcc & Hcn & Hsc & Hl & Hr) Ho. simpl in *. subst.
  destruct o, r; simpl in *; try done; unfold ready; simpl; rewrite ?app_nil_r; try done.
  - destruct (Nat.ltb_spec (length bu) capacity) as [Hlt|Hge]; simpl; [|done].
    split_and!; try done; [rewrite length_app; simpl; lia|by rewrite app_nil_r].
  - split_and!; [done..|rewrite length_drop; lia|done|by rewrite take_drop].
  - split_and!; [done..|rewrite length_drop; lia|done|by rewrite app_assoc, take_drop].
  - split_and!; [done..|rewrite length_drop; lia|done|by rewrite app_assoc, take_drop].
Qed.

Lemma received_app s ops ops' : received s (ops ++ ops') = received s ops ++ received (foldl step s ops) ops'.
Proof. revert s. induction ops as [|o ops IH]; intros s; simpl; [done|]. by rewrite IH, app_assoc. Qed.
Lemma taken_app s ops ops' : taken s (ops ++ ops') = taken s ops ++ taken (foldl step s ops) ops'.
Proof. revert s. induction ops as [|o ops IH]; intros s; simpl; [done|]. by rewrite IH, app_assoc. Qed.

(** Datagrams are neither lost nor reordered on the way to the requests. *)
Lemma discovery_run ops : forallb open_op ops = true →
  ready (run ops) ∧ received listen ops = taken listen ops ++ buffer (run ops) ++ holding (rd (run ops)).
Proof.
  induction ops as [|o ops IH] using rev_ind; intros Ho; [split; [unfold ready; simpl; unfold capacity; split_and!; try done; lia|done]|].
  rewrite forallb_app in Ho. apply andb_true_iff in Ho as [Ho Ho']. simpl in Ho'. rewrite andb_true_r in Ho'.
  destruct (IH Ho) as [Hr He]. unfold run in *. rewrite foldl_app, received_app, taken_app. cbn [foldl].
  destruct (open_step (foldl step listen ops) o Hr Ho') as [Hr' He']. split; [done|].
  rewrite He, <- !app_assoc. f_equal. exact He'.
Qed.

(** Stray datagrams end the program.  Whatever the interleaving of the discovery, when eleven
    datagrams more have been received than were taken, ten fill the channel and the reader is
    left with one; once it has begun to send it, the [Close] at the end of [Discover] makes the
    reader panic, which nothing recovers.  When the reader holds nothing at that moment and no
    datagram arrives before the socket is closed, the reader ends without a panic. *)
Theorem flooded_discovery_panics (ops : list op) :
  forallb open_op ops = true →
  (length (received listen ops) = length (taken listen ops) + 11 → rd (run (ops ++ [LoadChan; CloseChan])) = RPanic) ∧
  (rd (run ops) = RRead → rd (run (ops ++ [CloseChan; SetNil; CloseSock; ReadFails])) = RDone).
Proof.
  intros Ho. destruct (discovery_run ops Ho) as [(Hcc & Hcn & Hsc & Hl & Hr) He]. unfold run in *. rewrite !foldl_app.
  destruct (foldl step listen ops) as [bu r cc cn sc]. simpl in *. subst cc cn sc. split.
  - intros Hlen. rewrite He, !length_app in Hlen. unfold capacity in Hl.
    assert (length bu = 10 ∧ length (holding r) = 1) as [Hb Hh] by (assert (length (holding r) <= 1) by (destruct r; simpl; lia); lia).
    destruct r as [|b|b| | |]; try done; simpl in *; by rewrite Hb.
  - by intros ->.
Qed.
End conn.
End DiscoverConn.

(** ** Preparation and exchange *)

(** [ListLocalIPsForNatHole]: what the package [net] says of an address is given. *)
Record ip_info := mkIP { ip_string : string; To4 : bool; IsLoopback : bool; IsLinkLocalUnicast : bool; IsLinkLocalMulticast : bool }.

Fixpoint local_loop (room : nat) (ips : list ip_info) : list string :=
  match ips, room with
  | [], _ | _, 0 => []
  | ip :: ips, S r =>
      if negb (To4 ip) then local_loop room ips else
      if IsLoopback ip || IsLinkLocalUnicast ip || IsLinkLocalMulticast ip then local_loop room ips
      else ip_string ip :: local_loop r ips
  end.

(** [None] for an error: no room asked for, or no list of interfaces. *)
Definition ListLocalIPsForNatHole (maxItems : Z) (all : option (list ip_info)) : option (list string) :=
  if (maxItems <=? 0)%Z then None else local_loop (Z.to_nat maxItems) <$> all.

Definition usable (ip : ip_info) : Prop :=
  To4 ip = true ∧ IsLoopback ip = false ∧ IsLinkLocalUnicast ip = false ∧ IsLinkLocalMulticast ip = false.
#[global] Instance usable_dec ip : Decision (usable ip).
Proof. unfold usable. apply _. Defined.

Lemma local_loop_spec room ips : local_loop room ips = take room (ip_string <$> filter usable ips).
Proof.
  revert room. induction ips as [|ip ips IH]; intros room; [by destruct room|]. rewrite filter_cons. simpl.
  destruct room as [|r]; [done|]. rewrite !IH. unfold usable. case_decide as Hu.
  - destruct Hu as (-> & -> & -> & ->). simpl. done.
  - destruct (To4 ip), (IsLoopback ip), (IsLinkLocalUnicast ip), (IsLinkLocalMulticast ip); simpl; try done. by destruct Hu.
Qed.

Inductive prepare_error := DiscoverError | NotEnoughAddresses | ClassifyError | ResolveLocalError | ListenError.

Record PrepareResult := mkPrepared {
  Addrs : list string; p_AssistedAddrs : list string; p_NatType : NatType_; p_Behavior : Behavior_ }.

(** [Prepare]: [discovered] are the results of [Discover], [laddr] the port of the socket it
    used when its address resolves again, [listen] whether a socket can be opened on it. *)
Definition Prepare (discovered : option (list string)) (all : option (list ip_info)) (laddr : option Z) (listen : bool)
    (DisableAssistedAddrs : bool) : result prepare_error PrepareResult :=
  match discovered with
  | None => Err DiscoverError
  | Some addrs =>
      if (length addrs <? 2)%nat then Err NotEnoughAddresses else
      let localIPs := default [] (ListLocalIPsForNatHole 10 all) in
      match ClassifyNATFeature addrs localIPs with
      | None => Err ClassifyError
      | Some f =>
          match laddr with
          | None => Err ResolveLocalError
          | Some port =>
              if negb listen then Err ListenError else
              Ok (mkPrepared addrs
                    (if DisableAssistedAddrs then [] else (λ ip, JoinHostPort ip (Itoa port)) <$> localIPs)
                    (NatType f) (Behavior f))
          end
      end
  end.

(** The answer to a message, [None] when there was none in time; its error text. *)
Inductive nathole_answer := OtherMessage | Answer (error : string) (r : NatHoleResp).

Definition PreCheckResult (a : option nathole_answer) : bool :=
  match a with Some (Answer error _) => error =s? "" | _ => false end.

Inductive exchange_error := NoAnswer | InvalidType | AnswerError (e : string) | NoCandidates.

Definition ExchangeInfo (a : option nathole_answer) : result exchange_error NatHoleResp :=
  match a with
  | None => Err NoAnswer
  | Some OtherMessage => Err InvalidType
  | Some (Answer error r) =>
      if negb (error =s? "") then Err (AnswerError error) else
      match CandidateAddrs r with [] => Err NoCandidates | _ => Ok r end
  end.

(** A NAT that maps each destination to a port of its own is found to be hard, unless the first
    answer arrives twice: then it is taken for an easy one. *)
Definition stun_answer (e : string) : Discover.stun_attrs := Discover.mkAttrs None (Some e) None (Some "192.0.2.2:3479").
Definition prepared_type (l : list (Discover.attempt (Body := Discover.stun_attrs) * Discover.attempt (Body := Discover.stun_attrs)))
    : option NatType_ :=
  match Prepare (Discover.Discover Some true l) (Some []) (Some 40000%Z) true false with Ok r => Some (p_NatType r) | Err _ => None end.

Lemma duplicate_answer_hides_nat :
  let a := stun_answer "203.0.113.7:5000" in
  let b := stun_answer "203.0.113.7:6100" in
  prepared_type [(Discover.mkAttempt true [a], Discover.mkAttempt true [b])] = Some HardNAT ∧
  prepared_type [(Discover.mkAttempt true [a; a], Discover.mkAttempt true [b])] = Some EasyNAT.
Proof. by vm_compute. Qed.

(** ** The packets that make the hole *)

Definition DetectRoleSender : string := "sender".

(** [listenConns]: socket 0 is the one of the preparation; a receiver opens more, [listens] says
    which of the attempts succeed. *)
Definition listen_conns (m : NatHoleResp) (listens : list bool) : list nat :=
  let d := nr_Detect m in
  if (d_Role d =s? DetectRoleSender) then [0%nat]
  else if (0 <? d_ListenRandomPorts d)%Z
  then seq 0 (S (length (filter (λ ok : bool, ok = true) (take (Z.to_nat (d_ListenRandomPorts d)) listens))))
  else [0%nat].

Definition detectAddrs (m : NatHoleResp) : list string :=
  let d := nr_Detect m in
  Compact (if d_Role d =s? DetectRoleSender then AssistedAddrs m ++ CandidateAddrs m
           else match CandidatePorts d with [] => CandidateAddrs m | _ => [] end).

(** [for i := From; i <= To; i++]. *)
Definition ports_of (r : PortsRange) : list Z := seqZ (From r) (To r - From r + 1).

Definition sendSidMessageToRangePorts (addrs : list string) (ports : list PortsRange) : list string :=
  Compact (parseIPs addrs) ≫= λ ip, ports ≫= λ r, (λ i, JoinHostPort ip (Itoa i)) <$> ports_of r.

(** The packets of [MakeHole] before it waits, in order: the socket and the address. *)
Definition make_hole_sends (m : NatHoleResp) (listens : list bool) : list (nat * string) :=
  let conns := listen_conns m listens in
  (detectAddrs m ≫= λ a, (λ c, (c, a)) <$> conns) ++
  match CandidatePorts (nr_Detect m) with
  | [] => []
  | ports => conns ≫= λ c, (λ a, (c, a)) <$> sendSidMessageToRangePorts (CandidateAddrs m) ports
  end.

(** [getUnusedPort] with the draws of [rand.IntN(65535-1024)], of which ten are tried. *)
Fixpoint getUnusedPort (fuel : nat) (used : gset Z) (draws : list Z) : option Z :=
  match fuel, draws with
  | S fuel, d :: draws =>
      let port := (d + 1024)%Z in
      if decide (port ∈ used) then getUnusedPort fuel used draws else Some port
  | _, _ => None
  end.

(** [sendSidMessageToRandomPorts]: one list of draws for each round; the rounds end early when
    the context is done. *)
Fixpoint random_ports (used : gset Z) (rounds : list (list Z)) : list Z :=
  match rounds with
  | [] => []
  | draws :: rounds =>
      match getUnusedPort 10 used draws with
      | Some port => port :: random_ports ({[port]} ∪ used) rounds
      | None => random_ports used rounds
      end
  end.

Definition sendSidMessageToRandomPorts (addrs : list string) (count : Z) (rounds : list (list Z)) : list string :=
  random_ports ∅ (take (Z.to_nat count) rounds) ≫= λ port, (λ ip, JoinHostPort ip (Itoa port)) <$> Compact (parseIPs addrs).

Lemma getUnusedPort_spec fuel used draws port : getUnusedPort fuel used draws = Some port →
  port ∉ used ∧ ∃ d, d ∈ draws ∧ port = (d + 1024)%Z.
Proof.
  revert draws. induction fuel as [|fuel IH]; intros [|d draws]; simpl; try done. case_decide as Hd.
  - intros [? (d' & ? & ?)]%IH. split; [done|]. exists d'. split; [by right|done].
  - intros [= <-]. split; [done|]. exists d. split; [left|done].
Qed.

(** No port is tried twice, and all are ports a client may use. *)
Lemma random_ports_spec used rounds : Forall (Forall (λ d, 0 <= d < 65535 - 1024)%Z) rounds →
  NoDup (random_ports used rounds) ∧ Forall (λ p, p ∉ used ∧ (1024 <= p < 65535)%Z) (random_ports used rounds).
Proof.
  intros Hd. revert used. induction Hd as [|draws rounds Hdr _ IH]; intros used; [by repeat constructor|]. cbn [random_ports].
  destruct (getUnusedPort 10 used draws) as [port|] eqn:E; [|apply IH].
  apply getUnusedPort_spec in E as (Hu & d & Hin & ->). rewrite Forall_forall in Hdr. specialize (Hdr d Hin).
  destruct (IH ({[(d + 1024)%Z]} ∪ used)) as [Hn Hf]. rewrite Forall_forall in Hf. split.
  - constructor; [|done]. intros [Hnot _]%Hf. set_solver.
  - constructor; [split; [done|lia]|]. apply Forall_forall. intros p [Hp ?]%Hf. split; [set_solver|done].
Qed.

Lemma elem_Compact a l : a ∈ Compact l ↔ a ∈ l.
Proof.
  induction l as [|x l IH]; [done|]. destruct l as [|y l]; [done|]. cbn [Compact]. destruct (seqb_spec x y) as [->|Hn].
  - rewrite IH. rewrite !elem_of_cons. naive_solver.
  - rewrite elem_of_cons, IH. by rewrite (elem_of_cons (y :: l)).
Qed.

Lemma elem_parseIPs ip addrs : ip ∈ parseIPs addrs ↔ ∃ a p, a ∈ addrs ∧ SplitHostPort a = Some (ip, p).
Proof.
  unfold parseIPs. rewrite list_elem_of_omap. split.
  - intros (a & Ha & He). destruct (SplitHostPort a) as [[h p]|] eqn:E; simplify_eq/=. eauto.
  - intros (a & p & Ha & He). exists a. by rewrite He.
Qed.

Lemma elem_sends m listens c a :
  (c, a) ∈ make_hole_sends m listens ↔
  c ∈ listen_conns m listens ∧
  (a ∈ detectAddrs m ∨ a ∈ sendSidMessageToRangePorts (CandidateAddrs m) (CandidatePorts (nr_Detect m))).
Proof.
  unfold make_hole_sends. rewrite elem_of_app, list_elem_of_bind. setoid_rewrite list_elem_of_fmap.
  assert ((c, a) ∈ match CandidatePorts (nr_Detect m) with [] => [] | ports => listen_conns m listens ≫= λ c, (λ a, (c, a)) <$> sendSidMessageToRangePorts (CandidateAddrs m) ports end ↔
    c ∈ listen_conns m listens ∧ a ∈ sendSidMessageToRangePorts (CandidateAddrs m) (CandidatePorts (nr_Detect m))) as ->.
  { destruct (CandidatePorts (nr_Detect m)) as [|r ports].
    - unfold sendSidMessageToRangePorts. simpl. split; [by intros ?%not_elem_of_nil|].
      intros [_ (ip & Hip & _)%list_elem_of_bind]. by apply not_elem_of_nil in Hip.
    - rewrite list_elem_of_bind. setoid_rewrite list_elem_of_fmap. naive_solver. }
  naive_solver.
Qed.

Lemma elem_range_sends a addrs ports :
  a ∈ sendSidMessageToRangePorts addrs ports ↔
  ∃ ip r i, ip ∈ parseIPs addrs ∧ r ∈ ports ∧ (From r <= i <= To r)%Z ∧ a = JoinHostPort ip (Itoa i).
Proof.
  unfold sendSidMessageToRangePorts, ports_of. rewrite list_elem_of_bind. setoid_rewrite list_elem_of_bind. setoid_rewrite list_elem_of_fmap.
  setoid_rewrite elem_of_seqZ. setoid_rewrite elem_Compact. split.
  - intros (ip & (r & (i & -> & Hi) & Hr) & Hip). exists ip, r, i. split_and!; try done; lia.
  - intros (ip & r & i & Hip & Hr & Hi & ->). exists ip. split; [|done]. exists r. split; [|done]. exists i. split; [done|lia].
Qed.

(** *** The two plans of one session *)

(** A host name or an IPv4 address, and a port. *)
Definition host_ok (h : string) : Prop :=
  h ≠ "" ∧ ContainsByte h ":" = false ∧ ContainsByte h "[" = false ∧ ContainsByte h "]" = false.
Definition endpoint_ok (x : string * Z) : Prop := host_ok x.1 ∧ (1 <= x.2 <= 65535)%Z.
Definition addr_of (x : string * Z) : string := JoinHostPort x.1 (Itoa x.2).

Lemma Itoa_plain z c : (0 <= z)%Z → is_digit c = false → ContainsByte (Itoa z) c = false.
Proof.
  intros Hz Hc. apply all_chars_contains. eapply all_chars_impl, (proj1 (Itoa_digits z Hz)). intros d Hd. simpl.
  apply negb_true_iff, bool_decide_eq_false. congruence.
Qed.

Lemma LastIndexByte_none s c : ContainsByte s c = false → LastIndexByte s c = None.
Proof. induction s as [|a s IH]; simpl; [done|]. destruct (ascii_dec a c); [done|]. intros H. by rewrite IH. Qed.

Lemma LastIndexByte_join h c p : ContainsByte p c = false → LastIndexByte (h +:+ String c p) c = Some (String.length h).
Proof.
  intros Hp. induction h as [|a h IH]; simpl; [|by rewrite IH]. rewrite LastIndexByte_none by done. by destruct (ascii_dec c c).
Qed.

Lemma SplitHostPort_addr x : endpoint_ok x → SplitHostPort (addr_of x) = Some (x.1, Itoa x.2).
Proof.
  destruct x as [h n]. intros [(Hne & Hc & Ho & Hcl) Hn]. unfold addr_of, JoinHostPort. simpl in *. rewrite Hc.
  change (":" +:+ Itoa n) with (String ":"%char (Itoa n)). unfold SplitHostPort.
  rewrite LastIndexByte_join by (apply Itoa_plain; [lia|done]).
  assert (HasPrefix (h +:+ String ":" (Itoa n)) "[" = false) as ->.
  { apply not_true_iff_false. rewrite HasPrefix_spec. intros [t Ht]. destruct h as [|a h]; [done|].
    simpl in Ht. injection Ht as -> _. simpl in Ho. by destruct (ascii_dec "[" "["). }
  destruct (take_drop_prefix h (String ":" (Itoa n))) as [-> _]. rewrite Hc.
  assert (∀ s, drop_str 0 s = s) as Hd by (intros s; exact (proj2 (take_drop_prefix "" s))). rewrite !Hd.
  assert (∀ c, is_digit c = false → c ≠ ":"%char → ContainsByte h c = false → ContainsByte (h +:+ String ":" (Itoa n)) c = false) as Hb.
  { intros c H1 H2 H3. rewrite ContainsByte_append, H3. cbn [orb ContainsByte]. destruct (ascii_dec ":" c); [by destruct H2|]. apply Itoa_plain; [lia|done]. }
  rewrite !Hb by done. simpl. f_equal. f_equal.
  replace (h +:+ String ":" (Itoa n)) with ((h +:+ ":") +:+ Itoa n) by (clear; induction h as [|a h IH]; simpl; [done|by rewrite IH]).
  replace (S (String.length h)) with (String.length (h +:+ ":")) by (rewrite append_length; simpl; lia).
  apply take_drop_prefix.
Qed.

Lemma ParseInt_port x : endpoint_ok x → ParseInt (Itoa x.2) = Ok x.2.
Proof. intros [_ ?]. apply ParseInt_Itoa. unfold int64_max. lia. Qed.

(** The difference of the ports of valid addresses. *)
Lemma scan_bounds localIPs l st st' : Forall endpoint_ok l → (0 <= portMin st <= portMax st)%Z → (portMax st <= 65535)%Z →
  scan_addrs localIPs st (addr_of <$> l) = Some st' → (0 <= portMin st' <= portMax st')%Z ∧ (portMax st' <= 65535)%Z.
Proof.
  intros Hl. revert st. induction Hl as [|x l Hx _ IH]; intros st Hm HM; [by intros [= <-]|]. rewrite fmap_cons. cbn [scan_addrs].
  unfold scan_addr. rewrite SplitHostPort_addr, ParseInt_port by done. destruct Hx as [_ Hx]. destruct (baseIP st =s? ""); apply IH; simpl; lia.
Qed.

Lemma difference_bounds localIPs l f : Forall endpoint_ok l →
  ClassifyNATFeature (addr_of <$> l) localIPs = Some f → (0 <= PortsDifference f <= 65535)%Z.
Proof.
  intros Hl. unfold ClassifyNATFeature. case_match; [done|].
  destruct (scan_addrs _ _ _) as [st|] eqn:E; [|done]. apply scan_bounds in E as [? ?]; [|done|simpl; lia..].
  intros [= <-]. unfold feature_of. destruct (ipChanged st), (portChanged st); simpl; rewrite ?decide_False, ?decide_True by done; simpl; try lia.
  rewrite wrap64_id; [lia|unfold int64_min, int64_max; lia].
Qed.

Lemma range_number_bounds mode index b :
  b = fst (getBehaviorByModeAndIndex mode index) ∨ b = snd (getBehaviorByModeAndIndex mode index) → (PortsRangeNumber b <= 65535)%Z.
Proof.
  assert (∀ l i, Forall (λ p : RecommandBehavior * RecommandBehavior, PortsRangeNumber p.1 <= 65535 ∧ PortsRangeNumber p.2 <= 65535)%Z l →
    (PortsRangeNumber (default (zero_behavior, zero_behavior) (l !! i)).1 <= 65535 ∧
     PortsRangeNumber (default (zero_behavior, zero_behavior) (l !! i)).2 <= 65535)%Z) as H.
  { intros l i Hl. destruct (l !! i) as [p|] eqn:E; [|simpl; lia]. rewrite Forall_lookup in Hl. apply (Hl i p E). }
  unfold getBehaviorByModeAndIndex. intros [->| ->]; apply H; unfold getBehaviorByMode; repeat case_match; repeat constructor; simpl; lia.
Qed.

(** One side: the server's response to it and the last address of the other side. *)
Lemma response_reaches tid sid protocol mode b timeout l assisted diff listens c x :
  Forall endpoint_ok l → last l = Some x → (0 <= diff <= 65535)%Z → (PortsRangeNumber b <= 65535)%Z →
  c ∈ listen_conns (response tid sid protocol mode b timeout (addr_of <$> l) assisted diff) listens →
  (c, addr_of x) ∈ make_hole_sends (response tid sid protocol mode b timeout (addr_of <$> l) assisted diff) listens.
Proof.
  intros Hl Hlast Hd Hn Hc. apply elem_sends. split; [done|].
  assert (x ∈ l) as Hx by (by apply last_Some_elem_of).
  assert (endpoint_ok x) as Hok by (rewrite Forall_forall in Hl; by apply Hl).
  assert (addr_of x ∈ addr_of <$> l) as Hin by (by apply list_elem_of_fmap_2).
  unfold detectAddrs. unfold response at 1 2 3 4 5 6. cbn [nr_Detect d_Role CandidatePorts CandidateAddrs AssistedAddrs].
  destruct (seqb_spec (Role b) DetectRoleSender) as [Hr|Hr]; [left; apply elem_Compact, elem_of_app; right; by apply elem_Compact|].
  destruct (decide (0 < PortsRangeNumber b)%Z) as [Hpos|Hpos].
  - right. apply elem_range_sends.
    destruct (proj2 (getRangePorts_bounds (addr_of <$> l) diff (PortsRangeNumber b)) (addr_of x) x.1 (Itoa x.2) x.2) as (r & Hr' & Hi & _).
    { by rewrite fmap_last, Hlast. } { by apply SplitHostPort_addr. } { by apply ParseInt_port. } { apply Hok. } { done. } { done. }
    exists x.1, r, x.2. split_and!; [|simpl; rewrite Hr'; left|lia|lia|done]. apply elem_parseIPs. exists (addr_of x), (Itoa x.2).
    split; [by apply elem_Compact|by apply SplitHostPort_addr].
  - left. apply elem_Compact. unfold getRangePorts. rewrite (proj2 (Z.leb_le _ _)) by lia. by apply elem_Compact.
Qed.

(** C33: the probes of both sides meet.  When the server has analysed a session of a visitor and a
    client with valid addresses, the plan that each side makes from its response probes the last
    mapped address of the other side, from every socket it listens on, whatever NATs the two
    have, whatever behaviour was recommended, as a sender or as a receiver, with or without
    ranges of candidate ports. *)
Theorem hole_probes_meet md5_hex now sid s cm c vl cl rv rc c' :
  nv_MappedAddrs (visitorMsg s) = addr_of <$> vl → nc_MappedAddrs cm = addr_of <$> cl →
  Forall endpoint_ok vl → Forall endpoint_ok cl →
  analysis md5_hex now sid s cm c = (Ok (rv, rc), c') →
  ∀ listens conn x,
    (last cl = Some x → conn ∈ listen_conns rv listens → (conn, addr_of x) ∈ make_hole_sends rv listens) ∧
    (last vl = Some x → conn ∈ listen_conns rc listens → (conn, addr_of x) ∈ make_hole_sends rc listens).
Proof.
  intros Hv Hc Hvl Hcl. unfold analysis. rewrite Hv, Hc.
  destruct (ClassifyNATFeature (addr_of <$> cl) _) as [cf|] eqn:Ec; [|done].
  destruct (ClassifyNATFeature (addr_of <$> vl) _) as [vf|] eqn:Ev; [|done].
  unfold GetRecommandBehaviors.
  destruct (Recommand now _) as [[mode index] r]. destruct (assign mode cf vf _) as [bc bv] eqn:Ea.
  intros [= <- <- _] listens conn x.
  assert ((PortsRangeNumber bc <= 65535)%Z ∧ (PortsRangeNumber bv <= 65535)%Z) as [Hbc Hbv].
  { revert Ea. unfold assign. pose proof (range_number_bounds mode index) as Hr. destruct (getBehaviorByModeAndIndex mode index) as [b1 b2].
    simpl in Hr. repeat case_match; intros [= <- <-]; auto. }
  split; intros Hx Hin; apply response_reaches; try done;
    [exact (difference_bounds _ _ _ Hcl Ec)|exact (difference_bounds _ _ _ Hvl Ev)].
Qed.

(** ** The wait for the other side *)

Record NatHoleSid := mkSid { sid_TransactionID : string; Sid : string; Response : bool; Nonce : string }.

Section wait.
Context {Addr Body : Type}.
(** [DecodeMessageInto] and [EncodeMessage] with the key of the proxy. *)
Variable DecodeMessage : Body → option NatHoleSid.
Variable EncodeMessage : NatHoleSid → option Body.

Definition as_response (m : NatHoleSid) : NatHoleSid := mkSid (sid_TransactionID m) (Sid m) true (Nonce m).

(** What one packet does: the answer to write and whether the wait is over. *)
Definition take_packet (role sid : string) (b : Body) : option (option Body) :=
  match DecodeMessage b with
  | None => None
  | Some m =>
      if negb (Sid m =s? sid) then None else
      if Response m then Some None else
      if role =s? DetectRoleSender then None else
      match EncodeMessage (as_response m) with None => None | Some b' => Some (Some b') end
  end.

(** [waitDetectMessage] over the packets that arrive before the deadline: the address of the
    other side and the packet written to it. *)
Fixpoint waitDetectMessage (role sid : string) (packets : list (Addr * Body)) : option (Addr * option Body) :=
  match packets with
  | [] => None
  | (raddr, b) :: packets =>
      match take_packet role sid b with
      | Some answer => Some (raddr, answer)
      | None => waitDetectMessage role sid packets
      end
  end.

(** Packets of others, with another key or for another session, do not end the wait; a sender
    waits for a response, a receiver answers a probe with a response to the same transaction. *)
Lemma waitDetectMessage_spec role sid packets raddr answer :
  waitDetectMessage role sid packets = Some (raddr, answer) ↔
  ∃ pre b post m, packets = pre ++ (raddr, b) :: post ∧ Forall (λ p, take_packet role sid p.2 = None) pre ∧
    DecodeMessage b = Some m ∧ Sid m = sid ∧
    match answer with
    | None => Response m = true
    | Some b' => Response m = false ∧ role ≠ DetectRoleSender ∧ EncodeMessage (as_response m) = Some b'
    end.
Proof.
  assert (∀ b r, take_packet role sid b = Some r ↔ ∃ m, DecodeMessage b = Some m ∧ Sid m = sid ∧
    match r with None => Response m = true | Some b' => Response m = false ∧ role ≠ DetectRoleSender ∧ EncodeMessage (as_response m) = Some b' end) as Ht.
  { intros b r. unfold take_packet. destruct (DecodeMessage b) as [m|]; [|split; [done|by intros (? & ? & _)]].
    split; [intros H; exists m; split; [done|]|intros (m' & [= <-] & H)]; revert H.
    all: destruct (seqb_spec (Sid m) sid) as [Hs|Hs]; simpl; [|first [discriminate|intros [? _]; by destruct Hs]].
    all: destruct (Response m) eqn:Er; [destruct r; intros; naive_solver|].
    all: destruct (seqb_spec role DetectRoleSender) as [Hr|Hr]; [destruct r; intros; naive_solver|].
    all: destruct (EncodeMessage (as_response m)) eqn:Ee; destruct r; intros; naive_solver. }
  induction packets as [|[a b] packets IH]; simpl.
  { split; [done|]. intros (pre & ? & ? & ? & H & _). by destruct pre. }
  destruct (take_packet role sid b) as [r|] eqn:E.
  - split.
    + intros [= -> ->]. apply Ht in E as (m & ? & ? & ?). exists [], b, packets, m. split_and!; try done; by constructor.
    + intros (pre & b' & post & m & H & Hpre & Hd & Hs & Hm). destruct pre as [|p pre].
      * injection H as -> -> ->. assert (take_packet role sid b' = Some answer) by (apply Ht; eauto). naive_solver.
      * injection H as <- ->. apply Forall_cons in Hpre as [Hpre _]. simpl in Hpre. congruence.
  - rewrite IH. split; intros (pre & b' & post & m & H & Hpre & Hrest).
    + exists ((a, b) :: pre), b', post, m. rewrite H. split_and!; [done|by constructor|apply Hrest..].
    + destruct pre as [|p pre].
      * injection H as -> -> ->. assert (take_packet role sid b' = Some answer) by (apply Ht; exists m; tauto). congruence.
      * injection H as <- ->. apply Forall_cons in Hpre as [_ Hpre]. exists pre, b', post, m. tauto.
Qed.
End wait.

(** ** The two sides together *)

Module Hole.
(** The receiver's sockets: waiting, done with [waitDetectMessage], handed to [MakeHole]'s caller,
    or closed (with one socket, by the caller of [MakeHole] when it fails). *)
Inductive cstate := Waiting | Got | Taken | Closed.
(** [MakeHole] of the receiver: starting its goroutines, in the [select], or back. *)
Inductive mstate := Spawning | Selecting | Returned (conn : nat) | Failed.

(** The message of the session on which a socket of the receiver is done: a probe that it
    answers, a probe whose answer could not be written ([WriteToUDP] fails, which is ignored), or
    a response, to which there is no answer.  Other messages, and probes whose answer cannot be
    encoded, are passed over. *)
Inductive cause := Answered | AnswerLost | ByResponse.
#[global] Instance cause_eq_dec : EqDecision cause.
Proof. solve_decision. Defined.

(** [sender] is the response the sender has taken: that of a socket of the receiver, or one that no
    socket of the receiver has sent. *)
Record t := mk { sender : option (option nat); conns : list cstate; main : mstate; done_on : list (nat * cause) }.

(** With one socket [MakeHole] waits itself. *)
Definition New (n : nat) : t := mk None (replicate n Waiting) (if (n =? 1)%nat then Selecting else Spawning) [].

Inductive op :=
| Message (j : nat) (c : cause)  (* a message of the session reaches socket [j] of the receiver *)
| ReadFails (j : nat)            (* its deadline, or it was closed *)
| Push (j : nat)                 (* the goroutine offers its result *)
| Select | Timeout
| Respond (j : nat)              (* the response of socket [j] reaches the sender *)
| Stray.                         (* another response of the session reaches the sender *)

Definition step (s : t) (o : op) : t :=
  match o with
  | Message j c =>
      match conns s !! j with
      | Some Waiting =>
          if (length (conns s) =? 1)%nat
          then match main s with
               | Selecting => mk (sender s) (<[j := Taken]> (conns s)) (Returned j) ((j, c) :: done_on s)
               | _ => s
               end
          else mk (sender s) (<[j := Got]> (conns s)) (main s) ((j, c) :: done_on s)
      | _ => s
      end
  | ReadFails j =>
      match conns s !! j with
      | Some Waiting =>
          mk (sender s) (<[j := Closed]> (conns s)) (if (length (conns s) =? 1)%nat then Failed else main s) (done_on s)
      | _ => s
      end
  | Push j =>
      match conns s !! j, main s with
      | Some Got, Selecting => mk (sender s) (<[j := Taken]> (conns s)) (Returned j) (done_on s)
      | Some Got, _ => mk (sender s) (<[j := Closed]> (conns s)) (main s) (done_on s)
      | _, _ => s
      end
  | Select => match main s with Spawning => mk (sender s) (conns s) Selecting (done_on s) | _ => s end
  | Timeout =>
      match main s with
      | Selecting => if (length (conns s) =? 1)%nat then s else mk (sender s) (conns s) Failed (done_on s)
      | _ => s
      end
  | Respond j =>
      match sender s with
      | None => if decide ((j, Answered) ∈ done_on s) then mk (Some (Some j)) (conns s) (main s) (done_on s) else s
      | Some _ => s
      end
  | Stray =>
      match sender s with
      | None => mk (Some None) (conns s) (main s) (done_on s)
      | Some _ => s
      end
  end.

Definition run (n : nat) (ops : list op) : t := foldl step (New n) ops.

(** Every socket is done on one message at most. *)
Record wf (s : t) : Prop := {
  wf_taken : ∀ j, conns s !! j = Some Taken ↔ main s = Returned j;
  wf_done : ∀ j x, (j, x) ∈ done_on s → ∃ c, conns s !! j = Some c ∧ c ≠ Waiting;
  wf_once : ∀ j x y, (j, x) ∈ done_on s → (j, y) ∈ done_on s → x = y;
  wf_got : ∀ j c, conns s !! j = Some c → c = Got ∨ c = Taken → ∃ x, (j, x) ∈ done_on s;
  wf_sender : ∀ j, sender s = Some (Some j) → (j, Answered) ∈ done_on s }.

Lemma New_wf n : wf (New n).
Proof.
  constructor; simpl; try done; try (by intros ? ? ?%not_elem_of_nil); try (by intros ? ? ? ?%not_elem_of_nil).
  - intros j. rewrite lookup_replicate. split; [naive_solver|]. by destruct (n =? 1)%nat.
  - intros j c. rewrite !lookup_replicate. naive_solver.
Qed.

(** Socket [j] changes to [c]; it may be done on a message, or handed on. *)
Lemma change_wf s j c0 c m a : wf s → conns s !! j = Some c0 → c0 = Waiting ∨ c0 = Got → c ≠ Waiting →
  a = done_on s ∧ (c = Closed ∨ c0 = Got) ∨ (∃ x, c0 = Waiting ∧ a = (j, x) :: done_on s) →
  c = Taken ∧ m = Returned j ∧ main s = Selecting ∨ c ≠ Taken ∧ (m = main s ∨ m = Failed ∧ ∀ i, main s ≠ Returned i) →
  wf (mk (sender s) (<[j := c]> (conns s)) m a).
Proof.
  intros [Ht Hd Ho Hg Hs] Hj Hc0 Hc Hans Hm.
  assert (main s ≠ Returned j) as Hmj by (intros H%Ht; naive_solver).
  assert (∀ q, q ∈ done_on s → q ∈ a) as Hina by (destruct Hans as [[-> _]|(x & _ & ->)]; [done|by right]).
  assert (∀ i x, (i, x) ∈ a → i ≠ j → (i, x) ∈ done_on s) as Hout.
  { intros i x Hi Hne. destruct Hans as [[-> _]|(y & _ & ->)]; [done|]. apply elem_of_cons in Hi as [[= -> ->]|?]; done. }
  constructor; simpl.
  - intros i. destruct (decide (i = j)) as [->|Hne].
    + rewrite list_lookup_insert_eq by (by eapply lookup_lt_Some).
      destruct Hm as [(-> & -> & _)|[Hn [->|[-> _]]]]; [done|split; [by intros [= ->]|done]..].
    + rewrite list_lookup_insert_ne by done. rewrite Ht.
      destruct Hm as [(-> & -> & ->)|[_ [->|[-> Hno]]]]; [split; [done|by intros [= ->]]|done|split; [by intros ?%Hno|done]].
  - intros i x Hi. destruct (decide (i = j)) as [->|Hne].
    + exists c. by rewrite list_lookup_insert_eq by (by eapply lookup_lt_Some).
    + rewrite list_lookup_insert_ne by done. eauto.
  - intros i x y Hx Hy. destruct (decide (i = j)) as [->|Hne]; [|by eapply Ho; apply Hout].
    destruct Hans as [[-> _]|(z & -> & ->)]; [by eapply Ho|].
    assert (∀ q, (j, q) ∈ done_on s → False) as Hno by (intros q (c' & ? & ?)%Hd; congruence).
    apply elem_of_cons in Hx as [[= ->]|Hx], Hy as [[= ->]|Hy]; try done; naive_solver.
  - intros i x [(<- & <- & _)|[Hne Hi]]%list_lookup_insert_Some Hx.
    + destruct Hans as [[-> [->| ->]]|(y & _ & ->)]; [naive_solver|by eapply Hg; [done|left]|exists y; left].
    + destruct (Hg _ _ Hi Hx) as [y Hy]. eauto.
  - eauto.
Qed.

Lemma hole_step_wf s o : wf s → wf (step s o).
Proof.
  intros Hwf. destruct o as [j c|j|j| | |j| ]; cbn [step].
  - destruct (conns s !! j) as [[]|] eqn:Ej; try done. destruct (length (conns s) =? 1)%nat.
    + destruct (main s) eqn:Em; try done. eapply change_wf; try done; eauto.
    + eapply change_wf; try done; eauto.
  - destruct (conns s !! j) as [[]|] eqn:Ej; try done. eapply change_wf; try done; auto. right. split; [done|].
    destruct (length (conns s) =? 1)%nat eqn:El; [|by left]. right. split; [done|]. intros i Hi%Hwf.
    apply Nat.eqb_eq in El. pose proof (lookup_lt_Some _ _ _ Hi). pose proof (lookup_lt_Some _ _ _ Ej).
    assert (i = j) as -> by lia. congruence.
  - destruct (conns s !! j) as [[]|] eqn:Ej; try done. destruct (main s) eqn:Em; eapply change_wf; try done; rewrite ?Em; auto.
  - destruct (main s) eqn:Em; try done. destruct Hwf as [Ht Hd Ho Hg Hs]. constructor; simpl; try done. intros j. rewrite Ht, Em. done.
  - destruct (main s) eqn:Em; try done. case_match; [done|]. destruct Hwf as [Ht Hd Ho Hg Hs]. constructor; simpl; try done. intros j. rewrite Ht, Em. done.
  - destruct (sender s) eqn:Es; [done|]. case_decide; [|done]. destruct Hwf as [Ht Hd Ho Hg Hs]. constructor; simpl; try done. by intros ? [= <-].
  - destruct (sender s) eqn:Es; [done|]. destruct Hwf as [Ht Hd Ho Hg Hs]. by constructor.
Qed.

Lemma hole_run_wf n ops : wf (run n ops).
Proof. unfold run. induction ops as [|o ops IH] using rev_ind; [apply New_wf|]. rewrite foldl_app. by apply hole_step_wf. Qed.

(** With one socket there are three outcomes for the receiver. *)
Definition one (s : t) : Prop :=
  (conns s = [Waiting] ∧ main s = Selecting ∧ done_on s = []) ∨
  (conns s = [Taken] ∧ main s = Returned 0 ∧ ∃ x, done_on s = [(0%nat, x)]) ∨
  (conns s = [Closed] ∧ main s = Failed ∧ done_on s = []).

Lemma one_run ops : one (run 1 ops).
Proof.
  unfold run. induction ops as [|o ops IH] using rev_ind; [by left|]. rewrite foldl_app. cbn [foldl].
  destruct (foldl step (New 1) ops) as [se cs m an]. unfold one in *. simpl in IH.
  destruct IH as [(-> & -> & ->)|[(-> & -> & x & ->)|(-> & -> & ->)]];
    destruct o as [[|j] c|[|j]|[|j]| | |j| ]; simpl; try (rewrite !lookup_nil); try (destruct se; simpl); try (case_decide; simpl); eauto 10.
Qed.


(** With several sockets the two sides may settle on different ones: the receiver has closed
    the one the sender goes on with. *)
Lemma ports_disagree :
  let s := run 2 [Select; Message 0 Answered; Message 1 Answered; Push 0; Push 1; Respond 1] in
  main s = Returned 0 ∧ sender s = Some (Some 1%nat) ∧ conns s !! 1%nat = Some Closed.
Proof. done. Qed.

(** A probe that is answered before [MakeHole] has reached its [select] is lost: its socket is
    closed, and [MakeHole] fails while the sender has succeeded. *)
Lemma early_result_lost :
  let s := run 2 [Message 0 Answered; Push 0; Select; Respond 0; ReadFails 1; Timeout] in
  main s = Failed ∧ sender s = Some (Some 0%nat) ∧ conns s = [Closed; Closed].
Proof. done. Qed.

(** A response is enough for the receiver, and nothing is sent to the sender, which goes on
    waiting. *)
Lemma response_ends_receiver :
  let s := run 1 [Message 0 ByResponse; Respond 0] in main s = Returned 0 ∧ sender s = None.
Proof. done. Qed.
End Hole.

(** ** The callers *)

Inductive xeffect :=
| AskServer                                  (* [ExchangeInfo] has sent its message *)
| Report (sid : string) (success : bool)     (* [NatHoleReport] to the server *)
| ServeKCP | ServeQUIC                       (* the proxy serves the visitor over the hole *)
| InitSession                                (* the visitor's tunnel session has the socket *)
| CloseListen | CloseWorkConn.

(** [XTCPProxy.InWorkConn] of the client: [read] is whether the session was read from the work
    connection, [hole] whether [MakeHole] succeeded; the deferred closes come last. *)
Definition xtcp_InWorkConn (read : bool) (prepared : result prepare_error PrepareResult)
    (exchanged : result exchange_error NatHoleResp) (hole : bool) : list xeffect :=
  if negb read then [CloseWorkConn] else
  match prepared with
  | Err _ => [CloseWorkConn]
  | Ok _ =>
      AskServer ::
      match exchanged with
      | Err _ => []
      | Ok r =>
          if hole
          then [Report (nr_Sid r) true; if nr_Protocol r =s? "kcp" then ServeKCP else ServeQUIC]
          else [CloseListen; Report (nr_Sid r) false]
      end ++ [CloseListen; CloseWorkConn]
  end.

(** [XTCPVisitor.makeNatHole]. *)
Definition makeNatHole (checked : bool) (prepared : result prepare_error PrepareResult)
    (exchanged : result exchange_error NatHoleResp) (hole init : bool) : list xeffect :=
  if negb checked then [] else
  match prepared with
  | Err _ => []
  | Ok _ =>
      AskServer ::
      match exchanged with
      | Err _ => [CloseListen]
      | Ok _ => if negb hole then [CloseListen] else if negb init then [CloseListen] else [InitSession]
      end
  end.

(** The message of the visitor. *)
Definition visitor_message (md5_hex : string → string) (tid proxyName protocol secretKey : string) (now : Z) (p : PrepareResult)
    : NatHoleVisitor :=
  mkVisitorMsg tid proxyName false protocol (GetAuthKey md5_hex secretKey now) now (Addrs p) (p_AssistedAddrs p).

(** A client that was prepared closes its socket and its work connection in the end, whatever
    happens, and reports once, with the session of the response, exactly when it has one. *)
Lemma xtcp_released read prepared exchanged hole :
  let l := xtcp_InWorkConn read prepared exchanged hole in
  last l = Some CloseWorkConn ∧ (AskServer ∈ l → CloseListen ∈ l) ∧
  (∀ sid ok, Report sid ok ∈ l ↔ read = true ∧ is_ok prepared = true ∧ hole = ok ∧ ∃ r, exchanged = Ok r ∧ nr_Sid r = sid) ∧
  (ServeKCP ∈ l ∨ ServeQUIC ∈ l → hole = true).
Proof.
  unfold xtcp_InWorkConn. destruct read, prepared as [p|e], exchanged as [r|e'], hole; simpl; try destruct (nr_Protocol r =s? "kcp");
    split_and!; try done; try set_solver; intros sid [|]; set_solver.
Qed.

(** The visitor's socket is kept by the tunnel session or closed. *)
Lemma makeNatHole_released checked prepared exchanged hole init :
  let l := makeNatHole checked prepared exchanged hole init in
  AskServer ∈ l → (CloseListen ∈ l ↔ InitSession ∉ l) ∧ (InitSession ∈ l ↔ is_ok exchanged = true ∧ hole = true ∧ init = true).
Proof. unfold makeNatHole. destruct checked, prepared, exchanged, hole, init; simpl; set_solver. Qed.

(** The server opens a session for the visitor's message when the proxy listens with the same
    secret. *)
Lemma visitor_message_accepted md5_hex sid tid proxyName protocol sk now p user c cfg :
  clientCfgs c !! proxyName = Some cfg → cc_sk cfg = sk →
  fst (HandleVisitor md5_hex sid (visitor_message md5_hex tid proxyName protocol sk now p) user c) = Pending.
Proof. intros Hc Hsk. unfold HandleVisitor, HandleVisitor_start, visitor_message. simpl. by rewrite Hc, Hsk, seqb_refl. Qed.

Lemma flooded_discovery_panics_witness :
  DiscoverConn.rd (DiscoverConn.run
    (concat (replicate 11 [DiscoverConn.Datagram tt; DiscoverConn.LoadChan; DiscoverConn.Send]) ++
     [DiscoverConn.LoadChan; DiscoverConn.CloseChan])) = DiscoverConn.RPanic.
Proof.
  apply (DiscoverConn.flooded_discovery_panics
    (concat (replicate 11 [DiscoverConn.Datagram tt; DiscoverConn.LoadChan; DiscoverConn.Send]))); reflexivity.
Defined.

Definition hole_visit : NatHoleVisitor :=
  mkVisitorMsg "t" "p2p" false "quic" "" 0 (addr_of <$> [("203.0.113.7", 5000%Z); ("203.0.113.7", 5000%Z)]) [].
Definition hole_client : NatHoleClient :=
  mkClientMsg "u" "sid" (addr_of <$> [("198.51.100.9", 7000%Z); ("198.51.100.9", 7003%Z)]) [].
Definition hole_responses : result nathole_error (NatHoleResp * NatHoleResp) * Controller :=
  analysis (λ s, s) 0 "sid" (mkSession hole_visit None "" 0 0) hole_client (NewController 0).

Lemma hole_probes_meet_witness :
  match hole_responses with
  | (Ok (rv, rc), _) => (0%nat, "198.51.100.9:7003") ∈ make_hole_sends rv [] ∧ (0%nat, "203.0.113.7:5000") ∈ make_hole_sends rc []
  | _ => False
  end.
Proof.
  destruct hole_responses as [[[rv rc]|e] c'] eqn:E; [|vm_compute in E; discriminate E].
  assert (Forall endpoint_ok [("203.0.113.7", 5000%Z); ("203.0.113.7", 5000%Z)]) as Hv by (repeat constructor; simpl; (done || lia)).
  assert (Forall endpoint_ok [("198.51.100.9", 7000%Z); ("198.51.100.9", 7003%Z)]) as Hc by (repeat constructor; simpl; (done || lia)).
  pose proof (hole_probes_meet (λ s, s) 0 "sid" (mkSession hole_visit None "" 0 0) hole_client (NewController 0)
    [("203.0.113.7", 5000%Z); ("203.0.113.7", 5000%Z)] [("198.51.100.9", 7000%Z); ("198.51.100.9", 7003%Z)] rv rc c' eq_refl eq_refl) as H.
  split; [apply (H Hv Hc E [] 0%nat ("198.51.100.9", 7003%Z)); [done|]
         |apply (H Hv Hc E [] 0%nat ("203.0.113.7", 5000%Z)); [done|]];
    unfold listen_conns; repeat case_match; repeat constructor.
Defined.
