(* ===== verification/ClientApi.v ===== *)
(** The web API of the client: the definitions of proxies and visitors that it exchanges
    ([src/client/http/model]) and its handlers ([src/client/http/controller.go]) over the
    configuration manager of ConfigManager. *)
From Stdlib Require Import ZArith Lia Ascii String.
From stdpp Require Import base gmap strings list sorting fin_maps.
From S2P Require Import Prelude GoStrings ProxyConf Validation VisitorConf PluginConf CommonConf Decode ConfigSource ClientLoad ConfigManager MakeHole.
Local Open Scope string_scope.
Local Open Scope list_scope.

(** ** Definitions of proxies and visitors *)

(** What the handlers ask of a kind of definition [D] of configurations [C]. *)
Class ApiModel (C D : Type) := {
  def_name : D → string;
  def_valid : string → bool → D → bool;     (* [Validate(pathName, isUpdate)] *)
  def_to : D → option C;                    (* [ToConfigurer] *)
  def_from : C → D                          (* [..DefinitionFromConfigurer] *) }.

Abbreviation base_conf := (ProxyBaseConfig TypedClientPluginOptions).

Record ProxyDefinition := mkProxyDef {
  pd_Name : string; pd_Type : string;
  pd_TCP : option (base_conf * Z); pd_UDP : option (base_conf * Z);
  pd_HTTP : option (base_conf * DomainConfig * HTTPFields); pd_HTTPS : option (base_conf * DomainConfig);
  pd_TCPMux : option (base_conf * DomainConfig * TCPMuxFields);
  pd_STCP : option (base_conf * string * list string); pd_SUDP : option (base_conf * string * list string);
  pd_XTCP : option (base_conf * string * list string * option bool) }.

(** The blocks that are there, in the order of [activeBlock]: the last one wins. *)
Definition pd_blocks (p : ProxyDefinition) : list proxy_conf :=
  omap id [ (λ x, TCPProxyConfig x.1 x.2) <$> pd_TCP p; (λ x, UDPProxyConfig x.1 x.2) <$> pd_UDP p;
            (λ x, HTTPProxyConfig x.1.1 x.1.2 x.2) <$> pd_HTTP p; (λ x, HTTPSProxyConfig x.1 x.2) <$> pd_HTTPS p;
            (λ x, TCPMuxProxyConfig x.1.1 x.1.2 x.2) <$> pd_TCPMux p; (λ x, STCPProxyConfig x.1.1 x.1.2 x.2) <$> pd_STCP p;
            (λ x, SUDPProxyConfig x.1.1 x.1.2 x.2) <$> pd_SUDP p; (λ x, XTCPProxyConfig x.1.1.1 x.1.1.2 x.1.2 x.2) <$> pd_XTCP p ].

Definition IsProxyType (typ : string) : bool :=
  contains ["tcp"; "udp"; "http"; "https"; "tcpmux"; "stcp"; "sudp"; "xtcp"] typ.

Definition set_name_type {P} (name typ : string) (b : ProxyBaseConfig P) : ProxyBaseConfig P :=
  mkBase name typ (Enabled b) (Annotations b) (Transport b) (Metadatas b) (LoadBalancer b) (HealthCheck b) (Backend b).

Definition pd_Validate (pathName : string) (isUpdate : bool) (p : ProxyDefinition) : bool :=
  negb (TrimSpace (pd_Name p) =s? "") && IsProxyType (pd_Type p) &&
  negb (isUpdate && negb (pathName =s? "") && negb (pathName =s? pd_Name p)) &&
  (length (pd_blocks p) =? 1)%nat &&
  match last (pd_blocks p) with Some c => type_name c =s? pd_Type p | None => "" =s? pd_Type p end.

Definition pd_ToConfigurer (p : ProxyDefinition) : option proxy_conf :=
  (λ c, set_base (set_name_type (pd_Name p) (pd_Type p) (GetBaseConfig c)) c) <$> last (pd_blocks p).

Definition pd_FromConfigurer (c : proxy_conf) : ProxyDefinition :=
  let b := GetBaseConfig c in
  let mk := mkProxyDef (Name b) (Type_ b) in
  match c with
  | TCPProxyConfig b p => mk (Some (b, p)) None None None None None None None
  | UDPProxyConfig b p => mk None (Some (b, p)) None None None None None None
  | HTTPProxyConfig b d h => mk None None (Some (b, d, h)) None None None None None
  | HTTPSProxyConfig b d => mk None None None (Some (b, d)) None None None None
  | TCPMuxProxyConfig b d t => mk None None None None (Some (b, d, t)) None None None
  | STCPProxyConfig b k u => mk None None None None None (Some (b, k, u)) None None
  | SUDPProxyConfig b k u => mk None None None None None None (Some (b, k, u)) None
  | XTCPProxyConfig b k u n => mk None None None None None None None (Some (b, k, u, n))
  end.

#[global] Instance proxy_ApiModel : ApiModel proxy_conf ProxyDefinition := {
  def_name := pd_Name; def_valid := pd_Validate; def_to := pd_ToConfigurer; def_from := pd_FromConfigurer }.

Record VisitorDefinition := mkVisitorDef {
  vd_Name : string; vd_Type : string;
  vd_STCP : option VisitorBaseConfig; vd_SUDP : option VisitorBaseConfig; vd_XTCP : option (VisitorBaseConfig * XTCPFields) }.

Definition vd_blocks (p : VisitorDefinition) : list VisitorConfigurer :=
  omap id [STCPVisitorConfig <$> vd_STCP p; SUDPVisitorConfig <$> vd_SUDP p; (λ x, XTCPVisitorConfig x.1 x.2) <$> vd_XTCP p].

Definition IsVisitorType (typ : string) : bool := contains ["stcp"; "sudp"; "xtcp"] typ.

Definition v_set_name_type (name typ : string) (b : VisitorBaseConfig) : VisitorBaseConfig :=
  mkVBase name typ (v_Enabled b) (v_Transport b) (v_SecretKey b) (v_ServerUser b) (v_ServerName b) (v_BindAddr b) (v_BindPort b) (v_Plugin b).

Definition vd_Validate (pathName : string) (isUpdate : bool) (p : VisitorDefinition) : bool :=
  negb (TrimSpace (vd_Name p) =s? "") && IsVisitorType (vd_Type p) &&
  negb (isUpdate && negb (pathName =s? "") && negb (pathName =s? vd_Name p)) &&
  (length (vd_blocks p) =? 1)%nat &&
  match last (vd_blocks p) with Some c => v_type_name c =s? vd_Type p | None => "" =s? vd_Type p end.

Definition vd_ToConfigurer (p : VisitorDefinition) : option VisitorConfigurer :=
  (λ c, v_set_base (v_set_name_type (vd_Name p) (vd_Type p) (v_GetBaseConfig c)) c) <$> last (vd_blocks p).

Definition vd_FromConfigurer (c : VisitorConfigurer) : VisitorDefinition :=
  let b := v_GetBaseConfig c in
  match c with
  | STCPVisitorConfig b => mkVisitorDef (v_Name b) (v_Type b) (Some b) None None
  | SUDPVisitorConfig b => mkVisitorDef (v_Name b) (v_Type b) None (Some b) None
  | XTCPVisitorConfig b x => mkVisitorDef (v_Name b) (v_Type b) None None (Some (b, x))
  end.

#[global] Instance visitor_ApiModel : ApiModel VisitorConfigurer VisitorDefinition := {
  def_name := vd_Name; def_valid := vd_Validate; def_to := vd_ToConfigurer; def_from := vd_FromConfigurer }.

(** What a kind of definition promises: configurations whose type is the name of their
    constructor are told by their definitions, and a definition that passes has one. *)
Class ApiModelLaws (C D : Type) `{!ApiModel C D} `{!Configurer C} (typed : C → Prop) := {
  def_from_name c : def_name (D := D) (def_from c) = conf_name c;
  def_from_to c : typed c → def_to (D := D) (def_from c) = Some c;
  def_from_valid c path u : typed c → TrimSpace (conf_name c) ≠ "" → path = conf_name c ∨ u = false →
    def_valid path u (def_from (D := D) c) = true;
  def_valid_to path u (d : D) : def_valid path u d = true →
    ∃ c, def_to d = Some c ∧ typed c ∧ conf_name c = def_name d ∧ TrimSpace (def_name d) ≠ "" ∧
      (u = true → path ≠ "" → def_name d = path) }.

Definition v_well_typed (c : VisitorConfigurer) : Prop := v_Type (v_GetBaseConfig c) = v_type_name c.

#[global] Instance proxy_ApiModelLaws : ApiModelLaws proxy_conf ProxyDefinition well_typed.
Proof.
  split.
  - by intros [].
  - intros c Hc. unfold well_typed in Hc. simpl. destruct c as [b ?|b ?|b ? ?|b ?|b ? ?|b ? ?|b ? ? ?|b ? ?]; destruct b; simpl in *; by subst.
  - intros c path u Hc Hn Hp. unfold well_typed in Hc. simpl. unfold pd_Validate.
    assert (pd_Name (pd_FromConfigurer c) = Name (GetBaseConfig c)) as Hnm by (by destruct c).
    assert (pd_Type (pd_FromConfigurer c) = type_name c) as Hty by (by rewrite <- Hc; destruct c).
    assert (pd_blocks (pd_FromConfigurer c) = [c]) as Hb by (by destruct c).
    change (conf_name c) with (Name (GetBaseConfig c)) in *. rewrite Hnm, Hty, Hb, (proj2 (seqb_false _ _) Hn). simpl. rewrite seqb_refl.
    assert (IsProxyType (type_name c) = true) as -> by (by destruct c).
    destruct Hp as [->| ->]; simpl in *; [rewrite seqb_refl|done]. simpl. rewrite andb_false_r. done.
  - intros path u d. simpl. unfold pd_Validate, pd_ToConfigurer. rewrite !andb_true_iff. intros [[[[Hn _] Hp] Hl] Hty].
    destruct (last (pd_blocks d)) as [c|] eqn:E.
    + eexists. split; [done|]. apply seqb_true in Hty. apply negb_true_iff, seqb_false in Hn.
      split_and!; [unfold well_typed; by destruct c|by destruct c|done|].
      intros -> Hpath. simpl in Hp. rewrite (proj2 (seqb_false _ _) Hpath) in Hp. simpl in Hp. rewrite negb_involutive in Hp. apply seqb_true in Hp. by rewrite Hp.
    + apply last_None in E. by rewrite E in Hl.
Qed.

#[global] Instance visitor_ApiModelLaws : ApiModelLaws VisitorConfigurer VisitorDefinition v_well_typed.
Proof.
  split.
  - by intros [].
  - intros c Hc. unfold v_well_typed in Hc. simpl. destruct c as [b|b|b ?]; destruct b; simpl in *; by subst.
  - intros c path u Hc Hn Hp. unfold v_well_typed in Hc. simpl. unfold vd_Validate.
    assert (vd_Name (vd_FromConfigurer c) = v_Name (v_GetBaseConfig c)) as Hnm by (by destruct c).
    assert (vd_Type (vd_FromConfigurer c) = v_type_name c) as Hty by (by rewrite <- Hc; destruct c).
    assert (vd_blocks (vd_FromConfigurer c) = [c]) as Hb by (by destruct c).
    change (conf_name c) with (v_Name (v_GetBaseConfig c)) in *. rewrite Hnm, Hty, Hb, (proj2 (seqb_false _ _) Hn). simpl. rewrite seqb_refl.
    assert (IsVisitorType (v_type_name c) = true) as -> by (by destruct c).
    destruct Hp as [->| ->]; simpl in *; [rewrite seqb_refl|done]. simpl. rewrite andb_false_r. done.
  - intros path u d. simpl. unfold vd_Validate, vd_ToConfigurer. rewrite !andb_true_iff. intros [[[[Hn _] Hp] Hl] Hty].
    destruct (last (vd_blocks d)) as [c|] eqn:E.
    + eexists. split; [done|]. apply seqb_true in Hty. apply negb_true_iff, seqb_false in Hn.
      split_and!; [unfold v_well_typed; by destruct c|by destruct c|done|].
      intros -> Hpath. simpl in Hp. rewrite (proj2 (seqb_false _ _) Hpath) in Hp. simpl in Hp. rewrite negb_involutive in Hp. apply seqb_true in Hp. by rewrite Hp.
    + apply last_None in E. by rewrite E in Hl.
Qed.

(** ** The handlers *)

Section api.
Variable IsQualifiedName : string → list string.
Context {bytes : Type}.
Variable encode : list proxy_conf * list VisitorConfigurer → option bytes.
Abbreviation mgr := (mgr (bytes := bytes)).

Definition toHTTPError (e : mgr_error) : Z :=
  match e with
  | ErrInvalidArgument => 400
  | ErrNotFound | ErrStoreDisabled => 404
  | ErrConflict => 409
  | ErrApplyConfig | Internal => 500
  end.

(** A reply: its code and, when it is 200, what it carries. *)
Inductive payload (D : Type) := Nothing | One (d : D) | Many (l : list D).
#[global] Arguments Nothing {D}.
#[global] Arguments One {D} d.
#[global] Arguments Many {D} l.
Record reply (D : Type) := mkReply { code : Z; content : payload D }.
#[global] Arguments mkReply {D} code content.
#[global] Arguments code {D} r.
#[global] Arguments content {D} r.

Definition refuse {D} (c : Z) : reply D := mkReply c Nothing.

(** The body of a request: unreadable, not JSON of a definition, or a definition. *)
Inductive body (D : Type) := Unreadable | NoJSON | Def (d : D).
#[global] Arguments Unreadable {D}.
#[global] Arguments NoJSON {D}.
#[global] Arguments Def {D} d.

Section generic.
Context {C D : Type} `{!ApiModel C D} `{!Configurer C}.

(** [CreateStoreProxy] and [CreateStoreVisitor] over the operation of the manager. *)
Definition create_handler (op : C → mgr → result mgr_error C * mgr) (b : body D) (m : mgr) : reply D * mgr :=
  match b with
  | Unreadable | NoJSON => (refuse 400, m)
  | Def d =>
      if negb (def_valid "" false d) then (refuse 400, m) else
      match def_to d with
      | None => (refuse 400, m)
      | Some c =>
          match op c m with
          | (Err e, m) => (refuse (toHTTPError e), m)
          | (Ok c, m) => (mkReply 200 (One (def_from c)), m)
          end
      end
  end.

Definition update_handler (op : string → C → mgr → result mgr_error C * mgr) (name : string) (b : body D) (m : mgr) : reply D * mgr :=
  if name =s? "" then (refuse 400, m) else
  match b with
  | Unreadable | NoJSON => (refuse 400, m)
  | Def d =>
      if negb (def_valid name true d) then (refuse 400, m) else
      match def_to d with
      | None => (refuse 400, m)
      | Some c =>
          match op name c m with
          | (Err e, m) => (refuse (toHTTPError e), m)
          | (Ok c, m) => (mkReply 200 (One (def_from c)), m)
          end
      end
  end.

Definition delete_handler (op : string → mgr → result mgr_error unit * mgr) (name : string) (m : mgr) : reply D * mgr :=
  if name =s? "" then (refuse 400, m) else
  match op name m with
  | (Err e, m) => (refuse (toHTTPError e), m)
  | (Ok _, m) => (refuse 200, m)
  end.

Definition get_handler (op : string → mgr → result mgr_error C) (name : string) (m : mgr) : reply D :=
  if name =s? "" then refuse 400 else
  match op name m with Err e => refuse (toHTTPError e) | Ok c => mkReply 200 (One (def_from c)) end.

Definition by_def_name (x y : D) : Prop := (def_name x ≤ def_name y)%string.
#[global] Instance by_def_name_dec : RelDecision by_def_name.
Proof. intros x y. unfold by_def_name. apply _. Defined.

(** [ListStoreProxies]: the values of the map, in any order, sorted by name. *)
Definition list_handler (stored : baseSource → gmap string C) (m : mgr) : reply D :=
  match g_store m with
  | None => refuse (toHTTPError ErrStoreDisabled)
  | Some (s, _) => mkReply 200 (Many (merge_sort by_def_name (def_from <$> values (stored s))))
  end.

(** [GetProxyConfig]: what runs, or else what is stored. *)
Definition config_handler (running : string → option C) (stored : baseSource → gmap string C) (name : string) (m : mgr) : reply D :=
  if name =s? "" then refuse 400 else
  match running name with
  | Some c => mkReply 200 (One (def_from c))
  | None =>
      match g_store m ≫= λ x, stored (fst x) !! name with
      | Some c => mkReply 200 (One (def_from c))
      | None => refuse 404
      end
  end.
End generic.

(** ** The operations of the manager behind the handlers *)

Abbreviation wf := (mgr_wf IsQualifiedName (bytes := bytes)).

Class StoreOps (C : Type) := {
  op_create : io → C → mgr → result mgr_error C * mgr;
  op_update : io → string → C → mgr → result mgr_error C * mgr;
  op_delete : io → string → mgr → result mgr_error unit * mgr;
  op_get : string → mgr → result mgr_error C }.

(** What the manager promises to the handlers. *)
Class StoreOpsLaws (C : Type) `{!StoreOps C} `{!Configurer C} := {
  create_law i c m r m' : wf m → op_create i c m = (r, m') → conf_name c ≠ "" →
    wf m' ∧ match r with
            | Ok c' => c' = c ∧ op_get (conf_name c) m' = Ok c ∧ ∀ i', op_create i' c m' = (Err ErrConflict, m')
            | Err _ => same m m'
            end;
  update_law i n c m r m' : wf m → op_update i n c m = (r, m') →
    wf m' ∧ match r with Ok c' => c' = c ∧ op_get n m' = Ok c ∧ ∃ c0, op_get n m = Ok c0 | Err _ => same m m' end;
  delete_law i n m r m' : wf m → op_delete i n m = (r, m') →
    wf m' ∧ match r with Ok _ => op_get n m' = Err ErrNotFound ∧ ∃ c0 : C, op_get n m = Ok c0 | Err _ => same m m' end }.

#[global] Instance proxy_StoreOps : StoreOps proxy_conf := {
  op_create := CreateStoreProxy IsQualifiedName encode; op_update := UpdateStoreProxy IsQualifiedName encode;
  op_delete := DeleteStoreProxy encode; op_get := GetStoreProxy }.
#[global] Instance visitor_StoreOps : StoreOps VisitorConfigurer := {
  op_create := CreateStoreVisitor encode; op_update := UpdateStoreVisitor encode;
  op_delete := DeleteStoreVisitor encode; op_get := GetStoreVisitor }.

(** The routes of the API. *)
Definition api_CreateStoreProxy (i : io) : body ProxyDefinition → mgr → reply ProxyDefinition * mgr := create_handler (op_create i).
Definition api_UpdateStoreProxy (i : io) : string → body ProxyDefinition → mgr → reply ProxyDefinition * mgr := update_handler (op_update i).
Definition api_DeleteStoreProxy (i : io) : string → mgr → reply ProxyDefinition * mgr :=
  delete_handler (op_delete (StoreOps := proxy_StoreOps) i).
Definition api_GetStoreProxy : string → mgr → reply ProxyDefinition := get_handler op_get.
Definition api_ListStoreProxies : mgr → reply ProxyDefinition := list_handler s_proxies.
Definition api_GetProxyConfig (running : string → option proxy_conf) : string → mgr → reply ProxyDefinition := config_handler running s_proxies.
Definition api_CreateStoreVisitor (i : io) : body VisitorDefinition → mgr → reply VisitorDefinition * mgr := create_handler (op_create i).
Definition api_UpdateStoreVisitor (i : io) : string → body VisitorDefinition → mgr → reply VisitorDefinition * mgr := update_handler (op_update i).
Definition api_DeleteStoreVisitor (i : io) : string → mgr → reply VisitorDefinition * mgr :=
  delete_handler (op_delete (StoreOps := visitor_StoreOps) i).
Definition api_GetStoreVisitor : string → mgr → reply VisitorDefinition := get_handler op_get.
Definition api_ListStoreVisitors : mgr → reply VisitorDefinition := list_handler s_visitors.
Definition api_GetVisitorConfig (running : string → option VisitorConfigurer) : string → mgr → reply VisitorDefinition := config_handler running s_visitors.

(** A change of the store that has gone through leaves the intended maps. *)
Lemma changed_store wrap i o (m m' : mgr) : wf m → withStoreMutationAndReload encode wrap i o m = (Ok tt, m') →
  ∃ s f f', g_store m = Some (s, f) ∧ allowed o s ∧ g_store m' = Some (intended o s, f').
Proof.
  intros Hwf E. destruct (store_change encode wrap i o m _ m' (wf_live _ _ Hwf) E) as [(e & ? & _)|(_ & s & f & f' & H1 & H2 & H3 & _)]; [done|].
  by exists s, f, f'.
Qed.

Lemma proxy_changed wrap i o (c c' : proxy_conf) (m m' : mgr) : wf m → o = OAddProxy c ∨ o = OUpdateProxy c →
  withStoreProxyMutationAndReload encode wrap i o (conf_name c) m = (Ok c', m') →
  ∃ s f f', g_store m = Some (s, f) ∧ allowed o s ∧ g_store m' = Some (intended o s, f').
Proof.
  intros Hwf Ho. unfold withStoreProxyMutationAndReload. destruct (withStoreMutationAndReload _ _ _ _ _) as [[[]|e] m1] eqn:E; [|done].
  intros [= _ <-]. by eapply changed_store.
Qed.
Lemma visitor_changed wrap i o (c c' : VisitorConfigurer) (m m' : mgr) : wf m → o = OAddVisitor c ∨ o = OUpdateVisitor c →
  withStoreVisitorMutationAndReload encode wrap i o (conf_name c) m = (Ok c', m') →
  ∃ s f f', g_store m = Some (s, f) ∧ allowed o s ∧ g_store m' = Some (intended o s, f').
Proof.
  intros Hwf Ho. unfold withStoreVisitorMutationAndReload. destruct (withStoreMutationAndReload _ _ _ _ _) as [[[]|e] m1] eqn:E; [|done].
  intros [= _ <-]. by eapply changed_store.
Qed.

Lemma proxy_conflict i (c c0 : proxy_conf) (m : mgr) s f : g_store m = Some (s, f) → s_proxies s !! conf_name c = Some c0 → conf_name c ≠ "" →
  withStoreProxyMutationAndReload encode wrap_add i (OAddProxy c) (conf_name c) m = (Err ErrConflict, m).
Proof.
  intros Hs Hg Hn. unfold withStoreProxyMutationAndReload, withStoreMutationAndReload. rewrite Hs. unfold run_sop, AddProxy.
  rewrite (proj2 (seqb_false _ _) Hn), Hg. f_equal. destruct m. simpl in *. by subst.
Qed.

Lemma visitor_conflict i (c c0 : VisitorConfigurer) (m : mgr) s f : g_store m = Some (s, f) → s_visitors s !! conf_name c = Some c0 → conf_name c ≠ "" →
  withStoreVisitorMutationAndReload encode wrap_add i (OAddVisitor c) (conf_name c) m = (Err ErrConflict, m).
Proof.
  intros Hs Hg Hn. unfold withStoreVisitorMutationAndReload, withStoreMutationAndReload. rewrite Hs. unfold run_sop, AddVisitor.
  rewrite (proj2 (seqb_false _ _) Hn), Hg. f_equal. destruct m. simpl in *. by subst.
Qed.

#[global] Instance proxy_StoreOpsLaws : StoreOpsLaws proxy_conf.
Proof.
  split.
  - intros i c m r m' Hwf E Hn. unfold op_create, proxy_StoreOps, CreateStoreProxy in *. destruct (validateStoreProxyConfigurer IsQualifiedName c) eqn:V; cbn [negb] in *;
      [|injection E as <- <-; split; [done|apply same_refl]].
    destruct (proxy_change _ _ _ _ _ c m r m' Hwf (or_introl eq_refl) V E) as [W H]. split; [done|]. destruct r as [c'|e]; [|done].
    destruct (proxy_changed _ _ _ c c' m m' Hwf (or_introl eq_refl) E) as (s & f & f' & Hs & Ha & Hs'). destruct H as [-> Hg]. split; [done|].
    unfold op_get, GetStoreProxy. rewrite (proj2 (seqb_false _ _) Hn), Hs'. unfold store_of in Hg. rewrite Hs' in Hg. change (GetProxy (conf_name c) (intended (OAddProxy c) s) = Some c) in Hg. cbn [fst]. rewrite Hg.
    split; [done|]. intros i'. by eapply proxy_conflict.
  - intros i n c m r m' Hwf E. unfold op_update, proxy_StoreOps, UpdateStoreProxy in *.
    destruct (seqb_spec n "") as [->|Hn]; [injection E as <- <-; split; [done|apply same_refl]|].
    destruct (seqb_spec (conf_name c) n) as [<-|Hne]; cbn [negb] in *; [|injection E as <- <-; split; [done|apply same_refl]].
    destruct (validateStoreProxyConfigurer IsQualifiedName c) eqn:V; cbn [negb] in *; [|injection E as <- <-; split; [done|apply same_refl]].
    destruct (proxy_change _ _ _ _ _ c m r m' Hwf (or_intror eq_refl) V E) as [W H]. split; [done|]. destruct r as [c'|e]; [|done].
    destruct (proxy_changed _ _ _ c c' m m' Hwf (or_intror eq_refl) E) as (s & f & f' & Hs & [_ [c0 Ha]] & Hs'). destruct H as [-> Hg]. split; [done|].
    unfold op_get, GetStoreProxy. rewrite (proj2 (seqb_false _ _) Hn), Hs', Hs. unfold store_of in Hg. rewrite Hs' in Hg. change (GetProxy (conf_name c) (intended (OUpdateProxy c) s) = Some c) in Hg. cbn [fst]. rewrite Hg.
    split; [done|]. exists c0. unfold GetProxy. by rewrite Ha.
  - intros i n m r m' Hwf E. unfold op_delete, proxy_StoreOps, DeleteStoreProxy in *.
    destruct (seqb_spec n "") as [->|Hn]; [injection E as <- <-; split; [done|apply same_refl]|].
    destruct (store_change_wf IsQualifiedName encode _ i (ORemoveProxy n) m r m' Hwf I E) as [W H]. split; [done|]. destruct r as [[]|e]; [|by eapply H].
    destruct (changed_store _ _ _ m m' Hwf E) as (s & f & f' & Hs & [_ [c0 Ha]] & Hs').
    unfold op_get, GetStoreProxy. rewrite (proj2 (seqb_false _ _) Hn), Hs', Hs. cbn [fst]. unfold GetProxy. simpl. rewrite lookup_delete_eq, Ha. eauto.
Qed.

#[global] Instance visitor_StoreOpsLaws : StoreOpsLaws VisitorConfigurer.
Proof.
  split.
  - intros i c m r m' Hwf E Hn. unfold op_create, visitor_StoreOps, CreateStoreVisitor in *. destruct (validateStoreVisitorConfigurer c) eqn:V; cbn [negb] in *;
      [|injection E as <- <-; split; [done|apply same_refl]].
    destruct (visitor_change _ _ _ _ _ c m r m' Hwf (or_introl eq_refl) V E) as [W H]. split; [done|]. destruct r as [c'|e]; [|done].
    destruct (visitor_changed _ _ _ c c' m m' Hwf (or_introl eq_refl) E) as (s & f & f' & Hs & Ha & Hs'). destruct H as [-> Hg]. split; [done|].
    unfold op_get, GetStoreVisitor. rewrite (proj2 (seqb_false _ _) Hn), Hs'. unfold store_of in Hg. rewrite Hs' in Hg. change (GetVisitor (conf_name c) (intended (OAddVisitor c) s) = Some c) in Hg. cbn [fst]. rewrite Hg.
    split; [done|]. intros i'. by eapply visitor_conflict.
  - intros i n c m r m' Hwf E. unfold op_update, visitor_StoreOps, UpdateStoreVisitor in *.
    destruct (seqb_spec n "") as [->|Hn]; [injection E as <- <-; split; [done|apply same_refl]|].
    destruct (seqb_spec (conf_name c) n) as [<-|Hne]; cbn [negb] in *; [|injection E as <- <-; split; [done|apply same_refl]].
    destruct (validateStoreVisitorConfigurer c) eqn:V; cbn [negb] in *; [|injection E as <- <-; split; [done|apply same_refl]].
    destruct (visitor_change _ _ _ _ _ c m r m' Hwf (or_intror eq_refl) V E) as [W H]. split; [done|]. destruct r as [c'|e]; [|done].
    destruct (visitor_changed _ _ _ c c' m m' Hwf (or_intror eq_refl) E) as (s & f & f' & Hs & [_ [c0 Ha]] & Hs'). destruct H as [-> Hg]. split; [done|].
    unfold op_get, GetStoreVisitor. rewrite (proj2 (seqb_false _ _) Hn), Hs', Hs. unfold store_of in Hg. rewrite Hs' in Hg. change (GetVisitor (conf_name c) (intended (OUpdateVisitor c) s) = Some c) in Hg. cbn [fst]. rewrite Hg.
    split; [done|]. exists c0. unfold GetVisitor. by rewrite Ha.
  - intros i n m r m' Hwf E. unfold op_delete, visitor_StoreOps, DeleteStoreVisitor in *.
    destruct (seqb_spec n "") as [->|Hn]; [injection E as <- <-; split; [done|apply same_refl]|].
    destruct (store_change_wf IsQualifiedName encode _ i (ORemoveVisitor n) m r m' Hwf I E) as [W H]. split; [done|]. destruct r as [[]|e]; [|by eapply H].
    destruct (changed_store _ _ _ m m' Hwf E) as (s & f & f' & Hs & [_ [c0 Ha]] & Hs').
    unfold op_get, GetStoreVisitor. rewrite (proj2 (seqb_false _ _) Hn), Hs', Hs. cbn [fst]. unfold GetVisitor. simpl. rewrite lookup_delete_eq, Ha. eauto.
Qed.

(** ** What the handlers do *)

Section handlers.
Context {C D : Type} `{!ApiModel C D} `{!Configurer C} {typed : C → Prop} `{!ApiModelLaws C D typed} `{!StoreOps C} `{!StoreOpsLaws C}.

(** The requests that change the store. *)
Inductive request := RCreate (i : io) (b : body D) | RUpdate (i : io) (name : string) (b : body D) | RDelete (i : io) (name : string).

Definition handle_request (q : request) (m : mgr) : reply D * mgr :=
  match q with
  | RCreate i b => create_handler (op_create i) b m
  | RUpdate i name b => update_handler (op_update i) name b m
  | RDelete i name => delete_handler (op_delete i) name m
  end.

Lemma error_code e : toHTTPError e ≠ 200%Z.
Proof. by destruct e. Qed.

Lemma TrimSpace_nonempty s : TrimSpace s ≠ "" → s ≠ "".
Proof. by intros H ->. Qed.

(** C21: the requests of the web API.  Over any operations of a store that keep their promises -
    those of proxies and those of visitors do - and from a state in which what runs is what the
    sources say: a request keeps that, and one that is not answered with 200 has changed
    nothing; a definition that was created or changed is answered with itself, can be read back,
    and cannot be created a second time; a change or a deletion of something that is not there
    is refused; and what was deleted is not found any more. *)
Theorem api_requests_served m q r m' :
  wf m → handle_request q m = (r, m') →
  wf m' ∧ (code r ≠ 200%Z → same m m') ∧
  (code r = 200%Z →
   match q with
   | RCreate i b => ∃ d c, b = Def d ∧ def_to d = Some c ∧ typed c ∧ conf_name c = def_name d ∧ r = mkReply 200 (One (def_from c)) ∧
       get_handler op_get (def_name d) m' = r ∧ ∀ i', handle_request (RCreate i' b) m' = (refuse 409, m')
   | RUpdate i name b => ∃ d c, b = Def d ∧ def_to d = Some c ∧ def_name d = name ∧ r = mkReply 200 (One (def_from c)) ∧
       get_handler op_get name m' = r ∧ code (get_handler (D := D) op_get name m) = 200%Z
   | RDelete i name => code (get_handler (D := D) op_get name m) = 200%Z ∧ get_handler (D := D) op_get name m' = refuse 404
   end).
Proof.
  intros Hwf. assert (∀ c, (refuse c : reply D, m) = (r, m') → c ≠ 200%Z →
    wf m' ∧ (code r ≠ 200%Z → same m m') ∧ code r ≠ 200%Z) as Href by (intros c [= <- <-] Hc; split_and!; auto using same_refl).
  destruct q as [i b|i name b|i name]; cbn [handle_request].
  - unfold create_handler. destruct b as [| |d]; [intros H%Href; [naive_solver|done]..|].
    destruct (def_valid "" false d) eqn:V; cbn [negb]; [|intros H%Href; [naive_solver|done]].
    destruct (def_valid_to _ _ _ V) as (c & Hc & Ht & Hn & Htrim & _). rewrite Hc.
    apply TrimSpace_nonempty in Htrim. rewrite <- Hn in Htrim.
    destruct (op_create i c m) as [rc m1] eqn:E. destruct (create_law i c m rc m1 Hwf E Htrim) as [W H].
    destruct rc as [c'|e]; intros [= <- <-]; (split; [done|]); cbn [code]; [|split; [done|by intros ?%error_code]]. split; [done|]. intros _.
    destruct H as (-> & Hg & Hcf). exists d, c. split_and!; try done.
    + unfold get_handler. by rewrite <- Hn, (proj2 (seqb_false _ _) Htrim), Hg.
    + intros i'. by rewrite Hcf.
  - unfold update_handler. destruct (name =s? "") eqn:En; [intros H%Href; [naive_solver|done]|].
    destruct b as [| |d]; [intros H%Href; [naive_solver|done]..|].
    destruct (def_valid name true d) eqn:V; cbn [negb]; [|intros H%Href; [naive_solver|done]].
    destruct (def_valid_to _ _ _ V) as (c & Hc & Ht & Hn & _ & Hpath). rewrite Hc.
    destruct (op_update i name c m) as [rc m1] eqn:E. destruct (update_law i name c m rc m1 Hwf E) as [W H].
    destruct rc as [c'|e]; intros [= <- <-]; (split; [done|]); cbn [code]; [|split; [done|by intros ?%error_code]]. split; [done|]. intros _.
    destruct H as (-> & Hg & c0 & Hg0). exists d, c. split_and!; try done.
    + apply seqb_false in En. by apply Hpath.
    + unfold get_handler. by rewrite En, Hg.
    + unfold get_handler. by rewrite En, Hg0.
  - unfold delete_handler. destruct (name =s? "") eqn:En; [intros H%Href; [naive_solver|done]|].
    destruct (op_delete i name m) as [rc m1] eqn:E. destruct (delete_law i name m rc m1 Hwf E) as [W H].
    destruct rc as [[]|e]; intros [= <- <-]; (split; [done|]); cbn [code]; [|split; [done|by intros ?%error_code]]. split; [done|]. intros _.
    destruct H as (Hg & c0 & Hg0). unfold get_handler. by rewrite En, Hg, Hg0.
Qed.

(** The list is sorted by name and holds what is stored. *)
Lemma list_handler_spec (stored : baseSource → gmap string C) (m : mgr) s f : g_store m = Some (s, f) → keyed (stored s) →
  ∃ l, list_handler (D := D) stored m = mkReply 200 (Many l) ∧ Sorted by_def_name l ∧
    ∀ d, d ∈ l ↔ ∃ c, d = def_from c ∧ stored s !! conf_name c = Some c.
Proof.
  intros Hs Hk. unfold list_handler. rewrite Hs. eexists. split; [done|]. split.
  - apply Sorted_merge_sort. intros x y. unfold by_def_name. apply (total String.le).
  - intros d. rewrite merge_sort_Permutation, list_elem_of_fmap. setoid_rewrite elem_of_values; [|done]. done.
Qed.
End handlers.
(** ** Files, reloads and the status *)

Variable load : string → bool → result load_error ClientConfigLoadResult.
Variable check_common : ClientCommonConfig → bool.

Definition Reload (strictConfig : option bool) (m : mgr) : Z * mgr :=
  match ReloadFromFile IsQualifiedName load check_common (default false strictConfig) m with
  | (Err e, m) => (toHTTPError e, m)
  | (Ok _, m) => (200%Z, m)
  end.

(** [GetConfig] and [PutConfig]; [None] for a file that cannot be read, [write] whether it can
    be written. *)
Definition ReadConfigFile (m : mgr) (file : option string) : result mgr_error string :=
  if g_path m =s? "" then Err ErrInvalidArgument else match file with None => Err ErrInvalidArgument | Some c => Ok c end.
Definition GetConfig (m : mgr) (file : option string) : Z * string :=
  match ReadConfigFile m file with Err e => (toHTTPError e, "") | Ok c => (200%Z, c) end.

Definition WriteConfigFile (content : string) (write : bool) (file : option string) : result mgr_error unit * option string :=
  if content =s? "" then (Err ErrInvalidArgument, file) else if write then (Ok tt, Some content) else (Err Internal, file).
Definition PutConfig (sent : option string) (write : bool) (file : option string) : Z * option string :=
  match sent with
  | None => (400%Z, file)
  | Some b =>
      if b =s? "" then (400%Z, file) else
      match WriteConfigFile b write file with (Err e, f) => (toHTTPError e, f) | (Ok _, f) => (200%Z, f) end
  end.

Lemma config_file_roundtrip content file (m : mgr) : content ≠ "" → g_path m ≠ "" →
  PutConfig (Some content) true file = (200%Z, Some content) ∧ GetConfig m (Some content) = (200%Z, content).
Proof.
  intros Hc Hp. unfold PutConfig, WriteConfigFile, GetConfig, ReadConfigFile.
  by rewrite !(proj2 (seqb_false _ _)) by done.
Qed.

Record WorkingStatus := mkStatus {
  ws_Name : string; ws_Type : string; ws_Phase : string; ws_Err : string; ws_Cfg : proxy_conf; ws_RemoteAddr : string }.
Record ProxyStatusResp := mkStatusResp {
  sr_Name : string; sr_Type : string; sr_Status : string; sr_Err : string; sr_LocalAddr : string; sr_Plugin : string;
  sr_RemoteAddr : string; sr_Source : string }.

Definition buildProxyStatusResp (serverAddr : string) (m : mgr) (w : WorkingStatus) : ProxyStatusResp :=
  let b := Backend (GetBaseConfig (ws_Cfg w)) in
  mkStatusResp (ws_Name w) (ws_Type w) (ws_Phase w) (ws_Err w)
    (if (LocalPort b =? 0)%Z then "" else JoinHostPort (LocalIP b) (Itoa (LocalPort b)))
    (match Plugin b with Some p => cp_Type p | None => "" end)
    (if ws_Err w =s? "" then (if contains ["tcp"; "udp"] (ws_Type w) then serverAddr +:+ ws_RemoteAddr w else ws_RemoteAddr w) else "")
    (if IsStoreProxyEnabled (ws_Name w) m then "store" else "").

Definition by_resp_name (x y : ProxyStatusResp) : Prop := (sr_Name x ≤ sr_Name y)%string.
#[global] Instance by_resp_name_dec : RelDecision by_resp_name.
Proof. intros x y. unfold by_resp_name. apply _. Defined.

(** [Status]: the proxies by type, those of a type sorted by name. *)
Definition by_type (l : list ProxyStatusResp) : gmap string (list ProxyStatusResp) :=
  foldl (λ res r, <[sr_Type r := default [] (res !! sr_Type r) ++ [r]]> res) ∅ l.
Definition Status (serverAddr : string) (m : mgr) (ps : list WorkingStatus) : gmap string (list ProxyStatusResp) :=
  (λ arrs, merge_sort by_resp_name arrs) <$> by_type (buildProxyStatusResp serverAddr m <$> ps).

Lemma by_type_lookup l t : by_type l !! t = match filter (λ r, sr_Type r = t) l with [] => None | x => Some x end.
Proof.
  unfold by_type. induction l as [|r l IH] using rev_ind; [done|]. rewrite foldl_app, filter_app, filter_cons. cbn [foldl]. rewrite filter_nil.
  case_decide as Ht; [subst t; rewrite lookup_insert_eq, IH|rewrite lookup_insert_ne by done; rewrite IH; by rewrite app_nil_r].
  by destruct (filter _ l).
Qed.

(** Every proxy is listed once, under its type, and the list of a type is sorted. *)
Lemma Status_spec serverAddr m ps t :
  match Status serverAddr m ps !! t with
  | None => ∀ w, w ∈ ps → ws_Type w ≠ t
  | Some l => Sorted by_resp_name l ∧ l ≡ₚ filter (λ r, sr_Type r = t) (buildProxyStatusResp serverAddr m <$> ps) ∧ l ≠ []
  end.
Proof.
  unfold Status. rewrite lookup_fmap, by_type_lookup.
  destruct (filter (λ r, sr_Type r = t) (buildProxyStatusResp serverAddr m <$> ps)) as [|r l] eqn:E; simpl.
  - intros w Hw Ht. assert (buildProxyStatusResp serverAddr m w ∈ filter (λ r, sr_Type r = t) (buildProxyStatusResp serverAddr m <$> ps)) as H.
    { apply list_elem_of_filter. split; [done|]. by apply list_elem_of_fmap_2. }
    rewrite E in H. by apply not_elem_of_nil in H.
  - split_and!; [apply Sorted_merge_sort; intros x y; unfold by_resp_name; apply (total String.le)|apply merge_sort_Permutation|].
    intros H. pose proof (merge_sort_Permutation by_resp_name (r :: l)) as Hp. rewrite H in Hp. by apply Permutation_nil_cons in Hp.
Qed.
End api.

(** ** Witness: a proxy is created over the API *)

Definition w_def : ProxyDefinition := pd_FromConfigurer (w_store_proxy "web").
Definition w_created : reply ProxyDefinition * mgr (bytes := nat) :=
  create_handler (CreateStoreProxy (λ _, []) w_encode w_io) (Def w_def) w_mgr.

Lemma api_requests_served_witness :
  code w_created.1 = 200%Z ∧ get_handler GetStoreProxy "web" w_created.2 = w_created.1.
Proof.
  assert (code w_created.1 = 200%Z) as Hc by (vm_compute; reflexivity). split; [done|].
  destruct w_created as [r m'] eqn:E.
  destruct (api_requests_served (λ _, []) (C := proxy_conf) (D := ProxyDefinition) (typed := well_typed)
    (StoreOps0 := proxy_StoreOps (λ _, []) w_encode) (StoreOpsLaws0 := proxy_StoreOpsLaws (λ _, []) w_encode)
    w_mgr (RCreate w_io (Def w_def)) r m' w_mgr_wf E) as (_ & _ & H).
  destruct (H Hc) as (d & c & Hd & _ & _ & _ & _ & Hg & _). by injection Hd as <-.
Defined.
