(* ===== verification/ServerApi.v ===== *)
(** The web API of the server: [src/server/http/controller.go] over the registry of clients, the
    statistics and the table of proxies. *)
From Stdlib Require Import ZArith Lia Ascii String Sorted.
From stdpp Require Import base gmap strings list sorting fin_maps.
From S2P Require Import Prelude GoStrings ProxyConf Registry Metrics.
Local Open Scope string_scope.
Local Open Scope list_scope.

(** ** Clients *)

(** [t.Unix()] of a time in nanoseconds. *)
Definition Unix (t : time) : Z := (t / 1000000000)%Z.
Definition toUnix (t : time) : Z := if IsZero t then 0%Z else Unix t.

Record ClientInfoResp := mkClientResp {
  cr_Key : string; cr_User : string; cr_ClientID : string; cr_RunID : string; cr_Version : string; cr_Hostname : string;
  cr_ClientIP : string; cr_FirstConnectedAt : Z; cr_LastConnectedAt : Z; cr_DisconnectedAt : Z; cr_Online : bool }.

Definition buildClientInfoResp (info : ClientInfo) : ClientInfoResp :=
  mkClientResp (Key info) (User info) (ClientID info) (RunID info) (Version info) (Hostname info) (IP info)
    (toUnix (FirstConnectedAt info)) (toUnix (LastConnectedAt info))
    (if IsZero (DisconnectedAt info) then 0%Z else Unix (DisconnectedAt info)) (Online info).

Definition matchStatusFilter (online : bool) (filter : string) : bool :=
  let f := ToLower filter in
  if (f =s? "") || (f =s? "all") then true
  else if f =s? "online" then online
  else if f =s? "offline" then negb online
  else true.

(** The query of a list of clients. *)
Record client_query := mkQuery { q_user : string; q_clientId : string; q_runId : string; q_status : string }.

Definition matches (q : client_query) (info : ClientInfo) : bool :=
  negb (negb (q_user q =s? "") && negb (User info =s? q_user q)) &&
  negb (negb (q_clientId q =s? "") && negb (ClientID info =s? q_clientId q)) &&
  negb (negb (q_runId q =s? "") && negb (RunID info =s? q_runId q)) &&
  matchStatusFilter (Online info) (ToLower (q_status q)).

(** The order of the list: user, then client ID, then key. *)
Definition client_le (a b : ClientInfoResp) : Prop :=
  match String.compare (cr_User a) (cr_User b) with
  | Lt => True
  | Gt => False
  | Eq => match String.compare (cr_ClientID a) (cr_ClientID b) with
          | Lt => True
          | Gt => False
          | Eq => String.compare (cr_Key a) (cr_Key b) ≠ Gt
          end
  end.
#[global] Instance client_le_dec : RelDecision client_le.
Proof. intros a b. unfold client_le. repeat case_match; apply _. Defined.

(** Errors that are no [Error] of the package are answered with 500. *)
Definition APIClientList (registry : option ClientRegistry) (q : client_query) : result Z (list ClientInfoResp) :=
  match registry with
  | None => Err 500%Z
  | Some cr => Ok (merge_sort client_le (buildClientInfoResp <$> filter (λ i, matches q i = true) (List_ cr)))
  end.

Definition APIClientDetail (registry : option ClientRegistry) (key : string) : result Z ClientInfoResp :=
  if key =s? "" then Err 500%Z else
  match registry with
  | None => Err 500%Z
  | Some cr => match GetByKey cr key with Some info => Ok (buildClientInfoResp info) | None => Err 404%Z end
  end.

#[global] Instance client_le_total : Total client_le.
Proof.
  intros a b. unfold client_le.
  rewrite (String.compare_antisym (cr_User b) (cr_User a)), (String.compare_antisym (cr_ClientID b) (cr_ClientID a)), (String.compare_antisym (cr_Key b) (cr_Key a)).
  destruct (String.compare (cr_User a) (cr_User b)), (String.compare (cr_ClientID a) (cr_ClientID b)), (String.compare (cr_Key a) (cr_Key b)); simpl; auto.
Qed.

(** What a query asks for. *)
Definition wanted (q : client_query) (info : ClientInfo) : Prop :=
  (q_user q = "" ∨ User info = q_user q) ∧ (q_clientId q = "" ∨ ClientID info = q_clientId q) ∧
  (q_runId q = "" ∨ RunID info = q_runId q) ∧
  (ToLower (q_status q) = "online" → Online info = true) ∧ (ToLower (q_status q) = "offline" → Online info = false).

Lemma matches_spec q info : matches q info = true ↔ wanted q info.
Proof.
  unfold matches, wanted, matchStatusFilter. rewrite ToLower_idem, !andb_true_iff, !negb_true_iff, !andb_false_iff, !negb_false_iff, !seqb_true.
  assert ((if (ToLower (q_status q) =s? "") || (ToLower (q_status q) =s? "all") then true
           else if ToLower (q_status q) =s? "online" then Online info
           else if ToLower (q_status q) =s? "offline" then negb (Online info) else true) = true ↔
    (ToLower (q_status q) = "online" → Online info = true) ∧ (ToLower (q_status q) = "offline" → Online info = false)) as ->.
  { destruct (seqb_spec (ToLower (q_status q)) ""), (seqb_spec (ToLower (q_status q)) "all"), (seqb_spec (ToLower (q_status q)) "online"),
      (seqb_spec (ToLower (q_status q)) "offline"); simpl; destruct (Online info); simpl;
      (split; [intros H; split; intros H'; congruence|intros [H1 H2]; first [done|by specialize (H1 ltac:(assumption))|by specialize (H2 ltac:(assumption))]]). }
  tauto.
Qed.

(** The list holds the registered clients that the query asks for, each once, sorted; and each
    of them has its page. *)
Lemma APIClientList_spec cr q : Registry.wf cr →
  ∃ l, APIClientList (Some cr) q = Ok l ∧ Sorted client_le l ∧ NoDup (cr_Key <$> l) ∧
    ∀ r, r ∈ l ↔ ∃ k info, clients cr !! k = Some info ∧ wanted q info ∧ r = buildClientInfoResp info ∧ cr_Key r = k.
Proof.
  intros Hwf. eexists. split; [done|]. split_and!; [apply Sorted_merge_sort, _| |].
  - rewrite merge_sort_Permutation, <- list_fmap_compose.
    assert (NoDup (Key <$> List_ cr)) as Hn.
    { unfold List_. rewrite <- list_fmap_compose. rewrite (list_fmap_ext _ fst); [apply NoDup_fst_map_to_list|].
      intros i [k info] Hi. simpl. apply list_elem_of_lookup_2, elem_of_map_to_list in Hi. by apply (wf_key _ Hwf). }
    change (cr_Key ∘ buildClientInfoResp) with Key. by apply NoDup_fmap_filter.
  - intros r. rewrite merge_sort_Permutation, list_elem_of_fmap. split.
    + intros (info & -> & [Hm Hi]%list_elem_of_filter). unfold List_ in Hi. apply list_elem_of_fmap in Hi as ([k i] & -> & Hk%elem_of_map_to_list).
      exists k, i. simpl. split_and!; [done|by apply matches_spec|done|]. by apply (wf_key _ Hwf).
    + intros (k & info & Hk & Hw & -> & _). exists info. split; [done|]. apply list_elem_of_filter. split; [by apply matches_spec|].
      unfold List_. apply list_elem_of_fmap. exists (k, info). split; [done|]. by apply elem_of_map_to_list.
Qed.

(** ** Configurations as they are shown *)

Section proxies.
Context {plugin : Type}.
Abbreviation conf := (ProxyConfigurer plugin).

Inductive OutConf :=
| TCPOutConf (b : ProxyBaseConfig plugin) (RemotePort : Z)
| UDPOutConf (b : ProxyBaseConfig plugin) (RemotePort : Z)
| HTTPOutConf (b : ProxyBaseConfig plugin) (d : DomainConfig) (Locations : list string) (HostHeaderRewrite : string)
| HTTPSOutConf (b : ProxyBaseConfig plugin) (d : DomainConfig)
| TCPMuxOutConf (b : ProxyBaseConfig plugin) (d : DomainConfig) (Multiplexer RouteByHTTPUser : string)
| STCPOutConf (b : ProxyBaseConfig plugin)
| XTCPOutConf (b : ProxyBaseConfig plugin)
| BaseOutConf (b : ProxyBaseConfig plugin).

Definition getConfFromConfigurer (c : conf) : OutConf :=
  match c with
  | TCPProxyConfig b p => TCPOutConf b p
  | UDPProxyConfig b p => UDPOutConf b p
  | HTTPProxyConfig b d h => HTTPOutConf b d (Locations h) (HostHeaderRewrite h)
  | HTTPSProxyConfig b d => HTTPSOutConf b d
  | TCPMuxProxyConfig b d t => TCPMuxOutConf b d (Multiplexer t) (tf_RouteByHTTPUser t)
  | STCPProxyConfig b _ _ => STCPOutConf b
  | XTCPProxyConfig b _ _ _ => XTCPOutConf b
  | SUDPProxyConfig b _ _ => BaseOutConf b
  end.

(** The secrets of a proxy: users and passwords, secret keys and the headers set on requests. *)
Definition without_secrets (c : conf) : conf :=
  match c with
  | HTTPProxyConfig b d h => HTTPProxyConfig b d (mkHTTPFields (Locations h) "" "" (HostHeaderRewrite h) ∅ ∅ "")
  | TCPMuxProxyConfig b d t => TCPMuxProxyConfig b d (mkTCPMuxFields "" "" (tf_RouteByHTTPUser t) (Multiplexer t))
  | STCPProxyConfig b _ _ => STCPProxyConfig b "" []
  | XTCPProxyConfig b _ _ n => XTCPProxyConfig b "" [] n
  | SUDPProxyConfig b _ _ => SUDPProxyConfig b "" []
  | _ => c
  end.

(** ** Proxies and their statistics *)

(** The clock of the statistics, as in Metrics. *)
Variable midnight : time → time.
Variable Format : time → string.

Record ProxyStatsInfo := mkInfo {
  pi_Name : string; pi_User : string; pi_ClientID : string; pi_Conf : option OutConf; pi_TodayTrafficIn : Z; pi_TodayTrafficOut : Z;
  pi_CurConns : Z; pi_LastStartTime : string; pi_LastCloseTime : string; pi_Status : string }.

(** The table of running proxies, by name, with their configurations. *)
Abbreviation table := (gmap string conf).

Definition proxy_info (pm : table) (ps : ProxyStats) : ProxyStatsInfo :=
  mkInfo (px_Name ps) (px_User ps) (px_ClientID ps) (getConfFromConfigurer <$> pm !! px_Name ps) (px_TodayTrafficIn ps) (px_TodayTrafficOut ps)
    (px_CurConns ps) (px_LastStartTime ps) (px_LastCloseTime ps) (if pm !! px_Name ps then "online" else "offline").

Definition by_info_name (x y : ProxyStatsInfo) : Prop := (pi_Name x ≤ pi_Name y)%string.
#[global] Instance by_info_name_dec : RelDecision by_info_name.
Proof. intros x y. unfold by_info_name. apply _. Defined.

(** [None] is a panic of the statistics. *)
Definition getProxyStatsByType (now : time) (pm : table) (proxyType : string) (m : ServerStatistics)
    : option (list ProxyStatsInfo) * ServerStatistics :=
  let '(l, m) := GetProxiesByType midnight Format now proxyType m in
  (mapM (λ ps, proxy_info pm <$> ps) l, m).

Definition APIProxyByType (now : time) (pm : table) (proxyType : string) (m : ServerStatistics)
    : option (list ProxyStatsInfo) * ServerStatistics :=
  let '(l, m) := getProxyStatsByType now pm proxyType m in (merge_sort by_info_name <$> l, m).

Definition getProxyStatsByTypeAndName (now : time) (pm : table) (proxyType proxyName : string) (m : ServerStatistics)
    : result Z ProxyStatsInfo * ServerStatistics :=
  let '(ps, m) := GetProxiesByTypeAndName midnight Format now proxyType proxyName m in
  (match ps with None => Err 404%Z | Some ps => Ok (proxy_info pm ps) end, m).

Definition APIProxyByName (now : time) (pm : table) (name : string) (m : ServerStatistics) : result Z ProxyStatsInfo * ServerStatistics :=
  let '(ps, m) := GetProxyByName midnight Format now name m in
  (match ps with None => Err 404%Z | Some ps => Ok (proxy_info pm ps) end, m).

Definition APIProxyTraffic (now : time) (name : string) (m : ServerStatistics) : result Z ProxyTrafficInfo * ServerStatistics :=
  let '(t, m) := GetProxyTraffic midnight now name m in
  (match t with None => Err 404%Z | Some t => Ok t end, m).

Definition DeleteProxies (now : time) (status : string) (m : ServerStatistics) : Z * ServerStatistics :=
  if negb (status =s? "offline") then (400%Z, m) else (200%Z, snd (ClearOfflineProxies now m)).

Lemma shown_without_secrets c : getConfFromConfigurer (without_secrets c) = getConfFromConfigurer c.
Proof. by destruct c. Qed.

Lemma info_without_secrets pm ps : proxy_info (without_secrets <$> pm) ps = proxy_info pm ps.
Proof.
  unfold proxy_info. rewrite lookup_fmap. destruct (pm !! px_Name ps) as [c|]; simpl; [|done]. by rewrite shown_without_secrets.
Qed.

(** The web API of the server tells no secrets.  Whatever proxies run and whatever is asked,
    the answers are those for the proxies without their passwords, HTTP users, secret keys,
    allowed users and headers; only the deletion of the statistics of offline proxies changes
    which proxies have statistics, and it takes away only entries that ended after they last
    began. *)
Theorem api_tells_no_secrets now pm t name m :
  APIProxyByType now pm t m = APIProxyByType now (without_secrets <$> pm) t m ∧
  getProxyStatsByTypeAndName now pm t name m = getProxyStatsByTypeAndName now (without_secrets <$> pm) t name m ∧
  APIProxyByName now pm name m = APIProxyByName now (without_secrets <$> pm) name m ∧
  Forall (λ m', dom (ProxyStats_ m') = dom (ProxyStats_ m))
    [snd (APIProxyByType now pm t m); snd (getProxyStatsByTypeAndName now pm t name m); snd (APIProxyByName now pm name m);
     snd (APIProxyTraffic now name m)] ∧
  ∀ status n p, ProxyStats_ m !! n = Some p →
    ProxyStats_ (snd (DeleteProxies now status m)) !! n = None → status = "offline" ∧ (ps_LastStartTime p < ps_LastCloseTime p)%Z.
Proof.
  split_and!.
  - unfold APIProxyByType, getProxyStatsByType. destruct (GetProxiesByType _ _ _ _ _) as [l m']. f_equal. f_equal.
    apply list.mapM_ext. intros [ps|]; simpl; [|done]. by rewrite info_without_secrets.
  - unfold getProxyStatsByTypeAndName. destruct (GetProxiesByTypeAndName _ _ _ _ _ _) as [[ps|] m']; [|done]. by rewrite info_without_secrets.
  - unfold APIProxyByName. destruct (GetProxyByName _ _ _ _ _) as [[ps|] m']; [|done]. by rewrite info_without_secrets.
  - unfold APIProxyByType, getProxyStatsByType, getProxyStatsByTypeAndName, APIProxyByName, APIProxyTraffic,
      GetProxiesByType, GetProxiesByTypeAndName, GetProxyByName, GetProxyTraffic.
    repeat constructor; repeat case_match; simplify_eq/=; rewrite ?dom_fmap_L, ?dom_alter_L; done.
  - intros status n p Hp. unfold DeleteProxies. destruct (seqb_spec status "offline") as [->|]; simpl; [|congruence].
    intros Hf. split; [done|]. destruct (useless now 0 p) eqn:U.
    + unfold useless in U. rewrite !andb_true_iff in U. destruct U as [[_ U] _]. by apply Z.ltb_lt.
    + rewrite map_lookup_filter_None in Hf. destruct Hf as [Hf|Hf]; [congruence|]. by destruct (Hf p Hp).
Qed.
End proxies.
