(* ===== verification/ClientPlugins.v ===== *)
(** The plugins of the client, [src/pkg/plugin/client]: their registry and listener
    ([plugin.go]), the HTTP proxy with its check of users ([http_proxy.go]), the plugins that
    rewrite requests ([http2http.go], [http2https.go], [https2http.go], [https2https.go]), and
    those that join connections ([unix_domain_socket.go], [tls2raw.go], [socks5.go],
    [virtual_net.go]). *)
From Stdlib Require Import ZArith Lia Ascii String.
From stdpp Require Import base strings list gmap sets.
From S2P Require Import Prelude GoStrings PluginConf Nathole HttpAuth.
Local Open Scope string_scope.
Local Open Scope list_scope.

(** ** The listener between [Handle] and a server *)

Module PluginListener.
Section listener.
Context {Conn : Type}.

(** [conns] is the buffer of the channel; [waiting] are the connections whose [PutConn] is
    blocked on the full channel; [accepted] went to the server, and [lost] are those whose
    [PutConn] failed: nobody uses or closes them any more. *)
Record t := mk { conns : list Conn; waiting : list Conn; closed : bool; accepted : list Conn; lost : list Conn }.

Definition NewProxyListener : t := mk [] [] false [] [].
Definition capacity : nat := 64.

Definition PutConn (c : Conn) (l : t) : t :=
  if closed l then mk (conns l) (waiting l) true (accepted l) (lost l ++ [c])
  else if (length (conns l) <? capacity)%nat then mk (conns l ++ [c]) (waiting l) false (accepted l) (lost l)
  else mk (conns l) (waiting l ++ [c]) false (accepted l) (lost l).

(** A receive lets the first blocked sender in. *)
Definition Accept (l : t) : t :=
  match conns l with
  | [] => l
  | c :: cs =>
      match waiting l with
      | [] => mk cs [] (closed l) (accepted l ++ [c]) (lost l)
      | w :: ws => mk (cs ++ [w]) ws (closed l) (accepted l ++ [c]) (lost l)
      end
  end.

(** [close] makes the blocked senders panic, which [PutConn] turns into an error. *)
Definition Close (l : t) : t :=
  if closed l then l else mk (conns l) [] true (accepted l) (lost l ++ waiting l).

Inductive op := OPut (c : Conn) | OAccept | OClose.
Definition step (l : t) (o : op) : t := match o with OPut c => PutConn c l | OAccept => Accept l | OClose => Close l end.
Definition run (ops : list op) : t := foldl step NewProxyListener ops.

Definition puts (ops : list op) : list Conn := omap (λ o, match o with OPut c => Some c | _ => None end) ops.

(** What an operation puts in. *)
Definition put (o : op) : list Conn := match o with OPut c => [c] | _ => [] end.

Record listener_wf (l : t) : Prop := {
  lw_room : (length (conns l) <= capacity)%nat;
  lw_full : waiting l ≠ [] → length (conns l) = capacity ∧ closed l = false;
  lw_lost : closed l = false → lost l = [] }.

Lemma step_listener_wf l o : listener_wf l → listener_wf (step l o).
Proof.
  destruct l as [cs ws cl ac lo]. intros [Hr Hf Hl]. simpl in *. destruct o as [c| |]; simpl.
  - unfold PutConn. simpl. destruct cl; [by split|]. destruct (Nat.ltb_spec (length cs) capacity) as [Hlt|Hge]; split; simpl; auto.
    + rewrite length_app. simpl. lia.
    + intros H. destruct (Hf H). lia.
    + intros _. split; [lia|done].
  - unfold Accept. simpl. destruct cs as [|c cs]; [by split|]. destruct ws as [|w ws]; split; simpl in *; auto; try lia; try done.
    + rewrite length_app. simpl. lia.
    + intros _. destruct (Hf ltac:(done)). rewrite length_app. simpl. split; [lia|done].
  - unfold Close. simpl. destruct cl; split; simpl; auto; done.
Qed.

Lemma step_conserves l o : listener_wf l →
  accepted (step l o) ++ conns (step l o) ++ waiting (step l o) ++ lost (step l o) ≡ₚ
  (accepted l ++ conns l ++ waiting l ++ lost l) ++ put o.
Proof.
  destruct l as [cs ws cl ac lo]. intros [Hr Hf Hl]. simpl in *. destruct o as [c| |]; simpl.
  - unfold PutConn. simpl. destruct cl; [|destruct (length cs <? capacity)%nat]; simpl; rewrite <- ?app_assoc; [done| |]; simpl; solve_Permutation.
  - unfold Accept. simpl. destruct cs as [|c cs]; [by rewrite app_nil_r|]. destruct ws as [|w ws]; simpl; rewrite ?app_nil_r, <- ?app_assoc; done.
  - unfold Close. simpl. destruct cl; simpl; rewrite app_nil_r; [done|]. by rewrite (Permutation_app_comm lo).
Qed.

(** Every connection that is handed over is accepted, waits in the channel, blocks its handler
    or is lost, exactly one of these; while the listener is open none is lost, and connections
    block only while 64 others are waiting. *)
Lemma listener_conserves ops : let l := run ops in
  accepted l ++ conns l ++ waiting l ++ lost l ≡ₚ puts ops ∧ (closed l = false → lost l = []) ∧
  (length (conns l) <= capacity)%nat ∧ (waiting l ≠ [] → length (conns l) = capacity).
Proof.
  intros l. assert (listener_wf l ∧ accepted l ++ conns l ++ waiting l ++ lost l ≡ₚ puts ops) as [[Hr Hf Hl] Hc].
  { unfold l, run, puts. clear l. induction ops as [|o ops [IHw IHc]] using rev_ind; [split; [split; simpl; try done; unfold capacity; lia|done]|].
    rewrite foldl_app. cbn [foldl]. split; [by apply step_listener_wf|]. rewrite step_conserves by done. rewrite IHc, omap_app. by destruct o. }
  split_and!; auto. intros H. by apply Hf.
Qed.

(** A connection that is handed over after [Close], and those that were waiting then, are
    neither served nor closed. *)
Lemma closed_listener_loses (c : Conn) ops : let l := run (ops ++ [OClose; OPut c]) in c ∈ lost l.
Proof.
  unfold run. rewrite foldl_app. simpl. unfold PutConn, Close. destruct (closed (foldl step NewProxyListener ops)) eqn:E; simpl; rewrite ?E; simpl; set_solver.
Qed.
End listener.
End PluginListener.

(** ** The HTTP proxy *)

Definition upper_ascii (c : ascii) : ascii :=
  let n := N_of_ascii c in if (97 <=? n)%N && (n <=? 122)%N then ascii_of_N (n - 32) else c.
Fixpoint ToUpper (s : string) : string :=
  match s with "" => "" | String c s' => String (upper_ascii c) (ToUpper s') end.

(** [Auth]: [SplitN(.., 2)] has two parts when the separator occurs, cut at the first one. *)
Definition hp_Auth (HTTPUser HTTPPassword proxyAuthorization : string) : bool :=
  if (HTTPUser =s? "") && (HTTPPassword =s? "") then true else
  match Cut proxyAuthorization " "%char with
  | None => false
  | Some (_, b) =>
      match Base64.DecodeString b with
      | None => false
      | Some creds =>
          match Cut creds ":"%char with
          | None => false
          | Some (u, p) => (u =s? HTTPUser) && (p =s? HTTPPassword)
          end
      end
  end.

(** A request to the proxy: its method, target, credentials and headers. *)
Record hp_request := mkHpRequest { hp_Method : string; hp_URLHost : string; hp_ProxyAuth : string; hp_Header : gmap string string }.

Definition removed_headers : list string :=
  ["Proxy-Connection"; "Connection"; "Proxy-Authenticate"; "Proxy-Authorization"; "TE"; "Trailers"; "Transfer-Encoding"; "Upgrade"].
Definition removeProxyHeaders (h : gmap string string) : gmap string string := foldl (λ h k, delete k h) h removed_headers.

(** What becomes of a connection or a request. *)
Inductive hp_outcome :=
| HClosed                                   (* closed without an answer *)
| HAnswer (code : Z)                        (* an answer of the proxy itself *)
| HTunnel (host : string)                   (* 200, and joined with [host] *)
| HForward (header : gmap string string)    (* sent on by the transport *)
| HListener.                                (* handed to the HTTP server *)

Definition handleConnectReq (user passwd : string) (dial : bool) (req : hp_request) : hp_outcome :=
  if negb (hp_Auth user passwd (hp_ProxyAuth req)) then HAnswer 407
  else if dial then HTunnel (hp_URLHost req) else HAnswer 400.

(** [Handle]: [first] are the first bytes read, [parsed] the request when it can be parsed. *)
Definition hp_Handle (user passwd : string) (first : option string) (parsed : option hp_request) (dial : bool) : hp_outcome :=
  match first with
  | None => HClosed
  | Some bytes =>
      if ToUpper bytes =s? "CONNECT"
      then match parsed with None => HClosed | Some req => handleConnectReq user passwd dial req end
      else HListener
  end.

Definition ConnectHandler (hijack dial : bool) (req : hp_request) : hp_outcome :=
  if negb hijack then HAnswer 500 else if dial then HTunnel (hp_URLHost req) else HClosed.
Definition HTTPHandler (roundtrip : bool) (req : hp_request) : hp_outcome :=
  if roundtrip then HForward (removeProxyHeaders (hp_Header req)) else HAnswer 500.

(** [ServeHTTP] of the HTTP server behind the listener. *)
Definition hp_ServeHTTP (user passwd : string) (hijack ok : bool) (req : hp_request) : hp_outcome :=
  if negb (hp_Auth user passwd (hp_ProxyAuth req)) then HAnswer 407
  else if hp_Method req =s? "CONNECT" then ConnectHandler hijack ok req else HTTPHandler ok req.

Definition reaches_out (o : hp_outcome) : Prop := match o with HTunnel _ | HForward _ => True | _ => False end.

Lemma hp_Auth_spec user passwd h : hp_Auth user passwd h = true ↔
  (user = "" ∧ passwd = "") ∨
  ∃ scheme b, h = scheme +:+ String " " b ∧ ContainsByte scheme " " = false ∧
    Base64.DecodeString b = Some (user +:+ String ":" passwd) ∧ ContainsByte user ":" = false.
Proof.
  unfold hp_Auth. destruct ((user =s? "") && (passwd =s? "")) eqn:E0.
  { split; [|done]. intros _. left. by rewrite andb_true_iff, !seqb_true in E0. }
  assert (¬ (user = "" ∧ passwd = "")) as Hne by (intros [-> ->]; done).
  destruct (Cut h " ") as [[sc b]|] eqn:E1.
  2: { split; [done|]. intros [?|(sc & b & -> & Hs & _)]; [done|]. assert (Cut (sc +:+ String " " b) " " = Some (sc, b)) by (by apply Cut_spec). congruence. }
  apply Cut_spec in E1 as [-> Hs].
  assert (∀ P : Prop, ((user = "" ∧ passwd = "") ∨ P) ↔ P) as Hor by tauto. rewrite Hor.
  assert ((∃ scheme b0, sc +:+ String " " b = scheme +:+ String " " b0 ∧ ContainsByte scheme " " = false ∧
    Base64.DecodeString b0 = Some (user +:+ String ":" passwd) ∧ ContainsByte user ":" = false) ↔
    Base64.DecodeString b = Some (user +:+ String ":" passwd) ∧ ContainsByte user ":" = false) as ->.
  { split; [|intros [? ?]; by exists sc, b]. intros (sc' & b' & Heq & Hs' & Hd & Hu).
    assert (Cut (sc +:+ String " " b) " " = Some (sc', b')) as Hc by (by apply Cut_spec).
    assert (Cut (sc +:+ String " " b) " " = Some (sc, b)) as Hc2 by (by apply Cut_spec). by simplify_eq. }
  destruct (Base64.DecodeString b) as [creds|]; [|naive_solver].
  assert ((Some creds = Some (user +:+ String ":" passwd) ∧ ContainsByte user ":" = false) ↔ Cut creds ":" = Some (user, passwd)) as ->.
  { rewrite Cut_spec. naive_solver. }
  destruct (Cut creds ":") as [[u p]|]; [|naive_solver]. rewrite andb_true_iff, !seqb_true. naive_solver.
Qed.

(** Nothing passes the proxy without the user and password, when there are any, whichever way a
    request takes, with CONNECT or without; a client that sends them with Basic passes, when the
    user has no colon; and what is sent on has no header meant for the proxy. *)
Lemma http_proxy_guarded user passwd :
  (∀ first parsed dial, reaches_out (hp_Handle user passwd first parsed dial) →
     ∃ req, parsed = Some req ∧ hp_Auth user passwd (hp_ProxyAuth req) = true) ∧
  (∀ hijack ok req, reaches_out (hp_ServeHTTP user passwd hijack ok req) → hp_Auth user passwd (hp_ProxyAuth req) = true) ∧
  (ContainsByte user ":" = false → hp_Auth user passwd (BasicAuth user passwd) = true) ∧
  (∀ hijack ok req h k, hp_ServeHTTP user passwd hijack ok req = HForward h → k ∈ removed_headers → h !! k = None).
Proof.
  split_and!.
  - intros first parsed dial. unfold hp_Handle, handleConnectReq. destruct first as [b|]; [|done]. destruct (_ =s? _); [|done].
    destruct parsed as [req|]; [|done]. destruct (hp_Auth user passwd (hp_ProxyAuth req)) eqn:E; [|done]. intros _. by exists req.
  - intros hijack ok req. unfold hp_ServeHTTP. by destruct (hp_Auth user passwd (hp_ProxyAuth req)).
  - intros Hu. apply hp_Auth_spec. right. exists "Basic", (Base64.EncodeToString (user +:+ ":" +:+ passwd)).
    split_and!; [done|done|apply Base64.DecodeString_EncodeToString|done].
  - intros hijack ok req h k. unfold hp_ServeHTTP, ConnectHandler, HTTPHandler. repeat case_match; try done. intros [= <-] Hk.
    unfold removeProxyHeaders, removed_headers in *. simpl.
    repeat (apply elem_of_cons in Hk as [->|Hk]; [repeat first [by rewrite lookup_delete_eq|rewrite lookup_delete_ne by done]|]). by apply not_elem_of_nil in Hk.
Qed.

(** ** The plugins that rewrite requests *)

Record rw_request := mkRw { rw_Host : string; rw_Header : gmap string string }.
Record rw_out := mkRwOut { out_Scheme : string; out_URLHost : string; out_Host : string; out_Header : gmap string string }.

Definition forwarded_headers : list string := ["X-Forwarded-For"; "X-Forwarded-Host"; "X-Forwarded-Proto"].

(** [httputil.ReverseProxy] takes these headers off a request before it calls [Rewrite]. *)
Definition stripped (h : gmap string string) : gmap string string := foldl (λ h k, delete k h) h ("Forwarded" :: forwarded_headers).

(** [r.Out.Header[k] = r.In.Header[k]]. *)
Definition copy_header (from : gmap string string) (k : string) (h : gmap string string) : gmap string string :=
  match from !! k with Some v => <[k := v]> h | None => delete k h end.

(** [r.SetXForwarded()] for a client at [ip]. *)
Definition SetXForwarded (ip : string) (tls : bool) (req : rw_request) (h : gmap string string) : gmap string string :=
  <["X-Forwarded-For" := match h !! "X-Forwarded-For" with Some v => v +:+ ", " +:+ ip | None => ip end]>
    (<["X-Forwarded-Host" := rw_Host req]> (<["X-Forwarded-Proto" := if tls then "https" else "http"]> h)).

(** The last part, common to all: the target, the host and the headers set. *)
Definition rewrite_tail (scheme LocalAddr HostHeaderRewrite : string) (set : gmap string string) (req : rw_request) (h : gmap string string) : rw_out :=
  mkRwOut scheme LocalAddr (if HostHeaderRewrite =s? "" then rw_Host req else HostHeaderRewrite) (set ∪ h).

Definition http2http_rewrite (LocalAddr HostHeaderRewrite : string) (set : gmap string string) (req : rw_request) : rw_out :=
  rewrite_tail "http" LocalAddr HostHeaderRewrite set req (stripped (rw_Header req)).
Definition http2https_rewrite (LocalAddr HostHeaderRewrite : string) (set : gmap string string) (req : rw_request) : rw_out :=
  rewrite_tail "https" LocalAddr HostHeaderRewrite set req
    (foldl (λ h k, copy_header (rw_Header req) k h) (stripped (rw_Header req)) forwarded_headers).
Definition https2_rewrite (scheme LocalAddr HostHeaderRewrite : string) (set : gmap string string) (ip : string) (req : rw_request) : rw_out :=
  rewrite_tail scheme LocalAddr HostHeaderRewrite set req
    (SetXForwarded ip true req (copy_header (rw_Header req) "X-Forwarded-For" (stripped (rw_Header req)))).
Definition https2http_rewrite := https2_rewrite "http".
Definition https2https_rewrite := https2_rewrite "https".

(** The handler of the plugins that terminate TLS: a request for another host than the one of
    the handshake is answered with 421. *)
Definition tls_handler (serverName : option string) (rewrite : rw_request → rw_out) (req : rw_request) : Z + rw_out :=
  match serverName with
  | Some sn =>
      if negb (CanonicalHost sn =s? "") && negb (CanonicalHost sn =s? CanonicalHost (rw_Host req)) then inl 421%Z else inr (rewrite req)
  | None => inr (rewrite req)
  end.

(** A request that was let through is for the host of the handshake, if that named one. *)
Lemma tls_handler_host sn rewrite req out : tls_handler sn rewrite req = inr out →
  out = rewrite req ∧ ∀ s, sn = Some s → CanonicalHost s = "" ∨ CanonicalHost s = CanonicalHost (rw_Host req).
Proof.
  unfold tls_handler. destruct sn as [s|]; [|intros [= <-]; by split].
  destruct (seqb_spec (CanonicalHost s) "") as [|], (seqb_spec (CanonicalHost s) (CanonicalHost (rw_Host req))) as [|];
    simpl; try done; intros [= <-]; split; try done; intros ? [= <-]; auto.
Qed.

Lemma lookup_stripped h k : k ∈ forwarded_headers → stripped h !! k = None.
Proof.
  unfold stripped, forwarded_headers. simpl. intros Hk.
  repeat (apply elem_of_cons in Hk as [->|Hk]; [repeat first [by rewrite lookup_delete_eq|rewrite lookup_delete_ne by done]|]). by apply not_elem_of_nil in Hk.
Qed.

(** http2https hands the forwarding headers of a request on; http2http does not, so that the
    address of the user, which the server has put there, is lost on the way. *)
Lemma http2http_drops_forwarded LocalAddr rewrite req k : k ∈ forwarded_headers →
  out_Header (http2https_rewrite LocalAddr rewrite ∅ req) !! k = rw_Header req !! k ∧
  out_Header (http2http_rewrite LocalAddr rewrite ∅ req) !! k = None.
Proof.
  intros Hk. unfold http2https_rewrite, http2http_rewrite, rewrite_tail. cbn [out_Header]. rewrite !(left_id_L ∅ (∪)). split; [|by apply lookup_stripped].
  assert (∀ from (h : gmap string string) j, copy_header from j h !! k = if decide (j = k) then from !! k else h !! k) as Hc.
  { intros from h j. unfold copy_header. case_decide as Hj; [subst j; destruct (from !! k); by rewrite ?lookup_insert_eq, ?lookup_delete_eq|].
    destruct (from !! j); by rewrite ?lookup_insert_ne, ?lookup_delete_ne. }
  unfold forwarded_headers in *. cbn [foldl]. rewrite !Hc.
  repeat (apply elem_of_cons in Hk as [->|Hk]; [repeat (rewrite decide_False by done || rewrite decide_True by done); done|]). by apply not_elem_of_nil in Hk.
Qed.

(** The https plugins add the address of the client to the list. *)
Lemma https2http_keeps_forwarded LocalAddr rewrite ip req :
  out_Header (https2http_rewrite LocalAddr rewrite ∅ ip req) !! "X-Forwarded-For" =
  Some (match rw_Header req !! "X-Forwarded-For" with Some v => v +:+ ", " +:+ ip | None => ip end).
Proof.
  unfold https2http_rewrite, https2_rewrite, rewrite_tail, SetXForwarded. cbn [out_Header]. rewrite (left_id_L ∅ (∪)), lookup_insert_eq.
  unfold copy_header. destruct (rw_Header req !! "X-Forwarded-For") as [v|]; by rewrite ?lookup_insert_eq, ?lookup_delete_eq.
Qed.

(** ** The plugins that join connections *)

Inductive jevent := JCloseConn | JCloseLocal | JJoin | JServe.

Definition uds_Handle (dial : bool) (header : option bool) : list jevent :=
  if negb dial then [JCloseConn] else
  match header with Some false => [JCloseLocal; JCloseConn] | _ => [JJoin] end.
Definition tls2raw_Handle (handshake dial : bool) : list jevent :=
  if negb handshake then [JCloseConn] else if negb dial then [JCloseConn] else [JJoin].
Definition socks5_Handle : list jevent := [JServe; JCloseConn].
(** [Credentials]: none when neither user nor password is set. *)
Definition socks5_credentials (user passwd : string) : option (gmap string string) :=
  if negb (user =s? "") || negb (passwd =s? "") then Some {[user := passwd]} else None.

(** The three always close the connection or join it. *)
Lemma joined_or_closed dial header handshake :
  (JCloseConn ∈ uds_Handle dial header ∨ JJoin ∈ uds_Handle dial header) ∧
  (JCloseConn ∈ tls2raw_Handle handshake dial ∨ JJoin ∈ tls2raw_Handle handshake dial) ∧ JCloseConn ∈ socks5_Handle.
Proof. unfold uds_Handle, tls2raw_Handle, socks5_Handle. destruct dial, header as [[]|], handshake; simpl; set_solver. Qed.

(** ** The virtual network *)

Module VirtualNet.
Section vnet.
(** [conns] is [None] for the nil map; [reading] are the connections with a read loop, [open]
    those that nobody has closed. *)
Record t := mk { conns : option (gset nat); reading : gset nat; open : gset nat }.
Definition New : t := mk None ∅ ∅.

Definition Handle (controller : bool) (c : nat) (p : t) : t :=
  if negb controller then mk (conns p) (reading p) ({[c]} ∪ open p)
  else mk (Some ({[c]} ∪ default ∅ (conns p))) ({[c]} ∪ reading p) ({[c]} ∪ open p).
(** The read loop ends: it closes its connection and calls [RemoveConn]. *)
Definition LoopEnds (c : nat) (p : t) : t :=
  if decide (c ∈ reading p)
  then mk ((λ m, m ∖ {[c]}) <$> conns p) (reading p ∖ {[c]}) (open p ∖ {[c]}) else p.
Definition Close (p : t) : t := mk None (reading p) (open p ∖ default ∅ (conns p)).

Inductive op := OHandle (c : nat) | OEnds (c : nat) | OClose.
Definition step (controller : bool) (p : t) (o : op) : t :=
  match o with OHandle c => Handle controller c p | OEnds c => LoopEnds c p | OClose => Close p end.
Definition run (controller : bool) (ops : list op) : t := foldl (step controller) New ops.

(** With a controller the open connections are those in the map, and [Close] closes them all. *)
Lemma vnet_plugin_closes ops : let p := run true ops in open p ⊆ default ∅ (conns p) ∧ open (Close p) = ∅.
Proof.
  intros p. enough (open p ⊆ default ∅ (conns p)) as H by (split; [done|simpl; set_solver]).
  unfold p, run. clear p. induction ops as [|o ops IH] using rev_ind; [done|]. rewrite foldl_app. cbn [foldl].
  destruct (foldl (step true) New ops) as [cs rd op0]. simpl in IH. destruct o as [c|c|]; simpl.
  - set_solver.
  - unfold LoopEnds. case_decide; simpl; [|done]. destruct cs as [m|]; simpl in *; set_solver.
  - set_solver.
Qed.

(** Without one, the connection is neither used nor closed. *)
Lemma no_controller_leaks c : open (Close (run false [OHandle c])) = {[c]}.
Proof. simpl. set_solver. Qed.
End vnet.
End VirtualNet.

(** ** The registry of plugins *)

Section registry.
Context {Opts P E : Type}.
Abbreviation creators := (gmap string (Opts → E + P)).
(** [Register] of a name that exists panics: [None]. *)
Definition Register (name : string) (fn : Opts → E + P) (m : creators) : option creators :=
  match m !! name with Some _ => None | None => Some (<[name := fn]> m) end.
Definition Create (m : creators) (name : string) (o : Opts) : option (E + P) := (λ fn, fn o) <$> m !! name.

Lemma Register_Create name name' fn (m m' : creators) o : Register name fn m = Some m' →
  Create m' name' o = if decide (name' = name) then Some (fn o) else Create m name' o.
Proof.
  unfold Register, Create. destruct (m !! name) eqn:E0; [done|]. intros [= <-]. case_decide as H; [subst; by rewrite lookup_insert_eq|by rewrite lookup_insert_ne].
Qed.
End registry.
