(* ===== verification/LegacyIni.v ===== *)
(** The ini library as the old configuration format uses it, an interface: a file is an
    ordered set of sections with their keys, read and extended through the operations the
    sources call ([gopkg.in/ini.v1]); [IniLaws] states the documented behaviour of these
    operations. The helpers of [src/pkg/config/legacy/utils.go] on the keys of a section and
    the structures of [src/pkg/auth/legacy/legacy.go] are defined on top of it. *)
From Stdlib Require Import ZArith Lia Ascii String.
From stdpp Require Import base gmap strings list.
From S2P Require Import Prelude GoStrings Ranges.
Local Open Scope string_scope.
Local Open Scope list_scope.

(** ** The library *)

Class Ini := mkIni {
  ini_file : Type;
  LoadSources : string → option ini_file;
  DefaultSection : string;
  Sections : ini_file → list string;
  KeysHash : ini_file → string → gmap string string;
  GetKey : ini_file → string → string → option string;
  (** [section.Key(k).String()]: a key that is missing is added with an empty value. *)
  Key : ini_file → string → string → string * ini_file;
  NewSection : ini_file → string → option ini_file;
  NewKey : ini_file → string → string → string → option ini_file;
  (** [section.MapTo]: whether it succeeds, and what it stores in a field of each type from
      the text of the field's key and the value the field has. *)
  MapTo_ok : ini_file → string → bool;
  set_string : string → string → string;
  set_bool : string → bool → bool;
  set_int : string → Z → Z;
  set_strings : string → list string → list string }.

Class IniLaws `{Ini} := mkIniLaws {
  Sections_NoDup f : NoDup (Sections f);
  GetKey_hash f s k v : KeysHash f s !! k = Some v → GetKey f s k = Some v;
  (** A section whose name has no dot has no parent to inherit from. *)
  GetKey_none f s k : ContainsByte s "." = false → KeysHash f s !! k = None → GetKey f s k = None;
  Key_found f s k v : GetKey f s k = Some v → Key f s k = (v, f);
  Key_missing f s k : GetKey f s k = None → k ≠ "" → fst (Key f s k) = "" ∧ NewKey f s k "" = Some (snd (Key f s k));
  NewSection_ok f n : n ≠ "" → is_Some (NewSection f n);
  NewSection_spec f n f' : NewSection f n = Some f' →
    Sections f' = (if decide (n ∈ Sections f) then Sections f else Sections f ++ [n]) ∧
    (∀ s, KeysHash f' s = KeysHash f s);
  KeysHash_absent f s : s ∉ Sections f → KeysHash f s = ∅;
  NewKey_ok f s k v : k ≠ "" → s ∈ Sections f → is_Some (NewKey f s k v);
  NewKey_spec f s k v f' : s ∈ Sections f → NewKey f s k v = Some f' →
    Sections f' = Sections f ∧ KeysHash f' s = <[k := v]> (KeysHash f s) ∧
    (∀ s', s' ≠ s → KeysHash f' s' = KeysHash f s');
  set_string_nonempty v old : v ≠ "" → set_string v old = v;
  set_string_empty old : set_string "" old = old;
  set_int_Itoa n old : (0 <= n <= int64_max)%Z → set_int (Itoa n) old = n }.

Section readers.
Context `{Ini}.

(** One field of [MapTo]: without the key the field keeps its value. *)
Definition map_field {A} (set : string → A → A) (f : ini_file) (s key : string) (old : A) : A :=
  match GetKey f s key with None => old | Some v => set v old end.

Definition map_string := map_field set_string.
Definition map_bool := map_field set_bool.
Definition map_int := map_field set_int.
Definition map_strings := map_field set_strings.

(** [f.GetSection(name)]. *)
Definition has_section (f : ini_file) (name : string) : bool := contains (Sections f) name.
End readers.

(** ** The keys of a section by prefix *)

Definition GetMapWithoutPrefix (set : gmap string string) (prefix : string) : gmap string string :=
  map_fold (λ key value m, match CutPrefix key prefix with Some trimmed => <[trimmed := value]> m | None => m end) ∅ set.

Definition GetMapByPrefix (set : gmap string string) (prefix : string) : gmap string string :=
  map_fold (λ key value m, if HasPrefix key prefix then <[key := value]> m else m) ∅ set.

Lemma append_inj_l a b c : a +:+ b = a +:+ c → b = c.
Proof. induction a as [|x a IH]; simpl; [done|]. intros [= ?]. auto. Qed.

(** The values under a prefix, whatever the order the map is read in. *)
Lemma GetMapWithoutPrefix_lookup set p k : GetMapWithoutPrefix set p !! k = set !! (p +:+ k).
Proof.
  unfold GetMapWithoutPrefix.
  apply (map_fold_weak_ind (λ m s, ∀ k, m !! k = s !! (p +:+ k))); [intros ?; by rewrite !lookup_empty|].
  intros key value s m Hfresh IH k'. destruct (CutPrefix key p) as [t|] eqn:Ec.
  - apply CutPrefix_spec in Ec as ->. destruct (decide (k' = t)) as [->|Hne]; [by rewrite !lookup_insert_eq|].
    rewrite !lookup_insert_ne; [apply IH|by intros ?%append_inj_l|congruence].
  - rewrite lookup_insert_ne; [apply IH|]. intros ->.
    apply CutPrefix_None in Ec. assert (HasPrefix (p +:+ k') p = true) by (apply HasPrefix_spec; eauto). congruence.
Qed.

Lemma GetMapByPrefix_lookup set p k : GetMapByPrefix set p !! k = if HasPrefix k p then set !! k else None.
Proof.
  unfold GetMapByPrefix.
  apply (map_fold_weak_ind (λ m s, ∀ k, m !! k = if HasPrefix k p then s !! k else None)).
  { intros ?. case_match; by rewrite !lookup_empty. }
  intros key value s m Hfresh IH k'. destruct (decide (k' = key)) as [->|Hne].
  - case_match; [by rewrite !lookup_insert_eq|]. by rewrite IH, H.
  - rewrite lookup_insert_ne by done. case_match; rewrite ?lookup_insert_ne by done; apply IH.
Qed.

(** ** Adding keys *)

(** [added f f' ks]: [f'] is [f] with some of the keys [ks] added empty where they were
    missing, which is what looking a key up does. *)
Definition added `{Ini} (ks : list string) (f f' : ini_file) : Prop :=
  Sections f' = Sections f ∧ ∀ s k, KeysHash f' s !! k = KeysHash f s !! k ∨
    (k ∈ ks ∧ KeysHash f s !! k = None ∧ KeysHash f' s !! k = Some "").

Section added.
Context `{IniLaws}.

#[global] Instance added_refl ks : Reflexive (added ks).
Proof. split; [done|by left]. Qed.

#[global] Instance added_trans ks : Transitive (added ks).
Proof.
  intros f g h [S1 H1] [S2 H2]. split; [congruence|]. intros s k.
  destruct (H1 s k) as [E|(?&?&E)], (H2 s k) as [E'|(?&?&E')].
  - left. congruence.
  - right. split_and!; congruence.
  - right. split_and!; congruence.
  - congruence.
Qed.

Lemma Key_added ks f s k : s ∈ Sections f → k ∈ ks → k ≠ "" → added ks f (snd (Key f s k)).
Proof using H H0.
  intros Hs Hk Hne. destruct (GetKey f s k) as [v|] eqn:E.
  { rewrite (Key_found _ _ _ _ E). reflexivity. }
  destruct (Key_missing _ _ _ E Hne) as [_ Hn]. destruct (NewKey_spec _ _ _ _ _ Hs Hn) as (HS & HK & Hother).
  split; [done|]. intros s' k'. destruct (decide (s' = s)) as [->|?]; [|left; by rewrite Hother].
  rewrite HK. destruct (decide (k' = k)) as [->|?]; [|left; by rewrite lookup_insert_ne].
  rewrite lookup_insert_eq. right. split_and!; [done| |done].
  destruct (KeysHash f s !! k) eqn:E'; [|done]. apply GetKey_hash in E'. congruence.
Qed.

(** Keys under a prefix do not notice, if none of the added keys has the prefix. *)
Lemma added_prefix ks f f' s p :
  added ks f f' → Forall (λ k, HasPrefix k p = false) ks →
  GetMapWithoutPrefix (KeysHash f' s) p = GetMapWithoutPrefix (KeysHash f s) p ∧
  GetMapByPrefix (KeysHash f' s) p = GetMapByPrefix (KeysHash f s) p.
Proof.
  intros [_ HK] Hks. rewrite Forall_forall in Hks. split; apply map_eq; intros k.
  - rewrite !GetMapWithoutPrefix_lookup. destruct (HK s (p +:+ k)) as [->|(Hin & _)]; [done|].
    specialize (Hks _ Hin). assert (HasPrefix (p +:+ k) p = true) by (apply HasPrefix_spec; eauto). congruence.
  - rewrite !GetMapByPrefix_lookup. destruct (HasPrefix k p) eqn:E; [|done].
    destruct (HK s k) as [->|(Hin & _)]; [done|]. specialize (Hks _ Hin). congruence.
Qed.

(** A key with a value keeps it. *)
Lemma added_value ks f f' s k v : added ks f f' → KeysHash f s !! k = Some v → KeysHash f' s !! k = Some v.
Proof. intros [_ HK] E. destruct (HK s k) as [->|(_ & ? & _)]; congruence. Qed.
End added.

(** ** A library for the examples: sections in order, no inheritance *)

Module ListIni.
Definition file : Type := list (string * gmap string string).

Definition find_section (f : file) (s : string) : option (gmap string string) :=
  snd <$> find_first (λ e, fst e =s? s) f.
Definition hash (f : file) (s : string) : gmap string string := default ∅ (find_section f s).

(** The names of a file whose sections are distinct; later duplicates are dropped. *)
Fixpoint names (f : file) : list string :=
  match f with
  | [] => []
  | (n, _) :: f => n :: filter (λ m, m ≠ n) (names f)
  end.

Definition new_section (f : file) (n : string) : option file :=
  if n =s? "" then None else if contains (names f) n then Some f else Some (f ++ [(n, ∅)]).

Fixpoint put (f : file) (s k v : string) : file :=
  match f with
  | [] => []
  | (n, m) :: f => if n =s? s then (n, <[k := v]> m) :: f else (n, m) :: put f s k v
  end.

Definition new_key (f : file) (s k v : string) : option file := if k =s? "" then None else Some (put f s k v).

Definition key (f : file) (s k : string) : string * file :=
  match hash f s !! k with Some v => (v, f) | None => ("", default f (new_key f s k "")) end.

Definition split_list (v : string) (old : list string) : list string :=
  if v =s? "" then old else TrimSpace <$> Split ","%char v.

Definition parse_int (v : string) (old : Z) : Z := match ParseInt v with Ok n => n | Err _ => old end.
Definition parse_bool (v : string) (old : bool) : bool :=
  if contains ["1"; "t"; "T"; "true"; "TRUE"; "True"; "YES"; "yes"; "Yes"; "y"; "ON"; "on"; "On"] v then true
  else if contains ["0"; "f"; "F"; "false"; "FALSE"; "False"; "NO"; "no"; "No"; "n"; "OFF"; "off"; "Off"] v then false
  else old.

Section instance.
Variable load : string → option file.

#[export] Instance list_ini : Ini :=
  mkIni file load "DEFAULT" names hash (λ f s k, hash f s !! k) key new_section new_key (λ _ _, true)
    (λ v old, if v =s? "" then old else v) parse_bool parse_int split_list.

Lemma names_elem f n : n ∈ names f ↔ is_Some (find_section f n).
Proof.
  unfold find_section. induction f as [|[m h] f IH]; simpl.
  { split; [by intros ?%not_elem_of_nil|by intros [? ?]]. }
  rewrite elem_of_cons, list_elem_of_filter. destruct (m =s? n) eqn:E; simpl.
  - apply seqb_true in E as ->. split; [by eexists|by left].
  - apply seqb_false in E. rewrite IH. naive_solver.
Qed.

Lemma find_section_app f n h s :
  find_section (f ++ [(n, h)]) s = match find_section f s with Some x => Some x | None => if n =s? s then Some h else None end.
Proof.
  unfold find_section. rewrite find_first_app. destruct (find_first (λ e, fst e =s? s) f); simpl; [done|]. by case_match.
Qed.

Lemma names_snoc f n h : n ∉ names f → names (f ++ [(n, h)]) = names f ++ [n].
Proof.
  induction f as [|[m h'] f IH]; simpl; [done|]. rewrite elem_of_cons, list_elem_of_filter. intros Hn.
  destruct (decide (n = m)) as [->|Hne]; [by destruct Hn; left|]. rewrite IH.
  - f_equal. rewrite filter_app. f_equal. by rewrite filter_cons_True.
  - intros Hin. apply Hn. by right.
Qed.

Lemma names_put f s k v : names (put f s k v) = names f.
Proof. induction f as [|[n h] f IH]; simpl; [done|]. case_match; simpl; [done|]. by rewrite IH. Qed.

Lemma find_put f s k v s' :
  find_section (put f s k v) s' = (if s =s? s' then insert k v else id) <$> find_section f s'.
Proof.
  unfold find_section. induction f as [|[n h] f IH]; simpl; [done|].
  destruct (n =s? s) eqn:E; simpl.
  - apply seqb_true in E as ->. destruct (s =s? s'); simpl; [done|]. by destruct (find_first _ f).
  - destruct (n =s? s') eqn:E'; simpl; [|done].
    apply seqb_true in E' as ->. destruct (s =s? s') eqn:E''; [|done].
    apply seqb_true in E'' as ->. by rewrite seqb_refl in E.
Qed.

#[export] Instance list_ini_laws : IniLaws.
Proof.
  constructor; simpl.
  - intros f. induction f as [|[n h] f IH]; simpl; [constructor|]. constructor; [|by apply NoDup_filter].
    rewrite list_elem_of_filter. naive_solver.
  - done.
  - done.
  - intros f s k v E. unfold key. by rewrite E.
  - intros f s k E Hk. unfold key, new_key. rewrite E. by rewrite (proj2 (seqb_false _ _) Hk).
  - intros f n Hn. unfold new_section. rewrite (proj2 (seqb_false _ _) Hn). case_match; by eexists.
  - intros f n f'. unfold new_section, contains. destruct (n =s? ""); [done|].
    case_decide as Hin; [rewrite bool_decide_true by done|rewrite bool_decide_false by done]; intros [= <-]; [done|].
    split; [by apply names_snoc|]. intros s. unfold hash. rewrite find_section_app.
    destruct (find_section f s); [done|]. by case_match.
  - intros f s Hs. unfold hash. rewrite names_elem in Hs. destruct (find_section f s); [by destruct Hs|done].
  - intros f s k v Hk Hs. unfold new_key. rewrite (proj2 (seqb_false _ _) Hk). by eexists.
  - intros f s k v f' Hs. unfold new_key. destruct (k =s? ""); [done|]. intros [= <-].
    split; [apply names_put|]. unfold hash. split.
    + rewrite find_put, seqb_refl. apply names_elem in Hs as [h ->]. done.
    + intros s' Hne. rewrite find_put. rewrite (proj2 (seqb_false _ _)) by done. by rewrite option_fmap_id.
  - intros v old Hv. by rewrite (proj2 (seqb_false _ _) Hv).
  - done.
  - intros n old Hn. unfold parse_int. by rewrite ParseInt_Itoa.
Qed.
End instance.
End ListIni.
