(* ===== verification/LegacyConf.v ===== *)
(** The structures of the old ini format and how a section fills them:
    [src/pkg/auth/legacy/legacy.go], the [ClientCommonConf] of
    [src/pkg/config/legacy/client.go], the [ServerCommonConf] of
    [src/pkg/config/legacy/server.go], the proxies of [src/pkg/config/legacy/proxy.go] and the
    visitors of [src/pkg/config/legacy/visitor.go]. A [*_MapTo] is [section.MapTo] on that
    structure: one field per tagged field, the tag its key. *)
From Stdlib Require Import ZArith Lia Ascii String.
From stdpp Require Import base gmap strings list.
From S2P Require Import Prelude GoStrings Ranges LegacyIni CommonConf ProxyConf.
Local Open Scope string_scope.
Local Open Scope list_scope.
Local Open Scope Z_scope.

Inductive ini_error :=
| LoadFails | NoCommonSection | MapToFails | BandwidthInvalid (e : bw_error) | InvalidType (ty : string)
| TypeEmpty | RoleInvalid (name : string) | ProxyFails (name : string) (e : ini_error)
| VisitorFails (name : string) (e : ini_error) | PortsEmpty | PortsInvalid (e : range_error) | PortsDiffer
| PortsNone | NewSectionFails | NewKeyFails | RangeFails (section : string) (e : ini_error)
| FileFails | TemplateFails | HeartbeatInvalid | ProtocolInvalid | IncludeInvalid (path : string)
| CommonInvalid (e : ini_error) | IncludeFails.

(** ** Authentication *)

Module LegacyAuth.
Record BaseConfig := mkBaseConfig {
  AuthenticationMethod : string; AuthenticateHeartBeats : bool; AuthenticateNewWorkConns : bool }.
Record OidcClientConfig := mkOidcClient {
  OidcClientID : string; OidcClientSecret : string; OidcAudience : string; OidcScope : string;
  OidcTokenEndpointURL : string; OidcAdditionalEndpointParams : gmap string string }.
Record OidcServerConfig := mkOidcServer {
  OidcIssuer : string; oss_OidcAudience : string; OidcSkipExpiryCheck : bool; OidcSkipIssuerCheck : bool }.
Record TokenConfig := mkToken { Token : string }.
Record ClientConfig := mkClientAuth { ca_Base : BaseConfig; ca_Oidc : OidcClientConfig; ca_Token : TokenConfig }.
Record ServerConfig := mkServerAuth { sa_Base : BaseConfig; sa_Oidc : OidcServerConfig; sa_Token : TokenConfig }.

Definition getDefaultBaseConf : BaseConfig := mkBaseConfig "token" false false.
Definition getDefaultOidcClientConf : OidcClientConfig := mkOidcClient "" "" "" "" "" ∅.
Definition getDefaultOidcServerConf : OidcServerConfig := mkOidcServer "" "" false false.
Definition getDefaultTokenConf : TokenConfig := mkToken "".
Definition GetDefaultClientConf : ClientConfig :=
  mkClientAuth getDefaultBaseConf getDefaultOidcClientConf getDefaultTokenConf.
Definition GetDefaultServerConf : ServerConfig :=
  mkServerAuth getDefaultBaseConf getDefaultOidcServerConf getDefaultTokenConf.

Section mapto.
Context `{Ini} (f : ini_file) (s : string).

Definition base_MapTo (c : BaseConfig) : BaseConfig :=
  mkBaseConfig (map_string f s "authentication_method" (AuthenticationMethod c))
    (map_bool f s "authenticate_heartbeats" (AuthenticateHeartBeats c))
    (map_bool f s "authenticate_new_work_conns" (AuthenticateNewWorkConns c)).
Definition oidc_client_MapTo (c : OidcClientConfig) : OidcClientConfig :=
  mkOidcClient (map_string f s "oidc_client_id" (OidcClientID c))
    (map_string f s "oidc_client_secret" (OidcClientSecret c)) (map_string f s "oidc_audience" (OidcAudience c))
    (map_string f s "oidc_scope" (OidcScope c)) (map_string f s "oidc_token_endpoint_url" (OidcTokenEndpointURL c))
    (OidcAdditionalEndpointParams c).
Definition oidc_server_MapTo (c : OidcServerConfig) : OidcServerConfig :=
  mkOidcServer (map_string f s "oidc_issuer" (OidcIssuer c)) (map_string f s "oidc_audience" (oss_OidcAudience c))
    (map_bool f s "oidc_skip_expiry_check" (OidcSkipExpiryCheck c))
    (map_bool f s "oidc_skip_issuer_check" (OidcSkipIssuerCheck c)).
Definition token_MapTo (c : TokenConfig) : TokenConfig := mkToken (map_string f s "token" (Token c)).
Definition client_MapTo (c : ClientConfig) : ClientConfig :=
  mkClientAuth (base_MapTo (ca_Base c)) (oidc_client_MapTo (ca_Oidc c)) (token_MapTo (ca_Token c)).
Definition server_MapTo (c : ServerConfig) : ServerConfig :=
  mkServerAuth (base_MapTo (sa_Base c)) (oidc_server_MapTo (sa_Oidc c)) (token_MapTo (sa_Token c)).
End mapto.

Definition set_oidc_params (m : gmap string string) (c : ClientConfig) : ClientConfig :=
  let o := ca_Oidc c in
  mkClientAuth (ca_Base c) (mkOidcClient (OidcClientID o) (OidcClientSecret o) (OidcAudience o) (OidcScope o)
    (OidcTokenEndpointURL o) m) (ca_Token c).
End LegacyAuth.
Import LegacyAuth.

(** ** The client *)

Module LegacyClient.
Record ClientCommonConf := mkCommon {
  Auth : LegacyAuth.ClientConfig; ServerAddr : string; ServerPort : Z; NatHoleSTUNServer : string;
  DialServerTimeout : Z; DialServerKeepAlive : Z; ConnectServerLocalIP : string; HTTPProxy : string;
  LogFile : string; LogWay : string; LogLevel : string; LogMaxDays : Z; DisableLogColor : bool;
  AdminAddr : string; AdminPort : Z; AdminUser : string; AdminPwd : string; AssetsDir : string;
  PoolCount : Z; TCPMux : bool; TCPMuxKeepaliveInterval : Z; User : string; DNSServer : string;
  LoginFailExit : bool; Start : list string; Protocol : string; QUICKeepalivePeriod : Z;
  QUICMaxIdleTimeout : Z; QUICMaxIncomingStreams : Z; TLSEnable : bool; TLSCertFile : string;
  TLSKeyFile : string; TLSTrustedCaFile : string; TLSServerName : string; DisableCustomTLSFirstByte : bool;
  HeartbeatInterval : Z; HeartbeatTimeout : Z; Metas : gmap string string; UDPPacketSize : Z;
  IncludeConfigFiles : list string; PprofEnable : bool }.

Definition GetDefaultClientConf : ClientCommonConf :=
  mkCommon LegacyAuth.GetDefaultClientConf "" 0 "" 0 0 "" "" "" "" "" 0 false "" 0 "" "" "" 0 true 0 "" "" true []
    "tcp" 0 0 0 true "" "" "" "" true 0 0 ∅ 0 [] false.

Section read.
Context `{Ini}.

Definition common_MapTo (f : ini_file) (s : string) (c : ClientCommonConf) : ClientCommonConf :=
  mkCommon (client_MapTo f s (Auth c))
    (map_string f s "server_addr" (ServerAddr c)) (map_int f s "server_port" (ServerPort c))
    (map_string f s "nat_hole_stun_server" (NatHoleSTUNServer c))
    (map_int f s "dial_server_timeout" (DialServerTimeout c))
    (map_int f s "dial_server_keepalive" (DialServerKeepAlive c))
    (map_string f s "connect_server_local_ip" (ConnectServerLocalIP c))
    (map_string f s "http_proxy" (HTTPProxy c)) (map_string f s "log_file" (LogFile c))
    (map_string f s "log_way" (LogWay c)) (map_string f s "log_level" (LogLevel c))
    (map_int f s "log_max_days" (LogMaxDays c)) (map_bool f s "disable_log_color" (DisableLogColor c))
    (map_string f s "admin_addr" (AdminAddr c)) (map_int f s "admin_port" (AdminPort c))
    (map_string f s "admin_user" (AdminUser c)) (map_string f s "admin_pwd" (AdminPwd c))
    (map_string f s "assets_dir" (AssetsDir c)) (map_int f s "pool_count" (PoolCount c))
    (map_bool f s "tcp_mux" (TCPMux c)) (map_int f s "tcp_mux_keepalive_interval" (TCPMuxKeepaliveInterval c))
    (map_string f s "user" (User c)) (map_string f s "dns_server" (DNSServer c))
    (map_bool f s "login_fail_exit" (LoginFailExit c)) (map_strings f s "start" (Start c))
    (map_string f s "protocol" (Protocol c)) (map_int f s "quic_keepalive_period" (QUICKeepalivePeriod c))
    (map_int f s "quic_max_idle_timeout" (QUICMaxIdleTimeout c))
    (map_int f s "quic_max_incoming_streams" (QUICMaxIncomingStreams c))
    (map_bool f s "tls_enable" (TLSEnable c)) (map_string f s "tls_cert_file" (TLSCertFile c))
    (map_string f s "tls_key_file" (TLSKeyFile c)) (map_string f s "tls_trusted_ca_file" (TLSTrustedCaFile c))
    (map_string f s "tls_server_name" (TLSServerName c))
    (map_bool f s "disable_custom_tls_first_byte" (DisableCustomTLSFirstByte c))
    (map_int f s "heartbeat_interval" (HeartbeatInterval c)) (map_int f s "heartbeat_timeout" (HeartbeatTimeout c))
    (Metas c) (map_int f s "udp_packet_size" (UDPPacketSize c))
    (map_strings f s "includes" (IncludeConfigFiles c)) (map_bool f s "pprof_enable" (PprofEnable c)).

(** The maps that are read by prefix, after [MapTo]. *)
Definition set_maps (metas oidc : gmap string string) (c : ClientCommonConf) : ClientCommonConf :=
  mkCommon (set_oidc_params oidc (Auth c)) (ServerAddr c) (ServerPort c) (NatHoleSTUNServer c)
    (DialServerTimeout c) (DialServerKeepAlive c) (ConnectServerLocalIP c) (HTTPProxy c) (LogFile c) (LogWay c)
    (LogLevel c) (LogMaxDays c) (DisableLogColor c) (AdminAddr c) (AdminPort c) (AdminUser c) (AdminPwd c)
    (AssetsDir c) (PoolCount c) (TCPMux c) (TCPMuxKeepaliveInterval c) (User c) (DNSServer c) (LoginFailExit c)
    (Start c) (Protocol c) (QUICKeepalivePeriod c) (QUICMaxIdleTimeout c) (QUICMaxIncomingStreams c) (TLSEnable c)
    (TLSCertFile c) (TLSKeyFile c) (TLSTrustedCaFile c) (TLSServerName c) (DisableCustomTLSFirstByte c)
    (HeartbeatInterval c) (HeartbeatTimeout c) metas (UDPPacketSize c) (IncludeConfigFiles c) (PprofEnable c).

Definition UnmarshalClientConfFromIni (source : string) : result ini_error ClientCommonConf :=
  match LoadSources source with
  | None => Err LoadFails
  | Some f =>
      if negb (has_section f "common") then Err NoCommonSection
      else if negb (MapTo_ok f "common") then Err MapToFails
      else Ok (set_maps (GetMapWithoutPrefix (KeysHash f "common") "meta_")
                 (GetMapWithoutPrefix (KeysHash f "common") "oidc_additional_")
                 (common_MapTo f "common" GetDefaultClientConf))
  end.
End read.

(** [Validate]: the first error; [dir] says what is known of the directory of a path. *)
Definition Validate (dir : string → dir_state) (cfg : ClientCommonConf) : result ini_error unit :=
  if (0 <? HeartbeatTimeout cfg) && (0 <? HeartbeatInterval cfg) && (HeartbeatTimeout cfg <? HeartbeatInterval cfg)
  then Err HeartbeatInvalid
  else if negb (contains ["tcp"; "kcp"; "quic"; "websocket"; "wss"] (Protocol cfg)) then Err ProtocolInvalid
  else match find_first (λ p, match dir p with DirOther => false | _ => true end) (IncludeConfigFiles cfg) with
       | Some p => Err (IncludeInvalid p)
       | None => Ok tt
       end.
End LegacyClient.

(** ** The server *)

Module LegacyServer.
Record HTTPPluginOptions := mkHTTPPlugin {
  hpo_Name : string; hpo_Addr : string; hpo_Path : string; hpo_Ops : list string; hpo_TLSVerify : bool }.

Record ServerCommonConf := mkServerCommon {
  Auth : LegacyAuth.ServerConfig; BindAddr : string; BindPort : Z; KCPBindPort : Z; QUICBindPort : Z;
  QUICKeepalivePeriod : Z; QUICMaxIdleTimeout : Z; QUICMaxIncomingStreams : Z; ProxyBindAddr : string;
  VhostHTTPPort : Z; VhostHTTPSPort : Z; TCPMuxHTTPConnectPort : Z; TCPMuxPassthrough : bool;
  VhostHTTPTimeout : Z; DashboardAddr : string; DashboardPort : Z; DashboardTLSCertFile : string;
  DashboardTLSKeyFile : string; DashboardTLSMode : bool; DashboardUser : string; DashboardPwd : string;
  EnablePrometheus : bool; AssetsDir : string; LogFile : string; LogWay : string; LogLevel : string;
  LogMaxDays : Z; DisableLogColor : bool; DetailedErrorsToClient : bool; SubDomainHost : string;
  TCPMux : bool; TCPMuxKeepaliveInterval : Z; TCPKeepAlive : Z; Custom404Page : string; AllowPortsStr : string;
  MaxPoolCount : Z; MaxPortsPerClient : Z; TLSOnly : bool; TLSCertFile : string; TLSKeyFile : string;
  TLSTrustedCaFile : string; HeartbeatTimeout : Z; UserConnTimeout : Z;
  HTTPPlugins : gmap string HTTPPluginOptions; UDPPacketSize : Z; PprofEnable : bool;
  NatHoleAnalysisDataReserveHours : Z }.

Definition GetDefaultServerConf : ServerCommonConf :=
  mkServerCommon LegacyAuth.GetDefaultServerConf "" 0 0 0 0 0 0 "" 0 0 0 false 0 "0.0.0.0" 0 "" "" false "" "" false ""
    "console" "console" "" 0 false true "" true 0 0 "" "" 0 0 false "" "" "" 0 0 ∅ 0 false 0.

Section read.
Context `{Ini}.

Definition server_common_MapTo (f : ini_file) (s : string) (c : ServerCommonConf) : ServerCommonConf :=
  mkServerCommon (server_MapTo f s (Auth c)) (map_string f s "bind_addr" (BindAddr c))
    (map_int f s "bind_port" (BindPort c)) (map_int f s "kcp_bind_port" (KCPBindPort c))
    (map_int f s "quic_bind_port" (QUICBindPort c)) (map_int f s "quic_keepalive_period" (QUICKeepalivePeriod c))
    (map_int f s "quic_max_idle_timeout" (QUICMaxIdleTimeout c))
    (map_int f s "quic_max_incoming_streams" (QUICMaxIncomingStreams c))
    (map_string f s "proxy_bind_addr" (ProxyBindAddr c)) (map_int f s "vhost_http_port" (VhostHTTPPort c))
    (map_int f s "vhost_https_port" (VhostHTTPSPort c))
    (map_int f s "tcpmux_httpconnect_port" (TCPMuxHTTPConnectPort c))
    (map_bool f s "tcpmux_passthrough" (TCPMuxPassthrough c))
    (map_int f s "vhost_http_timeout" (VhostHTTPTimeout c)) (map_string f s "dashboard_addr" (DashboardAddr c))
    (map_int f s "dashboard_port" (DashboardPort c))
    (map_string f s "dashboard_tls_cert_file" (DashboardTLSCertFile c))
    (map_string f s "dashboard_tls_key_file" (DashboardTLSKeyFile c))
    (map_bool f s "dashboard_tls_mode" (DashboardTLSMode c)) (map_string f s "dashboard_user" (DashboardUser c))
    (map_string f s "dashboard_pwd" (DashboardPwd c)) (map_bool f s "enable_prometheus" (EnablePrometheus c))
    (map_string f s "assets_dir" (AssetsDir c)) (map_string f s "log_file" (LogFile c))
    (map_string f s "log_way" (LogWay c)) (map_string f s "log_level" (LogLevel c))
    (map_int f s "log_max_days" (LogMaxDays c)) (map_bool f s "disable_log_color" (DisableLogColor c))
    (map_bool f s "detailed_errors_to_client" (DetailedErrorsToClient c))
    (map_string f s "subdomain_host" (SubDomainHost c)) (map_bool f s "tcp_mux" (TCPMux c))
    (map_int f s "tcp_mux_keepalive_interval" (TCPMuxKeepaliveInterval c))
    (map_int f s "tcp_keepalive" (TCPKeepAlive c)) (map_string f s "custom_404_page" (Custom404Page c))
    (AllowPortsStr c) (map_int f s "max_pool_count" (MaxPoolCount c))
    (map_int f s "max_ports_per_client" (MaxPortsPerClient c)) (map_bool f s "tls_only" (TLSOnly c))
    (map_string f s "tls_cert_file" (TLSCertFile c)) (map_string f s "tls_key_file" (TLSKeyFile c))
    (map_string f s "tls_trusted_ca_file" (TLSTrustedCaFile c))
    (map_int f s "heartbeat_timeout" (HeartbeatTimeout c)) (map_int f s "user_conn_timeout" (UserConnTimeout c))
    (HTTPPlugins c) (map_int f s "udp_packet_size" (UDPPacketSize c)) (map_bool f s "pprof_enable" (PprofEnable c))
    (map_int f s "nat_hole_analysis_data_reserve_hours" (NatHoleAnalysisDataReserveHours c)).

(** The fields that are read apart from [MapTo]. *)
Definition set_ports_plugins (ports : string) (plugins : gmap string HTTPPluginOptions) (c : ServerCommonConf)
    : ServerCommonConf :=
  mkServerCommon (Auth c) (BindAddr c) (BindPort c) (KCPBindPort c) (QUICBindPort c) (QUICKeepalivePeriod c)
    (QUICMaxIdleTimeout c) (QUICMaxIncomingStreams c) (ProxyBindAddr c) (VhostHTTPPort c) (VhostHTTPSPort c)
    (TCPMuxHTTPConnectPort c) (TCPMuxPassthrough c) (VhostHTTPTimeout c) (DashboardAddr c) (DashboardPort c)
    (DashboardTLSCertFile c) (DashboardTLSKeyFile c) (DashboardTLSMode c) (DashboardUser c) (DashboardPwd c)
    (EnablePrometheus c) (AssetsDir c) (LogFile c) (LogWay c) (LogLevel c) (LogMaxDays c) (DisableLogColor c)
    (DetailedErrorsToClient c) (SubDomainHost c) (TCPMux c) (TCPMuxKeepaliveInterval c) (TCPKeepAlive c)
    (Custom404Page c) ports (MaxPoolCount c) (MaxPortsPerClient c) (TLSOnly c) (TLSCertFile c) (TLSKeyFile c)
    (TLSTrustedCaFile c) (HeartbeatTimeout c) (UserConnTimeout c) plugins (UDPPacketSize c) (PprofEnable c)
    (NatHoleAnalysisDataReserveHours c).

Definition TrimPrefix (s p : string) : string := default s (CutPrefix s p).

Definition loadHTTPPluginOpt (f : ini_file) (section : string) : result ini_error HTTPPluginOptions :=
  if negb (MapTo_ok f section) then Err MapToFails
  else Ok (mkHTTPPlugin (TrimSpace (TrimPrefix section "plugin.")) (map_string f section "addr" "")
             (map_string f section "path" "") (map_strings f section "ops" []) (map_bool f section "tlsVerify" false)).

(** The loop over the sections: a section replaces an earlier one of the same name. *)
Fixpoint load_plugins (f : ini_file) (sections : list string) (opts : gmap string HTTPPluginOptions)
    : result ini_error (gmap string HTTPPluginOptions) :=
  match sections with
  | [] => Ok opts
  | name :: rest =>
      if negb (HasPrefix name "plugin.") then load_plugins f rest opts
      else match loadHTTPPluginOpt f name with
           | Err e => Err e
           | Ok opt => load_plugins f rest (<[hpo_Name opt := opt]> opts)
           end
  end.

Definition UnmarshalServerConfFromIni (source : string) : result ini_error ServerCommonConf :=
  match LoadSources source with
  | None => Err LoadFails
  | Some f =>
      if negb (has_section f "common") then Err NoCommonSection
      else if negb (MapTo_ok f "common") then Err MapToFails
      else
        let common := server_common_MapTo f "common" GetDefaultServerConf in
        let '(allowPortStr, f) := Key f "common" "allow_ports" in
        match load_plugins f (Sections f) ∅ with
        | Err e => Err e
        | Ok plugins =>
            Ok (set_ports_plugins (if allowPortStr =s? "" then AllowPortsStr common else allowPortStr) plugins common)
        end
  end.
End read.
End LegacyServer.

(** ** Proxies *)

Module LegacyProxy.
Record LocalSvrConf := mkLocalSvr { LocalIP : string; LocalPort : Z; Plugin : string; PluginParams : gmap string string }.
Record HealthCheckConf := mkHealth {
  HealthCheckType : string; HealthCheckTimeoutS : Z; HealthCheckMaxFailed : Z; HealthCheckIntervalS : Z;
  HealthCheckURL : string }.
Record BaseProxyConf := mkBaseProxy {
  ProxyName : string; ProxyType : string; UseEncryption : bool; UseCompression : bool; Group : string;
  GroupKey : string; ProxyProtocolVersion : string; BandwidthLimit : BandwidthQuantity;
  BandwidthLimitMode : string; Metas : gmap string string; Local : LocalSvrConf; Health : HealthCheckConf }.
Record DomainConf := mkDomain { CustomDomains : list string; SubDomain : string }.
Record RoleServerCommonConf := mkRole { Role : string; Sk : string; AllowUsers : list string }.
Record HTTPExtra := mkHTTPExtra {
  Locations : list string; HTTPUser : string; HTTPPwd : string; HostHeaderRewrite : string;
  Headers : gmap string string; RouteByHTTPUser : string }.
Record TCPMuxExtra := mkTCPMuxExtra {
  tm_HTTPUser : string; tm_HTTPPwd : string; tm_RouteByHTTPUser : string; Multiplexer : string }.

Inductive ProxyConf :=
| TCPProxyConf (b : BaseProxyConf) (RemotePort : Z)
| UDPProxyConf (b : BaseProxyConf) (RemotePort : Z)
| TCPMuxProxyConf (b : BaseProxyConf) (d : DomainConf) (t : TCPMuxExtra)
| HTTPProxyConf (b : BaseProxyConf) (d : DomainConf) (h : HTTPExtra)
| HTTPSProxyConf (b : BaseProxyConf) (d : DomainConf)
| STCPProxyConf (b : BaseProxyConf) (r : RoleServerCommonConf)
| XTCPProxyConf (b : BaseProxyConf) (r : RoleServerCommonConf)
| SUDPProxyConf (b : BaseProxyConf) (r : RoleServerCommonConf).

Definition GetBaseConfig (c : ProxyConf) : BaseProxyConf :=
  match c with
  | TCPProxyConf b _ | UDPProxyConf b _ | TCPMuxProxyConf b _ _ | HTTPProxyConf b _ _ | HTTPSProxyConf b _
  | STCPProxyConf b _ | XTCPProxyConf b _ | SUDPProxyConf b _ => b
  end.

Definition zero_base : BaseProxyConf :=
  mkBaseProxy "" "" false false "" "" "" zero_bandwidth "" ∅ (mkLocalSvr "" 0 "" ∅) (mkHealth "" 0 0 0 "").
Definition zero_domain : DomainConf := mkDomain [] "".
Definition zero_role : RoleServerCommonConf := mkRole "" "" [].

(** [proxyConfTypeMap] with [reflect.New]. *)
Definition NewConfByType (proxyType : string) : option ProxyConf :=
  if proxyType =s? "tcp" then Some (TCPProxyConf zero_base 0)
  else if proxyType =s? "udp" then Some (UDPProxyConf zero_base 0)
  else if proxyType =s? "tcpmux" then Some (TCPMuxProxyConf zero_base zero_domain (mkTCPMuxExtra "" "" "" ""))
  else if proxyType =s? "http" then Some (HTTPProxyConf zero_base zero_domain (mkHTTPExtra [] "" "" "" ∅ ""))
  else if proxyType =s? "https" then Some (HTTPSProxyConf zero_base zero_domain)
  else if proxyType =s? "stcp" then Some (STCPProxyConf zero_base zero_role)
  else if proxyType =s? "xtcp" then Some (XTCPProxyConf zero_base zero_role)
  else if proxyType =s? "sudp" then Some (SUDPProxyConf zero_base zero_role)
  else None.
Definition DefaultProxyConf := NewConfByType.

(** The type a structure stands for. *)
Definition conf_type (c : ProxyConf) : string :=
  match c with
  | TCPProxyConf _ _ => "tcp" | UDPProxyConf _ _ => "udp" | TCPMuxProxyConf _ _ _ => "tcpmux"
  | HTTPProxyConf _ _ _ => "http" | HTTPSProxyConf _ _ => "https" | STCPProxyConf _ _ => "stcp"
  | XTCPProxyConf _ _ => "xtcp" | SUDPProxyConf _ _ => "sudp"
  end.

Section read.
Context `{Ini}.
Variable parse_scaled : string → Z → option Z.

Definition local_MapTo (f : ini_file) (s : string) (c : LocalSvrConf) : LocalSvrConf :=
  mkLocalSvr (map_string f s "local_ip" (LocalIP c)) (map_int f s "local_port" (LocalPort c))
    (map_string f s "plugin" (Plugin c)) (PluginParams c).
Definition health_MapTo (f : ini_file) (s : string) (c : HealthCheckConf) : HealthCheckConf :=
  mkHealth (map_string f s "health_check_type" (HealthCheckType c))
    (map_int f s "health_check_timeout_s" (HealthCheckTimeoutS c))
    (map_int f s "health_check_max_failed" (HealthCheckMaxFailed c))
    (map_int f s "health_check_interval_s" (HealthCheckIntervalS c))
    (map_string f s "health_check_url" (HealthCheckURL c)).
(** The bandwidth is a structure of its own, which [decorate] reads. *)
Definition base_MapTo (f : ini_file) (s : string) (c : BaseProxyConf) : BaseProxyConf :=
  mkBaseProxy (map_string f s "name" (ProxyName c)) (map_string f s "type" (ProxyType c))
    (map_bool f s "use_encryption" (UseEncryption c)) (map_bool f s "use_compression" (UseCompression c))
    (map_string f s "group" (Group c)) (map_string f s "group_key" (GroupKey c))
    (map_string f s "proxy_protocol_version" (ProxyProtocolVersion c)) (BandwidthLimit c)
    (map_string f s "bandwidth_limit_mode" (BandwidthLimitMode c)) (Metas c)
    (local_MapTo f s (Local c)) (health_MapTo f s (Health c)).
Definition domain_MapTo (f : ini_file) (s : string) (d : DomainConf) : DomainConf :=
  mkDomain (map_strings f s "custom_domains" (CustomDomains d)) (map_string f s "subdomain" (SubDomain d)).
Definition role_MapTo (f : ini_file) (s : string) (r : RoleServerCommonConf) : RoleServerCommonConf :=
  mkRole (map_string f s "role" (Role r)) (map_string f s "sk" (Sk r)) (map_strings f s "allow_users" (AllowUsers r)).
Definition http_MapTo (f : ini_file) (s : string) (h : HTTPExtra) : HTTPExtra :=
  mkHTTPExtra (map_strings f s "locations" (Locations h)) (map_string f s "http_user" (HTTPUser h))
    (map_string f s "http_pwd" (HTTPPwd h)) (map_string f s "host_header_rewrite" (HostHeaderRewrite h)) (Headers h)
    (map_string f s "route_by_http_user" (RouteByHTTPUser h)).
Definition tcpmux_MapTo (f : ini_file) (s : string) (t : TCPMuxExtra) : TCPMuxExtra :=
  mkTCPMuxExtra (map_string f s "http_user" (tm_HTTPUser t)) (map_string f s "http_pwd" (tm_HTTPPwd t))
    (map_string f s "route_by_http_user" (tm_RouteByHTTPUser t)) (map_string f s "multiplexer" (Multiplexer t)).

(** [section.MapTo(cfg)]. *)
Definition proxy_MapTo (f : ini_file) (s : string) (c : ProxyConf) : ProxyConf :=
  match c with
  | TCPProxyConf b p => TCPProxyConf (base_MapTo f s b) (map_int f s "remote_port" p)
  | UDPProxyConf b p => UDPProxyConf (base_MapTo f s b) (map_int f s "remote_port" p)
  | TCPMuxProxyConf b d t => TCPMuxProxyConf (base_MapTo f s b) (domain_MapTo f s d) (tcpmux_MapTo f s t)
  | HTTPProxyConf b d h => HTTPProxyConf (base_MapTo f s b) (domain_MapTo f s d) (http_MapTo f s h)
  | HTTPSProxyConf b d => HTTPSProxyConf (base_MapTo f s b) (domain_MapTo f s d)
  | STCPProxyConf b r => STCPProxyConf (base_MapTo f s b) (role_MapTo f s r)
  | XTCPProxyConf b r => XTCPProxyConf (base_MapTo f s b) (role_MapTo f s r)
  | SUDPProxyConf b r => SUDPProxyConf (base_MapTo f s b) (role_MapTo f s r)
  end.

Definition set_base (b : BaseProxyConf) (c : ProxyConf) : ProxyConf :=
  match c with
  | TCPProxyConf _ p => TCPProxyConf b p
  | UDPProxyConf _ p => UDPProxyConf b p
  | TCPMuxProxyConf _ d t => TCPMuxProxyConf b d t
  | HTTPProxyConf _ d h => HTTPProxyConf b d h
  | HTTPSProxyConf _ d => HTTPSProxyConf b d
  | STCPProxyConf _ r => STCPProxyConf b r
  | XTCPProxyConf _ r => XTCPProxyConf b r
  | SUDPProxyConf _ r => SUDPProxyConf b r
  end.

Definition decorate (name : string) (f : ini_file) (s : string) (cfg : BaseProxyConf) : result ini_error BaseProxyConf :=
  let make bw := mkBaseProxy name (ProxyType cfg) (UseEncryption cfg) (UseCompression cfg) (Group cfg) (GroupKey cfg)
    (ProxyProtocolVersion cfg) bw (BandwidthLimitMode cfg) (GetMapWithoutPrefix (KeysHash f s) "meta_")
    (mkLocalSvr (LocalIP (Local cfg)) (LocalPort (Local cfg)) (Plugin (Local cfg))
       (GetMapByPrefix (KeysHash f s) "plugin_")) (Health cfg) in
  match GetKey f s "bandwidth_limit" with
  | None => Ok (make (BandwidthLimit cfg))
  | Some v => match NewBandwidthQuantity parse_scaled v with
              | Err e => Err (BandwidthInvalid e)
              | Ok q => Ok (make q)
              end
  end.

Definition preUnmarshalFromIni (cfg : ProxyConf) (name : string) (f : ini_file) (s : string) : result ini_error ProxyConf :=
  if negb (MapTo_ok f s) then Err MapToFails
  else let cfg := proxy_MapTo f s cfg in
       match decorate name f s (GetBaseConfig cfg) with
       | Err e => Err e
       | Ok b => Ok (set_base b cfg)
       end.

Definition default_role (r : RoleServerCommonConf) : RoleServerCommonConf :=
  mkRole (if Role r =s? "" then "server" else Role r) (Sk r) (AllowUsers r).

(** [UnmarshalFromIni] of the eight types. *)
Definition UnmarshalFromIni (cfg : ProxyConf) (name : string) (f : ini_file) (s : string) : result ini_error ProxyConf :=
  match preUnmarshalFromIni cfg name f s with
  | Err e => Err e
  | Ok cfg => Ok (match cfg with
      | HTTPProxyConf b d h => HTTPProxyConf b d (mkHTTPExtra (Locations h) (HTTPUser h) (HTTPPwd h)
          (HostHeaderRewrite h) (GetMapWithoutPrefix (KeysHash f s) "header_") (RouteByHTTPUser h))
      | STCPProxyConf b r => STCPProxyConf b (default_role r)
      | XTCPProxyConf b r => XTCPProxyConf b (default_role r)
      | cfg => cfg
      end)
  end.

(** The section is looked at by its name; the file comes back with the key that was missing. *)
Definition NewProxyConfFromIni (name : string) (f : ini_file) : result ini_error ProxyConf * ini_file :=
  let '(proxyType, f) := Key f name "type" in
  let proxyType := if proxyType =s? "" then "tcp" else proxyType in
  (match DefaultProxyConf proxyType with
   | None => Err (InvalidType proxyType)
   | Some conf => UnmarshalFromIni conf name f name
   end, f).
End read.
End LegacyProxy.

(** ** Visitors *)

Module LegacyVisitor.
Record BaseVisitorConf := mkBaseVisitor {
  ProxyName : string; ProxyType : string; UseEncryption : bool; UseCompression : bool; Role : string; Sk : string;
  ServerUser : string; ServerName : string; BindAddr : string; BindPort : Z }.
Record XTCPExtra := mkXTCPExtra {
  Protocol : string; KeepTunnelOpen : bool; MaxRetriesAnHour : Z; MinRetryInterval : Z; FallbackTo : string;
  FallbackTimeoutMs : Z }.
Inductive VisitorConf :=
| SUDPVisitorConf (b : BaseVisitorConf)
| STCPVisitorConf (b : BaseVisitorConf)
| XTCPVisitorConf (b : BaseVisitorConf) (x : XTCPExtra).

Definition GetBaseConfig (c : VisitorConf) : BaseVisitorConf :=
  match c with SUDPVisitorConf b | STCPVisitorConf b | XTCPVisitorConf b _ => b end.

Definition zero_base : BaseVisitorConf := mkBaseVisitor "" "" false false "" "" "" "" "" 0.

Definition DefaultVisitorConf (visitorType : string) : option VisitorConf :=
  if visitorType =s? "stcp" then Some (STCPVisitorConf zero_base)
  else if visitorType =s? "xtcp" then Some (XTCPVisitorConf zero_base (mkXTCPExtra "" false 0 0 "" 0))
  else if visitorType =s? "sudp" then Some (SUDPVisitorConf zero_base)
  else None.

Section read.
Context `{Ini}.

Definition base_MapTo (f : ini_file) (s : string) (c : BaseVisitorConf) : BaseVisitorConf :=
  mkBaseVisitor (map_string f s "name" (ProxyName c)) (map_string f s "type" (ProxyType c))
    (map_bool f s "use_encryption" (UseEncryption c)) (map_bool f s "use_compression" (UseCompression c))
    (map_string f s "role" (Role c)) (map_string f s "sk" (Sk c)) (map_string f s "server_user" (ServerUser c))
    (map_string f s "server_name" (ServerName c)) (map_string f s "bind_addr" (BindAddr c))
    (map_int f s "bind_port" (BindPort c)).
Definition xtcp_MapTo (f : ini_file) (s : string) (x : XTCPExtra) : XTCPExtra :=
  mkXTCPExtra (map_string f s "protocol" (Protocol x)) (map_bool f s "keep_tunnel_open" (KeepTunnelOpen x))
    (map_int f s "max_retries_an_hour" (MaxRetriesAnHour x)) (map_int f s "min_retry_interval" (MinRetryInterval x))
    (map_string f s "fallback_to" (FallbackTo x)) (map_int f s "fallback_timeout_ms" (FallbackTimeoutMs x)).

(** [(cfg *BaseVisitorConf) unmarshalFromIni]. *)
Definition base_unmarshal (name : string) (c : BaseVisitorConf) : BaseVisitorConf :=
  mkBaseVisitor name (ProxyType c) (UseEncryption c) (UseCompression c) (Role c) (Sk c) (ServerUser c) (ServerName c)
    (if BindAddr c =s? "" then "127.0.0.1" else BindAddr c) (BindPort c).

Definition preVisitorUnmarshalFromIni (cfg : VisitorConf) (name : string) (f : ini_file) (s : string)
    : result ini_error VisitorConf :=
  if negb (MapTo_ok f s) then Err MapToFails
  else let base b := base_unmarshal name (base_MapTo f s b) in
       Ok (match cfg with
           | SUDPVisitorConf b => SUDPVisitorConf (base b)
           | STCPVisitorConf b => STCPVisitorConf (base b)
           | XTCPVisitorConf b x => XTCPVisitorConf (base b) (xtcp_MapTo f s x)
           end).

Definition xtcp_defaults (x : XTCPExtra) : XTCPExtra :=
  mkXTCPExtra (if Protocol x =s? "" then "quic" else Protocol x) (KeepTunnelOpen x)
    (if MaxRetriesAnHour x <=? 0 then 8 else MaxRetriesAnHour x)
    (if MinRetryInterval x <=? 0 then 90 else MinRetryInterval x) (FallbackTo x)
    (if FallbackTimeoutMs x <=? 0 then 1000 else FallbackTimeoutMs x).

Definition UnmarshalFromIni (cfg : VisitorConf) (name : string) (f : ini_file) (s : string)
    : result ini_error VisitorConf :=
  match preVisitorUnmarshalFromIni cfg name f s with
  | Err e => Err e
  | Ok (XTCPVisitorConf b x) => Ok (XTCPVisitorConf b (xtcp_defaults x))
  | Ok cfg => Ok cfg
  end.

Definition NewVisitorConfFromIni (name : string) (f : ini_file) : result ini_error VisitorConf * ini_file :=
  let '(visitorType, f) := Key f name "type" in
  (if visitorType =s? "" then Err TypeEmpty
   else match DefaultVisitorConf visitorType with
        | None => Err (InvalidType visitorType)
        | Some conf => match UnmarshalFromIni conf name f name with
                       | Ok c => Ok c
                       | Err _ => Err (InvalidType visitorType)
                       end
        end, f).
End read.
End LegacyVisitor.
