(* ===== verification/LegacyLoad.v ===== *)
(** Reading an old ini file: the templates of [src/pkg/config/legacy/value.go], the range
    sections and the loop over the sections of [src/pkg/config/legacy/client.go] and
    [ParseClientConfig] with its includes, [src/pkg/config/legacy/parse.go]. *)
From Stdlib Require Import ZArith Lia Ascii String.
From stdpp Require Import base gmap strings numbers list.
From S2P Require Import Prelude GoStrings Ports Ranges LegacyIni CommonConf ProxyConf ClientLoad LegacyConf HttpAuth.
Import LegacyClient LegacyProxy LegacyVisitor LegacyServer.
Local Open Scope string_scope.
Local Open Scope list_scope.

(** ** The environment a template is rendered with *)

(** [init]: an entry without an equals sign is skipped, a later one replaces an earlier one. *)
Definition glbEnvs (environ : list string) : gmap string string :=
  foldl (λ m env, match Cut env "="%char with Some (k, v) => <[k := v]> m | None => m end) ∅ environ.

(** ** Range sections *)

Section load.
Context `{Ini}.
(** [strconv.ParseFloat] scaled; the fuel of [ParseRangeNumbers]. *)
Variable parse_scaled : string → Z → option Z.
Variable fuel : nat.

Definition copySection (f : ini_file) (source target : string) : ini_file :=
  foldl (λ f kv, default f (NewKey f target (fst kv) (snd kv))) f (map_to_list (KeysHash f source)).

Definition template_name (section : string) (i : nat) : string :=
  TrimSpace (TrimPrefix section "range:") +:+ "_" +:+ Itoa (Z.of_nat i).

(** The loop over the ports, from the [i]-th. *)
Fixpoint render_ports (section : string) (i : nat) (ports : list (Z * Z)) (f : ini_file) : result ini_error ini_file :=
  match ports with
  | [] => Ok f
  | (lp, rp) :: rest =>
      let tmpname := template_name section i in
      match NewSection f tmpname with
      | None => Err NewSectionFails
      | Some f =>
          let f := copySection f section tmpname in
          match NewKey f tmpname "local_port" (Itoa lp) with
          | None => Err NewKeyFails
          | Some f => match NewKey f tmpname "remote_port" (Itoa rp) with
                      | None => Err NewKeyFails
                      | Some f => render_ports section (S i) rest f
                      end
          end
      end
  end.

(** [None] is running out of fuel in a range. *)
Definition renderRangeProxyTemplates (f : ini_file) (section : string) : option (result ini_error ini_file) :=
  let '(localPortStr, f) := Key f section "local_port" in
  let '(remotePortStr, f) := Key f section "remote_port" in
  if (localPortStr =s? "") || (remotePortStr =s? "") then Some (Err PortsEmpty) else
  match ParseRangeNumbers fuel localPortStr with
  | None => None
  | Some (Err e) => Some (Err (PortsInvalid e))
  | Some (Ok localPorts) =>
      match ParseRangeNumbers fuel remotePortStr with
      | None => None
      | Some (Err e) => Some (Err (PortsInvalid e))
      | Some (Ok remotePorts) =>
          Some (if negb (length localPorts =? length remotePorts)%nat then Err PortsDiffer
                else if (length localPorts =? 0)%nat then Err PortsNone
                else render_ports section 0 (zip localPorts remotePorts) f)
      end
  end.

Fixpoint render_all (sections : list string) (f : ini_file) : option (result ini_error ini_file) :=
  match sections with
  | [] => Some (Ok f)
  | s :: rest => match renderRangeProxyTemplates f s with
                 | None => None
                 | Some (Err e) => Some (Err (RangeFails s e))
                 | Some (Ok f) => render_all rest f
                 end
  end.

(** ** The sections *)

Definition confs : Type := gmap string ProxyConf * gmap string VisitorConf.

Definition skipped (start : list string) (name : string) : bool :=
  (name =s? DefaultSection) || (name =s? "common") || HasPrefix name "range:" ||
  negb (bool_decide (start = []) || contains start name).

Fixpoint load_sections (prefix : string) (start sections : list string) (f : ini_file) (r : confs)
    : result ini_error confs :=
  match sections with
  | [] => Ok r
  | name :: rest =>
      if skipped start name then load_sections prefix start rest f r
      else
        let '(roleType, f) := Key f name "role" in
        let roleType := if roleType =s? "" then "server" else roleType in
        if roleType =s? "server" then
          match NewProxyConfFromIni parse_scaled name f with
          | (Err e, _) => Err (ProxyFails name e)
          | (Ok c, f) => load_sections prefix start rest f (<[prefix +:+ name := c]> (fst r), snd r)
          end
        else if roleType =s? "visitor" then
          match NewVisitorConfFromIni name f with
          | (Err e, _) => Err (VisitorFails name e)
          | (Ok c, f) => load_sections prefix start rest f (fst r, <[prefix +:+ name := c]> (snd r))
          end
        else Err (RoleInvalid name)
  end.

Definition user_prefix (user : string) : string := if user =s? "" then "" else user +:+ ".".

Definition range_sections (f : ini_file) : list string := filter (λ s, HasPrefix s "range:" = true) (Sections f).

Definition LoadAllProxyConfsFromIni (prefix source : string) (start : list string) : option (result ini_error confs) :=
  match LoadSources source with
  | None => Some (Err LoadFails)
  | Some f =>
      match render_all (range_sections f) f with
      | None => None
      | Some (Err e) => Some (Err e)
      | Some (Ok f) => Some (load_sections (user_prefix prefix) start (Sections f) f (∅, ∅))
      end
  end.

(** ** Files *)

Variable os_ReadFile : string → option string.
Variable render : string → option string.             (* the template with the environment *)
Variable list_dir : string → option (string * list (string * bool)).
Variable filepath_Match : string → string → bool.
Variable filepath_Join : string → string → string.
Variable filepath_Base : string → string.
Variable dir : string → dir_state.

Definition RenderContent (b : string) : result ini_error string :=
  match render b with None => Err TemplateFails | Some out => Ok out end.

Definition GetRenderedConfFromFile (path : string) : result ini_error string :=
  match os_ReadFile path with
  | None => Err FileFails
  | Some b => RenderContent b
  end.

Fixpoint rendered_files (files : list string) : result ini_error string :=
  match files with
  | [] => Ok ""
  | p :: rest => try c := GetRenderedConfFromFile p in
                 try cs := rendered_files rest in Ok (c +:+ String newline cs)
  end.

Fixpoint getIncludeContents (paths : list string) : result ini_error string :=
  match paths with
  | [] => Ok ""
  | p :: rest => match matched_files list_dir filepath_Match filepath_Join filepath_Base p with
                 | None => Err IncludeFails
                 | Some fs => try c := rendered_files fs in
                              try cs := getIncludeContents rest in Ok (c +:+ cs)
                 end
  end.

Definition ParseClientConfig (filePath : string) : option (result ini_error (ClientCommonConf * confs)) :=
  match GetRenderedConfFromFile filePath with
  | Err e => Some (Err e)
  | Ok content =>
      match UnmarshalClientConfFromIni content with
      | Err e => Some (Err e)
      | Ok cfg =>
          match Validate dir cfg with
          | Err e => Some (Err (CommonInvalid e))
          | Ok _ =>
              match getIncludeContents (IncludeConfigFiles cfg) with
              | Err _ => Some (Err IncludeFails)
              | Ok buf =>
                  match LoadAllProxyConfsFromIni (User cfg) (content +:+ String newline buf) (Start cfg) with
                  | None => None
                  | Some (Err e) => Some (Err e)
                  | Some (Ok r) => Some (Ok (cfg, r))
                  end
              end
          end
      end
  end.
End load.

(** ** What the range sections become *)

Lemma Itoa_inj a b : (0 <= a <= int64_max)%Z → (0 <= b <= int64_max)%Z → Itoa a = Itoa b → a = b.
Proof. intros Ha Hb E. pose proof (ParseInt_Itoa a Ha) as H. rewrite E, ParseInt_Itoa in H by done. congruence. Qed.

Lemma append_nonempty a b : b ≠ "" → a +:+ b ≠ "".
Proof. by destruct a. Qed.

Section ranges.
Context `{IniLaws}.

Lemma template_name_nonempty s i : template_name s i ≠ "".
Proof. unfold template_name. by apply append_nonempty. Qed.

Lemma template_name_inj s i j :
  (Z.of_nat i <= int64_max)%Z → (Z.of_nat j <= int64_max)%Z → template_name s i = template_name s j → i = j.
Proof.
  unfold template_name. intros Hi Hj E%append_inj_l%append_inj_l. apply Itoa_inj in E; lia.
Qed.

(** Keys copied in any order end up over the keys the target had. *)
Lemma copy_keys (l : list (string * string)) f target :
  target ∈ Sections f → NoDup l.*1 → "" ∉ l.*1 →
  let f' := foldl (λ f kv, default f (NewKey f target (fst kv) (snd kv))) f l in
  Sections f' = Sections f ∧ KeysHash f' target = list_to_map l ∪ KeysHash f target ∧
  ∀ s, s ≠ target → KeysHash f' s = KeysHash f s.
Proof using H H0.
  revert f. induction l as [|[k v] l IH]; intros f Ht Hd Hne; simpl in *.
  { rewrite (left_id_L ∅ (∪)). done. }
  apply NoDup_cons in Hd as [Hk Hd]. apply not_elem_of_cons in Hne as [Hk0 Hne].
  destruct (NewKey_ok f target k v (not_eq_sym Hk0) Ht) as [f1 Hf1]. rewrite Hf1. simpl.
  destruct (NewKey_spec _ _ _ _ _ Ht Hf1) as (HS & HK & HO).
  destruct (IH f1) as (HS' & HK' & HO'); [by rewrite HS|done..|].
  split_and!; [congruence| |intros s Hs; by rewrite HO', HO].
  rewrite HK', HK. apply map_eq. intros x. rewrite !lookup_union.
  destruct (decide (x = k)) as [->|Hxk].
  - rewrite !lookup_insert_eq. rewrite (not_elem_of_list_to_map_1 l k) by done.
    by destruct (KeysHash f target !! k).
  - by rewrite !lookup_insert_ne.
Qed.

Lemma copySection_spec f source target :
  target ∈ Sections f → KeysHash f source !! "" = None →
  Sections (copySection f source target) = Sections f ∧
  KeysHash (copySection f source target) target = KeysHash f source ∪ KeysHash f target ∧
  ∀ s, s ≠ target → KeysHash (copySection f source target) s = KeysHash f s.
Proof using H H0.
  intros Ht Hempty. destruct (copy_keys (map_to_list (KeysHash f source)) f target Ht) as (HS & HK & HO).
  - apply NoDup_fst_map_to_list.
  - intros Hin. apply list_elem_of_fmap in Hin as ([k v] & Hk & Hin). simpl in Hk. subst k.
    apply elem_of_map_to_list in Hin. congruence.
  - unfold copySection. rewrite list_to_map_to_list in HK. done.
Qed.

(** What one template section holds: the keys of the range section over what the section
    had, with the two ports. *)
Definition template_keys (range old : gmap string string) (lp rp : Z) : gmap string string :=
  <["remote_port" := Itoa rp]> (<["local_port" := Itoa lp]> (range ∪ old)).

Fixpoint template_names (s : string) (i n : nat) : list string :=
  match n with O => [] | S n => template_name s i :: template_names s (S i) n end.

Lemma template_names_elem s i n x : x ∈ template_names s i n ↔ ∃ j, i ≤ j < i + n ∧ x = template_name s j.
Proof.
  revert i. induction n as [|n IH]; intros i; simpl.
  { split; [by intros ?%not_elem_of_nil|intros (j & ? & _); lia]. }
  rewrite elem_of_cons, IH. split.
  - intros [->|(j & ? & ->)]; [exists i; split; [lia|done]|exists j; split; [lia|done]].
  - intros (j & ? & ->). destruct (decide (j = i)) as [->|]; [by left|]. right. exists j. split; [lia|done].
Qed.

Lemma render_step s i lp rp f :
  s ∈ Sections f → KeysHash f s !! "" = None →
  ∃ f1, (∀ rest, render_ports s i ((lp, rp) :: rest) f = render_ports s (S i) rest f1) ∧
    Sections f1 = (if decide (template_name s i ∈ Sections f) then Sections f else Sections f ++ [template_name s i]) ∧
    KeysHash f1 (template_name s i) = template_keys (KeysHash f s) (KeysHash f (template_name s i)) lp rp ∧
    ∀ x, x ≠ template_name s i → KeysHash f1 x = KeysHash f x.
Proof using H H0.
  intros Hs Hempty. set (t := template_name s i).
  destruct (NewSection_ok f t) as [g Hg]; [apply template_name_nonempty|].
  destruct (NewSection_spec _ _ _ Hg) as [HS1 HK1].
  assert (t ∈ Sections g) as Ht. { rewrite HS1. case_decide; [done|]. apply elem_of_app. right. by apply list_elem_of_singleton. }
  destruct (copySection_spec g s t Ht) as (HS2 & HK2 & HO2); [by rewrite HK1|].
  set (g2 := copySection g s t) in *. assert (t ∈ Sections g2) as Ht2 by (by rewrite HS2).
  destruct (NewKey_ok g2 t "local_port" (Itoa lp)) as [g3 Hg3]; [done..|].
  destruct (NewKey_spec _ _ _ _ _ Ht2 Hg3) as (HS3 & HK3 & HO3).
  assert (t ∈ Sections g3) as Ht3 by (by rewrite HS3).
  destruct (NewKey_ok g3 t "remote_port" (Itoa rp)) as [g4 Hg4]; [done..|].
  destruct (NewKey_spec _ _ _ _ _ Ht3 Hg4) as (HS4 & HK4 & HO4).
  exists g4. split_and!.
  - intros rest. simpl. fold t. rewrite Hg. fold g2. by rewrite Hg3, Hg4.
  - congruence.
  - rewrite HK4, HK3, HK2, !HK1. done.
  - intros x Hx. by rewrite HO4, HO3, HO2, HK1.
Qed.

Lemma render_ports_spec s ports : ∀ i f,
  s ∈ Sections f → KeysHash f s !! "" = None → s ∉ template_names s i (length ports) →
  (Z.of_nat (i + length ports) <= int64_max)%Z →
  ∃ f', render_ports s i ports f = Ok f' ∧
    (∀ x, x ∈ Sections f' ↔ x ∈ Sections f ∨ x ∈ template_names s i (length ports)) ∧
    (∀ j lp rp, ports !! j = Some (lp, rp) →
       KeysHash f' (template_name s (i + j)) = template_keys (KeysHash f s) (KeysHash f (template_name s (i + j))) lp rp) ∧
    (∀ x, x ∉ template_names s i (length ports) → KeysHash f' x = KeysHash f x).
Proof using H H0.
  induction ports as [|[lp rp] ports IH]; intros i f Hs Hempty Hself Hb; simpl in *.
  { exists f. split_and!; [done| |done|done]. intros x. rewrite elem_of_nil. tauto. }
  apply not_elem_of_cons in Hself as [Hself0 Hself].
  destruct (render_step s i lp rp f Hs Hempty) as (f1 & Hr & HS & HK & HO).
  assert (s ∈ Sections f1) as Hs1. { rewrite HS. case_decide; [done|]. apply elem_of_app. by left. }
  destruct (IH (S i) f1) as (f' & Hf' & HS' & HK' & HO'); [done|by rewrite HO|done|lia|].
  exists f'. split_and!.
  - pose proof (Hr ports) as Hr'. simpl in Hr'. by rewrite Hr'.
  - intros x. rewrite HS', HS, elem_of_cons. case_decide as Hd.
    + split; [tauto|]. intros [?|[->|?]]; tauto.
    + rewrite elem_of_app, list_elem_of_singleton. tauto.
  - intros [|j] lp' rp' Hj; simpl in Hj.
    + injection Hj as <- <-. rewrite Nat.add_0_r. rewrite HO', HK; [done|].
      rewrite template_names_elem. intros (j & Hj & E). apply template_name_inj in E; lia.
    + rewrite <-Nat.add_succ_comm. rewrite (HK' _ _ _ Hj), HO by done. f_equal. apply HO.
      intros E. pose proof (lookup_lt_Some _ _ _ Hj). apply template_name_inj in E; lia.
  - intros x Hx. apply not_elem_of_cons in Hx as [??]. by rewrite HO', HO.
Qed.
End ranges.

(** ** What the sections become *)

Section sections.
Context `{IniLaws}.
Variable parse_scaled : string → Z → option Z.

Definition looked_up : list string := ["role"; "type"].

Definition role_of (f : ini_file) (name : string) : string :=
  let r := fst (Key f name "role") in if r =s? "" then "server" else r.

Lemma decorate_name name f s b b' : decorate parse_scaled name f s b = Ok b' → LegacyProxy.ProxyName b' = name.
Proof. unfold decorate. repeat case_match; naive_solver. Qed.

Lemma UnmarshalFromIni_shape c name f s c' :
  LegacyProxy.UnmarshalFromIni parse_scaled c name f s = Ok c' →
  LegacyProxy.ProxyName (LegacyProxy.GetBaseConfig c') = name ∧ conf_type c' = conf_type c.
Proof.
  unfold LegacyProxy.UnmarshalFromIni, preUnmarshalFromIni. destruct (MapTo_ok f s); simpl; [|done].
  destruct (decorate _ _ _ _ _) as [b|] eqn:E; simpl; [|done]. apply decorate_name in E.
  by destruct c; intros [= <-].
Qed.

Lemma NewConfByType_type ty c : NewConfByType ty = Some c → conf_type c = ty.
Proof.
  unfold NewConfByType. repeat (case_match; [intros [= <-]; simpl; by match goal with
    H : (_ =s? _) = true |- _ => apply seqb_true in H end|]). done.
Qed.

Lemma NewProxyConf_name name f c f' :
  NewProxyConfFromIni parse_scaled name f = (Ok c, f') → LegacyProxy.ProxyName (LegacyProxy.GetBaseConfig c) = name.
Proof.
  unfold NewProxyConfFromIni. destruct (Key f name "type") as [ty f1].
  destruct (DefaultProxyConf _) as [c0|]; [|done]. intros [= Hu <-]. by apply UnmarshalFromIni_shape in Hu as [? _].
Qed.

Lemma NewVisitorConf_name name f c f' :
  NewVisitorConfFromIni name f = (Ok c, f') → LegacyVisitor.ProxyName (LegacyVisitor.GetBaseConfig c) = name.
Proof.
  unfold NewVisitorConfFromIni, LegacyVisitor.UnmarshalFromIni, preVisitorUnmarshalFromIni.
  destruct (Key f name "type") as [ty f1]. destruct (ty =s? ""); [done|].
  destruct (DefaultVisitorConf ty) as [c0|]; [|done]. destruct (MapTo_ok f1 name); simpl; [|done].
  by destruct c0; intros [= <- <-].
Qed.

Lemma New_added name f :
  name ∈ Sections f →
  added looked_up f (snd (NewProxyConfFromIni parse_scaled name f)) ∧ added looked_up f (snd (NewVisitorConfFromIni name f)).
Proof using H H0.
  intros Hn. pose proof (Key_added looked_up f name "type" Hn) as HK.
  unfold NewProxyConfFromIni, NewVisitorConfFromIni. destruct (Key f name "type") as [ty f1]. simpl in *.
  split; (apply HK; [by right; left|done]).
Qed.

(** What the map of proxies and the map of visitors hold for one section that is not skipped. *)
Definition section_loaded (prefix : string) (f0 : ini_file) (r : confs) (name : string) : Prop :=
  ∃ f, added looked_up f0 f ∧
    ((role_of f name = "server" ∧ snd r !! (prefix +:+ name) = None ∧ ∃ c f',
        NewProxyConfFromIni parse_scaled name (snd (Key f name "role")) = (Ok c, f') ∧ fst r !! (prefix +:+ name) = Some c) ∨
     (role_of f name = "visitor" ∧ fst r !! (prefix +:+ name) = None ∧ ∃ c f',
        NewVisitorConfFromIni name (snd (Key f name "role")) = (Ok c, f') ∧ snd r !! (prefix +:+ name) = Some c)).

Definition section_refused (f0 : ini_file) (name : string) : Prop :=
  ∃ f, added looked_up f0 f ∧
    ((role_of f name = "server" ∧ ∃ e, fst (NewProxyConfFromIni parse_scaled name (snd (Key f name "role"))) = Err e) ∨
     (role_of f name = "visitor" ∧ ∃ e, fst (NewVisitorConfFromIni name (snd (Key f name "role"))) = Err e) ∨
     (role_of f name ≠ "server" ∧ role_of f name ≠ "visitor")).

(** What the loop makes of some sections, starting from the maps [r]: every section is loaded
    or skipped and nothing else changes, or one of them is refused. *)
Definition outcome (prefix : string) (start : list string) (f0 : ini_file) (sections : list string) (r : confs)
    (res : result ini_error confs) : Prop :=
  match res with
  | Ok r' =>
      (∀ n, n ∈ sections → skipped start n = false → section_loaded prefix f0 r' n) ∧
      (∀ n, n ∈ sections → skipped start n = true → fst r' !! (prefix +:+ n) = None ∧ snd r' !! (prefix +:+ n) = None) ∧
      (∀ k, (∀ n, n ∈ sections → k ≠ prefix +:+ n) → fst r' !! k = fst r !! k ∧ snd r' !! k = snd r !! k)
  | Err _ => ∃ n, n ∈ sections ∧ skipped start n = false ∧ section_refused f0 n
  end.

(** One more section in front, which adds at most its own entry. *)
Lemma outcome_cons prefix start f0 n l r r2 res :
  n ∉ l → outcome prefix start f0 l r2 res →
  (∀ k, k ≠ prefix +:+ n → fst r2 !! k = fst r !! k ∧ snd r2 !! k = snd r !! k) →
  (∀ r3, fst r3 !! (prefix +:+ n) = fst r2 !! (prefix +:+ n) → snd r3 !! (prefix +:+ n) = snd r2 !! (prefix +:+ n) →
     if skipped start n then fst r3 !! (prefix +:+ n) = None ∧ snd r3 !! (prefix +:+ n) = None
     else section_loaded prefix f0 r3 n) →
  outcome prefix start f0 (n :: l) r res.
Proof.
  intros Hn Hout Hother Hhere. destruct res as [r'|e]; simpl in *.
  2: { destruct Hout as (m & Hm & ?). exists m. split; [by right|done]. }
  destruct Hout as (IH1 & IH2 & IH3). destruct (IH3 (prefix +:+ n)) as [E1 E2]; [by intros m Hm ->%append_inj_l|].
  specialize (Hhere r' E1 E2). split_and!.
  - intros m [->|Hm]%elem_of_cons Hs; [by rewrite Hs in Hhere|by apply IH1].
  - intros m [->|Hm]%elem_of_cons Hs; [by rewrite Hs in Hhere|by apply IH2].
  - intros k Hk. destruct (IH3 k) as [-> ->]; [intros m Hm; apply Hk; by right|]. apply Hother, Hk. by left.
Qed.

Lemma load_sections_spec prefix start f0 sections : ∀ f r,
  NoDup sections → sections ⊆ Sections f0 → added looked_up f0 f →
  (∀ n, n ∈ sections → fst r !! (prefix +:+ n) = None ∧ snd r !! (prefix +:+ n) = None) →
  outcome prefix start f0 sections r (load_sections parse_scaled prefix start sections f r).
Proof using H H0.
  induction sections as [|n l IH]; intros f r Hnd Hsub Hadd Hfree; simpl.
  { split_and!; [by intros ? ?%not_elem_of_nil..|done]. }
  apply NoDup_cons in Hnd as [Hn Hnd]. assert (n ∈ Sections f0) as Hin by (apply Hsub; by left).
  assert (l ⊆ Sections f0) as Hsub' by (intros x Hx; apply Hsub; by right).
  destruct (Hfree n) as [Hfp Hfv]; [by left|].
  assert (∀ f2 r2, added looked_up f0 f2 →
    (∀ k, k ≠ prefix +:+ n → fst r2 !! k = fst r !! k ∧ snd r2 !! k = snd r !! k) →
    outcome prefix start f0 l r2 (load_sections parse_scaled prefix start l f2 r2)) as IH'.
  { intros f2 r2 Hadd2 Hother. apply IH; [done..|]. intros m Hm.
    destruct (Hother (prefix +:+ m)) as [-> ->]; [by intros ->%append_inj_l|]. apply Hfree. by right. }
  destruct (skipped start n) eqn:Hskip.
  { eapply outcome_cons; [done|by apply IH'|done|]. rewrite Hskip. by intros r3 -> ->. }
  assert (added looked_up f (snd (Key f n "role"))) as Hrole.
  { apply Key_added; [|by left|done]. by destruct Hadd as [-> _]. }
  assert (n ∈ Sections (snd (Key f n "role"))) as Hin1. { by destruct Hrole as [-> _], Hadd as [-> _]. }
  destruct (New_added n _ Hin1) as [HnewP HnewV].
  assert (role_of f n = (if fst (Key f n "role") =s? "" then "server" else fst (Key f n "role"))) as Hr by done.
  destruct (Key f n "role") as [role f1] eqn:EK. simpl in *.
  destruct (_ =s? "server") eqn:Es; [apply seqb_true in Es|apply seqb_false in Es].
  { destruct (NewProxyConfFromIni parse_scaled n f1) as [[c|e] f2] eqn:EN; simpl in *.
    2: { exists n. split_and!; [by left|done|]. exists f. split; [done|]. left. rewrite Hr, EK. simpl. rewrite EN. by eauto. }
    eapply outcome_cons; [done|apply IH'| |].
    1: by etrans; [exact Hadd|etrans].
    1-2: by intros k Hk; simpl; rewrite lookup_insert_ne.
    rewrite Hskip. intros r3 E1 E2. simpl in *. rewrite lookup_insert_eq in E1. exists f. split; [done|]. left.
    rewrite Hr, EK, E2. simpl. by eauto 10. }
  destruct (_ =s? "visitor") eqn:Ev; [apply seqb_true in Ev|apply seqb_false in Ev].
  - destruct (NewVisitorConfFromIni n f1) as [[c|e] f2] eqn:EN; simpl in *.
    2: { exists n. split_and!; [by left|done|]. exists f. split; [done|]. right. left. rewrite Hr, EK. simpl. rewrite EN. by eauto. }
    eapply outcome_cons; [done|apply IH'| |].
    1: by etrans; [exact Hadd|etrans].
    1-2: by intros k Hk; simpl; rewrite lookup_insert_ne.
    rewrite Hskip. intros r3 E1 E2. simpl in *. rewrite lookup_insert_eq in E2. exists f. split; [done|]. right.
    rewrite Hr, EK, E1. simpl. by eauto 10.
  - exists n. split_and!; [by left|done|]. exists f. split; [done|]. right. right. by rewrite Hr.
Qed.
End sections.
