(* ===== verification/LegacyConvert.v ===== *)
(** Old configurations turned into new ones, [src/pkg/config/legacy/conversion.go], and the
    loading of a server's file in either format, [LoadServerConfig] of
    [src/pkg/config/load.go], with the client's old files as the new ones are loaded. *)
From Stdlib Require Import ZArith Lia Ascii String.
From stdpp Require Import base gmap strings numbers list.
From S2P Require Import Prelude GoStrings Ports Ranges LegacyIni ProxyConf VisitorConf PluginConf CommonConf Decode ClientLoad LegacyConf LegacyLoad.
Local Open Scope string_scope.
Local Open Scope list_scope.
Local Open Scope Z_scope.

(** ** The client *)

Definition auth_scopes (c : LegacyAuth.BaseConfig) : list string :=
  (if LegacyAuth.AuthenticateHeartBeats c then ["HeartBeats"] else []) ++
  (if LegacyAuth.AuthenticateNewWorkConns c then ["NewWorkConns"] else []).

Definition Convert_ClientCommonConf_To_v1 (conf : LegacyClient.ClientCommonConf) : ClientCommonConfig :=
  let auth := LegacyClient.Auth conf in let base := LegacyAuth.ca_Base auth in let oidc := LegacyAuth.ca_Oidc auth in
  mkClientCommon
    (mkAuth (LegacyAuth.AuthenticationMethod base) (auth_scopes base) (LegacyAuth.Token (LegacyAuth.ca_Token auth)) None
       (mkOIDC (LegacyAuth.OidcClientID oidc) (LegacyAuth.OidcClientSecret oidc) (LegacyAuth.OidcAudience oidc)
          (LegacyAuth.OidcScope oidc) (LegacyAuth.OidcTokenEndpointURL oidc)
          (LegacyAuth.OidcAdditionalEndpointParams oidc) "" false "" None))
    (LegacyClient.User conf) "" (LegacyClient.ServerAddr conf) (LegacyClient.ServerPort conf)
    (LegacyClient.NatHoleSTUNServer conf) (LegacyClient.DNSServer conf) (Some (LegacyClient.LoginFailExit conf))
    (LegacyClient.Start conf)
    (mkLog (LegacyClient.LogFile conf) (LegacyClient.LogLevel conf) (LegacyClient.LogMaxDays conf)
       (LegacyClient.DisableLogColor conf))
    (mkWeb (LegacyClient.AdminAddr conf) (LegacyClient.AdminPort conf) (LegacyClient.AdminUser conf)
       (LegacyClient.AdminPwd conf) (LegacyClient.AssetsDir conf) (LegacyClient.PprofEnable conf) None)
    (mkClientTransport (LegacyClient.Protocol conf) (LegacyClient.DialServerTimeout conf)
       (LegacyClient.DialServerKeepAlive conf) (LegacyClient.ConnectServerLocalIP conf) (LegacyClient.HTTPProxy conf)
       (LegacyClient.PoolCount conf) (Some (LegacyClient.TCPMux conf)) (LegacyClient.TCPMuxKeepaliveInterval conf)
       (mkQUIC (LegacyClient.QUICKeepalivePeriod conf) (LegacyClient.QUICMaxIdleTimeout conf)
          (LegacyClient.QUICMaxIncomingStreams conf))
       (LegacyClient.HeartbeatInterval conf) (LegacyClient.HeartbeatTimeout conf)
       (mkTLSClient (Some (LegacyClient.TLSEnable conf)) (Some (LegacyClient.DisableCustomTLSFirstByte conf))
          (mkTLS (LegacyClient.TLSCertFile conf) (LegacyClient.TLSKeyFile conf) (LegacyClient.TLSTrustedCaFile conf)
             (LegacyClient.TLSServerName conf))))
    "" ∅ (LegacyClient.UDPPacketSize conf) (LegacyClient.Metas conf) (LegacyClient.IncludeConfigFiles conf) "".

(** ** The server *)

Definition plugin_To_v1 (v : LegacyServer.HTTPPluginOptions) : ServerConf.HTTPPluginOptions :=
  ServerConf.mkHTTPPlugin (LegacyServer.hpo_Name v) (LegacyServer.hpo_Addr v) (LegacyServer.hpo_Path v)
    (LegacyServer.hpo_Ops v) (LegacyServer.hpo_TLSVerify v).

Definition range_triple (r : PortsRange) : Z * Z * Z := (Ports.Start r, End_ r, Single r).

(** [out.AllowPorts, _ = NewPortsRangeSliceFromString(s)]. *)
Definition allow_ports (s : string) : list (Z * Z * Z) :=
  match NewPortsRangeSliceFromString s with Ok l => range_triple <$> l | Err _ => [] end.

Definition Convert_ServerCommonConf_To_v1 (conf : LegacyServer.ServerCommonConf) : ServerConf.ServerConfig :=
  let auth := LegacyServer.Auth conf in let base := LegacyAuth.sa_Base auth in let oidc := LegacyAuth.sa_Oidc auth in
  ServerConf.mkServer
    (ServerConf.mkAuthServer (LegacyAuth.AuthenticationMethod base) (auth_scopes base)
       (LegacyAuth.Token (LegacyAuth.sa_Token auth)) None
       (ServerConf.mkOIDCServer (LegacyAuth.OidcIssuer oidc) (LegacyAuth.oss_OidcAudience oidc)
          (LegacyAuth.OidcSkipExpiryCheck oidc) (LegacyAuth.OidcSkipIssuerCheck oidc)))
    (LegacyServer.BindAddr conf) (LegacyServer.BindPort conf) (LegacyServer.KCPBindPort conf)
    (LegacyServer.QUICBindPort conf) (LegacyServer.ProxyBindAddr conf) (LegacyServer.VhostHTTPPort conf)
    (LegacyServer.VhostHTTPTimeout conf) (LegacyServer.VhostHTTPSPort conf) (LegacyServer.TCPMuxHTTPConnectPort conf)
    (LegacyServer.TCPMuxPassthrough conf) (LegacyServer.SubDomainHost conf) (LegacyServer.Custom404Page conf)
    (ServerConf.mkSSH 0 "" "" "")
    (mkWeb (LegacyServer.DashboardAddr conf) (LegacyServer.DashboardPort conf) (LegacyServer.DashboardUser conf)
       (LegacyServer.DashboardPwd conf) (LegacyServer.AssetsDir conf)
       (if LegacyServer.DashboardTLSMode conf then LegacyServer.PprofEnable conf else false)
       (if LegacyServer.DashboardTLSMode conf then
          Some (mkTLS (LegacyServer.DashboardTLSCertFile conf) (LegacyServer.DashboardTLSKeyFile conf) "" "")
        else None))
    (LegacyServer.EnablePrometheus conf)
    (mkLog (LegacyServer.LogFile conf) (LegacyServer.LogLevel conf) (LegacyServer.LogMaxDays conf)
       (LegacyServer.DisableLogColor conf))
    (ServerConf.mkServerTransport (Some (LegacyServer.TCPMux conf)) (LegacyServer.TCPMuxKeepaliveInterval conf)
       (LegacyServer.TCPKeepAlive conf) (LegacyServer.MaxPoolCount conf) (LegacyServer.HeartbeatTimeout conf)
       (mkQUIC (LegacyServer.QUICKeepalivePeriod conf) (LegacyServer.QUICMaxIdleTimeout conf)
          (LegacyServer.QUICMaxIncomingStreams conf))
       (LegacyServer.TLSOnly conf)
       (mkTLS (LegacyServer.TLSCertFile conf) (LegacyServer.TLSKeyFile conf) (LegacyServer.TLSTrustedCaFile conf) ""))
    (Some (LegacyServer.DetailedErrorsToClient conf)) (LegacyServer.MaxPortsPerClient conf)
    (LegacyServer.UserConnTimeout conf) (LegacyServer.UDPPacketSize conf)
    (LegacyServer.NatHoleAnalysisDataReserveHours conf) (allow_ports (LegacyServer.AllowPortsStr conf))
    (plugin_To_v1 <$> (snd <$> map_to_list (LegacyServer.HTTPPlugins conf))).

(** ** Proxies *)

Definition transformHeadersFromPluginParams (params : gmap string string) : gmap string string :=
  map_fold (λ k v out, match CutPrefix k "plugin_header_" with
                       | None => out
                       | Some k => if k =s? "" then out else <[k := v]> out
                       end) ∅ params.

(** The options of a plugin, [None] for a name the switch does not have. *)
Definition plugin_options (name : string) (params : gmap string string) : option ClientPluginOptions :=
  let p k := default "" (params !! k) in
  let headers := transformHeadersFromPluginParams params in
  if name =s? "http2https" then
    Some (HTTP2HTTPSPluginOptions "" (p "plugin_local_addr") (p "plugin_host_header_rewrite") headers)
  else if name =s? "http_proxy" then Some (HTTPProxyPluginOptions "" (p "plugin_http_user") (p "plugin_http_passwd"))
  else if name =s? "https2http" then
    Some (HTTPS2HTTPPluginOptions "" (p "plugin_local_addr") (p "plugin_host_header_rewrite") headers None
            (p "plugin_crt_path") (p "plugin_key_path"))
  else if name =s? "https2https" then
    Some (HTTPS2HTTPSPluginOptions "" (p "plugin_local_addr") (p "plugin_host_header_rewrite") headers None
            (p "plugin_crt_path") (p "plugin_key_path"))
  else if name =s? "socks5" then Some (Socks5PluginOptions "" (p "plugin_user") (p "plugin_passwd"))
  else if name =s? "static_file" then
    Some (StaticFilePluginOptions "" (p "plugin_local_path") (p "plugin_strip_prefix") (p "plugin_http_user")
            (p "plugin_http_passwd"))
  else if name =s? "unix_domain_socket" then Some (UnixDomainSocketPluginOptions "" (p "plugin_unix_path"))
  else None.

Definition Convert_ProxyConf_To_v1_Base (conf : LegacyProxy.ProxyConf) : ProxyBaseConfig TypedClientPluginOptions :=
  let base := LegacyProxy.GetBaseConfig conf in
  let local := LegacyProxy.Local base in let health := LegacyProxy.Health base in
  mkBase (LegacyProxy.ProxyName base) (LegacyProxy.ProxyType base) None ∅
    (mkTransport (LegacyProxy.UseEncryption base) (LegacyProxy.UseCompression base) (LegacyProxy.BandwidthLimit base)
       (LegacyProxy.BandwidthLimitMode base) (LegacyProxy.ProxyProtocolVersion base))
    (LegacyProxy.Metas base) (mkLoadBalancer (LegacyProxy.Group base) (LegacyProxy.GroupKey base))
    (mkHealthCheck (LegacyProxy.HealthCheckType health) (LegacyProxy.HealthCheckTimeoutS health)
       (LegacyProxy.HealthCheckMaxFailed health) (LegacyProxy.HealthCheckIntervalS health)
       (LegacyProxy.HealthCheckURL health) [])
    (mkBackend (LegacyProxy.LocalIP local) (LegacyProxy.LocalPort local)
       (if LegacyProxy.Plugin local =s? "" then None
        else Some (mkPlugin (LegacyProxy.Plugin local)
                     (plugin_options (LegacyProxy.Plugin local) (LegacyProxy.PluginParams local))))).

Definition domains_To_v1 (d : LegacyProxy.DomainConf) : DomainConfig :=
  mkDomains (LegacyProxy.CustomDomains d) (LegacyProxy.SubDomain d).

Definition Convert_ProxyConf_To_v1 (conf : LegacyProxy.ProxyConf) : proxy_conf :=
  let b := Convert_ProxyConf_To_v1_Base conf in
  match conf with
  | LegacyProxy.TCPProxyConf _ p => TCPProxyConfig b p
  | LegacyProxy.UDPProxyConf _ p => UDPProxyConfig b p
  | LegacyProxy.HTTPProxyConf _ d h =>
      HTTPProxyConfig b (domains_To_v1 d) (mkHTTPFields (LegacyProxy.Locations h) (LegacyProxy.HTTPUser h)
        (LegacyProxy.HTTPPwd h) (LegacyProxy.HostHeaderRewrite h) (LegacyProxy.Headers h) ∅ (LegacyProxy.RouteByHTTPUser h))
  | LegacyProxy.HTTPSProxyConf _ d => HTTPSProxyConfig b (domains_To_v1 d)
  | LegacyProxy.TCPMuxProxyConf _ d t =>
      TCPMuxProxyConfig b (domains_To_v1 d) (mkTCPMuxFields (LegacyProxy.tm_HTTPUser t) (LegacyProxy.tm_HTTPPwd t)
        (LegacyProxy.tm_RouteByHTTPUser t) (LegacyProxy.Multiplexer t))
  | LegacyProxy.STCPProxyConf _ r => STCPProxyConfig b (LegacyProxy.Sk r) (LegacyProxy.AllowUsers r)
  | LegacyProxy.SUDPProxyConf _ r => SUDPProxyConfig b (LegacyProxy.Sk r) (LegacyProxy.AllowUsers r)
  | LegacyProxy.XTCPProxyConf _ r => XTCPProxyConfig b (LegacyProxy.Sk r) (LegacyProxy.AllowUsers r) None
  end.

(** ** Visitors *)

Definition Convert_VisitorConf_To_v1_Base (conf : LegacyVisitor.VisitorConf) : VisitorBaseConfig :=
  let base := LegacyVisitor.GetBaseConfig conf in
  mkVBase (LegacyVisitor.ProxyName base) (LegacyVisitor.ProxyType base) None
    (mkVTransport (LegacyVisitor.UseEncryption base) (LegacyVisitor.UseCompression base)) (LegacyVisitor.Sk base)
    (LegacyVisitor.ServerUser base) (LegacyVisitor.ServerName base) (LegacyVisitor.BindAddr base)
    (LegacyVisitor.BindPort base) (mkVPlugin "" None).

Definition Convert_VisitorConf_To_v1 (conf : LegacyVisitor.VisitorConf) : VisitorConfigurer :=
  let b := Convert_VisitorConf_To_v1_Base conf in
  match conf with
  | LegacyVisitor.STCPVisitorConf _ => STCPVisitorConfig b
  | LegacyVisitor.SUDPVisitorConf _ => SUDPVisitorConfig b
  | LegacyVisitor.XTCPVisitorConf _ x =>
      XTCPVisitorConfig b (mkXTCP (LegacyVisitor.Protocol x) (LegacyVisitor.KeepTunnelOpen x)
        (LegacyVisitor.MaxRetriesAnHour x) (LegacyVisitor.MinRetryInterval x) (LegacyVisitor.FallbackTo x)
        (LegacyVisitor.FallbackTimeoutMs x) None)
  end.

(** ** Loading a file of either format *)

Section load.
Context `{Ini}.
Variable ini_Load : string → option ini_file.         (* with the library's default options *)
Variable parse_scaled : string → Z → option Z.
Variable fuel : nat.
Variable os_ReadFile : string → option string.
Variable render : string → option string.

Definition DetectLegacyINIFormat (content : string) : bool :=
  match ini_Load content with None => false | Some f => has_section f "common" end.

Definition DetectLegacyINIFormatFromFile (path : string) : bool :=
  match os_ReadFile path with None => false | Some b => DetectLegacyINIFormat b end.

(** The server; [load_v1] is [LoadConfigureFromFile] into a [ServerConfig]. *)
Variable load_v1 : string → bool → result load_error ServerConf.ServerConfig.

Definition LoadServerConfig (path : string) (strict : bool) : result (ini_error + load_error) ServerConf.ServerConfig * bool :=
  if DetectLegacyINIFormatFromFile path then
    (match GetRenderedConfFromFile os_ReadFile render path with
     | Err e => Err (inl e)
     | Ok content =>
         match LegacyServer.UnmarshalServerConfFromIni content with
         | Err e => Err (inl e)
         | Ok legacyCfg => Ok (ServerConf.server_Complete (Convert_ServerCommonConf_To_v1 legacyCfg))
         end
     end, true)
  else
    (match load_v1 path strict with
     | Err e => Err (inr e)
     | Ok cfg => Ok (ServerConf.server_Complete cfg)
     end, false).

(** The client: what [LoadClientConfigResult] makes of the result of [ParseClientConfig]. *)
Definition convert_parsed (r : LegacyClient.ClientCommonConf * confs)
    : ClientCommonConfig * list proxy_conf * list VisitorConfigurer :=
  (Convert_ClientCommonConf_To_v1 (fst r),
   Convert_ProxyConf_To_v1 <$> (snd <$> map_to_list (fst (snd r))),
   Convert_VisitorConf_To_v1 <$> (snd <$> map_to_list (snd (snd r)))).

Definition load_legacy (r : result ini_error (LegacyClient.ClientCommonConf * confs))
    : option (ClientCommonConfig * list proxy_conf * list VisitorConfigurer) :=
  match r with Ok r => Some (convert_parsed r) | Err _ => None end.
End load.

(** ** Properties of the conversion *)

(** An empty [common] section gives the client the configuration an empty new file gives. *)
Lemma client_defaults_agree env :
  client_Complete env (Convert_ClientCommonConf_To_v1 LegacyClient.GetDefaultClientConf) =
  client_Complete env zero_client.
Proof. by vm_compute. Qed.

(** For the server the two formats differ in one default: an old file opens the dashboard on
    every address, a new one on the loopback address. *)
Lemma server_defaults_differ :
  let old := ServerConf.server_Complete (Convert_ServerCommonConf_To_v1 LegacyServer.GetDefaultServerConf) in
  let new := ServerConf.server_Complete zero_server in
  web_Addr (ServerConf.sc_WebServer old) = "0.0.0.0" ∧ web_Addr (ServerConf.sc_WebServer new) = "127.0.0.1" ∧
  ServerConf.sc_WebServer new = ServerConf.set_web_addr "127.0.0.1" (ServerConf.sc_WebServer old) ∧
  ServerConf.sc_Auth old = ServerConf.sc_Auth new ∧ ServerConf.sc_Transport old = ServerConf.sc_Transport new ∧
  ServerConf.sc_Log old = ServerConf.sc_Log new ∧ ServerConf.sc_AllowPorts old = ServerConf.sc_AllowPorts new.
Proof. by vm_compute. Qed.

(** A plugin's options are of its type; the three types the switch does not have get none,
    and validation accepts that. *)
Definition old_plugins : list string :=
  ["http2https"; "http_proxy"; "https2http"; "https2https"; "socks5"; "static_file"; "unix_domain_socket"].

Lemma plugin_options_typed name params :
  match plugin_options name params with
  | Some o => plugin_name o = name ∧ name ∈ old_plugins
  | None => name ∉ old_plugins
  end.
Proof.
  unfold plugin_options, old_plugins.
  repeat match goal with |- context [?a =s? ?b] =>
    destruct (seqb_spec a b) as [->|?]; [by split; [|set_solver]|] end.
  set_solver.
Qed.

(** The headers of a plugin: the keys under its prefix, an empty one left out. *)
Lemma transformHeaders_lookup params k :
  transformHeadersFromPluginParams params !! k = if k =s? "" then None else params !! ("plugin_header_" +:+ k).
Proof.
  unfold transformHeadersFromPluginParams.
  apply (map_fold_weak_ind (λ m s, ∀ k, m !! k = if k =s? "" then None else s !! ("plugin_header_" +:+ k))).
  { intros ?. case_match; by rewrite !lookup_empty. }
  intros key value s m Hfresh IH k'. destruct (CutPrefix key "plugin_header_") as [t|] eqn:Ec.
  - apply CutPrefix_spec in Ec as ->. destruct (t =s? "") eqn:Et.
    + apply seqb_true in Et as ->. rewrite IH. destruct (seqb_spec k' "") as [->|Hk]; [done|].
      rewrite lookup_insert_ne; [done|]. by intros E%append_inj_l.
    + destruct (decide (k' = t)) as [->|Hne]; [by rewrite !lookup_insert_eq, Et|].
      rewrite lookup_insert_ne, IH by done. case_match; [done|]. rewrite lookup_insert_ne; [done|]. intros E%append_inj_l. congruence.
  - rewrite IH. case_match; [done|]. rewrite lookup_insert_ne; [done|]. intros ->.
    apply CutPrefix_None in Ec. assert (HasPrefix ("plugin_header_" +:+ k') "plugin_header_" = true) by (apply HasPrefix_spec; eauto).
    congruence.
Qed.

(** [pprof_enable] of an old server file does nothing unless the dashboard is in TLS mode. *)
Lemma pprof_needs_tls conf :
  web_PprofEnable (ServerConf.sc_WebServer (Convert_ServerCommonConf_To_v1 conf)) =
  LegacyServer.DashboardTLSMode conf && LegacyServer.PprofEnable conf.
Proof. simpl. by destruct (LegacyServer.DashboardTLSMode conf). Qed.

(** The conversion keeps the structure: the type of the result is the type of the old one. *)
Lemma Convert_type conf : type_name (Convert_ProxyConf_To_v1 conf) = LegacyProxy.conf_type conf.
Proof. by destruct conf. Qed.
Lemma Convert_base conf : GetBaseConfig (Convert_ProxyConf_To_v1 conf) = Convert_ProxyConf_To_v1_Base conf.
Proof. by destruct conf. Qed.
Lemma Convert_visitor_base conf : v_GetBaseConfig (Convert_VisitorConf_To_v1 conf) = Convert_VisitorConf_To_v1_Base conf.
Proof. by destruct conf. Qed.

(** ** An old client file, section by section *)

Section exact.
Context `{IniLaws}.
Variable parse_scaled : string → Z → option Z.

(** The names of a map's values, converted, when its keys are the names behind a prefix. *)
Lemma keyed_names {A B} (m : gmap string A) (conv : A → B) (na : A → string) (nb : B → string) prefix :
  (∀ c, nb (conv c) = na c) → (∀ k c, m !! k = Some c → k = prefix +:+ na c) →
  let l := nb <$> (conv <$> (snd <$> map_to_list m)) in
  NoDup l ∧ ∀ n, n ∈ l ↔ is_Some (m !! (prefix +:+ n)).
Proof.
  intros Hc Hk. rewrite <-!list_fmap_compose. split.
  - apply NoDup_fmap_2_strong; [|apply NoDup_map_to_list].
    intros [k a] [k' a'] H1%elem_of_map_to_list H2%elem_of_map_to_list E. simpl in E. rewrite !Hc in E.
    pose proof (Hk _ _ H1) as ->. pose proof (Hk _ _ H2) as ->. rewrite E in H1 |- *. congruence.
  - intros n. rewrite list_elem_of_fmap. split.
    + intros ([k a] & -> & Ha%elem_of_map_to_list). simpl. rewrite Hc, <-(Hk _ _ Ha). eauto.
    + intros [a Ha]. exists (prefix +:+ n, a). rewrite elem_of_map_to_list. split; [|done]. simpl.
      rewrite Hc. by apply Hk, append_inj_l in Ha.
Qed.

(** The maps of the loop, read through a lookup: an entry is a section's. *)
Lemma outcome_lookup prefix start f r :
  outcome parse_scaled prefix start f (Sections f) (∅, ∅) (Ok r) →
  (∀ k c, fst r !! k = Some c → ∃ n, k = prefix +:+ n ∧ n = LegacyProxy.ProxyName (LegacyProxy.GetBaseConfig c) ∧
     n ∈ Sections f ∧ skipped start n = false ∧ snd r !! k = None) ∧
  (∀ k c, snd r !! k = Some c → ∃ n, k = prefix +:+ n ∧ n = LegacyVisitor.ProxyName (LegacyVisitor.GetBaseConfig c) ∧
     n ∈ Sections f ∧ skipped start n = false ∧ fst r !! k = None).
Proof.
  intros (Hload & Hskip & Hother).
  assert (∀ k, is_Some (fst r !! k) ∨ is_Some (snd r !! k) → ∃ n, k = prefix +:+ n ∧ n ∈ Sections f ∧ skipped start n = false) as Hk.
  { intros k Hs. destruct (decide (Exists (λ n, k = prefix +:+ n) (Sections f))) as [He|He].
    - apply Exists_exists in He as (n & Hn & ->). exists n. split; [done|]. split; [done|].
      destruct (skipped start n) eqn:E; [|done]. destruct (Hskip n Hn E) as [E1 E2]. rewrite E1, E2 in Hs.
      destruct Hs as [[? ?]|[? ?]]; done.
    - destruct (Hother k) as [E1 E2].
      { intros n Hn ->. apply He, Exists_exists. by exists n. }
      rewrite E1, E2 in Hs. simpl in Hs. rewrite lookup_empty in Hs. destruct Hs as [[? ?]|[? ?]]; done. }
  split; intros k c Hc.
  - destruct (Hk k) as (n & -> & Hn & Hs); [eauto|].
    destruct (Hload n Hn Hs) as (f' & _ & [(_ & Hv & c' & f2 & HN & Hc')|(_ & Hp & _)]); [|congruence].
    assert (c' = c) as -> by congruence. apply NewProxyConf_name in HN. exists n. by split_and!.
  - destruct (Hk k) as (n & -> & Hn & Hs); [eauto|].
    destruct (Hload n Hn Hs) as (f' & _ & [(_ & Hv & _)|(_ & Hp & c' & f2 & HN & Hc')]); [congruence|].
    assert (c' = c) as -> by congruence. apply NewVisitorConf_name in HN. exists n. by split_and!.
Qed.

Lemma not_skipped_started start n : skipped start n = false → started start n = true.
Proof.
  unfold skipped, started. rewrite !orb_false_iff, negb_false_iff. intros [_ Hs].
  case_decide as E; [done|]. by rewrite bool_decide_false in Hs.
Qed.

Lemma filter_nothing start (ps : list proxy_conf) (vs : list VisitorConfigurer) :
  (∀ c, c ∈ ps → Enabled (GetBaseConfig c) = None) → (∀ c, c ∈ vs → v_Enabled (v_GetBaseConfig c) = None) →
  (∀ c, c ∈ ps → started start (Name (GetBaseConfig c)) = true) →
  (∀ c, c ∈ vs → started start (v_Name (v_GetBaseConfig c)) = true) →
  FilterClientConfigurers start ps vs = (ps, vs).
Proof.
  intros He Hve Hs Hvs. unfold FilterClientConfigurers.
  rewrite (filter_all _ ps), (filter_all _ vs) by (by apply Forall_forall).
  rewrite (filter_all _ ps), (filter_all _ vs); [done|apply Forall_forall..].
  - intros c Hc. by rewrite Hve.
  - intros c Hc. by rewrite He.
Qed.

(** An old client file is loaded section by section. When [load_sections] succeeds, the
    converted proxies and visitors have the names of the sections that are neither
    [DEFAULT], [common] nor a range and that [start] selects, each exactly once and as a proxy
    or as a visitor, never both; the filter by [start] that comes later in
    [LoadClientConfig] takes none away. When it fails, one of these sections is refused. *)
Theorem legacy_sections_exact prefix start f :
  match load_sections parse_scaled prefix start (Sections f) f (∅, ∅) with
  | Ok r =>
      let ps := snd (fst (convert_parsed (LegacyClient.GetDefaultClientConf, r))) in
      let vs := snd (convert_parsed (LegacyClient.GetDefaultClientConf, r)) in
      let pnames := (λ c, Name (GetBaseConfig c)) <$> ps in
      let vnames := (λ c, v_Name (v_GetBaseConfig c)) <$> vs in
      NoDup (pnames ++ vnames) ∧
      (∀ n, n ∈ pnames ++ vnames ↔ n ∈ Sections f ∧ skipped start n = false) ∧
      FilterClientConfigurers start ps vs = (ps, vs)
  | Err _ => ∃ n, n ∈ Sections f ∧ skipped start n = false ∧ section_refused parse_scaled f n
  end.
Proof using H H0.
  assert (outcome parse_scaled prefix start f (Sections f) (∅, ∅)
    (load_sections parse_scaled prefix start (Sections f) f (∅, ∅))) as Hout.
  { apply load_sections_spec; [apply Sections_NoDup|done|reflexivity|]. intros n _. simpl. by rewrite !lookup_empty. }
  destruct (load_sections parse_scaled prefix start (Sections f) f (∅, ∅)) as [r|e]; [|done].
  destruct (outcome_lookup _ _ _ _ Hout) as [Hp Hv]. simpl.
  destruct (keyed_names (fst r) Convert_ProxyConf_To_v1 (λ c, LegacyProxy.ProxyName (LegacyProxy.GetBaseConfig c))
    (λ c, Name (GetBaseConfig c)) prefix) as [Hpd Hpn].
  { intros c. by rewrite Convert_base. } { by intros k c (n & -> & -> & _)%Hp. }
  destruct (keyed_names (snd r) Convert_VisitorConf_To_v1 (λ c, LegacyVisitor.ProxyName (LegacyVisitor.GetBaseConfig c))
    (λ c, v_Name (v_GetBaseConfig c)) prefix) as [Hvd Hvn].
  { intros c. by rewrite Convert_visitor_base. } { by intros k c (n & -> & -> & _)%Hv. }
  assert (∀ n, is_Some (fst r !! (prefix +:+ n)) ∨ is_Some (snd r !! (prefix +:+ n)) ↔
    n ∈ Sections f ∧ skipped start n = false) as Hn.
  { intros n. destruct Hout as (Hload & _). split.
    - intros [[c Hc]|[c Hc]]; [apply Hp in Hc as (n' & ->%append_inj_l & _ & ? & ? & _)|
        apply Hv in Hc as (n' & ->%append_inj_l & _ & ? & ? & _)]; done.
    - intros [Hin Hs]. destruct (Hload n Hin Hs) as (? & _ & [(_ & _ & c & ? & _ & ->)|(_ & _ & c & ? & _ & ->)]); eauto. }
  split_and!.
  - apply NoDup_app. split_and!; [done| |done].
    intros n [c Hc]%Hpn [c' Hc']%Hvn. destruct (Hp _ _ Hc) as (n' & _ & _ & _ & _ & E). congruence.
  - intros n. by rewrite elem_of_app, Hpn, Hvn, Hn.
  - apply filter_nothing.
    + intros c (c0 & -> & _)%list_elem_of_fmap. by rewrite Convert_base.
    + intros c (c0 & -> & _)%list_elem_of_fmap. by rewrite Convert_visitor_base.
    + intros c Hc. apply not_skipped_started, Hn. left. apply Hpn, list_elem_of_fmap. by exists c.
    + intros c Hc. apply not_skipped_started, Hn. right. apply Hvn, list_elem_of_fmap. by exists c.
Qed.
End exact.

(** ** A range section becomes one TCP proxy per pair of ports *)

Section range_proxies.
Context `{IniLaws}.
Variable parse_scaled : string → Z → option Z.

Lemma map_int_value f s k n old : (0 <= n <= int64_max)%Z → KeysHash f s !! k = Some (Itoa n) → map_int f s k old = n.
Proof using H H0. intros Hn Hk. unfold map_int, map_field. rewrite (GetKey_hash _ _ _ _ Hk). by apply set_int_Itoa. Qed.

(** Reading one section that has the ports as text. *)
Lemma tcp_section_read t f lp rp :
  t ∈ Sections f → ContainsByte t "." = false → (0 <= lp <= 65535)%Z → (0 <= rp <= 65535)%Z →
  KeysHash f t !! "local_port" = Some (Itoa lp) → KeysHash f t !! "remote_port" = Some (Itoa rp) →
  KeysHash f t !! "bandwidth_limit" = None → KeysHash f t !! "type" = None ∨ KeysHash f t !! "type" = Some "tcp" →
  (∀ g, MapTo_ok g t = true) →
  ∃ c f' b, LegacyProxy.NewProxyConfFromIni parse_scaled t f = (Ok c, f') ∧
    Convert_ProxyConf_To_v1 c = TCPProxyConfig b rp ∧ Name b = t ∧ LocalPort (Backend b) = lp ∧
    Metadatas b = GetMapWithoutPrefix (KeysHash f t) "meta_".
Proof using H H0.
  intros Ht Hdot Hlp Hrp Hl Hr Hbw Hty Hok. unfold int64_max in *.
  pose proof (Key_added looked_up f t "type" Ht ltac:(by right; left) ltac:(done)) as Hadd.
  assert ((if fst (Key f t "type") =s? "" then "tcp" else fst (Key f t "type")) = "tcp") as Htype.
  { destruct Hty as [Hty|Hty]; [|by rewrite (Key_found _ _ _ _ (GetKey_hash _ _ _ _ Hty))].
    by rewrite (proj1 (Key_missing _ _ _ (GetKey_none _ _ _ Hdot Hty) ltac:(done))). }
  unfold LegacyProxy.NewProxyConfFromIni. destruct (Key f t "type") as [ty f2]. simpl in Hadd, Htype. rewrite Htype. simpl.
  unfold LegacyProxy.UnmarshalFromIni, LegacyProxy.preUnmarshalFromIni. rewrite Hok. simpl.
  unfold LegacyProxy.decorate. rewrite (GetKey_none f2 t "bandwidth_limit" Hdot).
  2: { destruct Hadd as [_ HK]. destruct (HK t "bandwidth_limit") as [->|(Hin & _)]; [done|]. exfalso. revert Hin.
       unfold looked_up. set_solver. }
  simpl. eexists _, f2, _. split; [reflexivity|]. simpl.
  rewrite (map_int_value f2 t "remote_port" rp), (map_int_value f2 t "local_port" lp);
    [|unfold int64_max; lia|by eapply added_value|unfold int64_max; lia|by eapply added_value].
  split_and!; try reflexivity. simpl. apply (added_prefix looked_up); [done|].
  unfold looked_up. by repeat constructor.
Qed.

(** A section [range:x] of an old file whose two port lists read as numbers, of the same
    length, becomes one section per pair: the [j]-th is named [x_j], is read as a TCP proxy
    of that name with the [j]-th local and remote port, and has the metadata of the range
    section. The names must be free and free of dots. *)
Theorem range_section_proxies fuel f s L R ls rs :
  s ∈ Sections f → KeysHash f s !! "" = None →
  KeysHash f s !! "local_port" = Some L → KeysHash f s !! "remote_port" = Some R →
  ParseRangeNumbers fuel L = Some (Ok ls) → ParseRangeNumbers fuel R = Some (Ok rs) → L ≠ "" → R ≠ "" →
  length ls = length rs → ls ≠ [] → (Z.of_nat (length ls) <= int64_max)%Z →
  Forall (λ p, 0 <= p <= 65535)%Z (ls ++ rs) →
  (∀ j, (j < length ls)%nat → ContainsByte (template_name s j) "." = false ∧ template_name s j ∉ Sections f) →
  KeysHash f s !! "type" = None ∨ KeysHash f s !! "type" = Some "tcp" →
  KeysHash f s !! "bandwidth_limit" = None → (∀ g t, MapTo_ok g t = true) →
  ∃ f', renderRangeProxyTemplates fuel f s = Some (Ok f') ∧
    ∀ j lp rp, ls !! j = Some lp → rs !! j = Some rp →
      template_name s j ∈ Sections f' ∧
      ∃ c f'' b, LegacyProxy.NewProxyConfFromIni parse_scaled (template_name s j) f' = (Ok c, f'') ∧
        Convert_ProxyConf_To_v1 c = TCPProxyConfig b rp ∧ Name b = template_name s j ∧ LocalPort (Backend b) = lp ∧
        Metadatas b = GetMapWithoutPrefix (KeysHash f s) "meta_".
Proof using H H0.
  intros Hs Hempty HL HR Hls Hrs HLn HRn Hlen Hne Hb Hports Hnames Hty Hbw Hok.
  assert (length (zip ls rs) = length ls) as Hz by (rewrite length_zip; lia).
  destruct (render_ports_spec s (zip ls rs) 0 f Hs Hempty) as (f' & Hf' & HS & HK & HO).
  { rewrite Hz, template_names_elem. intros (j & Hj & E). destruct (Hnames j) as [_ Hn]; [lia|]. by rewrite <-E in Hn. }
  { by rewrite Hz. }
  exists f'. split.
  { unfold renderRangeProxyTemplates.
    rewrite (Key_found _ _ _ _ (GetKey_hash _ _ _ _ HL)), (Key_found _ _ _ _ (GetKey_hash _ _ _ _ HR)).
    rewrite (proj2 (seqb_false _ _) HLn), (proj2 (seqb_false _ _) HRn). simpl. rewrite Hls, Hrs, Hf', Hlen, Nat.eqb_refl. simpl.
    destruct rs; [destruct ls; [done|discriminate Hlen]|]. done. }
  intros j lp rp Hlp Hrp. assert (zip ls rs !! j = Some (lp, rp)) as Hj by (by apply lookup_zip_with_Some; eauto).
  pose proof (lookup_lt_Some _ _ _ Hlp) as Hlt. destruct (Hnames j Hlt) as [Hdot Hfresh].
  specialize (HK j lp rp Hj). simpl in HK. rewrite (KeysHash_absent f (template_name s j) Hfresh) in HK.
  unfold template_keys in HK. rewrite (right_id_L ∅ (∪)) in HK.
  assert (template_name s j ∈ Sections f') as Hin.
  { apply HS. right. rewrite template_names_elem. exists j. split; [rewrite Hz; lia|done]. }
  rewrite Forall_app, !Forall_lookup in Hports. destruct Hports as [Hpl Hpr].
  split; [done|]. destruct (tcp_section_read (template_name s j) f' lp rp) as (c & f'' & b & ? & ? & ? & ? & Hm);
    [done|done|by eapply Hpl|by eapply Hpr|..]; rewrite ?HK; simplify_map_eq; [done..|].
  exists c, f'', b. split_and!; [done..|]. rewrite Hm. apply map_eq. intros k. rewrite !GetMapWithoutPrefix_lookup, HK.
  by rewrite !lookup_insert_ne.
Qed.
End range_proxies.

(** ** Plugins *)

(** [plugin.Create] up to the creator's type assertion on the options, which panics on
    options of another type and on nil. *)
Inductive creation := Created | NotRegistered | Panics.

Definition create_plugin (name : string) (o : option ClientPluginOptions) : creation :=
  match zero_plugin name with
  | None => NotRegistered
  | Some _ => match o with
              | Some o => if plugin_name o =s? name then Created else Panics
              | None => Panics
              end
  end.

Lemma zero_plugin_old name : name ∈ old_plugins → is_Some (zero_plugin name).
Proof. unfold old_plugins. rewrite !elem_of_cons, elem_of_nil. intros Hin. destruct_or!; subst; try done; by eexists. Qed.

(** The plugin of an old proxy after conversion and completion. The seven plugins the
    conversion knows get options of their own type, which the plugin's creator takes. The
    three newer ones (http2http, tls2raw, virtual_net) get none: validation accepts the
    proxy and the creator panics. Any other name is refused when the proxy starts. *)
Theorem legacy_plugins conf :
  let name := LegacyProxy.Plugin (LegacyProxy.Local (LegacyProxy.GetBaseConfig conf)) in
  match Plugin (Backend (GetBaseConfig (Complete _ plugin_Complete (Convert_ProxyConf_To_v1 conf)))) with
  | None => name = ""
  | Some p => name ≠ "" ∧ cp_Type p = name ∧
      (name ∈ old_plugins → create_plugin name (cp_Options p) = Created) ∧
      (name ∈ ["http2http"; "tls2raw"; "virtual_net"] →
         validate_options (cp_Options p) = Ok tt ∧ create_plugin name (cp_Options p) = Panics) ∧
      (name ∉ old_plugins → name ∉ ["http2http"; "tls2raw"; "virtual_net"] → create_plugin name (cp_Options p) = NotRegistered)
  end.
Proof.
  intros name.
  assert (Plugin (Backend (GetBaseConfig (Complete _ plugin_Complete (Convert_ProxyConf_To_v1 conf)))) =
    plugin_Complete <$> Plugin (Backend (Convert_ProxyConf_To_v1_Base conf))) as -> by (by destruct conf).
  unfold Convert_ProxyConf_To_v1_Base. simpl. fold name.
  destruct (seqb_spec name "") as [E|Hne]; [done|]. simpl.
  pose proof (plugin_options_typed name (LegacyProxy.PluginParams (LegacyProxy.Local (LegacyProxy.GetBaseConfig conf)))) as Hopt.
  destruct (plugin_options name _) as [o|]; simpl.
  - destruct Hopt as [Hn Hin]. split_and!; [done..| | |done].
    + intros _. unfold create_plugin. destruct (zero_plugin_old name Hin) as [? ->].
      by rewrite options_Complete_name, Hn, seqb_refl.
    + intros Hnew. exfalso. revert Hin Hnew. clear. unfold old_plugins. rewrite !elem_of_cons, !elem_of_nil.
      intros ? ?. destruct_or!; congruence.
  - split_and!; [done..| |].
    + intros Hnew. split; [done|]. unfold create_plugin. revert Hnew. rewrite !elem_of_cons, elem_of_nil.
      intros ?. destruct_or!; subst; try done; by match goal with H : _ = _ |- _ => rewrite H end.
    + intros _ Hnew. unfold create_plugin. destruct (zero_plugin name) as [o|] eqn:Ez; [|done].
      exfalso. apply zero_plugin_name in Ez. destruct o; simpl in Ez; rewrite <-Ez in Hopt, Hnew;
        first [apply Hopt; unfold old_plugins; set_solver|apply Hnew; set_solver].
Qed.

(** ** The ports an old server allows *)

Lemma triples_inj : Inj (=) (=) range_triple.
Proof. intros [] []. unfold range_triple. simpl. congruence. Qed.

Section server.
Context `{IniLaws}.

(** [allow_ports] of an old server file. A list that reads as port ranges is the list of
    allowed ports of the loaded configuration, so the port manager gives out these ports
    and no others. A list that does not read is dropped without an error, and the port
    manager then gives out every port. *)
Theorem legacy_allow_ports (ini_Load : string → option ini_file) rd ren load_v1 path strict content f text cfg nt ba :
  DetectLegacyINIFormatFromFile ini_Load rd path = true →
  GetRenderedConfFromFile rd ren path = Ok content → LoadSources content = Some f →
  GetKey f "common" "allow_ports" = Some text → text ≠ "" →
  LoadServerConfig ini_Load rd ren load_v1 path strict = (Ok cfg, true) →
  ∃ allowed, ServerConf.sc_AllowPorts cfg = range_triple <$> allowed ∧
    match NewPortsRangeSliceFromString text with
    | Ok l => allowed = l ∧ freePorts (NewManager nt ba allowed) = foldl (λ acc r, acc ∪ ports_of_range r) ∅ l
    | Err _ => allowed = [] ∧ ∀ p, (MinPort <= p <= MaxPort)%Z → p ∈ freePorts (NewManager nt ba allowed)
    end.
Proof using H H0.
  intros Hd Hc Hl Hk Htext. unfold LoadServerConfig. rewrite Hd, Hc.
  unfold LegacyServer.UnmarshalServerConfFromIni. rewrite Hl. destruct (has_section f "common"); simpl; [|done].
  destruct (MapTo_ok f "common"); simpl; [|done]. rewrite (Key_found _ _ _ _ Hk).
  destruct (LegacyServer.load_plugins f (Sections f) ∅) as [pl|]; [|done]. intros [= <-].
  rewrite (proj2 (seqb_false _ _) Htext). simpl. unfold allow_ports.
  destruct (NewPortsRangeSliceFromString text) as [l|e] eqn:E.
  - exists l. split; [done|]. split; [done|]. unfold NewManager, freePorts. destruct l as [|r l]; [|done]. exfalso.
    unfold NewPortsRangeSliceFromString in E. pose proof (Split_not_nil ","%char (TrimSpace text)) as Hn.
    destruct (Split "," (TrimSpace text)); [done|]. simpl in E. repeat case_match; done.
  - exists []. split; [done|]. split; [done|]. intros p Hp. unfold NewManager, freePorts, allowed_ports.
    apply elem_of_list_to_set, elem_of_seqZ. lia.
Qed.
End server.

(** ** Witnesses: a file with a range section and a misspelt list of ports *)

Definition w_range : gmap string string := {[ "local_port" := "6000-6001"; "remote_port" := "7000,7001"; "meta_a" := "b" ]}.
Definition w_file : ListIni.file :=
  [("common", {[ "allow_ports" := "2000-3000x" ]}); ("range:web", w_range)].
Definition w_load (s : string) : option ListIni.file := if s =s? "ini" then Some w_file else None.

Definition w_ini : Ini := ListIni.list_ini w_load.

Lemma legacy_allow_ports_witness :
  ∃ cfg, LoadServerConfig (H := w_ini) w_load Some Some (λ _ _, Err ReadError) "ini" true = (Ok cfg, true) ∧
    ServerConf.sc_AllowPorts cfg = [].
Proof.
  assert (∃ cfg, LoadServerConfig (H := w_ini) w_load Some Some (λ _ _, Err ReadError) "ini" true = (Ok cfg, true)) as [cfg Hcfg].
  { eexists. by vm_compute. }
  exists cfg. split; [exact Hcfg|].
  destruct (legacy_allow_ports (H := w_ini) (H0 := ListIni.list_ini_laws w_load) w_load Some Some (λ _ _, Err ReadError) "ini" true
    "ini" w_file "2000-3000x" cfg "tcp" "") as (l & E & Hl); [by vm_compute|reflexivity|reflexivity|reflexivity|discriminate|exact Hcfg|].
  assert (∃ e, NewPortsRangeSliceFromString "2000-3000x" = Err e) as [e Ee] by (eexists; by vm_compute).
  rewrite Ee in Hl. destruct Hl as [-> _]. exact E.
Defined.

Lemma range_section_proxies_witness :
  ∃ f', renderRangeProxyTemplates (H := w_ini) 10 w_file "range:web" = Some (Ok f') ∧
    template_name "range:web" 1 = "web_1" ∧ template_name "range:web" 1 ∈ @Sections w_ini f'.
Proof.
  destruct (range_section_proxies (H := w_ini) (H0 := ListIni.list_ini_laws w_load) (λ _ _, None) 10 w_file "range:web" "6000-6001" "7000,7001"
    [6000; 6001] [7000; 7001]) as (f' & Hr & Hj).
  1: by right; left.
  1-5: by vm_compute.
  1-4: done.
  1: by vm_compute.
  1: by repeat (constructor; [lia|]).
  1: by intros [|[|j]] Hj; [split; [by vm_compute|decide_vm]..|simpl in Hj; lia].
  1: by left; vm_compute.
  1-2: by vm_compute.
  exists f'. split; [done|]. split; [by vm_compute|]. by destruct (Hj 1%nat 6001 7001 eq_refl eq_refl) as [? _].
Defined.

Definition w_sections : ListIni.file := [("common", ∅); ("ssh", {[ "type" := "tcp"; "local_port" := "22"; "remote_port" := "6000" ]})].

Lemma legacy_sections_exact_witness :
  ∃ r, load_sections (H := w_ini) (λ _ _, None) "" [] (@Sections w_ini w_sections) w_sections (∅, ∅) = Ok r ∧
    NoDup ((λ c, Name (GetBaseConfig c)) <$> snd (fst (convert_parsed (LegacyClient.GetDefaultClientConf, r)))) ∧
    "ssh" ∈ (λ c, Name (GetBaseConfig c)) <$> snd (fst (convert_parsed (LegacyClient.GetDefaultClientConf, r))).
Proof.
  pose proof (legacy_sections_exact (H := w_ini) (H0 := ListIni.list_ini_laws w_load) (λ _ _, None) "" [] w_sections) as Hx.
  destruct (load_sections (H := w_ini) (λ _ _, None) "" [] (@Sections w_ini w_sections) w_sections (∅, ∅)) as [r|e] eqn:E.
  - exists r. destruct Hx as (Hn & _). split; [reflexivity|]. apply NoDup_app in Hn as (Hn & _). split; [exact Hn|].
    vm_compute in E. injection E as <-. vm_compute. by left.
  - vm_compute in E. discriminate E.
Defined.
