(* ===== verification/Transport.v ===== *)
(** The transport between client and server: the TLS configurations of
    [src/pkg/transport/tls.go], the first byte that announces TLS, [src/pkg/util/net/tls.go],
    the hooks that run on a new connection, [src/pkg/util/net/dial.go], and the client's
    connector, [src/client/connector.go].

    A direction of a connection is the list of its bytes; TLS and websocket are encodings of
    one list into another, parameters with the laws their standards give them. *)
From Stdlib Require Import ZArith Lia Ascii String.
From stdpp Require Import base gmap strings list.
From S2P Require Import Prelude GoStrings ProxyConf CommonConf.
Local Open Scope string_scope.
Local Open Scope list_scope.
Local Open Scope Z_scope.

Abbreviation bytes := (list Z).

(** ** TLS configurations *)

Module TLSConf.
(** The certificate of a side: made up at start, or read from two files. *)
Inductive certificate := RandomCert | CustomCert (certFile keyFile : string).

Record Config := mkConfig {
  Certificates : list certificate; RequireClientCert : bool; ClientCAs : option string; RootCAs : option string;
  ServerName : string; InsecureSkipVerify : bool; NextProtos : list string }.

Inductive tls_error := KeyPairError | GenerateError | CAError.

Section build.
Variable LoadX509KeyPair : string → string → bool.
Variable generate_ok : bool.
(** [os.ReadFile] and [AppendCertsFromPEM]: whether a file has a certificate. *)
Variable ca_file_ok : string → bool.

Definition newCustomTLSKeyPair (certfile keyfile : string) : result tls_error certificate :=
  if LoadX509KeyPair certfile keyfile then Ok (CustomCert certfile keyfile) else Err KeyPairError.

Definition newRandomTLSKeyPair : result tls_error certificate :=
  if generate_ok then Ok RandomCert else Err GenerateError.

Definition newCertPool (caPath : string) : result tls_error string :=
  if ca_file_ok caPath then Ok caPath else Err CAError.

Definition NewServerTLSConfig (certPath keyPath caPath : string) : result tls_error Config :=
  try cert := (if (certPath =s? "") || (keyPath =s? "") then newRandomTLSKeyPair
               else newCustomTLSKeyPair certPath keyPath) in
  if caPath =s? "" then Ok (mkConfig [cert] false None None "" false [])
  else try pool := newCertPool caPath in Ok (mkConfig [cert] true (Some pool) None "" false []).

Definition NewClientTLSConfig (certPath keyPath caPath serverName : string) : result tls_error Config :=
  try certs := (if negb (certPath =s? "") && negb (keyPath =s? "") then
                  try c := newCustomTLSKeyPair certPath keyPath in Ok [c]
                else Ok []) in
  if caPath =s? "" then Ok (mkConfig certs false None None serverName true [])
  else try pool := newCertPool caPath in Ok (mkConfig certs false None (Some pool) serverName false []).
End build.

Definition set_next_protos (ps : list string) (c : Config) : Config :=
  mkConfig (Certificates c) (RequireClientCert c) (ClientCAs c) (RootCAs c) (ServerName c) (InsecureSkipVerify c) ps.
End TLSConf.
Import TLSConf.

(** ** The first byte *)

Definition FRPTLSHeadByte : Z := 23.                       (* 0x17 *)

(** What [CheckAndEnableTLSServerConnWithTimeout] makes of a connection: the stream a TLS
    server or the plain protocol goes on reading. *)
Inductive checked := TLSServer (wire : bytes) (custom : bool) | Plain (wire : bytes).
Inductive check_error := ReadTimeout | NonTLS.

(** An empty list is a peer that sends nothing before the deadline. *)
Definition CheckAndEnableTLSServerConnWithTimeout (tlsOnly : bool) (c : bytes) : result check_error checked :=
  match c with
  | [] => Err ReadTimeout
  | b :: rest =>
      if b =? FRPTLSHeadByte then Ok (TLSServer rest true)     (* the shared connection is left, the byte is gone *)
      else if b =? 22 then Ok (TLSServer c false)
      else if tlsOnly then Err NonTLS else Ok (Plain c)
  end.

(** ** The client's connection *)

(** The hooks that wrap the connection, in the order they run; each wraps what the ones
    before it made. *)
Inductive layer :=
| Websocket (scheme host : string)                            (* DialHookWebsocket *)
| HeadByte                                                    (* DialHookCustomTLSHeadByte that writes *)
| TLSClient (c : Config).

Definition DialHookCustomTLSHeadByte (enableTLS disableCustomTLSHeadByte : bool) : list layer :=
  if enableTLS && negb disableCustomTLSHeadByte then [HeadByte] else [].

(** The host of the URL is the address that is dialled unless one is given. *)
Definition DialHookWebsocket (protocol host addr : string) : list layer :=
  [Websocket (if negb (protocol =s? "wss") then "ws" else protocol) (if host =s? "" then addr else host)].

Inductive dial_error := DialTLS (e : tls_error) | ProxyURLError | DialFails | QUICFails | FmuxFails | StreamFails.

Section connector.
Variable LoadX509KeyPair : string → string → bool.
Variable ca_file_ok : string → bool.
Variable ParseProxyURL : string → bool.
Variable addr : string.                                       (* host and port of the server *)

Definition server_name (cfg : ClientCommonConfig) : string :=
  let sn := tls_ServerName (tls_Config (ct_TLS (cc_Transport cfg))) in
  if sn =s? "" then cc_ServerAddr cfg else sn.

Definition client_tls (cfg : ClientCommonConfig) : result tls_error Config :=
  let t := tls_Config (ct_TLS (cc_Transport cfg)) in
  NewClientTLSConfig LoadX509KeyPair ca_file_ok (tls_CertFile t) (tls_KeyFile t) (tls_TrustedCaFile t) (server_name cfg).

Definition tls_layer (c : option Config) : list layer := match c with Some c => [TLSClient c] | None => [] end.

(** The options of [realConnect]: the network that is dialled and the hooks. *)
Definition dial_options (cfg : ClientCommonConfig) : result dial_error (string * list layer) :=
  let t := cc_Transport cfg in
  let tlsEnable := default false (tls_Enable (ct_TLS t)) || (ct_Protocol t =s? "wss") in
  try tlsConfig := (if tlsEnable then
                      match client_tls cfg with Err e => Err (DialTLS e) | Ok c => Ok (Some c) end
                    else Ok None) in
  if negb (ParseProxyURL (ct_ProxyURL t)) then Err ProxyURLError else
  let disable := default false (DisableCustomTLSFirstByte (ct_TLS t)) in
  let on := bool_decide (is_Some tlsConfig) in
  if ct_Protocol t =s? "websocket" then
    let protocol := "tcp" in
    Ok (protocol, DialHookWebsocket protocol "" addr ++ DialHookCustomTLSHeadByte on disable ++ tls_layer tlsConfig)
  else if ct_Protocol t =s? "wss" then
    let protocol := "tcp" in
    Ok (protocol, tls_layer tlsConfig ++
                  DialHookWebsocket protocol (match tlsConfig with Some c => ServerName c | None => "" end) addr)
  else
    Ok (ct_Protocol t, DialHookCustomTLSHeadByte on disable ++ tls_layer tlsConfig).

(** *** The state of a connector *)

Inductive underlying := UNone | UMux | UQUIC.
Record connector := mkConnector { cn_under : underlying; cn_closed : bool; cn_open : nat }.

Definition NewConnector : connector := mkConnector UNone false 0.

(** What the network answers to a dial, to a new session and to a new stream. *)
Record net := mkNet { dial_ok : bool; quic_ok : bool; fmux_ok : bool; stream_ok : bool }.

(** A connection that the caller got, and what it is. *)
Inductive conn := QUICStream | MuxStream | RealConn (network : string) (layers : list layer).

Definition realConnect (n : net) (cfg : ClientCommonConfig) : result dial_error conn :=
  try o := dial_options cfg in
  if dial_ok n then Ok (RealConn (fst o) (snd o)) else Err DialFails.

(** The protocol of QUIC is compared without case. *)
Definition is_quic (cfg : ClientCommonConfig) : bool := ToLower (ct_Protocol (cc_Transport cfg)) =s? "quic".

Definition quic_tls (cfg : ClientCommonConfig) : result tls_error Config :=
  try c := (if default false (tls_Enable (ct_TLS (cc_Transport cfg))) then client_tls cfg
            else NewClientTLSConfig LoadX509KeyPair ca_file_ok "" "" "" (server_name cfg)) in
  Ok (set_next_protos ["frp"] c).

(** [cn_open] counts the connections a connector keeps: a QUIC connection or a session. *)
Definition Open (n : net) (cfg : ClientCommonConfig) (c : connector) : result dial_error unit * connector :=
  if is_quic cfg then
    match quic_tls cfg with
    | Err e => (Err (DialTLS e), c)
    | Ok _ => if quic_ok n then (Ok tt, mkConnector UQUIC (cn_closed c) (S (cn_open c))) else (Err QUICFails, c)
    end
  else if negb (default false (ct_TCPMux (cc_Transport cfg))) then (Ok tt, c)
  else match realConnect n cfg with
       | Err e => (Err e, c)
       | Ok _ => if fmux_ok n then (Ok tt, mkConnector UMux (cn_closed c) (S (cn_open c))) else (Err FmuxFails, c)
       end.

Definition Connect (n : net) (cfg : ClientCommonConfig) (c : connector) : result dial_error conn :=
  match cn_under c with
  | UQUIC => if stream_ok n then Ok QUICStream else Err StreamFails
  | UMux => if stream_ok n then Ok MuxStream else Err StreamFails
  | UNone => realConnect n cfg
  end.

Definition Close (c : connector) : connector :=
  if cn_closed c then c
  else mkConnector (cn_under c) true (match cn_under c with UNone => cn_open c | _ => pred (cn_open c) end).

(** The scheme given to the websocket hook is never [wss]: the variable is overwritten before
    the hook is made. *)
Lemma websocket_scheme cfg network layers scheme host :
  dial_options cfg = Ok (network, layers) → Websocket scheme host ∈ layers → scheme = "ws".
Proof.
  unfold dial_options. repeat (case_match; simpl in *; try done); intros [= <- <-];
    unfold DialHookWebsocket, DialHookCustomTLSHeadByte, tls_layer; repeat case_match; simpl;
    rewrite ?elem_of_cons, ?elem_of_nil; intros ?; destruct_or?; naive_solver.
Qed.

(** A connector that is opened and closed keeps nothing open, whatever the network does. *)
Lemma open_close_balanced n cfg : cn_open (Close (snd (Open n cfg NewConnector))) = 0%nat.
Proof. unfold Open, NewConnector. repeat case_match; simpl in *; simplify_eq/=; reflexivity. Qed.

(** The server's certificate is verified exactly when a CA file is configured. *)
Lemma client_verifies cfg c :
  client_tls cfg = Ok c →
  InsecureSkipVerify c = (tls_TrustedCaFile (tls_Config (ct_TLS (cc_Transport cfg))) =s? "") ∧ ServerName c = server_name cfg.
Proof.
  unfold client_tls, NewClientTLSConfig, newCertPool, newCustomTLSKeyPair.
  repeat (case_match; simpl in *; try done); by intros [= <-].
Qed.
End connector.

(** ** What the server makes of the bytes *)

Fixpoint bytes_of (s : string) : bytes :=
  match s with "" => [] | String a s => Z.of_N (N_of_ascii a) :: bytes_of s end.

Definition FrpWebsocketPath : string := "/~!frp".
Definition websocketPrefix : bytes := bytes_of ("GET " +:+ FrpWebsocketPath).

(** The listeners behind the port of the server. *)
Inductive listener := LWebsocket | LHTTP | LHTTPS | LTLS | LDefault.

(** [muxer.Listen(priority, needBytesNum, fn)]. *)
Record mux_entry := mkEntry { me_listener : listener; me_priority : nat; me_need : nat; me_fn : bytes → bool }.
Definition entry_matches (b : bytes) (e : mux_entry) : bool := me_fn e (take (me_need e) b).

Section server.
(** The matchers of [ListenHTTP] and [ListenHTTPS], and how the muxer picks a listener. *)
Variable http_need https_need : nat.
Variable is_http is_https : bytes → bool.
Variable route : list mux_entry → bytes → option listener.

Definition tls_match (data : bytes) : bool :=
  match data with b :: _ => (b =? FRPTLSHeadByte) || (b =? 22) | [] => false end.

(** The listeners of [NewService], in the order they are registered. *)
Definition server_entries (httpMuxOn httpsMuxOn : bool) : list mux_entry :=
  [mkEntry LWebsocket 0 (length websocketPrefix) (λ d, bool_decide (d = websocketPrefix))] ++
  (if httpMuxOn then [mkEntry LHTTP 1 http_need is_http] else []) ++
  (if httpsMuxOn then [mkEntry LHTTPS 1 https_need is_https] else []) ++
  [mkEntry LTLS 2 1 tls_match].

Variable tls_enc : bytes → bytes.
Variable tls_dec : bytes → option bytes.
Variable ws_enc : bytes → bytes.
Variable ws_dec : bytes → option bytes.

Definition encode_layer (l : layer) (b : bytes) : bytes :=
  match l with Websocket _ _ => ws_enc b | HeadByte => FRPTLSHeadByte :: b | TLSClient _ => tls_enc b end.

(** The bytes on the wire: what is written goes through the last hook first. *)
Definition wire (layers : list layer) (payload : bytes) : bytes := foldr encode_layer payload layers.

Inductive received := Handled (payload : bytes) (isTLS : bool) | ToVhost (l : listener) | Refused.

Definition handle_accepted (forceTLS : bool) (b : bytes) : received :=
  match CheckAndEnableTLSServerConnWithTimeout forceTLS b with
  | Err _ => Refused
  | Ok (TLSServer w _) => match tls_dec w with Some p => Handled p true | None => Refused end
  | Ok (Plain w) => Handled w false
  end.

Definition receive (httpMuxOn httpsMuxOn forceTLS : bool) (b : bytes) : received :=
  match default LDefault (route (server_entries httpMuxOn httpsMuxOn) b) with
  | LWebsocket => match ws_dec b with Some b => handle_accepted forceTLS b | None => Refused end
  | LHTTP => ToVhost LHTTP
  | LHTTPS => ToVhost LHTTPS
  | LTLS | LDefault => handle_accepted forceTLS b
  end.

(** The laws of the parameters: the muxer picks a matching listener of the lowest priority,
    HTTP requests begin with a capital letter, TLS connections with a handshake record. *)
Record wire_laws : Prop := {
  route_picks es b l : route es b = Some l →
    ∃ e, e ∈ es ∧ me_listener e = l ∧ entry_matches b e = true ∧
      ∀ e', e' ∈ es → entry_matches b e' = true → (me_priority e <= me_priority e')%nat;
  route_none es b : route es b = None → ∀ e, e ∈ es → entry_matches b e = false;
  http_capital b : is_http b = true → ∃ c r, b = c :: r ∧ 65 <= c <= 90;
  https_need_pos : (0 < https_need)%nat;
  https_record b : is_https b = true ↔ ∃ r, b = 22 :: r;
  tls_record b : ∃ r, tls_enc b = 22 :: r;
  tls_roundtrip b : tls_dec (tls_enc b) = Some b;
  ws_request b : ∃ r, ws_enc b = websocketPrefix ++ r;
  ws_roundtrip b : ws_dec (ws_enc b) = Some b }.

Hypothesis laws : wire_laws.

(** The bytes of the protocol: a mux session or a message begin with none of these. *)
Definition plain_payload (p : bytes) : Prop :=
  ∃ c r, p = c :: r ∧ c ≠ 22 ∧ c ≠ FRPTLSHeadByte ∧ ¬ (65 <= c <= 90).

Lemma websocket_head : ∃ r, websocketPrefix = 71 :: r.
Proof. by eexists. Qed.

(** The muxer's choice, by the first byte. *)
Lemma route_first h hs c r :
  ¬ (65 <= c <= 90) →
  default LDefault (route (server_entries h hs) (c :: r)) =
    if c =? 22 then (if hs then LHTTPS else LTLS) else if c =? FRPTLSHeadByte then LTLS else LDefault.
Proof using laws.
  intros Hcap.
  assert (∀ e, e ∈ server_entries h hs → entry_matches (c :: r) e = true →
    (me_listener e = LHTTPS ∧ hs = true ∧ c = 22 ∧ me_priority e = 1%nat) ∨
    (me_listener e = LTLS ∧ (c = FRPTLSHeadByte ∨ c = 22) ∧ me_priority e = 2%nat)) as Hm.
  { intros e. unfold server_entries. rewrite !elem_of_app, !list_elem_of_singleton.
    intros [->|[He|[He| ->]]] Hmatch.
    - unfold entry_matches in Hmatch. simpl in Hmatch. apply bool_decide_eq_true in Hmatch. injection Hmatch as E _. lia.
    - destruct h; [|by apply elem_of_nil in He]. apply list_elem_of_singleton in He as ->. unfold entry_matches in Hmatch. simpl in Hmatch.
      apply (http_capital laws) in Hmatch as (c' & r' & Hb & Hc'). destruct http_need; simpl in Hb; [done|]. injection Hb as -> _. lia.
    - destruct hs; [|by apply elem_of_nil in He]. apply list_elem_of_singleton in He as ->. unfold entry_matches in Hmatch. simpl in Hmatch.
      apply (https_record laws) in Hmatch as (r' & Hb). left. destruct https_need; simpl in Hb; [done|]. injection Hb as -> _. done.
    - right. unfold entry_matches in Hmatch. simpl in Hmatch. rewrite orb_true_iff, !Z.eqb_eq in Hmatch. done. }
  assert (c = 22 → hs = true → ∃ e, e ∈ server_entries h hs ∧ entry_matches (c :: r) e = true ∧ me_priority e = 1%nat) as Hs.
  { intros -> ->. exists (mkEntry LHTTPS 1 https_need is_https). split_and!; [| |done].
    - unfold server_entries. rewrite !elem_of_app, !list_elem_of_singleton. auto.
    - unfold entry_matches. simpl. apply (https_record laws). destruct (https_need) eqn:E; [pose proof (https_need_pos laws); lia|]. by eexists. }
  assert (c = 22 ∨ c = FRPTLSHeadByte → ∃ e, e ∈ server_entries h hs ∧ entry_matches (c :: r) e = true) as Ht.
  { intros Hc. exists (mkEntry LTLS 2 1 tls_match). split.
    - unfold server_entries. rewrite !elem_of_app, !list_elem_of_singleton. auto.
    - unfold entry_matches, tls_match. simpl. rewrite orb_true_iff, !Z.eqb_eq. tauto. }
  destruct (route (server_entries h hs) (c :: r)) as [l|] eqn:E; simpl.
  - apply (route_picks laws) in E as (e & He & <- & Hmatch & Hmin).
    destruct (Hm e He Hmatch) as [(-> & -> & -> & _)|(-> & Hc & Hp)]; [done|].
    destruct (Z.eqb_spec c 22) as [->|Hne]; [|by destruct Hc as [->|?]].
    destruct hs; [|done]. destruct Hs as (e' & He' & Hm' & Hp'); [done..|]. specialize (Hmin e' He' Hm'). lia.
  - pose proof (route_none laws _ _ E) as Hnone. destruct (Z.eqb_spec c 22) as [Hc|?].
    { destruct Ht as (e & He & Hm'); [by left|]. rewrite (Hnone e He) in Hm'. done. }
    destruct (Z.eqb_spec c FRPTLSHeadByte) as [Hc|?]; [|done].
    destruct Ht as (e & He & Hm'); [by right|]. rewrite (Hnone e He) in Hm'. done.
Qed.

Lemma route_websocket h hs b : default LDefault (route (server_entries h hs) (ws_enc b)) = LWebsocket.
Proof using laws.
  destruct (ws_request laws b) as [r Hr].
  set (e0 := mkEntry LWebsocket 0 (length websocketPrefix) (λ d, bool_decide (d = websocketPrefix))).
  assert (e0 ∈ server_entries h hs) as H0 by (by left).
  assert (entry_matches (ws_enc b) e0 = true) as Hm0.
  { unfold entry_matches. simpl. rewrite Hr. by apply bool_decide_eq_true. }
  destruct (route _ _) as [l|] eqn:E; simpl.
  - apply (route_picks laws) in E as (e & He & <- & _ & Hmin). specialize (Hmin e0 H0 Hm0). simpl in Hmin.
    unfold server_entries in He. rewrite !elem_of_app, !list_elem_of_singleton in He.
    destruct He as [->|[He|[He| ->]]]; [done| | |simpl in Hmin; lia].
    + destruct h; [|by apply elem_of_nil in He]. apply list_elem_of_singleton in He as ->. simpl in Hmin. lia.
    + destruct hs; [|by apply elem_of_nil in He]. apply list_elem_of_singleton in He as ->. simpl in Hmin. lia.
  - rewrite (route_none laws _ _ E e0 H0) in Hm0. done.
Qed.

Lemma accepted_tls force b : handle_accepted force (tls_enc b) = Handled b true.
Proof using laws.
  destruct (tls_record laws b) as [r Hr]. unfold handle_accepted, CheckAndEnableTLSServerConnWithTimeout.
  rewrite Hr. simpl. by rewrite <-Hr, (tls_roundtrip laws).
Qed.

Lemma accepted_custom force b : handle_accepted force (FRPTLSHeadByte :: tls_enc b) = Handled b true.
Proof using laws. unfold handle_accepted. simpl. by rewrite (tls_roundtrip laws). Qed.

Lemma accepted_plain force p :
  plain_payload p → handle_accepted force p = if force then Refused else Handled p false.
Proof.
  intros (c & r & -> & H1 & H2 & _). unfold handle_accepted, CheckAndEnableTLSServerConnWithTimeout.
  rewrite (proj2 (Z.eqb_neq _ _) H2), (proj2 (Z.eqb_neq _ _) H1). by destruct force.
Qed.

(** The server takes off the layers of TLS a connection has, in both forms. *)
Lemma accepted_layers (c : option Config) disable force p :
  plain_payload p →
  handle_accepted force (wire
    (DialHookCustomTLSHeadByte (bool_decide (is_Some c)) disable ++ tls_layer c) p) =
  match c with Some _ => Handled p true | None => if force then Refused else Handled p false end.
Proof using laws.
  intros Hp. destruct c as [c|]; simpl; [|by apply accepted_plain].
  unfold DialHookCustomTLSHeadByte.
  destruct disable; simpl; [apply accepted_tls|apply accepted_custom].
Qed.

(** C18: what the client's connector puts on a new connection is what the server takes off.
    For the protocols tcp and websocket, with TLS on or off and with or without the custom
    first byte, the server hands its protocol exactly the bytes the client wrote and knows
    whether they came over TLS, and it refuses a plain connection if and only if TLS is
    forced. Two connections go elsewhere: over tcp with TLS and without the custom byte,
    when HTTPS shares the port, to the HTTPS virtual hosts; and wss, whose websocket the
    server finds inside TLS and does not take off. *)
Theorem transport_agrees LoadX509KeyPair ca_file_ok ParseProxyURL addr cfg network layers payload h hs force :
  let t := cc_Transport cfg in let proto := ct_Protocol t in
  let tlsOn := default false (tls_Enable (ct_TLS t)) in
  let disable := default false (DisableCustomTLSFirstByte (ct_TLS t)) in
  plain_payload payload → proto ∈ ["tcp"; "websocket"; "wss"] →
  dial_options LoadX509KeyPair ca_file_ok ParseProxyURL addr cfg = Ok (network, layers) →
  receive h hs force (wire layers payload) =
    if proto =s? "wss" then (if hs then ToVhost LHTTPS else Handled (ws_enc payload) true)
    else if (proto =s? "tcp") && tlsOn && disable && hs then ToVhost LHTTPS
    else if negb tlsOn && force then Refused else Handled payload tlsOn.
Proof using laws.
  intros t proto tlsOn disable Hp Hproto. unfold dial_options. fold t proto tlsOn disable.
  destruct (if tlsOn || (proto =s? "wss") then _ else _) as [tc|] eqn:Etc; simpl; [|done].
  assert (is_Some tc ↔ tlsOn || (proto =s? "wss") = true) as Htc.
  { destruct (tlsOn || (proto =s? "wss")); [|by simplify_eq; split; [intros [? ?]|]].
    destruct (client_tls _ _ _); simplify_eq. split; [done|by eexists]. }
  clear Etc. destruct (ParseProxyURL _); simpl; [|done]. unfold receive.
  destruct (proto =s? "websocket") eqn:Ews; [apply seqb_true in Ews|apply seqb_false in Ews].
  { rewrite Ews in *. simpl in *. intros [= <- <-]. unfold wire. cbn [foldr encode_layer DialHookWebsocket app].
    pose proof (accepted_layers tc disable force payload Hp) as Hacc. unfold wire in Hacc.
    rewrite route_websocket, (ws_roundtrip laws). etrans; [exact Hacc|]. rewrite orb_false_r in Htc. destruct tc, tlsOn; simpl; try done.
    - by destruct Htc as [Htc _]; specialize (Htc ltac:(by eexists)).
    - by destruct Htc as [_ Htc]; destruct (Htc eq_refl). }
  destruct (proto =s? "wss") eqn:Ewss; [apply seqb_true in Ewss|apply seqb_false in Ewss].
  { intros [= <- <-]. destruct tc as [tc|]; [|by destruct (proj2 Htc ltac:(by rewrite orb_true_r))].
    unfold wire. cbn [foldr encode_layer DialHookWebsocket tls_layer app].
    destruct (tls_record laws (ws_enc payload)) as [r Hr]. rewrite Hr. rewrite route_first by lia.
    simpl. destruct hs; [done|]. rewrite <-Hr. apply accepted_tls. }
  assert (proto = "tcp") as Htcp by (rewrite !elem_of_cons, elem_of_nil in Hproto; naive_solver).
  rewrite orb_false_r in Htc. rewrite Htcp. simpl. intros [= <- <-].
  pose proof (accepted_layers tc disable force payload Hp) as Hacc. fold disable.
  destruct tc as [tc|].
  - assert (tlsOn = true) as -> by (apply Htc; by eexists). unfold DialHookCustomTLSHeadByte in *.
    destruct disable; simpl in *.
    + destruct (tls_record laws payload) as [r Hr]. rewrite Hr in *. rewrite route_first by lia.
      simpl. by destruct hs.
    + rewrite route_first by (unfold FRPTLSHeadByte; lia). simpl. done.
  - assert (tlsOn = false) as -> by (destruct tlsOn; [by destruct (proj2 Htc eq_refl)|done]). simpl in *.
    destruct Hp as (c & r & -> & H1 & H2 & H3). rewrite route_first by done.
    by rewrite (proj2 (Z.eqb_neq _ _) H1), (proj2 (Z.eqb_neq _ _) H2).
Qed.
End server.

(** ** Witness: the simplest encodings that obey the laws *)

Module W.
Fixpoint best (b : bytes) (es : list mux_entry) : option mux_entry :=
  match es with
  | [] => None
  | e :: es => if entry_matches b e then
                 match best b es with
                 | Some e' => if (me_priority e <=? me_priority e')%nat then Some e else Some e'
                 | None => Some e
                 end
               else best b es
  end.
Definition route (es : list mux_entry) (b : bytes) : option listener := me_listener <$> best b es.
Definition first_is (P : Z → bool) (b : bytes) : bool := match b with c :: _ => P c | [] => false end.
Definition capital (c : Z) : bool := (65 <=? c) && (c <=? 90).
Definition tls_enc (b : bytes) : bytes := 22 :: b.
Definition tls_dec (b : bytes) : option bytes := match b with 22 :: b => Some b | _ => None end.
Definition ws_enc (b : bytes) : bytes := websocketPrefix ++ b.
Definition ws_dec (b : bytes) : option bytes := Some (drop (length websocketPrefix) b).

Lemma best_spec b es :
  match best b es with
  | Some e => e ∈ es ∧ entry_matches b e = true ∧ ∀ e', e' ∈ es → entry_matches b e' = true → (me_priority e <= me_priority e')%nat
  | None => ∀ e, e ∈ es → entry_matches b e = false
  end.
Proof.
  induction es as [|e es IH]; simpl; [by intros ? ?%elem_of_nil|].
  destruct (entry_matches b e) eqn:E.
  - destruct (best b es) as [e'|].
    + destruct IH as (Hin & Hm & Hmin). destruct (Nat.leb_spec (me_priority e) (me_priority e')); (split_and!; [|done|]).
      1: by left. 2: by right.
      * intros e2 [->|H2]%elem_of_cons Hm2; [lia|]. specialize (Hmin _ H2 Hm2). lia.
      * intros e2 [->|H2]%elem_of_cons ?; [lia|]. by apply Hmin.
    + split_and!; [by left|done|]. intros e2 [->|H2]%elem_of_cons Hm; [lia|]. by rewrite IH in Hm.
  - destruct (best b es) as [e'|].
    + destruct IH as (Hin & Hm & Hmin). split_and!; [by right|done|]. intros e2 [->|H2]%elem_of_cons Hm2; [congruence|]. by apply Hmin.
    + intros e2 [->|H2]%elem_of_cons; [done|]. by apply IH.
Qed.

Lemma laws : wire_laws 1 (first_is capital) (first_is (Z.eqb 22)) route tls_enc tls_dec ws_enc ws_dec.
Proof.
  constructor.
  - intros es b l. unfold route. pose proof (best_spec b es) as Hb. destruct (best b es) as [e|]; [|done].
    intros [= <-]. destruct Hb as (? & ? & ?). by exists e.
  - intros es b. unfold route. pose proof (best_spec b es) as Hb. by destruct (best b es).
  - intros [|c r]; [done|]. unfold first_is, capital. rewrite andb_true_iff, !Z.leb_le. intros ?. by exists c, r.
  - lia.
  - intros [|c r]; [split; [done|by intros [? ?]]|]. unfold first_is. rewrite Z.eqb_eq. split; [by intros <-; eexists|].
    intros [r' E]. by injection E as -> _.
  - intros b. by exists b.
  - done.
  - intros b. by exists b.
  - intros b. unfold ws_dec, ws_enc. by rewrite drop_app_length.
Qed.
End W.

Definition w_client : ClientCommonConfig :=
  client_Complete "" (mkClientCommon (mkAuth "" [] "" None zero_oidc) "" "" "s" 0 "" "" None [] (mkLog "" "" 0 false) zero_web
    (mkClientTransport "websocket" 0 0 "" "" 0 None 0 (mkQUIC 0 0 0) 0 0 (mkTLSClient None (Some false) zero_tls)) "" ∅ 0 ∅ [] "").

Lemma transport_agrees_witness :
  ∃ layers, dial_options (λ _ _, true) (λ _, true) (λ _, true) "s:7000" w_client = Ok ("tcp", layers) ∧
    length layers = 3%nat ∧
    receive 1 1 (W.first_is W.capital) (W.first_is (Z.eqb 22)) W.route W.tls_dec W.ws_dec true true true
      (wire W.tls_enc W.ws_enc layers [111; 0; 0]) = Handled [111; 0; 0] true.
Proof.
  eexists. split; [by vm_compute|]. split; [done|].
  rewrite (transport_agrees _ _ _ _ _ _ _ _ _ W.laws (λ _ _, true) (λ _, true) (λ _, true) "s:7000" w_client "tcp" _ [111; 0; 0] true true true);
    [by vm_compute| | |by vm_compute].
  - exists 111, [0; 0]. unfold FRPTLSHeadByte. split; [done|]. lia.
  - vm_compute. by right; left.
Defined.
