(* ===== verification/ServerRun.v ===== *)
(** The life of the server, [src/server/service.go]: [NewService] with the listeners it opens
    and the managers it creates, [Run] with the listeners it serves, what
    [HandleListener] and [HandleQUICListener] hand to [handleConnection], and [Close]; the
    dashboard's listener, [src/pkg/util/http/server.go], the websocket and KCP listeners,
    [src/pkg/util/net/websocket.go] and [kcp.go], and [ResourceController.Close]. *)
From Stdlib Require Import ZArith Lia Ascii String.
From stdpp Require Import base gmap strings list.
From S2P Require Import Prelude GoStrings Ports ProxyConf Validation CommonConf Transport.
Import ServerConf TLSConf.
Local Open Scope string_scope.
Local Open Scope list_scope.
Local Open Scope Z_scope.

(** ** What is opened *)

(** The listeners that hold a port of the machine. *)
Inductive opened := OWeb | OTcpmux | OMain | OKcp | OQuic | OSsh | OHTTP | OHTTPS.
#[global] Instance opened_eq_dec : EqDecision opened.
Proof. solve_decision. Defined.

Inductive svc_error := TLSFails (e : tls_error) | ListenFails (o : opened) | WebCertFails | AuthFails | SshKeyFails.

(** The answers of the system while the server starts. *)
Record env := mkEnv {
  e_listen : opened → bool; e_keypair : string → string → bool; e_generate : bool; e_ca : string → bool;
  e_auth : AuthServerConfig → bool;                          (* [BuildServerAuth] *)
  e_ssh_key : bool }.                                        (* the host key of the gateway *)

(** [httppkg.NewServer]: the listener is open when the key pair turns out not to load. *)
Definition NewServer (e : env) (cfg : WebServerConfig) : result svc_error unit * list opened :=
  if negb (e_listen e OWeb) then (Err (ListenFails OWeb), [])
  else match web_TLS cfg with
       | Some t => if e_keypair e (tls_CertFile t) (tls_KeyFile t) then (Ok tt, [OWeb]) else (Err WebCertFails, [OWeb])
       | None => (Ok tt, [OWeb])
       end.

(** How virtual hosts get their connections: from the server's own port, or from a listener
    of their own. *)
Inductive via := Muxed | Own.

Record svc := mkSvc {
  sv_cfg : CommonConf.ServerConf.ServerConfig; sv_tls : Config; sv_web : bool; sv_tcpmux : bool;   (* TCPMuxHTTPConnectMuxer *)
  sv_kcp : bool; sv_quic : option Config; sv_ssh : bool; sv_http : option via;   (* HTTPReverseProxy *)
  sv_https : option via;                                      (* VhostHTTPSMuxer and HTTPSGroupCtl *)
  sv_tcpPorts : Ports.Manager; sv_udpPorts : Ports.Manager }.

Definition range_of (t : Z * Z * Z) : PortsRange := mkPortsRange (fst (fst t)) (snd (fst t)) (snd t).

Definition httpMuxOn (cfg : CommonConf.ServerConf.ServerConfig) : bool :=
  (sc_BindAddr cfg =s? sc_ProxyBindAddr cfg) && (sc_BindPort cfg =? sc_VhostHTTPPort cfg).
Definition httpsMuxOn (cfg : CommonConf.ServerConf.ServerConfig) : bool :=
  (sc_BindAddr cfg =s? sc_ProxyBindAddr cfg) && (sc_BindPort cfg =? sc_VhostHTTPSPort cfg).

(** One optional listener, then the rest. *)
Definition listen_then {A} (e : env) (on : bool) (o : opened) (op : list opened)
    (k : list opened → result svc_error A * list opened) : result svc_error A * list opened :=
  if on then if e_listen e o then k (op ++ [o]) else (Err (ListenFails o), op) else k op.

Definition NewService (e : env) (cfg : CommonConf.ServerConf.ServerConfig) : result svc_error svc * list opened :=
  let t := st_TLS (sc_Transport cfg) in
  match NewServerTLSConfig (e_keypair e) (e_generate e) (e_ca e) (tls_CertFile t) (tls_KeyFile t) (tls_TrustedCaFile t) with
  | Err x => (Err (TLSFails x), [])
  | Ok tlsConfig =>
      let web := 0 <? web_Port (sc_WebServer cfg) in
      match (if web then NewServer e (sc_WebServer cfg) else (Ok tt, [])) with
      | (Err x, op) => (Err x, op)
      | (Ok _, op) =>
          if negb (e_auth e (sc_Auth cfg)) then (Err AuthFails, op) else
          listen_then e (0 <? sc_TCPMuxHTTPConnectPort cfg) OTcpmux op (λ op,
          listen_then e true OMain op (λ op,
          listen_then e (0 <? sc_KCPBindPort cfg) OKcp op (λ op,
          listen_then e (0 <? sc_QUICBindPort cfg) OQuic op (λ op,
          if (0 <? ssh_BindPort (sc_SSHTunnelGateway cfg)) && negb (e_ssh_key e) then (Err SshKeyFails, op) else
          listen_then e (0 <? ssh_BindPort (sc_SSHTunnelGateway cfg)) OSsh op (λ op,
          listen_then e ((0 <? sc_VhostHTTPPort cfg) && negb (httpMuxOn cfg)) OHTTP op (λ op,
          listen_then e ((0 <? sc_VhostHTTPSPort cfg) && negb (httpsMuxOn cfg)) OHTTPS op (λ op,
          (Ok (mkSvc cfg tlsConfig web (0 <? sc_TCPMuxHTTPConnectPort cfg) (0 <? sc_KCPBindPort cfg)
                 (if 0 <? sc_QUICBindPort cfg then Some (set_next_protos ["frp"] tlsConfig) else None)
                 (0 <? ssh_BindPort (sc_SSHTunnelGateway cfg))
                 (if 0 <? sc_VhostHTTPPort cfg then Some (if httpMuxOn cfg then Muxed else Own) else None)
                 (if 0 <? sc_VhostHTTPSPort cfg then Some (if httpsMuxOn cfg then Muxed else Own) else None)
                 (NewManager "tcp" (sc_ProxyBindAddr cfg) (range_of <$> sc_AllowPorts cfg))
                 (NewManager "udp" (sc_ProxyBindAddr cfg) (range_of <$> sc_AllowPorts cfg))), op))))))))
      end
  end.

(** [ResourceController.Close]: the listeners of the two muxers. *)
Definition rc_Close (s : svc) : list opened :=
  (match sv_https s with Some Own => [OHTTPS] | _ => [] end) ++ (if sv_tcpmux s then [OTcpmux] else []).

(** What [Close] closes; closing the muxer closes the port behind it, and with it the
    listeners that share it. *)
Definition svc_closes (s : svc) : list opened :=
  (if sv_kcp s then [OKcp] else []) ++ (match sv_quic s with Some _ => [OQuic] | None => [] end) ++
  (if sv_web s then [OWeb] else []) ++ (if sv_ssh s then [OSsh] else []) ++ rc_Close s ++ [OMain].

Definition svc_Close (s : svc) (op : list opened) : list opened := filter (λ o, o ∉ svc_closes s) op.

(** ** Serving connections *)

(** Where a connection comes from; the websocket listener hands out the connection inside
    the websocket. *)
Inductive source := FromSsh | FromKcp | FromWebsocket | FromTLS | FromDefault.

(** The listeners [Run] serves, with the flag [internal] it passes. *)
Definition Run_listeners (s : svc) : list (source * bool) :=
  [(FromSsh, true)] ++ (if sv_kcp s then [(FromKcp, false)] else []) ++
  [(FromWebsocket, false); (FromTLS, false); (FromDefault, false)].

(** A call of [handleConnection]: the stream, the TLS configuration it came over, and the flag. *)
Record call := mkCall { cl_stream : bytes; cl_tls : option Config; cl_internal : bool }.

Section serve.
(** A TLS server with a configuration: [None] if the handshake fails. *)
Variable tls_Server : Config → bytes → option bytes.
(** [fmux.Server] and the streams that are accepted: [None] if there is no session. *)
Variable fmux_Server : bytes → option (list bytes).

Definition handle_mux (s : svc) (internal : bool) (tls : option Config) (frpConn : bytes) : list call :=
  if default false (st_TCPMux (sc_Transport (sv_cfg s))) && negb internal then
    match fmux_Server frpConn with
    | None => []
    | Some streams => (λ b, mkCall b tls internal) <$> streams
    end
  else [mkCall frpConn tls internal].

(** One connection that [HandleListener] accepts. *)
Definition HandleListener_conn (s : svc) (internal : bool) (c : bytes) : list call :=
  if internal then handle_mux s internal None c
  else match CheckAndEnableTLSServerConnWithTimeout (TLS_Force (sc_Transport (sv_cfg s))) c with
       | Err _ => []
       | Ok (TLSServer w _) => match tls_Server (sv_tls s) w with
                               | Some p => handle_mux s internal (Some (sv_tls s)) p
                               | None => []
                               end
       | Ok (Plain w) => handle_mux s internal None w
       end.

(** One QUIC connection: every stream, over the TLS configuration of QUIC. *)
Definition HandleQUICListener_conn (tls : Config) (streams : list bytes) : list call :=
  (λ b, mkCall b (Some tls) false) <$> streams.

(** Everything that reaches [handleConnection] from a connection of any listener. *)
Inductive reaches (s : svc) : call → Prop :=
| reach_listener src internal c k :
    (src, internal) ∈ Run_listeners s → k ∈ HandleListener_conn s internal c → reaches s k
| reach_quic tls streams k :
    sv_quic s = Some tls → k ∈ HandleQUICListener_conn tls streams → reaches s k.
End serve.

(** ** Properties *)

Definition opt {A} (b : bool) (a : A) : list A := if b then [a] else [].

(** The listeners a configuration asks for. *)
Definition listens (cfg : CommonConf.ServerConf.ServerConfig) : list opened :=
  opt (0 <? web_Port (sc_WebServer cfg)) OWeb ++ opt (0 <? sc_TCPMuxHTTPConnectPort cfg) OTcpmux ++ [OMain] ++
  opt (0 <? sc_KCPBindPort cfg) OKcp ++ opt (0 <? sc_QUICBindPort cfg) OQuic ++
  opt (0 <? ssh_BindPort (sc_SSHTunnelGateway cfg)) OSsh ++
  opt ((0 <? sc_VhostHTTPPort cfg) && negb (httpMuxOn cfg)) OHTTP ++
  opt ((0 <? sc_VhostHTTPSPort cfg) && negb (httpsMuxOn cfg)) OHTTPS.

Lemma listen_then_ok {A} e on o op (k : list opened → result svc_error A * list opened) a r :
  listen_then e on o op k = (Ok a, r) → k (op ++ opt on o) = (Ok a, r).
Proof. unfold listen_then. destruct on; simpl; [by case_match|]. by rewrite app_nil_r. Qed.

(** What a server that started is made of. *)
Lemma NewService_ok e cfg s op :
  NewService e cfg = (Ok s, op) →
  op = listens cfg ∧ sv_cfg s = cfg ∧ sv_web s = (0 <? web_Port (sc_WebServer cfg)) ∧
  sv_tcpmux s = (0 <? sc_TCPMuxHTTPConnectPort cfg) ∧ sv_kcp s = (0 <? sc_KCPBindPort cfg) ∧
  sv_quic s = (if 0 <? sc_QUICBindPort cfg then Some (set_next_protos ["frp"] (sv_tls s)) else None) ∧
  sv_ssh s = (0 <? ssh_BindPort (sc_SSHTunnelGateway cfg)) ∧
  sv_http s = (if 0 <? sc_VhostHTTPPort cfg then Some (if httpMuxOn cfg then Muxed else Own) else None) ∧
  sv_https s = (if 0 <? sc_VhostHTTPSPort cfg then Some (if httpsMuxOn cfg then Muxed else Own) else None) ∧
  NewServerTLSConfig (e_keypair e) (e_generate e) (e_ca e) (tls_CertFile (st_TLS (sc_Transport cfg)))
    (tls_KeyFile (st_TLS (sc_Transport cfg))) (tls_TrustedCaFile (st_TLS (sc_Transport cfg))) = Ok (sv_tls s).
Proof.
  unfold NewService. destruct (NewServerTLSConfig _ _ _ _ _ _) as [tc|] eqn:Htls; [|done].
  destruct (if 0 <? web_Port (sc_WebServer cfg) then _ else _) as [[[]|] op0] eqn:Hweb; [|done].
  assert (op0 = opt (0 <? web_Port (sc_WebServer cfg)) OWeb) as ->.
  { destruct (0 <? web_Port (sc_WebServer cfg)); [|by simplify_eq]. unfold NewServer in Hweb.
    repeat case_match; by simplify_eq. }
  destruct (e_auth e (sc_Auth cfg)); cbn [negb]; [|done].
  intros H%listen_then_ok%listen_then_ok%listen_then_ok%listen_then_ok. revert H.
  destruct ((0 <? ssh_BindPort _) && negb (e_ssh_key e)); [done|]. intros H%listen_then_ok%listen_then_ok%listen_then_ok. injection H as <- <-.
  split; [|done]. unfold listens. by rewrite <-!app_assoc.
Qed.

(** A server that starts has opened exactly the listeners its configuration asks for, and
    [Close] closes them all but one: the listener of the HTTP virtual hosts, when it does
    not share the server's port, is never closed. *)
Theorem server_close_exact e cfg s op :
  NewService e cfg = (Ok s, op) →
  op = listens cfg ∧
  svc_Close s op = if (0 <? sc_VhostHTTPPort cfg) && negb (httpMuxOn cfg) then [OHTTP] else [].
Proof.
  intros (-> & _ & Hweb & Hmux & Hkcp & Hquic & Hssh & Hhttp & Hhttps & _)%NewService_ok.
  split; [done|]. unfold svc_Close, svc_closes, rc_Close, listens. rewrite Hweb, Hmux, Hkcp, Hquic, Hssh, Hhttps.
  destruct (0 <? web_Port _), (0 <? sc_TCPMuxHTTPConnectPort _), (0 <? sc_KCPBindPort _), (0 <? sc_QUICBindPort _),
    (0 <? ssh_BindPort _), (0 <? sc_VhostHTTPPort _), (httpMuxOn cfg), (0 <? sc_VhostHTTPSPort _), (httpsMuxOn cfg);
    reflexivity.
Qed.

(** A start that fails leaves what it had opened open: the dashboard's port when its
    certificate does not load. *)
Lemma failed_start_keeps_listener e cfg t :
  0 < web_Port (sc_WebServer cfg) → web_TLS (sc_WebServer cfg) = Some t → e_listen e OWeb = true →
  e_keypair e (tls_CertFile t) (tls_KeyFile t) = false → e_generate e = true →
  tls_CertFile (st_TLS (sc_Transport cfg)) = "" → tls_TrustedCaFile (st_TLS (sc_Transport cfg)) = "" →
  NewService e cfg = (Err WebCertFails, [OWeb]).
Proof.
  intros Hp Ht Hl Hk Hg Hc Hca. unfold NewService, NewServerTLSConfig, newRandomTLSKeyPair. rewrite Hc, Hca, Hg. simpl.
  rewrite (proj2 (Z.ltb_lt _ _) Hp). unfold NewServer. by rewrite Hl, Ht, Hk.
Qed.

Section serve_props.
Variable tls_Server : Config → bytes → option bytes.
Variable fmux_Server : bytes → option (list bytes).

Lemma handle_mux_calls s internal tls c k :
  k ∈ handle_mux fmux_Server s internal tls c → cl_tls k = tls ∧ cl_internal k = internal.
Proof.
  unfold handle_mux. case_match; [case_match|].
  - by intros (b & -> & _)%list_elem_of_fmap.
  - by intros ?%elem_of_nil.
  - by intros ->%list_elem_of_singleton.
Qed.

Lemma HandleListener_calls s internal c k :
  k ∈ HandleListener_conn tls_Server fmux_Server s internal c →
  cl_internal k = internal ∧
  (internal = false → cl_tls k = Some (sv_tls s) ∨ (cl_tls k = None ∧ TLS_Force (sc_Transport (sv_cfg s)) = false)).
Proof.
  unfold HandleListener_conn. destruct internal; [intros [_ ->]%handle_mux_calls; done|].
  unfold CheckAndEnableTLSServerConnWithTimeout.
  repeat case_match; simplify_eq; try (by intros ?%elem_of_nil); intros [-> ->]%handle_mux_calls; auto.
Qed.

(** C4: on a server with a trusted CA file, completed and started, every connection that
    reaches [handleConnection] from outside, over TCP, websocket, KCP or QUIC, comes over a
    TLS configuration that demands a client certificate of that CA. Only the connections
    of the SSH gateway inside the process, which are marked internal, do not. *)
Theorem trusted_ca_enforced e cfg s op k :
  tls_TrustedCaFile (st_TLS (sc_Transport cfg)) ≠ "" →
  NewService e (server_Complete cfg) = (Ok s, op) → reaches tls_Server fmux_Server s k → cl_internal k = false →
  ∃ tc, cl_tls k = Some tc ∧ RequireClientCert tc = true ∧
    ClientCAs tc = Some (tls_TrustedCaFile (st_TLS (sc_Transport cfg))).
Proof.
  intros Hca (_ & Hcfg & _ & _ & _ & Hquic & _ & _ & _ & Htls)%NewService_ok Hk Hint.
  assert (TLS_Force (sc_Transport (sv_cfg s)) = true) as Hforce.
  { rewrite Hcfg. simpl. by rewrite (proj2 (seqb_false _ _) Hca). }
  assert (RequireClientCert (sv_tls s) = true ∧
    ClientCAs (sv_tls s) = Some (tls_TrustedCaFile (st_TLS (sc_Transport cfg)))) as [Hreq Hcas].
  { revert Htls. simpl. unfold NewServerTLSConfig, newCertPool. destruct (if _ || _ then _ else _) as [cert|]; simpl; [|done].
    rewrite (proj2 (seqb_false _ _) Hca). destruct (e_ca e _); simpl; [|done]. by intros [= <-]. }
  destruct Hk as [src internal c k Hsrc [Hi Ht]%HandleListener_calls|tls streams k Hq Hk].
  - destruct Ht as [Ht|[_ Hf]]; [congruence| |congruence]. by exists (sv_tls s).
  - unfold HandleQUICListener_conn in Hk. apply list_elem_of_fmap in Hk as (b & -> & _). rewrite Hquic in Hq.
    case_match; simplify_eq. eexists. split; [done|]. by simpl.
Qed.

(** The flag that lets a login pass without authentication is set for the connections of
    the SSH gateway and for no others. *)
Lemma internal_only_ssh s src internal c k :
  (src, internal) ∈ Run_listeners s → k ∈ HandleListener_conn tls_Server fmux_Server s internal c →
  cl_internal k = true → src = FromSsh.
Proof.
  intros Hsrc [<- _]%HandleListener_calls Hi. revert Hsrc. rewrite Hi. unfold Run_listeners.
  rewrite !elem_of_app, !elem_of_cons, !elem_of_nil. destruct (sv_kcp s); rewrite ?elem_of_cons, ?elem_of_nil; naive_solver.
Qed.
End serve_props.

(** ** A proxy the server accepts finds what it needs *)

Definition part_of (cfg : CommonConf.ServerConf.ServerConfig) : Validation.ServerConfig :=
  mkServerConfig (sc_SubDomainHost cfg) (sc_VhostHTTPPort cfg) (sc_VhostHTTPSPort cfg) (sc_TCPMuxHTTPConnectPort cfg).

(** The managers that a proxy uses when it runs, which may be nil. *)
Definition needs_met {plugin} (s : svc) (c : ProxyConfigurer plugin) : Prop :=
  match c with
  | HTTPProxyConfig _ _ _ => is_Some (sv_http s)
  | HTTPSProxyConfig _ _ => is_Some (sv_https s)
  | TCPMuxProxyConfig _ _ t => Multiplexer t = "httpconnect" → sv_tcpmux s = true
  | _ => True
  end.

Lemma validatePort_range p f : validatePort p f = [] → 0 <= p.
Proof. unfold validatePort, err_if. case_match; [done|]. apply negb_false_iff, andb_true_iff in H. lia. Qed.

(** With a configuration that validation accepts, a proxy that server-side validation
    accepts finds the manager its type runs on: the HTTP reverse proxy, the HTTPS muxer
    with its group controller, or the HTTP CONNECT muxer. None of them is nil. *)
Theorem accepted_proxy_finds_manager {plugin} IsQualifiedName uf e cfg s op (c : ProxyConfigurer plugin) :
  ValidateServerConfig uf cfg = [] → NewService e cfg = (Ok s, op) →
  ValidateProxyConfigurerForServer IsQualifiedName plugin c (part_of cfg) = [] → needs_met s c.
Proof.
  intros Hv (_ & _ & _ & Hmux & _ & _ & _ & Hhttp & Hhttps & _)%NewService_ok Hc.
  unfold ValidateServerConfig in Hv. rewrite !app_nil in Hv.
  destruct Hv as (_ & _ & _ & _ & _ & _ & _ & _ & _ & H1%validatePort_range & H2%validatePort_range & H3%validatePort_range & _).
  unfold ValidateProxyConfigurerForServer in Hc. apply seq_check_nil in Hc as [_ Hc].
  destruct c; simpl in *; try done; apply seq_check_nil in Hc as [Hg%guard_nil _].
  - rewrite Hhttp. apply Z.eqb_neq in Hg. rewrite (proj2 (Z.ltb_lt _ _)) by lia. by eexists.
  - rewrite Hhttps. apply Z.eqb_neq in Hg. rewrite (proj2 (Z.ltb_lt _ _)) by lia. by eexists.
  - intros Hm. rewrite Hm, seqb_refl in Hg. apply Z.eqb_neq in Hg. rewrite Hmux. apply Z.ltb_lt. lia.
Qed.

(** ** Listeners with a channel of their own *)

(** [WebsocketListener]: [Accept] takes a connection from the channel or waits ([None]); a
    closed channel gives an error, and nothing closes it. *)
Module WebsocketListener.
Section ops.
Context {C : Type}.
Record t := mk { acceptCh : list C; chClosed : bool; serverClosed : bool }.
Definition NewWebsocketListener : t := mk [] false false.
(** The handler of a websocket that was upgraded; the HTTP server serves until it is closed. *)
Definition upgraded (c : C) (l : t) : t := if serverClosed l then l else mk (acceptCh l ++ [c]) (chClosed l) (serverClosed l).
Definition Accept (l : t) : option (result unit C * t) :=
  match acceptCh l with
  | c :: rest => Some (Ok c, mk rest (chClosed l) (serverClosed l))
  | [] => if chClosed l then Some (Err tt, l) else None
  end.
Definition Close (l : t) : t := mk (acceptCh l) (chClosed l) true.

Inductive op := Upgrade (c : C) | DoAccept | DoClose.
Definition step (l : t) (o : op) : t :=
  match o with
  | Upgrade c => upgraded c l
  | DoAccept => match Accept l with Some (_, l) => l | None => l end
  | DoClose => Close l
  end.

(** [Accept] never fails, so the loop that calls it does not end: on a listener that is closed
    and drained it waits for good. *)
Lemma Accept_never_fails ops l' : Accept (foldl step NewWebsocketListener ops) ≠ Some (Err tt, l').
Proof.
  assert (∀ ops l, chClosed l = false → chClosed (foldl step l ops) = false) as H.
  { clear. induction ops as [|o ops IH]; intros l Hl; simpl; [done|]. apply IH. destruct o; simpl; [|unfold Accept|done].
    - unfold upgraded. by case_match.
    - repeat case_match; simplify_eq; done. }
  unfold Accept. rewrite (H ops NewWebsocketListener eq_refl). by case_match.
Qed.
End ops.
End WebsocketListener.

(** [KCPListener]: the goroutine of [ListenKcp] forwards connections, tries again after an
    error, and closes the channel after an error on a listener that is closed. *)
Module KCPListener.
Section ops.
Context {C : Type}.
Record t := mk { acceptCh : list C; chClosed : bool; closeFlag : bool; underClosed : bool }.
Definition New : t := mk [] false false false.
(** One round of the goroutine: what [AcceptKCP] returned. *)
Definition round (r : option C) (l : t) : t :=
  if chClosed l then l                                        (* the goroutine has returned *)
  else match r with
       | Some c => mk (acceptCh l ++ [c]) false (closeFlag l) (underClosed l)
       | None => if closeFlag l then mk (acceptCh l) true (closeFlag l) (underClosed l) else l
       end.
Definition Accept (l : t) : option (result unit C * t) :=
  match acceptCh l with
  | c :: rest => Some (Ok c, mk rest (chClosed l) (closeFlag l) (underClosed l))
  | [] => if chClosed l then Some (Err tt, l) else None
  end.
Definition Close (l : t) : t := if closeFlag l then l else mk (acceptCh l) (chClosed l) true true.

(** Closing ends the goroutine at its next error, and then [Accept] fails once the channel is
    drained. *)
Lemma Close_ends l : acceptCh l = [] → Accept (round None (Close l)) = Some (Err tt, round None (Close l)).
Proof.
  intros Hq. unfold Accept, Close, round. destruct l as [q ch cf u]. simpl in *. subst q.
  by destruct cf, ch.
Qed.
End ops.
End KCPListener.

(** ** Witnesses *)

Definition w_env : env := mkEnv (λ _, true) (λ _ _, true) true (λ _, true) (λ _, true) true.

(** A server with HTTP on a port of its own, HTTPS on the server's port, KCP and a CA file. *)
Definition w_server : CommonConf.ServerConf.ServerConfig :=
  mkServer (mkAuthServer "" [] "" None (mkOIDCServer "" "" false false)) "" 7000 7001 0 "" 8080 0 7000 0 false "" ""
    (mkSSH 0 "" "" "") zero_web false (mkLog "" "" 0 false)
    (mkServerTransport None 0 0 0 0 (mkQUIC 0 0 0) false (mkTLS "" "" "ca.pem" "")) None 0 0 0 0 [] [].

Definition w_svc : svc :=
  match fst (NewService w_env (server_Complete w_server)) with Ok s => s | Err _ =>
    mkSvc w_server (mkConfig [] false None None "" false []) false false false None false None None
      (NewManager "" "" []) (NewManager "" "" []) end.

Lemma w_started : NewService w_env (server_Complete w_server) = (Ok w_svc, [OMain; OKcp; OHTTP]).
Proof.
  unfold w_svc, NewService. cbn -[NewManager]. reflexivity.
Qed.

Lemma server_close_exact_witness : svc_Close w_svc [OMain; OKcp; OHTTP] = [OHTTP].
Proof. exact (proj2 (server_close_exact w_env (server_Complete w_server) w_svc [OMain; OKcp; OHTTP] w_started)). Defined.

Lemma trusted_ca_enforced_witness :
  ∃ tc, cl_tls (mkCall [1] (Some (sv_tls w_svc)) false) = Some tc ∧ RequireClientCert tc = true.
Proof.
  destruct (trusted_ca_enforced (λ _ w, Some w) (λ b, Some [b]) w_env w_server w_svc [OMain; OKcp; OHTTP] (mkCall [1] (Some (sv_tls w_svc)) false))
    as (tc & H1 & H2 & _); [done|exact w_started| |done|by exists tc].
  apply (reach_listener _ _ _ FromDefault false [23; 1]).
  - unfold Run_listeners. apply elem_of_app. right. apply elem_of_app. right. by right; right; left.
  - unfold HandleListener_conn, handle_mux. simpl. by left.
Defined.

Definition w_https : ProxyConfigurer unit :=
  HTTPSProxyConfig (mkBase "a" "https" None ∅ (mkTransport false false zero_bandwidth "" "") ∅ (mkLoadBalancer "" "")
    (mkHealthCheck "" 0 0 0 "" []) (mkBackend "" 0 None)) (mkDomains ["a.com"] "").

Lemma accepted_proxy_finds_manager_witness : is_Some (sv_https w_svc).
Proof.
  exact (accepted_proxy_finds_manager (λ _, []) None w_env (server_Complete w_server) w_svc [OMain; OKcp; OHTTP] w_https
    ltac:(by vm_compute) w_started ltac:(by vm_compute)).
Defined.
