(* ===== verification/Flags.v ===== *)
(** Command-line flags, [src/pkg/config/flags.go]. Registering a flag gives its variable the
    default, and parsing the command line replaces it: a configuration is what its flags make
    of the values that were given, by normalized name. The parser is the library's; it hands
    each flag the values of its type. *)
From Stdlib Require Import ZArith Lia Ascii String.
From stdpp Require Import base gmap strings list.
From S2P Require Import Prelude GoStrings Ports Ranges ProxyConf VisitorConf PluginConf CommonConf Decode.
Import ServerConf.
Local Open Scope string_scope.
Local Open Scope list_scope.
Local Open Scope Z_scope.

(** ** Names and values *)

Fixpoint replace_char (a b : ascii) (s : string) : string :=
  match s with "" => "" | String c s => String (if ascii_dec c a then b else c) (replace_char a b s) end.

Definition WordSepNormalizeFunc (name : string) : string :=
  if ContainsByte name "_" then replace_char "_" "-" name else name.

Inductive fvalue := VString (s : string) | VInt (z : Z) | VBool (b : bool) | VSlice (l : list string) | VMap (m : gmap string string).

(** The values on the command line, under normalized names. *)
Definition flag_values : Type := gmap string fvalue.

Definition flag_string (v : flag_values) (name d : string) : string :=
  match v !! WordSepNormalizeFunc name with Some (VString s) => s | _ => d end.
Definition flag_int (v : flag_values) (name : string) (d : Z) : Z :=
  match v !! WordSepNormalizeFunc name with Some (VInt z) => z | _ => d end.
Definition flag_bool (v : flag_values) (name : string) (d : bool) : bool :=
  match v !! WordSepNormalizeFunc name with Some (VBool b) => b | _ => d end.
Definition flag_slice (v : flag_values) (name : string) (d : list string) : list string :=
  match v !! WordSepNormalizeFunc name with Some (VSlice l) => l | _ => d end.
Definition flag_map (v : flag_values) (name : string) (d : gmap string string) : gmap string string :=
  match v !! WordSepNormalizeFunc name with Some (VMap m) => m | _ => d end.

(** ** The flags with a type of their own *)

Section bandwidth.
Variable parse_scaled : string → Z → option Z.

Definition BandwidthQuantityFlag_Set (q : BandwidthQuantity) (s : string) : result bw_error BandwidthQuantity :=
  UnmarshalString parse_scaled q s.

Definition flag_bandwidth (v : flag_values) (name : string) (q : BandwidthQuantity) : result bw_error BandwidthQuantity :=
  match v !! WordSepNormalizeFunc name with Some (VString s) => BandwidthQuantityFlag_Set q s | _ => Ok q end.

(** ** Proxies *)

Definition registerProxyBaseConfigFlags (sshMode : bool) (v : flag_values) (c : ProxyBaseConfig TypedClientPluginOptions)
    : result bw_error (ProxyBaseConfig TypedClientPluginOptions) :=
  let t := Transport c in
  try bw := (if sshMode then Ok (BandwidthLimit t) else flag_bandwidth v "bandwidth_limit" (BandwidthLimit t)) in
  Ok (mkBase (flag_string v "proxy_name" "") (Type_ c) (Enabled c) (flag_map v "annotations" ∅)
        (if sshMode then t
         else mkTransport (flag_bool v "ue" false) (flag_bool v "uc" false) bw
                (flag_string v "bandwidth_limit_mode" "client") (ProxyProtocolVersion t))
        (flag_map v "metadatas" ∅) (LoadBalancer c) (HealthCheck c)
        (if sshMode then Backend c
         else mkBackend (flag_string v "local_ip" "127.0.0.1") (flag_int v "local_port" 0) (Plugin (Backend c)))).

Definition registerProxyDomainConfigFlags (v : flag_values) : DomainConfig :=
  mkDomains (flag_slice v "custom_domain" []) (flag_string v "sd" "").

Definition RegisterProxyFlags (sshMode : bool) (v : flag_values) (c : proxy_conf) : result bw_error proxy_conf :=
  try b := registerProxyBaseConfigFlags sshMode v (GetBaseConfig c) in
  Ok (match c with
      | TCPProxyConfig _ _ => TCPProxyConfig b (flag_int v "remote_port" 0)
      | UDPProxyConfig _ _ => UDPProxyConfig b (flag_int v "remote_port" 0)
      | HTTPProxyConfig _ _ h =>
          HTTPProxyConfig b (registerProxyDomainConfigFlags v)
            (mkHTTPFields (flag_slice v "locations" []) (flag_string v "http_user" "") (flag_string v "http_pwd" "")
               (flag_string v "host_header_rewrite" "") (RequestHeaders h) (hf_ResponseHeaders h) (hf_RouteByHTTPUser h))
      | HTTPSProxyConfig _ _ => HTTPSProxyConfig b (registerProxyDomainConfigFlags v)
      | TCPMuxProxyConfig _ _ t =>
          TCPMuxProxyConfig b (registerProxyDomainConfigFlags v)
            (mkTCPMuxFields (flag_string v "http_user" "") (flag_string v "http_pwd" "") (tf_RouteByHTTPUser t)
               (flag_string v "mux" ""))
      | STCPProxyConfig _ _ _ => STCPProxyConfig b (flag_string v "sk" "") (flag_slice v "allow_users" [])
      | SUDPProxyConfig _ _ _ => SUDPProxyConfig b (flag_string v "sk" "") (flag_slice v "allow_users" [])
      | XTCPProxyConfig _ _ _ nt => XTCPProxyConfig b (flag_string v "sk" "") (flag_slice v "allow_users" []) nt
      end).
End bandwidth.

(** ** Visitors *)

Definition registerVisitorBaseConfigFlags (v : flag_values) (c : VisitorBaseConfig) : VisitorBaseConfig :=
  mkVBase (flag_string v "visitor_name" "") (v_Type c) (v_Enabled c)
    (mkVTransport (flag_bool v "ue" false) (flag_bool v "uc" false)) (flag_string v "sk" "")
    (flag_string v "server-user" "") (flag_string v "server_name" "") (flag_string v "bind_addr" "")
    (flag_int v "bind_port" 0) (v_Plugin c).

Definition RegisterVisitorFlags (v : flag_values) (c : VisitorConfigurer) : VisitorConfigurer :=
  v_set_base (registerVisitorBaseConfigFlags v (v_GetBaseConfig c)) c.

(** ** The client *)

Definition RegisterClientCommonConfigFlags (sshMode : bool) (v : flag_values) (c : ClientCommonConfig) : ClientCommonConfig :=
  let a := cc_Auth c in let l := cc_Log c in let t := cc_Transport c in let tc := tls_Config (ct_TLS t) in
  let pick {A} (old new : A) : A := if sshMode then old else new in
  mkClientCommon (mkAuth (a_Method a) (a_AdditionalScopes a) (flag_string v "token" "") (a_TokenSource a) (a_OIDC a))
    (flag_string v "user" "") (flag_string v "client-id" "")
    (pick (cc_ServerAddr c) (flag_string v "server_addr" "127.0.0.1"))
    (pick (cc_ServerPort c) (flag_int v "server_port" 7000)) (cc_NatHoleSTUNServer c)
    (pick (cc_DNSServer c) (flag_string v "dns_server" "")) (cc_LoginFailExit c) (cc_Start c)
    (pick l (mkLog (flag_string v "log_file" "console") (flag_string v "log_level" "info") (flag_int v "log_max_days" 3)
               (flag_bool v "disable_log_color" false)))
    (cc_WebServer c)
    (pick t (mkClientTransport (flag_string v "protocol" "tcp") (DialServerTimeout t) (DialServerKeepAlive t)
               (ConnectServerLocalIP t) (ct_ProxyURL t) (ct_PoolCount t) (ct_TCPMux t) (ct_TCPMuxKeepaliveInterval t)
               (ct_QUIC t) (ct_HeartbeatInterval t) (ct_HeartbeatTimeout t)
               (mkTLSClient (Some (flag_bool v "tls_enable" true)) (DisableCustomTLSFirstByte (ct_TLS t))
                  (mkTLS (tls_CertFile tc) (tls_KeyFile tc) (tls_TrustedCaFile tc) (flag_string v "tls_server_name" "")))))
    (cc_VirtualNet c) (cc_FeatureGates c) (cc_UDPPacketSize c) (cc_Metadatas c) (cc_IncludeConfigFiles c) (cc_Store c).

(** ** The server *)

Definition PortsRangeSliceFlag_String (v : option (list PortsRange)) : string :=
  match v with None => "" | Some l => PortsRangeSlice_String l end.

Definition PortsRangeSliceFlag_Set (s : string) : result range_error (list PortsRange) := NewPortsRangeSliceFromString s.

(** [BoolFuncFlag.Set]: the new value, and which of the two functions is called. *)
Inductive called := CalledTrue | CalledFalse.
Definition FormatBool (b : bool) : string := if b then "true" else "false".
Definition BoolFuncFlag_String (v : bool) : string := FormatBool v.
Definition BoolFuncFlag_Set (v : bool) (s : string) : bool * called :=
  let v := FormatBool v =s? "true" in (v, if negb v then CalledFalse else CalledTrue).

(** [dashboard_tls_mode] given some times on the command line: whether TLS is configured. *)
Fixpoint dashboard_tls (v on : bool) (args : list string) : bool :=
  match args with
  | [] => on
  | s :: args => let '(v, k) := BoolFuncFlag_Set v s in
                 dashboard_tls v (match k with CalledTrue => true | CalledFalse => on end) args
  end.

Definition RegisterServerConfigFlags (v : flag_values) (tls_mode : list string) (c : ServerConfig) : result range_error ServerConfig :=
  let a := sc_Auth c in let w := sc_WebServer c in let t := sc_Transport c in
  try ports := (match v !! WordSepNormalizeFunc "allow_ports" with
                | Some (VString s) => try l := PortsRangeSliceFlag_Set s in Ok ((λ r, (Start r, End_ r, Single r)) <$> l)
                | _ => Ok (sc_AllowPorts c)
                end) in
  Ok (mkServer
    (mkAuthServer (as_Method a) (as_AdditionalScopes a) (flag_string v "token" "") (as_TokenSource a) (as_OIDC a))
    (flag_string v "bind_addr" "0.0.0.0") (flag_int v "bind_port" 7000) (flag_int v "kcp_bind_port" 0)
    (flag_int v "quic_bind_port" 0) (flag_string v "proxy_bind_addr" "0.0.0.0") (flag_int v "vhost_http_port" 0)
    (flag_int v "vhost_http_timeout" 60) (flag_int v "vhost_https_port" 0) (sc_TCPMuxHTTPConnectPort c)
    (sc_TCPMuxPassthrough c) (flag_string v "subdomain_host" "") (sc_Custom404Page c) (sc_SSHTunnelGateway c)
    (mkWeb (flag_string v "dashboard_addr" "0.0.0.0") (flag_int v "dashboard_port" 0)
       (flag_string v "dashboard_user" "admin") (flag_string v "dashboard_pwd" "admin") (web_AssetsDir w)
       (web_PprofEnable w)
       (if dashboard_tls false false tls_mode then
          Some (mkTLS (flag_string v "dashboard_tls_cert_file" "") (flag_string v "dashboard_tls_key_file" "") "" "")
        else web_TLS w))
    (flag_bool v "enable_prometheus" false)
    (mkLog (flag_string v "log_file" "console") (flag_string v "log_level" "info") (flag_int v "log_max_days" 3)
       (flag_bool v "disable_log_color" false))
    (mkServerTransport (st_TCPMux t) (st_TCPMuxKeepaliveInterval t) (TCPKeepAlive t) (st_MaxPoolCount t)
       (st_HeartbeatTimeout t) (st_QUIC t) (flag_bool v "tls_only" false) (st_TLS t))
    (sc_DetailedErrorsToClient c) (flag_int v "max_ports_per_client" 0) (sc_UserConnTimeout c) (sc_UDPPacketSize c)
    (sc_NatHoleAnalysisDataReserveHours c) ports (sc_HTTPPlugins c)).

(** ** Properties *)

(** [--dashboard_tls_mode] has no effect, whatever its argument and however often it is given:
    [Set] looks at the old value instead of its argument. *)
Lemma dashboard_tls_flag_dead args : dashboard_tls false false args = false.
Proof. induction args as [|s args IH]; [done|]. exact IH. Qed.

(** Through the flags of the SSH mode a user sets the name, the metadata and what the type of
    proxy is about, and nothing of where and how the client connects: no address, no
    plugin, no transport, health check or load balancing. *)
Lemma ssh_flags_confined parse v c c' :
  RegisterProxyFlags parse true v c = Ok c' →
  type_name c' = type_name c ∧ Type_ (GetBaseConfig c') = Type_ (GetBaseConfig c) ∧
  Backend (GetBaseConfig c') = Backend (GetBaseConfig c) ∧ Transport (GetBaseConfig c') = Transport (GetBaseConfig c) ∧
  HealthCheck (GetBaseConfig c') = HealthCheck (GetBaseConfig c) ∧ LoadBalancer (GetBaseConfig c') = LoadBalancer (GetBaseConfig c).
Proof. unfold RegisterProxyFlags. simpl. intros [= <-]. by destruct c. Qed.

Lemma ssh_client_confined v c :
  let c' := RegisterClientCommonConfigFlags true v c in
  cc_ServerAddr c' = cc_ServerAddr c ∧ cc_ServerPort c' = cc_ServerPort c ∧ cc_Transport c' = cc_Transport c ∧
  a_TokenSource (cc_Auth c') = a_TokenSource (cc_Auth c) ∧ a_Method (cc_Auth c') = a_Method (cc_Auth c).
Proof. done. Qed.

(** A list of allowed ports that does not read stops the server; the flag takes what the flag
    prints. *)
Lemma allow_ports_flag v mode c s :
  v !! "allow-ports" = Some (VString s) → NewPortsRangeSliceFromString s = Err RangeInvalid →
  RegisterServerConfigFlags v mode c = Err RangeInvalid.
Proof. intros Hv Hs. unfold RegisterServerConfigFlags, PortsRangeSliceFlag_Set.
  change (WordSepNormalizeFunc "allow_ports") with "allow-ports". by rewrite Hv, Hs. Qed.
