(* ===== verification/SshGateway.v ===== *)
(** The SSH tunnel gateway: the gateway with its keys, [src/pkg/ssh/gateway.go], a tunnel from
    the SSH connection to the proxy, [src/pkg/ssh/server.go] and [terminal.go], and the
    virtual client whose connections are pipes into the server, [src/pkg/virtual/client.go].

    The SSH library is a parameter: who passes its handshake, what it makes of a file of
    keys. Requests of the client are byte strings of the client's choice. *)
From Stdlib Require Import ZArith Lia Ascii String.
From stdpp Require Import base gmap strings list.
From S2P Require Import Prelude GoStrings ProxyConf Auth ServerPlugins Service ServerProxy Handlers PluginConf CommonConf Decode NetListener Visitors ClientProxy ClientService ClientLoad Transport Flags.
Import ServerConf.
Local Open Scope string_scope.
Local Open Scope list_scope.
Local Open Scope Z_scope.

(** ** Keys *)

Inductive gw_error := KeyFileError | GenerateKeyError | WriteKeyError | ParseKeyError | ListenError | AuthKeysError.

Section authorized.
(** [ssh.ParseAuthorizedKey]: the next key, its comment and what follows its line. *)
Variable ParseAuthorizedKey : string → option (string * string * string).

(** [None] is running out of fuel. *)
Fixpoint parse_keys (fuel : nat) (b : string) (m : gmap string string) : option (result gw_error (gmap string string)) :=
  if b =s? "" then Some (Ok m)
  else match fuel with
       | O => None
       | S fuel => match ParseAuthorizedKey b with
                   | None => Some (Err AuthKeysError)
                   | Some (key, comment, rest) => parse_keys fuel rest (<[key := TrimSpace comment]> m)
                   end
       end.

Definition loadAuthorizedKeysFromFile (ReadFile : string → option string) (path : string)
    : option (result gw_error (gmap string string)) :=
  match ReadFile path with
  | None => Some (Err AuthKeysError)
  | Some b => parse_keys (String.length b) b ∅
  end.

(** What follows a key is shorter than the text it was found in. *)
Definition parse_shrinks : Prop := ∀ b k c rest, ParseAuthorizedKey b = Some (k, c, rest) → (String.length rest < String.length b)%nat.

(** The loop ends. *)
Lemma load_keys_total ReadFile path : parse_shrinks → is_Some (loadAuthorizedKeysFromFile ReadFile path).
Proof.
  intros Hs. unfold loadAuthorizedKeysFromFile. destruct (ReadFile path) as [b|]; [|by eexists].
  assert (∀ fuel b m, (String.length b <= fuel)%nat → is_Some (parse_keys fuel b m)) as H; [|by apply H].
  clear -Hs. induction fuel as [|fuel IH]; intros b m Hb; simpl.
  - destruct b; [by eexists|simpl in Hb; lia].
  - case_match; [by eexists|]. destruct (ParseAuthorizedKey b) as [[[k c] rest]|] eqn:E; [|by eexists].
    apply IH. specialize (Hs _ _ _ _ E). lia.
Qed.

(** Text after the last key that is no key, a comment line say, makes the whole file fail: no
    key is authorized. *)
Lemma trailing_text_locks_out fuel b k c rest m :
  b ≠ "" → ParseAuthorizedKey b = Some (k, c, rest) → rest ≠ "" → ParseAuthorizedKey rest = None → (2 <= fuel)%nat →
  parse_keys fuel b m = Some (Err AuthKeysError).
Proof.
  intros Hb Hp Hr Hn Hf. destruct fuel as [|[|fuel]]; [lia|lia|].
  simpl. by rewrite (proj2 (seqb_false _ _) Hb), Hp, (proj2 (seqb_false _ _) Hr), Hn.
Qed.
End authorized.

(** *** The host key *)

(** The key of the gateway and the files afterwards; [fresh] is a new key, [write_ok] whether
    it can be saved. *)
Definition host_key (cfg : SSHTunnelGateway) (fresh : option string) (write_ok : bool) (fs : gmap string string)
    : result gw_error string * gmap string string :=
  if negb (PrivateKeyFile cfg =s? "") then
    (match fs !! PrivateKeyFile cfg with Some k => Ok k | None => Err KeyFileError end, fs)
  else
    let saved := if negb (AutoGenPrivateKeyPath cfg =s? "") then default "" (fs !! AutoGenPrivateKeyPath cfg) else "" in
    if negb (saved =s? "") then (Ok saved, fs)
    else match fresh with
         | None => (Err GenerateKeyError, fs)
         | Some k => if AutoGenPrivateKeyPath cfg =s? "" then (Ok k, fs)
                     else if write_ok then (Ok k, <[AutoGenPrivateKeyPath cfg := k]> fs) else (Err WriteKeyError, fs)
         end.

(** A key that was generated is saved: every later start uses it and changes nothing. *)
Lemma host_key_stable cfg fresh ok fs k fs' fresh' ok' :
  AutoGenPrivateKeyPath cfg ≠ "" ∨ PrivateKeyFile cfg ≠ "" → host_key cfg fresh ok fs = (Ok k, fs') → k ≠ "" →
  host_key cfg fresh' ok' fs' = (Ok k, fs').
Proof.
  intros Hp Hk Hne. unfold host_key in *. destruct (seqb_spec (PrivateKeyFile cfg) "") as [E|E]; simpl in *.
  2: { destruct (fs !! PrivateKeyFile cfg) eqn:Ef; simplify_eq. by rewrite Ef. }
  destruct Hp as [Hp|Hp]; [|done]. rewrite (proj2 (seqb_false _ _) Hp) in *. simpl in *.
  destruct (default "" (fs !! AutoGenPrivateKeyPath cfg) =s? "") eqn:Es; simpl in *.
  - destruct fresh as [kf|]; [|done]. destruct ok; [|done]. injection Hk as -> <-.
    rewrite lookup_insert_eq. simpl. by rewrite (proj2 (seqb_false _ _) Hne).
  - injection Hk as <- <-. by rewrite Es.
Qed.

(** *** [NewGateway] *)

Record Gateway := mkGateway { gw_NoClientAuth : bool; gw_AuthorizedKeysFile : string; gw_hostKey : string }.

Definition NewGateway (cfg : SSHTunnelGateway) (fresh : option string) (write_ok parse_ok listen_ok : bool)
    (fs : gmap string string) : result gw_error Gateway * gmap string string :=
  match host_key cfg fresh write_ok fs with
  | (Err e, fs) => (Err e, fs)
  | (Ok k, fs) => (if negb parse_ok then Err ParseKeyError
                   else if negb listen_ok then Err ListenError
                   else Ok (mkGateway (AuthorizedKeysFile cfg =s? "") (AuthorizedKeysFile cfg) k), fs)
  end.

(** [PublicKeyCallback]: the user a key stands for. *)
Definition PublicKeyCallback (keys : option (result gw_error (gmap string string))) (key : string) : option string :=
  match keys with Some (Ok m) => m !! key | _ => None end.

(** ** Requests of the client *)

Definition be32 (l : bytes) : Z :=
  match l with [a; b; c; d] => a * 2 ^ 24 + b * 2 ^ 16 + c * 2 ^ 8 + d | _ => 0 end.

(** [handleNewChannel] on the payload of an exec request. *)
Inductive exec_result := Skipped | Command (b : bytes) | SlicePanics.

Definition exec_payload (payload : bytes) : exec_result :=
  if (length payload <=? 4)%nat then Skipped
  else let end_ := (4 + be32 (take 4 payload)) mod 2 ^ 32 in           (* a uint32 *)
       if Z.of_nat (length payload) <? end_ then Skipped
       else if end_ <? 4 then SlicePanics                              (* payload[4:end] *)
       else Command (drop 4 (take (Z.to_nat end_) payload)).

Definition byte_list (l : bytes) : Prop := Forall (λ b, 0 <= b < 256) l.

Lemma be32_range l : byte_list l → 0 <= be32 l < 2 ^ 32.
Proof.
  unfold byte_list, be32. intros Hl. repeat (case_match; try lia). subst. repeat (apply Forall_cons in Hl as [? Hl]). lia.
Qed.

(** What an exec request of an SSH client does to the gateway. A length that fits in the
    payload gives the command; one that does not is skipped; but a length within four of
    [2 ^ 32] overflows the end of the slice, and the slice panics, which ends the whole
    server. *)
Theorem exec_payload_exact payload :
  byte_list payload → (4 < length payload)%nat →
  let n := be32 (take 4 payload) in
  exec_payload payload =
    if 2 ^ 32 - 4 <=? n then SlicePanics
    else if n + 4 <=? Z.of_nat (length payload) then Command (take (Z.to_nat n) (drop 4 payload)) else Skipped.
Proof.
  intros Hb Hlen n. unfold exec_payload. rewrite (proj2 (Nat.leb_gt _ _) Hlen). fold n.
  assert (0 <= n < 2 ^ 32) as Hn by (apply be32_range; by apply Forall_take). clearbody n.
  destruct (Z.leb_spec (2 ^ 32 - 4) n).
  - assert ((4 + n) mod 2 ^ 32 = n + 4 - 2 ^ 32) as -> by (rewrite <-(Z.mod_unique (4 + n) (2 ^ 32) 1 (n + 4 - 2 ^ 32)); lia).
    rewrite (proj2 (Z.ltb_ge _ _)), (proj2 (Z.ltb_lt _ _)) by lia. done.
  - rewrite Z.mod_small by lia. destruct (Z.leb_spec (n + 4) (Z.of_nat (length payload))).
    + rewrite (proj2 (Z.ltb_ge _ _)), (proj2 (Z.ltb_ge (4 + n) 4)) by lia. f_equal.
      rewrite take_drop_commute. f_equal. f_equal. lia.
    + by rewrite (proj2 (Z.ltb_lt _ _)) by lia.
Qed.

(** [waitForwardAddrAndExtraPayload]: the requests in the order they arrive. *)
Inductive wait_event := GotAddr (host : string) (port : Z) | GotExtra (s : string) | TimesOut.

Fixpoint waitForwardAddrAndExtraPayload (addr : option (string * Z)) (extra : string) (evs : list wait_event)
    : option (option (string * Z * string)) :=
  match evs with
  | [] => None                                                          (* still waiting *)
  | ev :: evs =>
      match ev with
      | TimesOut => Some None
      | GotAddr h p => if negb (extra =s? "") then Some (Some (h, p, extra))
                       else waitForwardAddrAndExtraPayload (Some (h, p)) extra evs
      | GotExtra s => match addr with
                      | Some a => if negb (s =s? "") then Some (Some (a, s))
                                  else waitForwardAddrAndExtraPayload addr s evs
                      | None => waitForwardAddrAndExtraPayload addr s evs
                      end
      end
  end.

(** ** The proxy a command asks for *)

Inductive parse_error := InvalidProxyType (ty : string) | FlagError | HelpAsked | RandomError.

Definition ssh_supportTypes : list string := ["tcp"; "http"; "https"; "tcpmux"; "stcp"].

Section tunnel.
Variable parse_scaled : string → Z → option Z.
(** [cmd.ParseFlags] with the flags of a type: the values, or an error. *)
Variable ParseFlags : string → list string → result parse_error flag_values.
Variable rand_id : option string.

Definition set_name (n : string) (c : proxy_conf) : proxy_conf :=
  let b := GetBaseConfig c in
  set_base (mkBase n (Type_ b) (Enabled b) (Annotations b) (Transport b) (Metadatas b) (LoadBalancer b) (HealthCheck b) (Backend b)) c.

Definition parseClientAndProxyConfigurer (extraPayload : string) : result parse_error (ClientCommonConfig * proxy_conf) :=
  let args := Split " "%char extraPayload in
  let proxyType := TrimSpace (default "" (head args)) in
  if negb (contains ssh_supportTypes proxyType) then Err (InvalidProxyType proxyType) else
  match NewProxyConfigurerByType TypedClientPluginOptions proxyType with
  | None => Err (InvalidProxyType proxyType)
  | Some pc =>
      match ParseFlags proxyType args with
      | Err e => Err e
      | Ok v =>
          match RegisterProxyFlags parse_scaled true v pc with
          | Err _ => Err FlagError
          | Ok pc =>
              let clientCfg := RegisterClientCommonConfigFlags true v zero_client in
              if Name (GetBaseConfig pc) =s? "" then
                match rand_id with
                | None => Err RandomError
                | Some id => Ok (clientCfg, set_name ("sshtunnel-" +:+ proxyType +:+ "-" +:+ id) pc)
                end
              else Ok (clientCfg, pc)
          end
      end
  end.

Definition set_user (u : string) (c : ClientCommonConfig) : ClientCommonConfig :=
  mkClientCommon (cc_Auth c) u (cc_ClientID c) (cc_ServerAddr c) (cc_ServerPort c) (cc_NatHoleSTUNServer c)
    (cc_DNSServer c) (cc_LoginFailExit c) (cc_Start c) (cc_Log c) (cc_WebServer c) (cc_Transport c) (cc_VirtualNet c)
    (cc_FeatureGates c) (cc_UDPPacketSize c) (cc_Metadatas c) (cc_IncludeConfigFiles c) (cc_Store c).

(** [Run] up to the virtual client: its configuration, its proxy and what its login says of
    it; [perm] is the user of the key the connection was made with. *)
Definition tunnel_client (env : string) (gw : Gateway) (perm : option string) (extraPayload : string)
    : result parse_error (ClientCommonConfig * proxy_conf * ClientSpec) :=
  match parseClientAndProxyConfigurer extraPayload with
  | Err e => Err e
  | Ok (clientCfg, pc) =>
      let clientCfg := client_Complete env clientCfg in
      let clientCfg := match perm with
                       | Some u => set_user (EmptyOr u (cc_User clientCfg)) clientCfg
                       | None => clientCfg
                       end in
      Ok (clientCfg, Complete _ plugin_Complete pc, mkClientSpec "ssh-tunnel" (negb (gw_NoClientAuth gw)))
  end.

(** [waitProxyStatusReady]: the status at each tick, the timer, or the end of the tunnel. *)
Inductive status_event := StatusTick (st : option (ProxyPhase * string)) | StatusTimeout | TunnelDone.

Fixpoint waitProxyStatusReady (evs : list status_event) : option (result string unit) :=
  match evs with
  | [] => None
  | StatusTimeout :: _ => Some (Err "wait proxy status ready timeout")
  | TunnelDone :: _ => Some (Err "ssh tunnel server closed")
  | StatusTick None :: evs => waitProxyStatusReady evs
  | StatusTick (Some (ph, e)) :: evs =>
      if decide (ph = PhaseRunning) then Some (Ok tt)
      else if decide (ph = PhaseStartErr ∨ ph = PhaseClosed) then Some (Err e)
      else waitProxyStatusReady evs
  end.

(** [createSuccessInfo]. *)
Definition nl : string := String newline "".
Definition createSuccessInfo (user : string) (pc : proxy_conf) (remoteAddr : string) : string :=
  nl +:+ "frp (via SSH) (Ctrl+C to quit)" +:+ nl +:+ nl +:+ "User: " +:+ user +:+ nl +:+
  "ProxyName: " +:+ Name (GetBaseConfig pc) +:+ nl +:+ "Type: " +:+ Type_ (GetBaseConfig pc) +:+ nl +:+
  "RemoteAddress: " +:+ remoteAddr +:+ nl.

(** [Gateway.handleConn] and [TunnelServer.Run]: what is done to the connection, in order.
    [client_ok] is whether [virtual.NewClient] succeeds; [status] is what
    [waitProxyStatusReady] came to, and [shown] the address it found. *)
Inductive tunnel_event :=
| WriteToClient (s : string)            (* to the first channel *)
| StartClient (cfg : ClientCommonConfig) (spec : ClientSpec)
| UpdateProxies (pcs : list proxy_conf)
| WaitConn | CloseClient | CloseSsh | CloseUnderlying.

(** The text of an error of the flags, or the usage where help was asked for. *)
Variable error_text : parse_error → string.

Definition tunnel_Run (env : string) (gw : Gateway) (handshake : option (option string))
    (waited : option (string * Z * string)) (client_ok : bool) (status : result string unit) (shown : string)
    : list tunnel_event :=
  match handshake, waited with
  | Some perm, Some (_, extraPayload) =>
      match tunnel_client env gw perm extraPayload with
      | Err e => [WriteToClient (error_text e)]
      | Ok (cfg, pc, spec) =>
          if negb client_ok then []
          else [StartClient cfg spec; UpdateProxies [pc]] ++
               match status with
               | Err e => [WriteToClient e]
               | Ok _ => [WriteToClient (createSuccessInfo (cc_User cfg) pc shown); WaitConn]
               end ++ [CloseClient; CloseSsh]
      end
  | _, _ => []
  end.

Definition handleConn env gw handshake waited client_ok status shown : list tunnel_event :=
  tunnel_Run env gw handshake waited client_ok status shown ++ [CloseUnderlying].

(** ** Properties *)

Lemma by_type_zero ty (c : proxy_conf) :
  NewProxyConfigurerByType TypedClientPluginOptions ty = Some c → contains ssh_supportTypes ty = true →
  type_name c = ty ∧ Type_ (GetBaseConfig c) = ty ∧ ProxyConf.Plugin (Backend (GetBaseConfig c)) = None ∧ LocalPort (Backend (GetBaseConfig c)) = 0.
Proof.
  unfold NewProxyConfigurerByType, contains, ssh_supportTypes. rewrite bool_decide_eq_true, !elem_of_cons, elem_of_nil.
  intros Hc Hty. destruct_or!; subst; by inversion Hc.
Qed.

(** The proxy of a tunnel: of a supported type, labelled with it, with a name, and without an
    address or a plugin of the client's choosing. *)
Lemma tunnel_proxy_confined env gw perm extra cfg pc spec :
  (∀ id, rand_id = Some id → id ≠ "") →
  tunnel_client env gw perm extra = Ok (cfg, pc, spec) →
  type_name pc ∈ ssh_supportTypes ∧ Type_ (GetBaseConfig pc) = type_name pc ∧ Name (GetBaseConfig pc) ≠ "" ∧
  ProxyConf.Plugin (Backend (GetBaseConfig pc)) = None ∧ LocalPort (Backend (GetBaseConfig pc)) = 0 ∧
  a_TokenSource (cc_Auth cfg) = None.
Proof.
  intros Hrand. unfold tunnel_client, parseClientAndProxyConfigurer.
  set (ty := TrimSpace _). destruct (contains ssh_supportTypes ty) eqn:Hty; cbn [negb]; [|done].
  destruct (NewProxyConfigurerByType _ ty) as [c|] eqn:Hc; [|done]. destruct (by_type_zero ty c Hc Hty) as (H1 & H2 & H3 & H4).
  destruct (ParseFlags ty _) as [v|]; [|done].
  destruct (RegisterProxyFlags parse_scaled true v c) as [c'|] eqn:Hf; [|done].
  apply ssh_flags_confined in Hf as (F1 & F2 & F3 & _). rewrite H1 in F1. rewrite H2 in F2.
  assert (∀ x : proxy_conf, type_name x = ty → Type_ (GetBaseConfig x) = ty → Backend (GetBaseConfig x) = Backend (GetBaseConfig c) →
    Name (GetBaseConfig x) ≠ "" →
    let y := Complete _ plugin_Complete x in
    type_name y ∈ ssh_supportTypes ∧ Type_ (GetBaseConfig y) = type_name y ∧ Name (GetBaseConfig y) ≠ "" ∧
    ProxyConf.Plugin (Backend (GetBaseConfig y)) = None ∧ LocalPort (Backend (GetBaseConfig y)) = 0) as Hx.
  { intros x X1 X2 X3 X4. apply bool_decide_eq_true in Hty.
    destruct x; simpl in *; rewrite X3, H3, H4, <-X1 in *; done. }
  destruct (Name (GetBaseConfig c') =s? "") eqn:Hn.
  - destruct rand_id as [id|]; [|done]. intros E. injection E as <- <- <-.
    destruct (Hx (set_name ("sshtunnel-" +:+ ty +:+ "-" +:+ id) c')) as (? & ? & ? & ? & ?);
      [by destruct c'; simpl in *..|destruct c'; simpl; done|].
    split_and!; [done..|]. by destruct perm.
  - apply seqb_false in Hn. intros E. injection E as <- <- <-. destruct (Hx c') as (? & ? & ? & ? & ?); [done..|].
    split_and!; [done..|]. by destruct perm.
Qed.

(** A tunnel holds nothing when it is over: its virtual client, if one was started, is closed,
    and the connection is closed on every path; a client is started only after the handshake,
    and it runs the one proxy that was asked for. *)
Lemma tunnel_leaves_nothing env gw hs w ok st shown :
  let evs := handleConn env gw hs w ok st shown in
  last evs = Some CloseUnderlying ∧
  (∀ cfg spec, StartClient cfg spec ∈ evs → is_Some hs ∧ CloseClient ∈ evs ∧ CloseSsh ∈ evs ∧
     AlwaysAuthPass spec = negb (gw_NoClientAuth gw) ∧ ∃ pc, UpdateProxies [pc] ∈ evs).
Proof.
  simpl. split; [apply last_snoc|]. intros cfg spec. unfold handleConn, tunnel_Run.
  destruct hs as [perm|]; [|simpl; rewrite list_elem_of_singleton; done].
  destruct w as [[a extra]|]; [|simpl; rewrite list_elem_of_singleton; done].
  destruct (tunnel_client env gw perm extra) as [[[cfg' pc] spec']|e] eqn:Ht.
  2: { rewrite elem_of_app, !list_elem_of_singleton. naive_solver. }
  assert (AlwaysAuthPass spec' = negb (gw_NoClientAuth gw)).
  { unfold tunnel_client in Ht. destruct (parseClientAndProxyConfigurer _) as [[? ?]|]; by simplify_eq. }
  destruct ok; simpl; [|simpl; rewrite list_elem_of_singleton; done].
  rewrite !elem_of_cons. intros [E|[E|Hin]]; [|done|].
  - injection E as <- <-. split_and!; [done|rewrite elem_of_app; set_solver..|done|]. exists pc. set_solver.
  - exfalso. destruct st; simpl in Hin; set_solver.
Qed.
End tunnel.

(** ** The virtual client *)

Module Virtual.
Import InternalListener.

(** The pipes of a virtual client: the listener its connectors put them in, the internal
    listener of the server they are moved to, the pipes made so far and those an end of which
    was closed. *)
Record t := mk { peer : @InternalListener.t nat; server : @InternalListener.t nat; made : nat; dead : gset nat }.

Definition NewClient (srv : @InternalListener.t nat) : t := mk New srv 0 ∅.

(** [pipeConnector.Connect]: the client's end of a new pipe, or an error. *)
Definition pipe_Connect (s : t) : option nat * t :=
  let p := made s in
  match PutConn p (peer s) with
  | (Queued, l) => (Some p, mk l (server s) (S p) (dead s))
  | (ClosedFull, l) => (Some p, mk l (server s) (S p) ({[p]} ∪ dead s))
  | (InternalListener.Refused, l) => (None, mk l (server s) (S p) ({[p]} ∪ dead s))
  end.

(** [pipeConnector.Close]; [Client.Close] does the same after it has closed its service. *)
Definition pipe_Close (s : t) : t := mk (Close (peer s)) (server s) (made s) (dead s).

(** A turn of the goroutine of [TunnelServer.Run]; [None] is its end, or that it waits. *)
Definition relay (s : t) : option t :=
  match Accept (peer s) with
  | (Got p, l) =>
      match PutConn p (server s) with
      | (ClosedFull, srv) => Some (mk l srv (made s) ({[p]} ∪ dead s))
      | (_, srv) => Some (mk l srv (made s) (dead s))                   (* an error is ignored *)
      end
  | _ => None
  end.

(** The server takes a connection. *)
Definition server_Accept (s : t) : option (nat * t) :=
  match Accept (server s) with
  | (Got p, srv) => Some (p, mk (peer s) srv (made s) (dead s))
  | _ => None
  end.

Inductive vstep : t → t → Prop :=
| v_connect s : vstep s (snd (pipe_Connect s))
| v_close s : vstep s (pipe_Close s)
| v_relay s s' : relay s = Some s' → vstep s s'
| v_accept s p s' : server_Accept s = Some (p, s') → vstep s s'.

(** Once a connector has closed, no connection of the client succeeds, and both ends of the
    pipe it made are closed. *)
Lemma close_is_final s s' :
  rtc vstep (pipe_Close s) s' → fst (pipe_Connect s') = None ∧ made s' ∈ dead (snd (pipe_Connect s')).
Proof.
  intros Hs. assert (closed (peer s') = true) as Hc.
  { remember (pipe_Close s) as s0. assert (closed (peer s0) = true) as H0 by by subst.
    clear Heqs0. induction Hs as [|x y z Hxy _ IH]; [done|]. apply IH.
    destruct Hxy as [x|x|x x' Hr|x p x' Hr]; simpl.
    - unfold pipe_Connect, PutConn. by rewrite H0.
    - done.
    - unfold relay, Accept in Hr. destruct (acceptCh (peer x)); [by rewrite H0 in Hr|].
      destruct (PutConn _ _) as [[] srv]; by simplify_eq.
    - unfold server_Accept, Accept in Hr. destruct (acceptCh (server x)); [by destruct (closed _)|by simplify_eq]. }
  unfold pipe_Connect, PutConn. rewrite Hc. simpl. set_solver.
Qed.
End Virtual.

(** ** Who gets a session through the gateway *)

(** The SSH library's server: who passes the handshake of a connection, with the permissions
    the callback gave; [noAuth] lets everybody pass. *)
Class SshServer (C : Type) := NewServerConn : bool → (string → option string) → C → option (option string).

(** What the library documents of it: without [NoClientAuth] a connection passes only with a
    key the callback accepts, and its permissions are those the callback returned. *)
Class SshLaws (C : Type) `{SshServer C} := {
  conn_authenticated noAuth cb c p :
    NewServerConn noAuth cb c = Some p → match p with None => noAuth = true | Some u => ∃ key, cb key = Some u end }.

Section login.
Context {C : Type} `{SshLaws C} {V : Type} `{Verifier V} {Conn : Type}.
Variables (ParseAuthorizedKey : string → option (string * string * string)) (ReadFile : string → option string).
Variables (parse_scaled : string → Z → option Z) (ParseFlags : string → list string → result parse_error flag_values)
  (rand_id : option string).
Variables (md5_hex : string → string) (os arch host version env : string).

(** A connection to the gateway up to the login of its virtual client. *)
Definition tunnel_login (gw : Gateway) (c : C) (extraPayload : string) (now : Z) : option Login :=
  let cb := PublicKeyCallback (loadAuthorizedKeysFromFile ParseAuthorizedKey ReadFile (gw_AuthorizedKeysFile gw)) in
  match NewServerConn (gw_NoClientAuth gw) cb c with
  | None => None
  | Some perm =>
      match tunnel_client parse_scaled ParseFlags rand_id env gw perm extraPayload with
      | Err _ => None
      | Ok (cfg, _, spec) =>
          Some (SetLogin md5_hex (NewTokenAuth (a_AdditionalScopes (cc_Auth cfg)) (a_Token (cc_Auth cfg)))
            (loginMsg os arch host version (cc_User cfg) (cc_ClientID cfg) "" (ct_PoolCount (cc_Transport cfg)) now
               (cc_Metadatas cfg) (Some spec)))
      end
  end.

End login.

(** *** Witnesses *)

(** A library that lets everybody pass where no authentication is asked for, and otherwise
    those whose connection carries a key the callback knows. *)
#[local] Instance key_conn : SshServer string := λ noAuth cb key, if noAuth then Some None else Some <$> cb key.
#[local] Instance key_conn_laws : SshLaws string.
Proof.
  constructor. intros noAuth cb c p. unfold NewServerConn, key_conn. destruct noAuth; [by intros [= <-]|].
  destruct (cb c) as [u|] eqn:E; simpl; [|done]. intros [= <-]. by exists c.
Qed.

Definition one_key (b : string) : option (string * string * string) :=
  if b =s? "KEY bob" then Some ("KEY", "bob", "") else None.


Lemma exec_payload_exact_witness : exec_payload [255; 255; 255; 255; 97] = SlicePanics.
Proof.
  rewrite (exec_payload_exact [255; 255; 255; 255; 97]).
  - reflexivity.
  - repeat constructor; lia.
  - simpl. lia.
Defined.
