(* ===== verification/Commands.v ===== *)
(** The programs: [frpc] from its configuration file or its flags to a running service
    ([src/cmd/frpc/sub/root.go], [proxy.go], [verify.go], [NewService] and [Run] of
    [src/client/service.go]), and [frps] ([src/cmd/frps/root.go], [verify.go]).

    Here the parts meet: the loaded file goes into the sources, the sources are checked and
    handed to the service, and what the service runs is what was checked. *)
From Stdlib Require Import ZArith Lia Ascii String.
From stdpp Require Import base gmap strings list.
From S2P Require Import Prelude GoStrings Auth ProxyConf Validation VisitorConf PluginConf CommonConf AuthBuild Decode ConfigSource ClientLoad ConfigManager Transport ServerRun.
Local Open Scope string_scope.
Local Open Scope list_scope.

Inductive cmd_error :=
| CmdLoad (e : load_error) | CmdGate (e : FeatureGate.gate_error) | CmdSource (e : source_error) | CmdStore (e : source_error)
| CmdInvalid | CmdAuth (e : build_error) | CmdWeb (e : svc_error) | CmdVnet | CmdLogin.

Section frpc.
Abbreviation source := (baseSource (P := proxy_conf) (V := VisitorConfigurer)).
Variable IsQualifiedName : string → list string.
Context {bytes : Type}.
Variable decode : bytes → option (list proxy_conf * list VisitorConfigurer).
(** The files of a store, by the path of the store. *)
Variable disk_at : string → fs (bytes := bytes).
(** [LoadClientConfigResult] of ClientLoad at its parameters. *)
Variable load : string → bool → result load_error ClientConfigLoadResult.
Variable url_Parse : string → option (string * string).
Variable dir_of : string → dir_state.
Variable http_proxy : string.                         (* the environment's proxy *)
Variables (read_file : string → option string) (run_command : string → list string → option (list string) → option string)
  (Environ : list string) (is_pem : string → bool).
(** [filepath.Join] of the directory of a file and a path. *)
Variable join_dir : string → string → string.
Variable e : env.

(** ** The service of the client *)

(** What [NewService] made: the configuration, the setter and the encryption key, the sources
    with what is to run, and whether there are a web server and a virtual network. *)
Record running := mkRunning {
  r_common : ClientCommonConfig; r_setter : Setter; r_key : string; r_mgr : mgr (bytes := bytes);
  r_web : bool; r_vnet : bool }.

Definition setServiceOptionsDefault (common : ClientCommonConfig) : ClientCommonConfig := client_Complete http_proxy common.

(** The web server comes after every other step that can fail. *)
Definition client_NewService (common : ClientCommonConfig) (config : source) (store : option (source * fs (bytes := bytes)))
    (path : string) : result cmd_error running * list effect * list opened :=
  let common := setServiceOptionsDefault common in
  match BuildClientAuth url_Parse read_file run_command Environ is_pem (cc_Auth common) with
  | (Err er, eff) => (Err (CmdAuth er), eff, [])
  | (Ok (setter, key), eff) =>
      let s web := mkRunning common setter key (NewMgr config store (cc_Start common) path) web (negb (cc_VirtualNet common =s? "")) in
      if (0 <? web_Port (cc_WebServer common))%Z then
        match NewServer e (cc_WebServer common) with
        | (Err er, op) => (Err (CmdWeb er), eff, op)
        | (Ok _, op) => (Ok (s true), eff, op)
        end
      else (Ok (s false), eff, [])
  end.

(** [Service.Run] with its [stop]: what is left of the web server, the virtual network and the
    session; [vnet_init] is the outcome of [Init], [logins] that of each attempt to log in
    before the context is cancelled, by the service itself when [loginFailExit] says so. *)
Inductive run_result := Stopped | RunErr (er : cmd_error).
Record held := mkHeldRes { hr_web : bool; hr_vnet : bool; hr_session : bool }.

Definition stop (h : held) : held := mkHeldRes false false false.

Fixpoint first_login (exit_on_fail : bool) (logins : list bool) : bool :=
  match logins with
  | [] => false                                           (* cancelled *)
  | true :: _ => true
  | false :: l => if exit_on_fail then false else first_login exit_on_fail l
  end.

Definition service_Run (s : running) (vnet_init : bool) (logins : list bool) : run_result * held :=
  let h := mkHeldRes (r_web s) (r_vnet s) false in
  if r_vnet s && negb vnet_init then (RunErr CmdVnet, stop h)
  else if first_login (default false (cc_LoginFailExit (r_common s))) logins
       then (Stopped, stop (mkHeldRes (r_web s) (r_vnet s) true))
       else (RunErr CmdLogin, stop h).

(** ** [runClient] *)

Definition valid_common (u : UnsafeFeatures) (gate : FeatureGate.featureGate) (c : ClientCommonConfig) : bool :=
  bool_decide (snd (ValidateClientCommonConfig url_Parse dir_of u gate c) = []).

Definition IsAbs (p : string) : bool := match p with String c _ => bool_decide (c = "/"%char) | "" => false end.

Definition store_path (cfgFilePath storePath : string) : string :=
  if negb (storePath =s? "") && negb (cfgFilePath =s? "") && negb (IsAbs storePath) then join_dir cfgFilePath storePath
  else storePath.

Definition open_store (cfgFilePath storePath : string) : result source_error (option (source * fs (bytes := bytes))) :=
  if storePath =s? "" then Ok None
  else let f := disk_at (store_path cfgFilePath storePath) in
       match NewStoreSource decode f with Ok s => Ok (Some (s, f)) | Err er => Err er end.

Definition runClientWithAggregator (u : UnsafeFeatures) (gate : FeatureGate.featureGate) (r : ClientConfigLoadResult)
    (cfgFilePath : string) : result cmd_error running * list effect * list opened :=
  match ReplaceAll (ld_Proxies r) (ld_Visitors r) newBaseSource with
  | Err er => (Err (CmdSource er), [], [])
  | Ok config =>
      match open_store cfgFilePath (cc_Store (ld_Common r)) with
      | Err er => (Err (CmdStore er), [], [])
      | Ok store =>
          let '(ps, vs) := effective config (fst <$> store) (cc_Start (ld_Common r)) in
          if negb (ValidateAllClientConfig IsQualifiedName (valid_common u gate) (ld_Common r) ps vs)
          then (Err CmdInvalid, [], [])
          else client_NewService (ld_Common r) config store cfgFilePath
      end
  end.

Definition set_gates (m : gmap string bool) (g : FeatureGate.featureGate) : result FeatureGate.gate_error FeatureGate.featureGate :=
  if decide (m = ∅) then Ok g else FeatureGate.SetFromMap (map_to_list m) g.

Definition runClient (strict : bool) (u : UnsafeFeatures) (g : FeatureGate.featureGate) (cfgFilePath : string)
    : result cmd_error running * list effect * list opened :=
  match load cfgFilePath strict with
  | Err er => (Err (CmdLoad er), [], [])
  | Ok r =>
      match set_gates (cc_FeatureGates (ld_Common r)) g with
      | Err er => (Err (CmdGate er), [], [])
      | Ok g => runClientWithAggregator u g r cfgFilePath
      end
  end.

(** [frpc verify]; the flag of the path has a default and is never empty. *)
Definition frpc_verify (strict : bool) (u : UnsafeFeatures) (g : FeatureGate.featureGate) (cfgFile : string) : result cmd_error unit :=
  match load cfgFile strict with
  | Err er => Err (CmdLoad er)
  | Ok r =>
      let '(ps, vs) := FilterClientConfigurers (cc_Start (ld_Common r)) (ld_Proxies r) (ld_Visitors r) in
      if ValidateAllClientConfig IsQualifiedName (valid_common u g) (ld_Common r) (CompleteProxyConfigurers ps) (CompleteVisitorConfigurers vs)
      then Ok tt else Err CmdInvalid
  end.

(** ** One proxy or one visitor from the flags *)

Definition startService (cfg : ClientCommonConfig) (ps : list proxy_conf) (vs : list VisitorConfigurer)
    : result cmd_error running * list effect * list opened :=
  match ReplaceAll ps vs newBaseSource with
  | Err er => (Err (CmdSource er), [], [])
  | Ok config => client_NewService cfg config None ""
  end.

Definition set_type (ty : string) (c : proxy_conf) : proxy_conf :=
  let b := GetBaseConfig c in
  set_base (mkBase (Name b) ty (ProxyConf.Enabled b) (Annotations b) (ProxyConf.Transport b) (Metadatas b) (LoadBalancer b) (HealthCheck b) (Backend b)) c.

Definition NewProxyCommand (u : UnsafeFeatures) (g : FeatureGate.featureGate) (name : string) (c : proxy_conf) (clientCfg : ClientCommonConfig)
    : result cmd_error running * list effect * list opened :=
  let clientCfg := client_Complete http_proxy clientCfg in
  if negb (valid_common u g clientCfg) then (Err CmdInvalid, [], [])
  else let c := Complete _ plugin_Complete (set_type name c) in
       if negb (proxy_valid IsQualifiedName c) then (Err CmdInvalid, [], [])
       else startService clientCfg [c] [].

Definition v_set_base (f : VisitorBaseConfig → VisitorBaseConfig) (c : VisitorConfigurer) : VisitorConfigurer :=
  match c with
  | STCPVisitorConfig b => STCPVisitorConfig (f b)
  | SUDPVisitorConfig b => SUDPVisitorConfig (f b)
  | XTCPVisitorConfig b x => XTCPVisitorConfig (f b) x
  end.

Definition v_set_type (ty : string) (c : VisitorBaseConfig) : VisitorBaseConfig :=
  mkVBase (v_Name c) ty (v_Enabled c) (v_Transport c) (v_SecretKey c) (v_ServerUser c) (v_ServerName c) (v_BindAddr c)
    (v_BindPort c) (v_Plugin c).

Definition NewVisitorCommand (u : UnsafeFeatures) (g : FeatureGate.featureGate) (name : string)
    (c : VisitorConfigurer) (clientCfg : ClientCommonConfig) : result cmd_error running * list effect * list opened :=
  let clientCfg := client_Complete http_proxy clientCfg in
  if negb (valid_common u g clientCfg) then (Err CmdInvalid, [], [])
  else let c := v_Complete (v_set_base (v_set_type name) c) in
       if negb (visitor_valid c) then (Err CmdInvalid, [], [])
       else startService clientCfg [] [c].

(** ** Properties *)

(** What is loaded is complete (lemma [LoadClientConfigResult_completes] of ClientLoad). *)
Hypothesis load_completes : ∀ path strict r, load path strict = Ok r → client_Complete http_proxy (ld_Common r) = ld_Common r.

Lemma client_NewService_ok common config store path s eff op :
  client_Complete http_proxy common = common →
  client_NewService common config store path = (Ok s, eff, op) →
  r_common s = common ∧ r_mgr s = NewMgr config store (cc_Start common) path ∧
  BuildClientAuth url_Parse read_file run_command Environ is_pem (cc_Auth common) = (Ok (r_setter s, r_key s), eff) ∧
  op = (if r_web s then [OWeb] else []) ∧ r_web s = (0 <? web_Port (cc_WebServer common))%Z.
Proof.
  intros Hc. unfold client_NewService, setServiceOptionsDefault. rewrite Hc.
  destruct (BuildClientAuth _ _ _ _ _ _) as [[[st key]|er] eff'] eqn:Hb; [|done].
  destruct (0 <? web_Port (cc_WebServer common))%Z eqn:Hw; [|by intros [= <- <- <-]].
  unfold NewServer. destruct (e_listen e OWeb); simpl; [|done].
  destruct (web_TLS (cc_WebServer common)) as [t|]; [destruct (e_keypair _ _ _); [|done]|]; by intros [= <- <- <-].
Qed.

(** A [NewService] that fails keeps no listener, except where the certificate of the web
    server does not load. *)
Lemma client_NewService_fails common config store path er eff op :
  client_NewService common config store path = (Err er, eff, op) → op = [] ∨ er = CmdWeb WebCertFails.
Proof. unfold client_NewService, NewServer. repeat (case_match; simplify_eq/=); naive_solver. Qed.

(** Whatever happens, [Run] returns with nothing of its own left open. *)
Lemma Run_leaves_nothing s vnet logins : snd (service_Run s vnet logins) = mkHeldRes false false false.
Proof. unfold service_Run. by repeat case_match. Qed.

Lemma runClient_inv strict u g path s eff op :
  runClient strict u g path = (Ok s, eff, op) →
  ∃ r g' config store,
    load path strict = Ok r ∧ set_gates (cc_FeatureGates (ld_Common r)) g = Ok g' ∧
    ReplaceAll (ld_Proxies r) (ld_Visitors r) newBaseSource = Ok config ∧
    open_store path (cc_Store (ld_Common r)) = Ok store ∧
    ValidateAllClientConfig IsQualifiedName (valid_common u g') (ld_Common r)
      (fst (effective config (fst <$> store) (cc_Start (ld_Common r))))
      (snd (effective config (fst <$> store) (cc_Start (ld_Common r)))) = true ∧
    client_NewService (ld_Common r) config store path = (Ok s, eff, op).
Proof.
  unfold runClient, runClientWithAggregator. destruct (load path strict) as [r|] eqn:Hl; [|done].
  destruct (set_gates _ _) as [g'|] eqn:Hg; [|done]. destruct (ReplaceAll _ _ _) as [config|] eqn:Hr; [|done].
  destruct (open_store _ _) as [store|] eqn:Hs; [|done]. destruct (effective _ _ _) as [ps vs] eqn:He.
  destruct (ValidateAllClientConfig _ _ _ ps vs) eqn:Hv; [|done]. intros H. exists r, g', config, store.
  rewrite He. naive_solver.
Qed.

Lemma of_list_in {C} `{!Configurer C} (l : list C) n c : of_list l !! n = Some c → c ∈ l.
Proof.
  unfold of_list. induction l as [|d l IH] using rev_ind; [done|]. rewrite foldl_app. cbn [foldl].
  rewrite elem_of_app, list_elem_of_singleton. intros [[_ <-]|[_ H]]%lookup_insert_Some; auto.
Qed.

Lemma ReplaceAll_keyed (ps : list proxy_conf) (vs : list VisitorConfigurer) s c : ReplaceAll ps vs s = Ok c → keyed_source c ∧ c = mkSource (of_list ps) (of_list vs).
Proof.
  unfold ReplaceAll. case_decide as H1; [done|]. case_decide as H2; [done|]. intros [= <-]. split; [|done].
  split; apply of_list_keyed; by apply not_Exists_Forall in H1, H2; [|apply _..].
Qed.

Lemma open_store_keyed path sp store : open_store path sp = Ok store → keyed_source (default newBaseSource (fst <$> store)).
Proof.
  unfold open_store. destruct (sp =s? ""); [intros [= <-]; apply keyed_new|].
  unfold NewStoreSource, loadFromFile. destruct (f_main _) as [b|]; [|intros [= <-]; apply keyed_new].
  destruct (fl_data b ≫= decode) as [[ps vs]|]; [|done]. case_decide as H1; [done|]. case_decide as H2; [done|].
  intros [= <-]. split; apply of_list_keyed; by apply not_Exists_Forall in H1, H2; [|apply _..].
Qed.

Lemma validate_all_spec u g common ps vs :
  ValidateAllClientConfig IsQualifiedName (valid_common u g) common ps vs = true ↔
  snd (ValidateClientCommonConfig url_Parse dir_of u g common) = [] ∧
  Forall (λ p, proxy_valid IsQualifiedName p = true) ps ∧ Forall (λ v, visitor_valid v = true) vs.
Proof.
  unfold ValidateAllClientConfig, valid_common.
  rewrite !andb_true_iff, bool_decide_eq_true, !List.forallb_forall, !Forall_forall.
  setoid_rewrite <-list_elem_of_In. tauto.
Qed.

Lemma common_auth_valid u g c : snd (ValidateClientCommonConfig url_Parse dir_of u g c) = [] → validateAuthConfig url_Parse u (cc_Auth c) = [].
Proof.
  unfold ValidateClientCommonConfig. destruct (validateTransportConfig _) as [w er]. simpl. rewrite !app_nil. tauto.
Qed.

(** C17: what [frpc] runs was checked. When it starts, the file was read; what is handed to the
    first session is the union of file and store, enabled, selected by [start] and completed,
    with different names, every entry valid; the common configuration is valid under the
    feature gates of the file; no program is run for a token, at the start or for any message
    afterwards, unless the command line allowed it; and the only port that is taken is that of
    the web server, where one is configured. *)
Theorem frpc_start_sound strict u g path s eff op :
  runClient strict u g path = (Ok s, eff, op) →
  ∃ r g' store,
    load path strict = Ok r ∧ r_common s = ld_Common r ∧
    set_gates (cc_FeatureGates (ld_Common r)) g = Ok g' ∧ open_store path (cc_Store (ld_Common r)) = Ok store ∧
    snd (ValidateClientCommonConfig url_Parse dir_of u g' (ld_Common r)) = [] ∧
    (let '(ps, vs) := g_applied (r_mgr s) in
     let st := default newBaseSource (fst <$> store) in
     NoDup (conf_name <$> ps) ∧ NoDup (conf_name <$> vs) ∧
     Forall (λ p, proxy_valid IsQualifiedName p = true) ps ∧ Forall (λ v, visitor_valid v = true) vs ∧
     (∀ p, p ∈ ps ↔ ∃ q, p = Complete _ plugin_Complete q ∧ entry (of_list (ld_Proxies r)) (s_proxies st) q ∧
        started (cc_Start (ld_Common r)) (conf_name q) = true) ∧
     (∀ v, v ∈ vs ↔ ∃ w, v = v_Complete w ∧ entry (of_list (ld_Visitors r)) (s_visitors st) w ∧
        started (cc_Start (ld_Common r)) (conf_name w) = true)) ∧
    (IsEnabled u TokenSourceExec = false → ¬ runs_program eff ∧
       ∀ md5_hex calls, ¬ runs_program (snd (foldl (setter_step read_file run_command Environ md5_hex) (r_setter s, []) calls))) ∧
    op = (if (0 <? web_Port (cc_WebServer (ld_Common r)))%Z then [OWeb] else []).
Proof.
  intros (r & g' & config & store & Hl & Hg & Hr & Hs & Hv & Hn)%runClient_inv.
  apply client_NewService_ok in Hn as (H1 & H2 & H3 & H4 & H5); [|by eapply load_completes].
  apply ReplaceAll_keyed in Hr as [Hk ->]. pose proof (open_store_keyed _ _ _ Hs) as Hks.
  apply validate_all_spec in Hv as (V1 & V2 & V3).
  destruct (effective_spec _ (fst <$> store) (cc_Start (ld_Common r)) Hk Hks) as (E1 & E2 & E3 & E4).
  exists r, g', store. split_and!; [done..| | |by rewrite <-H5].
  - rewrite H2. unfold NewMgr. cbn [g_applied]. destruct (effective _ _ _) as [ps vs]. simpl in *. by split_and!.
  - intros Hu. apply common_auth_valid in V1. split.
    + destruct (client_no_exec url_Parse read_file run_command Environ is_pem (λ s, s) u _ Hu V1) as [Hx _].
      by rewrite H3 in Hx.
    + intros md5_hex. destruct (client_no_exec url_Parse read_file run_command Environ is_pem md5_hex u _ Hu V1) as [_ Hx].
      intros calls. apply (Hx _ (r_key s)). by rewrite H3.
Qed.

(** Without a store the state that [NewService] makes satisfies the invariant the operations of
    the API keep. *)
Lemma start_establishes_wf strict u g path s eff op r :
  runClient strict u g path = (Ok s, eff, op) → load path strict = Ok r → cc_Store (ld_Common r) = "" →
  mgr_wf IsQualifiedName (r_mgr s).
Proof.
  intros (r' & g' & config & store & Hl & _ & Hr & Hs & Hv & Hn)%runClient_inv Hl' Hst. rewrite Hl in Hl'.
  injection Hl' as ->. unfold open_store in Hs. rewrite Hst in Hs. injection Hs as <-.
  apply client_NewService_ok in Hn as (_ & -> & _); [|by eapply load_completes].
  apply ReplaceAll_keyed in Hr as [Hk ->]. apply validate_all_spec in Hv as (_ & V2 & V3). rewrite Forall_forall in V2. rewrite Forall_forall in V3.
  destruct (effective_spec _ None (cc_Start (ld_Common r)) Hk keyed_new) as (_ & _ & E3 & E4).
  split; [done| |split_and!; [apply keyed_new|by intros q Hq%not_elem_of_nil..]].
  eexists. split_and!; [done|done|done| |].
  - intros q Hq%elem_of_values Hen Hsd; [|apply Hk]. apply V2, E3. exists q. split_and!; [done| |done].
    split; [done|]. by right.
  - intros q Hq%elem_of_values Hen Hsd; [|apply Hk]. apply V3, E4. exists q. split_and!; [done| |done].
    split; [done|]. by right.
Qed.

(** [frpc verify] does not know the feature gates of the file: it refuses every configuration
    with a virtual network, although the client starts with it. *)
Lemma verify_rejects_virtual_net strict u path r :
  load path strict = Ok r → cc_VirtualNet (ld_Common r) ≠ "" →
  frpc_verify strict u FeatureGate.NewFeatureGate path = Err CmdInvalid.
Proof.
  intros Hl Hv. unfold frpc_verify. rewrite Hl. destruct (FilterClientConfigurers _ _ _) as [ps vs].
  destruct (ValidateAllClientConfig _ _ _ _ _) eqn:E; [|done]. exfalso. apply validate_all_spec in E as [E _].
  revert E. unfold ValidateClientCommonConfig. destruct (validateTransportConfig _) as [w er]. simpl.
  rewrite app_nil. intros [E _]. revert E. unfold validateFeatureGates. by rewrite (proj2 (seqb_false _ _) Hv).
Qed.

(** A configuration that [frpc verify] accepts passes every check of the start, if it has no
    store, sets no feature gates, and gives every entry a name. *)
Lemma verified_starts strict u g path r :
  frpc_verify strict u g path = Ok tt → load path strict = Ok r →
  cc_FeatureGates (ld_Common r) = ∅ → cc_Store (ld_Common r) = "" →
  Forall (λ c, conf_name c ≠ "") (ld_Proxies r) → Forall (λ c, conf_name c ≠ "") (ld_Visitors r) →
  runClient strict u g path =
    client_NewService (ld_Common r) (mkSource (of_list (ld_Proxies r)) (of_list (ld_Visitors r))) None path.
Proof.
  intros Hv Hl Hg Hs Np Nv. unfold frpc_verify in Hv. rewrite Hl in Hv.
  pose proof (Filter_elem (cc_Start (ld_Common r)) (ld_Proxies r) (ld_Visitors r)) as [F1 F2].
  destruct (FilterClientConfigurers _ _ _) as [ps vs]. cbn [fst snd] in *.
  destruct (ValidateAllClientConfig _ _ _ _ _) eqn:V; [|done]. apply validate_all_spec in V as (V1 & V2 & V3).
  unfold runClient, runClientWithAggregator, set_gates, open_store. rewrite Hl, Hg, Hs. change ("" =s? "") with true. cbn iota.
  rewrite decide_True by done. unfold ReplaceAll.
  rewrite decide_False by (by apply Forall_not_Exists; eapply Forall_impl; [|intros ? H; exact H]).
  rewrite decide_False by (by apply Forall_not_Exists; eapply Forall_impl; [|intros ? H; exact H]).
  assert (keyed_source (mkSource (of_list (ld_Proxies r)) (of_list (ld_Visitors r)))) as Hk
    by (split; by apply of_list_keyed).
  destruct (effective_spec _ None (cc_Start (ld_Common r)) Hk keyed_new) as (_ & _ & E3 & E4).
  change (fst <$> None) with (@None source). destruct (effective _ _ _) as [ps' vs']. cbn [fst snd] in *.
  assert (∀ {C} `{!Configurer C} (l : list C) q, entry (of_list l) ∅ q → q ∈ l ∧ is_enabled q = true) as Hin.
  { intros C ? l q [He [H|[H _]]]; [done|]. split; [|done]. by eapply of_list_in. }
  rewrite (proj2 (validate_all_spec _ _ _ _ _)); [done|]. split_and!; [done| |].
  - apply Forall_forall. intros p (q & -> & Hq & Hsd)%E3. apply Hin in Hq as [Hq He].
    rewrite Forall_forall in V2. apply V2. apply list_elem_of_fmap. exists q. split; [done|]. apply F1. by split_and!.
  - apply Forall_forall. intros p (q & -> & Hq & Hsd)%E4. apply Hin in Hq as [Hq He].
    rewrite Forall_forall in V3. apply V3. apply list_elem_of_fmap. exists q. split; [done|]. apply F2. by split_and!.
Qed.
End frpc.

(** ** [frps] *)

Section frps.
Import ServerConf.
(** [LoadServerConfig] of LegacyConvert at its parameters, with whether the file is ini. *)
Variable Err0 : Type.
Variable load_server : string → bool → result Err0 ServerConfig * bool.
Variable e : env.

Inductive frps_error := FrpsLoad (er : Err0) | FrpsInvalid (es : errors) | FrpsStart (er : svc_error).

(** The configuration: of the file, or else of the flags. *)
Definition frps_config (strict : bool) (cfgFile : string) (flags : ServerConfig) : result frps_error ServerConfig :=
  if negb (cfgFile =s? "") then match fst (load_server cfgFile strict) with Ok c => Ok c | Err er => Err (FrpsLoad er) end
  else Ok (server_Complete flags).

Definition frps_check (u : UnsafeFeatures) (c : ServerConfig) : result frps_error ServerConfig :=
  match ValidateServerConfig u c with [] => Ok c | es => Err (FrpsInvalid es) end.

Definition runServer (c : ServerConfig) : result frps_error svc * list opened :=
  match ServerRun.NewService e c with
  | (Ok s, op) => (Ok s, op)
  | (Err er, op) => (Err (FrpsStart er), op)
  end.

Definition frps_root (strict : bool) (u : UnsafeFeatures) (cfgFile : string) (flags : ServerConfig)
    : result frps_error svc * list opened :=
  match frps_config strict cfgFile flags with
  | Err er => (Err er, [])
  | Ok c => match frps_check u c with Err er => (Err er, []) | Ok c => runServer c end
  end.

(** [None] where no file is given: only a message is printed. *)
Definition frps_verify (strict : bool) (u : UnsafeFeatures) (cfgFile : string) : option (result frps_error unit) :=
  if cfgFile =s? "" then None
  else Some match fst (load_server cfgFile strict) with
            | Err er => Err (FrpsLoad er)
            | Ok c => match frps_check u c with Ok _ => Ok tt | Err er => Err er end
            end.

(** A server starts only with a configuration that is valid, and [frps verify] accepts exactly
    the files that are read and valid: what it accepts fails to start only where a listener, a
    key or the token does. *)
Lemma frps_verify_agrees strict u cfgFile flags :
  cfgFile ≠ "" →
  (frps_verify strict u cfgFile = Some (Ok tt) ↔
   ∃ c, fst (load_server cfgFile strict) = Ok c ∧ ValidateServerConfig u c = [] ∧
        frps_root strict u cfgFile flags = runServer c) ∧
  (∀ s op, frps_root strict u cfgFile flags = (Ok s, op) → frps_verify strict u cfgFile = Some (Ok tt)).
Proof.
  intros Hf. unfold frps_verify, frps_root, frps_config, frps_check. rewrite (proj2 (seqb_false _ _) Hf). simpl.
  destruct (fst (load_server cfgFile strict)) as [c|er]; [|split; [split; [done|intros (? & ? & _); done]|done]].
  destruct (ValidateServerConfig u c) as [|x es] eqn:Hv; (split; [split|]); try done.
  - intros _. by exists c.
  - intros (c' & [= <-] & Hc & _). congruence.
Qed.

(** Started or not, [frps] runs no program for its token unless that was allowed: the one that
    [BuildServerAuth] would run is refused by the check before. *)
Lemma frps_runs_no_program strict u cfgFile flags s op read_file run_command Environ :
  IsEnabled u TokenSourceExec = false → frps_root strict u cfgFile flags = (Ok s, op) →
  ∃ c, frps_config strict cfgFile flags = Ok c ∧
    ¬ runs_program (snd (BuildServerAuth read_file run_command Environ (sc_Auth c))).
Proof.
  intros Hu. unfold frps_root, frps_check. destruct (frps_config strict cfgFile flags) as [c|]; [|done].
  destruct (ValidateServerConfig u c) eqn:Hv; [|done]. intros _. exists c. split; [done|].
  by eapply server_no_exec.
Qed.
End frps.

(** *** Witnesses *)

Definition w_common (store : string) : ClientCommonConfig :=
  client_Complete "" (mkClientCommon (cc_Auth zero_client) "" "" "" 0 "" "" None [] (cc_Log zero_client)
    (cc_WebServer zero_client) (cc_Transport zero_client) "" ∅ 0 ∅ [] store).
Definition w_bad_proxy (n : string) : proxy_conf :=
  TCPProxyConfig (mkBase n "tcp" None ∅ (mkTransport false false zero_bandwidth "client" "") ∅ (mkLoadBalancer "" "")
    (mkHealthCheck "ftp" 0 0 0 "" []) (mkBackend "127.0.0.1" 22 None)) 6000.
Definition w_file (store : string) (p : proxy_conf) : string → bool → result load_error ClientConfigLoadResult :=
  λ _ _, Ok (mkLoaded (w_common store) [p] [] false).
Definition w_disk : string → fs (bytes := nat) := λ _, mkFs (Some (mkFile (Some 0%nat) true)) None.
Definition w_decode : nat → option (list proxy_conf * list VisitorConfigurer) := λ _, Some ([w_store_proxy "a"], []).
Definition w_run (load : string → bool → result load_error ClientConfigLoadResult) :=
  runClient (λ _, []) w_decode w_disk load (λ _, None) (λ _, DirOther) "" (λ _, None) (λ _ _ _, None) [] (λ _, false)
    (λ _ p, p) w_env true None FeatureGate.NewFeatureGate "frpc.toml".

(** The entries of the file that the store hides are not checked at the start, and the removal
    of an entry of the store is applied without a check: a proxy that is not valid runs. *)
Lemma uncovered_proxy_unchecked :
  ∃ s, w_run (w_file "store.json" (w_bad_proxy "a")) = (Ok s, [], []) ∧
    fst (g_applied (r_mgr s)) = [w_store_proxy "a"] ∧
    let m := snd (api_step (λ _, []) w_encode w_load (λ _, true) (ADeleteProxy w_io "a") (r_mgr s)) in
    fst (g_applied m) = [w_bad_proxy "a"] ∧ proxy_valid (λ _, []) (w_bad_proxy "a") = false.
Proof. eexists. split; [vm_compute; reflexivity|]. split; [vm_compute; reflexivity|]. vm_compute. by split. Qed.

(** An entry without a name that is disabled passes [frpc verify] and keeps the client from
    starting. *)
Lemma verify_misses_unnamed :
  let p := TCPProxyConfig (mkBase "" "tcp" (Some false) ∅ (mkTransport false false zero_bandwidth "client" "") ∅
             (mkLoadBalancer "" "") (mkHealthCheck "" 0 0 0 "" []) (mkBackend "127.0.0.1" 22 None)) 6000 in
  frpc_verify (λ _, []) (w_file "" p) (λ _, None) (λ _, DirOther) true None FeatureGate.NewFeatureGate "frpc.toml" = Ok tt ∧
  w_run (w_file "" p) = (Err (CmdSource NameEmpty), [], []).
Proof. split; vm_compute; reflexivity. Qed.

Definition w_running : result cmd_error (running (bytes := nat)) * list effect * list opened := w_run (w_file "" (w_store_proxy "a")).

Lemma frpc_start_sound_witness :
  match w_running with
  | (Ok s, _, op) => Forall (λ p, proxy_valid (λ _, []) p = true) (fst (g_applied (r_mgr s))) ∧
                     fst (g_applied (r_mgr s)) = [w_store_proxy "a"] ∧ op = []
  | _ => False
  end.
Proof.
  destruct w_running as [[[s|] eff] op] eqn:E; [|vm_compute in E; discriminate E].
  destruct (frpc_start_sound (λ _, []) w_decode w_disk (w_file "" (w_store_proxy "a")) (λ _, None) (λ _, DirOther) "" (λ _, None)
    (λ _ _ _, None) [] (λ _, false) (λ _ p, p) w_env) with (strict := true) (u := @None (gmap string bool))
    (g := FeatureGate.NewFeatureGate) (path := "frpc.toml") (s := s) (eff := eff) (op := op)
    as (r & g' & store & _ & _ & _ & _ & _ & H & _).
  - intros path strict r [= <-]. reflexivity.
  - exact E.
  - assert (g_applied (r_mgr s) = ([w_store_proxy "a"], []) ∧ op = []) as [Ha ->]
      by (vm_compute in E; injection E as <- <- <-; split; reflexivity).
    rewrite Ha in *. destruct H as (_ & _ & H & _). by split_and!.
Defined.
