(* ===== verification/UdpListener.v ===== *)
(** UDP as connections: the listener that makes a connection for every remote address, and
    these connections, [src/pkg/util/net/udp.go].

    Connections are objects with an identity, since the listener replaces the closed one of
    an address by a new one while others may still hold the old one.  The goroutine that
    reads the socket, the one that writes it, the one of each connection that watches its
    activity, and the users of the connections interleave. *)
From Stdlib Require Import ZArith Lia.
From stdpp Require Import base gmap strings list.
From S2P Require Import Prelude GoStrings.
Local Open Scope string_scope.
Local Open Scope list_scope.
Local Open Scope Z_scope.

Section listener.
Context {data : Type}.
Variable size : data → nat.
Variable cut : nat → data → data.                    (* the first bytes *)

(** ** Connections *)

Record FakeUDPConn := mkFake {
  fc_remoteAddr : string; fc_packets : list data; fc_closeFlag : bool; fc_lastActive : Z }.

Definition packets_cap : nat := 20.

(** [lastActive] is the zero time at first. *)
Definition NewFakeUDPConn (zero : Z) (raddr : string) : FakeUDPConn := mkFake raddr [] false zero.

(** A packet for a full or closed connection is dropped. *)
Definition putPacket (p : data) (c : FakeUDPConn) : FakeUDPConn :=
  if fc_closeFlag c then c
  else if decide (length (fc_packets c) < packets_cap)%nat
       then mkFake (fc_remoteAddr c) (fc_packets c ++ [p]) false (fc_lastActive c)
       else c.

(** [Read] into a buffer of [n] bytes: what was read, [None] at the end; [Err] is waiting. *)
Definition Read (now : Z) (n : nat) (c : FakeUDPConn) : result unit (option data) * FakeUDPConn :=
  match fc_packets c with
  | p :: q => (Ok (Some (cut (Nat.min n (size p)) p)), mkFake (fc_remoteAddr c) q (fc_closeFlag c) now)
  | [] => if fc_closeFlag c then (Ok None, c) else (Err tt, c)
  end.

Definition fc_Close (c : FakeUDPConn) : FakeUDPConn := mkFake (fc_remoteAddr c) (fc_packets c) true (fc_lastActive c).
Definition touch (now : Z) (c : FakeUDPConn) : FakeUDPConn := mkFake (fc_remoteAddr c) (fc_packets c) (fc_closeFlag c) now.

(** A look of the watcher, every five seconds. *)
Definition watch (now : Z) (c : FakeUDPConn) : FakeUDPConn := if 10 <? now - fc_lastActive c then fc_Close c else c.

(** ** The listener *)

Record UDPListener := mkListener {
  conns : gmap nat FakeUDPConn;          (* every connection that was made *)
  next : nat;
  fakeConns : gmap string nat;
  offered : option nat;                  (* the reader waits in [acceptCh <- fakeConn] *)
  writeCh : list (data * string);
  chans_closed : bool;                   (* the reader has ended *)
  closeFlag : bool }.

Definition ListenUDP : UDPListener := mkListener ∅ 0 ∅ None [] false false.

(** The connection of an address, made where there is none or where it is closed. *)
Definition conn_for (zero : Z) (addr : string) (l : UDPListener) : nat * UDPListener :=
  match (i ← fakeConns l !! addr; c ← conns l !! i; if fc_closeFlag c then None else Some i) with
  | Some i => (i, l)
  | None => (next l, mkListener (<[next l := NewFakeUDPConn zero addr]> (conns l)) (S (next l)) (<[addr := next l]> (fakeConns l))
                       (offered l) (writeCh l) (chans_closed l) (closeFlag l))
  end.

(** A packet arrives: it is queued, and the connection is offered to [Accept], every time. *)
Definition receive (zero : Z) (addr : string) (p : data) (l : UDPListener) : UDPListener :=
  let '(i, l) := conn_for zero addr l in
  mkListener (alter (putPacket p) i (conns l)) (next l) (fakeConns l) (Some i) (writeCh l) (chans_closed l) (closeFlag l).

Definition set_conns (m : gmap nat FakeUDPConn) (l : UDPListener) : UDPListener :=
  mkListener m (next l) (fakeConns l) (offered l) (writeCh l) (chans_closed l) (closeFlag l).

Definition Accept (l : UDPListener) : option (result unit nat) * UDPListener :=
  match offered l with
  | Some i => (Some (Ok i), mkListener (conns l) (next l) (fakeConns l) None (writeCh l) (chans_closed l) (closeFlag l))
  | None => (if chans_closed l then Some (Err tt) else None, l)
  end.

Definition writeCh_cap : nat := 1000.

(** [writeUDPPacket]: [None] while the channel is full; an error once it is closed. *)
Definition writeUDPPacket (p : data) (addr : string) (l : UDPListener) : option (bool * UDPListener) :=
  if chans_closed l then Some (false, l)
  else if decide (length (writeCh l) < writeCh_cap)%nat
       then Some (true, mkListener (conns l) (next l) (fakeConns l) (offered l) (writeCh l ++ [(p, addr)]) false (closeFlag l))
       else None.

(** [FakeUDPConn.Write]: the error of the listener is dropped. *)
Definition Write (now : Z) (i : nat) (p : data) (l : UDPListener) : option (bool * UDPListener) :=
  match conns l !! i with
  | None => None
  | Some c =>
      if fc_closeFlag c then Some (false, l)
      else match writeUDPPacket p (fc_remoteAddr c) l with
           | None => None
           | Some (_, l) => Some (true, set_conns (<[i := touch now c]> (conns l)) l)
           end
  end.

(** The writer takes a packet out; the reader ends on an error of the socket; [Close]. *)
Definition send_out (l : UDPListener) : option (data * string) * UDPListener :=
  match writeCh l with
  | x :: q => (Some x, mkListener (conns l) (next l) (fakeConns l) (offered l) q (chans_closed l) (closeFlag l))
  | [] => (None, l)
  end.
Definition reader_ends (l : UDPListener) : UDPListener :=
  mkListener (conns l) (next l) (fakeConns l) (offered l) (writeCh l) true (closeFlag l).
Definition Close (l : UDPListener) : UDPListener :=
  mkListener (conns l) (next l) (fakeConns l) (offered l) (writeCh l) (chans_closed l) true.

(** ** Runs, with what was received and what each connection wrote *)

Record trace := mkTrace { got : list (string * data); wrote : list (data * string); sent : list (data * string) }.

Inductive ustep : UDPListener * trace → UDPListener * trace → Prop :=
| u_receive l t zero addr p :
    offered l = None → chans_closed l = false →
    ustep (l, t) (receive zero addr p l, mkTrace (got t ++ [(addr, p)]) (wrote t) (sent t))
| u_accept l t : ustep (l, t) (snd (Accept l), t)
| u_read l t i c now n : conns l !! i = Some c → ustep (l, t) (set_conns (<[i := snd (Read now n c)]> (conns l)) l, t)
| u_write l t i c p now l' :
    conns l !! i = Some c → Write now i p l = Some (true, l') →
    ustep (l, t) (l', mkTrace (got t) (if chans_closed l then wrote t else wrote t ++ [(p, fc_remoteAddr c)]) (sent t))
| u_conn_close l t i c : conns l !! i = Some c → ustep (l, t) (set_conns (<[i := fc_Close c]> (conns l)) l, t)
| u_watch l t i c now : conns l !! i = Some c → ustep (l, t) (set_conns (<[i := watch now c]> (conns l)) l, t)
| u_send l t x l' : send_out l = (Some x, l') → ustep (l, t) (l', mkTrace (got t) (wrote t) (sent t ++ [x]))
| u_end l t : closeFlag l = true → offered l = None → ustep (l, t) (reader_ends l, t)
| u_close l t : ustep (l, t) (Close l, t).

Record uinv (s : UDPListener * trace) : Prop := {
  ui_fresh : ∀ i, (next (fst s) <= i)%nat → conns (fst s) !! i = None;
  ui_table : ∀ a i, fakeConns (fst s) !! a = Some i → ∃ c, conns (fst s) !! i = Some c ∧ fc_remoteAddr c = a;
  ui_open : ∀ i c, conns (fst s) !! i = Some c → fc_closeFlag c = false → fakeConns (fst s) !! fc_remoteAddr c = Some i;
  ui_from : ∀ i c p, conns (fst s) !! i = Some c → p ∈ fc_packets c → (fc_remoteAddr c, p) ∈ got (snd s);
  ui_cap : ∀ i c, conns (fst s) !! i = Some c → (length (fc_packets c) <= packets_cap)%nat;
  ui_out : wrote (snd s) = sent (snd s) ++ writeCh (fst s) }.

Lemma uinv_new : uinv (ListenUDP, mkTrace [] [] []).
Proof. by split. Qed.

(** A change of one connection that brings no packets in and does not open it again. *)
Lemma uinv_upd l t i c c' :
  uinv (l, t) → conns l !! i = Some c → fc_remoteAddr c' = fc_remoteAddr c →
  (fc_closeFlag c' = false → fc_closeFlag c = false) →
  (∀ p, p ∈ fc_packets c' → p ∈ fc_packets c) → (length (fc_packets c') <= length (fc_packets c))%nat →
  uinv (set_conns (<[i := c']> (conns l)) l, t).
Proof.
  intros [I1 I2 I3 I4 I5 I6] Hc Hr Hf Hp Hl. simpl in *. split; simpl; [| | | | |done].
  - intros j Hj. rewrite lookup_insert_ne by (intros ->; by rewrite I1 in Hc). by apply I1.
  - intros a j Hj. destruct (I2 a j Hj) as (d & Hd & <-). destruct (decide (i = j)) as [->|Hne].
    + exists c'. rewrite lookup_insert_eq. naive_solver.
    + exists d. by rewrite lookup_insert_ne.
  - intros j d [[<- <-]|[_ Hd]]%lookup_insert_Some; [rewrite Hr; intros ?; apply I3; auto|by apply I3].
  - intros j d p [[<- <-]|[_ Hd]]%lookup_insert_Some; [rewrite Hr; intros ?; eapply I4; eauto|by eapply I4].
  - intros j d [[<- <-]|[_ Hd]]%lookup_insert_Some; [specialize (I5 _ _ Hc); lia|by eapply I5].
Qed.

Lemma conn_for_spec zero addr l t i l' :
  uinv (l, t) → conn_for zero addr l = (i, l') →
  uinv (l', t) ∧ offered l' = offered l ∧ ∃ c, conns l' !! i = Some c ∧ fc_remoteAddr c = addr ∧ fc_closeFlag c = false.
Proof.
  intros I. unfold conn_for.
  destruct (fakeConns l !! addr ≫= _) as [j|] eqn:E.
  - apply bind_Some in E as (k & Hk & E). apply bind_Some in E as (c & Hc & E).
    destruct (fc_closeFlag c) eqn:Hf; [done|]. injection E as <-. intros [= <- <-]. split_and!; [done..|].
    exists c. destruct (ui_table _ I addr k Hk) as (c' & Hc' & <-). simpl in Hc'. split_and!; congruence.
  - assert (∀ j c, fakeConns l !! addr = Some j → conns l !! j = Some c → fc_closeFlag c = true) as Hold.
    { intros j c Hj Hc. rewrite Hj in E. simpl in E. rewrite Hc in E. simpl in E. by destruct (fc_closeFlag c). }
    clear E. intros [= <- <-]. destruct I as [I1 I2 I3 I4 I5 I6]. simpl in *. split_and!; [|done|].
    2: { eexists. rewrite lookup_insert_eq. by split_and!. }
    split; simpl; [| | | | |done].
    + intros j Hj. rewrite lookup_insert_ne by lia. apply I1. lia.
    + intros a j [[<- <-]|[Hne Hj]]%lookup_insert_Some.
      * eexists. by rewrite lookup_insert_eq.
      * destruct (I2 a j Hj) as (c & Hc & <-). exists c. rewrite lookup_insert_ne; [done|].
        intros <-. by rewrite I1 in Hc.
    + intros j c [[<- <-]|[Hne Hc]]%lookup_insert_Some Ho; [apply lookup_insert_eq|].
      rewrite lookup_insert_ne; [by apply I3|]. intros Ha. specialize (I3 _ _ Hc Ho). rewrite <-Ha in I3.
      by rewrite (Hold _ _ I3 Hc) in Ho.
    + intros j c q [[<- <-]|[_ Hc]]%lookup_insert_Some Hq; [by apply not_elem_of_nil in Hq|by eapply I4].
    + intros j c [[<- <-]|[_ Hc]]%lookup_insert_Some; [simpl; lia|by eapply I5].
Qed.

Lemma receive_inv l t zero addr p :
  uinv (l, t) → uinv (receive zero addr p l, mkTrace (got t ++ [(addr, p)]) (wrote t) (sent t)).
Proof.
  intros I. unfold receive. destruct (conn_for zero addr l) as [i l'] eqn:E.
  destruct (conn_for_spec _ _ _ t _ _ I E) as ([I1 I2 I3 I4 I5 I6] & _ & c & Hc & Hr & Hf). simpl in *.
  assert (alter (putPacket p) i (conns l') = <[i := putPacket p c]> (conns l')) as ->.
  { apply map_eq. intros j. destruct (decide (i = j)) as [<-|]; [rewrite lookup_alter_eq, lookup_insert_eq, Hc; done|].
    by rewrite lookup_alter_ne, lookup_insert_ne. }
  assert (fc_remoteAddr (putPacket p c) = addr ∧ fc_closeFlag (putPacket p c) = false ∧
    (length (fc_packets (putPacket p c)) <= packets_cap)%nat ∧
    (∀ q, q ∈ fc_packets (putPacket p c) → q = p ∨ q ∈ fc_packets c)) as (P1 & P2 & P3 & P4).
  { unfold putPacket. rewrite Hf. specialize (I5 _ _ Hc). case_decide; simpl; [|by auto]. rewrite length_app. simpl.
    split_and!; [done|done|lia|]. intros q. rewrite elem_of_app, list_elem_of_singleton. tauto. }
  split; simpl; [| | | | |done].
  - intros j Hj. rewrite lookup_insert_ne by (intros ->; by rewrite I1 in Hc). by apply I1.
  - intros a j Hj. destruct (I2 a j Hj) as (d & Hd & <-). destruct (decide (i = j)) as [->|Hne].
    + eexists. rewrite lookup_insert_eq. split; [done|]. congruence.
    + exists d. by rewrite lookup_insert_ne.
  - intros j d [[<- <-]|[_ Hd]]%lookup_insert_Some; [rewrite P1, <-Hr; intros _; by apply I3|by apply I3].
  - intros j d q [[<- <-]|[_ Hd]]%lookup_insert_Some Hq; rewrite elem_of_app.
    + rewrite P1. destruct (P4 q Hq) as [-> | Hq']; [right; by apply list_elem_of_singleton|]. left. rewrite <-Hr. by eapply I4.
    + left. by eapply I4.
  - intros j d [[<- <-]|[_ Hd]]%lookup_insert_Some; [done|by eapply I5].
Qed.

Lemma uinv_same_conns l l' t t' :
  uinv (l, t) → conns l' = conns l → next l' = next l → fakeConns l' = fakeConns l → got t' = got t →
  wrote t' = sent t' ++ writeCh l' → uinv (l', t').
Proof. intros [I1 I2 I3 I4 I5 I6] E1 E2 E3 E4 E5. simpl in *. split; simpl; rewrite ?E1, ?E2, ?E3, ?E4; done. Qed.

Lemma ustep_inv s s' : ustep s s' → uinv s → uinv s'.
Proof.
  destruct 1 as [l t zero addr p _ _|l t|l t i c now n Hc|l t i c p now l' Hc Hw|l t i c Hc|l t i c now Hc|l t x l' Hs|l t _ _|l t];
    intros I.
  - by apply receive_inv.
  - pose proof (ui_out _ I) as Ho. simpl in Ho. eapply uinv_same_conns; [exact I|..]; unfold Accept; by destruct (offered l).
  - unfold Read. destruct (fc_packets c) as [|q qs] eqn:E.
    + destruct (fc_closeFlag c) eqn:Hf; simpl; by eapply uinv_upd.
    + eapply uinv_upd; [done|done|done|done| |]; simpl; rewrite E; [intros ?; rewrite elem_of_cons; auto|simpl; lia].
  - unfold Write in Hw. rewrite Hc in Hw. destruct (fc_closeFlag c) eqn:Hf; [done|].
    unfold writeUDPPacket in Hw. destruct (chans_closed l) eqn:Hcl; [|case_decide; [|done]]; injection Hw as <-.
    all: pose proof (ui_out _ I) as Ho; simpl in Ho; pose proof (uinv_upd l t i c (touch now c) I Hc eq_refl) as Hu.
    all: eapply uinv_same_conns; [apply Hu; simpl; try done; lia|done..|]; simpl; by rewrite Ho, <-?app_assoc.
  - eapply uinv_upd; [done|done|..]; simpl; by auto.
  - eapply uinv_upd; [done|done|..]; unfold watch; case_match; simpl; by auto.
  - unfold send_out in Hs. destruct (writeCh l) as [|y q] eqn:E; [done|]. injection Hs as <- <-.
    eapply uinv_same_conns; [exact I|done..|]. simpl. pose proof (ui_out _ I) as Ho. simpl in Ho. rewrite E in Ho.
    by rewrite Ho, <-app_assoc.
  - eapply uinv_same_conns; [exact I|done..|apply (ui_out _ I)].
  - eapply uinv_same_conns; [exact I|done..|apply (ui_out _ I)].
Qed.

(** Users of a UDP listener are kept apart. After any interleaving an address has at most
    one connection that is open, a connection holds only packets that came from its address,
    at most twenty, and what goes out on the socket is, in order, what the connections wrote,
    each packet with the address of the connection that wrote it. *)
Theorem udp_conns_apart l t :
  rtc ustep (ListenUDP, mkTrace [] [] []) (l, t) →
  (∀ i j c d, conns l !! i = Some c → conns l !! j = Some d → fc_closeFlag c = false → fc_closeFlag d = false →
     fc_remoteAddr c = fc_remoteAddr d → i = j) ∧
  (∀ i c p, conns l !! i = Some c → p ∈ fc_packets c → (fc_remoteAddr c, p) ∈ got t) ∧
  (∀ i c, conns l !! i = Some c → (length (fc_packets c) <= packets_cap)%nat) ∧
  wrote t = sent t ++ writeCh l.
Proof.
  intros Hr. assert (uinv (l, t)) as I.
  { remember (ListenUDP, _) as s0. assert (uinv s0) as H0 by (subst; apply uinv_new). clear Heqs0.
    induction Hr as [|x y z Hxy _ IH]; [done|]. apply IH. by eapply ustep_inv. }
  destruct I as [_ _ I3 I4 I5 I6]. simpl in *. split_and!; [|done..].
  intros i j c d Hc Hd Fc Fd Ha. specialize (I3 _ _ Hc Fc) as H1. specialize (I3 _ _ Hd Fd) as H2. congruence.
Qed.

(** A connection is handed out by [Accept] once for every packet of its address, not once. *)
Lemma accepted_again zero addr p l i :
  fst (Accept (receive zero addr p l)) = Some (Ok i) →
  let l' := snd (Accept (receive zero addr p l)) in
  (∀ c, conns l' !! i = Some c → fc_closeFlag c = false → fst (Accept (receive zero addr p l')) = Some (Ok i)).
Proof.
  unfold receive. destruct (conn_for zero addr l) as [k m] eqn:E. simpl. intros [= <-] c Hc Hf.
  unfold conn_for at 1. simpl.
  assert (fakeConns m !! addr = Some k) as ->.
  { revert E. unfold conn_for. destruct (fakeConns l !! addr ≫= _) as [j|] eqn:Eb.
    - intros [= <- <-]. apply bind_Some in Eb as (x & Hx & Eb). apply bind_Some in Eb as (d & _ & Eb).
      destruct (fc_closeFlag d); [done|]. by injection Eb as <-.
    - intros [= <- <-]. apply lookup_insert_eq. }
  simpl. rewrite Hc. simpl. rewrite Hf. done.
Qed.
End listener.

(** The watcher looks five seconds after the connection was made; with [lastActive] at the
    zero time, a connection that was not read by then is closed. *)
Lemma unread_conn_closed {data} (now : Z) addr (ps : list data) :
  10 < now → fc_closeFlag (watch now (mkFake addr ps false 0)) = true.
Proof. intros Hn. unfold watch. simpl. by rewrite (proj2 (Z.ltb_lt _ _)) by lia. Qed.

Lemma udp_conns_apart_witness :
  ("a", 7) ∈ got (mkTrace (data := Z) ([] ++ [("a", 7)]) [] []).
Proof.
  destruct (udp_conns_apart (λ _, 1%nat) (λ _ x, x) (receive 0 "a" 7 ListenUDP) (mkTrace ([] ++ [("a", 7)]) [] [])) as (_ & H & _).
  - apply rtc_once. apply (u_receive _ _ _ (mkTrace [] [] [])); reflexivity.
  - apply (H 0%nat (mkFake "a" [7] false 0) 7); [vm_compute; reflexivity|by apply list_elem_of_singleton].
Defined.
