(* ===== verification/ClientSession.v ===== *)
(** The handlers of a client's session, [src/client/control.go], and a work connection from
    the server's request to the client's proxy: the client's message is checked by the
    server's [RegisterWorkConn], waits in the pool of the session, is taken for a user of a
    proxy, and comes back with [StartWorkConn] for that proxy. *)
From Stdlib Require Import ZArith Lia Ascii String.
From stdpp Require Import base gmap strings list.
From S2P Require Import Prelude GoStrings Auth ProxyConf PluginConf VisitorConf ServerPlugins Service ServerProxy Handlers ClientProxy ClientService.
Local Open Scope string_scope.
Local Open Scope list_scope.

Section session.
(** [Common.User] and [sessionCtx.RunID]. *)
Variables (User RunID : string).

Abbreviation pmanager := (Manager (plugin := TypedClientPluginOptions)).

(** What becomes of the connection [handleReqWorkConn] makes. *)
Inductive work_fate := NoConnection | ConnectionClosed | GivenTo (name : string).

(** The answers to the client: whether it can connect, what the setter makes of the message,
    whether the message can be written, and the [StartWorkConn] that is read, as the name and
    the error. *)
Record work_env := mkWorkEnv {
  we_connect : bool; we_set : NewWorkConn → result string NewWorkConn; we_write : bool; we_start : option (string * string) }.

(** The message that is sent, where one is. *)
Definition work_msg (e : work_env) : option NewWorkConn :=
  if we_connect e then match we_set e (mkNewWorkConn RunID "" 0) with Ok m => Some m | Err _ => None end else None.

Definition handleReqWorkConn (e : work_env) (pm : pmanager) : work_fate :=
  if negb (we_connect e) then NoConnection
  else match work_msg e with
       | None => ConnectionClosed
       | Some _ =>
           if negb (we_write e) then ConnectionClosed
           else match we_start e with
                | None => ConnectionClosed
                | Some (name, err) =>
                    if negb (err =s? "") then ConnectionClosed
                    else let name := StripUserPrefix User name in
                         if HandleWorkConn name pm then GivenTo name else ConnectionClosed
                end
       end.

(** [handleNewProxyResp]; an unknown name only writes to the log. *)
Definition handleNewProxyResp (now : time) (proxyName remoteAddr err run_err : string) (pm : pmanager) : pmanager :=
  default pm (pm_StartProxy User now (StripUserPrefix User proxyName) remoteAddr err run_err pm).

(** A message of the server, by the table of [registerMsgHandlers]; the session's last pong and
    whether it is closed; [HReqWorkConn] is handled in a goroutine of its own. *)
Inductive server_msg :=
| HReqWorkConn (e : work_env) | HNewProxyResp (proxyName remoteAddr err run_err : string)
| HNatHoleResp | HPong (err : string) | HUnknown.

Definition dispatch (now : time) (m : server_msg) (x : pmanager * (time * bool)) : pmanager * (time * bool) :=
  match m with
  | HNewProxyResp n a er re => (handleNewProxyResp now n a er re (fst x), snd x)
  | HPong er => (fst x, c_handlePong now er (snd x))
  | HReqWorkConn _ | HNatHoleResp | HUnknown => x
  end.

(** The message of [sendHeartBeat]: none where the setter fails. *)
Definition sendHeartBeat (set_ping : Ping → result string Ping) : option Ping :=
  match set_ping (mkPing "" 0) with Ok m => Some m | Err _ => None end.

(** ** From the request to the proxy *)

(** The server's side, with tokens: the messages set by the client's setter, checked by the
    server's verifier. *)
Section end_to_end.
Context {Conn : Type}.
Variable md5_hex : string → string.
Variables (server client : TokenAuth).
#[local] Existing Instance token_Verifier.

Definition token_env (now : Z) (write : bool) (start : option (string * string)) : work_env :=
  mkWorkEnv true (λ m, Ok (SetNewWorkConn md5_hex now client m)) write start.

(** What the server sends to the client over a connection it took for a user of a proxy. *)
Definition start_for (fullName : string) : option (string * string) := Some (fullName, "").

Lemma work_msg_verified now write start m :
  additionalAuthScopes client = additionalAuthScopes server → token client = token server →
  work_msg (token_env now write start) = Some m →
  VerifyNewWorkConn (Verifier := token_Verifier md5_hex) server m = Ok tt ∧ w_RunID m = RunID.
Proof.
  intros Hs Ht [= <-]. cbn [VerifyNewWorkConn token_Verifier].
  unfold token_VerifyNewWorkConn, SetNewWorkConn. rewrite Hs. case_match; [|done]. split; [|done].
  apply check_key_ok. simpl. unfold GetAuthKey. by rewrite Ht.
Qed.

(** Users that come one after the other, each with the outcome of asking the client and of waiting. *)
Fixpoint users_served (ws : list (bool * waited (Conn:=Conn))) (p : pool (Conn:=Conn)) : list (result work_error Conn) :=
  match ws with
  | [] => []
  | (send_ok, w) :: ws => let '(r, p) := GetWorkConn send_ok w p in r :: users_served ws p
  end.

Lemma users_served_fifo (cs : list Conn) (ws : list (bool * waited (Conn:=Conn))) cp cl :
  length ws = length cs → users_served ws (mkPool cs cp cl) = Ok <$> cs.
Proof.
  revert cs. induction ws as [|[so w] ws IH]; intros [|c cs]; try done. intros [= Hl]. simpl. by rewrite IH.
Qed.

(** C11: a work connection reaches its proxy. Client and server have one token and the same scopes of authentication; the
    client is asked for a connection while its session is in the server's table, and the plugins for work connections
    accept its message and leave it unchanged. Then the verifier accepts it. If the pool of the session is open and has
    room, the connection is queued behind those that wait, and the users that come next get exactly the waiting
    connections in their order and then this one; if the pool is full the connection is refused, and if it is closed
    the connection is dropped, without effect on the pool. When the server names a proxy over the connection, the
    client gives it to that proxy, whatever user name was added on the way, if the proxy is running, and closes it
    otherwise. *)
Theorem work_conn_end_to_end (conn : Conn) now (f : front) k x (pm : pmanager) name plugins ret m :
  additionalAuthScopes client = additionalAuthScopes server → token client = token server →
  cm_GetByID RunID (svc f) = Some k → ctxs f !! k = Some x →
  work_msg (token_env now true (start_for (AddUserPrefix User name))) = Some m →
  plugin_NewWorkConn plugins (mkNewWorkConnContent (loginUserInfo (sc_Login x)) m) = Ok ret → wc_NewWorkConn ret = m →
  let room := (Z.of_nat (length (conns (sc_Pool x))) <? cap (sc_Pool x))%Z in
  ∃ f' x',
    svc_RegisterWorkConn (Verifier0 := token_Verifier md5_hex) server plugins conn m f =
      (if pool_closed (sc_Pool x) || room then WorkRegistered else WorkPoolFull, f') ∧
    ctxs f' !! k = Some x' ∧
    (if negb (pool_closed (sc_Pool x)) && room
     then ∀ ws, length ws = S (length (conns (sc_Pool x))) →
            users_served ws (sc_Pool x') = Ok <$> (conns (sc_Pool x) ++ [conn])
     else sc_Pool x' = sc_Pool x) ∧
    handleReqWorkConn (token_env now true (start_for (AddUserPrefix User name))) pm =
      match pm_proxies pm !! name with
      | Some (_, pw) => if decide (Phase pw = PhaseRunning) then GivenTo name else ConnectionClosed
      | None => ConnectionClosed
      end.
Proof.
  intros Hs Ht Hk Hx Hm Hp Hret. destruct (work_msg_verified _ _ _ _ Hs Ht Hm) as [Hv Hr]. cbv zeta.
  assert (handleReqWorkConn (token_env now true (start_for (AddUserPrefix User name))) pm =
      match pm_proxies pm !! name with
      | Some (_, pw) => if decide (Phase pw = PhaseRunning) then GivenTo name else ConnectionClosed
      | None => ConnectionClosed
      end) as Hclient.
  { unfold handleReqWorkConn. rewrite Hm. cbn. rewrite Strip_Add. unfold HandleWorkConn, pw_InWorkConn.
    destruct (pm_proxies pm !! name) as [[id pw]|]; [|done]. by case_decide; case_bool_decide. }
  unfold svc_RegisterWorkConn. rewrite Hr, Hk. simpl. rewrite Hx. simpl. rewrite Hp, Hret.
  assert (session_VerifyNewWorkConn (Verifier0 := token_Verifier md5_hex) server (sc_AlwaysPass x) m = Ok tt) as ->
    by (unfold session_VerifyNewWorkConn; by destruct (sc_AlwaysPass x)).
  unfold ServerProxy.RegisterWorkConn. destruct (sc_Pool x) as [cs cp cl]. simpl.
  destruct cl; [|destruct (_ <? cp)%Z]; simpl; (eexists _, _; split; [done|]; split; [simpl; apply lookup_insert_eq|]; split; [|done]); try done.
  intros ws Hl. simpl. apply users_served_fifo. rewrite length_app. simpl. lia.
Qed.
End end_to_end.

(** A connection the client makes for a request is given to a running proxy or closed. *)
Lemma work_conn_not_leaked e (pm : pmanager) :
  we_connect e = true →
  handleReqWorkConn e pm = ConnectionClosed ∨
  ∃ name id pw, handleReqWorkConn e pm = GivenTo name ∧ pm_proxies pm !! name = Some (id, pw) ∧ Phase pw = PhaseRunning.
Proof.
  intros Hc. unfold handleReqWorkConn. rewrite Hc. simpl. destruct (work_msg e) as [m|]; [|by left]. destruct (we_write e); [|by left].
  destruct (we_start e) as [[n er]|]; [|by left]. simpl. destruct (er =s? ""); [|by left]. simpl.
  unfold HandleWorkConn, pw_InWorkConn. destruct (pm_proxies pm !! StripUserPrefix User n) as [[id pw]|] eqn:Hp; [|by left].
  case_bool_decide; [|by left]. right. by eexists _, id, pw.
Qed.

(** Pongs with an error close the session; no other message does. *)
Lemma dispatch_closes now m (x : pmanager * (time * bool)) :
  snd (snd (dispatch now m x)) = true ↔ snd (snd x) = true ∨ ∃ er, m = HPong er ∧ er ≠ "".
Proof.
  destruct m as [e|n a er re| |er|]; simpl; try naive_solver. unfold c_handlePong.
  destruct (seqb_spec er ""); simpl; naive_solver.
Qed.
End session.

Lemma work_conn_end_to_end_witness :
  let m := mkNewWorkConn "run" "" 0 in
  ∃ f' x',
    svc_RegisterWorkConn (Verifier0 := token_Verifier (λ s, s)) (NewTokenAuth [] "t") NewPluginManager 9%nat m (snd a_front) = (WorkRegistered, f') ∧
    ctxs f' !! 0%nat = Some x' ∧ users_served [(true, TimedOut)] (sc_Pool x') = [Ok 9%nat].
Proof.
  destruct (ctxs (snd a_front) !! 0%nat) as [x|] eqn:E; [|vm_compute in E; discriminate E].
  destruct (work_conn_end_to_end "alice" "run" (λ s, s) (NewTokenAuth [] "t") (NewTokenAuth [] "t") 9%nat 5 (snd a_front) 0 x
    ClientProxy.NewManager "ssh" NewPluginManager (mkNewWorkConnContent (loginUserInfo (sc_Login x)) (mkNewWorkConn "run" "" 0))
    (mkNewWorkConn "run" "" 0)) as (f' & x' & H1 & H2 & H3 & _).
  - reflexivity.
  - reflexivity.
  - vm_compute. reflexivity.
  - exact E.
  - vm_compute. reflexivity.
  - reflexivity.
  - reflexivity.
  - vm_compute in E. injection E as <-. exists f', x'. split; [exact H1|]. split; [exact H2|]. by apply H3.
Defined.
