(* ===== verification/WebRoutes.v ===== *)
(** The web servers of client and server: their routes ([src/client/api_router.go],
    [src/server/api_router.go], [registerPprofHandlers] of [src/pkg/util/http/server.go]), the
    answers of handlers ([src/pkg/util/http/handler.go], [error.go]), the library that calls
    the client's API ([src/pkg/sdk/client/client.go]) and the commands on top of it
    ([src/cmd/frpc/sub/admin.go]).

    The router library is a parameter: the class [Mux] with the law that routes are tried in
    the order they were added. *)
From Stdlib Require Import ZArith Lia Ascii String.
From stdpp Require Import base gmap strings list.
From S2P Require Import Prelude GoStrings CommonConf HttpAuth.
Local Open Scope string_scope.
Local Open Scope list_scope.
Local Open Scope Z_scope.

(** ** Routes *)

Inductive pattern := Path (template : string) | PathPrefix (p : string).

(** No method stands for all; [rt_auth] for the middleware that asks for the password. *)
Record route := mkRoute { rt_pattern : pattern; rt_methods : list string; rt_auth : bool; rt_handler : string }.

(** A variable of a template stands for one element of a path that is not empty. *)
Definition element_matches (t s : string) : bool := if HasPrefix t "{" then negb (s =s? "") else t =s? s.

Fixpoint elements_match (t p : list string) : bool :=
  match t, p with
  | [], [] => true
  | x :: t, y :: p => element_matches x y && elements_match t p
  | _, _ => false
  end.

Definition pattern_matches (pt : pattern) (path : string) : bool :=
  match pt with
  | Path t => elements_match (Split "/"%char t) (Split "/"%char path)
  | PathPrefix p => HasPrefix path p
  end.

Definition route_matches (method path : string) (r : route) : bool :=
  pattern_matches (rt_pattern r) path && (bool_decide (rt_methods r = []) || contains (rt_methods r) method).

Class Mux := mux_find : list route → string → string → option route.
Class MuxLaws `{Mux} := { mux_first rs method path : mux_find rs method path = find_first (route_matches method path) rs }.

Definition open_route (t h : string) : route := mkRoute (Path t) [] false h.
Definition api (t method h : string) : route := mkRoute (Path t) [method] true h.

Definition registerPprofHandlers : list route :=
  [open_route "/debug/pprof/cmdline" "Cmdline"; open_route "/debug/pprof/profile" "Profile";
   open_route "/debug/pprof/symbol" "Symbol"; open_route "/debug/pprof/trace" "Trace";
   mkRoute (PathPrefix "/debug/pprof/") [] false "Index"].

Definition static_routes : list route :=
  [api "/favicon.ico" "GET" "FileServer"; mkRoute (PathPrefix "/static/") ["GET"] true "FileServer";
   mkRoute (Path "/") [] true "Redirect"].

Definition client_routes (store : bool) : list route :=
  [open_route "/healthz" "healthz";
   api "/api/reload" "GET" "Reload"; api "/api/stop" "POST" "Stop"; api "/api/status" "GET" "Status";
   api "/api/config" "GET" "GetConfig"; api "/api/config" "PUT" "PutConfig";
   api "/api/proxy/{name}/config" "GET" "GetProxyConfig"; api "/api/visitor/{name}/config" "GET" "GetVisitorConfig"] ++
  (if store then
     [api "/api/store/proxies" "GET" "ListStoreProxies"; api "/api/store/proxies" "POST" "CreateStoreProxy";
      api "/api/store/proxies/{name}" "GET" "GetStoreProxy"; api "/api/store/proxies/{name}" "PUT" "UpdateStoreProxy";
      api "/api/store/proxies/{name}" "DELETE" "DeleteStoreProxy";
      api "/api/store/visitors" "GET" "ListStoreVisitors"; api "/api/store/visitors" "POST" "CreateStoreVisitor";
      api "/api/store/visitors/{name}" "GET" "GetStoreVisitor"; api "/api/store/visitors/{name}" "PUT" "UpdateStoreVisitor";
      api "/api/store/visitors/{name}" "DELETE" "DeleteStoreVisitor"]
   else []) ++ static_routes.

Definition server_routes (EnablePrometheus : bool) : list route :=
  [open_route "/healthz" "healthz"] ++
  (if EnablePrometheus then [mkRoute (Path "/metrics") [] true "promhttp"] else []) ++
  [api "/api/serverinfo" "GET" "APIServerInfo"; api "/api/proxy/{type}" "GET" "APIProxyByType";
   api "/api/proxy/{type}/{name}" "GET" "APIProxyByTypeAndName"; api "/api/proxies/{name}" "GET" "APIProxyByName";
   api "/api/traffic/{name}" "GET" "APIProxyTraffic"; api "/api/clients" "GET" "APIClientList";
   api "/api/clients/{key}" "GET" "APIClientDetail"; api "/api/proxies" "DELETE" "DeleteProxies"] ++ static_routes.

(** The handlers of pprof are registered by [NewServer], before the others. *)
Definition all_routes (cfg : WebServerConfig) (rs : list route) : list route :=
  (if web_PprofEnable cfg then registerPprofHandlers else []) ++ rs.

(** ** A request *)

Inductive served := NotFound | Unauthorized | Runs (handler : string).

Section serve.
Context `{MuxLaws}.

Definition serve (cfg : WebServerConfig) (rs : list route) (method path authorization : string) : served :=
  match mux_find (all_routes cfg rs) method path with
  | None => NotFound
  | Some r => if rt_auth r && negb (Middleware (web_User cfg) (web_Password cfg) authorization) then Unauthorized
              else Runs (rt_handler r)
  end.

(** [MakeHTTPHandlerFunc]: status, whether the content type is set to JSON, and the body. *)
Inductive api_result := ApiError (code : option Z) (msg : string) | ApiNil | ApiText (s : string) | ApiObject (json : string).
Inductive body := Empty | Raw (s : string) | General (code : Z) (msg : string) | JSON (s : string).

Definition MakeHTTPHandlerFunc (r : api_result) : Z * bool * body :=
  match r with
  | ApiError code msg => let code := default 500 code in (code, true, General code msg)
  | ApiNil => (200, false, Empty)
  | ApiText s => (200, false, Raw s)
  | ApiObject j => (200, true, JSON j)
  end.

(** ** The library for the client's API *)

Record Client := mkClient { sdk_scheme : string; sdk_user : string; sdk_pwd : string }.

Inductive sdk_call := CStatus | CReload (strict : bool) | CStop | CGetConfig | CPutConfig (content : string).

Definition sdk_request (c : sdk_call) : string * string * string :=     (* method, path, query *)
  match c with
  | CStatus => ("GET", "/api/status", "")
  | CReload strict => ("GET", "/api/reload", if strict then "strictConfig=true" else "")
  | CStop => ("POST", "/api/stop", "")
  | CGetConfig => ("GET", "/api/config", "")
  | CPutConfig _ => ("PUT", "/api/config", "")
  end.

Definition sdk_handler (c : sdk_call) : string :=
  match c with
  | CStatus => "Status" | CReload _ => "Reload" | CStop => "Stop" | CGetConfig => "GetConfig" | CPutConfig _ => "PutConfig"
  end.

(** [setAuthHeader]: no header where neither is set. *)
Definition setAuthHeader (c : Client) : string :=
  if negb (sdk_user c =s? "") || negb (sdk_pwd c =s? "") then BasicAuth (sdk_user c) (sdk_pwd c) else "".

(** [do]: the body of an answer with status 200. *)
Definition sdk_do (answer : option (Z * string)) : result string string :=
  match answer with
  | None => Err "connection"
  | Some (code, b) => if code =? 200 then Ok b else Err ("api status code [" +:+ Itoa code +:+ "]")
  end.

(** [GetProxyStatus]: the first entry of the name, in the order the map gives its types. *)
Definition GetProxyStatus {A} (name_of : A → string) (all : list (string * list A)) (name : string) : option A :=
  find_first (λ a, name_of a =s? name) (all ≫= snd).

(** [NewAdminCommand] with its handlers: the client, made from the configuration of the file. *)
Definition admin_client (cfg : WebServerConfig) : option Client :=
  if web_Port cfg <=? 0 then None else Some (mkClient "http" (web_User cfg) (web_Password cfg)).
Definition server_scheme (cfg : WebServerConfig) : string := if web_TLS cfg then "https" else "http".

(** ** Properties *)

Lemma serve_first cfg rs method path auth h :
  serve cfg rs method path auth = Runs h →
  ∃ r, r ∈ all_routes cfg rs ∧ route_matches method path r = true ∧ rt_handler r = h ∧
    (rt_auth r = true → Middleware (web_User cfg) (web_Password cfg) auth = true).
Proof.
  unfold serve. rewrite mux_first. destruct (find_first _ _) as [r|] eqn:E; [|done].
  apply find_first_elem in E as [Hin Hm]. destruct (rt_auth r && _) eqn:Ea; [done|]. intros [= <-]. exists r.
  split_and!; [done..|]. intros Hr. rewrite Hr in Ea. simpl in Ea. by apply negb_false_iff in Ea.
Qed.

(** Nothing of either web server runs without its password, where one is set, but the check of
    health, which answers nothing, and the handlers of pprof. *)
Theorem password_guards cfg (client : bool) flag method path auth h :
  web_User cfg ≠ "" ∨ web_Password cfg ≠ "" →
  serve cfg (if client then client_routes flag else server_routes flag) method path auth = Runs h →
  req_BasicAuth auth ≠ Some (web_User cfg, web_Password cfg) →
  h = "healthz" ∨ web_PprofEnable cfg = true ∧ h ∈ rt_handler <$> registerPprofHandlers.
Proof.
  intros Hset (r & Hin & _ & <- & Hauth)%serve_first Hno.
  assert (rt_auth r = false) as Hr.
  { destruct (rt_auth r); [|done]. specialize (Hauth eq_refl). apply Middleware_spec in Hauth. naive_solver. }
  unfold all_routes in Hin. apply elem_of_app in Hin as [Hin|Hin].
  - right. destruct (web_PprofEnable cfg); [|by apply elem_of_nil in Hin]. split; [done|]. by apply list_elem_of_fmap_2.
  - left. assert (Forall (λ r, rt_auth r = false → rt_handler r = "healthz") (if client then client_routes flag else server_routes flag)) as Hall.
    { destruct client, flag; repeat constructor; done. }
    rewrite Forall_forall in Hall. by apply Hall.
Qed.

(** The calls of the library reach the handlers they mean, with the password of the
    configuration, unless the user name holds a colon. *)
Theorem sdk_calls_served cfg store c client :
  admin_client cfg = Some client → ContainsByte (web_User cfg) ":"%char = false →
  let '(method, path, _) := sdk_request c in
  serve cfg (client_routes store) method path (setAuthHeader client) = Runs (sdk_handler c).
Proof.
  unfold admin_client. destruct (web_Port cfg <=? 0); [done|]. intros [= <-] Hc.
  assert (Middleware (web_User cfg) (web_Password cfg) (setAuthHeader (mkClient "http" (web_User cfg) (web_Password cfg))) = true) as Hm.
  { apply Middleware_spec. unfold setAuthHeader. simpl.
    destruct (seqb_spec (web_User cfg) "") as [E1|E1], (seqb_spec (web_Password cfg) "") as [E2|E2]; simpl; [by left|right..];
      by apply basic_auth_roundtrip. }
  assert (∀ method path r rs, client_routes store = rs → find_first (route_matches method path) (all_routes cfg rs) = Some r →
    serve cfg (client_routes store) method path (setAuthHeader (mkClient "http" (web_User cfg) (web_Password cfg))) = Runs (rt_handler r)) as Hgo.
  { intros method path r rs <- Hf. unfold serve. rewrite mux_first, Hf, Hm. by rewrite andb_false_r. }
  destruct c as [|strict| | |content]; cbv beta iota zeta delta [sdk_request]; unfold all_routes in Hgo;
    (erewrite Hgo; [|reflexivity|destruct (web_PprofEnable cfg); reflexivity]); reflexivity.
Qed.

(** A name with a slash is two elements of a path: no route of the API reaches the proxy. *)
Lemma slash_name_unreachable cfg store method auth :
  serve cfg (client_routes store) method "/api/store/proxies/a/b" auth = NotFound.
Proof.
  unfold serve, all_routes. rewrite mux_first.
  assert (find_first (route_matches method "/api/store/proxies/a/b") ((if web_PprofEnable cfg then registerPprofHandlers else []) ++ client_routes store) = None) as ->; [|done].
  destruct (web_PprofEnable cfg), store; reflexivity.
Qed.

(** The library speaks plain HTTP: with TLS on the web server the commands do not reach it. *)
Lemma admin_never_https cfg client : admin_client cfg = Some client → is_Some (web_TLS cfg) → sdk_scheme client ≠ server_scheme cfg.
Proof.
  unfold admin_client, server_scheme. destruct (web_Port cfg <=? 0); [done|]. intros [= <-] [t ->]. done.
Qed.
End serve.
