(* ===== verification/VnetPlugin.v ===== *)
(** The visitor plugin of virtual networks, [src/pkg/plugin/visitor/virtual_net.go]: its loop,
    which registers a route with the controller for every pipe it makes, against [Close] and
    the read loops of the controller ([RegisterClientRoute], [readLoopClient] of
    [src/pkg/vnet/controller.go]).

    The loop, [Close], each read loop and the visitor that holds the other end of a pipe are
    goroutines; a step is what one of them does between two points where another can come in
    between.  Delays are those of [Vnet]. *)
From Stdlib Require Import ZArith Lia.
From stdpp Require Import base gmap list.
From S2P Require Import Prelude Vnet.
Local Open Scope list_scope.

(** ** State *)

Inductive loop_phase :=
| LTop                        (* a new [closeSignal], then the look at the context *)
| LChecked                    (* the context was alive *)
| LMade (p : nat)             (* the pipe is made and is [controllerConn] *)
| LWaiting (p : nat)          (* registered and sent to the visitor *)
| LDelay                      (* until the next attempt *)
| LEnded.

Inductive close_phase := CIdle | CCancelled | CUnregistered | CDone.

Record plugin := mkPlugin {
  vp_loop : loop_phase;
  vp_close : close_phase;
  vp_conn : option nat;          (* [controllerConn] *)
  vp_open : gset nat;            (* controller ends that are open *)
  vp_left : gset nat;            (* pipes whose other end the visitor has closed *)
  vp_route : option nat;         (* the pipe of the route under the visitor's name *)
  vp_readers : gset nat;         (* read loops of the controller *)
  vp_errors : Z;                 (* [consecutiveErrors] *)
  vp_next : nat }.

Definition Start : plugin := mkPlugin LTop CIdle None ∅ ∅ None ∅ 0 0.

Definition cancelled (s : plugin) : bool := match vp_close s with CIdle => false | _ => true end.

(** ** Operations *)

Definition cleanupControllerConn (s : plugin) : plugin :=
  match vp_conn s with
  | Some p => mkPlugin (vp_loop s) (vp_close s) None (vp_open s ∖ {[p]}) (vp_left s) (vp_route s) (vp_readers s) (vp_errors s) (vp_next s)
  | None => s
  end.

Definition set_loop (l : loop_phase) (s : plugin) : plugin :=
  mkPlugin l (vp_close s) (vp_conn s) (vp_open s) (vp_left s) (vp_route s) (vp_readers s) (vp_errors s) (vp_next s).
Definition set_close (c : close_phase) (s : plugin) : plugin :=
  mkPlugin (vp_loop s) c (vp_conn s) (vp_open s) (vp_left s) (vp_route s) (vp_readers s) (vp_errors s) (vp_next s).
Definition set_errors (n : Z) (s : plugin) : plugin :=
  mkPlugin (vp_loop s) (vp_close s) (vp_conn s) (vp_open s) (vp_left s) (vp_route s) (vp_readers s) n (vp_next s).

(** [net.Pipe] and [controllerConn]. *)
Definition make_pipe (s : plugin) : plugin :=
  let p := vp_next s in
  mkPlugin (LMade p) (vp_close s) (Some p) (vp_open s ∪ {[p]}) (vp_left s) (vp_route s) (vp_readers s) (vp_errors s) (S p).

(** [RegisterClientRoute] replaces the route of the name and starts a read loop. *)
Definition register (p : nat) (s : plugin) : plugin :=
  mkPlugin (LWaiting p) (vp_close s) (vp_conn s) (vp_open s) (vp_left s) (Some p) (vp_readers s ∪ {[p]}) (vp_errors s) (vp_next s).

Definition unregister (s : plugin) : plugin :=
  mkPlugin (vp_loop s) CUnregistered (vp_conn s) (vp_open s) (vp_left s) None (vp_readers s) (vp_errors s) (vp_next s).

(** The end of a read loop: the route, if it is still this pipe's, and the pipe. *)
Definition reader_ends (p : nat) (s : plugin) : plugin :=
  mkPlugin (vp_loop s) (vp_close s) (vp_conn s) (vp_open s ∖ {[p]}) (vp_left s)
    (if decide (vp_route s = Some p) then None else vp_route s) (vp_readers s ∖ {[p]}) (vp_errors s) (vp_next s).

(** ** Steps *)

Inductive pstep : plugin → plugin → Prop :=
| ps_check s : vp_loop s = LTop → cancelled s = false → pstep s (set_loop LChecked s)
| ps_stop s : vp_loop s = LTop → cancelled s = true → pstep s (set_loop LEnded (cleanupControllerConn s))
| ps_make s : vp_loop s = LChecked → pstep s (make_pipe s)
| ps_register s p : vp_loop s = LMade p → pstep s (register p s)
| ps_wait_stop s p : vp_loop s = LWaiting p → cancelled s = true → pstep s (set_loop LEnded (cleanupControllerConn s))
| ps_wait_closed s p err :
    vp_loop s = LWaiting p → p ∈ vp_left s →
    pstep s (set_loop LDelay (cleanupControllerConn (set_errors (snd (after_close err (vp_errors s))) s)))
| ps_delay_stop s : vp_loop s = LDelay → cancelled s = true → pstep s (set_loop LEnded s)
| ps_delay_over s : vp_loop s = LDelay → pstep s (set_loop LTop s)
| ps_cancel s : vp_close s = CIdle → pstep s (set_close CCancelled s)
| ps_unregister s : vp_close s = CCancelled → pstep s (unregister s)
| ps_cleanup s : vp_close s = CUnregistered → pstep s (set_close CDone (cleanupControllerConn s))
| ps_reader s p : p ∈ vp_readers s → p ∉ vp_open s ∨ p ∈ vp_left s → pstep s (reader_ends p s)
| ps_visitor s p :                                             (* the visitor closes its end *)
    (p < vp_next s)%nat → p ∉ vp_left s →
    pstep s (mkPlugin (vp_loop s) (vp_close s) (vp_conn s) (vp_open s) (vp_left s ∪ {[p]}) (vp_route s) (vp_readers s) (vp_errors s) (vp_next s)).

(** ** Invariant *)

Record pinv (s : plugin) : Prop := {
  pi_open : ∀ p, p ∈ vp_open s → vp_conn s = Some p;
  pi_conn : ∀ p, vp_conn s = Some p → vp_loop s = LMade p ∨ vp_loop s = LWaiting p;
  pi_route : ∀ p, vp_route s = Some p → p ∈ vp_readers s }.

Lemma pinv_Start : pinv Start.
Proof. by split. Qed.

Lemma pinv_loop s l :
  pinv s → (∀ p, vp_conn s = Some p → l = LMade p ∨ l = LWaiting p) → pinv (set_loop l s).
Proof. intros [I1 I2 I3] H. by split. Qed.

Lemma cleanup_none s : vp_conn (cleanupControllerConn s) = None.
Proof. unfold cleanupControllerConn. by destruct (vp_conn s) eqn:E. Qed.

Lemma pinv_cleanup s : pinv s → pinv (cleanupControllerConn s).
Proof.
  intros [I1 I2 I3]. unfold cleanupControllerConn. destruct (vp_conn s) as [p|] eqn:E; [|by split; rewrite ?E].
  split; simpl; [|done|done]. intros q [Hq Hne]%elem_of_difference. specialize (I1 _ Hq). set_solver.
Qed.

Lemma pstep_inv s s' : pstep s s' → pinv s → pinv s'.
Proof.
  destruct 1 as [s Hl _|s _ _|s Hl|s p Hl|s p _ _|s p err _ _|s Hl _|s Hl|s _|s _|s _|s p Hp _|s p _ _]; intros I.
  - apply pinv_loop; [done|]. intros q Hq. destruct (pi_conn _ I _ Hq); congruence.
  - apply pinv_loop; [by apply pinv_cleanup|]. intros q. by rewrite cleanup_none.
  - destruct I as [I1 I2 I3]. split; simpl; [|intros p [= <-]; by left|done].
    intros p [Hp|Hp]%elem_of_union; [|set_solver]. specialize (I2 _ (I1 _ Hp)). destruct I2; congruence.
  - destruct I as [I1 I2 I3]. split; simpl; [done| |].
    + intros q Hq. destruct (I2 _ Hq); right; congruence.
    + intros q [= <-]. set_solver.
  - apply pinv_loop; [by apply pinv_cleanup|]. intros q. by rewrite cleanup_none.
  - apply pinv_loop; [apply pinv_cleanup; destruct I; by split|]. intros q. by rewrite cleanup_none.
  - apply pinv_loop; [done|]. intros q Hq. destruct (pi_conn _ I _ Hq); congruence.
  - apply pinv_loop; [done|]. intros q Hq. destruct (pi_conn _ I _ Hq); congruence.
  - destruct I; by split.
  - destruct I as [I1 I2 I3]; by split.
  - pose proof (pinv_cleanup _ I) as [I1 I2 I3]. by split.
  - destruct I as [I1 I2 I3]. split; simpl; [set_solver|done|]. intros q Hq. case_decide as Hd; [done|].
    apply elem_of_difference. split; [by apply I3|]. intros ->%elem_of_singleton. done.
  - destruct I as [I1 I2 I3]; by split.
Qed.

(** *** [Close] *)

(** The steps the program itself takes; the visitor is outside. *)
Definition quiet (s : plugin) : Prop := ∀ s', pstep s s' → ∃ p, s' = mkPlugin (vp_loop s) (vp_close s) (vp_conn s) (vp_open s)
  (vp_left s ∪ {[p]}) (vp_route s) (vp_readers s) (vp_errors s) (vp_next s) ∧ p ∉ vp_left s.

Lemma step_not_quiet s s' : pstep s s' → vp_left s' = vp_left s → ¬ quiet s.
Proof. intros Hs Hl Hq. destruct (Hq _ Hs) as (p & -> & Hp). simpl in Hl. set_solver. Qed.

Lemma cleanup_left s : vp_left (cleanupControllerConn s) = vp_left s.
Proof. unfold cleanupControllerConn. by destruct (vp_conn s). Qed.

(** A plugin that is closed comes to rest with nothing left: whenever [Close] comes, also
    between the look at the context and the registration of the route, then once its goroutines
    have nothing more to do the loop has ended, every pipe is closed at the controller's end,
    and no route and no read loop is left. *)
Theorem closed_plugin_rests s :
  rtc pstep Start s → vp_close s ≠ CIdle → quiet s →
  vp_loop s = LEnded ∧ vp_close s = CDone ∧ vp_open s = ∅ ∧ vp_route s = None ∧ vp_readers s = ∅.
Proof.
  intros Hr Hc Hq. assert (pinv s) as I.
  { remember Start as s0. assert (pinv s0) as H0 by (subst; apply pinv_Start). clear Heqs0.
    induction Hr as [|x y z Hxy _ IH]; [done|]. apply IH; [done..|]. by eapply pstep_inv. }
  assert (cancelled s = true) as Hcan by (unfold cancelled; by destruct (vp_close s)).
  assert (vp_close s = CDone) as Hdone.
  { destruct (vp_close s) eqn:E; [done|exfalso..|done].
    - eapply step_not_quiet; [by apply ps_unregister|done|done].
    - eapply step_not_quiet; [by apply ps_cleanup|apply cleanup_left|done]. }
  assert (vp_loop s = LEnded) as Hend.
  { destruct (vp_loop s) as [| |p|p| |] eqn:E; [exfalso..|done].
    - eapply step_not_quiet; [by apply ps_stop|apply cleanup_left|done].
    - eapply step_not_quiet; [by apply ps_make|done|done].
    - eapply step_not_quiet; [by eapply ps_register|done|done].
    - eapply step_not_quiet; [by eapply ps_wait_stop|apply cleanup_left|done].
    - eapply step_not_quiet; [by apply ps_delay_stop|done|done]. }
  assert (vp_open s = ∅) as Hopen.
  { apply leibniz_equiv. intros p. split; [|set_solver]. intros Hp. specialize (pi_conn _ I _ (pi_open _ I _ Hp)) as [?|?]; congruence. }
  assert (vp_readers s = ∅) as Hread.
  { apply leibniz_equiv. intros p. split; [|set_solver]. intros Hp. exfalso.
    eapply step_not_quiet; [apply (ps_reader s p Hp); left; rewrite Hopen; set_solver|done|done]. }
  split_and!; [done..| |done]. destruct (vp_route s) as [p|] eqn:E; [|done]. apply (pi_route _ I) in E. set_solver.
Qed.

(** It comes to rest: after the cancellation every step of the program takes this number
    down. *)
Definition work_left (s : plugin) : nat :=
  2 * (match vp_loop s with LChecked => 5 | LMade _ => 4 | LWaiting _ => 3 | LDelay => 2 | LTop => 1 | LEnded => 0 end) +
  (match vp_close s with CIdle => 3 | CCancelled => 2 | CUnregistered => 1 | CDone => 0 end) + size (vp_readers s).

Lemma cleanup_same s : vp_loop (cleanupControllerConn s) = vp_loop s ∧ vp_close (cleanupControllerConn s) = vp_close s ∧
  vp_readers (cleanupControllerConn s) = vp_readers s.
Proof. unfold cleanupControllerConn. by destruct (vp_conn s). Qed.

Lemma closing_terminates s s' :
  cancelled s = true → pstep s s' → (work_left s' < work_left s)%nat ∨ ∃ p, vp_left s' = vp_left s ∪ {[p]} ∧ work_left s' = work_left s.
Proof.
  intros Hc Hs. unfold work_left.
  destruct Hs as [s Hl Hf|s Hl _|s Hl|s p Hl|s p Hl _|s p err Hl _|s Hl _|s Hl|s Hi|s Hi|s Hi|s p Hp _|s p _ _]; simpl;
    try (destruct (cleanup_same s) as (E1 & E2 & E3)); rewrite ?Hl, ?Hi; try congruence.
  - left. rewrite E2, E3. lia.
  - left. lia.
  - left. assert (size (vp_readers s ∪ {[p]}) <= size (vp_readers s) + 1)%nat; [|lia].
    rewrite size_union_alt. pose proof (subseteq_size ({[p]} ∖ vp_readers s) {[p]} ltac:(set_solver)) as Hz.
    rewrite size_singleton in Hz. lia.
  - left. rewrite E2, E3. lia.
  - left. destruct (cleanup_same (set_errors (snd (after_close err (vp_errors s))) s)) as (_ & F2 & F3). rewrite F2, F3. simpl. lia.
  - left. lia.
  - left. lia.
  - left. lia.
  - left. lia.
  - left. rewrite E1, E3. lia.
  - left. rewrite size_difference by set_solver. rewrite size_singleton.
    assert (size (vp_readers s) ≠ 0)%nat; [|lia]. intros Hz%size_empty_inv. set_solver.
  - right. by exists p.
Qed.

(** A route can be registered after [Close] has returned; the read loop takes it away. *)
Lemma route_after_close :
  ∃ s, rtc pstep Start s ∧ vp_close s = CDone ∧ vp_route s = Some 0%nat.
Proof.
  eexists. split; [|split].
  - eapply rtc_l; [by apply ps_check|]. eapply rtc_l; [by apply ps_cancel|]. eapply rtc_l; [by apply ps_unregister|].
    eapply rtc_l; [by apply ps_cleanup|]. eapply rtc_l; [by apply ps_make|]. eapply rtc_l; [by eapply ps_register|]. apply rtc_refl.
  - reflexivity.
  - reflexivity.
Qed.
