(* ===== verification/MetricsFanout.v ===== *)
(** The metrics of the server and where they go: the interface of
    [src/server/metrics/metrics.go] with its registration, the aggregation of
    [src/pkg/metrics/aggregate/server.go] and the Prometheus backend of
    [src/pkg/metrics/prometheus/server.go]. The backend in memory is [Metrics]. *)
From Stdlib Require Import ZArith Lia.
From stdpp Require Import base gmap strings list.
From S2P Require Import Prelude Metrics.
Local Open Scope string_scope.
Local Open Scope list_scope.
Local Open Scope Z_scope.

(** ** The interface [metrics.ServerMetrics] *)

(** A method may panic ([None]); the clock is read inside the methods, so the time of the
    call is an argument. *)
Class ServerMetrics (A : Type) := {
  NewClient : time → A → option A;
  CloseClient : time → A → option A;
  NewProxy : time → string → string → string → string → A → option A;
  CloseProxy : time → string → string → A → option A;
  OpenConn : time → string → string → A → option A;
  CloseConn : time → string → string → A → option A;
  TrafficIn : time → string → string → Z → A → option A;
  TrafficOut : time → string → string → Z → A → option A }.

(** The calls of the server on the interface. *)
Inductive call :=
  | CNewClient | CCloseClient
  | CNewProxy (name typ user clientID : string) | CCloseProxy (name typ : string)
  | COpen (name typ : string) | CClose (name typ : string)
  | CIn (name typ : string) (n : Z) | COut (name typ : string) (n : Z).

Definition invoke `{ServerMetrics A} (now : time) (c : call) (s : A) : option A :=
  match c with
  | CNewClient => NewClient now s
  | CCloseClient => CloseClient now s
  | CNewProxy name typ user id => NewProxy now name typ user id s
  | CCloseProxy name typ => CloseProxy now name typ s
  | COpen name typ => OpenConn now name typ s
  | CClose name typ => CloseConn now name typ s
  | CIn name typ n => TrafficIn now name typ n s
  | COut name typ n => TrafficOut now name typ n s
  end.

Fixpoint invoke_all `{ServerMetrics A} (cs : list (time * call)) (s : A) : option A :=
  match cs with
  | [] => Some s
  | (now, c) :: cs => s' ← invoke now c s; invoke_all cs s'
  end.

(** [noopServerMetrics]. *)
Definition noop_metrics : ServerMetrics unit := {|
  NewClient _ s := Some s; CloseClient _ s := Some s;
  NewProxy _ _ _ _ _ s := Some s; CloseProxy _ _ _ s := Some s;
  OpenConn _ _ _ s := Some s; CloseConn _ _ _ s := Some s;
  TrafficIn _ _ _ _ s := Some s; TrafficOut _ _ _ _ s := Some s |}.

(** ** The Prometheus client library *)

(** What the backend uses of [client_golang], which is not part of the repository: gauges
    and counters with labels, and the registry. A metric is found, or made on first use,
    by the values of its labels; the number of values must be the number of labels. *)
Record desc := mkDesc { d_fqName : string; d_labels : list string }.

Class PromLib := {
  Gauge : Type; NewGauge : desc → Gauge;
  Gauge_Inc : Gauge → Gauge; Gauge_Dec : Gauge → Gauge; Gauge_value : Gauge → Z;
  GaugeVec : Type; NewGaugeVec : desc → GaugeVec;
  GaugeVec_with : list string → (Gauge → Gauge) → GaugeVec → option GaugeVec;
  GaugeVec_value : GaugeVec → list string → Z; GaugeVec_labels : GaugeVec → list string;
  CounterVec : Type; NewCounterVec : desc → CounterVec;
  CounterVec_Add : list string → Z → CounterVec → option CounterVec;
  CounterVec_value : CounterVec → list string → Z; CounterVec_labels : CounterVec → list string;
  Registry : Type; registered : Registry → list string;
  MustRegister : desc → Registry → option Registry }.

(** The values are float64: whole numbers up to this one are exact. *)
Definition max_exact : Z := 2 ^ 53.

(** The documented behaviour of the library, where the values are exact. *)
Class PromLaws (P : PromLib) : Prop := {
  gauge_new d : Gauge_value (NewGauge d) = 0;
  gauge_inc g : Z.abs (Gauge_value g) < max_exact → Gauge_value (Gauge_Inc g) = Gauge_value g + 1;
  gauge_dec g : Z.abs (Gauge_value g) < max_exact → Gauge_value (Gauge_Dec g) = Gauge_value g - 1;
  gvec_new d ls : GaugeVec_value (NewGaugeVec d) ls = 0 ∧ GaugeVec_labels (NewGaugeVec d) = d_labels d;
  gvec_with ls f v : length ls = length (GaugeVec_labels v) →
    ∃ v' g, GaugeVec_with ls f v = Some v' ∧ Gauge_value g = GaugeVec_value v ls ∧
      GaugeVec_value v' ls = Gauge_value (f g) ∧
      (∀ ls', ls' ≠ ls → GaugeVec_value v' ls' = GaugeVec_value v ls') ∧
      GaugeVec_labels v' = GaugeVec_labels v;
  cvec_new d ls : CounterVec_value (NewCounterVec d) ls = 0 ∧ CounterVec_labels (NewCounterVec d) = d_labels d;
  cvec_add ls n v : length ls = length (CounterVec_labels v) → 0 <= n →
    0 <= CounterVec_value v ls → CounterVec_value v ls + n <= max_exact →
    ∃ v', CounterVec_Add ls n v = Some v' ∧
      CounterVec_value v' ls = CounterVec_value v ls + n ∧
      (∀ ls', ls' ≠ ls → CounterVec_value v' ls' = CounterVec_value v ls') ∧
      CounterVec_labels v' = CounterVec_labels v;
  cvec_neg ls n v : n < 0 → CounterVec_Add ls n v = None;
  register_new d r : d_fqName d ∉ registered r →
    ∃ r', MustRegister d r = Some r' ∧ registered r' = d_fqName d :: registered r }.

Section prom.
Context `{P : PromLib}.

Record promMetrics := mkPromMetrics {
  clientCount : Gauge; proxyCount : GaugeVec; proxyCountDetailed : GaugeVec;
  connectionCount : GaugeVec; trafficIn : CounterVec; trafficOut : CounterVec }.

Definition prom_NewClient (m : promMetrics) : option promMetrics :=
  Some (mkPromMetrics (Gauge_Inc (clientCount m)) (proxyCount m) (proxyCountDetailed m)
          (connectionCount m) (trafficIn m) (trafficOut m)).
Definition prom_CloseClient (m : promMetrics) : option promMetrics :=
  Some (mkPromMetrics (Gauge_Dec (clientCount m)) (proxyCount m) (proxyCountDetailed m)
          (connectionCount m) (trafficIn m) (trafficOut m)).

Definition prom_proxies (f : Gauge → Gauge) (name proxyType : string) (m : promMetrics)
    : option promMetrics :=
  c ← GaugeVec_with [proxyType] f (proxyCount m);
  d ← GaugeVec_with [proxyType; name] f (proxyCountDetailed m);
  Some (mkPromMetrics (clientCount m) c d (connectionCount m) (trafficIn m) (trafficOut m)).
Definition prom_NewProxy (name proxyType _user _id : string) : promMetrics → option promMetrics :=
  prom_proxies Gauge_Inc name proxyType.
Definition prom_CloseProxy (name proxyType : string) : promMetrics → option promMetrics :=
  prom_proxies Gauge_Dec name proxyType.

Definition prom_conns (f : Gauge → Gauge) (name proxyType : string) (m : promMetrics)
    : option promMetrics :=
  c ← GaugeVec_with [name; proxyType] f (connectionCount m);
  Some (mkPromMetrics (clientCount m) (proxyCount m) (proxyCountDetailed m) c
          (trafficIn m) (trafficOut m)).
Definition prom_OpenConnection : string → string → promMetrics → option promMetrics :=
  prom_conns Gauge_Inc.
Definition prom_CloseConnection : string → string → promMetrics → option promMetrics :=
  prom_conns Gauge_Dec.

Definition prom_AddTrafficIn (name proxyType : string) (trafficBytes : Z) (m : promMetrics)
    : option promMetrics :=
  c ← CounterVec_Add [name; proxyType] trafficBytes (trafficIn m);
  Some (mkPromMetrics (clientCount m) (proxyCount m) (proxyCountDetailed m)
          (connectionCount m) c (trafficOut m)).
Definition prom_AddTrafficOut (name proxyType : string) (trafficBytes : Z) (m : promMetrics)
    : option promMetrics :=
  c ← CounterVec_Add [name; proxyType] trafficBytes (trafficOut m);
  Some (mkPromMetrics (clientCount m) (proxyCount m) (proxyCountDetailed m)
          (connectionCount m) (trafficIn m) c).

Definition namespace : string := "frp".
Definition serverSubsystem : string := "server".
(** The full name the library builds: [namespace_subsystem_name]. *)
Definition fq (name : string) : string := namespace +:+ "_" +:+ serverSubsystem +:+ "_" +:+ name.

Definition client_desc : desc := mkDesc (fq "client_counts") [].
Definition proxy_desc : desc := mkDesc (fq "proxy_counts") ["type"].
Definition detailed_desc : desc := mkDesc (fq "proxy_counts_detailed") ["type"; "name"].
Definition conn_desc : desc := mkDesc (fq "connection_counts") ["name"; "type"].
Definition in_desc : desc := mkDesc (fq "traffic_in") ["name"; "type"].
Definition out_desc : desc := mkDesc (fq "traffic_out") ["name"; "type"].

Definition prom_newServerMetrics (r : Registry) : option (promMetrics * Registry) :=
  let m := mkPromMetrics (NewGauge client_desc) (NewGaugeVec proxy_desc)
             (NewGaugeVec detailed_desc) (NewGaugeVec conn_desc)
             (NewCounterVec in_desc) (NewCounterVec out_desc) in
  r ← MustRegister client_desc r;
  r ← MustRegister proxy_desc r;
  r ← MustRegister detailed_desc r;
  r ← MustRegister conn_desc r;
  r ← MustRegister in_desc r;
  r ← MustRegister out_desc r;
  Some (m, r).

#[export] Instance prom_metrics : ServerMetrics promMetrics := {|
  NewClient _ := prom_NewClient; CloseClient _ := prom_CloseClient;
  NewProxy _ := prom_NewProxy; CloseProxy _ := prom_CloseProxy;
  OpenConn _ := prom_OpenConnection; CloseConn _ := prom_CloseConnection;
  TrafficIn _ := prom_AddTrafficIn; TrafficOut _ := prom_AddTrafficOut |}.

(** *** The gauges and counters are the totals *)

(** What a call adds to each number. *)
Definition k_clients (c : call) : Z :=
  match c with CNewClient => 1 | CCloseClient => -1 | _ => 0 end.
Definition k_type (t : string) (c : call) : Z :=
  match c with
  | CNewProxy _ t' _ _ => if bool_decide (t' = t) then 1 else 0
  | CCloseProxy _ t' => if bool_decide (t' = t) then -1 else 0
  | _ => 0
  end.
Definition k_proxy (n t : string) (c : call) : Z :=
  match c with
  | CNewProxy n' t' _ _ => if bool_decide ([t'; n'] = [t; n]) then 1 else 0
  | CCloseProxy n' t' => if bool_decide ([t'; n'] = [t; n]) then -1 else 0
  | _ => 0
  end.
Definition k_conns (n t : string) (c : call) : Z :=
  match c with
  | COpen n' t' => if bool_decide ([n'; t'] = [n; t]) then 1 else 0
  | CClose n' t' => if bool_decide ([n'; t'] = [n; t]) then -1 else 0
  | _ => 0
  end.
Definition k_in (n t : string) (c : call) : Z :=
  match c with CIn n' t' b => if bool_decide ([n'; t'] = [n; t]) then b else 0 | _ => 0 end.
Definition k_out (n t : string) (c : call) : Z :=
  match c with COut n' t' b => if bool_decide ([n'; t'] = [n; t]) then b else 0 | _ => 0 end.

Definition sum (k : call → Z) (cs : list (time * call)) : Z := foldr (λ c s, k (snd c) + s) 0 cs.

(** The bytes of a call, and how far a call moves any number. *)
Definition bytes (c : call) : Z := match c with CIn _ _ b | COut _ _ b => b | _ => 1 end.

Definition admissible (c : call) : bool := 0 <=? bytes c.

Definition weight (cs : list (time * call)) : Z := sum bytes cs.

Record exact (cs : list (time * call)) (m : promMetrics) : Prop := {
  e_clients : Gauge_value (clientCount m) = sum k_clients cs;
  e_types t : GaugeVec_value (proxyCount m) [t] = sum (k_type t) cs;
  e_proxies n t : GaugeVec_value (proxyCountDetailed m) [t; n] = sum (k_proxy n t) cs;
  e_conns n t : GaugeVec_value (connectionCount m) [n; t] = sum (k_conns n t) cs;
  e_in n t : CounterVec_value (trafficIn m) [n; t] = sum (k_in n t) cs;
  e_out n t : CounterVec_value (trafficOut m) [n; t] = sum (k_out n t) cs;
  e_labels : GaugeVec_labels (proxyCount m) = d_labels proxy_desc ∧
    GaugeVec_labels (proxyCountDetailed m) = d_labels detailed_desc ∧
    GaugeVec_labels (connectionCount m) = d_labels conn_desc ∧
    CounterVec_labels (trafficIn m) = d_labels in_desc ∧
    CounterVec_labels (trafficOut m) = d_labels out_desc }.

Lemma sum_snoc k cs c : sum k (cs ++ [c]) = sum k cs + k (snd c).
Proof. unfold sum. induction cs as [|x cs IH]; simpl; lia. Qed.

Lemma sum_bounded k cs :
  (∀ c, admissible c = true → Z.abs (k c) <= bytes c) →
  Forall (λ c, admissible (snd c) = true) cs → Z.abs (sum k cs) <= weight cs.
Proof.
  intros Hk. unfold weight, sum. induction 1 as [|c cs Hc _ IH]; simpl; [lia|].
  specialize (Hk _ Hc). lia.
Qed.

Lemma sum_nonneg k cs :
  (∀ c, admissible c = true → 0 <= k c) →
  Forall (λ c, admissible (snd c) = true) cs → 0 <= sum k cs.
Proof.
  intros Hk. unfold sum. induction 1 as [|c cs Hc _ IH]; simpl; [lia|]. specialize (Hk _ Hc). lia.
Qed.

Ltac weigh := intros [] ?; simpl in *; unfold admissible in *; simpl in *; repeat case_bool_decide; lia.

Context `{HP : !PromLaws P}.

Lemma gvec_inc ls v :
  length ls = length (GaugeVec_labels v) → Z.abs (GaugeVec_value v ls) < max_exact →
  ∃ v', GaugeVec_with ls Gauge_Inc v = Some v' ∧ GaugeVec_labels v' = GaugeVec_labels v ∧
    ∀ ls', GaugeVec_value v' ls' = GaugeVec_value v ls' + (if bool_decide (ls = ls') then 1 else 0).
Proof.
  intros Hl Hv. destruct (gvec_with ls Gauge_Inc v Hl) as (v' & g & Hw & Hg & Hv' & Ho & Hlab).
  exists v'. split_and!; [done..|]. intros ls'. case_bool_decide as E; [subst ls'|].
  - rewrite Hv', gauge_inc; lia.
  - rewrite Ho; [lia|congruence].
Qed.

Lemma gvec_dec ls v :
  length ls = length (GaugeVec_labels v) → Z.abs (GaugeVec_value v ls) < max_exact →
  ∃ v', GaugeVec_with ls Gauge_Dec v = Some v' ∧ GaugeVec_labels v' = GaugeVec_labels v ∧
    ∀ ls', GaugeVec_value v' ls' = GaugeVec_value v ls' + (if bool_decide (ls = ls') then -1 else 0).
Proof.
  intros Hl Hv. destruct (gvec_with ls Gauge_Dec v Hl) as (v' & g & Hw & Hg & Hv' & Ho & Hlab).
  exists v'. split_and!; [done..|]. intros ls'. case_bool_decide as E; [subst ls'|].
  - rewrite Hv', gauge_dec; lia.
  - rewrite Ho; [lia|congruence].
Qed.

Lemma cvec_more ls n v :
  length ls = length (CounterVec_labels v) → 0 <= n → 0 <= CounterVec_value v ls →
  CounterVec_value v ls + n <= max_exact →
  ∃ v', CounterVec_Add ls n v = Some v' ∧ CounterVec_labels v' = CounterVec_labels v ∧
    ∀ ls', CounterVec_value v' ls' = CounterVec_value v ls' + (if bool_decide (ls = ls') then n else 0).
Proof.
  intros Hl Hn H0 Hv. destruct (cvec_add ls n v Hl Hn H0 Hv) as (v' & Hw & Hv' & Ho & Hlab).
  exists v'. split_and!; [done..|]. intros ls'. case_bool_decide as E; [by subst ls'|].
  rewrite Ho; [lia|congruence].
Qed.

(** Each number stays below the weight of the calls. *)
Lemma exact_bounds cs m :
  exact cs m → Forall (λ c, admissible (snd c) = true) cs →
  Z.abs (Gauge_value (clientCount m)) <= weight cs ∧
  (∀ t, Z.abs (GaugeVec_value (proxyCount m) [t]) <= weight cs) ∧
  (∀ n t, Z.abs (GaugeVec_value (proxyCountDetailed m) [t; n]) <= weight cs) ∧
  (∀ n t, Z.abs (GaugeVec_value (connectionCount m) [n; t]) <= weight cs) ∧
  (∀ n t, 0 <= CounterVec_value (trafficIn m) [n; t] <= weight cs) ∧
  (∀ n t, 0 <= CounterVec_value (trafficOut m) [n; t] <= weight cs).
Proof.
  intros [-> H1 H2 H3 H4 H5 _] Hcs.
  assert (∀ k, (∀ c, admissible c = true → 0 <= k c <= bytes c) → 0 <= sum k cs <= weight cs) as Hpos.
  { intros k Hk. assert (Z.abs (sum k cs) <= weight cs).
    { apply sum_bounded; [|done]. intros c Hc. specialize (Hk _ Hc). lia. }
    pose proof (sum_nonneg k cs (λ c Hc, proj1 (Hk c Hc)) Hcs). lia. }
  split_and!; intros; rewrite ?H1, ?H2, ?H3, ?H4, ?H5;
    (apply sum_bounded; [weigh|done]) || (apply Hpos; weigh).
Qed.

(** One call keeps the numbers exact and does not panic. *)
Lemma exact_step cs m now c :
  exact cs m → Forall (λ c, admissible (snd c) = true) (cs ++ [(now, c)]) →
  weight (cs ++ [(now, c)]) <= max_exact →
  ∃ m', invoke now c m = Some m' ∧ exact (cs ++ [(now, c)]) m'.
Proof.
  intros He [Hcs Hc]%Forall_app Hw. apply Forall_cons in Hc as [Hc _]. simpl in Hc.
  pose proof (exact_bounds cs m He Hcs) as (B0 & B1 & B2 & B3 & B4 & B5).
  unfold weight in *. rewrite sum_snoc in Hw. simpl in Hw. fold (weight cs) in *.
  destruct He as [E0 E1 E2 E3 E4 E5 (L1 & L2 & L3 & L4 & L5)].
  destruct c as [| |n t u i|n t|n t|n t|n t b|n t b]; simpl in *.
  - eexists. split; [done|]. split; intros; rewrite ?sum_snoc; simpl;
      rewrite ?gauge_inc, ?E0, ?E1, ?E2, ?E3, ?E4, ?E5 by lia; try lia; done.
  - eexists. split; [done|]. split; intros; rewrite ?sum_snoc; simpl;
      rewrite ?gauge_dec, ?E0, ?E1, ?E2, ?E3, ?E4, ?E5 by lia; try lia; done.
  - destruct (gvec_inc [t] (proxyCount m)) as (v1 & V1 & W1 & X1); [by rewrite L1|specialize (B1 t); lia|].
    destruct (gvec_inc [t; n] (proxyCountDetailed m)) as (v2 & V2 & W2 & X2);
      [by rewrite L2|specialize (B2 n t); lia|].
    eexists. split; [unfold prom_NewProxy, prom_proxies; by rewrite V1; simpl; rewrite V2|].
    split; intros; rewrite ?sum_snoc; simpl; rewrite ?X1, ?X2, ?W1, ?W2, ?E0, ?E1, ?E2, ?E3, ?E4, ?E5;
      try lia; try done.
    f_equal. repeat case_bool_decide; congruence.
  - destruct (gvec_dec [t] (proxyCount m)) as (v1 & V1 & W1 & X1); [by rewrite L1|specialize (B1 t); lia|].
    destruct (gvec_dec [t; n] (proxyCountDetailed m)) as (v2 & V2 & W2 & X2);
      [by rewrite L2|specialize (B2 n t); lia|].
    eexists. split; [unfold prom_CloseProxy, prom_proxies; by rewrite V1; simpl; rewrite V2|].
    split; intros; rewrite ?sum_snoc; simpl; rewrite ?X1, ?X2, ?W1, ?W2, ?E0, ?E1, ?E2, ?E3, ?E4, ?E5;
      try lia; try done.
    f_equal. repeat case_bool_decide; congruence.
  - destruct (gvec_inc [n; t] (connectionCount m)) as (v & V & W & X); [by rewrite L3|specialize (B3 n t); lia|].
    eexists. split; [unfold prom_OpenConnection, prom_conns; by rewrite V|].
    split; intros; rewrite ?sum_snoc; simpl; rewrite ?X, ?W, ?E0, ?E1, ?E2, ?E3, ?E4, ?E5; try lia; done.
  - destruct (gvec_dec [n; t] (connectionCount m)) as (v & V & W & X); [by rewrite L3|specialize (B3 n t); lia|].
    eexists. split; [unfold prom_CloseConnection, prom_conns; by rewrite V|].
    split; intros; rewrite ?sum_snoc; simpl; rewrite ?X, ?W, ?E0, ?E1, ?E2, ?E3, ?E4, ?E5; try lia; done.
  - apply Z.leb_le in Hc. simpl in Hc. specialize (B4 n t).
    destruct (cvec_more [n; t] b (trafficIn m)) as (v & V & W & X); [by rewrite L4|lia..|].
    eexists. split; [unfold prom_AddTrafficIn; by rewrite V|].
    split; intros; rewrite ?sum_snoc; simpl; rewrite ?X, ?W, ?E0, ?E1, ?E2, ?E3, ?E4, ?E5; try lia; done.
  - apply Z.leb_le in Hc. simpl in Hc. specialize (B5 n t).
    destruct (cvec_more [n; t] b (trafficOut m)) as (v & V & W & X); [by rewrite L5|lia..|].
    eexists. split; [unfold prom_AddTrafficOut; by rewrite V|].
    split; intros; rewrite ?sum_snoc; simpl; rewrite ?X, ?W, ?E0, ?E1, ?E2, ?E3, ?E4, ?E5; try lia; done.
Qed.

(** Registering one more metric whose name is new. *)
Lemma register_next d r names :
  registered r = names → bool_decide (d_fqName d ∈ names) = false →
  ∃ r', MustRegister d r = Some r' ∧ registered r' = d_fqName d :: names.
Proof.
  intros <- Hd%bool_decide_eq_false. by apply register_new.
Qed.

Lemma prom_new r :
  registered r = [] → ∃ m r', prom_newServerMetrics r = Some (m, r') ∧ exact [] m ∧
    registered r' = fq <$> ["traffic_out"; "traffic_in"; "connection_counts";
                            "proxy_counts_detailed"; "proxy_counts"; "client_counts"].
Proof.
  intros Hr. unfold prom_newServerMetrics.
  destruct (register_next client_desc r _ Hr eq_refl) as (r1 & -> & E1).
  destruct (register_next proxy_desc r1 _ E1 eq_refl) as (r2 & V2 & E2).
  destruct (register_next detailed_desc r2 _ E2 eq_refl) as (r3 & V3 & E3).
  destruct (register_next conn_desc r3 _ E3 eq_refl) as (r4 & V4 & E4).
  destruct (register_next in_desc r4 _ E4 eq_refl) as (r5 & V5 & E5).
  destruct (register_next out_desc r5 _ E5 eq_refl) as (r6 & V6 & E6).
  simpl. rewrite V2. simpl. rewrite V3. simpl. rewrite V4. simpl. rewrite V5. simpl. rewrite V6. simpl.
  eexists _, r6. split; [done|]. split; [|by rewrite E6].
  split; intros; simpl; rewrite ?gauge_new; try apply gvec_new; try apply cvec_new; [done|].
  split_and!; first [exact (proj2 (gvec_new _ [])) | exact (proj2 (cvec_new _ []))].
Qed.

Lemma exact_run pre cs m :
  exact pre m → Forall (λ c, admissible (snd c) = true) (pre ++ cs) →
  weight (pre ++ cs) <= max_exact → ∃ m', invoke_all cs m = Some m' ∧ exact (pre ++ cs) m'.
Proof.
  revert pre m. induction cs as [|[now c] cs IH]; intros pre m He Hf Hw.
  { exists m. by rewrite app_nil_r. }
  rewrite cons_middle, app_assoc in *. pose proof Hf as [Hf1 Hf2]%Forall_app.
  assert (weight (pre ++ [(now, c)]) <= max_exact) as Hw1.
  { assert (∀ a b, weight (a ++ b) = weight a + weight b) as Happ.
    { intros a b. unfold weight, sum. induction a; simpl in *; lia. }
    rewrite Happ in Hw. assert (0 <= weight cs); [|lia].
    apply sum_nonneg; [|done]. intros x Hx. by apply Z.leb_le in Hx. }
  destruct (exact_step pre m now c He Hf1 Hw1) as (m' & Hm & He').
  destruct (IH _ _ He' Hf Hw) as (m'' & Hm' & He''). exists m''. simpl. by rewrite Hm.
Qed.

(** ** The aggregation, and the registration *)

Variable midnight : time → time.

(** The backend in memory, [mem.ServerMetrics]; its counters do not tell types of
    connections and traffic apart. *)
#[export] Instance mem_metrics : ServerMetrics ServerStatistics := {|
  NewClient _ m := Some (sm_NewClient m);
  CloseClient _ m := Some (sm_CloseClient m);
  NewProxy now name typ user id m := Some (sm_NewProxy midnight now name typ user id m);
  CloseProxy now name typ m := Some (sm_CloseProxy now name typ m);
  OpenConn _ name _ m := Some (OpenConnection name m);
  CloseConn _ name _ m := Some (CloseConnection name m);
  TrafficIn now name _ n m := Some (AddTrafficIn midnight now name n m);
  TrafficOut now name _ n m := Some (AddTrafficOut midnight now name n m) |}.

(** The two backends are global objects; the aggregation holds references to them. *)
Inductive backend := MemBackend | PromBackend.

Record aggMetrics := mkAgg { ms : list backend; memObj : ServerStatistics; promObj : promMetrics }.

Definition agg_Add (sm : backend) (m : aggMetrics) : aggMetrics :=
  mkAgg (ms m ++ [sm]) (memObj m) (promObj m).
Definition EnableMem : aggMetrics → aggMetrics := agg_Add MemBackend.
Definition EnablePrometheus : aggMetrics → aggMetrics := agg_Add PromBackend.

(** A method called through a reference. *)
Definition on_backend (f : ServerStatistics → option ServerStatistics)
    (g : promMetrics → option promMetrics) (v : backend) (m : aggMetrics) : option aggMetrics :=
  match v with
  | MemBackend => x ← f (memObj m); Some (mkAgg (ms m) x (promObj m))
  | PromBackend => x ← g (promObj m); Some (mkAgg (ms m) (memObj m) x)
  end.

(** [for _, v := range m.ms { ... }] *)
Fixpoint each (body : backend → aggMetrics → option aggMetrics) (vs : list backend) (m : aggMetrics)
    : option aggMetrics :=
  match vs with [] => Some m | v :: vs => m' ← body v m; each body vs m' end.

Definition agg_NewClient now (m : aggMetrics) : option aggMetrics :=
  each (on_backend (NewClient now) (NewClient now)) (ms m) m.
Definition agg_CloseClient now (m : aggMetrics) : option aggMetrics :=
  each (on_backend (CloseClient now) (CloseClient now)) (ms m) m.
Definition agg_NewProxy now name proxyType user clientID (m : aggMetrics) : option aggMetrics :=
  each (on_backend (NewProxy now name proxyType user clientID) (NewProxy now name proxyType user clientID)) (ms m) m.
Definition agg_CloseProxy now name proxyType (m : aggMetrics) : option aggMetrics :=
  each (on_backend (CloseProxy now name proxyType) (CloseProxy now name proxyType)) (ms m) m.
Definition agg_OpenConnection now name proxyType (m : aggMetrics) : option aggMetrics :=
  each (on_backend (OpenConn now name proxyType) (OpenConn now name proxyType)) (ms m) m.
Definition agg_CloseConnection now name proxyType (m : aggMetrics) : option aggMetrics :=
  each (on_backend (CloseConn now name proxyType) (CloseConn now name proxyType)) (ms m) m.
Definition agg_AddTrafficIn now name proxyType trafficBytes (m : aggMetrics) : option aggMetrics :=
  each (on_backend (TrafficIn now name proxyType trafficBytes) (TrafficIn now name proxyType trafficBytes)) (ms m) m.
Definition agg_AddTrafficOut now name proxyType trafficBytes (m : aggMetrics) : option aggMetrics :=
  each (on_backend (TrafficOut now name proxyType trafficBytes) (TrafficOut now name proxyType trafficBytes)) (ms m) m.

#[export] Instance agg_metrics : ServerMetrics aggMetrics := {|
  NewClient := agg_NewClient; CloseClient := agg_CloseClient;
  NewProxy := agg_NewProxy; CloseProxy := agg_CloseProxy;
  OpenConn := agg_OpenConnection; CloseConn := agg_CloseConnection;
  TrafficIn := agg_AddTrafficIn; TrafficOut := agg_AddTrafficOut |}.

(** [metrics.Server]: the object that does nothing, until the first [Register]. *)
Inductive server_var := Noop | Registered (m : aggMetrics).

(** [registerMetrics.Do]: only the first registration counts. *)
Definition Register (m : aggMetrics) (s : bool * server_var) : bool * server_var :=
  let '(done, v) := s in if (done : bool) then s else (true, Registered m).

(** [aggregate]'s [init], then [NewService]: line 150 of [server/service.go]. *)
Definition enable (webPort : Z) (prom : bool) (m : aggMetrics) : aggMetrics :=
  if 0 <? webPort then let m := EnableMem m in if prom then EnablePrometheus m else m else m.

(** A call as the backend in memory sees it. *)
Definition to_mop (c : time * call) : mop :=
  match snd c with
  | CNewClient => MNewClient
  | CCloseClient => MCloseClient
  | CNewProxy name typ user id => MNewProxy (fst c) name typ user id
  | CCloseProxy name typ => MCloseProxy (fst c) name typ
  | COpen name _ => MOpen name
  | CClose name _ => MCloseConn name
  | CIn name _ n => MIn (fst c) name n
  | COut name _ n => MOut (fst c) name n
  end.

Variable Format : time → string.

Lemma mem_invoke now c m : invoke now c m = Some (run_mop midnight Format m (to_mop (now, c))).
Proof. by destruct c. Qed.

Lemma agg_invoke now c m :
  invoke now c m = each (on_backend (invoke now c) (invoke now c)) (ms m) m.
Proof. by destruct c. Qed.

Lemma agg_none cs m : ms m = [] → invoke_all cs m = Some m.
Proof. intros Hm. induction cs as [|[now c] cs IH]; simpl; [done|]. by rewrite agg_invoke, Hm. Qed.

Lemma agg_mem cs m :
  ms m = [MemBackend] →
  invoke_all cs m = Some (mkAgg [MemBackend] (foldl (run_mop midnight Format) (memObj m) (to_mop <$> cs)) (promObj m)).
Proof.
  revert m. induction cs as [|[now c] cs IH]; intros [? mem p] Hm; simpl in Hm; subst; [done|].
  cbn [invoke_all fmap list_fmap foldl memObj promObj]. rewrite agg_invoke.
  cbn [ms each on_backend memObj promObj]. rewrite mem_invoke. simpl. by rewrite IH.
Qed.

Lemma agg_both cs m p' :
  ms m = [MemBackend; PromBackend] → invoke_all cs (promObj m) = Some p' →
  invoke_all cs m = Some (mkAgg (ms m) (foldl (run_mop midnight Format) (memObj m) (to_mop <$> cs)) p').
Proof.
  revert m. induction cs as [|[now c] cs IH]; intros [? mem p] Hm Hp; simpl in Hm; subst.
  { simpl in *. by simplify_eq. }
  cbn [invoke_all fmap list_fmap foldl memObj promObj] in *. rewrite agg_invoke.
  cbn [ms each on_backend memObj promObj]. rewrite mem_invoke.
  destruct (invoke now c p) as [q|] eqn:E; simpl in Hp; [|done]. simpl. rewrite E. simpl.
  by apply (IH (mkAgg [MemBackend; PromBackend] _ q)).
Qed.

Lemma total_sum d k cs :
  (∀ c, d (to_mop c) = k (snd c)) → total d (to_mop <$> cs) = sum k cs.
Proof.
  intros H. unfold total, sum. induction cs as [|c cs IH]; [done|].
  cbn [fmap list_fmap foldr] in *. rewrite H. f_equal. exact IH.
Qed.

(** With the web server enabled, whatever the server reports reaches every enabled backend,
    in order and exactly once: the statistics in memory are those of the same events, the
    numbers of Prometheus are exact, and the dashboard shows the numbers of Prometheus at
    32 bits. No call panics. *)
Theorem metrics_fanout r p r' start webPort cs :
  registered r = [] → prom_newServerMetrics r = Some (p, r') → 0 < webPort →
  Forall (λ c, admissible (snd c) = true) cs → weight cs <= max_exact →
  ∃ mem prom,
    invoke_all cs (enable webPort true (mkAgg [] (newServerMetrics midnight start) p)) =
      Some (mkAgg [MemBackend; PromBackend] mem prom) ∧
    mem = foldl (run_mop midnight Format) (newServerMetrics midnight start) (to_mop <$> cs) ∧
    exact cs prom ∧
    ClientCounts mem = wrap32 (Gauge_value (clientCount prom)) ∧
    ∀ t, type_balanced t (to_mop <$> cs) →
      default 0 (ProxyTypeCounts mem !! t) = wrap32 (GaugeVec_value (proxyCount prom) [t]).
Proof.
  intros Hr Hp Hport Hf Hw. destruct (prom_new r Hr) as (p0 & r0 & Hp0 & He & _). simplify_eq.
  destruct (exact_run [] cs p He Hf Hw) as (prom & Hrun & Hex). simpl in Hex.
  eexists _, prom. unfold enable. rewrite (proj2 (Z.ltb_lt _ _)) by done.
  split; [by apply (agg_both cs (mkAgg [MemBackend; PromBackend] _ _))|].
  split; [done|]. split; [done|]. split.
  - rewrite (e_clients _ _ Hex). erewrite <- total_sum; [apply gauges_run|]. by intros [? []].
  - intros t Hb%(type_count_run midnight Format t start). unfold type_count in Hb. rewrite (e_types _ _ Hex).
    erewrite <- (total_sum (d_type t)); [|by intros [? []]].
    destruct (ProxyTypeCounts _ !! t); simpl; [done|by rewrite Hb].
Qed.

(** Traffic of a negative length would stop the server: Prometheus refuses it. *)
Lemma negative_traffic_panics m now name typ n :
  PromBackend ∈ ms m → n < 0 → invoke now (CIn name typ n) m = None.
Proof.
  intros Hin Hn. rewrite agg_invoke. generalize m at 2. revert Hin.
  induction (ms m) as [|v vs IH]; intros Hin [l mem p]; [by apply not_elem_of_nil in Hin|].
  apply elem_of_cons in Hin as [<-|Hin].
  - simpl. unfold prom_AddTrafficIn. by rewrite cvec_neg.
  - destruct v; simpl; [by apply IH|]. unfold prom_AddTrafficIn. by rewrite cvec_neg.
Qed.
End prom.

(** ** A library for the witness: maps from label values to numbers *)

Definition upd_vec (f : Z → Z) (ls : list string) (v : list string * gmap (list string) Z) :=
  (fst v, <[ls := f (default 0 (snd v !! ls))]> (snd v)).

Definition map_lib : PromLib := {|
  Gauge := Z; NewGauge _ := 0; Gauge_Inc := Z.succ; Gauge_Dec := Z.pred; Gauge_value g := g;
  GaugeVec := list string * gmap (list string) Z; NewGaugeVec d := (d_labels d, ∅);
  GaugeVec_with ls f v :=
    if bool_decide (length ls = length (fst v)) then Some (upd_vec f ls v) else None;
  GaugeVec_value v ls := default 0 (snd v !! ls); GaugeVec_labels := fst;
  CounterVec := list string * gmap (list string) Z; NewCounterVec d := (d_labels d, ∅);
  CounterVec_Add ls n v :=
    if bool_decide (length ls = length (fst v)) && (0 <=? n) then Some (upd_vec (Z.add n) ls v) else None;
  CounterVec_value v ls := default 0 (snd v !! ls); CounterVec_labels := fst;
  Registry := list string; registered r := r;
  MustRegister d r := if bool_decide (d_fqName d ∈ r) then None else Some (d_fqName d :: r) |}.

Lemma upd_vec_value f ls v ls' :
  default 0 (snd (upd_vec f ls v) !! ls') =
  if bool_decide (ls' = ls) then f (default 0 (snd v !! ls)) else default 0 (snd v !! ls').
Proof.
  unfold upd_vec. simpl. case_bool_decide; [subst; by rewrite lookup_insert_eq|by rewrite lookup_insert_ne].
Qed.

Lemma map_lib_laws : PromLaws map_lib.
Proof.
  split; simpl; try done; try lia; intros.
  - eexists _, (default 0 (snd v !! ls)). rewrite bool_decide_eq_true_2 by done. split; [done|].
    split; [done|]. rewrite upd_vec_value, bool_decide_eq_true_2 by done. split; [done|].
    split; [|done]. intros ls' Hne. by rewrite upd_vec_value, bool_decide_eq_false_2.
  - eexists. rewrite bool_decide_eq_true_2, (proj2 (Z.leb_le _ _)) by done. split; [done|].
    rewrite upd_vec_value, bool_decide_eq_true_2 by done. split; [lia|].
    split; [|done]. intros ls' Hne. by rewrite upd_vec_value, bool_decide_eq_false_2.
  - by rewrite (proj2 (Z.leb_gt _ _)), andb_false_r.
  - eexists. by rewrite bool_decide_eq_false_2.
Qed.

Definition sample_calls : list (time * call) :=
  [(1, CNewClient); (2, CNewProxy "ssh" "tcp" "bob" "c1"); (3, COpen "ssh" "tcp");
   (4, CIn "ssh" "tcp" 70); (5, COut "ssh" "tcp" 30); (6, CClose "ssh" "tcp")].

Lemma metrics_fanout_witness :
  ∃ mem prom p,
    invoke_all (H := agg_metrics (P := map_lib) utc_midnight) sample_calls
      (enable (P := map_lib) 7500 true (mkAgg (P := map_lib) [] (newServerMetrics utc_midnight 0) p)) =
      Some (mkAgg (P := map_lib) [MemBackend; PromBackend] mem prom) ∧
    ClientCounts mem = 1 ∧ CounterVec_value (PromLib := map_lib) (trafficIn prom) ["ssh"; "tcp"] = 70.
Proof.
  destruct (prom_new (P := map_lib) (HP := map_lib_laws) [] eq_refl) as (p & r' & Hp & _).
  destruct (metrics_fanout (P := map_lib) (HP := map_lib_laws) utc_midnight no_format [] p r' 0 7500
    sample_calls eq_refl Hp eq_refl ltac:(repeat constructor) ltac:(discriminate))
    as (mem & prom & Hrun & _ & Hex & Hc & _).
  exists mem, prom, p. split; [exact Hrun|]. split.
  - rewrite Hc, (e_clients _ _ Hex). reflexivity.
  - rewrite (e_in _ _ Hex "ssh" "tcp"). reflexivity.
Defined.
