(* ===== verification/MsgCodec.v ===== *)
(** The messages on the wire: the table of types and the controller of [src/pkg/msg/msg.go] and
    [src/pkg/msg/ctl.go], the encryption of the messages between the two sides of a hole in
    [src/pkg/nathole/utils.go], and their sending ([sendSidMessage] of [nathole.go]). *)
From Stdlib Require Import ZArith Lia Ascii String.
From stdpp Require Import base strings gmap list.
From S2P Require Import Prelude GoStrings Auth Nathole MakeHole.
Local Open Scope string_scope.
Local Open Scope list_scope.

(** ** The types of messages *)

Inductive kind :=
  | KLogin | KLoginResp | KNewProxy | KNewProxyResp | KCloseProxy | KNewWorkConn | KReqWorkConn
  | KStartWorkConn | KNewVisitorConn | KNewVisitorConnResp | KPing | KPong | KUDPPacket
  | KNatHoleVisitor | KNatHoleClient | KNatHoleResp | KNatHoleSid | KNatHoleReport.

#[export] Instance kind_eq_dec : EqDecision kind.
Proof. solve_decision. Defined.

Definition all_kinds : list kind :=
  [KLogin; KLoginResp; KNewProxy; KNewProxyResp; KCloseProxy; KNewWorkConn; KReqWorkConn;
   KStartWorkConn; KNewVisitorConn; KNewVisitorConnResp; KPing; KPong; KUDPPacket;
   KNatHoleVisitor; KNatHoleClient; KNatHoleResp; KNatHoleSid; KNatHoleReport].

Lemma all_kinds_all k : k ∈ all_kinds.
Proof. destruct k; unfold all_kinds; set_solver. Qed.

Definition TypeByte (k : kind) : ascii :=
  match k with
  | KLogin => "o" | KLoginResp => "1" | KNewProxy => "p" | KNewProxyResp => "2"
  | KCloseProxy => "c" | KNewWorkConn => "w" | KReqWorkConn => "r" | KStartWorkConn => "s"
  | KNewVisitorConn => "v" | KNewVisitorConnResp => "3" | KPing => "h" | KPong => "4"
  | KUDPPacket => "u" | KNatHoleVisitor => "i" | KNatHoleClient => "n" | KNatHoleResp => "m"
  | KNatHoleSid => "5" | KNatHoleReport => "6"
  end%char.

(** A Go map: the order in which it is iterated over is not determined. *)
Definition msgTypeMap : list (ascii * kind) := (λ k, (TypeByte k, k)) <$> all_kinds.

(** What the code uses of the controller of [golib/msg/json]: [RegisterMsg] enters a type in two
    tables; a message is framed with the byte of its type, and read back as the type of the byte. *)
Class MsgLib := {
  MsgCtl : Type;
  NewMsgCtl : MsgCtl;
  RegisterMsg : ascii → kind → MsgCtl → MsgCtl;
  typeOf : MsgCtl → ascii → option kind;
  byteOf : MsgCtl → kind → option ascii;
  (* the message as JSON *)
  lib_WriteMsg : MsgCtl → kind → string → option string;
  lib_ReadMsg : MsgCtl → string → option (kind * string);
  maxLen : nat }.

Class MsgLaws (L : MsgLib) : Prop := {
  register_type b k c b' : typeOf (RegisterMsg b k c) b' = if bool_decide (b' = b) then Some k else typeOf c b';
  register_byte b k c k' : byteOf (RegisterMsg b k c) k' = if bool_decide (k' = k) then Some b else byteOf c k';
  write_unknown c k s : byteOf c k = None → lib_WriteMsg c k s = None;
  write_read c k s b : byteOf c k = Some b → String.length s <= maxLen →
    ∃ w, lib_WriteMsg c k s = Some w ∧ lib_ReadMsg c w = (λ k', (k', s)) <$> typeOf c b }.

Section ctl.
Context `{L : MsgLib}.

(** [init] with the order of one iteration over the map. *)
Definition init_ctl (order : list (ascii * kind)) : MsgCtl :=
  foldl (λ c e, RegisterMsg e.1 e.2 c) NewMsgCtl order.

Definition WriteMsg (c : MsgCtl) (k : kind) (json : string) : option string := lib_WriteMsg c k json.
Definition ReadMsg (c : MsgCtl) (w : string) : option (kind * string) := lib_ReadMsg c w.
(** The content, to be decoded into the message of the caller; the type is only looked up. *)
Definition ReadMsgInto (c : MsgCtl) (w : string) : option string := snd <$> lib_ReadMsg c w.

Context `{HL : !MsgLaws L}.

Lemma TypeByte_inj k k' : TypeByte k = TypeByte k' → k = k'.
Proof. by destruct k, k'. Qed.

Lemma elem_msgTypeMap b k : (b, k) ∈ msgTypeMap ↔ b = TypeByte k.
Proof.
  unfold msgTypeMap. rewrite list_elem_of_fmap. split; [by intros (? & [= -> ->] & _)|].
  intros ->. exists k. split; [done|apply all_kinds_all].
Qed.

(** The tables after some registrations, none of which contradicts another. *)
Lemma init_tables (order : list (ascii * kind)) c :
  (∀ b k, (b, k) ∈ order → b = TypeByte k) →
  let c' := foldl (λ c e, RegisterMsg e.1 e.2 c) c order in
  (∀ k, byteOf c' k = if bool_decide (k ∈ order.*2) then Some (TypeByte k) else byteOf c k) ∧
  (∀ k, typeOf c' (TypeByte k) = if bool_decide (k ∈ order.*2) then Some k else typeOf c (TypeByte k)).
Proof.
  revert c. induction order as [|[b k0] order IH]; intros c Hin; simpl; [done|].
  destruct (IH (RegisterMsg b k0 c)) as [Hb Ht]; [intros; apply Hin; set_solver|].
  pose proof (Hin b k0 ltac:(set_solver)) as ->.
  assert (∀ k, k ∈ k0 :: order.*2 ↔ k = k0 ∨ k ∈ order.*2) as Hc by (intros; apply elem_of_cons).
  assert (∀ k, TypeByte k = TypeByte k0 ↔ k = k0) as Hinj by (split; [apply TypeByte_inj|by intros ->]).
  split; intros k; [rewrite Hb, register_byte|rewrite Ht, register_type];
    rewrite ?(bool_decide_ext _ _ (Hinj k)), (bool_decide_ext _ _ (Hc k));
    destruct (decide (k ∈ order.*2)) as [Hi|Hi], (decide (k = k0)) as [->|Hk];
    rewrite ?(bool_decide_eq_true_2 (_ ∈ _)), ?(bool_decide_eq_false_2 (_ ∈ _)) by done;
    repeat case_bool_decide; tauto.
Qed.

(** The controller that [init] makes has every type. *)
Lemma init_complete order :
  order ≡ₚ msgTypeMap →
  ∀ k, ∃ b, byteOf (init_ctl order) k = Some b ∧ typeOf (init_ctl order) b = Some k.
Proof.
  intros Hp k. destruct (init_tables order NewMsgCtl) as [Hb Ht].
  { intros b k' Hin. rewrite Hp in Hin. by apply elem_msgTypeMap. }
  assert (k ∈ order.*2) as Hk.
  { apply list_elem_of_fmap. exists (TypeByte k, k). split; [done|]. rewrite Hp. by apply elem_msgTypeMap. }
  exists (TypeByte k). unfold init_ctl. rewrite Hb, Ht. by rewrite bool_decide_eq_true_2.
Qed.

(** A message of any type is read back as it was written, whatever the order in which the table was
    gone through when the controller was set up. *)
Theorem messages_roundtrip order k json :
  order ≡ₚ msgTypeMap → String.length json <= maxLen →
  ∃ w, WriteMsg (init_ctl order) k json = Some w ∧
    ReadMsg (init_ctl order) w = Some (k, json) ∧ ReadMsgInto (init_ctl order) w = Some json.
Proof.
  intros Hp Hlen. unfold WriteMsg, ReadMsg, ReadMsgInto.
  destruct (init_complete order Hp k) as (b & Hb & Ht).
  destruct (write_read _ k json b Hb Hlen) as (w & Hw & Hr). exists w. by rewrite Hr, Ht.
Qed.
End ctl.

(** ** Encrypted messages *)

(** [crypto.Encode] and [crypto.Decode] of [golib]. *)
Class CryptoLib := {
  crypto_Encode : string → string → option string;
  crypto_Decode : string → string → option string;
  crypto_decode_encode data key enc : crypto_Encode data key = Some enc → crypto_Decode enc key = Some data }.

(** [encoding/json] on the fields of [NatHoleSid]. *)
Class SidJson := { Marshal : NatHoleSid → string; Unmarshal : string → option NatHoleSid }.

(** JSON keeps the message: its strings are valid UTF-8. *)
Definition json_safe `{SidJson} (m : NatHoleSid) : Prop := Unmarshal (Marshal m) = Some m.

Section sid.
Context `{L : MsgLib} `{HL : !MsgLaws L} `{C : CryptoLib} `{J : SidJson}.
Variable ctl : MsgCtl.

Definition EncodeMessage (key : string) (m : NatHoleSid) : option string :=
  buffer ← WriteMsg ctl KNatHoleSid (Marshal m); crypto_Encode buffer key.

Definition DecodeMessageInto (key data : string) : option NatHoleSid :=
  buf ← crypto_Decode data key; json ← ReadMsgInto ctl buf; Unmarshal json.

(** *** [sendSidMessage] *)

Context {Addr : Type}.
Variable resolve : string → option Addr. (* [net.ResolveUDPAddr] on udp4 *)
Variable NewTransactionID_ : string.    (* what [NewTransactionID] would return *)

(** A socket: its TTL, and the datagrams written to it with the TTL they left with. *)
Record udpConn := mkUdpConn { c_ttl : Z; c_sent : list (Addr * string * Z) }.

(** The answers of the system to the calls of one [sendSidMessage]. *)
Record answers := mkAnswers { get_ok : bool; set_ok : bool; restore_ok : bool; write_ok : bool }.

Definition set_ttl (ok : bool) (ttl : Z) (c : udpConn) : udpConn :=
  if ok then mkUdpConn ttl (c_sent c) else c.
Definition write_to (ok : bool) (raddr : Addr) (buf : string) (c : udpConn) : udpConn :=
  if ok then mkUdpConn (c_ttl c) (c_sent c ++ [(raddr, buf, c_ttl c)]) else c.

(** [nonce] is [rand.IntN(20)]. The first component is whether the call returned no error. *)
Definition sendSidMessage (os : answers) (nonce : nat) (key sid transactionID addr : string) (ttl : Z)
    (conn : udpConn) : bool * udpConn :=
  match resolve addr with
  | None => (false, conn)
  | Some raddr =>
      let transactionID := if transactionID =s? "" then NewTransactionID_ else transactionID in
      let m := mkSid transactionID sid false (String.concat "" (replicate nonce "0")) in
      match EncodeMessage key m with
      | None => (false, conn)
      | Some buf =>
          if (0 <? ttl)%Z then
            if negb (get_ok os) then (false, conn) else
            let original := c_ttl conn in
            let conn := set_ttl (set_ok os) ttl conn in
            let conn := write_to (write_ok os) raddr buf conn in
            (write_ok os, if set_ok os then set_ttl (restore_ok os) original conn else conn)
          else (write_ok os, write_to (write_ok os) raddr buf conn)
      end
  end.

(** The message a call would send. *)
Definition sid_message (nonce : nat) (sid transactionID : string) : NatHoleSid :=
  mkSid (if transactionID =s? "" then NewTransactionID_ else transactionID) sid false
    (String.concat "" (replicate nonce "0")).

(** The socket is as before but for at most one datagram; on success it is the message, encrypted,
    to the resolved address, with the low TTL when the system accepted that one, and the TTL of the
    socket when it did not. *)
Lemma sendSidMessage_spec os nonce key sid tid addr ttl conn ok conn' :
  sendSidMessage os nonce key sid tid addr ttl conn = (ok, conn') → restore_ok os = true →
  c_ttl conn' = c_ttl conn ∧
  (ok = false → c_sent conn' = c_sent conn) ∧
  (ok = true → ∃ raddr buf, resolve addr = Some raddr ∧
     EncodeMessage key (sid_message nonce sid tid) = Some buf ∧
     c_sent conn' = c_sent conn ++
       [(raddr, buf, if (0 <? ttl)%Z && set_ok os then ttl else c_ttl conn)]).
Proof.
  unfold sendSidMessage. fold (sid_message nonce sid tid). intros H Hr.
  destruct (resolve addr) as [raddr|]; [|by simplify_eq].
  destruct (EncodeMessage key _) as [buf|] eqn:E; [|by simplify_eq].
  destruct os as [g s r w]. simpl in *. subst r.
  destruct (0 <? ttl)%Z; [destruct g; simpl in H|];
    destruct s, w; simpl in H; simplify_eq/=; split_and!; try done; eauto.
Qed.

Lemma sid_decode_encode key m buf :
  (∀ k, ∃ b, byteOf ctl k = Some b ∧ typeOf ctl b = Some k) →
  json_safe m → String.length (Marshal m) <= maxLen →
  EncodeMessage key m = Some buf → DecodeMessageInto key buf = Some m.
Proof.
  intros Hctl Hj Hlen. unfold EncodeMessage, DecodeMessageInto, WriteMsg, ReadMsgInto.
  destruct (Hctl KNatHoleSid) as (b & Hb & Ht).
  destruct (write_read ctl KNatHoleSid (Marshal m) b Hb Hlen) as (w & -> & Hr). simpl. intros Hc.
  rewrite (crypto_decode_encode _ _ _ Hc). simpl. rewrite Hr, Ht. simpl. exact Hj.
Qed.
End sid.

(** ** The handshake of the two sides *)

Section handshake.
Context `{L : MsgLib} `{HL : !MsgLaws L} `{C : CryptoLib} `{J : SidJson} {Addr : Type}.

(** A message JSON can carry and the controller accepts, which can be encrypted with the key. *)
Definition can_send (ctl : MsgCtl) (key : string) (m : NatHoleSid) : Prop :=
  json_safe m ∧ String.length (Marshal m) <= maxLen ∧ is_Some (EncodeMessage ctl key m).

Lemma wait_skips (dec : string → option NatHoleSid) enc role sid (pre : list (Addr * string)) rest :
  Forall (λ p, take_packet dec enc role sid p.2 = None) pre →
  waitDetectMessage dec enc role sid (pre ++ rest) = waitDetectMessage dec enc role sid rest.
Proof. induction 1 as [|[a b] pre H _ IH]; [done|]. simpl in *. by rewrite H. Qed.

(** The two sides meet: the datagram that [sendSidMessage] wrote ends the wait of the receiver, which
    learns the address it came from and answers; the answer ends the wait of the sender. Other packets
    that arrive before, and do not belong to the session, change nothing. *)
Theorem hole_handshake order key sid tid nonce resolve newID os addr ttl (conn conn' : udpConn (Addr := Addr))
    role (from from' : Addr) pre post pre' post' :
  let ctl := init_ctl order in
  let dec := DecodeMessageInto ctl key in
  let enc := EncodeMessage ctl key in
  let m := sid_message newID nonce sid tid in
  order ≡ₚ msgTypeMap →
  can_send ctl key m → can_send ctl key (as_response m) → role ≠ DetectRoleSender →
  sendSidMessage ctl resolve newID os nonce key sid tid addr ttl conn = (true, conn') → restore_ok os = true →
  Forall (λ p, take_packet dec enc role sid p.2 = None) pre →
  Forall (λ p, take_packet dec enc DetectRoleSender sid p.2 = None) pre' →
  ∃ raddr probe answer t,
    resolve addr = Some raddr ∧ c_sent conn' = c_sent conn ++ [(raddr, probe, t)] ∧
    waitDetectMessage dec enc role sid (pre ++ (from, probe) :: post) = Some (from, Some answer) ∧
    waitDetectMessage dec enc DetectRoleSender sid (pre' ++ (from', answer) :: post') = Some (from', None).
Proof.
  intros ctl dec enc m Hp (Hj & Hl & He) (Hj' & Hl' & [answer Ha]) Hrole Hsend Hr Hpre Hpre'.
  apply sendSidMessage_spec in Hsend as (_ & _ & Hok); [|exact Hr].
  destruct (Hok eq_refl) as (raddr & probe & Hres & Hprobe & Hsent).
  pose proof (sid_decode_encode ctl key m probe (init_complete order Hp) Hj Hl Hprobe) as Hd.
  pose proof (sid_decode_encode ctl key _ answer (init_complete order Hp) Hj' Hl' Ha) as Hd'.
  exists raddr, probe, answer. eexists. split; [done|]. split; [exact Hsent|].
  rewrite !wait_skips by done. unfold dec, enc. cbn [waitDetectMessage]. unfold take_packet. rewrite Hd, Hd'.
  cbn [Sid Response as_response m sid_message]. rewrite !seqb_refl. simpl.
  rewrite (proj2 (seqb_false _ _) Hrole). by rewrite Ha.
Qed.
End handshake.

(** ** Libraries for the witnesses *)

Definition table_lib : MsgLib := {|
  MsgCtl := (ascii → option kind) * (kind → option ascii);
  NewMsgCtl := (λ _, None, λ _, None);
  RegisterMsg b k c := (λ b', if bool_decide (b' = b) then Some k else c.1 b',
                        λ k', if bool_decide (k' = k) then Some b else c.2 k');
  typeOf c := c.1; byteOf c := c.2;
  lib_WriteMsg c k s := (λ b, String b s) <$> c.2 k;
  lib_ReadMsg c w := match w with String b s => (λ k, (k, s)) <$> c.1 b | EmptyString => None end;
  maxLen := 20 |}.

Lemma table_lib_laws : MsgLaws table_lib.
Proof. split; simpl; intros; try done; [by rewrite H|]. rewrite H. by eexists. Qed.

Lemma messages_roundtrip_witness :
  ∃ w, WriteMsg (L := table_lib) (init_ctl (L := table_lib) (rev msgTypeMap)) KPong "{}" = Some w ∧
    ReadMsg (L := table_lib) (init_ctl (L := table_lib) (rev msgTypeMap)) w = Some (KPong, "{}").
Proof.
  destruct (messages_roundtrip (L := table_lib) (HL := table_lib_laws) (rev msgTypeMap) KPong "{}")
    as (w & Hw & Hr & _); [symmetry; apply Permutation_rev|simpl; lia|].
  by exists w.
Defined.

(** A cipher that puts the key in front. *)
Lemma cut_key d k e : Some (k +:+ d) = Some e → CutPrefix e k = Some d.
Proof. intros [= <-]. by apply CutPrefix_spec. Qed.
Definition prefix_crypto : CryptoLib := {|
  crypto_Encode d k := Some (k +:+ d); crypto_Decode e k := CutPrefix e k;
  crypto_decode_encode := cut_key |}.

(** JSON of the messages of one transaction. *)
Definition one_json : SidJson := {|
  Marshal m := if Response m then "1" else "0";
  Unmarshal s := Some (mkSid "t1" "s1" (s =s? "1") "00") |}.

Lemma hole_handshake_witness :
  ∃ raddr probe answer t, (Some "peer" : option string) = Some raddr ∧
    c_sent (mkUdpConn 64 [("peer", "k50", 7%Z)]) = [(raddr, probe, t)] ∧
    waitDetectMessage (DecodeMessageInto (L := table_lib) (C := prefix_crypto) (J := one_json)
      (init_ctl (L := table_lib) msgTypeMap) "k")
      (EncodeMessage (L := table_lib) (C := prefix_crypto) (J := one_json) (init_ctl (L := table_lib) msgTypeMap) "k")
      "receiver" "s1" [("stranger", "??"); ("nat", probe)] = Some ("nat", Some answer).
Proof.
  destruct (hole_handshake (L := table_lib) (HL := table_lib_laws) (C := prefix_crypto) (J := one_json)
    msgTypeMap "k" "s1" "t1" 2 (λ _, Some "peer") "" (mkAnswers true true true true) "p:1" 7
    (mkUdpConn 64 []) (mkUdpConn 64 [("peer", "k50", 7%Z)]) "receiver" "nat" "peer"
    [("stranger", "??")] [] [] [])
    as (raddr & probe & answer & t & Hres & Hsent & Hrecv & _);
    [done|by (split; [|split; [simpl; lia|]])..|done|done|done|by (repeat constructor)|by constructor|].
  exists raddr, probe, answer, t. done.
Defined.
