(* ===== verification/Clones.v ===== *)
(** The copies of configurations, at the level of pointers: the [Clone] methods of
    [src/pkg/config/v1] ([proxy.go], [visitor.go], [proxy_plugin.go], [visitor_plugin.go],
    [common.go]), [ClonePtr] of [src/pkg/util/util/util.go], and [cloneConfigurers] of
    [src/pkg/config/source/clone.go], which stands between a source and those who change
    what they have loaded. *)
From Stdlib Require Import ZArith Lia.
From stdpp Require Import base strings gmap list.
From S2P Require Import Prelude ProxyConf VisitorConf.
Local Open Scope string_scope.
Local Open Scope list_scope.

(** ** The structures

    [R] is the type of a pointer, map or slice without pointers inside, [P] that of an interface
    value with the options of a plugin: references into a store, or what they refer to. *)

Record hHealth (R : Type) := mkHHealth {
  hh_Type : string; hh_TimeoutSeconds : Z; hh_MaxFailed : Z; hh_IntervalSeconds : Z; hh_Path : string;
  hh_HTTPHeaders : R }.

Record hBackend (P : Type) := mkHBackend {
  hb_LocalIP : string; hb_LocalPort : Z; hb_PluginType : string; hb_Plugin : P }.

Record hBase (R P : Type) := mkHBase {
  hp_Name : string; hp_Type : string; hp_Enabled : R; hp_Annotations : R; hp_Transport : ProxyTransport;
  hp_Metadatas : R; hp_LoadBalancer : LoadBalancerConfig; hp_HealthCheck : hHealth R; hp_Backend : hBackend P }.

Record hDomains (R : Type) := mkHDomains { hd_CustomDomains : R; hd_SubDomain : string }.

Record hHTTP (R : Type) := mkHHTTP {
  hx_Locations : R; hx_HTTPUser : string; hx_HTTPPassword : string; hx_HostHeaderRewrite : string;
  hx_RequestHeaders : R; hx_ResponseHeaders : R; hx_RouteByHTTPUser : string }.

Inductive hProxy (R P : Type) :=
  | HTCP (b : hBase R P) (RemotePort : Z)
  | HUDP (b : hBase R P) (RemotePort : Z)
  | HHTTP (b : hBase R P) (d : hDomains R) (h : hHTTP R)
  | HHTTPS (b : hBase R P) (d : hDomains R)
  | HTCPMux (b : hBase R P) (d : hDomains R) (t : TCPMuxFields)
  | HSTCP (b : hBase R P) (Secretkey : string) (AllowUsers : R)
  | HXTCP (b : hBase R P) (Secretkey : string) (AllowUsers : R) (NatTraversal : R)
  | HSUDP (b : hBase R P) (Secretkey : string) (AllowUsers : R).

Record hVisitorBase (R P : Type) := mkHVisitorBase {
  hv_Name : string; hv_Type : string; hv_Enabled : R; hv_Transport : VisitorTransport;
  hv_SecretKey : string; hv_ServerUser : string; hv_ServerName : string; hv_BindAddr : string;
  hv_BindPort : Z; hv_PluginType : string; hv_Plugin : P }.

Inductive hVisitor (R P : Type) :=
  | HVSTCP (b : hVisitorBase R P)
  | HVSUDP (b : hVisitorBase R P)
  | HVXTCP (b : hVisitorBase R P) (Protocol : string) (KeepTunnelOpen : bool)
      (MaxRetriesAnHour MinRetryInterval : Z) (FallbackTo : string) (FallbackTimeoutMs : Z) (NatTraversal : R).

(** The options of plugins, of proxies and of visitors. *)
Inductive hOptions (R : Type) :=
  | HHTTP2HTTPS (Type_ LocalAddr HostHeaderRewrite : string) (RequestHeaders : R)
  | HHTTPProxy (Type_ HTTPUser HTTPPassword : string)
  | HHTTPS2HTTP (Type_ LocalAddr HostHeaderRewrite : string) (RequestHeaders EnableHTTP2 : R) (CrtPath KeyPath : string)
  | HHTTPS2HTTPS (Type_ LocalAddr HostHeaderRewrite : string) (RequestHeaders EnableHTTP2 : R) (CrtPath KeyPath : string)
  | HHTTP2HTTP (Type_ LocalAddr HostHeaderRewrite : string) (RequestHeaders : R)
  | HSocks5 (Type_ Username Password : string)
  | HStaticFile (Type_ LocalPath StripPrefix HTTPUser HTTPPassword : string)
  | HUnixDomainSocket (Type_ UnixPath : string)
  | HTLS2Raw (Type_ LocalAddr CrtPath KeyPath : string)
  | HVirtualNet (Type_ : string)
  | HVirtualNetVisitor (Type_ DestinationIP : string).

Arguments mkHHealth {R}. Arguments mkHBackend {P}. Arguments mkHBase {R P}. Arguments mkHDomains {R}.
Arguments mkHHTTP {R}. Arguments mkHVisitorBase {R P}.
Arguments hh_Type {R}. Arguments hh_TimeoutSeconds {R}. Arguments hh_MaxFailed {R}.
Arguments hh_IntervalSeconds {R}. Arguments hh_Path {R}. Arguments hh_HTTPHeaders {R}.
Arguments hb_LocalIP {P}. Arguments hb_LocalPort {P}. Arguments hb_PluginType {P}. Arguments hb_Plugin {P}.
Arguments hp_Name {R P}. Arguments hp_Type {R P}. Arguments hp_Enabled {R P}. Arguments hp_Annotations {R P}.
Arguments hp_Transport {R P}. Arguments hp_Metadatas {R P}. Arguments hp_LoadBalancer {R P}.
Arguments hp_HealthCheck {R P}. Arguments hp_Backend {R P}.
Arguments hd_CustomDomains {R}. Arguments hd_SubDomain {R}.
Arguments hx_Locations {R}. Arguments hx_HTTPUser {R}. Arguments hx_HTTPPassword {R}.
Arguments hx_HostHeaderRewrite {R}. Arguments hx_RequestHeaders {R}. Arguments hx_ResponseHeaders {R}.
Arguments hx_RouteByHTTPUser {R}.
Arguments hv_Name {R P}. Arguments hv_Type {R P}. Arguments hv_Enabled {R P}. Arguments hv_Transport {R P}.
Arguments hv_SecretKey {R P}. Arguments hv_ServerUser {R P}. Arguments hv_ServerName {R P}.
Arguments hv_BindAddr {R P}. Arguments hv_BindPort {R P}. Arguments hv_PluginType {R P}. Arguments hv_Plugin {R P}.
Arguments HTCP {R P}. Arguments HUDP {R P}. Arguments HHTTP {R P}. Arguments HHTTPS {R P}.
Arguments HTCPMux {R P}. Arguments HSTCP {R P}. Arguments HXTCP {R P}. Arguments HSUDP {R P}.
Arguments HVSTCP {R P}. Arguments HVSUDP {R P}. Arguments HVXTCP {R P}.
Arguments HHTTP2HTTPS {R}. Arguments HHTTPProxy {R}. Arguments HHTTPS2HTTP {R}. Arguments HHTTPS2HTTPS {R}.
Arguments HHTTP2HTTP {R}. Arguments HSocks5 {R}. Arguments HStaticFile {R}. Arguments HUnixDomainSocket {R}.
Arguments HTLS2Raw {R}. Arguments HVirtualNet {R}. Arguments HVirtualNetVisitor {R}.

(** ** The store *)

Abbreviation loc := positive.
(** A pointer, map or slice, which may be nil. *)
Abbreviation ref := (option loc).
(** An interface value: nil, or a pointer with its type, which may be nil too. *)
Abbreviation iface := (option ref).

(** What a reference without pointers inside refers to: a bool, a map, an array of strings or of
    headers, or a [NatTraversalConfig]. *)
Inductive leaf :=
  | LBool (b : bool) | LMap (m : gmap string string) | LStrings (l : list string)
  | LHeaders (l : list (string * string)) | LNat (DisableAssistedAddrs : bool).

(** What a configurer refers to. *)
Inductive config := CProxy (c : hProxy ref iface) | CVisitor (v : hVisitor ref iface).

Record store := mkStore { leaves : gmap loc leaf; cells : gmap loc (hOptions ref); objs : gmap loc config }.

(** Operations on the store; [None] is the panic of a reference to nothing, which no valid
    configuration has. *)
Definition HM (A : Type) : Type := store → option (A * store).
#[export] Instance HM_ret : MRet HM := λ A a s, Some (a, s).
#[export] Instance HM_bind : MBind HM := λ A B f m s,
  match m s with Some (a, s') => f a s' | None => None end.

Definition new_leaf (x : leaf) : HM ref := λ s,
  let l := fresh (dom (leaves s)) in Some (Some l, mkStore (<[l := x]> (leaves s)) (cells s) (objs s)).
Definition new_cell (x : hOptions ref) : HM ref := λ s,
  let l := fresh (dom (cells s)) in Some (Some l, mkStore (leaves s) (<[l := x]> (cells s)) (objs s)).
Definition new_obj (x : config) : HM loc := λ s,
  let l := fresh (dom (objs s)) in Some (l, mkStore (leaves s) (cells s) (<[l := x]> (objs s))).
Definition get_leaf (l : loc) : HM leaf := λ s, (λ x, (x, s)) <$> leaves s !! l.
Definition get_cell (l : loc) : HM (hOptions ref) := λ s, (λ x, (x, s)) <$> cells s !! l.
Definition get_obj (l : loc) : HM config := λ s, (λ x, (x, s)) <$> objs s !! l.

(** ** The [Clone] methods *)

(** [ClonePtr], [slices.Clone] and [maps.Clone]: nil stays nil, and anything else is copied. *)
Definition clone_ref (r : ref) : HM ref :=
  match r with None => mret None | Some l => x ← get_leaf l; new_leaf x end.

(** The [Clone] of [HeaderOperations], a structure with a map, and of [NatTraversalConfig]. *)
Definition headers_Clone (set : ref) : HM ref := clone_ref set.
Definition nat_Clone (c : ref) : HM ref :=
  match c with None => mret None | Some l => x ← get_leaf l; new_leaf x end.

Definition health_Clone (c : hHealth ref) : HM (hHealth ref) :=
  h ← clone_ref (hh_HTTPHeaders c);
  mret (mkHHealth (hh_Type c) (hh_TimeoutSeconds c) (hh_MaxFailed c) (hh_IntervalSeconds c) (hh_Path c) h).

Definition domains_Clone (c : hDomains ref) : HM (hDomains ref) :=
  d ← clone_ref (hd_CustomDomains c); mret (mkHDomains d (hd_SubDomain c)).

(** The copy of the structure that the [Clone] of the options of a plugin makes. *)
Definition http2https_out ty la hr rh : HM (hOptions ref) :=
  rh ← headers_Clone rh; mret (HHTTP2HTTPS ty la hr rh).
Definition http_proxy_out ty u p : HM (hOptions ref) := mret (HHTTPProxy ty u p).
Definition https2http_out ty la hr rh e crt key : HM (hOptions ref) :=
  rh ← headers_Clone rh; e ← clone_ref e; mret (HHTTPS2HTTP ty la hr rh e crt key).
Definition https2https_out ty la hr rh e crt key : HM (hOptions ref) :=
  rh ← headers_Clone rh; e ← clone_ref e; mret (HHTTPS2HTTPS ty la hr rh e crt key).
Definition http2http_out ty la hr rh : HM (hOptions ref) :=
  rh ← headers_Clone rh; mret (HHTTP2HTTP ty la hr rh).
Definition socks5_out ty u p : HM (hOptions ref) := mret (HSocks5 ty u p).
Definition static_file_out ty l x u p : HM (hOptions ref) := mret (HStaticFile ty l x u p).
Definition unix_out ty u : HM (hOptions ref) := mret (HUnixDomainSocket ty u).
Definition tls2raw_out ty la crt key : HM (hOptions ref) := mret (HTLS2Raw ty la crt key).
Definition vnet_out ty : HM (hOptions ref) := mret (HVirtualNet ty).
Definition vnet_visitor_out ty d : HM (hOptions ref) := mret (HVirtualNetVisitor ty d).

Definition options_out (o : hOptions ref) : HM (hOptions ref) :=
  match o with
  | HHTTP2HTTPS ty la hr rh => http2https_out ty la hr rh
  | HHTTPProxy ty u p => http_proxy_out ty u p
  | HHTTPS2HTTP ty la hr rh e crt key => https2http_out ty la hr rh e crt key
  | HHTTPS2HTTPS ty la hr rh e crt key => https2https_out ty la hr rh e crt key
  | HHTTP2HTTP ty la hr rh => http2http_out ty la hr rh
  | HSocks5 ty u p => socks5_out ty u p
  | HStaticFile ty l x u p => static_file_out ty l x u p
  | HUnixDomainSocket ty u => unix_out ty u
  | HTLS2Raw ty la crt key => tls2raw_out ty la crt key
  | HVirtualNet ty => vnet_out ty
  | HVirtualNetVisitor ty d => vnet_visitor_out ty d
  end.

(** [Clone] through the pointer to the options: [if o == nil { return nil }; out := *o; ...; return &out]. *)
Definition options_Clone (o : ref) : HM iface :=
  match o with
  | None => mret None
  | Some l => o ← get_cell l; out ← options_out o; p ← new_cell out; mret (Some p)
  end.

Definition plugin_Clone (p : iface) : HM iface :=
  match p with Some o => options_Clone o | None => mret None end.

Definition backend_Clone (c : hBackend iface) : HM (hBackend iface) :=
  p ← plugin_Clone (hb_Plugin c); mret (mkHBackend (hb_LocalIP c) (hb_LocalPort c) (hb_PluginType c) p).

Definition base_Clone (c : hBase ref iface) : HM (hBase ref iface) :=
  e ← clone_ref (hp_Enabled c);
  a ← clone_ref (hp_Annotations c);
  m ← clone_ref (hp_Metadatas c);
  h ← health_Clone (hp_HealthCheck c);
  b ← backend_Clone (hp_Backend c);
  mret (mkHBase (hp_Name c) (hp_Type c) e a (hp_Transport c) m (hp_LoadBalancer c) h b).

Definition tcp_Clone b port : HM (hProxy ref iface) := b ← base_Clone b; mret (HTCP b port).
Definition udp_Clone b port : HM (hProxy ref iface) := b ← base_Clone b; mret (HUDP b port).
Definition http_Clone b d h : HM (hProxy ref iface) :=
  b ← base_Clone b; d ← domains_Clone d;
  l ← clone_ref (hx_Locations h); q ← headers_Clone (hx_RequestHeaders h); r ← headers_Clone (hx_ResponseHeaders h);
  mret (HHTTP b d (mkHHTTP l (hx_HTTPUser h) (hx_HTTPPassword h) (hx_HostHeaderRewrite h) q r (hx_RouteByHTTPUser h))).
Definition https_Clone b d : HM (hProxy ref iface) := b ← base_Clone b; d ← domains_Clone d; mret (HHTTPS b d).
Definition tcpmux_Clone b d t : HM (hProxy ref iface) :=
  b ← base_Clone b; d ← domains_Clone d; mret (HTCPMux b d t).
Definition stcp_Clone b sk u : HM (hProxy ref iface) := b ← base_Clone b; u ← clone_ref u; mret (HSTCP b sk u).
Definition xtcp_Clone b sk u n : HM (hProxy ref iface) :=
  b ← base_Clone b; u ← clone_ref u; n ← nat_Clone n; mret (HXTCP b sk u n).
Definition sudp_Clone b sk u : HM (hProxy ref iface) := b ← base_Clone b; u ← clone_ref u; mret (HSUDP b sk u).

Definition proxy_Clone (c : hProxy ref iface) : HM (hProxy ref iface) :=
  match c with
  | HTCP b port => tcp_Clone b port
  | HUDP b port => udp_Clone b port
  | HHTTP b d h => http_Clone b d h
  | HHTTPS b d => https_Clone b d
  | HTCPMux b d t => tcpmux_Clone b d t
  | HSTCP b sk u => stcp_Clone b sk u
  | HXTCP b sk u n => xtcp_Clone b sk u n
  | HSUDP b sk u => sudp_Clone b sk u
  end.

Definition visitor_base_Clone (c : hVisitorBase ref iface) : HM (hVisitorBase ref iface) :=
  e ← clone_ref (hv_Enabled c);
  p ← plugin_Clone (hv_Plugin c);
  mret (mkHVisitorBase (hv_Name c) (hv_Type c) e (hv_Transport c) (hv_SecretKey c) (hv_ServerUser c)
          (hv_ServerName c) (hv_BindAddr c) (hv_BindPort c) (hv_PluginType c) p).

Definition stcp_visitor_Clone b : HM (hVisitor ref iface) := b ← visitor_base_Clone b; mret (HVSTCP b).
Definition sudp_visitor_Clone b : HM (hVisitor ref iface) := b ← visitor_base_Clone b; mret (HVSUDP b).
Definition xtcp_visitor_Clone b p k m i f t n : HM (hVisitor ref iface) :=
  b ← visitor_base_Clone b; n ← nat_Clone n; mret (HVXTCP b p k m i f t n).

Definition visitor_Clone (c : hVisitor ref iface) : HM (hVisitor ref iface) :=
  match c with
  | HVSTCP b => stcp_visitor_Clone b
  | HVSUDP b => sudp_visitor_Clone b
  | HVXTCP b p k m i f t n => xtcp_visitor_Clone b p k m i f t n
  end.

(** [cfg.Clone()] of a configurer, a pointer to its structure. *)
Definition config_Clone (l : loc) : HM loc :=
  c ← get_obj l;
  out ← (match c with
         | CProxy c => c ← proxy_Clone c; mret (CProxy c)
         | CVisitor v => v ← visitor_Clone v; mret (CVisitor v)
         end);
  new_obj out.

Inductive clone_error := ProxyNil | VisitorNil.

Fixpoint clone_loop (e : clone_error) (cfgs : list ref) : HM (result clone_error (list loc)) :=
  match cfgs with
  | [] => mret (Ok [])
  | None :: _ => mret (Err e)
  | Some l :: cfgs =>
      l' ← config_Clone l;
      r ← clone_loop e cfgs;
      mret (match r with Ok ls => Ok (l' :: ls) | Err e => Err e end)
  end.

Definition cloneConfigurers (proxies visitors : list ref)
    : HM (result clone_error (list loc * list loc)) :=
  ps ← clone_loop ProxyNil proxies;
  match ps with
  | Err e => mret (Err e)
  | Ok ps =>
      vs ← clone_loop VisitorNil visitors;
      mret (match vs with Ok vs => Ok (ps, vs) | Err e => Err e end)
  end.

(** ** Copies share nothing with the original *)

Section relators.
Context {A B P Q : Type} (RR : A → B → Prop) (PP : P → Q → Prop).

(** The same structure, with related references. *)
Definition health_rel (c : hHealth A) (c' : hHealth B) : Prop :=
  hh_Type c = hh_Type c' ∧ hh_TimeoutSeconds c = hh_TimeoutSeconds c' ∧ hh_MaxFailed c = hh_MaxFailed c' ∧
  hh_IntervalSeconds c = hh_IntervalSeconds c' ∧ hh_Path c = hh_Path c' ∧ RR (hh_HTTPHeaders c) (hh_HTTPHeaders c').
Definition backend_rel (c : hBackend P) (c' : hBackend Q) : Prop :=
  hb_LocalIP c = hb_LocalIP c' ∧ hb_LocalPort c = hb_LocalPort c' ∧ hb_PluginType c = hb_PluginType c' ∧
  PP (hb_Plugin c) (hb_Plugin c').
Definition base_rel (c : hBase A P) (c' : hBase B Q) : Prop :=
  hp_Name c = hp_Name c' ∧ hp_Type c = hp_Type c' ∧ RR (hp_Enabled c) (hp_Enabled c') ∧
  RR (hp_Annotations c) (hp_Annotations c') ∧ hp_Transport c = hp_Transport c' ∧
  RR (hp_Metadatas c) (hp_Metadatas c') ∧ hp_LoadBalancer c = hp_LoadBalancer c' ∧
  health_rel (hp_HealthCheck c) (hp_HealthCheck c') ∧ backend_rel (hp_Backend c) (hp_Backend c').
Definition domains_rel (c : hDomains A) (c' : hDomains B) : Prop :=
  RR (hd_CustomDomains c) (hd_CustomDomains c') ∧ hd_SubDomain c = hd_SubDomain c'.
Definition http_rel (c : hHTTP A) (c' : hHTTP B) : Prop :=
  RR (hx_Locations c) (hx_Locations c') ∧ hx_HTTPUser c = hx_HTTPUser c' ∧
  hx_HTTPPassword c = hx_HTTPPassword c' ∧ hx_HostHeaderRewrite c = hx_HostHeaderRewrite c' ∧
  RR (hx_RequestHeaders c) (hx_RequestHeaders c') ∧ RR (hx_ResponseHeaders c) (hx_ResponseHeaders c') ∧
  hx_RouteByHTTPUser c = hx_RouteByHTTPUser c'.

Definition proxy_rel (c : hProxy A P) (c' : hProxy B Q) : Prop :=
  match c, c' with
  | HTCP b p, HTCP b' p' | HUDP b p, HUDP b' p' => base_rel b b' ∧ p = p'
  | HHTTP b d h, HHTTP b' d' h' => base_rel b b' ∧ domains_rel d d' ∧ http_rel h h'
  | HHTTPS b d, HHTTPS b' d' => base_rel b b' ∧ domains_rel d d'
  | HTCPMux b d t, HTCPMux b' d' t' => base_rel b b' ∧ domains_rel d d' ∧ t = t'
  | HSTCP b k u, HSTCP b' k' u' | HSUDP b k u, HSUDP b' k' u' => base_rel b b' ∧ k = k' ∧ RR u u'
  | HXTCP b k u n, HXTCP b' k' u' n' => base_rel b b' ∧ k = k' ∧ RR u u' ∧ RR n n'
  | _, _ => False
  end.

Definition vbase_rel (c : hVisitorBase A P) (c' : hVisitorBase B Q) : Prop :=
  hv_Name c = hv_Name c' ∧ hv_Type c = hv_Type c' ∧ RR (hv_Enabled c) (hv_Enabled c') ∧
  hv_Transport c = hv_Transport c' ∧ hv_SecretKey c = hv_SecretKey c' ∧ hv_ServerUser c = hv_ServerUser c' ∧
  hv_ServerName c = hv_ServerName c' ∧ hv_BindAddr c = hv_BindAddr c' ∧ hv_BindPort c = hv_BindPort c' ∧
  hv_PluginType c = hv_PluginType c' ∧ PP (hv_Plugin c) (hv_Plugin c').

Definition visitor_rel (c : hVisitor A P) (c' : hVisitor B Q) : Prop :=
  match c, c' with
  | HVSTCP b, HVSTCP b' | HVSUDP b, HVSUDP b' => vbase_rel b b'
  | HVXTCP b p k m i f t n, HVXTCP b' p' k' m' i' f' t' n' =>
      vbase_rel b b' ∧ p = p' ∧ k = k' ∧ m = m' ∧ i = i' ∧ f = f' ∧ t = t' ∧ RR n n'
  | _, _ => False
  end.

Definition options_rel (o : hOptions A) (o' : hOptions B) : Prop :=
  match o, o' with
  | HHTTP2HTTPS t a h r, HHTTP2HTTPS t' a' h' r' | HHTTP2HTTP t a h r, HHTTP2HTTP t' a' h' r' =>
      t = t' ∧ a = a' ∧ h = h' ∧ RR r r'
  | HHTTPS2HTTP t a h r e c k, HHTTPS2HTTP t' a' h' r' e' c' k'
  | HHTTPS2HTTPS t a h r e c k, HHTTPS2HTTPS t' a' h' r' e' c' k' =>
      t = t' ∧ a = a' ∧ h = h' ∧ RR r r' ∧ RR e e' ∧ c = c' ∧ k = k'
  | HHTTPProxy t u p, HHTTPProxy t' u' p' | HSocks5 t u p, HSocks5 t' u' p' => t = t' ∧ u = u' ∧ p = p'
  | HStaticFile t l x u p, HStaticFile t' l' x' u' p' => t = t' ∧ l = l' ∧ x = x' ∧ u = u' ∧ p = p'
  | HUnixDomainSocket t u, HUnixDomainSocket t' u' | HVirtualNetVisitor t u, HVirtualNetVisitor t' u' => t = t' ∧ u = u'
  | HTLS2Raw t a c k, HTLS2Raw t' a' c' k' => t = t' ∧ a = a' ∧ c = c' ∧ k = k'
  | HVirtualNet t, HVirtualNet t' => t = t'
  | _, _ => False
  end.
End relators.

(** What a store says of two references. *)
Definition leaf_same (s s' : store) (r r' : ref) : Prop :=
  match r, r' with
  | None, None => True
  | Some l, Some l' => ∃ x, leaves s !! l = Some x ∧ leaves s' !! l' = Some x
  | _, _ => False
  end.
Definition plug_same (s s' : store) (p p' : iface) : Prop :=
  match p, p' with
  | Some (Some l), Some (Some l') =>
      ∃ o o', cells s !! l = Some o ∧ cells s' !! l' = Some o' ∧ options_rel (leaf_same s s') o o'
  | (None | Some None), (None | Some None) => True
  | _, _ => False
  end.

(** [r'] in [s] is a copy of [r], made since [s0]. *)
Definition leaf_copied (s0 s : store) (r r' : ref) : Prop :=
  leaf_same s0 s r r' ∧ ∀ l', r' = Some l' → leaves s0 !! l' = None.
Definition plug_copied (s0 s : store) (p p' : iface) : Prop :=
  match p, p' with
  | Some (Some l), Some (Some l') =>
      cells s0 !! l' = None ∧
      ∃ o o', cells s0 !! l = Some o ∧ cells s !! l' = Some o' ∧ options_rel (leaf_copied s0 s) o o'
  | (None | Some None), None => True
  | _, _ => False
  end.

Definition config_rel (RR : ref → ref → Prop) (PP : iface → iface → Prop) (c c' : config) : Prop :=
  match c, c' with
  | CProxy c, CProxy c' => proxy_rel RR PP c c'
  | CVisitor v, CVisitor v' => visitor_rel RR PP v v'
  | _, _ => False
  end.

(** The same configuration, seen through all pointers; a configuration that is the same as itself
    has no dangling reference. *)
Definition config_same (s s' : store) (l l' : loc) : Prop :=
  ∃ c c', objs s !! l = Some c ∧ objs s' !! l' = Some c' ∧ config_rel (leaf_same s s') (plug_same s s') c c'.
Definition config_copied (s0 s : store) (l l' : loc) : Prop :=
  objs s0 !! l' = None ∧
  ∃ c c', objs s0 !! l = Some c ∧ objs s !! l' = Some c' ∧ config_rel (leaf_copied s0 s) (plug_copied s0 s) c c'.
Definition valid (s : store) (l : loc) : Prop := config_same s s l l.

(** *** Relators are monotone *)

Ltac rel_mono :=
  intros; repeat match goal with
    | H : _ ∧ _ |- _ => destruct H
    | |- _ ∧ _ => split
    end; eauto.

Lemma options_mono {A B} (R R' : A → B → Prop) o o' :
  (∀ a b, R a b → R' a b) → options_rel R o o' → options_rel R' o o'.
Proof. intros HR. destruct o, o'; simpl; rel_mono. Qed.
Lemma base_mono {A B P Q} (R R' : A → B → Prop) (G G' : P → Q → Prop) c c' :
  (∀ a b, R a b → R' a b) → (∀ a b, G a b → G' a b) → base_rel R G c c' → base_rel R' G' c c'.
Proof. intros HR HG. unfold base_rel, health_rel, backend_rel. rel_mono. Qed.
Lemma config_mono R R' G G' c c' :
  (∀ a b, R a b → R' a b) → (∀ a b, G a b → G' a b) → config_rel R G c c' → config_rel R' G' c c'.
Proof.
  intros HR HG. destruct c as [c|v], c' as [c'|v']; simpl; [| done | done |].
  - destruct c, c'; simpl; unfold domains_rel, http_rel; rel_mono; eauto using base_mono.
  - destruct v, v'; simpl; unfold vbase_rel; rel_mono.
Qed.

(** *** The store only grows *)

Definition extends (s s' : store) : Prop :=
  leaves s ⊆ leaves s' ∧ cells s ⊆ cells s' ∧ objs s ⊆ objs s'.

#[export] Instance extends_preorder : PreOrder extends.
Proof.
  split.
  - intros s. by split_and!.
  - intros a b c (?&?&?) (?&?&?). split_and!; by etrans.
Qed.

Lemma leaf_copied_mono s0 s s' r r' : extends s s' → leaf_copied s0 s r r' → leaf_copied s0 s' r r'.
Proof.
  intros (Hl & _ & _) [H Hf]. split; [|done]. destruct r as [l|], r' as [l'|]; simpl in *; try done.
  destruct H as (x & Hx & Hx'). exists x. split; [done|]. by eapply lookup_weaken.
Qed.
Lemma plug_copied_mono s0 s s' p p' : extends s s' → plug_copied s0 s p p' → plug_copied s0 s' p p'.
Proof.
  intros He. destruct p as [[l|]|], p' as [[l'|]|]; simpl; try done.
  intros (Hn & o & o' & Ho & Ho' & Hr). split; [done|]. exists o, o'. split; [done|].
  split; [by eapply lookup_weaken; [|apply He]|]. eapply options_mono; [|done]. by intros; eapply leaf_copied_mono.
Qed.
Lemma config_copied_mono s0 s s' l l' : extends s s' → config_copied s0 s l l' → config_copied s0 s' l l'.
Proof.
  intros He (Hn & c & c' & Hc & Hc' & Hr). split; [done|]. exists c, c'. split; [done|].
  split; [by eapply lookup_weaken; [|apply He]|].
  eapply config_mono; [| |done]; eauto using leaf_copied_mono, plug_copied_mono.
Qed.
#[local] Hint Resolve leaf_copied_mono plug_copied_mono config_copied_mono : core.

(** From any store that extends [s0], the operation succeeds and extends it. *)
Definition grows {A} (s0 : store) (m : HM A) (Q : store → A → Prop) : Prop :=
  ∀ s, extends s0 s → ∃ a s', m s = Some (a, s') ∧ extends s s' ∧ Q s' a.

Lemma grows_ret {A} s0 (a : A) (Q : store → A → Prop) :
  (∀ s, extends s0 s → Q s a) → grows s0 (mret a) Q.
Proof. intros H s Hs. exists a, s. split; [done|]. split; [done|auto]. Qed.

Lemma grows_bind {A B} s0 (m : HM A) (f : A → HM B) Q Q' :
  grows s0 m Q → (∀ a s1, extends s0 s1 → Q s1 a → grows s1 (f a) Q') → grows s0 (m ≫= f) Q'.
Proof.
  intros Hm Hf s Hs. destruct (Hm s Hs) as (a & s1 & E1 & He1 & HQ).
  destruct (Hf a s1 ltac:(by etrans) HQ s1 ltac:(done)) as (b & s2 & E2 & He2 & HQ').
  exists b, s2. unfold mbind, HM_bind. rewrite E1. split; [done|]. split; [by etrans|done].
Qed.

(** A copy is made as it was in the first store, wherever the copying has got to. *)
Lemma grows_leaf s0 s1 r :
  extends s0 s1 → leaf_same s0 s0 r r → grows s1 (clone_ref r) (λ s, leaf_copied s0 s r).
Proof.
  intros H01 Hv s Hs. assert (extends s0 s) as H0s by by etrans.
  destruct r as [l|]; simpl in *.
  - destruct Hv as (x & Hx & _). pose proof (lookup_weaken _ _ _ _ Hx (proj1 H0s)) as Hxs.
    assert (leaves s !! fresh (dom (leaves s)) = None) as Hfr by (apply not_elem_of_dom; apply is_fresh).
    eexists (Some (fresh (dom (leaves s)))), _. unfold mbind, HM_bind, get_leaf, new_leaf. rewrite Hxs. simpl.
    split; [done|]. split; [split_and!; simpl; [by apply insert_subseteq|done..]|].
    split; [exists x; simpl; by rewrite lookup_insert_eq|].
    intros l' [= <-]. destruct H0s as (Hl & _). by eapply lookup_weaken_None.
  - exists None, s. split; [done|]. split; [done|]. by split.
Qed.

Lemma grows_new_cell s0 o Q :
  (∀ s l, extends s0 s → cells s0 !! l = None → cells s !! l = Some o → Q s (Some l)) → grows s0 (new_cell o) Q.
Proof.
  intros HQ s Hs. unfold new_cell.
  assert (cells s !! fresh (dom (cells s)) = None) as Hfr by (apply not_elem_of_dom; apply is_fresh).
  eexists (Some (fresh (dom (cells s)))), _. split; [done|].
  assert (extends s (mkStore (leaves s) (<[fresh (dom (cells s)):=o]> (cells s)) (objs s))) as He.
  { split_and!; simpl; [done|by apply insert_subseteq|done]. }
  split; [done|]. apply HQ; [by etrans|by eapply lookup_weaken_None; [|apply Hs]|simpl; by rewrite lookup_insert_eq].
Qed.

Lemma grows_new_obj s0 c Q :
  (∀ s l, extends s0 s → objs s0 !! l = None → objs s !! l = Some c → Q s l) → grows s0 (new_obj c) Q.
Proof.
  intros HQ s Hs. unfold new_obj.
  assert (objs s !! fresh (dom (objs s)) = None) as Hfr by (apply not_elem_of_dom; apply is_fresh).
  eexists (fresh (dom (objs s))), _. split; [done|].
  assert (extends s (mkStore (leaves s) (cells s) (<[fresh (dom (objs s)):=c]> (objs s)))) as He.
  { split_and!; simpl; [done..|by apply insert_subseteq]. }
  split; [done|]. apply HQ; [by etrans|by eapply lookup_weaken_None; [|apply Hs]|simpl; by rewrite lookup_insert_eq].
Qed.

(** Chains of extensions. *)
Ltac extd := first [reflexivity | eassumption
  | match goal with H : extends ?a ?b |- extends ?a _ => transitivity b; [exact H|]; clear H; extd end].
(** A copy made earlier is a copy still. *)
Ltac kept := match goal with
  | H : leaf_copied ?a _ ?r _ |- leaf_copied ?a _ ?r _ => eapply leaf_copied_mono; [|exact H]; extd
  | H : plug_copied ?a _ ?r _ |- plug_copied ?a _ ?r _ => eapply plug_copied_mono; [|exact H]; extd
  end.
Ltac conj := repeat match goal with |- _ ∧ _ => split end.
(** The next field of a [Clone]. *)
Ltac clone_field := eapply grows_bind; [eapply grows_leaf; [|eassumption]; extd|intros ? ? ? ?; cbv beta in *].

Lemma grows_plugin s0 s1 p :
  extends s0 s1 → plug_same s0 s0 p p → grows s1 (plugin_Clone p) (λ s, plug_copied s0 s p).
Proof.
  intros H01 Hv. destruct p as [[l|]|]; [|by apply grows_ret..].
  destruct Hv as (o & ? & Ho & ? & Hv). simplify_eq.
  eapply (grows_bind _ _ _ (λ s x, x = o)).
  { intros s Hs. exists o, s. unfold get_cell. rewrite (lookup_weaken _ _ _ _ Ho (proj1 (proj2 (transitivity H01 Hs)))).
    done. }
  intros x s2 Hs2 ->.
  eapply (grows_bind _ _ _ (λ s o', options_rel (leaf_copied s0 s) o o')).
  { destruct o; simpl in Hv; destruct_and?; cbn [options_out];
    unfold http2https_out, https2http_out, https2https_out, http2http_out; repeat clone_field; apply grows_ret; intros; simpl; conj; first [done|kept]. }
  intros o' s3 Hs3 Ho'. eapply grows_bind; [apply grows_new_cell with (Q := λ s r, plug_copied s0 s (Some (Some l)) (Some r))|].
  - intros s l' Hs Hn Hl'. split.
    + eapply lookup_weaken_None; [exact Hn|]. assert (extends s0 s3) as He by extd. apply He.
    + exists o, o'. split; [done|]. split; [done|]. eapply options_mono; [|exact Ho'].
      intros; by eapply leaf_copied_mono.
  - intros r s4 Hs4 Hr. apply grows_ret. intros s Hs. by eapply plug_copied_mono.
Qed.

Lemma grows_health s0 s1 c :
  extends s0 s1 → health_rel (leaf_same s0 s0) c c →
  grows s1 (health_Clone c) (λ s, health_rel (leaf_copied s0 s) c).
Proof.
  intros H01 Hv. unfold health_rel in Hv. destruct_and! Hv. unfold health_Clone. clone_field.
  apply grows_ret. intros. unfold health_rel. simpl. conj; first [done|kept].
Qed.

Lemma grows_backend s0 s1 c :
  extends s0 s1 → backend_rel (plug_same s0 s0) c c →
  grows s1 (backend_Clone c) (λ s, backend_rel (plug_copied s0 s) c).
Proof.
  intros H01 Hv. unfold backend_rel in Hv. destruct_and! Hv. unfold backend_Clone.
  eapply grows_bind; [by apply (grows_plugin s0)|]. intros p s2 Hs2 Hp. cbv beta in Hp.
  apply grows_ret. intros. unfold backend_rel. simpl. conj; first [done|kept].
Qed.

Lemma grows_base s0 s1 b :
  extends s0 s1 → base_rel (leaf_same s0 s0) (plug_same s0 s0) b b →
  grows s1 (base_Clone b) (λ s, base_rel (leaf_copied s0 s) (plug_copied s0 s) b).
Proof.
  intros H01 Hv. unfold base_rel in Hv.
  destruct Hv as (? & ? & ? & ? & ? & ? & ? & Hh & Hb).
  unfold base_Clone. do 3 clone_field.
  eapply grows_bind; [apply (grows_health s0); [extd|done]|]. intros h sh Hsh Hhc. cbv beta in Hhc.
  eapply grows_bind; [apply (grows_backend s0); [extd|done]|]. intros k sk Hsk Hkc. cbv beta in Hkc.
  apply grows_ret. intros s Hs. unfold base_rel. simpl.
  unfold health_rel, backend_rel in *. destruct_and! Hhc. destruct_and! Hkc. conj; first [done|kept].
Qed.

Lemma grows_domains s0 s1 d :
  extends s0 s1 → domains_rel (leaf_same s0 s0) d d →
  grows s1 (domains_Clone d) (λ s, domains_rel (leaf_copied s0 s) d).
Proof.
  intros H01 [? ?]. unfold domains_Clone. clone_field. apply grows_ret. intros.
  unfold domains_rel. simpl. conj; first [done|kept].
Qed.

Lemma grows_proxy s0 s1 c :
  extends s0 s1 → proxy_rel (leaf_same s0 s0) (plug_same s0 s0) c c →
  grows s1 (proxy_Clone c) (λ s, proxy_rel (leaf_copied s0 s) (plug_copied s0 s) c).
Proof.
  intros H01 Hv.
  assert (∀ b b' s2 s, extends s2 s → base_rel (leaf_copied s0 s2) (plug_copied s0 s2) b b' →
      base_rel (leaf_copied s0 s) (plug_copied s0 s) b b') as Hbase.
  { intros b b' s2 s Hs Hb. eapply base_mono; [| |exact Hb]; eauto. }
  assert (∀ d d' s2 s, extends s2 s → domains_rel (leaf_copied s0 s2) d d' → domains_rel (leaf_copied s0 s) d d') as Hdom.
  { intros d d' s2 s Hs [Hd ?]. split; [|done]. eauto. }
  destruct c; simpl in Hv; unfold http_rel in Hv; destruct_and? Hv; cbn [proxy_Clone];
    unfold tcp_Clone, udp_Clone, http_Clone, https_Clone, tcpmux_Clone, stcp_Clone, xtcp_Clone, sudp_Clone;
    (eapply grows_bind; [apply (grows_base s0); done|intros ? ? ? ?; cbv beta in *]);
    try (eapply grows_bind; [apply (grows_domains s0); [extd|done]|intros ? ? ? ?; cbv beta in *]);
    repeat clone_field; apply grows_ret; intros; simpl; unfold http_rel; simpl; conj;
    first [done | kept | eapply Hbase; [|eassumption]; extd | eapply Hdom; [|eassumption]; extd].
Qed.

Lemma grows_visitor s0 s1 v :
  extends s0 s1 → visitor_rel (leaf_same s0 s0) (plug_same s0 s0) v v →
  grows s1 (visitor_Clone v) (λ s, visitor_rel (leaf_copied s0 s) (plug_copied s0 s) v).
Proof.
  intros H01 Hv.
  assert (∀ b, vbase_rel (leaf_same s0 s0) (plug_same s0 s0) b b →
    grows s1 (visitor_base_Clone b) (λ s, vbase_rel (leaf_copied s0 s) (plug_copied s0 s) b)) as Hb.
  { intros b Hb. unfold vbase_rel in Hb. destruct_and! Hb. unfold visitor_base_Clone. clone_field.
    eapply grows_bind; [apply (grows_plugin s0); [extd|done]|]. intros p sp Hsp Hp. cbv beta in Hp.
    apply grows_ret. intros. unfold vbase_rel. simpl. conj; first [done|kept]. }
  destruct v; simpl in Hv; destruct_and? Hv; cbn [visitor_Clone];
    unfold stcp_visitor_Clone, sudp_visitor_Clone, xtcp_visitor_Clone;
    (eapply grows_bind; [apply Hb; try done; unfold vbase_rel; conj; done|intros ? ? ? Hb'; cbv beta in Hb']);
    repeat clone_field; apply grows_ret; intros; simpl; unfold vbase_rel in *; destruct_and! Hb'; conj;
    first [done|kept].
Qed.

Lemma grows_config s0 s1 l :
  extends s0 s1 → valid s0 l → grows s1 (config_Clone l) (λ s, config_copied s0 s l).
Proof.
  intros H01 (c & ? & Hc & ? & Hv). simplify_eq.
  eapply (grows_bind _ _ _ (λ s x, x = c)).
  { intros s Hs. exists c, s. unfold get_obj.
    rewrite (lookup_weaken _ _ _ _ Hc (proj2 (proj2 (transitivity H01 Hs)))). done. }
  intros x s2 Hs2 ->.
  eapply (grows_bind _ _ _ (λ s c', config_rel (leaf_copied s0 s) (plug_copied s0 s) c c')).
  { destruct c as [c|v]; simpl in Hv.
    - eapply grows_bind; [apply (grows_proxy s0); [extd|done]|]. intros c' s3 Hs3 Hc'. cbv beta in Hc'.
      apply grows_ret. intros s Hs. eapply (config_mono _ _ _ _ (CProxy c) (CProxy c')); [| |exact Hc']; eauto.
    - eapply grows_bind; [apply (grows_visitor s0); [extd|done]|]. intros v' s3 Hs3 Hv'. cbv beta in Hv'.
      apply grows_ret. intros s Hs. eapply (config_mono _ _ _ _ (CVisitor v) (CVisitor v')); [| |exact Hv']; eauto. }
  intros c' s3 Hs3 Hc'. apply grows_new_obj. intros s l' Hs Hn Hl'. split.
  - assert (extends s0 s3) as He by extd. eapply lookup_weaken_None; [exact Hn|apply He].
  - exists c, c'. split; [done|]. split; [done|]. eapply config_mono; [| |exact Hc']; eauto.
Qed.

Lemma grows_loop e s0 s1 ls :
  extends s0 s1 → Forall (valid s0) ls →
  grows s1 (clone_loop e (Some <$> ls)) (λ s r, ∃ ls', r = Ok ls' ∧ Forall2 (config_copied s0 s) ls ls').
Proof.
  intros H01 Hv. revert s1 H01. induction Hv as [|l ls Hl _ IH]; intros s1 H01; simpl.
  { apply grows_ret. intros. exists []. by split. }
  eapply grows_bind; [by apply (grows_config s0)|]. intros l' s2 Hs2 Hl'. cbv beta in Hl'.
  eapply grows_bind; [apply IH; extd|]. intros r s3 Hs3 (ls' & -> & Hls').
  apply grows_ret. intros s Hs. exists (l' :: ls'). split; [done|]. constructor.
  - eapply config_copied_mono; [|exact Hl']. extd.
  - eapply Forall2_impl; [exact Hls'|]. eauto.
Qed.

(** *** What can be reached from a configuration *)

Definition options_refs {R} (o : hOptions R) : list R :=
  match o with
  | HHTTP2HTTPS _ _ _ r | HHTTP2HTTP _ _ _ r => [r]
  | HHTTPS2HTTP _ _ _ r e _ _ | HHTTPS2HTTPS _ _ _ r e _ _ => [r; e]
  | _ => []
  end.
Definition base_refs {R P} (b : hBase R P) : list R :=
  [hp_Enabled b; hp_Annotations b; hp_Metadatas b; hh_HTTPHeaders (hp_HealthCheck b)].
Definition config_refs (c : config) : list ref :=
  match c with
  | CProxy (HTCP b _ | HUDP b _) => base_refs b
  | CProxy (HHTTP b d h) =>
      base_refs b ++ [hd_CustomDomains d; hx_Locations h; hx_RequestHeaders h; hx_ResponseHeaders h]
  | CProxy (HHTTPS b d | HTCPMux b d _) => base_refs b ++ [hd_CustomDomains d]
  | CProxy (HSTCP b _ u | HSUDP b _ u) => base_refs b ++ [u]
  | CProxy (HXTCP b _ u n) => base_refs b ++ [u; n]
  | CVisitor (HVSTCP b | HVSUDP b) => [hv_Enabled b]
  | CVisitor (HVXTCP b _ _ _ _ _ _ n) => [hv_Enabled b; n]
  end.
Definition config_plugin (c : config) : iface :=
  match c with
  | CProxy (HTCP b _ | HUDP b _ | HHTTP b _ _ | HHTTPS b _ | HTCPMux b _ _ | HSTCP b _ _ | HXTCP b _ _ _ | HSUDP b _ _) =>
      hb_Plugin (hp_Backend b)
  | CVisitor (HVSTCP b | HVSUDP b | HVXTCP b _ _ _ _ _ _ _) => hv_Plugin b
  end.

(** A place that holders of the configuration [l] can write to. *)
Inductive place := PLeaf (x : loc) | PCell (x : loc) | PObj (x : loc).

Inductive reachable (s : store) (l : loc) : place → Prop :=
  | reach_obj : reachable s l (PObj l)
  | reach_cell c x : objs s !! l = Some c → config_plugin c = Some (Some x) → reachable s l (PCell x)
  | reach_leaf c x : objs s !! l = Some c → Some x ∈ config_refs c → reachable s l (PLeaf x)
  | reach_option c p o x : objs s !! l = Some c → config_plugin c = Some (Some p) → cells s !! p = Some o →
      Some x ∈ options_refs o → reachable s l (PLeaf x).

Definition exists_in (s : store) (p : place) : Prop :=
  match p with
  | PLeaf x => is_Some (leaves s !! x) | PCell x => is_Some (cells s !! x) | PObj x => is_Some (objs s !! x)
  end.

(** One of the references of a copy. *)
Ltac fresh_ref H :=
  intros Hx; repeat match goal with H : _ ∧ _ |- _ => destruct H | H : _ ∨ _ |- _ => destruct H end; try done;
  match goal with H : leaf_copied _ _ _ ?r, E : Some _ = ?r |- _ => apply (proj2 H); by rewrite <- E end.

(** Nothing that can be reached from a copy existed before it was made. *)
Lemma copied_fresh s0 s l l' p : config_copied s0 s l l' → reachable s l' p → ¬ exists_in s0 p.
Proof.
  intros (Hn & c & c' & Hc & Hc' & Hr).
  assert (∀ x, Some x ∈ config_refs c' → leaves s0 !! x = None) as Hleaf.
  { intros x. destruct c as [c|v], c' as [c'|v']; simpl in Hr; [| done | done |];
      [destruct c, c'|destruct v, v']; simpl in Hr; try done;
      unfold vbase_rel, base_rel, health_rel, domains_rel, http_rel in Hr;
      unfold config_refs, base_refs; cbn [app]; rewrite ?elem_of_cons, ?elem_of_nil; fresh_ref Hr. }
  assert (plug_copied s0 s (config_plugin c) (config_plugin c')) as Hplug.
  { destruct c as [c|v], c' as [c'|v']; simpl in Hr; [| done | done |];
      [destruct c, c'|destruct v, v']; simpl in Hr; try done; unfold base_rel, backend_rel, vbase_rel in Hr; simpl; tauto. }
  intros Hre. destruct Hre as [|c1 x Hc1 Hx|c1 x Hc1 Hx|c1 q o x Hc1 Hq Ho Hx]; simpl; rewrite <- eq_None_not_Some;
    [done|simplify_eq..].
  - rewrite Hx in Hplug. destruct (config_plugin c) as [[?|]|]; simpl in Hplug; try done. by destruct Hplug.
  - auto.
  - rewrite Hq in Hplug. destruct (config_plugin c) as [[?|]|]; simpl in Hplug; try done.
    destruct Hplug as (_ & o1 & o2 & _ & Ho2 & Hrel). assert (o2 = o) as -> by congruence.
    destruct o1, o; simpl in Hrel, Hx; try done; revert Hx; rewrite ?elem_of_cons, ?elem_of_nil; fresh_ref Hrel.
Qed.

(** A write through a pointer, a map or a slice. *)
Inductive write := WLeaf (x : loc) (v : leaf) | WCell (x : loc) (v : hOptions ref) | WObj (x : loc) (v : config).
Definition target (w : write) : place :=
  match w with WLeaf x _ => PLeaf x | WCell x _ => PCell x | WObj x _ => PObj x end.
Definition do_write (s : store) (w : write) : store :=
  match w with
  | WLeaf x v => mkStore (<[x := v]> (leaves s)) (cells s) (objs s)
  | WCell x v => mkStore (leaves s) (<[x := v]> (cells s)) (objs s)
  | WObj x v => mkStore (leaves s) (cells s) (<[x := v]> (objs s))
  end.

Lemma writes_extend s0 s ws :
  extends s0 s → Forall (λ w, ¬ exists_in s0 (target w)) ws → extends s0 (foldl do_write s ws).
Proof.
  intros He Hw. revert s He. induction Hw as [|w ws Hw _ IH]; intros s He; [done|]. apply IH.
  destruct He as (Hl & Hc & Ho).
  destruct w; simpl in Hw; rewrite <- eq_None_not_Some in Hw; split_and!; simpl; try done; by apply insert_subseteq_r.
Qed.

Lemma leaf_same_extends s0 s s' r r' : extends s s' → leaf_same s0 s r r' → leaf_same s0 s' r r'.
Proof.
  intros (Hl & _). destruct r, r'; simpl; try done. intros (x & ? & ?). exists x. split; [done|by eapply lookup_weaken].
Qed.
Lemma config_same_extends s0 s s' l l' : extends s s' → config_same s0 s l l' → config_same s0 s' l l'.
Proof.
  intros He (c & c' & Hc & Hc' & Hr). exists c, c'. split; [done|].
  split; [by eapply lookup_weaken; [|apply He]|].
  eapply config_mono; [| |exact Hr]; [eauto using leaf_same_extends|].
  intros [[p|]|] [[p'|]|]; simpl; try done. intros (o & o' & Ho & Ho' & Hrel). exists o, o'.
  split; [done|]. split; [by eapply lookup_weaken; [|apply He]|].
  eapply options_mono; [|exact Hrel]. eauto using leaf_same_extends.
Qed.

Lemma copied_same s0 s l l' : config_copied s0 s l l' → config_same s0 s l l'.
Proof.
  intros (_ & c & c' & Hc & Hc' & Hr). exists c, c'. split; [done|]. split; [done|].
  eapply config_mono; [| |exact Hr]; [by intros a b []|].
  intros [[p|]|] [[p'|]|]; simpl; try done. intros (_ & o & o' & Ho & Ho' & Hrel). exists o, o'.
  split; [done|]. split; [done|]. eapply options_mono; [|exact Hrel]. by intros a b [].
Qed.

Lemma cloneConfigurers_copies s0 proxies visitors :
  Forall (valid s0) proxies → Forall (valid s0) visitors →
  grows s0 (cloneConfigurers (Some <$> proxies) (Some <$> visitors))
    (λ s r, ∃ ps vs, r = Ok (ps, vs) ∧ Forall2 (config_copied s0 s) (proxies ++ visitors) (ps ++ vs)).
Proof.
  intros Hp Hv. unfold cloneConfigurers.
  eapply grows_bind; [by apply (grows_loop _ s0)|]. intros r s1 Hs1 (ps & -> & Hps).
  eapply grows_bind; [by apply (grows_loop _ s0)|]. intros r s2 Hs2 (vs & -> & Hvs).
  apply grows_ret. intros s Hs. exists ps, vs. split; [done|].
  apply Forall2_app; (eapply Forall2_impl; [eassumption|]); intros; (eapply config_copied_mono; [|eassumption]); extd.
Qed.

(** C35: What a source hands out is a deep copy. Cloning valid configurations succeeds, the copies read the
    same as the originals through all pointers, and whatever their holders write, to the copies, to
    the options of their plugins, or to any map, slice or pointer in them, the originals in the source
    read as before. *)
Theorem clones_isolated s proxies visitors :
  Forall (valid s) proxies → Forall (valid s) visitors →
  ∃ ps vs s', cloneConfigurers (Some <$> proxies) (Some <$> visitors) s = Some (Ok (ps, vs), s') ∧
    Forall2 (config_same s s') (proxies ++ visitors) (ps ++ vs) ∧
    ∀ ws, Forall (λ w, ∃ l', l' ∈ ps ++ vs ∧ reachable s' l' (target w)) ws →
      Forall (λ l, config_same s (foldl do_write s' ws) l l) (proxies ++ visitors).
Proof.
  intros Hp Hv. destruct (cloneConfigurers_copies s proxies visitors Hp Hv s ltac:(done)) as (r & s' & Hrun & He & ps & vs & -> & Hc).
  exists ps, vs, s'. split; [done|]. split; [eapply Forall2_impl; [exact Hc|]; apply copied_same|].
  intros ws Hws. assert (extends s (foldl do_write s' ws)) as He'.
  { apply writes_extend; [done|]. eapply Forall_impl; [exact Hws|]. intros w (l' & Hl' & Hre).
    apply list_elem_of_lookup_1 in Hl' as [i Hi]. destruct (Forall2_lookup_r _ _ _ _ _ Hc Hi) as (l & _ & Hll).
    by eapply copied_fresh. }
  apply Forall_app; split; (eapply Forall_impl; [eassumption|]); intros l Hl; by eapply config_same_extends.
Qed.

(** A nil entry is an error. *)
Lemma clone_loop_nil e s0 s1 pre post :
  extends s0 s1 → Forall (valid s0) pre →
  grows s1 (clone_loop e ((Some <$> pre) ++ None :: post)) (λ _ r, r = Err e).
Proof.
  intros He Hp. revert s1 He. induction Hp as [|l ls Hl _ IH]; intros s1 He; simpl; [by apply grows_ret|].
  eapply grows_bind; [by apply (grows_config s0)|]. intros l' s2 Hs2 _.
  eapply grows_bind; [apply IH; extd|]. intros r s3 Hs3 ->. by apply grows_ret.
Qed.

Lemma cloneConfigurers_nil s0 pre post visitors :
  Forall (valid s0) pre →
  grows s0 (cloneConfigurers ((Some <$> pre) ++ None :: post) visitors) (λ _ r, r = Err ProxyNil).
Proof.
  intros Hp. unfold cloneConfigurers. eapply grows_bind; [by apply (clone_loop_nil _ s0)|].
  intros r s1 Hs1 ->. by apply grows_ret.
Qed.

(** *** A source with an HTTP proxy with a plugin, and a visitor *)

Definition sample_base : hBase ref iface :=
  mkHBase "web" "http" (Some 1%positive) (Some 2%positive)
    (mkTransport false false zero_bandwidth "" "") None (mkLoadBalancer "" "")
    (mkHHealth "" 0 0 0 "" None) (mkHBackend "127.0.0.1" 80 "https2http" (Some (Some 1%positive))).
Definition sample_store : store := mkStore
  {[1%positive := LBool true; 2%positive := LMap {["team" := "infra"]}; 3%positive := LStrings ["a.example.com"];
    4%positive := LMap {["x" := "1"]}]}
  {[1%positive := HHTTPS2HTTP "https2http" "127.0.0.1:80" "" (Some 4%positive) None "" ""]}
  {[1%positive := CProxy (HHTTP sample_base (mkHDomains (Some 3%positive) "") (mkHHTTP None "" "" "" (Some 4%positive) None ""));
    2%positive := CVisitor (HVSTCP (mkHVisitorBase "v" "stcp" None (mkVTransport false false) "k" "" "s" "" 9000 "" None))]}.

Lemma sample_valid : Forall (valid sample_store) [1%positive] ∧ Forall (valid sample_store) [2%positive].
Proof.
  split; (constructor; [|constructor]).
  - eexists _, _. split; [reflexivity|]. split; [reflexivity|]. simpl.
    unfold base_rel, health_rel, backend_rel, domains_rel, http_rel. simpl.
    split_and!; try done; try (by eexists). eexists _, _. split; [reflexivity|]. split; [reflexivity|].
    simpl. split_and!; try done. by eexists.
  - eexists _, _. split; [reflexivity|]. split; [reflexivity|]. simpl. unfold vbase_rel. simpl. by split_and!.
Qed.

Lemma clones_isolated_witness :
  ∃ ps vs s', cloneConfigurers [Some 1%positive] [Some 2%positive] sample_store = Some (Ok (ps, vs), s') ∧
    Forall2 (config_same sample_store s') [1%positive; 2%positive] (ps ++ vs).
Proof.
  destruct (clones_isolated sample_store [1%positive] [2%positive] (proj1 sample_valid) (proj2 sample_valid))
    as (ps & vs & s' & Hrun & Hsame & _).
  by exists ps, vs, s'.
Defined.
