(* ===== verification/MuxLoop.v ===== *)
(** The life of a muxer, [src/pkg/util/vhost/vhost.go]: the loop that accepts connections, a handler for
    each of them, the listeners with their channels, and [Accept] and [Close] of a listener, as a
    transition system; and the host names of TLS connections, [src/pkg/util/vhost/https.go]. *)
From Stdlib Require Import ZArith Lia.
From stdpp Require Import base strings gmap list.
From S2P Require Import Prelude GoStrings Router Vhost.
Local Open Scope string_scope.
Local Open Scope list_scope.

(** ** Host names of TLS connections *)

Section https.
Context {Conn : Type}.
(** The handshake of [crypto/tls] on the first bytes of a connection: the server name of the client
    hello, if one was read. *)
Variable hello : Conn → option string.

Definition readClientHello (c : Conn) : option string := hello c.

(** The keys [Path] and [HTTPUser] are not in the map. *)
Definition GetHTTPSHostname (c : Conn) : option reqInfo :=
  (λ name, mkReqInfo name "" "") <$> readClientHello c.

(** [NewHTTPSMuxer]: no hook but for failures, and no check. *)
Definition https_funcs (set_deadline clear_deadline : Conn → bool) : mux_funcs Conn :=
  mkMuxFuncs set_deadline GetHTTPSHostname None None clear_deadline.
End https.

(** ** The muxer *)

Section mux.
Context {Conn : Type} `{Countable Conn}.
Variable mf : mux_funcs Conn.
(** [rewriteHost], when it is set, on a connection and the host of the listener. *)
Variable rewriteHost : option (Conn → string → bool).

(** A handler: reading the request; in the hook and the check of the listener it has found; blocked on the
    channel; and its ends: handed over, closed, answered by the fail hook, or dropped. *)
Inductive hphase :=
  | Reading | Checking (l : nat) (info : reqInfo) | Sending (l : nat)
  | Handed (l : nat) | HClosed | HFailed | Dropped.

(** Listeners are objects; the routers hold references to them. *)
Record muxer := mkMuxer {
  mux_open : bool;                           (* the listener of the network *)
  registryRouter : Routers nat;
  listeners : gmap nat (Listener * bool);    (* with whether the channel is open *)
  next_l : nat;
  handlers : gmap Conn hphase }.

Definition NewMuxer : muxer := mkMuxer true NewRouters ∅ 0 ∅.

Inductive event :=
  | Arrives (c : Conn)                       (* [run]: Accept, and a handler *)
  | MuxClose                                 (* [Muxer.Close]: [run] ends *)
  | Route (c : Conn)                         (* [handle] up to [getListener] *)
  | Check (c : Conn)                         (* the hook, the password, the deadline *)
  | Listen (cfg : RouteConfig unit)
  | CloseL (l : nat)                         (* [Listener.Close] *)
  | Take (l : nat) (c : Conn).               (* [Listener.Accept] receives [c] *)

Definition set_handler (c : Conn) (p : hphase) (m : muxer) : muxer :=
  mkMuxer (mux_open m) (registryRouter m) (listeners m) (next_l m) (<[c := p]> (handlers m)).

Definition is_open (l : nat) (m : muxer) : bool :=
  match listeners m !! l with Some (_, o) => o | None => false end.

Definition route (c : Conn) (m : muxer) : hphase :=
  if negb (SetDeadline mf c) then HClosed else
  match vhostFunc mf c with
  | None => HClosed
  | Some info =>
      match getListener (registryRouter m) (ToLower (ri_Host info)) (ToLower (ri_Path info)) (ri_HTTPUser info) with
      | None => HFailed
      | Some l => Checking l info
      end
  end.

Definition passes (c : Conn) (info : reqInfo) (l : Listener) : bool :=
  match successHook mf with Some f => f c info | None => true end &&
  match checkAuth mf with
  | Some f => if negb (l_username l =s? "")
              then let '(ok, noerr) := f c (l_username l) (l_password l) info in ok && noerr
              else true
  | None => true
  end &&
  ClearDeadline mf c.

(** Sending on the channel of a closed listener panics, and [PanicToError] takes it. *)
Definition check (c : Conn) (l : nat) (info : reqInfo) (m : muxer) : hphase :=
  match listeners m !! l with
  | Some (ln, o) => if passes c info ln then (if o : bool then Sending l else Dropped) else HClosed
  | None => HClosed
  end.

Definition mux_listen (cfg : RouteConfig unit) (m : muxer) : muxer :=
  match Add (Domain cfg) (Location cfg) (RouteByHTTPUser cfg) (next_l m) (registryRouter m) with
  | Ok rs => mkMuxer (mux_open m) rs (<[next_l m := (new_listener cfg, true)]> (listeners m)) (S (next_l m)) (handlers m)
  | Err _ => m
  end.

(** The route goes; closing the channel wakes the senders with a panic. *)
Definition close_listener (l : nat) (m : muxer) : option muxer :=
  match listeners m !! l with
  | Some (ln, true) =>
      Some (mkMuxer (mux_open m) (Del (l_name ln) (l_location ln) (l_routeByHTTPUser ln) (registryRouter m))
        (<[l := (ln, false)]> (listeners m)) (next_l m)
        ((λ p, match p with Sending l' => if bool_decide (l' = l) then Dropped else p | p => p end) <$> handlers m))
  | Some (_, false) => None      (* close of a closed channel *)
  | None => Some m
  end.

(** One step; [None] is a panic. *)
Definition step (m : muxer) (e : event) : option muxer :=
  match e with
  | Arrives c =>
      Some (if mux_open m then (if handlers m !! c then m else set_handler c Reading m) else m)
  | MuxClose => Some (mkMuxer false (registryRouter m) (listeners m) (next_l m) (handlers m))
  | Route c => Some (match handlers m !! c with Some Reading => set_handler c (route c m) m | _ => m end)
  | Check c => Some (match handlers m !! c with Some (Checking l info) => set_handler c (check c l info m) m | _ => m end)
  | Listen cfg => Some (mux_listen cfg m)
  | CloseL l => close_listener l m
  | Take l c =>
      Some (match handlers m !! c with
            | Some (Sending l') => if bool_decide (l' = l) then set_handler c (Handed l) m else m
            | _ => m
            end)
  end.

(** What the caller of [Accept] gets for a connection it has received. *)
Definition accept_result (l : Listener) (c : Conn) : option Conn :=
  match rewriteHost with
  | Some f => if f c (l_rewriteHost l) then Some c else None
  | None => Some c
  end.

Fixpoint run (m : muxer) (es : list event) : option muxer :=
  match es with [] => Some m | e :: es => m' ← step m e; run m' es end.

(** *** Connections reach the listener that the search found for them *)

(** When the request of [c] was looked up, the search found [l] for it. *)
Definition routed (es : list event) (c : Conn) (l : nat) (info : reqInfo) : Prop :=
  ∃ pre post m, es = pre ++ Route c :: post ∧ run NewMuxer pre = Some m ∧
    SetDeadline mf c = true ∧ vhostFunc mf c = Some info ∧
    getListener (registryRouter m) (ToLower (ri_Host info)) (ToLower (ri_Path info)) (ri_HTTPUser info) = Some l.

(** ... and it was let in: it passed the hook, the check and the deadline of [l]. *)
Definition admitted (es : list event) (m : muxer) (c : Conn) (l : nat) : Prop :=
  ∃ info ln o, routed es c l info ∧ listeners m !! l = Some (ln, o) ∧ passes c info ln = true.

Record inv (es : list event) (m : muxer) : Prop := {
  i_fresh l x : listeners m !! l = Some x → (l < next_l m)%nat;
  i_checking c l info : handlers m !! c = Some (Checking l info) → routed es c l info;
  i_sending c l : handlers m !! c = Some (Sending l) → admitted es m c l ∧ is_open l m = true;
  i_handed c l : handlers m !! c = Some (Handed l) → admitted es m c l;
  i_dropped c : handlers m !! c = Some Dropped → ∃ l, admitted es m c l }.

Lemma routed_snoc es e c l info : routed es c l info → routed (es ++ [e]) c l info.
Proof.
  intros (pre & post & m & -> & Hr). exists pre, (post ++ [e]), m. by rewrite <- app_assoc.
Qed.

Lemma admitted_mono es e m m' c l :
  (∀ l ln o, listeners m !! l = Some (ln, o) → ∃ o', listeners m' !! l = Some (ln, o')) →
  admitted es m c l → admitted (es ++ [e]) m' c l.
Proof.
  intros Hl (info & ln & o & Hr & Hln & Hp). destruct (Hl _ _ _ Hln) as [o' Hln'].
  exists info, ln, o'. split_and!; [by apply routed_snoc|done|done].
Qed.

(** Data of listeners stay. *)
Lemma step_listeners es m e m' :
  inv es m → step m e = Some m' →
  ∀ l ln o, listeners m !! l = Some (ln, o) → ∃ o', listeners m' !! l = Some (ln, o').
Proof.
  intros Hi Hs l ln o Hl. destruct e; simpl in Hs; simplify_eq; try (repeat case_match; simplify_eq/=; by eauto).
  - unfold mux_listen. case_match; [|by eauto]. simpl. rewrite lookup_insert_ne; [by eauto|].
    pose proof (i_fresh _ _ Hi _ _ Hl). lia.
  - unfold close_listener in Hs. destruct (listeners m !! l0) as [[ln0 []]|] eqn:E; simplify_eq; simpl; [|by eauto].
    destruct (decide (l = l0)) as [->|Hne]; [rewrite lookup_insert_eq|rewrite lookup_insert_ne by done]; simplify_eq; by eauto.
Qed.

Lemma inv_handler es m e c p :
  inv es m →
  (∀ l info, p = Checking l info → routed (es ++ [e]) c l info) →
  (∀ l, p = Sending l → admitted es m c l ∧ is_open l m = true) →
  (∀ l, p = Handed l → admitted es m c l) → (p = Dropped → ∃ l, admitted es m c l) →
  inv (es ++ [e]) (set_handler c p m).
Proof.
  intros Hi H1 H2 H3 H4.
  assert (∀ c0 q, handlers (set_handler c p m) !! c0 = Some q → (c0 = c ∧ q = p) ∨ handlers m !! c0 = Some q) as Hh.
  { intros c0 q. simpl. destruct (decide (c0 = c)) as [->|]; [rewrite lookup_insert_eq|rewrite lookup_insert_ne by done]; naive_solver. }
  assert (∀ c0 l, admitted es m c0 l → admitted (es ++ [e]) (set_handler c p m) c0 l) as Ha'.
  { intros c0 l. apply admitted_mono. eauto. }
  split.
  - apply (i_fresh _ _ Hi).
  - intros c0 l info [[-> Hq]|Hq]%Hh; [by apply H1|]. apply routed_snoc. by apply (i_checking _ _ Hi).
  - intros c0 l [[-> Hq]|Hq]%Hh; [destruct (H2 l) as [? ?]|destruct (i_sending _ _ Hi _ _ Hq)]; auto.
  - intros c0 l [[-> Hq]|Hq]%Hh; apply Ha'; [by apply H3|by apply (i_handed _ _ Hi)].
  - intros c0 [[-> Hq]|Hq]%Hh; [destruct H4 as [l ?]|destruct (i_dropped _ _ Hi _ Hq) as [l ?]]; eauto.
Qed.

(** A step that leaves the handlers alone, or only wakes the senders of a closed listener. *)
Lemma inv_others es m e m' :
  inv es m → step m e = Some m' → (∀ l x, listeners m' !! l = Some x → (l < next_l m')%nat) →
  (∀ c p, handlers m' !! c = Some p →
     (handlers m !! c = Some p ∧ ∀ l, p = Sending l → is_open l m' = true) ∨
     (p = Dropped ∧ ∃ l, handlers m !! c = Some (Sending l))) →
  inv (es ++ [e]) m'.
Proof.
  intros Hi Hs Hf Hh.
  assert (∀ c l, admitted es m c l → admitted (es ++ [e]) m' c l) as Ha.
  { intros c l. apply admitted_mono. by eapply step_listeners. }
  split; [done|..].
  - intros c l info [[Hq _]|[? _]]%Hh; [|done]. apply routed_snoc. by apply (i_checking _ _ Hi).
  - intros c l [[Hq Ho]|[? _]]%Hh; [|done]. split; [by apply Ha, (i_sending _ _ Hi)|by apply Ho].
  - intros c l [[Hq _]|[? _]]%Hh; [|done]. by apply Ha, (i_handed _ _ Hi).
  - intros c [[Hq _]|[_ [l Hq]]]%Hh.
    + destruct (i_dropped _ _ Hi _ Hq) as [l ?]. eauto.
    + exists l. by apply Ha, (i_sending _ _ Hi).
Qed.

Lemma inv_idle es m e : inv es m → step m e = Some m → inv (es ++ [e]) m.
Proof.
  intros Hi Hs. eapply inv_others; [done|done|apply (i_fresh _ _ Hi)|].
  intros c p Hp. left. split; [done|]. intros l ->. by apply (i_sending _ _ Hi) in Hp as [_ ?].
Qed.

Lemma mux_inv_step es m e m' : run NewMuxer es = Some m → inv es m → step m e = Some m' → inv (es ++ [e]) m'.
Proof.
  intros Hrun Hi Hs. destruct e as [c| |c|c|cfg|l|l c]; pose proof Hs as Hs'; simpl in Hs; simplify_eq.
  - destruct (mux_open m); [|by apply inv_idle]. destruct (handlers m !! c) eqn:E; [by apply inv_idle|].
    by apply inv_handler.
  - eapply inv_others; [done|done|apply (i_fresh _ _ Hi)|].
    intros c p Hp. left. split; [done|]. intros l ->. by apply (i_sending _ _ Hi) in Hp as [_ ?].
  - destruct (handlers m !! c) as [[]|] eqn:E; try by apply inv_idle.
    apply inv_handler; [done|..]; unfold route; repeat case_match; try done.
    intros l info [= <- <-]. exists es, [], m. split_and!; try done. by apply negb_false_iff.
  - destruct (handlers m !! c) as [[| l info | | | | |]|] eqn:E; try by apply inv_idle.
    apply (i_checking _ _ Hi) in E.
    unfold check. destruct (listeners m !! l) as [[ln o]|] eqn:El; [|by apply inv_handler].
    destruct (passes c info ln) eqn:Ep; [|by apply inv_handler].
    assert (admitted es m c l) as Ha by (exists info; by eexists _, _).
    destruct o; apply inv_handler; try done; [|by eauto].
    intros l2 [= <-]. split; [done|]. unfold is_open. by rewrite El.
  - eapply inv_others; [done|done|..]; unfold mux_listen; case_match; simpl.
    + intros l x. destruct (decide (l = next_l m)) as [->|Hne]; [lia|]. rewrite lookup_insert_ne by done.
      intros Hx%(i_fresh _ _ Hi). lia.
    + apply (i_fresh _ _ Hi).
    + intros c p Hp. left. split; [done|]. intros l ->. apply (i_sending _ _ Hi) in Hp as [_ Ho].
      unfold is_open in *. simpl. destruct (decide (l = next_l m)) as [->|]; [by rewrite lookup_insert_eq|].
      by rewrite lookup_insert_ne.
    + intros c p Hp. left. split; [done|]. intros l ->. by apply (i_sending _ _ Hi) in Hp as [_ ?].
  - unfold close_listener in Hs. destruct (listeners m !! l) as [[ln []]|] eqn:E; simplify_eq; [|apply inv_idle; [done|]; simpl; unfold close_listener; by rewrite E].
    eapply inv_others; [done|by simpl; unfold close_listener; rewrite E|..]; simpl.
    + intros l' x. destruct (decide (l' = l)) as [->|Hne]; [intros _; by apply (i_fresh _ _ Hi) in E|].
      rewrite lookup_insert_ne by done. apply (i_fresh _ _ Hi).
    + intros c p. rewrite lookup_fmap_Some. intros (q & <- & Hq). destruct q as [| |l'| | | |]; try (left; by split).
      case_bool_decide as Hl; [right; by eauto|]. left. split; [done|]. intros l2 [= <-].
      apply (i_sending _ _ Hi) in Hq as [_ Ho]. unfold is_open in *. simpl. by rewrite lookup_insert_ne.
  - destruct (handlers m !! c) as [[| |l'| | | |]|] eqn:E; try by apply inv_idle.
    case_bool_decide as Hl; [subst l'|by apply inv_idle].
    apply inv_handler; try done. intros l2 [= <-]. by apply (i_sending _ _ Hi) in E as [? _].
Qed.

Lemma run_snoc m es e : run m (es ++ [e]) = run m es ≫= λ m', step m' e.
Proof.
  revert m. induction es as [|e' es IH]; intros m; simpl; [by destruct (step m e)|].
  destruct (step m e'); simpl; [apply IH|done].
Qed.

Lemma run_inv es m : run NewMuxer es = Some m → inv es m.
Proof.
  revert m. induction es as [|e es IH] using rev_ind; intros m Hr.
  { simpl in Hr. simplify_eq. by split; intros *; simpl; rewrite ?lookup_empty. }
  rewrite run_snoc in Hr. destruct (run NewMuxer es) as [m0|] eqn:E; [|done]. simpl in Hr. eauto using mux_inv_step.
Qed.

(** The ends of a handler. *)
Definition ended (p : hphase) : bool :=
  match p with Reading | Checking _ _ | Sending _ => false | _ => true end.

Lemma ended_stays es m m' c p :
  run m es = Some m' → handlers m !! c = Some p → ended p = true → handlers m' !! c = Some p.
Proof.
  intros Hr Hp He. revert m Hr Hp. induction es as [|e es IH]; intros m Hr Hp; simpl in Hr; [by simplify_eq|].
  destruct (step m e) as [m1|] eqn:Hs; [|done]. apply (IH m1 Hr). clear IH Hr.
  assert (∀ c' q, q = p ∨ c' ≠ c → handlers (set_handler c' q m) !! c = Some p) as Hset.
  { intros c' q Hq. simpl. destruct (decide (c = c')) as [->|]; [rewrite lookup_insert_eq; naive_solver|by rewrite lookup_insert_ne]. }
  destruct e as [c'| |c'|c'|cfg|l|l c']; simpl in Hs; simplify_eq; try done.
  - destruct (mux_open m); [|done]. destruct (handlers m !! c') eqn:E; [done|]. apply Hset. right. congruence.
  - destruct (handlers m !! c') as [[]|] eqn:E; try done. apply Hset. right. intros ->. by simplify_eq.
  - destruct (handlers m !! c') as [[]|] eqn:E; try done. apply Hset. right. intros ->. by simplify_eq.
  - unfold mux_listen. by case_match.
  - unfold close_listener in Hs. repeat case_match; simplify_eq; simpl; [|done]. rewrite lookup_fmap, Hp. by destruct p.
  - destruct (handlers m !! c') as [[]|] eqn:E; try done. case_bool_decide; [|done]. apply Hset. right. intros ->. by simplify_eq.
Qed.

(** C19: The muxer keeps its hosts apart, whatever the order in which connections arrive and are read, and
    listeners come, accept and go: a connection that a listener was handed was found for the host, path
    and user of its request, and had passed the check of that listener; it is handed over once and for
    all. Nobody waits on a listener that is closed. *)
Theorem mux_isolation es m :
  run NewMuxer es = Some m →
  (∀ c l, handlers m !! c = Some (Handed l) →
     admitted es m c l ∧ ∀ es' m', run m es' = Some m' → handlers m' !! c = Some (Handed l)) ∧
  (∀ c l, handlers m !! c = Some (Sending l) → admitted es m c l ∧ is_open l m = true).
Proof.
  intros Hr. pose proof (run_inv es m Hr) as Hi. split; [|apply (i_sending _ _ Hi)].
  intros c l Hc. split; [by apply (i_handed _ _ Hi)|]. intros es' m' Hr'. by eapply ended_stays.
Qed.

(** A connection that waits when its listener is closed is dropped: it is never handed over, never
    closed, and has no deadline any more. *)
Lemma closed_listener_drops m l c m' es m'' :
  handlers m !! c = Some (Sending l) → is_open l m = true → step m (CloseL l) = Some m' →
  run m' es = Some m'' → handlers m'' !! c = Some Dropped.
Proof.
  intros Hc Ho Hs Hr. eapply ended_stays; [exact Hr| |done]. simpl in Hs. unfold close_listener in Hs.
  unfold is_open in Ho. repeat case_match; simplify_eq. simpl. rewrite lookup_fmap, Hc. simpl. by rewrite bool_decide_eq_true_2.
Qed.
End mux.

(** ** Two hosts, a connection for each, and one for a host that nobody serves *)

Definition tls_names (c : nat) : option string :=
  match c with 1%nat => Some "A.example.com" | 2%nat => Some "b.example.com" | 3%nat => Some "c.example.org" | _ => None end.
Definition tls_funcs : mux_funcs nat := https_funcs tls_names (λ _, true) (λ _, true).
Definition route_for_host (d : string) : RouteConfig unit := mkRouteConfig d "" "" "" "" ∅ ∅ "" None None None.
Definition tls_events : list (event (Conn := nat)) :=
  [Listen (route_for_host "a.example.com"); Listen (route_for_host "*.example.com"); Arrives 1%nat; Arrives 2%nat; Arrives 3%nat;
   Route 2%nat; Route 1%nat; Check 1%nat; Route 3%nat; Check 2%nat; Take 0%nat 1%nat].

Definition phases (r : option (muxer (Conn := nat))) : list (option hphase) :=
  match r with Some m => (λ c, handlers m !! c) <$> [1; 2; 3]%nat | None => [] end.

Lemma tls_phases :
  phases (run tls_funcs NewMuxer tls_events) = [Some (Handed 0); Some (Sending 1); Some HFailed].
Proof. vm_compute. reflexivity. Qed.

Lemma phases_first r p ps : phases r = Some p :: ps → ∃ m, r = Some m ∧ handlers m !! 1%nat = Some p.
Proof. destruct r as [m|]; [|done]. cbn. intros [= H _]. by exists m. Qed.

Lemma mux_isolation_witness :
  ∃ m, run tls_funcs NewMuxer tls_events = Some m ∧ handlers m !! 1%nat = Some (Handed 0) ∧
    admitted tls_funcs tls_events m 1%nat 0.
Proof.
  destruct (phases_first _ _ _ tls_phases) as (m & E & H1). exists m. split; [exact E|]. split; [exact H1|].
  exact (proj1 (proj1 (mux_isolation tls_funcs tls_events m E) _ _ H1)).
Defined.
