(* ===== verification/XtcpTunnel.v ===== *)
(** The tunnels of xtcp: the goroutines of a visitor that start the hole punching
    ([processTunnelStartEvents] and [keepTunnelOpenWorker] of [src/client/visitor/xtcp.go]), and the
    sessions over the hole on the side of the proxy ([listenByKCP] and [listenByQUIC] of
    [src/client/proxy/xtcp.go]). *)
From Stdlib Require Import ZArith Lia Sorting.Sorted.
From stdpp Require Import base strings gmap list.
From S2P Require Import Prelude.
Local Open Scope string_scope.
Local Open Scope list_scope.
Local Open Scope Z_scope.

(** ** The visitor: when holes are punched *)

Module Starter.

Definition min_period : duration := 10 * Second.

(** [processTunnelStartEvents]: in the select, in [makeNatHole] since a time, asleep until a time, or ended. *)
Inductive proc := PSelect | PPunch (start : time) | PSleep (until : time) | PDone.
(** [keepTunnelOpenWorker]: in its first send, in the select, waiting for the limiter, or ended; or not
    started at all. *)
Inductive keeper := KNone | KFirst | KSelect | KLimited | KDone.

Record t := mk {
  now : time; cancelled : bool; process : proc; keep : keeper;
  starts : list time }.                       (* of [makeNatHole], newest first *)

Definition init (keepTunnelOpen : bool) (start : time) : t :=
  mk start false PSelect (if keepTunnelOpen then KFirst else KNone) [].

Inductive event :=
  | Elapse (d : duration)                     (* time goes by *)
  | Cancel                                    (* [Close] of the visitor *)
  | ProcDone                                  (* the select takes [ctx.Done] *)
  | UserFails                                 (* [getTunnelConn] for a user connection fails *)
  | PunchEnds | Wakes                         (* [makeNatHole] returns; [Sleep] returns *)
  | KeeperSends                               (* the first send is taken *)
  | KeeperTick (ok : bool)                    (* the ticker fires and the tunnel is checked *)
  | LimiterDone                               (* [retryLimiter.Wait] returns *)
  | KeeperDone.                               (* the select takes [ctx.Done] *)

Definition with_proc (p : proc) (s : t) : t := mk (now s) (cancelled s) p (keep s) (starts s).
Definition with_keep (k : keeper) (s : t) : t := mk (now s) (cancelled s) (process s) k (starts s).

(** The select of [processTunnelStartEvents] receives from [startTunnelCh]. *)
Definition begin_punch (s : t) : t := mk (now s) (cancelled s) (PPunch (now s)) (keep s) (now s :: starts s).

(** [select { case sv.startTunnelCh <- struct{}{}: default: }]: the channel has no buffer, so that the
    request counts only when the other side is waiting. *)
Definition request (s : t) : t := match process s with PSelect => begin_punch s | _ => s end.

(** [duration := time.Since(start); if duration < 10*time.Second { time.Sleep(10*time.Second - duration) }] *)
Definition after_punch (start : time) (s : t) : t :=
  let d := now s - start in
  with_proc (if d <? min_period then PSleep (now s + (min_period - d)) else PSelect) s.

Definition step (s : t) (e : event) : t :=
  match e with
  | Elapse d => if 0 <=? d then mk (now s + d) (cancelled s) (process s) (keep s) (starts s) else s
  | Cancel => mk (now s) true (process s) (keep s) (starts s)
  | ProcDone => match process s with PSelect => if cancelled s then with_proc PDone s else s | _ => s end
  | UserFails => request s
  | PunchEnds => match process s with PPunch start => after_punch start s | _ => s end
  | Wakes => match process s with PSleep u => if u <=? now s then with_proc PSelect s else s | _ => s end
  | KeeperSends =>
      match keep s, process s with KFirst, PSelect => with_keep KSelect (begin_punch s) | _, _ => s end
  | KeeperTick ok =>
      match keep s with KSelect => if ok : bool then s else with_keep KLimited (request s) | _ => s end
  | LimiterDone => match keep s with KLimited => with_keep KSelect s | _ => s end
  | KeeperDone => match keep s with KSelect => if cancelled s then with_keep KDone s else s | _ => s end
  end.

Definition run (s : t) (es : list event) : t := foldl step s es.

(** *** Holes are not punched too often *)

Definition spaced (a b : time) : Prop := b + min_period <= a.

Record inv (s0 : time) (s : t) : Prop := {
  i_sorted : StronglySorted spaced (starts s);
  i_past : Forall (λ x, s0 <= x <= now s) (starts s);
  i_now : s0 <= now s;
  i_proc : match process s with
           | PSelect => Forall (spaced (now s)) (starts s)
           | PPunch st => head (starts s) = Some st
           | PSleep u => Forall (spaced u) (starts s)
           | PDone => True
           end }.

Lemma spaced_later a a' l : a <= a' → Forall (spaced a) l → Forall (spaced a') l.
Proof. intros H Hl. eapply Forall_impl; [exact Hl|]. unfold spaced. lia. Qed.

Lemma inv_begin s0 s : inv s0 s → process s = PSelect → inv s0 (begin_punch s).
Proof.
  intros [Hs Hp Hn Hpr] E. rewrite E in Hpr. split; simpl; [by constructor|..]; try done.
  constructor; [lia|done].
Qed.

Lemma inv_request s0 s : inv s0 s → inv s0 (request s).
Proof. intros Hi. unfold request. destruct (process s) eqn:E; try done. by apply inv_begin. Qed.

Lemma inv_keep s0 s k : inv s0 s → inv s0 (with_keep k s).
Proof. by intros []. Qed.

Lemma head_spaced l st a : StronglySorted spaced l → head l = Some st → spaced a st → Forall (spaced a) l.
Proof.
  intros Hs Hh Ha. destruct l as [|x l]; [done|]. simpl in Hh. simplify_eq. inversion_clear Hs as [|? ? _ Hl].
  constructor; [done|]. eapply Forall_impl; [exact Hl|]. unfold spaced in *. unfold min_period in *. intros; simpl in *.
  assert (0 <= 10 * Second) by (vm_compute; done). lia.
Qed.

Lemma punch_inv_step s0 s e : inv s0 s → inv s0 (step s e).
Proof.
  intros Hi. destruct e as [d| | | | | | |ok| |]; simpl.
  - destruct (Z.leb_spec 0 d) as [Hd|Hd]; [|done]. destruct Hi as [Hs Hp Hn Hpr]. split; simpl; [done| |lia|].
    + eapply Forall_impl; [exact Hp|]. simpl. lia.
    + destruct (process s); try done. eapply spaced_later; [|exact Hpr]. lia.
  - by destruct Hi.
  - destruct (process s) eqn:E; try done. destruct (cancelled s); [|done]. destruct Hi. by split.
  - by apply inv_request.
  - destruct (process s) as [|st| |] eqn:E; try done. destruct Hi as [Hs Hp Hn Hpr]. rewrite E in Hpr.
    unfold after_punch. destruct (Z.ltb_spec (now s - st) min_period) as [Hlt|Hge]; split; simpl; try done;
      (eapply head_spaced; [done|done|unfold spaced; lia]).
  - destruct (process s) as [| |u|] eqn:E; try done. destruct (Z.leb_spec u (now s)) as [Hu|]; [|done].
    destruct Hi as [Hs Hp Hn Hpr]. rewrite E in Hpr. split; simpl; try done. by eapply spaced_later.
  - destruct (keep s); try done. destruct (process s) eqn:E; try done. by apply inv_keep, inv_begin.
  - destruct (keep s); try done. destruct ok; [done|]. by apply inv_keep, inv_request.
  - destruct (keep s); try done. by apply inv_keep.
  - destruct (keep s); try done. destruct (cancelled s); [|done]. by apply inv_keep.
Qed.

Lemma punch_inv_run s0 s es : inv s0 s → inv s0 (run s es).
Proof. revert s. induction es as [|e es IH]; intros s Hi; [done|]. by apply IH, punch_inv_step. Qed.

Lemma spaced_count s0 a l :
  StronglySorted spaced l → Forall (λ x, s0 <= x) l → head l = Some a → Z.of_nat (length l) * min_period <= a - s0 + min_period.
Proof.
  revert a. induction l as [|x l IH]; intros a Hs Hp Hh; [done|]. simpl in Hh. simplify_eq.
  inversion_clear Hs as [|? ? Hs' Hl]. apply Forall_cons in Hp as [Hx Hp]. rewrite length_cons, Nat2Z.inj_succ.
  destruct l as [|y l]; [simpl; lia|]. specialize (IH y Hs' Hp eq_refl).
  apply Forall_cons in Hl as [Hy _]. unfold spaced in Hy. lia.
Qed.

(** However often user connections and the keeper ask for a tunnel, two attempts to punch a hole begin at
    least ten seconds apart, so that in a time [T] there are at most [T / 10s + 1] of them. *)
Theorem punches_spaced keepOpen start es :
  let s := run (init keepOpen start) es in
  StronglySorted spaced (starts s) ∧
  Z.of_nat (length (starts s)) * min_period <= now s - start + min_period.
Proof.
  intros s. assert (inv start s) as [Hs Hp Hn _].
  { apply punch_inv_run. split; simpl; [constructor..|lia|constructor]. }
  split; [done|]. assert (0 <= min_period) by (vm_compute; done).
  destruct (starts s) as [|a l] eqn:E; [simpl; lia|].
  pose proof (spaced_count start a (a :: l) Hs ltac:(eapply Forall_impl; [exact Hp|]; simpl; lia) eq_refl).
  apply Forall_cons in Hp as [Ha _]. lia.
Qed.

(** *** The keeper may wait for ever *)

(** The first send of the keeper is not in a select: when the visitor is closed before it is taken, nobody
    receives it any more, and the keeper stays. *)
Lemma keeper_stuck s es : keep s = KFirst → process s = PDone → keep (run s es) = KFirst ∧ process (run s es) = PDone.
Proof.
  revert s. induction es as [|e es IH]; intros s Hk Hp; [done|]. simpl. apply IH; destruct e; simpl; unfold request;
    rewrite ?Hk, ?Hp; try done; try (by case_match); by rewrite ?Hk, ?Hp.
Qed.

(** It is enough that the receiver sees the end of the context first. *)
Lemma closed_early_stuck start :
  let s := run (init true start) [Cancel; ProcDone] in keep s = KFirst ∧ process s = PDone.
Proof. done. Qed.
End Starter.

(** ** The proxy: sessions over the hole *)

Module Sessions.

(** The sockets and sessions the two functions deal with. *)
Inductive res := ListenConn | DialConn | KcpSession | QuicConn.

Definition res_eqb (a b : res) : bool :=
  match a, b with
  | ListenConn, ListenConn | DialConn, DialConn | KcpSession, KcpSession | QuicConn, QuicConn => true
  | _, _ => false
  end.
Definition mem (r : res) (open : list res) : bool := existsb (res_eqb r) open.

Inductive act (Stream : Type) := Opens (r : res) | Closes (r : res) | Handles (s : Stream) (key : string).
Arguments Opens {Stream}. Arguments Closes {Stream}. Arguments Handles {Stream}.

Section sessions.
Context {Stream : Type}.
Variable Secretkey : string.

(** The loop over the streams that the other side opens, until [Accept] fails. *)
Definition handle_all (streams : list Stream) : list (act Stream) := (λ s, Handles s Secretkey) <$> streams.

(** The answers: whether dialling from the local address of the hole, the KCP connection and the session
    succeed, and the streams that are accepted. Deferred calls run at the return, last first. *)
Definition listenByKCP (dial kcp session : bool) (streams : list Stream) : list (act Stream) :=
  [Closes ListenConn] ++
  if negb dial then [] else
  [Opens DialConn] ++
  if negb kcp then [Closes DialConn] else
  if negb session then [Closes DialConn] else
  [Opens KcpSession] ++ handle_all streams ++ [Closes KcpSession; Closes DialConn].

Definition listenByQUIC (tls listen accept : bool) (streams : list Stream) : list (act Stream) :=
  (if negb tls then [] else
   if negb listen then [] else
   if negb accept then [] else
   [Opens QuicConn] ++ handle_all streams ++ [Closes QuicConn]) ++ [Closes ListenConn].

(** The last part of [InWorkConn]; the connection of the hole is open. *)
Definition serve_hole (protocol : string) (a1 a2 a3 : bool) (streams : list Stream) : list (act Stream) :=
  if protocol =s? "kcp" then listenByKCP a1 a2 a3 streams else listenByQUIC a1 a2 a3 streams.

(** What is open after some actions. *)
Definition do_act (open : list res) (a : act Stream) : list res :=
  match a with Opens r => r :: open | Closes r => List.filter (λ x, negb (res_eqb x r)) open | Handles _ _ => open end.

(** The streams and keys handed to [HandleTCPWorkConnection]. *)
Definition handled (as_ : list (act Stream)) : list (Stream * string) :=
  omap (λ a, match a with Handles s k => Some (s, k) | _ => None end) as_.

Lemma handle_all_open open streams : foldl do_act open (handle_all streams) = open.
Proof. unfold handle_all. induction streams as [|s l IH]; [done|exact IH]. Qed.

Lemma handled_all streams : handled (handle_all streams) = (λ s, (s, Secretkey)) <$> streams.
Proof. unfold handled, handle_all. induction streams as [|s l IH]; [done|]. cbn. f_equal. exact IH. Qed.

(** A socket that was closed is not closed twice, nor used before it is opened: the streams are served while
    their session is open. *)
Fixpoint orderly (open : list res) (as_ : list (act Stream)) : bool :=
  match as_ with
  | [] => true
  | a :: as_ =>
      match a with
      | Opens r => negb (mem r open)
      | Closes r => mem r open
      | Handles _ _ => mem KcpSession open || mem QuicConn open
      end && orderly (do_act open a) as_
  end.

Lemma orderly_app open a b : orderly open (a ++ b) = orderly open a && orderly (foldl do_act open a) b.
Proof.
  revert open. induction a as [|x a IH]; intros open; [done|]. simpl. by rewrite IH, andb_assoc.
Qed.

Lemma orderly_all open streams :
  mem KcpSession open || mem QuicConn open = true → orderly open (handle_all streams) = true.
Proof.
  intros H. unfold handle_all. induction streams as [|s l IH]; [done|].
  cbn [fmap list_fmap orderly do_act]. by rewrite H.
Qed.

(** Whatever fails, when the session of the hole ends no socket is left: not the one the hole was made
    with, nor the one that replaced it, nor the session. In between the streams of the other side are
    served in order, each with the secret key of the proxy, and all of them when nothing fails. *)
Theorem hole_session_clean protocol a1 a2 a3 streams :
  let as_ := serve_hole protocol a1 a2 a3 streams in
  foldl do_act [ListenConn] as_ = [] ∧ orderly [ListenConn] as_ = true ∧
  handled as_ = if a1 && a2 && a3 then (λ s, (s, Secretkey)) <$> streams else [].
Proof.
  assert (∀ x y, handled (x ++ y) = handled x ++ handled y) as Happ by (intros; apply omap_app).
  unfold serve_hole, listenByKCP, listenByQUIC. destruct (protocol =s? "kcp"), a1, a2, a3; cbn [negb andb]; try done;
    rewrite !foldl_app, !orderly_app, !Happ, handle_all_open, handled_all; cbn;
    (rewrite orderly_all by done); rewrite ?app_nil_r, ?foldl_app, ?handle_all_open; done.
Qed.
End sessions.
End Sessions.
