(* ===== verification/ProxyFactory.v ===== *)
(** The creation of proxies from their configurations: [NewProxy] and the registered factories of the
    server ([src/server/proxy]) and of the client ([src/client/proxy]). *)
From Stdlib Require Import ZArith Lia.
From stdpp Require Import base strings gmap list.
From S2P Require Import Prelude Auth ServerPlugins ProxyConf.
Local Open Scope string_scope.
Local Open Scope list_scope.

Section factory.
Context {plugin : Type}.
Implicit Types (c : ProxyConfigurer plugin).

(** [reflect.TypeOf] of a configurer. *)
Inductive tag := TTCP | TUDP | THTTP | THTTPS | TTCPMux | TSTCP | TXTCP | TSUDP.
#[export] Instance tag_eq_dec : EqDecision tag.
Proof. solve_decision. Defined.

Definition TypeOf c : tag :=
  match c with
  | TCPProxyConfig _ _ => TTCP | UDPProxyConfig _ _ => TUDP | HTTPProxyConfig _ _ _ => THTTP
  | HTTPSProxyConfig _ _ => THTTPS | TCPMuxProxyConfig _ _ _ => TTCPMux | STCPProxyConfig _ _ _ => TSTCP
  | XTCPProxyConfig _ _ _ _ => TXTCP | SUDPProxyConfig _ _ _ => TSUDP
  end.

(** [proxyFactoryRegistry]: a map; a later registration of a type replaces an earlier one. *)
Definition registry (F : Type) : Type := tag → option F.
Definition RegisterProxyFactory {F} (ty : tag) (factory : F) (r : registry F) : registry F :=
  λ t, if bool_decide (t = ty) then Some factory else r t.
Definition register_all {F} (inits : list (tag * F)) : registry F :=
  foldl (λ r e, RegisterProxyFactory e.1 e.2 r) (λ _, None) inits.

(** [BandwidthLimit.Bytes()] and the rate limiter of [golang.org/x/time/rate], by its rate, for one side. *)
Definition limiter_for (mode : string) c : option Z :=
  let t := Transport (GetBaseConfig c) in
  let limitBytes := bw_i (BandwidthLimit t) in
  if (0 <? limitBytes)%Z && (BandwidthLimitMode t =s? mode) then Some limitBytes else None.

(** ** The server *)

Record sOptions := mkSOptions {
  so_UserInfo : UserInfo; so_LoginMsg : Login; so_PoolCount : Z; so_EncryptionKey : string;
  so_Configurer : ProxyConfigurer plugin }.

Record sBaseProxy := mkSBase {
  sb_name : string; sb_usedPortsNum : Z; sb_poolCount : Z; sb_encryptionKey : string;
  sb_limiter : option Z; sb_userInfo : UserInfo; sb_loginMsg : Login; sb_configurer : ProxyConfigurer plugin }.

(** A proxy: its type, and the base with the configuration. *)
Record sProxy := mkSProxy { sp_kind : tag; sp_base : sBaseProxy }.

Definition use_ports (n : Z) (b : sBaseProxy) : sBaseProxy :=
  mkSBase (sb_name b) n (sb_poolCount b) (sb_encryptionKey b) (sb_limiter b) (sb_userInfo b) (sb_loginMsg b) (sb_configurer b).

Definition server_NewTCPProxy (b : sBaseProxy) : option sProxy :=
  match sb_configurer b with TCPProxyConfig _ _ => Some (mkSProxy TTCP (use_ports 1 b)) | _ => None end.
Definition server_NewUDPProxy (b : sBaseProxy) : option sProxy :=
  match sb_configurer b with UDPProxyConfig _ _ => Some (mkSProxy TUDP (use_ports 1 b)) | _ => None end.
Definition server_NewHTTPProxy (b : sBaseProxy) : option sProxy :=
  match sb_configurer b with HTTPProxyConfig _ _ _ => Some (mkSProxy THTTP b) | _ => None end.
Definition server_NewHTTPSProxy (b : sBaseProxy) : option sProxy :=
  match sb_configurer b with HTTPSProxyConfig _ _ => Some (mkSProxy THTTPS b) | _ => None end.
Definition server_NewTCPMuxProxy (b : sBaseProxy) : option sProxy :=
  match sb_configurer b with TCPMuxProxyConfig _ _ _ => Some (mkSProxy TTCPMux b) | _ => None end.
Definition server_NewSTCPProxy (b : sBaseProxy) : option sProxy :=
  match sb_configurer b with STCPProxyConfig _ _ _ => Some (mkSProxy TSTCP b) | _ => None end.
Definition server_NewXTCPProxy (b : sBaseProxy) : option sProxy :=
  match sb_configurer b with XTCPProxyConfig _ _ _ _ => Some (mkSProxy TXTCP b) | _ => None end.
Definition server_NewSUDPProxy (b : sBaseProxy) : option sProxy :=
  match sb_configurer b with SUDPProxyConfig _ _ _ => Some (mkSProxy TSUDP b) | _ => None end.

(** The [init] functions of the package. *)
Definition server_inits : list (tag * (sBaseProxy → option sProxy)) :=
  [(THTTP, server_NewHTTPProxy); (THTTPS, server_NewHTTPSProxy); (TSTCP, server_NewSTCPProxy);
   (TSUDP, server_NewSUDPProxy); (TTCP, server_NewTCPProxy); (TTCPMux, server_NewTCPMuxProxy);
   (TUDP, server_NewUDPProxy); (TXTCP, server_NewXTCPProxy)].

Inductive factory_error := TypeNotSupport | ProxyNotCreated.

Definition server_NewProxy (r : registry (sBaseProxy → option sProxy)) (o : sOptions) : result factory_error sProxy :=
  let c := so_Configurer o in
  let basePxy := mkSBase (Name (GetBaseConfig c)) 0 (so_PoolCount o) (so_EncryptionKey o) (limiter_for "server" c)
                   (so_UserInfo o) (so_LoginMsg o) c in
  match r (TypeOf c) with
  | None => Err TypeNotSupport
  | Some factory => match factory basePxy with Some pxy => Ok pxy | None => Err ProxyNotCreated end
  end.

(** ** The client *)

Record cBaseProxy := mkCBase { cb_baseCfg : ProxyBaseConfig plugin; cb_encryptionKey : string; cb_limiter : option Z }.

(** The general proxy over TCP, which does not look at its type, and the three others. *)
Inductive cProxy :=
  | GeneralTCPProxy (b : cBaseProxy)
  | CUDPProxy (b : cBaseProxy) (cfg : ProxyConfigurer plugin)
  | CSUDPProxy (b : cBaseProxy) (cfg : ProxyConfigurer plugin)
  | CXTCPProxy (b : cBaseProxy) (cfg : ProxyConfigurer plugin).

Definition NewGeneralTCPProxy (b : cBaseProxy) c : option cProxy := Some (GeneralTCPProxy b).
Definition client_NewUDPProxy (b : cBaseProxy) c : option cProxy :=
  match c with UDPProxyConfig _ _ => Some (CUDPProxy b c) | _ => None end.
Definition client_NewSUDPProxy (b : cBaseProxy) c : option cProxy :=
  match c with SUDPProxyConfig _ _ _ => Some (CSUDPProxy b c) | _ => None end.
Definition client_NewXTCPProxy (b : cBaseProxy) c : option cProxy :=
  match c with XTCPProxyConfig _ _ _ _ => Some (CXTCPProxy b c) | _ => None end.

Definition general_inits : list (tag * (cBaseProxy → ProxyConfigurer plugin → option cProxy)) :=
  (λ t, (t, NewGeneralTCPProxy)) <$> [TTCP; THTTP; THTTPS; TSTCP; TTCPMux].
Definition client_inits : list (tag * (cBaseProxy → ProxyConfigurer plugin → option cProxy)) :=
  general_inits ++ [(TSUDP, client_NewSUDPProxy); (TUDP, client_NewUDPProxy); (TXTCP, client_NewXTCPProxy)].

Definition client_NewProxy (r : registry (cBaseProxy → ProxyConfigurer plugin → option cProxy)) (key : string) c
    : option cProxy :=
  match r (TypeOf c) with
  | None => None
  | Some factory => factory (mkCBase (GetBaseConfig c) key (limiter_for "client" c)) c
  end.

(** ** Every configuration has its proxy *)

(** Registrations of different types, in any order. *)
Lemma register_all_lookup {F} (inits order : list (tag * F)) ty f :
  NoDup inits.*1 → order ≡ₚ inits → (ty, f) ∈ inits → register_all order ty = Some f.
Proof.
  intros Hnd Hp Hin. rewrite <- Hp in Hnd, Hin. clear Hp inits. unfold register_all.
  induction order as [|[ty' f'] order IH] using rev_ind; [by apply not_elem_of_nil in Hin|].
  rewrite foldl_app. cbn [foldl]. unfold RegisterProxyFactory at 1. simpl.
  rewrite fmap_app, NoDup_app in Hnd. destruct Hnd as (Hnd & Hdis & _).
  apply elem_of_app in Hin as [Hin|Hin].
  - rewrite bool_decide_eq_false_2; [by apply IH|]. intros ->. apply (Hdis ty').
    + apply list_elem_of_fmap. by exists (ty', f).
    + simpl. set_solver.
  - apply list_elem_of_singleton in Hin. simplify_eq. by rewrite bool_decide_eq_true_2.
Qed.

Lemma server_inits_distinct : NoDup server_inits.*1.
Proof. apply (bool_decide_unpack _). reflexivity. Qed.
Lemma client_inits_distinct : NoDup client_inits.*1.
Proof. apply (bool_decide_unpack _). reflexivity. Qed.

Definition port_count (ty : tag) : Z := match ty with TTCP | TUDP => 1 | _ => 0 end.

(** Whatever the order of the [init] functions, every configuration gets a proxy of its own type on the
    server, with its name, its configuration, its limiter, and one port for tcp and udp. *)
Lemma server_NewProxy_ok order o :
  order ≡ₚ server_inits →
  server_NewProxy (register_all order) o =
    Ok (mkSProxy (TypeOf (so_Configurer o))
      (mkSBase (Name (GetBaseConfig (so_Configurer o))) (port_count (TypeOf (so_Configurer o))) (so_PoolCount o)
         (so_EncryptionKey o) (limiter_for "server" (so_Configurer o)) (so_UserInfo o) (so_LoginMsg o) (so_Configurer o))).
Proof.
  intros Hp. unfold server_NewProxy.
  assert (∀ ty f, (ty, f) ∈ server_inits → register_all order ty = Some f) as Hr.
  { intros. by eapply register_all_lookup; [apply server_inits_distinct|..]. }
  destruct o as [u l pc k c]. simpl. destruct c; simpl;
    (erewrite Hr; [|unfold server_inits; rewrite !elem_of_cons; by eauto 10]); done.
Qed.

Definition client_kind (p : cProxy) (ty : tag) : Prop :=
  match p with
  | GeneralTCPProxy _ => ty ∈ [TTCP; THTTP; THTTPS; TSTCP; TTCPMux]
  | CUDPProxy _ _ => ty = TUDP | CSUDPProxy _ _ => ty = TSUDP | CXTCPProxy _ _ => ty = TXTCP
  end.
Definition client_base (p : cProxy) : cBaseProxy :=
  match p with GeneralTCPProxy b | CUDPProxy b _ | CSUDPProxy b _ | CXTCPProxy b _ => b end.

Lemma client_NewProxy_ok order key c :
  order ≡ₚ client_inits →
  ∃ p, client_NewProxy (register_all order) key c = Some p ∧ client_kind p (TypeOf c) ∧
    client_base p = mkCBase (GetBaseConfig c) key (limiter_for "client" c).
Proof.
  intros Hp. unfold client_NewProxy.
  assert (∀ ty f, (ty, f) ∈ client_inits → register_all order ty = Some f) as Hr.
  { intros. by eapply register_all_lookup; [apply client_inits_distinct|..]. }
  destruct c; simpl; (erewrite Hr; [|unfold client_inits, general_inits; cbn [fmap list_fmap app]; rewrite !elem_of_cons; by eauto 12]);
    eexists; (split; [done|]); simpl; split; try done; set_solver.
Qed.
End factory.

Section pair.
Context (parse_scaled : string → Z → option Z) {plugin : Type} (plugin_Complete : plugin → plugin).

Lemma transmitted_type (c : ProxyConfigurer plugin) : TypeOf (transmitted c) = TypeOf c.
Proof. by destruct c. Qed.
Lemma transmitted_base_of (c : ProxyConfigurer plugin) :
  GetBaseConfig (transmitted c) = transmitted_base (GetBaseConfig c).
Proof. by destruct c. Qed.

(** A configuration and what becomes of it on both sides: the client makes a proxy of its type, the
    server, from the message of the client, one of the same type and name; and a limit on the bandwidth
    is applied by exactly one of them, the one that the mode names. *)
Theorem proxy_pair (c : ProxyConfigurer plugin) corder sorder key user login pool :
  corder ≡ₚ client_inits → sorder ≡ₚ server_inits →
  Type_ (GetBaseConfig c) = type_name c → Complete plugin plugin_Complete c = c →
  bw_read parse_scaled (BandwidthLimit (Transport (GetBaseConfig c))) →
  let t := Transport (GetBaseConfig c) in
  ∃ pc c' ps, client_NewProxy (register_all corder) key c = Some pc ∧
    configurer_of_msg parse_scaled plugin plugin_Complete (MarshalToMsg c zero_NewProxy) = Some c' ∧
    server_NewProxy (register_all sorder) (mkSOptions user login pool key c') = Ok ps ∧
    client_kind pc (TypeOf c) ∧ sp_kind ps = TypeOf c ∧ sb_name (sp_base ps) = Name (GetBaseConfig c) ∧
    ((0 < bw_i (BandwidthLimit t))%Z → BandwidthLimitMode t ∈ ["client"; "server"] →
       (cb_limiter (client_base pc), sb_limiter (sp_base ps)) =
       if BandwidthLimitMode t =s? "client" then (Some (bw_i (BandwidthLimit t)), None)
       else (None, Some (bw_i (BandwidthLimit t)))) ∧
    ((bw_i (BandwidthLimit t) <= 0)%Z → cb_limiter (client_base pc) = None ∧ sb_limiter (sp_base ps) = None).
Proof.
  intros Hc Hs Hty Hcomp Hbw t. destruct (client_NewProxy_ok corder key c Hc) as (pc & Hpc & Hkind & Hbase).
  exists pc, (transmitted c). eexists. split; [done|].
  split; [by apply configurer_roundtrip|]. split; [by apply server_NewProxy_ok|].
  simpl. rewrite transmitted_type, transmitted_base_of, Hbase. simpl. split; [done|]. split; [done|]. split; [done|].
  unfold limiter_for. rewrite transmitted_base_of. fold t. simpl. fold t. split.
  - intros Hlim Hmode. rewrite (proj2 (Z.ltb_lt _ _) Hlim). cbn [andb].
    rewrite !elem_of_cons, elem_of_nil in Hmode. destruct Hmode as [->|[->|[]]]; done.
  - intros Hlim. by rewrite (proj2 (Z.ltb_ge _ _) Hlim).
Qed.
End pair.

Definition some_user : UserInfo := mkUserInfo "alice" ∅ "run1".
Definition some_login : Login := mkLogin "" "" "" "" "" "" 7 "" "" ∅ (mkClientSpec "" false) 0.

Lemma proxy_pair_witness :
  ∃ pc c' ps, client_NewProxy (register_all client_inits) "k" web_conf = Some pc ∧
    configurer_of_msg parse_ten unit id (MarshalToMsg web_conf zero_NewProxy) = Some c' ∧
    server_NewProxy (register_all server_inits) (mkSOptions some_user some_login 1 "k" c') = Ok ps ∧
    sb_limiter (sp_base ps) = Some (10 * MB)%Z.
Proof.
  destruct (proxy_pair parse_ten id web_conf client_inits server_inits "k" some_user some_login 1)
    as (pc & c' & ps & Hpc & Hc' & Hps & _ & _ & _ & Hlim & _); [done..|by right|].
  exists pc, c', ps. split; [done|]. split; [done|]. split; [done|].
  specialize (Hlim eq_refl ltac:(set_solver)). simpl in Hlim. by injection Hlim.
Defined.
