(* ===== verification/NatSession.v ===== *)
(** The handlers of hole punching on the server to their end, [src/pkg/nathole/controller.go]: after
    [HandleVisitor] has registered its session it offers the session ID to the proxy, waits for the
    message of the client, analyses, answers both sides and removes the session later. The handlers of
    all visitors run at the same time, with [HandleClient] and [HandleReport], as a transition system. *)
From Stdlib Require Import ZArith Lia.
From stdpp Require Import base strings gmap list.
From S2P Require Import Prelude GoStrings Auth Nathole.
Local Open Scope string_scope.
Local Open Scope list_scope.

Section sessions.
Variable md5_hex : string → string.

Abbreviation outcome := (result nathole_error (NatHoleResp * NatHoleResp)).
Inductive side := ToVisitor | ToClient.
#[export] Instance side_eq_dec : EqDecision side.
Proof. solve_decision. Defined.

(** [GenNatHoleResponse] without a session: the transaction and an error. *)
Record NatHoleError := mkNatHoleError { ne_TransactionID : string; ne_Error : option nathole_error }.
Definition GenNatHoleResponse (tid : string) (e : option nathole_error) : NatHoleError := mkNatHoleError tid e.

(** What is sent: the answer to a visitor without a session, or the outcome of the analysis of a session
    to one of its sides, which holds the response or the error. *)
Inductive sent := Reply (r : NatHoleError) | Response (sid : string) (to : side) (o : outcome).

(** A handler: sending the session ID on the channel of the proxy, waiting for the client, sending the
    responses, asleep, or returned. *)
Inductive phase :=
  | Offering | Waiting | Answering (o : outcome) (v c : bool) | Lingering | Gone.

Record t := mk {
  ctl : Controller; phases : gmap string phase;
  notified : gset string;                     (* the sessions whose [notifyCh] holds a value *)
  log : list sent }.                          (* newest first *)

Definition init (d : duration) : t := mk (NewController d) ∅ ∅ [].

Inductive event :=
  | Listens (name sk : string) (users : list string) | Unlistens (name : string)
  | Visitor (sid : string) (m : NatHoleVisitor) (user : string)   (* with the ID that [GenSid] makes *)
  | Taken (sid : string)                      (* the proxy receives the ID *)
  | Client (m : NatHoleClient)
  | Report (now : time) (sid : string) (success : bool)
  | Timeout (sid : string)                    (* the select takes the timer *)
  | Proceed (now : time) (sid : string)       (* the select takes [notifyCh]; the analysis *)
  | Answer (sid : string) (to : side)         (* one of the two goroutines sends *)
  | Expire (sid : string)                     (* the last [Sleep] returns *)
  | Clean (now : time).                       (* a tick of [CleanWorker] *)

Definition with_phase (sid : string) (p : phase) (s : t) : t := mk (ctl s) (<[sid := p]> (phases s)) (notified s) (log s).

(** The deferred [delete(c.sessions, sid)]. *)
Definition leave (sid : string) (s : t) : t :=
  mk (mkController (clientCfgs (ctl s)) (delete sid (sessions (ctl s))) (analyzer (ctl s)))
     (<[sid := Gone]> (phases s)) (notified s) (log s).

Definition visitor_arrives (sid : string) (m : NatHoleVisitor) (user : string) (s : t) : t :=
  if phases s !! sid then s else       (* IDs are random and do not come twice *)
  match HandleVisitor md5_hex sid m user (ctl s) with
  | (Checked (Ok _), c) => mk c (phases s) (notified s) (Reply (GenNatHoleResponse (nv_TransactionID m) None) :: log s)
  | (Checked (Err e), c) | (Refused e, c) =>
      mk c (phases s) (notified s) (Reply (GenNatHoleResponse (nv_TransactionID m) (Some e)) :: log s)
  | (Pending, c) => mk c (<[sid := Offering]> (phases s)) (notified s) (log s)
  end.

(** [select { case session.notifyCh <- struct{}{}: default: }] *)
Definition client_arrives (m : NatHoleClient) (s : t) : t :=
  match sessions (ctl s) !! nc_Sid m with
  | None => s
  | Some _ => mk (HandleClient m (ctl s)) (phases s) ({[nc_Sid m]} ∪ notified s) (log s)
  end.

(** The analysis after the wait; [None] is the access to a client message that is not there. *)
Definition proceed (now : time) (sid : string) (s : t) : option t :=
  match sessions (ctl s) !! sid with
  | Some ss =>
      match clientMsg ss with
      | Some cm =>
          let '(o, c) := analysis md5_hex now sid ss cm (ctl s) in
          Some (mk c (<[sid := Answering o false false]> (phases s)) (notified s ∖ {[sid]}) (log s))
      | None => None
      end
  | None => None
  end.

Definition answer (sid : string) (to : side) (o : outcome) (v c : bool) (s : t) : t :=
  let '(v, c) := match to with ToVisitor => (true, c) | ToClient => (v, true) end in
  mk (ctl s) (<[sid := if v && c then Lingering else Answering o v c]> (phases s)) (notified s)
     (Response sid to o :: log s).

(** One step; [None] is a panic. *)
Definition step (s : t) (e : event) : option t :=
  match e with
  | Listens name sk users =>
      Some (match ListenClient name sk users (ctl s) with Some c => mk c (phases s) (notified s) (log s) | None => s end)
  | Unlistens name => Some (mk (CloseClient name (ctl s)) (phases s) (notified s) (log s))
  | Visitor sid m user => Some (visitor_arrives sid m user s)
  | Taken sid => Some (match phases s !! sid with Some Offering => with_phase sid Waiting s | _ => s end)
  | Client m => Some (client_arrives m s)
  | Report now sid ok => Some (mk (HandleReport now sid ok (ctl s)) (phases s) (notified s) (log s))
  | Timeout sid => Some (match phases s !! sid with Some Waiting => leave sid s | _ => s end)
  | Proceed now sid =>
      match phases s !! sid with
      | Some Waiting => if bool_decide (sid ∈ notified s) then proceed now sid s else Some s
      | _ => Some s
      end
  | Answer sid to =>
      Some (match phases s !! sid, to with
            | Some (Answering o false c), ToVisitor => answer sid ToVisitor o false c s
            | Some (Answering o v false), ToClient => answer sid ToClient o v false s
            | _, _ => s
            end)
  | Expire sid => Some (match phases s !! sid with Some Lingering => leave sid s | _ => s end)
  | Clean now =>
      Some (mk (mkController (clientCfgs (ctl s)) (sessions (ctl s)) (snd (analyzer_Clean now (analyzer (ctl s)))))
              (phases s) (notified s) (log s))
  end.

Fixpoint run (s : t) (es : list event) : option t :=
  match es with [] => Some s | e :: es => s' ← step s e; run s' es end.

(** *** The sessions are those of the handlers, and both sides get one answer *)

Definition responses (sid : string) (l : list sent) : list (side * outcome) :=
  omap (λ x, match x with Response sid' to o => if bool_decide (sid' = sid) then Some (to, o) else None | Reply _ => None end) l.

Definition both (o : outcome) : list (side * outcome) := [(ToVisitor, o); (ToClient, o)].

Definition logged (p : option phase) (l : list (side * outcome)) : Prop :=
  match p with
  | None | Some Offering | Some Waiting => l = []
  | Some (Answering o v c) =>
      v && c = false ∧ l = (if v then [(ToVisitor, o)] else []) ++ (if c then [(ToClient, o)] else [])
  | Some Lingering => ∃ o, l ≡ₚ both o
  | Some Gone => l = [] ∨ ∃ o, l ≡ₚ both o
  end.

Record inv (s : t) : Prop := {
  i_sessions sid : is_Some (sessions (ctl s) !! sid) ↔ ∃ p, phases s !! sid = Some p ∧ p ≠ Gone;
  i_client sid ss : sessions (ctl s) !! sid = Some ss → sid ∈ notified s → is_Some (clientMsg ss);
  i_log sid : logged (phases s !! sid) (responses sid (log s));
  i_notified sid : sid ∈ notified s → is_Some (phases s !! sid) }.

(** The analysis changes its own session only, and keeps it. *)
Lemma analysis_sessions now sid ss cm c o c' :
  analysis md5_hex now sid ss cm c = (o, c') → sessions c !! sid = Some ss →
  (∀ x, is_Some (sessions c' !! x) ↔ is_Some (sessions c !! x)) ∧ ∀ x, x ≠ sid → sessions c' !! x = sessions c !! x.
Proof.
  unfold analysis. intros H Hs.
  destruct (ClassifyNATFeature (nc_MappedAddrs cm) _) as [cf|]; [|by simplify_eq].
  destruct (ClassifyNATFeature (nv_MappedAddrs _) _) as [vf|]; [|by simplify_eq].
  destruct (GetRecommandBehaviors _ _ _ _ _) as [[[mode index] [bc bv]] an]. simplify_eq/=. split; intros x.
  - destruct (decide (x = sid)) as [->|Hne]; [rewrite lookup_insert_eq, Hs; by split; eauto|by rewrite lookup_insert_ne].
  - intros Hne. by rewrite lookup_insert_ne.
Qed.

(** Only the controller changes, and no session. *)
Lemma inv_ctl s c l :
  inv s → sessions c = sessions (ctl s) → (∀ sid, responses sid l = responses sid (log s)) →
  inv (mk c (phases s) (notified s) l).
Proof.
  intros [H1 H2 H3 H4] Hc Hl. split; simpl; intros sid; [rewrite Hc|rewrite Hc|rewrite Hl|]; auto. apply H2.
Qed.

(** One handler moves on, and its session is there as long as it has not returned. *)
Lemma inv_move s sid p c n l :
  inv s → is_Some (phases s !! sid) →
  (∀ x, x ≠ sid → sessions c !! x = sessions (ctl s) !! x ∧ responses x l = responses x (log s)) →
  (is_Some (sessions c !! sid) ↔ p ≠ Gone) →
  n ⊆ notified s → (∀ ss, sessions c !! sid = Some ss → sid ∈ n → is_Some (clientMsg ss)) →
  logged (Some p) (responses sid l) →
  inv (mk c (<[sid := p]> (phases s)) n l).
Proof.
  intros [H1 H2 H3 H4] Hs Ho Hsess Hn Hcl Hlog. split; simpl; intros x.
  - destruct (decide (x = sid)) as [->|Hne].
    + rewrite lookup_insert_eq, Hsess. naive_solver.
    + rewrite lookup_insert_ne by done. by rewrite (proj1 (Ho x Hne)).
  - intros ss Hx Hin. destruct (decide (x = sid)) as [->|Hne]; [by eapply Hcl|].
    rewrite (proj1 (Ho x Hne)) in Hx. eapply H2; [done|set_solver].
  - destruct (decide (x = sid)) as [->|Hne]; [by rewrite lookup_insert_eq|].
    rewrite lookup_insert_ne, (proj2 (Ho x Hne)) by done. auto.
  - intros Hx. rewrite lookup_insert_is_Some'. right. by apply H4, Hn.
Qed.

Lemma inv_leave s sid p : inv s → phases s !! sid = Some p → (p = Waiting ∨ p = Lingering) → inv (leave sid s).
Proof.
  intros Hi Hp Hpp. apply inv_move; try done; simpl.
  - intros x Hne. by rewrite lookup_delete_ne.
  - rewrite lookup_delete_eq. split; [by intros []|done].
  - intros ss. by rewrite lookup_delete_eq.
  - pose proof (i_log _ Hi sid) as Hl. rewrite Hp in Hl. destruct Hpp as [-> | ->]; simpl in *; [by left|by right].
Qed.

Lemma responses_other sid sid' to o l : sid' ≠ sid → responses sid (Response sid' to o :: l) = responses sid l.
Proof. intros H. unfold responses. simpl. by rewrite bool_decide_eq_false_2. Qed.
Lemma responses_own sid to o l : responses sid (Response sid to o :: l) = (to, o) :: responses sid l.
Proof. unfold responses. simpl. by rewrite bool_decide_eq_true_2. Qed.

Lemma inv_answer s sid to o v c :
  inv s → phases s !! sid = Some (Answering o v c) → (if to is ToVisitor then v else c) = false →
  inv (answer sid to o v c s).
Proof.
  intros Hi Hp Hto. pose proof (i_log _ Hi sid) as Hl. rewrite Hp in Hl. destruct Hl as [Hvc Hl].
  assert (is_Some (sessions (ctl s) !! sid)) as Hs by (apply (i_sessions _ Hi); eauto).
  unfold answer. destruct to; simpl in *; subst.
  - apply inv_move; try done; try by eauto.
    + intros x Hne. by rewrite responses_other.
    + split; [by destruct c|done].
    + intros ss Hss. by apply (i_client _ Hi).
    + rewrite responses_own, Hl. destruct c; simpl; [exists o; done|done].
  - apply inv_move; try done; try by eauto.
    + intros x Hne. by rewrite responses_other.
    + rewrite andb_true_r. split; [by destruct v|done].
    + intros ss Hss. by apply (i_client _ Hi).
    + rewrite responses_own, Hl. destruct v; simpl; [exists o; apply Permutation_swap|done].
Qed.

Lemma inv_client s m : inv s → inv (client_arrives m s).
Proof.
  intros Hi. unfold client_arrives, HandleClient. destruct (sessions (ctl s) !! nc_Sid m) as [ss|] eqn:E; [|done].
  assert (∀ x, is_Some (<[nc_Sid m := mkSession (visitorMsg ss) (Some m) (analysisKey ss) (recommandMode ss) (recommandIndex ss)]>
    (sessions (ctl s)) !! x) ↔ is_Some (sessions (ctl s) !! x)) as Hx.
  { intros x. destruct (decide (x = nc_Sid m)) as [->|]; [rewrite lookup_insert_eq, E; split; by eauto|by rewrite lookup_insert_ne]. }
  split; simpl; intros sid.
  - rewrite Hx. apply (i_sessions _ Hi).
  - intros ss'. destruct (decide (sid = nc_Sid m)) as [->|Hne].
    + rewrite lookup_insert_eq. intros [= <-] _. by eexists.
    + rewrite lookup_insert_ne by done. intros Hss Hin. eapply (i_client _ Hi); [done|set_solver].
  - apply (i_log _ Hi).
  - rewrite elem_of_union, elem_of_singleton. intros [->|Hin]; [|by apply (i_notified _ Hi)].
    destruct (proj1 (i_sessions _ Hi (nc_Sid m)) ltac:(eauto)) as (p & Hp & _). eauto.
Qed.

Lemma inv_visitor s sid m user : inv s → inv (visitor_arrives sid m user s).
Proof.
  intros Hi. unfold visitor_arrives. destruct (phases s !! sid) eqn:Ep; [done|].
  unfold HandleVisitor. destruct (PreCheck m).
  { destruct (HandleVisitor_precheck m user (ctl s)); by apply inv_ctl. }
  unfold HandleVisitor_start. destruct (clientCfgs (ctl s) !! _) as [cfg|]; [|by apply inv_ctl].
  destruct (negb _); [by apply inv_ctl|].
  assert (sessions (ctl s) !! sid = None) as Hn.
  { apply eq_None_not_Some. rewrite (i_sessions _ Hi). intros (p & Hp & _). congruence. }
  split; simpl; intros x.
  - destruct (decide (x = sid)) as [->|Hne]; [rewrite !lookup_insert_eq; split; by eauto|].
    rewrite !lookup_insert_ne by done. apply (i_sessions _ Hi).
  - intros ss. destruct (decide (x = sid)) as [->|Hne].
    + rewrite lookup_insert_eq. intros [= <-] Hin. apply (i_notified _ Hi) in Hin as [p Hp]. congruence.
    + rewrite lookup_insert_ne by done. apply (i_client _ Hi).
  - destruct (decide (x = sid)) as [->|Hne]; [|rewrite lookup_insert_ne by done; apply (i_log _ Hi)].
    rewrite lookup_insert_eq. pose proof (i_log _ Hi sid) as Hl. by rewrite Ep in Hl.
  - intros Hx. rewrite lookup_insert_is_Some'. right. by apply (i_notified _ Hi).
Qed.

Lemma nat_inv_step s e : inv s → ∃ s', step s e = Some s' ∧ inv s'.
Proof.
  intros Hi. destruct e as [n sk us|n|sid m u|sid|m|now sid ok|sid|now sid|sid to|sid|now]; simpl.
  - eexists. split; [done|]. unfold ListenClient. destruct (clientCfgs _ !! n); [done|]. by apply inv_ctl.
  - eexists. split; [done|]. by apply inv_ctl.
  - eexists. split; [done|]. by apply inv_visitor.
  - eexists. split; [done|]. destruct (phases s !! sid) as [[]|] eqn:E; try done. pose proof (i_log _ Hi sid) as Hl.
    rewrite E in Hl. apply inv_move; [done|by eexists|done| |done| |done].
    + split; [done|]. intros _. apply (i_sessions _ Hi). eauto.
    + intros ss. apply (i_client _ Hi).
  - eexists. split; [done|]. by apply inv_client.
  - eexists. split; [done|]. apply inv_ctl; [done| |done]. unfold HandleReport. by repeat case_match.
  - eexists. split; [done|]. destruct (phases s !! sid) as [[]|] eqn:E; try done. eapply inv_leave; eauto.
  - destruct (phases s !! sid) as [[]|] eqn:E; try (by exists s). case_bool_decide as Hin; [|by exists s].
    destruct (proj2 (i_sessions _ Hi sid)) as [ss Hss]; [by eauto|].
    destruct (i_client _ Hi _ _ Hss Hin) as [cm Hcm]. unfold proceed. rewrite Hss, Hcm.
    destruct (analysis md5_hex now sid ss cm (ctl s)) as [o c] eqn:Ea.
    destruct (analysis_sessions _ _ _ _ _ _ _ Ea Hss) as [Hdom Hother].
    eexists. split; [done|]. pose proof (i_log _ Hi sid) as Hl. rewrite E in Hl.
    apply inv_move; [done|by eexists|..|by rewrite Hl].
    + intros x Hne. split; [by apply Hother|done].
    + rewrite Hdom, Hss. split; [done|by eauto].
    + set_solver.
    + intros ? _. set_solver.
  - eexists. split; [done|]. destruct (phases s !! sid) as [[| |o v c| |]|] eqn:E; try by destruct to.
    destruct to, v, c; try done; by apply inv_answer.
  - eexists. split; [done|]. destruct (phases s !! sid) as [[]|] eqn:E; try done. eapply inv_leave; eauto.
  - eexists. split; [done|]. by apply inv_ctl.
Qed.

Lemma nat_inv_run es s : inv s → ∃ s', run s es = Some s' ∧ inv s'.
Proof.
  revert s. induction es as [|e es IH]; intros s Hi; [by exists s|]. simpl.
  destruct (nat_inv_step s e Hi) as (s1 & -> & Hi1). simpl. by apply IH.
Qed.

(** C38: However the messages of visitors, clients and reports interleave with the timers, no handler panics: the
    analysis runs only after a message of the client is there. The table holds exactly the sessions whose
    handler has not returned. And a handler that has returned answered neither side, after a timeout, or
    each side once, with the outcome of one analysis. *)
Theorem nat_sessions_exact d es :
  ∃ s, run (init d) es = Some s ∧
    (∀ sid, is_Some (sessions (ctl s) !! sid) ↔ ∃ p, phases s !! sid = Some p ∧ p ≠ Gone) ∧
    (∀ sid, phases s !! sid = Some Gone →
       responses sid (log s) = [] ∨ ∃ o, responses sid (log s) ≡ₚ [(ToVisitor, o); (ToClient, o)]).
Proof.
  destruct (nat_inv_run es (init d)) as (s & Hr & [H1 _ H3 _]).
  { split; simpl; intros; rewrite ?lookup_empty in *; [naive_solver|done|done|set_solver]. }
  exists s. split; [done|]. split; [done|]. intros sid Hg. specialize (H3 sid). by rewrite Hg in H3.
Qed.

(** A handler whose session ID was taken comes to its end, whatever its phase. *)
Theorem nat_handler_ends s sid p :
  inv s → phases s !! sid = Some p → p ≠ Offering →
  ∃ es s', run s es = Some s' ∧ phases s' !! sid = Some Gone ∧ sessions (ctl s') !! sid = None ∧ (length es <= 3)%nat.
Proof.
  intros Hi Hp Hno.
  assert (∃ es s', run s es = Some s' ∧ phases s' !! sid = Some Gone ∧ (length es <= 3)%nat) as (es & s' & Hr & Hg & Hl).
  { destruct p as [| |o v c| |]; try done.
    - exists [Timeout sid]. simpl. rewrite Hp. eexists. split; [done|]. simpl. rewrite lookup_insert_eq. split; [done|lia].
    - pose proof (i_log _ Hi sid) as Hl. rewrite Hp in Hl. destruct Hl as [Hvc _].
      destruct v, c; try done;
        [exists [Answer sid ToClient; Expire sid]|exists [Answer sid ToVisitor; Expire sid]
        |exists [Answer sid ToVisitor; Answer sid ToClient; Expire sid]];
        repeat (simpl; rewrite ?Hp, ?lookup_insert_eq); eexists; (split; [done|]); simpl; rewrite lookup_insert_eq; split; try done; lia.
    - exists [Expire sid]. simpl. rewrite Hp. eexists. split; [done|]. simpl. rewrite lookup_insert_eq. split; [done|lia].
    - exists [], s. split; [done|]. split; [done|simpl; lia]. }
  exists es, s'. split; [done|]. split; [done|]. split; [|done].
  destruct (nat_inv_run es s Hi) as (s2 & Hr2 & Hi2). simplify_eq. apply eq_None_not_Some. rewrite (i_sessions _ Hi2).
  intros (q & Hq & Hne). congruence.
Qed.
End sessions.
