(* ===== verification/PluginNew.v ===== *)
(** The creation of the client plugins: the constructors of [src/pkg/plugin/client], what they make
    of their options and how they fail; and the requests that the static file plugin serves. *)
From Stdlib Require Import ZArith Lia Ascii String.
From stdpp Require Import base strings gmap list.
From S2P Require Import Prelude GoStrings PluginConf HttpAuth ClientPlugins Transport.
Import TLSConf.
Local Open Scope string_scope.
Local Open Scope list_scope.

(** A plugin, as far as its options shape it: the handler of its HTTP server, the configuration of
    TLS, whether HTTP/2 is spoken, the prefix of its router, or where it dials. *)
Inductive plugin_obj :=
  | HTTPServer (handler : rw_request → rw_out)
  | HTTPSServer (cfg : Config) (http2 : bool) (handler : option string → string → rw_request → Z + rw_out)
  | ProxyServer (HTTPUser HTTPPassword : string)
  | Socks5Server (credentials : option (string * string))
  | FileServer (prefix LocalPath HTTPUser HTTPPassword : string)
  | UnixDialer (UnixPath : string)
  | TLSDialer (LocalAddr : string) (cfg : Config)
  | VirtualNetObj.

(** A constructor panics when the options are not of its type. *)
Inductive new_error := TLSConfigError (e : tls_error) | UnixAddrError.
Inductive made := MPanic | MErr (e : new_error) | MOk (p : plugin_obj).

Section new.
Variable LoadX509KeyPair : string → string → bool.
Variable generate_ok : bool.
Variable ca_file_ok : string → bool.
Variable ResolveUnixAddr : string → bool.

Definition with_tls (crt key : string) (k : Config → plugin_obj) : made :=
  match NewServerTLSConfig LoadX509KeyPair generate_ok ca_file_ok crt key "" with
  | Ok cfg => MOk (k cfg)
  | Err e => MErr (TLSConfigError e)
  end.

Definition NewHTTP2HTTPPlugin (o : ClientPluginOptions) : made :=
  match o with
  | HTTP2HTTPPluginOptions _ addr host set => MOk (HTTPServer (http2http_rewrite addr host set))
  | _ => MPanic
  end.
Definition NewHTTP2HTTPSPlugin (o : ClientPluginOptions) : made :=
  match o with
  | HTTP2HTTPSPluginOptions _ addr host set => MOk (HTTPServer (http2https_rewrite addr host set))
  | _ => MPanic
  end.
(** [if !lo.FromPtr(opts.EnableHTTP2)]: nil is false. *)
Definition NewHTTPS2HTTPPlugin (o : ClientPluginOptions) : made :=
  match o with
  | HTTPS2HTTPPluginOptions _ addr host set http2 crt key =>
      with_tls crt key (λ cfg, HTTPSServer cfg (default false http2)
        (λ sn ip, tls_handler sn (https2http_rewrite addr host set ip)))
  | _ => MPanic
  end.
Definition NewHTTPS2HTTPSPlugin (o : ClientPluginOptions) : made :=
  match o with
  | HTTPS2HTTPSPluginOptions _ addr host set http2 crt key =>
      with_tls crt key (λ cfg, HTTPSServer cfg (default false http2)
        (λ sn ip, tls_handler sn (https2https_rewrite addr host set ip)))
  | _ => MPanic
  end.
Definition NewHTTPProxyPlugin (o : ClientPluginOptions) : made :=
  match o with HTTPProxyPluginOptions _ u p => MOk (ProxyServer u p) | _ => MPanic end.
Definition NewSocks5Plugin (o : ClientPluginOptions) : made :=
  match o with
  | Socks5PluginOptions _ u p =>
      MOk (Socks5Server (if negb (u =s? "") || negb (p =s? "") then Some (u, p) else None))
  | _ => MPanic
  end.
Definition NewStaticFilePlugin (o : ClientPluginOptions) : made :=
  match o with
  | StaticFilePluginOptions _ path strip u p =>
      MOk (FileServer (if strip =s? "" then "/" else "/" +:+ strip +:+ "/") path u p)
  | _ => MPanic
  end.
Definition NewUnixDomainSocketPlugin (o : ClientPluginOptions) : made :=
  match o with
  | UnixDomainSocketPluginOptions _ path => if ResolveUnixAddr path then MOk (UnixDialer path) else MErr UnixAddrError
  | _ => MPanic
  end.
Definition NewTLS2RawPlugin (o : ClientPluginOptions) : made :=
  match o with TLS2RawPluginOptions _ addr crt key => with_tls crt key (TLSDialer addr) | _ => MPanic end.
Definition NewVirtualNetPlugin (o : ClientPluginOptions) : made :=
  match o with VirtualNetPluginOptions _ => MOk VirtualNetObj | _ => MPanic end.

(** The registrations of the [init] functions. *)
Definition plugin_inits : list (string * (ClientPluginOptions → made)) :=
  [("http2http", NewHTTP2HTTPPlugin); ("http2https", NewHTTP2HTTPSPlugin); ("http_proxy", NewHTTPProxyPlugin);
   ("https2http", NewHTTPS2HTTPPlugin); ("https2https", NewHTTPS2HTTPSPlugin); ("socks5", NewSocks5Plugin);
   ("static_file", NewStaticFilePlugin); ("tls2raw", NewTLS2RawPlugin);
   ("unix_domain_socket", NewUnixDomainSocketPlugin); ("virtual_net", NewVirtualNetPlugin)].

(** [Create]: the constructor of a name; a name that is not registered is an error. *)
Fixpoint create_in (l : list (string * (ClientPluginOptions → made))) (name : string) (o : ClientPluginOptions) : option made :=
  match l with
  | [] => None
  | (n, f) :: l => if n =s? name then Some (f o) else create_in l name o
  end.
Definition CreatePlugin (name : string) (o : ClientPluginOptions) : option made := create_in plugin_inits name o.

(** The files a plugin with TLS needs. *)
Definition certificates_ok (o : ClientPluginOptions) : bool :=
  match o with
  | HTTPS2HTTPPluginOptions _ _ _ _ _ crt key | HTTPS2HTTPSPluginOptions _ _ _ _ _ crt key | TLS2RawPluginOptions _ _ crt key =>
      if (crt =s? "") || (key =s? "") then generate_ok else LoadX509KeyPair crt key
  | UnixDomainSocketPluginOptions _ path => ResolveUnixAddr path
  | _ => true
  end.

Lemma create_in_None l name o : name ∉ l.*1 → create_in l name o = None.
Proof.
  induction l as [|[n f] l IH]; [done|]. cbn [fmap list_fmap create_in]. rewrite not_elem_of_cons. intros [Hn Hl].
  rewrite (proj2 (seqb_false _ _)) by (simpl in Hn; congruence). by apply IH.
Qed.

(** The names are those of the options. *)
Lemma registered_names name : name ∈ plugin_inits.*1 ↔ zero_plugin name ≠ None.
Proof.
  unfold zero_plugin. cbn [plugin_inits fmap list_fmap fst]. rewrite !elem_of_cons, elem_of_nil. split.
  - intros Hin. destruct_or! Hin; try done; subst; done.
  - intros H. repeat (match goal with _ : context [?a =s? ?b] |- _ => destruct (seqb_spec a b); [by tauto|] end). done.
Qed.

(** The constructor that fits the options. *)
Definition construct (o : ClientPluginOptions) : made :=
  match o with
  | HTTP2HTTPSPluginOptions _ _ _ _ => NewHTTP2HTTPSPlugin o
  | HTTPProxyPluginOptions _ _ _ => NewHTTPProxyPlugin o
  | HTTPS2HTTPPluginOptions _ _ _ _ _ _ _ => NewHTTPS2HTTPPlugin o
  | HTTPS2HTTPSPluginOptions _ _ _ _ _ _ _ => NewHTTPS2HTTPSPlugin o
  | HTTP2HTTPPluginOptions _ _ _ _ => NewHTTP2HTTPPlugin o
  | Socks5PluginOptions _ _ _ => NewSocks5Plugin o
  | StaticFilePluginOptions _ _ _ _ _ => NewStaticFilePlugin o
  | UnixDomainSocketPluginOptions _ _ => NewUnixDomainSocketPlugin o
  | TLS2RawPluginOptions _ _ _ _ => NewTLS2RawPlugin o
  | VirtualNetPluginOptions _ => NewVirtualNetPlugin o
  end.

Lemma create_cases name o :
  CreatePlugin name o =
    if bool_decide (zero_plugin name = None) then None
    else Some (if plugin_name o =s? name then construct o else MPanic).
Proof.
  destruct (decide (name ∈ plugin_inits.*1)) as [Hin|Hout].
  - rewrite bool_decide_eq_false_2 by (by apply registered_names).
    cbn [plugin_inits fmap list_fmap fst] in Hin. rewrite !elem_of_cons, elem_of_nil in Hin.
    destruct_or! Hin; try done; subst; by destruct o.
  - rewrite bool_decide_eq_true_2; [by apply create_in_None|].
    rewrite registered_names in Hout. destruct (zero_plugin name); [by destruct Hout|done].
Qed.

(** A certificate from two files, or one made up. *)
Lemma with_tls_cases crt key k :
  with_tls crt key k =
    if (crt =s? "") || (key =s? "")
    then (if generate_ok then MOk (k (mkConfig [RandomCert] false None None "" false [])) else MErr (TLSConfigError GenerateError))
    else (if LoadX509KeyPair crt key then MOk (k (mkConfig [CustomCert crt key] false None None "" false []))
          else MErr (TLSConfigError KeyPairError)).
Proof.
  unfold with_tls, NewServerTLSConfig, newRandomTLSKeyPair, newCustomTLSKeyPair.
  destruct (_ || _); [by destruct generate_ok|by destruct (LoadX509KeyPair crt key)].
Qed.

Lemma construct_made o :
  construct o ≠ MPanic ∧ ((∃ p, construct o = MOk p) ↔ certificates_ok o = true).
Proof.
  destruct o; simpl; rewrite ?with_tls_cases; unfold certificates_ok;
    try (split; [done|]; split; [done|]; intros _; by eexists);
    repeat case_match; (split; [done|]); split; intros H'; try done; try (by eexists); by destruct H' as [? [=]].
Qed.

(** Every plugin whose type fits its options is made, unless its certificate or its address cannot be read,
    and then it is an error; options of another type are a panic, and a name without a constructor an error.
    A plugin with TLS never asks for client certificates, uses its own certificate when both files are named
    and one made up otherwise, and speaks HTTP/2 only when that is enabled. *)
Theorem plugin_creation name o :
  (CreatePlugin name o = None ↔ zero_plugin name = None) ∧
  (zero_plugin name ≠ None → CreatePlugin name o = Some MPanic ↔ plugin_name o ≠ name) ∧
  (plugin_name o = name → (∃ p, CreatePlugin name o = Some (MOk p)) ↔ certificates_ok o = true) ∧
  (∀ cfg http2 h, CreatePlugin name o = Some (MOk (HTTPSServer cfg http2 h)) →
     RequireClientCert cfg = false ∧ length (Certificates cfg) = 1%nat ∧
     match o with
     | HTTPS2HTTPPluginOptions _ _ _ _ e crt key | HTTPS2HTTPSPluginOptions _ _ _ _ e crt key =>
         http2 = default false e ∧ (crt ≠ "" → key ≠ "" → Certificates cfg = [CustomCert crt key])
     | _ => False
     end).
Proof.
  rewrite create_cases. split; [by case_bool_decide|]. split; [|split].
  - intros Hz. rewrite bool_decide_eq_false_2 by done. destruct (seqb_spec (plugin_name o) name) as [E|E]; [|done].
    split; [|done]. intros [= Hp]. by destruct (construct_made o) as [? _].
  - intros <-. rewrite bool_decide_eq_false_2 by (by destruct o). rewrite seqb_refl, <- (proj2 (construct_made o)).
    split; intros [p Hp]; exists p; congruence.
  - intros cfg http2 h H. case_bool_decide; [done|]. destruct (plugin_name o =s? name); [|done]. injection H as H.
    destruct o; simpl in H; rewrite ?with_tls_cases in H; try done; repeat case_match; simplify_eq/=;
      (split; [done|]; split; [done|]); (split; [done|]); intros Hc Hk; try done;
      exfalso; match goal with E : _ || _ = true |- _ => apply orb_true_iff in E; rewrite !seqb_true in E; tauto end.
Qed.
End new.

(** ** The files that are served *)

Module StaticFile.

(** [path.Clean] on a rooted path: the elements that are left, from the root. *)
Definition clean_step (stack : list string) (e : string) : list string :=
  if (e =s? "") || (e =s? ".") then stack
  else if e =s? ".." then tail stack
  else e :: stack.
Definition Clean (path : string) : list string := rev (foldl clean_step [] (Split "/" path)).

(** An element that names something in its directory. *)
Definition proper (e : string) : Prop := e ≠ "" ∧ e ≠ "." ∧ e ≠ "..".

Section serve.
(** The router of [gorilla/mux]: whether a request with a method and a path gets to the handler of the
    route for a prefix and a method. *)
Variable routed : string → string → string → string → bool.

Record request := mkRequest { r_Method : string; r_Path : string; r_Authorization : string }.

(** [http.StripPrefix], then [http.FileServer] on [http.Dir]: the elements of the file below the root. *)
Definition file_of (prefix path : string) : option (list string) :=
  rest ← CutPrefix path prefix; Some (Clean ("/" +:+ rest)).

Inductive served := NoRoute | Unauthorized | NotFound | File (LocalPath : string) (below : list string).

(** A request to the plugin that the constructor has made. *)
Definition serve (prefix LocalPath user passwd : string) (r : request) : served :=
  if negb (routed prefix "GET" (r_Method r) (r_Path r)) then NoRoute
  else if negb (Middleware user passwd (r_Authorization r)) then Unauthorized
  else match file_of prefix (r_Path r) with Some els => File LocalPath els | None => NotFound end.

(** What the documentation of the router says. *)
Hypothesis routed_spec : ∀ prefix m m' path, routed prefix m m' path = true → m' = m ∧ HasPrefix path prefix = true.

Lemma clean_proper stack els : Forall proper stack → Forall proper (foldl clean_step stack els).
Proof.
  revert stack. induction els as [|e els IH]; intros stack Hs; [done|]. simpl. apply IH. unfold clean_step.
  destruct (seqb_spec e ""), (seqb_spec e "."); simpl; try done. destruct (seqb_spec e ".."); [|by constructor].
  destruct stack; [done|]. by inversion Hs.
Qed.

Lemma Clean_proper path : Forall proper (Clean path).
Proof. unfold Clean. apply Forall_rev. by apply clean_proper. Qed.

Lemma clean_keeps stack els : Forall proper els → foldl clean_step stack els = rev els ++ stack.
Proof.
  revert stack. induction els as [|e els IH]; intros stack He; [done|]. apply Forall_cons in He as [(H1 & H2 & H3) He].
  simpl. rewrite IH by done. unfold clean_step. rewrite !(proj2 (seqb_false _ _)) by done. simpl. by rewrite <- app_assoc.
Qed.

(** The path of a file. *)
Lemma Clean_path els :
  els ≠ [] → Forall proper els → Forall (λ e, ContainsByte e "/" = false) els →
  Clean ("/" +:+ Join els "/") = els.
Proof.
  intros Hne Hp Hs. unfold Clean. change ("/" +:+ Join els "/") with ("" +:+ String "/" (Join els "/")).
  rewrite Split_sep by done. rewrite Split_Join by done. simpl. rewrite clean_keeps by done.
  by rewrite app_nil_r, rev_involutive.
Qed.

(** Files are served only to requests with the method GET and the password of the plugin, and only from
    below the local path: no element of what is opened leads up. A file below the root is found under its
    name after the prefix. *)
Theorem static_file_confined prefix LocalPath user passwd r :
  (∀ root els, serve prefix LocalPath user passwd r = File root els →
     root = LocalPath ∧ Forall proper els ∧ r_Method r = "GET" ∧ HasPrefix (r_Path r) prefix = true ∧
     ((user = "" ∧ passwd = "") ∨ req_BasicAuth (r_Authorization r) = Some (user, passwd))) ∧
  (∀ els, els ≠ [] → Forall proper els → Forall (λ e, ContainsByte e "/" = false) els →
     r_Path r = prefix +:+ Join els "/" → routed prefix "GET" (r_Method r) (r_Path r) = true →
     Middleware user passwd (r_Authorization r) = true → serve prefix LocalPath user passwd r = File LocalPath els).
Proof.
  unfold serve. split.
  - intros root els. destruct (routed _ _ _ _) eqn:Hr; [|done]. apply routed_spec in Hr as [Hm Hp].
    destruct (Middleware _ _ _) eqn:Ha; [|done]. apply Middleware_spec in Ha. simpl. unfold file_of.
    destruct (CutPrefix (r_Path r) prefix); [|done]. intros [= <- <-]. by split_and!; try apply Clean_proper.
  - intros els Hne Hp Hs Hpath -> ->. simpl. unfold file_of. rewrite Hpath.
    rewrite (proj2 (CutPrefix_spec _ prefix (Join els "/"))) by done. cbn [mbind option_bind]. by rewrite Clean_path.
Qed.
End serve.

(** A router that does what it says, and a plugin for a directory. *)
Definition plain_router (prefix m m' path : string) : bool := (m' =s? m) && HasPrefix path prefix.
Lemma plain_router_spec prefix m m' path : plain_router prefix m m' path = true → m' = m ∧ HasPrefix path prefix = true.
Proof. unfold plain_router. by rewrite andb_true_iff, seqb_true. Qed.

Lemma static_file_confined_witness :
  serve plain_router "/static/" "/srv/www" "" "" (mkRequest "GET" "/static/css/site.css" "") = File "/srv/www" ["css"; "site.css"] ∧
  ∀ els, serve plain_router "/static/" "/srv/www" "" "" (mkRequest "GET" "/static/../../../etc/passwd" "") = File "/srv/www" els →
    Forall proper els.
Proof.
  split; [reflexivity|]. intros els H.
  by apply (static_file_confined plain_router plain_router_spec "/static/" "/srv/www" "" "") in H as (_ & ? & _).
Defined.
End StaticFile.
