(* ===== verification/TunDevice.v ===== *)
(** The device of the virtual network: the wrapper of [src/pkg/vnet/tun.go] around a device that reads
    batches of packets, the names and the set-up of devices in [tun_linux.go] and [tun_darwin.go], and the
    loop over the device in [src/pkg/vnet/controller.go]. *)
From Stdlib Require Import ZArith Lia Ascii String.
From stdpp Require Import base strings gmap list.
From S2P Require Import Prelude GoStrings Ranges.
Local Open Scope string_scope.
Local Open Scope list_scope.
Local Open Scope nat_scope.

(** ** [tunDeviceWrapper] *)

Section wrapper.
Context {B : Type} `{Inhabited B}.
Abbreviation bytes := (list B).

Definition defaultPacketSize : nat := 1420.

(** [readBuffers] are the buffers after the offset; [packetBuffers] are slices of them, given by the
    buffer and the length. *)
Record wrapper := mkWrapper { bufferSize : nat; readBuffers : list bytes; packetBuffers : list (nat * nat) }.

(** [mtu] is [None] when the device does not tell. *)
Definition OpenTun (mtu : option nat) (batchSize : nat) : wrapper :=
  let size := Nat.max (default defaultPacketSize mtu) defaultPacketSize in
  mkWrapper size (replicate batchSize (replicate size inhabitant)) [].

(** What a slice of a buffer holds now. *)
Definition slice (w : wrapper) (x : nat * nat) : bytes := take x.2 (default [] (readBuffers w !! x.1)).

(** The device writes a batch of packets into the first buffers. *)
Definition fill (batch : list bytes) (bufs : list bytes) : list bytes :=
  zip_with (λ p b, p ++ drop (length p) b) batch bufs ++ drop (length batch) bufs.

(** The slices of the packets that are not empty. *)
Definition slices (batch : list bytes) : list (nat * nat) :=
  filter (λ x, x.2 ≠ 0) (imap (λ i p, (i, length p)) batch).

Inductive read_result := Data (d : bytes) | ReadErr | EOF | ReadPanic.

(** [Read] with room for [room] bytes; [dev] is the answer of the device, if it is asked. *)
Definition tun_Read (room : nat) (dev : option (list bytes)) (w : wrapper) : read_result * wrapper :=
  match packetBuffers w with
  | x :: rest => (Data (take room (slice w x)), mkWrapper (bufferSize w) (readBuffers w) rest)
  | [] =>
      match dev with
      | None => (ReadErr, w)
      | Some [] => (EOF, w)
      | Some batch =>
          let w := mkWrapper (bufferSize w) (fill batch (readBuffers w)) (slices batch) in
          match packetBuffers w with
          | x :: rest => (Data (take room (slice w x)), mkWrapper (bufferSize w) (readBuffers w) rest)
          | [] => (ReadPanic, w)               (* [d.packetBuffers[0]] *)
          end
      end
  end.

(** [Write]: what goes to the device, and the count that is returned. *)
Definition tun_Write (p : bytes) (w : wrapper) : bytes * nat := let d := take (bufferSize w) p in (d, length d).

(** [k] reads; the device is asked when nothing is left of the last batch. *)
Fixpoint reads (k room : nat) (devs : list (list bytes)) (w : wrapper) : list read_result :=
  match k with
  | 0 => []
  | S k =>
      match packetBuffers w, devs with
      | [], d :: devs => let '(r, w) := tun_Read room (Some d) w in r :: reads k room devs w
      | _, _ => let '(r, w) := tun_Read room None w in r :: reads k room devs w
      end
  end.

(** A batch fits: no more packets than buffers, and one of them is not empty. *)
Definition fits (w : wrapper) (batch : list bytes) : Prop :=
  length batch <= length (readBuffers w) ∧ Exists (λ p, p ≠ []) batch.

Definition packets (batches : list (list bytes)) : list bytes := filter (λ p, p ≠ []) (concat batches).

Lemma fill_lookup batch bufs i p : length batch <= length bufs → batch !! i = Some p →
  ∃ b, fill batch bufs !! i = Some (p ++ b).
Proof.
  intros Hl Hi. unfold fill. pose proof (lookup_lt_Some _ _ _ Hi) as Hlt.
  rewrite lookup_app_l by (rewrite length_zip_with; lia).
  destruct (lookup_lt_is_Some_2 bufs i ltac:(lia)) as [b Hb]. exists (drop (length p) b).
  by rewrite lookup_zip_with, Hi, Hb.
Qed.

Lemma fill_length batch bufs : length batch <= length bufs → length (fill batch bufs) = length bufs.
Proof. intros Hl. unfold fill. rewrite length_app, length_zip_with, length_drop. lia. Qed.

(** The slices read back the packets. *)
Lemma slices_read sz batch bufs rest :
  length batch <= length bufs →
  (λ x, slice (mkWrapper sz (fill batch bufs) rest) x) <$> slices batch = filter (λ p, p ≠ []) batch.
Proof.
  intros Hl. unfold slices, slice. simpl.
  assert (∀ k l, (∀ i p, l !! i = Some p → batch !! (k + i) = Some p) →
    (λ x : nat * nat, take x.2 (default [] (fill batch bufs !! x.1))) <$>
      filter (λ x, x.2 ≠ 0) (imap (λ i p, (k + i, length p)) l) = filter (λ p, p ≠ []) l) as Hgen.
  { intros k l. revert k. induction l as [|p l IH]; intros k Hk; [done|]. rewrite imap_cons.
    rewrite !filter_cons. cbn [snd].
    assert (imap ((λ i p0, (k + i, length p0)) ∘ S) l = imap (λ i p0, (S k + i, length p0)) l) as ->.
    { apply imap_ext. intros i x _. simpl. f_equal. lia. }
    specialize (IH (S k) ltac:(intros i q Hq; replace (S k + i) with (k + S i) by lia; by apply Hk)).
    destruct p as [|b p]; cbn [length].
    - rewrite !decide_False by naive_solver. exact IH.
    - rewrite !decide_True by done. rewrite fmap_cons. cbn [fst snd].
      destruct (fill_lookup batch bufs k (b :: p) Hl) as [c Hc]; [rewrite <- (Hk 0 (b :: p)) by done; f_equal; lia|].
      rewrite Nat.add_0_r, Hc. f_equal; [exact (take_app_length (b :: p) c)|exact IH]. }
  specialize (Hgen 0 batch ltac:(done)). exact Hgen.
Qed.

(** Reading what is left of a batch. *)
Lemma reads_pending k room devs w :
  k <= length (packetBuffers w) →
  reads k room devs w = (λ x, Data (take room (slice w x))) <$> take k (packetBuffers w) ∧
  ∀ k', reads (k + k') room devs w =
    reads k room devs w ++ reads k' room devs (mkWrapper (bufferSize w) (readBuffers w) (drop k (packetBuffers w))).
Proof.
  destruct w as [sz bufs ps]. simpl. revert ps. induction k as [|k IH]; intros ps Hk; [by split|].
  destruct ps as [|x ps]; simpl in *; [lia|]. destruct (IH ps ltac:(lia)) as [IH1 IH2].
  rewrite IH1. split; [done|]. intros k'. rewrite IH2, IH1. done.
Qed.

(** Asking the device is the same as having its batch pending. *)
Lemma reads_asks k room batch batches w :
  packetBuffers w = [] → slices batch ≠ [] →
  reads (S k) room (batch :: batches) w =
  reads (S k) room batches (mkWrapper (bufferSize w) (fill batch (readBuffers w)) (slices batch)).
Proof.
  intros Hw Hsl. cbn [reads packetBuffers]. rewrite Hw. unfold tun_Read. rewrite Hw. cbn [packetBuffers].
  destruct batch as [|p batch]; [done|]. by destruct (slices (p :: batch)) as [|x sl].
Qed.

Lemma packets_cons batch batches : packets (batch :: batches) = filter (λ p, p ≠ []) batch ++ packets batches.
Proof. unfold packets. simpl. apply filter_app. Qed.

(** No packet is lost, reordered or overwritten: as many reads as there are packets return them in the order
    of the device, each cut to the room of the reader, whatever the size of the batches. *)
Theorem tun_reads_in_order room batches w :
  packetBuffers w = [] → Forall (fits w) batches →
  reads (length (packets batches)) room batches w = (λ p, Data (take room p)) <$> packets batches.
Proof.
  revert w. induction batches as [|batch batches IH]; intros w Hw Hf; [done|].
  apply Forall_cons in Hf as [[Hl Hne] Hf]. rewrite packets_cons.
  pose proof (λ ps, slices_read (bufferSize w) batch (readBuffers w) ps Hl) as Hsr.
  assert (slices batch ≠ []) as Hsl.
  { intros E. specialize (Hsr []). rewrite E in Hsr. apply Exists_exists in Hne as (p & Hp & Hpne).
    assert (p ∈ filter (λ p, p ≠ []) batch) as Hin by (by apply list_elem_of_filter).
    rewrite <- Hsr in Hin. by apply not_elem_of_nil in Hin. }
  rewrite length_app, fmap_app. rewrite <- (Hsr (slices batch)) at 1. rewrite length_fmap.
  set (w1 := mkWrapper (bufferSize w) (fill batch (readBuffers w)) (slices batch)).
  destruct (length (slices batch)) as [|n] eqn:En; [by apply nil_length_inv in En|].
  cbn [Nat.add]. rewrite (reads_asks (n + length (packets batches)) room batch batches w Hw Hsl). fold w1.
  change (S (n + length (packets batches))) with (S n + length (packets batches)). rewrite <- En.
  destruct (reads_pending (length (slices batch)) room batches w1 ltac:(done)) as [R1 R2].
  rewrite R2, R1. cbn [packetBuffers bufferSize readBuffers w1]. rewrite firstn_all, drop_all.
  f_equal.
  - rewrite <- (Hsr (slices batch)), <- list_fmap_compose. done.
  - apply IH; [done|]. eapply Forall_impl; [exact Hf|]. intros b [Hb ?]. split; [|done]. simpl. by rewrite fill_length.
Qed.

(** A batch of empty packets only, which the code means to skip, makes it index an empty slice. *)
Lemma empty_batch_panics room batch w :
  packetBuffers w = [] → batch ≠ [] → Forall (λ p, p = []) batch → fst (tun_Read room (Some batch) w) = ReadPanic.
Proof.
  intros Hw Hb He. unfold tun_Read. rewrite Hw. destruct batch as [|p batch]; [done|]. cbn [packetBuffers].
  assert (slices (p :: batch) = []) as ->; [|done]. unfold slices.
  assert (∀ l (f : nat → nat), Forall (λ p : bytes, p = []) l → filter (λ x : nat * nat, x.2 ≠ 0) (imap (λ i p, (f i, length p)) l) = []) as Hg.
  { induction l as [|q l IH]; intros f Hl; [done|]. apply Forall_cons in Hl as [-> Hl]. rewrite imap_cons, filter_cons_False by (simpl; lia).
    apply (IH (f ∘ S) Hl). }
  by apply (Hg _ id).
Qed.

(** A packet that is longer than the buffer is cut without an error. *)
Lemma tun_Write_cut p w : bufferSize w < length p → snd (tun_Write p w) < length p.
Proof. intros Hp. unfold tun_Write. simpl. rewrite length_take. lia. Qed.

(** [Controller.Run]: packets are handled in the order they are read, until the first error. *)
Fixpoint handled (rs : list read_result) : list bytes :=
  match rs with Data d :: rs => d :: handled rs | _ => [] end.
End wrapper.

(** ** Names of devices *)

Local Open Scope Z_scope.

Definition baseTunName : string := "utun".

(** [strconv.Atoi] of the suffix of a name, if it has one. *)
Definition suffix_number (basename name : string) : option Z :=
  suffix ← CutPrefix name basename;
  if suffix =s? "" then None else match ParseInt suffix with Ok n => Some n | Err _ => None end.

Definition maxSuffix (basename : string) (interfaces : list string) : Z :=
  foldl (λ m name, match suffix_number basename name with Some n => if m <? n then n else m | None => m end) (-1) interfaces.

(** [None] when the interfaces cannot be listed. *)
Definition findNextTunName (basename : string) (interfaces : option (list string)) : option string :=
  (λ l, basename +:+ Itoa (wrap64 (maxSuffix basename l + 1))) <$> interfaces.

Lemma maxSuffix_ge basename l m0 name n :
  name ∈ l → suffix_number basename name = Some n →
  n <= foldl (λ m name, match suffix_number basename name with Some n => if m <? n then n else m | None => m end) m0 l.
Proof.
  assert (∀ l m, m <= foldl (λ m name, match suffix_number basename name with Some n => if m <? n then n else m | None => m end) m l) as Hmono.
  { clear. induction l as [|x l IH]; intros m; simpl; [lia|]. etrans; [|apply IH].
    case_match; [|lia]. case_match eqn:E; [apply Z.ltb_lt in E|]; lia. }
  revert m0. induction l as [|x l IH]; intros m0 Hin Hn; [by apply not_elem_of_nil in Hin|].
  apply elem_of_cons in Hin as [<-|Hin]; simpl; [|by apply IH]. rewrite Hn. etrans; [|apply Hmono].
  case_match eqn:E; [lia|]. apply Z.ltb_ge in E. lia.
Qed.

Lemma maxSuffix_lower basename l : -1 <= maxSuffix basename l.
Proof.
  unfold maxSuffix. assert (∀ m, m <= foldl (λ m name, match suffix_number basename name with Some n => if m <? n then n else m | None => m end) m l) as H;
    [|apply H].
  induction l as [|x l IH]; intros m; simpl; [lia|]. etrans; [|apply IH]. case_match; [|lia]. case_match eqn:E; [apply Z.ltb_lt in E|]; lia.
Qed.

(** The name of the next device is not taken, as long as there is a number left. *)
Lemma next_name_fresh basename l name :
  findNextTunName basename (Some l) = Some name → maxSuffix basename l < int64_max → name ∉ l.
Proof.
  simpl. intros [= <-] Hmax Hin. pose proof (maxSuffix_lower basename l) as Hlow.
  set (n := maxSuffix basename l + 1) in *. assert (0 <= n <= int64_max) as Hn by lia.
  rewrite wrap64_id in Hin by (unfold int64_min, int64_max in *; lia).
  assert (suffix_number basename (basename +:+ Itoa n) = Some n) as Hs.
  { unfold suffix_number. rewrite (proj2 (CutPrefix_spec _ basename (Itoa n))) by done. simpl.
    destruct (Itoa_digits n ltac:(lia)) as [_ Hne]. rewrite (proj2 (seqb_false _ _) Hne).
    by rewrite (ParseInt_Itoa n Hn). }
  pose proof (maxSuffix_ge basename l (-1) _ _ Hin Hs) as Hge. fold (maxSuffix basename l) in Hge. lia.
Qed.

(** ** Setting up a device *)

(** The steps of [openTun], each of which may fail; [None] is success. *)
Inductive tun_step := CreateTUN | DeviceName | InterfaceByName | LinkByName | ParseAddr | AddrAdd | LinkSetUp | Ifconfig | AddRoutes.
Definition tun_steps : list tun_step :=
  [CreateTUN; DeviceName; InterfaceByName; LinkByName; ParseAddr; AddrAdd; LinkSetUp; AddRoutes].

Definition darwin_steps : list tun_step := [CreateTUN; DeviceName; ParseAddr; Ifconfig; AddRoutes].

(** The result, and whether a device was left open that nobody has. *)
Definition open_by (steps : list tun_step) (fails : tun_step → bool) : option tun_step * bool :=
  let failed := find_first fails steps in
  (failed, match failed with None | Some CreateTUN => false | Some _ => true end).
Definition openTun : (tun_step → bool) → option tun_step * bool := open_by tun_steps.
Definition openTun_darwin : (tun_step → bool) → option tun_step * bool := open_by darwin_steps.

(** [generatePeerIP]: the last octet plus one, at eight bits. *)
Definition generatePeerIP (ip : list Z) : list Z :=
  match rev ip with [] => [] | x :: r => rev ((x + 1) mod 256 :: r) end.

(** [ParseRoutes] stops at the first route that does not parse. *)
Fixpoint ParseRoutes {N} (ParseCIDR : string → option N) (rs : list string) : result string (list N) :=
  match rs with
  | [] => Ok []
  | r :: rs =>
      match ParseCIDR r with
      | None => Err r
      | Some n => match ParseRoutes ParseCIDR rs with Ok l => Ok (n :: l) | Err e => Err e end
      end
  end.

Lemma ParseRoutes_ok {N} (ParseCIDR : string → option N) rs l :
  ParseRoutes ParseCIDR rs = Ok l ↔ Forall2 (λ r n, ParseCIDR r = Some n) rs l.
Proof.
  revert l. induction rs as [|r rs IH]; intros l; simpl; [split; [intros [= <-]; constructor|by inversion 1]|].
  destruct (ParseCIDR r) as [n|] eqn:E; [|split; [done|inversion 1; congruence]].
  destruct (ParseRoutes ParseCIDR rs) as [l'|s] eqn:El.
  - split; [intros [= <-]; constructor; [done|by apply IH]|]. inversion 1; subst. f_equal. f_equal; [congruence|].
    assert (Ok l' = Ok l'0 :> result string _) as [= ->] by (by apply IH). done.
  - split; [done|]. inversion 1; subst. assert (Err s = Ok l' :> result string (list N)) by (by apply IH). done.
Qed.

(** A step that fails after the device was made leaves the device open: nothing closes it. *)
Lemma openTun_leaks steps fails s : fst (open_by steps fails) = Some s → s ≠ CreateTUN → snd (open_by steps fails) = true.
Proof. unfold open_by. simpl. intros -> Hs. by destruct s. Qed.

Local Open Scope nat_scope.
Lemma tun_reads_in_order_witness :
  reads 3 2 [[[1; 2; 3]; []; [4]]; [[5]]] (OpenTun (Some 5) 4) = [Data [1; 2]; Data [4]; Data [5]].
Proof.
  apply (tun_reads_in_order 2 [[[1; 2; 3]; []; [4]]; [[5]]] (OpenTun (Some 5) 4)); [done|].
  repeat constructor; simpl; try lia; done.
Defined.
