(* ===== verification/XLog.v ===== *)
(** Logging: the prefixes of a logger in [src/pkg/util/xlog/xlog.go] and the choice of output and level in
    [src/pkg/util/log/log.go]. *)
From Stdlib Require Import ZArith Lia Ascii String Sorting.Sorted.
From stdpp Require Import base strings gmap sorting list.
From S2P Require Import Prelude GoStrings.
Local Open Scope string_scope.
Local Open Scope list_scope.

(** ** Prefixes *)

Record LogPrefix := mkPrefix { lp_Name : string; lp_Value : string; lp_Priority : Z }.
Record Logger := mkLogger { prefixes : list LogPrefix; prefixString : string }.

Definition NewLogger : Logger := mkLogger [] "".

(** [slices.SortStableFunc] by priority: the insertion of an element behind those that are not greater. *)
Fixpoint insert_stable (p : LogPrefix) (l : list LogPrefix) : list LogPrefix :=
  match l with
  | [] => [p]
  | q :: l' => if (lp_Priority q <=? lp_Priority p)%Z then q :: insert_stable p l' else p :: l
  end.
Definition sort_stable (l : list LogPrefix) : list LogPrefix := foldl (λ acc p, insert_stable p acc) [] l.

Definition render (l : list LogPrefix) : string :=
  foldl (λ s p, s +:+ "[" +:+ lp_Value p +:+ "] ") "" l.

Definition renderPrefixString (l : list LogPrefix) : Logger :=
  let l := sort_stable l in mkLogger l (render l).

Definition ResetPrefixes (l : Logger) : list LogPrefix * Logger := (prefixes l, mkLogger [] "").

(** The first prefix of the name is replaced. *)
Fixpoint replace_prefix (p : LogPrefix) (l : list LogPrefix) : option (list LogPrefix) :=
  match l with
  | [] => None
  | q :: l => if lp_Name q =s? lp_Name p then Some (mkPrefix (lp_Name q) (lp_Value p) (lp_Priority p) :: l)
              else (λ r, q :: r) <$> replace_prefix p l
  end.

Definition AddPrefix (p : LogPrefix) (l : Logger) : Logger :=
  let p := if (lp_Priority p <=? 0)%Z then mkPrefix (lp_Name p) (lp_Value p) 10 else p in
  renderPrefixString (match replace_prefix p (prefixes l) with Some r => r | None => prefixes l ++ [p] end).

Definition AppendPrefix (prefix : string) : Logger → Logger := AddPrefix (mkPrefix prefix prefix 10).

(** A copy of the prefixes. *)
Definition Spawn (l : Logger) : Logger := renderPrefixString ([] ++ prefixes l).

(** *** Prefixes stay sorted, one for each name *)

Definition prio_le (a b : LogPrefix) : Prop := (lp_Priority a <= lp_Priority b)%Z.

Lemma insert_perm p l : insert_stable p l ≡ₚ p :: l.
Proof.
  induction l as [|q l IH]; [done|]. simpl. destruct (_ <=? _)%Z; [|done]. rewrite IH. apply Permutation_swap.
Qed.

Lemma insert_sorted p l : StronglySorted prio_le l → StronglySorted prio_le (insert_stable p l).
Proof.
  induction 1 as [|q l Hl IH Hq]; simpl; [by repeat constructor|].
  destruct (Z.leb_spec (lp_Priority q) (lp_Priority p)) as [Hle|Hlt].
  - constructor; [done|]. rewrite insert_perm. constructor; [exact Hle|done].
  - constructor; [by constructor|]. constructor; [unfold prio_le; lia|]. eapply Forall_impl; [exact Hq|].
    unfold prio_le. lia.
Qed.

Lemma sort_stable_spec l : StronglySorted prio_le (sort_stable l) ∧ sort_stable l ≡ₚ l.
Proof.
  unfold sort_stable. assert (∀ acc, StronglySorted prio_le acc →
    StronglySorted prio_le (foldl (λ acc p, insert_stable p acc) acc l) ∧ foldl (λ acc p, insert_stable p acc) acc l ≡ₚ acc ++ l) as H;
    [|apply (H []); constructor].
  induction l as [|p l IH]; intros acc Ha; simpl; [by rewrite app_nil_r|].
  destruct (IH (insert_stable p acc) (insert_sorted p acc Ha)) as [H1 H2]. split; [done|].
  rewrite H2, insert_perm. apply Permutation_middle.
Qed.

Lemma insert_last p l : Forall (λ q, prio_le q p) l → insert_stable p l = l ++ [p].
Proof.
  induction 1 as [|q l Hq _ IH]; [done|]. simpl. unfold prio_le in Hq.
  destruct (Z.leb_spec (lp_Priority q) (lp_Priority p)); [by rewrite IH|lia].
Qed.

(** Sorting a sorted list changes nothing. *)
Lemma sort_stable_id l : StronglySorted prio_le l → sort_stable l = l.
Proof.
  unfold sort_stable. assert (∀ acc, StronglySorted prio_le l → Forall (λ q, Forall (prio_le q) l) acc →
    foldl (λ acc p, insert_stable p acc) acc l = acc ++ l) as H; [|intros Hl; by apply (H [])].
  induction l as [|p l IH]; intros acc Hl Ha; simpl; [by rewrite app_nil_r|].
  inversion_clear Hl as [|? ? Hl' Hp]. rewrite insert_last, IH, <- app_assoc; [done|done| |].
  - apply Forall_app. split; [|by constructor]. eapply Forall_impl; [exact Ha|]. intros q Hq. by inversion_clear Hq.
  - eapply Forall_impl; [exact Ha|]. intros q Hq. by inversion_clear Hq.
Qed.

Definition wf (l : Logger) : Prop :=
  StronglySorted prio_le (prefixes l) ∧ NoDup (lp_Name <$> prefixes l) ∧ prefixString l = render (prefixes l).

Definition norm (p : LogPrefix) : LogPrefix :=
  if (lp_Priority p <=? 0)%Z then mkPrefix (lp_Name p) (lp_Value p) 10 else p.

Lemma norm_name p : lp_Name (norm p) = lp_Name p.
Proof. unfold norm. by destruct (_ <=? _)%Z. Qed.

Lemma replace_prefix_spec p l : NoDup (lp_Name <$> l) →
  match replace_prefix p l with
  | Some r => lp_Name <$> r = lp_Name <$> l ∧ (∀ q, q ∈ r ↔ q = p ∨ q ∈ l ∧ lp_Name q ≠ lp_Name p)
  | None => lp_Name p ∉ lp_Name <$> l
  end.
Proof.
  induction l as [|q l IH]; intros Hn; simpl; [apply not_elem_of_nil|].
  apply NoDup_cons in Hn as [Hq Hn]. destruct (seqb_spec (lp_Name q) (lp_Name p)) as [E|E].
  - split; [done|]. intros x. rewrite !elem_of_cons. destruct p as [n v k]; simpl in *; subst n. split.
    + intros [->|Hx]; [by left|right]. split; [by right|]. intros Hx'. apply Hq. rewrite <- Hx'. by apply list_elem_of_fmap_2.
    + intros [->|[[->|Hx] Hne]]; [by left|done|by right].
  - specialize (IH Hn). destruct (replace_prefix p l) as [r|]; simpl.
    + destruct IH as [I1 I2]. split; [by f_equal|]. intros x. rewrite !elem_of_cons, I2. naive_solver.
    + rewrite elem_of_cons. intros [Hp|Hp]; [by apply E|by apply IH].
Qed.

(** Adding a prefix keeps the list sorted with one prefix for each name and the rendered string current; the prefix
    of the name is the one given, with priority 10 for none, and the others stay. *)
Theorem AddPrefix_spec p l : wf l →
  wf (AddPrefix p l) ∧ ∀ q, q ∈ prefixes (AddPrefix p l) ↔ q = norm p ∨ q ∈ prefixes l ∧ lp_Name q ≠ lp_Name p.
Proof.
  intros (_ & Hn & _). unfold AddPrefix. fold (norm p). unfold renderPrefixString, wf. simpl.
  pose proof (replace_prefix_spec (norm p) _ Hn) as H. rewrite norm_name in H.
  destruct (replace_prefix (norm p) (prefixes l)) as [r|] eqn:Er.
  - destruct H as [H1 H2]. destruct (sort_stable_spec r) as [S1 S2]. split.
    + repeat split; [done|]. by rewrite S2, H1.
    + intros q. by rewrite S2, H2.
  - destruct (sort_stable_spec (prefixes l ++ [norm p])) as [S1 S2]. split.
    + repeat split; [done|]. rewrite S2, fmap_app. apply NoDup_app. repeat split; [done| |apply NoDup_singleton].
      simpl. rewrite norm_name. intros x Hx ->%list_elem_of_singleton. done.
    + intros q. rewrite S2, elem_of_app, list_elem_of_singleton. split; [|naive_solver].
      intros [Hq| ->]; [right|by left]. split; [done|]. intros E. apply H. rewrite <- E. by apply list_elem_of_fmap_2.
Qed.

Lemma NewLogger_wf : wf NewLogger.
Proof. repeat split; constructor. Qed.

(** A spawned logger starts with the prefixes and the string of its parent. *)
Theorem Spawn_same l : wf l → Spawn l = l.
Proof.
  intros (Hs & _ & Hr). unfold Spawn, renderPrefixString. rewrite app_nil_l, sort_stable_id by done.
  destruct l; simpl in *. by rewrite Hr.
Qed.

(** What a client session prints of itself: the run id replaced at a new login, the prefix of a proxy behind it; the
    prefix of the lower number stands first. *)
Example prefixes_shown :
  prefixString (AddPrefix (mkPrefix "runID" "r2" 1) (AppendPrefix "web" (AddPrefix (mkPrefix "runID" "r1" 0) NewLogger)))
  = "[r2] [web] ".
Proof. reflexivity. Qed.

(** ** Messages: the prefix is part of the format *)

(** [fmt.Sprintf] for formats whose verbs carry no flag, width, precision or argument index (the others are outside of
    the definition), over arguments already printed with their types. *)
Definition is_flag (c : ascii) : bool :=
  match c with "+"%char | "-"%char | "#"%char | " "%char | "*"%char | "["%char | "."%char => true
             | _ => (48 <=? nat_of_ascii c)%nat && (nat_of_ascii c <=? 57)%nat end.
Record Arg := mkArg { arg_type : string; arg_text : string }.
Definition verb (c : ascii) (a : Arg) : string :=
  match c with
  | "v"%char => arg_text a
  | "s"%char => if arg_type a =s? "string" then arg_text a else "%!s(" +:+ arg_type a +:+ "=" +:+ arg_text a +:+ ")"
  | "d"%char => if arg_type a =s? "int" then arg_text a else "%!d(" +:+ arg_type a +:+ "=" +:+ arg_text a +:+ ")"
  | c => "%!" +:+ String c "" +:+ "(" +:+ arg_type a +:+ "=" +:+ arg_text a +:+ ")"
  end.
Fixpoint extra (l : list Arg) : string :=
  match l with
  | [] => ""
  | [a] => arg_type a +:+ "=" +:+ arg_text a
  | a :: l => arg_type a +:+ "=" +:+ arg_text a +:+ ", " +:+ extra l
  end.
Fixpoint Sprintf (f : string) (args : list Arg) : option string :=
  match f with
  | "" => Some (match args with [] => "" | _ => "%!(EXTRA " +:+ extra args +:+ ")" end)
  | String "%" "" => Some ("%!(NOVERB)" +:+ match args with [] => "" | _ => "%!(EXTRA " +:+ extra args +:+ ")" end)
  | String "%" (String "%" f) => String "%" <$> Sprintf f args
  | String "%" (String c f) =>
      if is_flag c then None
      else match args with
           | [] => (λ r, "%!" +:+ String c "(MISSING)" +:+ r) <$> Sprintf f []
           | a :: args => (λ r, verb c a +:+ r) <$> Sprintf f args
           end
  | String c f => String c <$> Sprintf f args
  end.

(** The five methods hand [prefixString+format] to the logger of the process, each at its level. *)
Inductive LogLevel := TraceLevel | DebugLevel | InfoLevel | WarnLevel | ErrorLevel.
Definition log_line (lv : LogLevel) (format : string) (v : list Arg) : option (LogLevel * string) := pair lv <$> Sprintf format v.
Definition Errorf (l : Logger) (format : string) (v : list Arg) := log_line ErrorLevel (prefixString l +:+ format) v.
Definition Warnf (l : Logger) (format : string) (v : list Arg) := log_line WarnLevel (prefixString l +:+ format) v.
Definition Infof (l : Logger) (format : string) (v : list Arg) := log_line InfoLevel (prefixString l +:+ format) v.
Definition Debugf (l : Logger) (format : string) (v : list Arg) := log_line DebugLevel (prefixString l +:+ format) v.
Definition Tracef (l : Logger) (format : string) (v : list Arg) := log_line TraceLevel (prefixString l +:+ format) v.

Fixpoint no_percent (s : string) : bool :=
  match s with "" => true | String c s => negb (Ascii.eqb c "%") && no_percent s end.

Lemma no_percent_app a b : no_percent (a +:+ b) = no_percent a && no_percent b.
Proof. induction a as [|c a IH]; simpl; [done|]. by rewrite IH, andb_assoc. Qed.

Lemma render_no_percent l : forallb (λ p, no_percent (lp_Value p)) l = true → no_percent (render l) = true.
Proof.
  unfold render. assert (∀ s, no_percent s = true → forallb (λ p, no_percent (lp_Value p)) l = true →
    no_percent (foldl (λ s p, s +:+ "[" +:+ lp_Value p +:+ "] ") s l) = true) as H; [|by apply H].
  induction l as [|p l IH]; intros s Hs Hl; [done|]. simpl in Hl. apply andb_true_iff in Hl as [Hp Hl].
  apply IH; [|done]. rewrite !no_percent_app, Hs, Hp. done.
Qed.

Lemma Sprintf_prefix p f v : no_percent p = true → Sprintf (p +:+ f) v = (λ r, p +:+ r) <$> Sprintf f v.
Proof.
  induction p as [|c p IH]; intros Hp; [simpl; by destruct (Sprintf f v)|].
  simpl in Hp. apply andb_true_iff in Hp as [Hc Hp]. specialize (IH Hp).
  assert (Sprintf (String c p +:+ f) v = String c <$> Sprintf (p +:+ f) v) as ->.
  { destruct c as [[] [] [] [] [] [] [] []]; done. }
  rewrite IH. by destruct (Sprintf f v).
Qed.

(** While no value of a prefix has a percent sign, a message is the prefixes followed by the message. *)
Theorem message_behind_prefix l f v : wf l → forallb (λ p, no_percent (lp_Value p)) (prefixes l) = true →
  let shown lv := (λ r, (lv, render (prefixes l) +:+ r)) <$> Sprintf f v in
  Errorf l f v = shown ErrorLevel ∧ Warnf l f v = shown WarnLevel ∧ Infof l f v = shown InfoLevel ∧
  Debugf l f v = shown DebugLevel ∧ Tracef l f v = shown TraceLevel.
Proof.
  intros (_ & _ & Hr) Hp. unfold Errorf, Warnf, Infof, Debugf, Tracef, log_line.
  rewrite Hr, Sprintf_prefix by (by apply render_no_percent). by destruct (Sprintf f v).
Qed.

(** A proxy named [a%s] takes the argument of the message: the error shows in the place of the name, and the place of
    the error shows that an argument is missing. *)
Example percent_in_name :
  Errorf (AppendPrefix "a%s" NewLogger) "start error: %s" [mkArg "string" "port in use"]
  = Some (ErrorLevel, "[aport in use] start error: %!s(MISSING)").
Proof. reflexivity. Qed.

(** ** Writers for other libraries ([log_writer.go]) *)

Definition LogWriter := string → option (LogLevel * string).
Definition writer (f : string → list Arg → option (LogLevel * string)) : LogWriter :=
  λ msg, f "%s" [mkArg "string" msg].
Definition NewTraceWriter (xl : Logger) : LogWriter := writer (Tracef xl).
Definition NewDebugWriter (xl : Logger) : LogWriter := writer (Debugf xl).
Definition NewInfoWriter (xl : Logger) : LogWriter := writer (Infof xl).
Definition NewWarnWriter (xl : Logger) : LogWriter := writer (Warnf xl).
Definition NewErrorWriter (xl : Logger) : LogWriter := writer (Errorf xl).

Definition LogWriter_Write (w : LogWriter) (p : string) : option (LogLevel * string) * nat :=
  (w (TrimSpace p), String.length p).

(** Whatever is written, percent signs included, is shown as it is behind the prefixes, without the space around it. *)
Theorem writers_verbatim xl p : wf xl → forallb (λ q, no_percent (lp_Value q)) (prefixes xl) = true →
  let shown lv := (Some (lv, render (prefixes xl) +:+ TrimSpace p), String.length p) in
  LogWriter_Write (NewTraceWriter xl) p = shown TraceLevel ∧ LogWriter_Write (NewDebugWriter xl) p = shown DebugLevel ∧
  LogWriter_Write (NewInfoWriter xl) p = shown InfoLevel ∧ LogWriter_Write (NewWarnWriter xl) p = shown WarnLevel ∧
  LogWriter_Write (NewErrorWriter xl) p = shown ErrorLevel.
Proof.
  intros Hw Hp. unfold LogWriter_Write, NewTraceWriter, NewDebugWriter, NewInfoWriter, NewWarnWriter, NewErrorWriter, writer.
  destruct (message_behind_prefix xl "%s" [mkArg "string" (TrimSpace p)] Hw Hp) as (-> & -> & -> & -> & ->).
  assert (Sprintf "%s" [mkArg "string" (TrimSpace p)] = Some (TrimSpace p)) as ->; [|done].
  simpl. f_equal. generalize (TrimSpace p). intros t. induction t as [|c t IH]; simpl; [done|by f_equal].
Qed.

(** ** The logger of the process *)

Section Init.
Context (ParseLevel : string → option LogLevel).

Inductive Output := ConsoleColor | RotateDaily (file : string) (maxDays : Z).
Record LogOptions := mkOpts { withOutput : option Output; withLevel : LogLevel }.

Definition InitLogger (logPath levelStr : string) (maxDays : Z) (disableLogColor : bool) : LogOptions :=
  mkOpts (if logPath =s? "console" then (if disableLogColor then None else Some ConsoleColor)
          else Some (RotateDaily logPath maxDays))
         (match ParseLevel levelStr with Some l => l | None => InfoLevel end).

(** [WriteLogger.Write]: the message without the newlines at its end, and the length of what was given. *)
Fixpoint trim_newlines (p : list Ascii.ascii) : list Ascii.ascii :=
  match p with
  | [] => []
  | c :: p => match trim_newlines p with
              | [] => if Ascii.eqb c "010" then [] else [c]
              | r => c :: r
              end
  end.
Definition WriteLogger_Write (p : list Ascii.ascii) : list Ascii.ascii * nat := (trim_newlines p, length p).

Lemma trim_newlines_spec p : ∃ k, p = trim_newlines p ++ replicate k "010"%char ∧ last (trim_newlines p) ≠ Some "010"%char.
Proof.
  induction p as [|c p (k & E & L)]; [by exists 0|]. simpl. destruct (trim_newlines p) as [|d r] eqn:Er.
  - destruct (Ascii.eqb_spec c "010") as [->|Hc]; [exists (S k)|exists k]; split; try done; simpl; try by f_equal. congruence.
  - exists k. split; [simpl in *; by f_equal|]. done.
Qed.
End Init.
