(* ===== verification/Reconnect.v ===== *)
(** The goroutine that keeps a session with the server ([keepControllerWorking] of [src/client/service.go]), next to
    the goroutine that stops the service.

    [svr.ctl] is replaced under [ctlMu] by [loginFunc] and by [stop], and read without it by [keepControllerWorking];
    each of the reads is a step of its own. *)
From Stdlib Require Import Lia.
From stdpp Require Import base list.
From S2P Require Import Prelude.
Local Open Scope list_scope.

(** A session: open, its connection closed, or ended ([doneCh] closed by [Control.worker]). *)
Inductive ctl_state := Open | Closed | Ended.

(** Where [keepControllerWorking] stands. *)
Inductive kpc :=
| KFirst           (* evaluates [svr.ctl.Done()], line 276 *)
| KWait (i : nat)  (* receives from the channel of session [i] *)
| KTop             (* [BackoffUntil] looks at [svr.ctx.Done()] *)
| KLogin           (* the [BackoffUntil] of [loopLoginUntilSuccess] looks at it *)
| KTry             (* in [loginFunc], before the session is there *)
| KSwap (i : nat)  (* the new session runs and is not [svr.ctl] yet *)
| KCheck           (* reads [svr.ctl != nil] *)
| KDeref           (* evaluates [svr.ctl.Done()], line 287 *)
| KEnd | KPanic.

Record service := mkService {
  ctls : list ctl_state;   (* all sessions made so far *)
  ctl : option nat;        (* svr.ctl *)
  cancelled : bool;        (* svr.ctx is done *)
  stopped : bool;          (* stop has run *)
  keeper : kpc }.

(** The service once the first login has succeeded and [go svr.keepControllerWorking()] was executed. *)
Definition started : service := mkService [Open] (Some 0) false false KFirst.

Definition at_pc (s : service) (k : kpc) : service := mkService (ctls s) (ctl s) (cancelled s) (stopped s) k.

(** [closeSession]: what is closed already stays as it is. *)
Definition close_ctl (l : list ctl_state) (o : option nat) : list ctl_state :=
  match o with
  | Some i => match l !! i with Some Open => <[i := Closed]> l | _ => l end
  | None => l
  end.

(** One step of the goroutine; [ok] is the result of [login] and [NewControl] where it is at it. [None]: it waits. *)
Definition keeper_step (ok : bool) (s : service) : option service :=
  match keeper s with
  | KFirst | KDeref => Some (at_pc s (match ctl s with Some i => KWait i | None => KPanic end))
  | KWait i => match ctls s !! i with Some Ended => Some (at_pc s KTop) | _ => None end
  | KTop => Some (at_pc s (if cancelled s then KEnd else KLogin))
  | KLogin => Some (at_pc s (if cancelled s then KCheck else KTry))
  | KTry =>
      Some (if ok then mkService (ctls s ++ [Open]) (ctl s) (cancelled s) (stopped s) (KSwap (length (ctls s)))
            else at_pc s KLogin)
  | KSwap n => Some (mkService (close_ctl (ctls s) (ctl s)) (Some n) (cancelled s) (stopped s) KCheck)
  | KCheck => Some (at_pc s (match ctl s with Some _ => KDeref | None => KTop end))
  | KEnd | KPanic => None
  end.

(** [stop], behind [<-svr.ctx.Done()] of [Run]. *)
Definition stop_ctl (s : service) : service :=
  mkService (close_ctl (ctls s) (ctl s)) None (cancelled s) true (keeper s).

Arguments close_ctl : simpl never.

Inductive event := Keeper (ok : bool) | Cancel | Stop | Broken (i : nat) | WorkerEnds (i : nat).

Definition step (e : event) (s : service) : option service :=
  match e with
  | Keeper ok => keeper_step ok s
  | Cancel => Some (mkService (ctls s) (ctl s) true (stopped s) (keeper s))
  | Stop => if cancelled s && negb (stopped s) then Some (stop_ctl s) else None
  | Broken i => Some (mkService (close_ctl (ctls s) (Some i)) (ctl s) (cancelled s) (stopped s) (keeper s))
  | WorkerEnds i => match ctls s !! i with
                    | Some Closed => Some (mkService (<[i := Ended]> (ctls s)) (ctl s) (cancelled s) (stopped s) (keeper s))
                    | _ => None
                    end
  end.

Fixpoint run (l : list event) (s : service) : option service :=
  match l with [] => Some s | e :: l => s' ← step e s; run l s' end.

(** ** Sessions are not left open *)

Record inv (s : service) : Prop := mkInv {
  inv_open : ∀ i, ctls s !! i = Some Open → ctl s = Some i ∨ keeper s = KSwap i;
  inv_ctl : ∀ i, ctl s = Some i → i < length (ctls s);
  inv_wait : ∀ i, keeper s = KWait i → i < length (ctls s);
  inv_swap : ∀ i, keeper s = KSwap i → i < length (ctls s) ∧ ctl s ≠ Some i;
  inv_live : cancelled s = false → stopped s = false ∧ ctl s ≠ None ∧ keeper s ≠ KPanic ∧ keeper s ≠ KEnd }.

Lemma close_length l o : length (close_ctl l o) = length l.
Proof. unfold close_ctl. destruct o as [i|]; [|done]. destruct (l !! i) as [[]|]; try done. apply length_insert. Qed.

Lemma close_lookup l o i :
  close_ctl l o !! i = Some Open ↔ l !! i = Some Open ∧ o ≠ Some i.
Proof.
  unfold close_ctl. destruct o as [j|]; [|naive_solver].
  destruct (decide (i = j)) as [->|Hne].
  - destruct (l !! j) as [[]|] eqn:E; rewrite ?list_lookup_insert_eq by (by eapply lookup_lt_Some); rewrite ?E; naive_solver.
  - destruct (l !! j) as [[]|] eqn:E; rewrite ?list_lookup_insert_ne by done; naive_solver.
Qed.

Lemma inv_started : inv started.
Proof.
  split; simpl; try done; try naive_solver lia.
  intros [|i]; simpl; [by left|]. by rewrite lookup_nil.
Qed.

Local Ltac by_inv := split; simpl; intros; simplify_eq; rewrite ?close_length, ?length_insert in *; eauto; try naive_solver.

Lemma inv_step e s s' : inv s → step e s = Some s' → inv s'.
Proof.
  intros [Io Ic Iw Is Il]. destruct s as [l c cn st k]; simpl in *. destruct e as [ok| | |i|i]; simpl.
  - unfold keeper_step. destruct k as [|i| | | |n| | | |]; simpl; intros H; simplify_eq.
    + destruct c; by_inv.
    + destruct (l !! i) as [[]|]; by_inv.
    + destruct cn; by_inv.
    + destruct cn; by_inv.
    + destruct ok; [|by_inv]. split; simpl; rewrite ?length_app; simpl.
      * intros i Hi. pose proof (lookup_lt_Some _ _ _ Hi) as Hlt. rewrite length_app in Hlt; simpl in Hlt.
        destruct (decide (i < length l)) as [Hi'|Hi']; [|right; f_equal; lia].
        rewrite lookup_app_l in Hi by done. destruct (Io i Hi); naive_solver.
      * intros i Hi. specialize (Ic i Hi). lia.
      * done.
      * intros i [= <-]. split; [lia|]. intros Hc. specialize (Ic _ Hc). lia.
      * intros Hc. specialize (Il Hc). naive_solver.
    + destruct (Is n eq_refl) as [Hn Hc]. split; simpl; rewrite ?close_length; try done.
      * intros i [Hi Hne]%close_lookup. destruct (Io i Hi) as [?|Hk]; [done|]. left. congruence.
      * by intros i [= <-].
      * intros Hf. by destruct (Il Hf) as (? & ? & ?).
    + destruct c; by_inv.
    + destruct c; by_inv.
  - intros [= <-]. by_inv.
  - destruct cn, st; simpl; intros [= <-]. unfold stop_ctl. simpl. split; simpl; rewrite ?close_length; try done.
    + intros i [Hi Hne]%close_lookup. destruct (Io i Hi); [done|by right].
    + intros i Hi. by destruct (Is i Hi).
  - intros [= <-]. split; simpl; rewrite ?close_length; try done.
    intros j [Hj _]%(close_lookup l (Some i)). by apply Io.
  - destruct (l !! i) as [[]|] eqn:E; intros [= <-]. split; simpl; rewrite ?length_insert; try done.
    intros j Hj. destruct (decide (i = j)) as [->|Hne]; [|rewrite list_lookup_insert_ne in Hj by done; by apply Io].
    rewrite list_lookup_insert_eq in Hj by (by eapply lookup_lt_Some). done.
Qed.

Lemma inv_run l s s' : inv s → run l s = Some s' → inv s'.
Proof.
  revert s. induction l as [|e l IH]; simpl; intros s Hs; [by intros [= <-]|].
  destruct (step e s) as [t|] eqn:E; simpl; [|done]. apply IH. by eapply inv_step.
Qed.

Lemma all_ended s i : Forall (eq Ended) (ctls s) → i < length (ctls s) → ctls s !! i = Some Ended.
Proof.
  intros He Hi. destruct (lookup_lt_is_Some_2 _ _ Hi) as [x Hx]. rewrite Hx. f_equal.
  symmetry. by apply (proj1 (Forall_lookup _ _) He i x).
Qed.

(** ** What holds of every run *)

(** In every run of the service the only sessions that are open are the current one and the one a login is about to
    put in its place, so that reconnecting leaves no session behind; and until the service is closed it has a
    current session and the goroutine that reconnects is there. *)
Theorem sessions_kept l s : run l started = Some s →
  (∀ i, ctls s !! i = Some Open → ctl s = Some i ∨ keeper s = KSwap i) ∧
  (cancelled s = false → ctl s ≠ None ∧ keeper s ≠ KPanic ∧ keeper s ≠ KEnd).
Proof.
  intros H. destruct (inv_run _ _ _ inv_started H) as [Io _ _ _ Il]. split; [done|]. intros Hc. by destruct (Il Hc).
Qed.

(** C39: While the service is not closed, once every session has ended the goroutine reaches a new current session that
    is open, by at most eight of its own steps and one login that succeeds. *)
Theorem reconnects l s : run l started = Some s → cancelled s = false → Forall (eq Ended) (ctls s) →
  ∃ n s', n ≤ 8 ∧ run (replicate n (Keeper true)) s = Some s' ∧
    ctl s' = Some (length (ctls s)) ∧ ctls s' = ctls s ++ [Open] ∧ cancelled s' = false.
Proof.
  intros Hr Hc He. destruct (inv_run _ _ _ inv_started Hr) as [Io Ic Iw Is Il]. destruct (Il Hc) as (_ & Hn & Hp & Hk).
  pose proof (λ i, all_ended s i He) as Hd.
  destruct s as [cs [c|] cn st k]; simpl in *; [|done]. subst cn. specialize (Ic c eq_refl). pose proof (Hd c Ic) as Hdc.
  assert (∀ i, i < length cs → close_ctl cs (Some i) = cs ∧ close_ctl (cs ++ [Open]) (Some i) = cs ++ [Open]) as Hcl.
  { intros i Hi. unfold close_ctl. by rewrite lookup_app_l, (Hd i Hi). }
  destruct k as [|i| | | |n| | | |]; simpl in *; try done.
  - exists 6. eexists. split; [lia|]. cbn. rewrite Hdc. cbn. by rewrite (proj2 (Hcl c Ic)).
  - exists 5. eexists. split; [lia|]. cbn. rewrite (Hd i) by (by apply Iw). cbn. by rewrite (proj2 (Hcl c Ic)).
  - exists 4. eexists. split; [lia|]. cbn. by rewrite (proj2 (Hcl c Ic)).
  - exists 3. eexists. split; [lia|]. cbn. by rewrite (proj2 (Hcl c Ic)).
  - exists 2. eexists. split; [lia|]. cbn. by rewrite (proj2 (Hcl c Ic)).
  - destruct (Is n eq_refl) as [Hl _]. exists 8. eexists. split; [lia|]. cbn. rewrite (proj1 (Hcl c Ic)), (Hd n Hl). cbn.
    by rewrite (proj2 (Hcl n Hl)).
  - exists 7. eexists. split; [lia|]. cbn. rewrite Hdc. cbn. by rewrite (proj2 (Hcl c Ic)).
  - exists 6. eexists. split; [lia|]. cbn. rewrite Hdc. cbn. by rewrite (proj2 (Hcl c Ic)).
Qed.

(** A session that breaks is replaced. *)
Lemma reconnects_witness : ∃ s n s',
  run [Keeper true; Broken 0; WorkerEnds 0] started = Some s ∧
  n ≤ 8 ∧ run (replicate n (Keeper true)) s = Some s' ∧ ctl s' = Some 1 ∧ ctls s' = [Ended; Open] ∧ cancelled s' = false.
Proof.
  exists (mkService [Ended] (Some 0) false false (KWait 0)).
  destruct (reconnects [Keeper true; Broken 0; WorkerEnds 0] (mkService [Ended] (Some 0) false false (KWait 0)))
    as (n & s' & H); [reflexivity|reflexivity|repeat constructor|].
  exists n, s'. split; [reflexivity|exact H].
Defined.

Lemma sessions_kept_witness : ∃ s,
  run [Keeper true; Broken 0; WorkerEnds 0; Keeper true; Keeper true; Keeper true; Keeper true] started = Some s ∧
  (∀ i, ctls s !! i = Some Open → ctl s = Some i ∨ keeper s = KSwap i) ∧
  (cancelled s = false → ctl s ≠ None ∧ keeper s ≠ KPanic ∧ keeper s ≠ KEnd).
Proof.
  exists (mkService [Ended; Open] (Some 0) false false (KSwap 1)). split; [reflexivity|].
  apply (sessions_kept [Keeper true; Broken 0; WorkerEnds 0; Keeper true; Keeper true; Keeper true; Keeper true]). reflexivity.
Defined.

(** ** After the service is closed *)

(** Once the service is stopped and its sessions have ended, the goroutine is over within seven steps, whatever a login
    under way would still give, unless that login succeeds. *)
Theorem keeper_ends l s : run l started = Some s → stopped s = true → cancelled s = true → Forall (eq Ended) (ctls s) →
  ∃ n s', n ≤ 7 ∧ run (replicate n (Keeper false)) s = Some s' ∧ (keeper s' = KEnd ∨ keeper s' = KPanic).
Proof.
  intros Hr Hs Hc He. destruct (inv_run _ _ _ inv_started Hr) as [Io Ic Iw Is _].
  pose proof (λ i, all_ended s i He) as Hd.
  destruct s as [cs c cn st k]; simpl in *. subst cn st.
  assert (close_ctl cs c = cs) as Hcl.
  { unfold close_ctl. destruct c as [i|]; [|done]. by rewrite (Hd i (Ic i eq_refl)). }
  destruct k as [|i| | | |n| | | |]; [destruct c as [c|]| | |destruct c as [c|]|destruct c as [c|]| |destruct c as [c|]|destruct c as [c|]| |];
    try (pose proof (Hd c (Ic c eq_refl)) as Hdc).
  - exists 3. eexists. split; [lia|]. cbn. rewrite Hdc. cbn. by split; [|left].
  - exists 1. eexists. split; [lia|]. cbn. by split; [|right].
  - exists 2. eexists. split; [lia|]. cbn. rewrite (Hd i (Iw i eq_refl)). cbn. by split; [|left].
  - exists 1. eexists. split; [lia|]. cbn. by split; [|left].
  - exists 5. eexists. split; [lia|]. cbn. rewrite Hdc. cbn. by split; [|left].
  - exists 3. eexists. split; [lia|]. cbn. by split; [|left].
  - exists 6. eexists. split; [lia|]. cbn. rewrite Hdc. cbn. by split; [|left].
  - exists 4. eexists. split; [lia|]. cbn. by split; [|left].
  - destruct (Is n eq_refl) as [Hl _]. exists 5. eexists. split; [lia|]. cbn. rewrite Hcl, (Hd n Hl). cbn. by split; [|left].
  - exists 4. eexists. split; [lia|]. cbn. rewrite Hdc. cbn. by split; [|left].
  - exists 2. eexists. split; [lia|]. cbn. by split; [|left].
  - exists 3. eexists. split; [lia|]. cbn. rewrite Hdc. cbn. by split; [|left].
  - exists 1. eexists. split; [lia|]. cbn. by split; [|right].
  - exists 0. eexists. split; [lia|]. by split; [|left].
  - exists 0. eexists. split; [lia|]. by split; [|right].
Qed.

(** The reads of [svr.ctl] are not protected: a service that is closed before the goroutine has begun, or between its
    test of [svr.ctl] and its use, dereferences nil. *)
Theorem keeper_nil_panics :
  (∃ s, run [Cancel; Stop; Keeper true] started = Some s ∧ keeper s = KPanic) ∧
  (∃ s, run [Keeper true; Broken 0; WorkerEnds 0; Keeper true; Keeper true; Keeper true; Keeper true; Keeper true; Keeper true;
             Cancel; Stop; Keeper true] started = Some s ∧ keeper s = KPanic).
Proof. split; eexists; (split; [vm_compute; reflexivity|reflexivity]). Qed.
