(* ===== verification/HttpPlugin.v ===== *)
(** The server plugin that is an HTTP service: [src/pkg/plugin/server/http.go], as an instance of the interface the
    plugin manager calls ([ServerPlugins]).

    The service is a function from requests to what comes back; the text of a request with its version, operation and
    content and the decoding of a content ([encoding/json]) are parameters.  What is decoded here is the frame of the
    answer, over JSON values: a member goes to the field of its name, without regard to case, [null] leaves a field alone, and a member of another type makes
    [Unmarshal] fail.  [Content] is an interface that holds a pointer: a value is decoded into what it points to, but
    [null] sets the interface to nil, and later values give it a map. *)
From Stdlib Require Import ZArith Lia Ascii String.
From stdpp Require Import base gmap strings list.
From S2P Require Import Prelude GoStrings Auth ProxyConf CommonConf ServerPlugins.
Local Open Scope string_scope.
Local Open Scope list_scope.

(** ** The address *)

Record http_client := mkClient { hc_transport : bool; InsecureSkipVerify : bool }.
Record httpPlugin := mkHttpPlugin { hp_options : ServerConf.HTTPPluginOptions; hp_url : string; hp_client : http_client }.

Definition NewHTTPPluginOptions (o : ServerConf.HTTPPluginOptions) : httpPlugin :=
  let url := ServerConf.hp_Addr o +:+ ServerConf.hp_Path o in
  let client := if HasPrefix url "https://" then mkClient true (negb (ServerConf.hp_TLSVerify o)) else mkClient false false in
  let url := if negb (HasPrefix url "https://") && negb (HasPrefix url "http://") then "http://" +:+ url else url in
  mkHttpPlugin o url client.

(** [url.QueryEscape]. *)
Definition hex (n : nat) : ascii := ascii_of_nat (if n <? 10 then 48 + n else 55 + n)%nat.
Definition unreserved (c : ascii) : bool :=
  let n := nat_of_ascii c in
  ((48 <=? n) && (n <=? 57) || (65 <=? n) && (n <=? 90) || (97 <=? n) && (n <=? 122) ||
   (n =? 45) || (n =? 46) || (n =? 95) || (n =? 126))%nat.
Fixpoint QueryEscape (s : string) : string :=
  match s with
  | "" => ""
  | String c s =>
      if unreserved c then String c (QueryEscape s)
      else if Ascii.eqb c " " then String "+" (QueryEscape s)
      else String "%" (String (hex (nat_of_ascii c / 16)) (String (hex (nat_of_ascii c mod 16)) (QueryEscape s)))
  end.

Definition APIVersion : string := "0.1.0".

(** [v.Encode()] sorts by the key. *)
Definition request_url (p : httpPlugin) (o : op) : string :=
  hp_url p +:+ "?op=" +:+ QueryEscape (op_name o) +:+ "&version=" +:+ QueryEscape APIVersion.

(** ** The answer *)

Inductive json := JNull | JBool (b : bool) | JNum (n : Z) | JStr (s : string) | JArr (l : list json)
| JObj (l : list (string * json)).

(** [reflect.New(reflect.TypeOf(content))]: what an answer is decoded into. *)
Definition zero (o : op) : content_of o :=
  let u := mkUserInfo "" ∅ "" in
  match o with
  | OpLogin => mkLoginContent (mkLogin "" "" "" "" "" "" 0 "" "" ∅ (mkClientSpec "" false) 0) ""
  | OpNewProxy => mkNewProxyContent u (mkNewProxy "" "" false false "" "" "" "" ∅ ∅ 0 [] "" [] "" "" "" ∅ ∅ "" "" [] "")
  | OpCloseProxy => mkCloseProxyContent u ""
  | OpPing => mkPingContent u (mkPing "" 0)
  | OpNewWorkConn => mkNewWorkConnContent u (mkNewWorkConn "" "" 0)
  | OpNewUserConn => mkNewUserConnContent u "" "" ""
  end.

Section Do.
Context (parse : string → option json) (marshal : ∀ o, content_of o → option string)
  (decode : ∀ o, json → content_of o → option (content_of o)).

Record request := mkRequest { rq_method : string; rq_url : string; rq_reqid : string; rq_type : string; rq_body : string }.

(** [http.NewRequest], [p.client.Do] and [io.ReadAll]: no answer, or its status and its body, which may break off. *)
Definition service := request → option (Z * option string).

(** What the interface [Content] holds: a pointer of the type of the content, or nil or something else. *)
Definition held (o : op) : Type := option (content_of o).

(** One member of the answer; the boolean tells that a member could not be decoded, which [Unmarshal] reports at the
    end. *)
Definition member (o : op) (st : Response * held o * bool) (m : string * json) : Response * held o * bool :=
  let '(r, c, bad) := st in
  let '(k, v) := m in
  let k := ToLower k in
  if k =s? "reject" then
    match v with JBool b => (mkResponse b (RejectReason r) (Unchange r), c, bad) | JNull => st | _ => (r, c, true) end
  else if k =s? "reject_reason" then
    match v with JStr s => (mkResponse (Reject r) s (Unchange r), c, bad) | JNull => st | _ => (r, c, true) end
  else if k =s? "unchange" then
    match v with JBool b => (mkResponse (Reject r) (RejectReason r) b, c, bad) | JNull => st | _ => (r, c, true) end
  else if k =s? "content" then
    match v, c with
    | JNull, _ | _, None => (r, None, bad)
    | _, Some c => match decode o v c with Some c' => (r, Some c', bad) | None => (r, Some c, true) end
    end
  else st.

Definition empty_response : Response := mkResponse false "" false.

Definition Unmarshal (o : op) (body : string) : option (Response * held o) :=
  match parse body with
  | Some (JObj l) =>
      let '(r, c, bad) := foldl (member o) (empty_response, Some (zero o), false) l in if bad then None else Some (r, c)
  | Some JNull => Some (empty_response, Some (zero o))
  | _ => None
  end.

(** [do]; the boolean tells that there was an answer, whose body is closed. *)
Definition do (p : httpPlugin) (svc : service) (reqid : string) (o : op) (c : content_of o) : option (Response * held o) * bool :=
  match marshal o c with
  | None => (None, false)
  | Some body =>
      match svc (mkRequest "POST" (request_url p o) reqid "application/json" body) with
      | None => (None, false)
      | Some (code, text) =>
          ((if negb (code =? 200)%Z then None else match text with None => None | Some t => Unmarshal o t end), true)
      end
  end.

Definition http_Handle (p : httpPlugin) (svc : service) (reqid : string) (o : op) (c : content_of o) : option (Response * held o) :=
  fst (do p svc reqid o c).

(** The operations that plugins may refuse and change: all but the closing of a proxy. *)
Inductive gate := GLogin | GNewProxy | GPing | GNewWorkConn | GNewUserConn.
Definition gate_op (g : gate) : op :=
  match g with
  | GLogin => OpLogin | GNewProxy => OpNewProxy | GPing => OpPing | GNewWorkConn => OpNewWorkConn | GNewUserConn => OpNewUserConn
  end.

(** The loop of [Login], [NewProxy], [Ping], [NewWorkConn] and [NewUserConn] of the manager over services, with the type
    assertion on what [Handle] returned. *)
Inductive outcome (o : op) := Passed (c : content_of o) | Refused (e : plugin_error) | Panics.
Arguments Passed {o} c.
Arguments Refused {o} e.
Arguments Panics {o}.

Fixpoint http_chain (g : gate) (id : string) (l : list (httpPlugin * service)) (c : content_of (gate_op g)) : outcome (gate_op g) :=
  match l with
  | [] => Passed c
  | (p, svc) :: l =>
      match http_Handle p svc id (gate_op g) c with
      | None => Refused (SendError (gate_op g))
      | Some (r, h) =>
          if Reject r then Refused (Rejected (RejectReason r))
          else if Unchange r then http_chain g id l c
          else match h with Some c' => http_chain g id l c' | None => Panics end
      end
  end.

(** [Manager.CloseProxy] over services: all are told, and the names of those that could not be asked are collected; a
    rejection and a content mean nothing. *)
Fixpoint http_CloseProxy (id : string) (l : list (httpPlugin * service)) (c : CloseProxyContent) : list string :=
  match l with
  | [] => []
  | (p, svc) :: l =>
      let errs := http_CloseProxy id l c in
      match http_Handle p svc id OpCloseProxy c with None => ServerConf.hp_Name (hp_options p) :: errs | Some _ => errs end
  end.

(** The services as plugins of the manager of [ServerPlugins], whose answers always have the type of the content. *)
Definition http_plugin (p : httpPlugin) (svc : service) (id : string) : Plugin :=
  mkPlugin (ServerConf.hp_Name (hp_options p)) (ServerConf.hp_Ops (hp_options p))
    (λ o c, (λ x : Response * held o, (fst x, default c (snd x))) <$> http_Handle p svc id o c).

(** Apart from the type assertion the loops are those of the manager. *)
Theorem http_chain_refines g id l c : http_chain g id l c ≠ Panics →
  chain (gate_op g) ((λ x, http_plugin (fst x) (snd x) id) <$> l) c =
  match http_chain g id l c with Passed c' => Ok c' | Refused e => Err e | Panics => Ok c end.
Proof.
  revert c. induction l as [|[p svc] l IH]; intros c; simpl; [done|].
  destruct (http_Handle p svc id (gate_op g) c) as [[r h]|]; simpl; [|done]. destruct (Reject r); [done|].
  destruct (Unchange r); [|destruct h as [c'|]; [|done]]; intros H; simpl; rewrite IH by done; by destruct (http_chain g id l _).
Qed.

Lemma http_CloseProxy_refines m id l c :
  closeProxyPlugins m = (λ x, http_plugin (fst x) (snd x) id) <$> l →
  plugin_CloseProxy m c = match http_CloseProxy id l c with [] => Ok tt | names => Err (CloseErrors names) end.
Proof.
  intros Hl. unfold plugin_CloseProxy. rewrite Hl. clear Hl.
  assert (http_CloseProxy id l c =
    pl_Name <$> filter (λ p, Handle p OpCloseProxy c = None) ((λ x, http_plugin (fst x) (snd x) id) <$> l)) as ->.
  { induction l as [|[p svc] l IH]; [done|]. cbn [http_CloseProxy]. rewrite fmap_cons.
    destruct (http_Handle p svc id OpCloseProxy c) as [[r h]|] eqn:E.
    - rewrite filter_cons_False; [apply IH|]. simpl. by rewrite E.
    - rewrite filter_cons_True; [|simpl; by rewrite E]. rewrite fmap_cons. simpl. by f_equal. }
  by destruct (filter _ _).
Qed.

(** *** Failing closed *)

(** What a service answers to the content [a] for the operation to go on, and the content it goes on with. *)
Definition accepts (p : httpPlugin) (svc : service) (id : string) (g : gate) (a b : content_of (gate_op g)) : Prop :=
  ∃ body t r h, marshal (gate_op g) a = Some body ∧
    svc (mkRequest "POST" (request_url p (gate_op g)) id "application/json" body) = Some (200%Z, Some t) ∧
    Unmarshal (gate_op g) t = Some (r, h) ∧ Reject r = false ∧
    (Unchange r = true ∧ b = a ∨ Unchange r = false ∧ h = Some b).

Lemma Handle_accepts p svc id g a b :
  accepts p svc id g a b ↔
  ∃ r h, http_Handle p svc id (gate_op g) a = Some (r, h) ∧ Reject r = false ∧ (Unchange r = true ∧ b = a ∨ Unchange r = false ∧ h = Some b).
Proof.
  unfold accepts, http_Handle, do. split.
  - intros (body & t & r & h & Hm & Hs & Hu & Hr). exists r, h. split; [|done]. by rewrite Hm, Hs.
  - intros (r & h & Hd & Hr). destruct (marshal (gate_op g) a) as [body|]; [|done].
    destruct (svc _) as [[code text]|] eqn:Es; [|done]. simpl in Hd.
    destruct (Z.eqb_spec code 200) as [->|]; [|done]. destruct text as [t|]; [|done]. simpl in Hd.
    exists body, t, r, h. by rewrite Es.
Qed.

(** The contents between the plugins, first to last. *)
Fixpoint travels (id : string) (g : gate) (l : list (httpPlugin * service)) (a : content_of (gate_op g))
    (cs : list (content_of (gate_op g))) (z : content_of (gate_op g)) : Prop :=
  match l, cs with
  | [], [] => z = a
  | (p, svc) :: l, b :: cs => accepts p svc id g a b ∧ travels id g l b cs z
  | _, _ => False
  end.

Lemma chain_travels g id l c c' : http_chain g id l c = Passed c' ↔ ∃ cs, travels id g l c cs c'.
Proof.
  revert c. induction l as [|[p svc] l IH]; intros c; simpl.
  - split; [intros [= ->]; by exists []|]. by intros [[|??] H]; [rewrite H|].
  - assert ((∃ cs, match cs with [] => False | b :: cs => accepts p svc id g c b ∧ travels id g l b cs c' end) ↔
            ∃ b, accepts p svc id g c b ∧ http_chain g id l b = Passed c') as ->.
    { split; [intros [[|b cs] H]; [done|]; exists b; rewrite IH; naive_solver|].
      intros (b & Ha & [cs Hc]%IH). by exists (b :: cs). }
    setoid_rewrite Handle_accepts. destruct (http_Handle p svc id (gate_op g) c) as [[r h]|].
    2: { split; [done|]. by intros (b & (r0 & h0 & ? & _) & _). }
    destruct (Reject r) eqn:Er; [split; [done|]; intros (b & (r0 & h0 & [= <- <-] & ? & _) & _); congruence|].
    destruct (Unchange r) eqn:Eu; [|destruct h as [c1|]].
    + split; [intros Hc; exists c; split; [exists r, h; auto|done]|].
      intros (b & (r0 & h0 & [= <- <-] & _ & [[_ ->]|[? _]]) & Hc); [done|congruence].
    + split; [intros Hc; exists c1; split; [exists r, (Some c1); auto 10|done]|].
      intros (b & (r0 & h0 & [= <- <-] & _ & [[? _]|[_ [= ->]]]) & Hc); [congruence|done].
    + split; [done|]. intros (b & (r0 & h0 & [= <- <-] & _ & [[? _]|[_ ?]]) & Hc); congruence.
Qed.

Lemma documented_answer_undecoded o t v : parse t = Some (JObj [("unchange", JStr "false"); ("content", v)]) → Unmarshal o t = None.
Proof. intros Hp. unfold Unmarshal. rewrite Hp. simpl. by destruct v; simpl; try destruct (decode o _ (zero o)). Qed.

(** C36: plugins that are HTTP services and that are asked before a login, a new proxy, a ping, a work connection or a
    user's connection.  The operation passes exactly when every service in turn, asked with the text of the content
    as the services before it left it, answers with status 200, a body that is read to its end and decodes, no
    rejection, and either [unchange] or a content, with which the operation then goes on.  So no answer, another
    status, and a body that breaks off or does not decode refuse it.  The answer that the documentation gives for
    changing the content has the string ["false"] for [unchange]: it does not decode, and the operation is
    refused. *)
Theorem plugins_fail_closed g id l c c' :
  (http_chain g id l c = Passed c' ↔ ∃ cs, travels id g l c cs c') ∧
  (∀ p svc l' body t v, l = (p, svc) :: l' → marshal (gate_op g) c = Some body →
     svc (mkRequest "POST" (request_url p (gate_op g)) id "application/json" body) = Some (200%Z, Some t) →
     parse t = Some (JObj [("unchange", JStr "false"); ("content", v)]) →
     http_chain g id l c = Refused (SendError (gate_op g))).
Proof.
  split; [apply chain_travels|]. intros p svc l' body t v -> Hm Hs Hp. cbn [http_chain]. unfold http_Handle, do.
  rewrite Hm, Hs. simpl. by rewrite (documented_answer_undecoded _ _ _ Hp).
Qed.

Section Answer.
Context (p : httpPlugin) (svc : service) (id : string) (g : gate) (c : content_of (gate_op g)) (body t : string).
Hypothesis (Hm : marshal (gate_op g) c = Some body)
  (Hs : svc (mkRequest "POST" (request_url p (gate_op g)) id "application/json" body) = Some (200%Z, Some t)).

Lemma answer_decoded : http_Handle p svc id (gate_op g) c = Unmarshal (gate_op g) t.
Proof. unfold http_Handle, do. by rewrite Hm, Hs. Qed.

(** An answer with no members neither rejects nor says [unchange]: its content, which is empty, takes the place of the
    content that was sent. *)
Theorem empty_answer_clears : parse t = Some (JObj []) → http_chain g id [(p, svc)] c = Passed (zero (gate_op g)).
Proof. intros Hp. simpl. rewrite answer_decoded. unfold Unmarshal. by rewrite Hp. Qed.

(** An answer whose content is [null] leaves nil for the type assertion of the manager. *)
Theorem null_content_panics : parse t = Some (JObj [("content", JNull)]) → http_chain g id [(p, svc)] c = Panics.
Proof. intros Hp. simpl. rewrite answer_decoded. unfold Unmarshal. by rewrite Hp. Qed.
End Answer.
End Do.
Arguments Passed {o} c.
Arguments Refused {o} e.
Arguments Panics {o}.

(** The request goes to a URL with a scheme of HTTP, and certificates go unchecked only where the configuration says so
    and the URL is one of TLS. *)
Lemma http_url_scheme o :
  HasPrefix (hp_url (NewHTTPPluginOptions o)) "http" = true ∧
  (InsecureSkipVerify (hp_client (NewHTTPPluginOptions o)) = true ↔
     ServerConf.hp_TLSVerify o = false ∧ HasPrefix (ServerConf.hp_Addr o +:+ ServerConf.hp_Path o) "https://" = true).
Proof.
  unfold NewHTTPPluginOptions. set (u := ServerConf.hp_Addr o +:+ ServerConf.hp_Path o). simpl.
  destruct (HasPrefix u "https://") eqn:H1; simpl.
  - split; [|destruct (ServerConf.hp_TLSVerify o); naive_solver].
    apply HasPrefix_spec in H1 as [t ->]. reflexivity.
  - split; [|naive_solver]. destruct (HasPrefix u "http://") eqn:H2; simpl; [|reflexivity].
    apply HasPrefix_spec in H2 as [t ->]. reflexivity.
Qed.

Example login_request_url :
  request_url (NewHTTPPluginOptions (ServerConf.mkHTTPPlugin "auth" "127.0.0.1:9000" "/handler" ["Login"] false)) OpLogin
  = "http://127.0.0.1:9000/handler?op=Login&version=0.1.0".
Proof. reflexivity. Qed.

(** A service that replaces the content, and one behind it that keeps it. *)
Definition two_answers (s : string) : option json :=
  if s =s? "keep" then Some (JObj [("Unchange", JBool true)])
  else if s =s? "change" then Some (JObj [("content", JStr "q")]) else None.
Definition names_only (o : op) : json → content_of o → option (content_of o) :=
  match o with
  | OpNewUserConn => λ v c, match v with JStr s => Some (mkNewUserConnContent (uc_User c) s "" "") | _ => None end
  | _ => λ _ c, Some c
  end.
Definition two_plugins : list (httpPlugin * service) :=
  let p := NewHTTPPluginOptions (ServerConf.mkHTTPPlugin "a" "127.0.0.1:9000" "/h" ["NewUserConn"] false) in
  [(p, λ _, Some (200%Z, Some "change")); (p, λ _, Some (200%Z, Some "keep"))].

Lemma plugins_fail_closed_witness :
  let u := mkUserInfo "" ∅ "" in
  let marshal o (c : content_of o) := Some "body" in
  ∃ cs, travels two_answers marshal names_only "id" GNewUserConn two_plugins
    (mkNewUserConnContent u "p" "tcp" "1.1.1.1:5") cs (mkNewUserConnContent u "q" "" "").
Proof. apply (plugins_fail_closed two_answers (λ _ _, Some "body") names_only GNewUserConn "id" two_plugins). reflexivity. Defined.
