(* ===== verification/HttpReplies.v ===== *)
(** Answers the program builds itself: the page of the server for unknown hosts ([src/pkg/util/vhost/resource.go]), the
    answers to CONNECT requests ([src/pkg/util/http/http.go], [src/pkg/plugin/client/http_proxy.go]), the compression
    of files ([src/pkg/util/net/http.go]) and the description of the server in its web API
    ([src/server/http/controller.go]). *)
From Stdlib Require Import ZArith Lia Ascii String.
From stdpp Require Import base gmap strings list.
From S2P Require Import Prelude GoStrings Ports Ranges Metrics CommonConf LegacyConvert.
Local Open Scope string_scope.
Local Open Scope list_scope.

Definition Full : string := "0.68.1-cnfrp.1".

(** ** Answers *)

Record response := mkResp {
  rs_Status : string; rs_StatusCode : Z; rs_Proto : string; rs_Header : list (string * string);
  rs_Body : option string; rs_ContentLength : Z }.

Definition OkResponse : response := mkResp "OK" 200 "HTTP/1.1" [] None 0.

Definition dquote : string := String "034" "".
Definition ProxyUnauthorizedResponse : response :=
  mkResp "Proxy Authentication Required" 407 "HTTP/1.1"
    [("Proxy-Authenticate", "Basic realm=" +:+ dquote +:+ "Restricted" +:+ dquote)] None 0.
Definition getBadResponse : response :=
  mkResp "407 Not authorized" 407 "HTTP/1.1" [("Proxy-Authenticate", "Basic"); ("Connection", "close")] None 0.

(** *** The page of unknown hosts *)

Definition NotFound : string := "<!DOCTYPE html>
<html>
<head>
<title>Not Found</title>
<style>
    body {
        width: 35em;
        margin: 0 auto;
        font-family: Tahoma, Verdana, Arial, sans-serif;
    }
</style>
</head>
<body>
<h1>The page you requested was not found.</h1>
<p>Sorry, the page you are looking for is currently unavailable.<br/>
Please try again later.</p>
<p>The server is powered by <a href=" +:+ dquote +:+ "https://github.com/fatedier/frp" +:+ dquote +:+ ">frp</a>.</p>
<p><em>Faithfully yours, frp.</em></p>
</body>
</html>
".

(** [ReadFile] is read at every request. *)
Definition getNotFoundPageContent (ReadFile : string → option string) (NotFoundPagePath : string) : string :=
  if negb (NotFoundPagePath =s? "") then match ReadFile NotFoundPagePath with Some buf => buf | None => NotFound end
  else NotFound.

Definition NotFoundResponse (ReadFile : string → option string) (NotFoundPagePath : string) : response :=
  let content := getNotFoundPageContent ReadFile NotFoundPagePath in
  mkResp "Not Found" 404 "HTTP/1.1" [("Server", "frp/" +:+ Full); ("Content-Type", "text/html")]
    (Some content) (Z.of_nat (String.length content)).

(** Whatever the state of the file, a request for an unknown host is answered with status 404 and a body of the length
    that is announced; a page that cannot be read is replaced by the built-in one. *)
Lemma NotFoundResponse_spec rf path :
  let r := NotFoundResponse rf path in
  rs_StatusCode r = 404%Z ∧
  (∃ b, rs_Body r = Some b ∧ rs_ContentLength r = Z.of_nat (String.length b)) ∧
  (path = "" ∨ rf path = None → rs_Body r = Some NotFound) ∧
  (∀ b, path ≠ "" → rf path = Some b → rs_Body r = Some b).
Proof.
  unfold NotFoundResponse, getNotFoundPageContent. cbv zeta. cbn [rs_StatusCode rs_Body rs_ContentLength].
  split; [done|]. split; [by eexists|]. destruct (seqb_spec path "") as [->|Hp]; cbn [negb].
  - split; [done|]. by intros b [].
  - split; [intros [?|H]; [done|by rewrite H]|]. intros b _ ->. done.
Qed.

(** *** Compression *)

(** [strings.Contains]. *)
Fixpoint Contains (s sub : string) : bool :=
  HasPrefix s sub || match s with "" => false | String _ s => Contains s sub end.

Section Gzip.
Context (gzip : string → string).

(** What the handler below writes, and what the client gets: the header and the bytes. *)
Definition HTTPGzipWrapper_ServeHTTP (acceptEncoding : string) (h : string) : option string * string :=
  if negb (Contains acceptEncoding "gzip") then (None, h) else (Some "gzip", gzip h).

(** With a compression that can be undone, the client reads what the handler wrote, by the encoding of the header. *)
Lemma gzip_transparent gunzip accept h : (∀ s, gunzip (gzip s) = s) →
  let '(enc, bytes) := HTTPGzipWrapper_ServeHTTP accept h in
  match enc with Some _ => gunzip bytes | None => bytes end = h.
Proof. intros Hg. unfold HTTPGzipWrapper_ServeHTTP. destruct (Contains accept "gzip"); simpl; [apply Hg|done]. Qed.

(** A client that refuses the encoding by its weight gets it nevertheless. *)
Lemma gzip_refused h : fst (HTTPGzipWrapper_ServeHTTP "gzip;q=0" h) = Some "gzip".
Proof. reflexivity. Qed.
End Gzip.

(** ** The description of the server *)

Record ServerInfoResp := mkServerInfo {
  si_Version : string; si_BindPort : Z; si_VhostHTTPPort : Z; si_VhostHTTPSPort : Z; si_TCPMuxHTTPConnectPort : Z;
  si_KCPBindPort : Z; si_QUICBindPort : Z; si_SubdomainHost : string; si_MaxPoolCount : Z; si_MaxPortsPerClient : Z;
  si_HeartBeatTimeout : Z; si_AllowPortsStr : string; si_TLSForce : bool;
  si_TotalTrafficIn : Z; si_TotalTrafficOut : Z; si_CurConns : Z; si_ClientCounts : Z; si_ProxyTypeCounts : gmap string Z }.

Definition triple_range (t : Z * Z * Z) : PortsRange := let '(a, b, c) := t in mkPortsRange a b c.

Section Info.
Context (midnight : time → time).

Definition APIServerInfo (now : time) (c : ServerConf.ServerConfig) (m : ServerStatistics) : option ServerInfoResp * ServerStatistics :=
  let '(st, m) := GetServer midnight now m in
  ((λ s, mkServerInfo Full (ServerConf.sc_BindPort c) (ServerConf.sc_VhostHTTPPort c) (ServerConf.sc_VhostHTTPSPort c)
      (ServerConf.sc_TCPMuxHTTPConnectPort c) (ServerConf.sc_KCPBindPort c) (ServerConf.sc_QUICBindPort c)
      (ServerConf.sc_SubDomainHost c) (ServerConf.st_MaxPoolCount (ServerConf.sc_Transport c)) (ServerConf.sc_MaxPortsPerClient c)
      (ServerConf.st_HeartbeatTimeout (ServerConf.sc_Transport c)) (PortsRangeSlice_String (triple_range <$> ServerConf.sc_AllowPorts c))
      (ServerConf.TLS_Force (ServerConf.sc_Transport c))
      (st_TotalTrafficIn s) (st_TotalTrafficOut s) (st_CurConns s) (st_ClientCounts s) (st_ProxyTypeCounts s)) <$> st, m).

(** The configuration with other secrets: authentication, web server, keys and plugins. *)
Definition with_secrets (a : ServerConf.AuthServerConfig) (w : WebServerConfig) (g : ServerConf.SSHTunnelGateway)
    (t : TLSConfig) (p : list ServerConf.HTTPPluginOptions) (c : ServerConf.ServerConfig) : ServerConf.ServerConfig :=
  let tr := ServerConf.sc_Transport c in
  ServerConf.mkServer a (ServerConf.sc_BindAddr c) (ServerConf.sc_BindPort c) (ServerConf.sc_KCPBindPort c) (ServerConf.sc_QUICBindPort c)
    (ServerConf.sc_ProxyBindAddr c) (ServerConf.sc_VhostHTTPPort c) (ServerConf.sc_VhostHTTPTimeout c) (ServerConf.sc_VhostHTTPSPort c)
    (ServerConf.sc_TCPMuxHTTPConnectPort c) (ServerConf.sc_TCPMuxPassthrough c) (ServerConf.sc_SubDomainHost c)
    (ServerConf.sc_Custom404Page c) g w (ServerConf.sc_EnablePrometheus c) (ServerConf.sc_Log c)
    (ServerConf.mkServerTransport (ServerConf.st_TCPMux tr) (ServerConf.st_TCPMuxKeepaliveInterval tr) (ServerConf.TCPKeepAlive tr)
      (ServerConf.st_MaxPoolCount tr) (ServerConf.st_HeartbeatTimeout tr) (ServerConf.st_QUIC tr) (ServerConf.TLS_Force tr) t)
    (ServerConf.sc_DetailedErrorsToClient c) (ServerConf.sc_MaxPortsPerClient c) (ServerConf.sc_UserConnTimeout c)
    (ServerConf.sc_UDPPacketSize c) (ServerConf.sc_NatHoleAnalysisDataReserveHours c) (ServerConf.sc_AllowPorts c) p.

(** The description is the same whatever the secrets of the configuration are; the ports it names, read back, are those
    that the server allows. *)
Theorem serverinfo_spec now c m r m' : APIServerInfo now c m = (Some r, m') →
  (∀ a w g t p, APIServerInfo now (with_secrets a w g t p c) m = (Some r, m')) ∧
  (ServerConf.sc_AllowPorts c ≠ [] → Forall range_wf (triple_range <$> ServerConf.sc_AllowPorts c) →
     NewPortsRangeSliceFromString (si_AllowPortsStr r) = Ok (triple_range <$> ServerConf.sc_AllowPorts c)) ∧
  dom (ProxyStats_ m') = dom (ProxyStats_ m).
Proof.
  intros H. split; [intros a w g t p; exact H|]. unfold APIServerInfo, GetServer in H.
  destruct (TodayCount midnight now (TotalTrafficIn m)) as [[i|] ci], (TodayCount midnight now (TotalTrafficOut m)) as [[o|] co];
    simplify_eq/=. split; [|done]. intros Hne Hw. rewrite ports_range_roundtrip by done. by destruct (ServerConf.sc_AllowPorts c).
Qed.
End Info.
