(* ===== verification/ConnWrap.v ===== *)
(** The wrappers that carry addresses, deadlines and contexts: [src/pkg/util/net/conn.go] ([ContextConn],
    [WrapReadWriteCloserConn], [wrapQuicStream], [NewCryptoReadWriter]); those that count and notify are in [Streams].

    A connection is a tree of wrappers over sockets.  A wrapper that embeds [net.Conn] passes on the methods of that
    interface, and only those. *)
From Stdlib Require Import ZArith Lia String.
From stdpp Require Import base gmap strings list.
From S2P Require Import Prelude.
Local Open Scope string_scope.
Local Open Scope list_scope.

Inductive conn :=
| Socket (s : nat)                                     (* a connection of the operating system or a library *)
| ContextConn (c : conn) (ctx : string)
| WrapReadWriteCloserConn (rwc : nat) (underConn : option conn) (remoteAddr : option string)
| Embeds (c : conn)                                    (* [CloseNotifyConn], [StatsConn] *)
| wrapQuicStream (stream : nat) (c : option nat).      (* a stream of a QUIC connection *)

Definition NewContextConn (ctx : string) (c : conn) : conn := ContextConn c ctx.
Definition WrapReadWriteCloserToConn (rwc : nat) (under : option conn) : conn := WrapReadWriteCloserConn rwc under None.
Definition QuicStreamToNetConn (s : nat) (c : option nat) : conn := wrapQuicStream s c.

(** ** Contexts *)

(** [WithContext], a method of [ContextConn] alone. *)
Definition WithContext (ctx : string) (c : conn) : conn :=
  match c with ContextConn c _ => ContextConn c ctx | c => c end.

(** [NewContextFromConn]; the type assertion sees the outermost type. *)
Definition NewContextFromConn (c : conn) : string :=
  match c with ContextConn _ ctx => ctx | _ => "background" end.

Section net.
Context (sock_local sock_remote quic_local quic_remote : nat → string).

(** ** Addresses; [None] is the nil address *)

Fixpoint LocalAddr (c : conn) : option string :=
  match c with
  | Socket s => Some (sock_local s)
  | ContextConn c _ | Embeds c => LocalAddr c
  | WrapReadWriteCloserConn _ under _ => match under with Some c => LocalAddr c | None => None end
  | wrapQuicStream _ q => quic_local <$> q
  end.

Fixpoint RemoteAddr (c : conn) : option string :=
  match c with
  | Socket s => Some (sock_remote s)
  | ContextConn c _ | Embeds c => RemoteAddr c
  | WrapReadWriteCloserConn _ under addr =>
      match addr with Some a => Some a | None => match under with Some c => RemoteAddr c | None => None end end
  | wrapQuicStream _ q => quic_remote <$> q
  end.

(** A method of [WrapReadWriteCloserConn] alone. *)
Definition SetRemoteAddr (a : string) (c : conn) : conn :=
  match c with WrapReadWriteCloserConn rwc under _ => WrapReadWriteCloserConn rwc under (Some a) | c => c end.

(** ** Deadlines *)

Record deadlines := mkDl { d_read : option Z; d_write : option Z }.
Inductive timer := TSock (s : nat) | TStream (s : nat).
#[global] Instance timer_eq : EqDecision timer.
Proof. solve_decision. Defined.

(** Deadlines of the sockets and streams; [accepts]: whether setting one succeeds. *)
Context (accepts : timer → bool).
Definition dl_state := timer → deadlines.

Definition upd (t : timer) (f : deadlines → deadlines) (st : dl_state) : dl_state :=
  λ x, if decide (x = t) then f (st x) else st x.

(** [f] is the change of the deadlines of what is at the bottom. *)
Fixpoint set_deadline (f : deadlines → deadlines) (c : conn) (st : dl_state) : bool * dl_state :=
  let at_ x := if accepts x then (true, upd x f st) else (false, st) in
  match c with
  | Socket s => at_ (TSock s)
  | ContextConn c _ | Embeds c => set_deadline f c st
  | WrapReadWriteCloserConn _ under _ => match under with Some c => set_deadline f c st | None => (false, st) end
  | wrapQuicStream s _ => at_ (TStream s)
  end.
Definition SetDeadline (t : Z) := set_deadline (λ _, mkDl (Some t) (Some t)).
Definition SetReadDeadline (t : Z) := set_deadline (λ d, mkDl (Some t) (d_write d)).
Definition SetWriteDeadline (t : Z) := set_deadline (λ d, mkDl (d_read d) (Some t)).

(** What is at the bottom of a connection. *)
Fixpoint bottom (c : conn) : option timer :=
  match c with
  | Socket s => Some (TSock s)
  | ContextConn c _ | Embeds c => bottom c
  | WrapReadWriteCloserConn _ under _ => match under with Some c => bottom c | None => None end
  | wrapQuicStream s _ => Some (TStream s)
  end.

(** The address that was set nearest to the outside. *)
Fixpoint override (c : conn) : option string :=
  match c with
  | ContextConn c _ | Embeds c => override c
  | WrapReadWriteCloserConn _ under addr =>
      match addr with Some a => Some a | None => match under with Some c => override c | None => None end end
  | _ => None
  end.

Fixpoint without_addr (c : conn) : conn :=
  match c with
  | ContextConn c x => ContextConn (without_addr c) x
  | Embeds c => Embeds (without_addr c)
  | WrapReadWriteCloserConn r under _ => WrapReadWriteCloserConn r (match under with Some c => Some (without_addr c) | None => None end) None
  | c => c
  end.

(** Induction that reaches the connection below a wrapped stream. *)
Lemma conn_ind' (P : conn → Prop) :
  (∀ s, P (Socket s)) → (∀ c x, P c → P (ContextConn c x)) → (∀ c, P c → P (Embeds c)) →
  (∀ r a, P (WrapReadWriteCloserConn r None a)) → (∀ r c a, P c → P (WrapReadWriteCloserConn r (Some c) a)) →
  (∀ s q, P (wrapQuicStream s q)) → ∀ c, P c.
Proof.
  intros H1 H2 H3 H4 H5 H6. fix IH 1. intros [s|c x|r [c|] a|c|s q];
    [apply H1|apply H2, IH|apply H5, IH|apply H4|apply H3, IH|apply H6].
Qed.

Lemma set_deadline_bottom f c st :
  set_deadline f c st = match bottom c with
                        | Some x => if accepts x then (true, upd x f st) else (false, st)
                        | None => (false, st)
                        end.
Proof. revert c. refine (conn_ind' _ _ _ _ _ _ _); intros; simpl; auto. Qed.

(** A deadline on a connection, however often wrapped, is one on the socket or stream at its bottom, and on nothing
    else; without one it is an error. *)
Theorem deadlines_reach_bottom t c st :
  match bottom c with
  | None => SetDeadline t c st = (false, st) ∧ SetReadDeadline t c st = (false, st) ∧ SetWriteDeadline t c st = (false, st)
  | Some x =>
      (accepts x = false → SetDeadline t c st = (false, st)) ∧
      (accepts x = true → ∃ st1 st2 st3,
         SetDeadline t c st = (true, st1) ∧ st1 x = mkDl (Some t) (Some t) ∧ (∀ y, y ≠ x → st1 y = st y) ∧
         SetReadDeadline t c st = (true, st2) ∧ SetWriteDeadline t c st2 = (true, st3) ∧ ∀ y, st3 y = st1 y)
  end.
Proof.
  unfold SetDeadline, SetReadDeadline, SetWriteDeadline.
  destruct (bottom c) as [x|] eqn:E; [|by rewrite !set_deadline_bottom, E].
  split; intros Ha; [by rewrite set_deadline_bottom, E, Ha|]. eexists _, _, _.
  split; [by rewrite set_deadline_bottom, E, Ha|]. split; [unfold upd; by rewrite decide_True|].
  split; [intros y Hy; unfold upd; by rewrite decide_False|]. split; [by rewrite set_deadline_bottom, E, Ha|].
  split; [by rewrite set_deadline_bottom, E, Ha|]. intros y. unfold upd. by destruct (decide (y = x)).
Qed.

(** The address a connection shows is the one set nearest to the outside, and else that of the bottom. *)
Theorem RemoteAddr_override c :
  RemoteAddr c = match override c with Some a => Some a | None => RemoteAddr (without_addr c) end.
Proof.
  revert c. refine (conn_ind' _ _ _ _ _ _ _); intros; simpl; try done.
  - by destruct a.
  - destruct a; [done|]. by destruct (override c).
Qed.

(** Setting the remote address changes what is shown, and neither the local address nor where deadlines go. *)
Lemma SetRemoteAddr_spec a rwc under old :
  let c := WrapReadWriteCloserConn rwc under old in
  RemoteAddr (SetRemoteAddr a c) = Some a ∧ LocalAddr (SetRemoteAddr a c) = LocalAddr c ∧ bottom (SetRemoteAddr a c) = bottom c.
Proof. done. Qed.

(** A context is found only while its connection is not wrapped again. *)
Lemma context_outermost ctx c r a :
  NewContextFromConn (NewContextConn ctx c) = ctx ∧
  (∀ x, NewContextFromConn (WithContext x (NewContextConn ctx c)) = x) ∧
  NewContextFromConn (Embeds (NewContextConn ctx c)) = "background" ∧
  NewContextFromConn (WrapReadWriteCloserConn r (Some (NewContextConn ctx c)) a) = "background".
Proof. done. Qed.
End net.

(** ** QUIC streams *)

(** The two halves of a stream. *)
Record stream := mkStream { receiving : bool; sending : bool }.
Definition CancelRead (s : stream) : stream := mkStream false (sending s).
Definition stream_Close (s : stream) : stream := mkStream (receiving s) false.

Definition wrapQuicStream_Close (s : stream) : stream := stream_Close (CancelRead s).

(** Closing ends both halves; [Stream.Close] alone ends the sending one. *)
Lemma wrapQuicStream_Close_both s :
  wrapQuicStream_Close s = mkStream false false ∧ receiving (stream_Close s) = receiving s.
Proof. done. Qed.

(** ** Encryption *)

Section crypto.
Context {RW R W E : Type} (newReader : RW → string → R) (newWriter : RW → string → result E W).

Definition NewCryptoReadWriter (rw : RW) (key : string) : result E (R * W) :=
  let encReader := newReader rw key in
  match newWriter rw key with Err e => Err e | Ok encWriter => Ok (encReader, encWriter) end.

(** Both directions have the one key, and the other side reads with its reader what this side writes. *)
Lemma NewCryptoReadWriter_pair (write : W → string → string) (read : R → string → option string)
    (Hlaw : ∀ rw rw' key w s, newWriter rw key = Ok w → read (newReader rw' key) (write w s) = Some s)
    here there key rh wh rt wt s :
  NewCryptoReadWriter here key = Ok (rh, wh) → NewCryptoReadWriter there key = Ok (rt, wt) →
  read rt (write wh s) = Some s ∧ read rh (write wt s) = Some s.
Proof.
  unfold NewCryptoReadWriter. intros H1 H2.
  destruct (newWriter here key) eqn:E1, (newWriter there key) eqn:E2; simplify_eq. split; by eapply Hlaw.
Qed.
End crypto.
