(* ===== verification/CmdStart.v ===== *)
(** The commands of the client around the service: the root command with a file or a directory, and the start of a
    service ([src/cmd/frpc/sub/root.go]), the table of [frpc status] ([admin.go]), [frpc nathole discover]
    ([nathole.go]), and where the web API finds a configuration ([src/client/config_manager.go]). *)
From Stdlib Require Import ZArith Lia Ascii String.
From stdpp Require Import base gmap strings sorting fin_maps list.
From S2P Require Import Prelude GoStrings ProxyConf CommonConf Nathole MakeHole ConfigSource PluginConf VisitorConf Decode ClientLoad ConfigManager ClientApi.
Local Open Scope string_scope.
Local Open Scope list_scope.

(** ** The root command *)

Inductive line := LVersion | LError (text : string) | LServiceError (path : string).

(** What [WalkDir] finds below the directory: files, directories and entries that could not be read. *)
Inductive entry := EFile (path : string) | EDir | EError.

Definition file_of (e : entry) : option string := match e with EFile p => Some p | _ => None end.

(** [runMultipleClients]: a client for each file; [ends] is the order in which they end.  The function given to
    [WalkDir] never returns an error, so neither does [WalkDir]. *)
Definition runMultipleClients (entries : list entry) (ends : list string → list string) (runClient : string → option string)
    : list string * list line :=
  let files := omap file_of entries in
  (files, omap (λ p, match runClient p with Some _ => Some (LServiceError p) | None => None end) (ends files)).

(** Lines printed and the exit code. *)
Definition root_cmd (showVersion : bool) (cfgDir cfgFile : string) (entries : list entry) (ends : list string → list string)
    (runClient : string → option string) : list line * Z :=
  if showVersion then ([LVersion], 0%Z)
  else if negb (cfgDir =s? "") then (snd (runMultipleClients entries ends runClient), 0%Z)
  else match runClient cfgFile with Some er => ([LError er], 1%Z) | None => ([], 0%Z) end.

(** With a file the exit code tells whether the client failed.  With a directory every file in it has its client, each
    that fails is named once, and the exit code is 0 whatever happened. *)
Theorem root_cmd_spec showVersion cfgDir cfgFile entries ends run :
  (∀ l, ends l ≡ₚ l) →
  let '(out, code) := root_cmd showVersion cfgDir cfgFile entries ends run in
  (code ≠ 0%Z ↔ showVersion = false ∧ cfgDir = "" ∧ is_Some (run cfgFile)) ∧
  (showVersion = false → cfgDir ≠ "" →
     out ≡ₚ LServiceError <$> filter (λ p, is_Some (run p)) (omap file_of entries)).
Proof.
  intros Hends. unfold root_cmd. destruct showVersion; [naive_solver|].
  destruct (seqb_spec cfgDir "") as [->|Hd]; simpl.
  - destruct (run cfgFile) eqn:E; split; naive_solver.
  - split; [naive_solver|]. intros _ _. rewrite (Hends (omap file_of entries)).
    generalize (omap file_of entries). intros l. induction l as [|p l IH]; [done|]. rewrite filter_cons. simpl.
    destruct (run p) eqn:E; [rewrite decide_True by (by eexists); simpl; by rewrite IH|].
    rewrite decide_False by (intros [x Hx]; congruence). exact IH.
Qed.

(** ** The start of a service *)

Inductive log_line := LogStart (file : string) | LogStopped (file : string).

(** [NewService] and [Run] are outcomes: an error text, or none. The boolean tells whether a signal is handled, which
    closes the service gracefully. *)
Definition startServiceWithAggregator {S : Type} (protocol cfgFile : string) (NewService : result string S) (Run : S → option string)
    : option string * list log_line * bool :=
  let named l := if cfgFile =s? "" then [] else [l cfgFile] in
  match NewService with
  | Err er => (Some er, named LogStart ++ named LogStopped, false)
  | Ok svr => (Run svr, named LogStart ++ named LogStopped, (protocol =s? "kcp") || (protocol =s? "quic"))
  end.

(** The end is logged on every path; a signal is waited for only by a service that was made, over kcp or quic. *)
Lemma startService_spec {S} protocol cfgFile (n : result string S) run er log sig :
  startServiceWithAggregator protocol cfgFile n run = (er, log, sig) →
  (cfgFile ≠ "" → log = [LogStart cfgFile; LogStopped cfgFile]) ∧
  (er = None ↔ ∃ s, n = Ok s ∧ run s = None) ∧
  (sig = true ↔ is_ok n = true ∧ (protocol = "kcp" ∨ protocol = "quic")).
Proof.
  unfold startServiceWithAggregator. destruct n as [s|x]; intros [= <- <- <-].
  - split; [intros Hf; by rewrite (proj2 (seqb_false _ _) Hf)|]. split; [naive_solver|].
    rewrite orb_true_iff, !seqb_true. simpl. naive_solver.
  - split; [intros Hf; by rewrite (proj2 (seqb_false _ _) Hf)|]. naive_solver.
Qed.

(** ** [frpc status] *)

Definition proxyTypes : list string := ["tcp"; "udp"; "tcpmux"; "http"; "https"; "stcp"; "sudp"; "xtcp"].

Record row := mkRow { r_Name : string; r_Status : string; r_LocalAddr : string; r_Plugin : string; r_RemoteAddr : string; r_Error : string }.
Definition row_of (s : ProxyStatusResp) : row :=
  mkRow (sr_Name s) (sr_Status s) (sr_LocalAddr s) (sr_Plugin s) (sr_RemoteAddr s) (sr_Err s).

(** The tables, each under its heading; no table for a type without proxies. *)
Definition StatusHandler (res : gmap string (list ProxyStatusResp)) : list (string * list row) :=
  omap (λ typ, match default [] (res !! typ) with [] => None | arrs => Some (typ, row_of <$> arrs) end) proxyTypes.

Section status.
Context {bytes : Type}.

Lemma filter_none {A} (P : A → Prop) `{∀ x, Decision (P x)} (l : list A) : (∀ x, x ∈ l → ¬ P x) → filter P l = [].
Proof.
  induction l as [|x l IH]; intros H1; [done|]. rewrite filter_cons, decide_False by (apply H1; by left).
  apply IH. intros y Hy. apply H1. by right.
Qed.
Lemma filter_every {A} (P : A → Prop) `{∀ x, Decision (P x)} (l : list A) : (∀ x, x ∈ l → P x) → filter P l = l.
Proof.
  induction l as [|x l IH]; intros H1; [done|]. rewrite filter_cons, decide_True by (apply H1; by left).
  f_equal. apply IH. intros y Hy. apply H1. by right.
Qed.

(** What the tables hold of a list of types. *)
Lemma tables_rows (addr : string) (m : mgr (bytes := bytes)) (ps : list WorkingStatus) ts : NoDup ts →
  (omap (λ typ, match default [] (Status addr m ps !! typ) with [] => None | arrs => Some (typ, row_of <$> arrs) end) ts ≫= snd)
  ≡ₚ row_of <$> filter (λ r, sr_Type r ∈ ts) (buildProxyStatusResp addr m <$> ps).
Proof.
  induction 1 as [|t ts Ht Hnd IH]; simpl.
  - rewrite filter_none; [done|]. intros r _ Hr. by apply not_elem_of_nil in Hr.
  - assert (filter (λ r, sr_Type r ∈ t :: ts) (buildProxyStatusResp addr m <$> ps) ≡ₚ
      filter (λ r, sr_Type r = t) (buildProxyStatusResp addr m <$> ps) ++ filter (λ r, sr_Type r ∈ ts) (buildProxyStatusResp addr m <$> ps)) as ->.
    { generalize (buildProxyStatusResp addr m <$> ps). intros l. induction l as [|r l IHl]; [done|]. rewrite !filter_cons.
      destruct (decide (sr_Type r = t)) as [E|E].
      - rewrite decide_True by (rewrite elem_of_cons; by left). rewrite decide_False by (by rewrite E). simpl. by rewrite IHl.
      - destruct (decide (sr_Type r ∈ ts)) as [E'|E'].
        + rewrite decide_True by (by right). rewrite IHl. apply Permutation_middle.
        + rewrite decide_False by (rewrite elem_of_cons; naive_solver). exact IHl. }
    rewrite fmap_app, <- IH. pose proof (Status_spec addr m ps t) as Hs.
    destruct (Status addr m ps !! t) as [l|]; simpl.
    + destruct Hs as (_ & Hp & Hne). destruct l as [|x l]; [done|]. simpl. rewrite <- Hp. done.
    + rewrite (filter_none (λ r, sr_Type r = t)); [done|].
      intros r (w & -> & Hw)%list_elem_of_fmap. by apply Hs.
Qed.

(** The command shows every proxy of the client exactly once, under the heading of its type. *)
Theorem status_shows_all addr (m : mgr (bytes := bytes)) ps : Forall (λ w, ws_Type w ∈ proxyTypes) ps →
  (StatusHandler (Status addr m ps) ≫= snd) ≡ₚ row_of ∘ buildProxyStatusResp addr m <$> ps.
Proof.
  intros Hall. unfold StatusHandler. rewrite tables_rows by (by vm_compute; repeat constructor; set_solver).
  rewrite list_fmap_compose. apply fmap_Permutation. rewrite filter_every; [done|].
  intros r (w & -> & Hw)%list_elem_of_fmap. simpl. by apply (proj1 (Forall_forall _ _) Hall).
Qed.
End status.

(** ** [frpc nathole discover] *)

Inductive discover_error := NoSTUNServer | DiscoverFails | TooFewAddresses | ClassifyFails.
Record report := mkReport { rp_stun : string; rp_type : NatType_; rp_behavior : Behavior_; rp_addrs : list string; rp_public : bool }.

Definition validateForNatHoleDiscovery (stun : string) : bool := negb (stun =s? "").

(** [loaded] is the server of the configuration, if it could be read; [Discover] asks a server. *)
Definition discover_cmd (loaded : option ClientCommonConfig) (env : string) (flag : string) (Discover : string → option (list string))
    (all : option (list ip_info)) : result discover_error report :=
  let cfg := default (client_Complete env zero_client) loaded in
  let stun := if flag =s? "" then cc_NatHoleSTUNServer cfg else flag in
  if negb (validateForNatHoleDiscovery stun) then Err NoSTUNServer
  else match Discover stun with
       | None => Err DiscoverFails
       | Some addrs =>
           if (length addrs <? 2)%nat then Err TooFewAddresses
           else match ClassifyNATFeature addrs (default [] (ListLocalIPsForNatHole 10 all)) with
                | None => Err ClassifyFails
                | Some f => Ok (mkReport stun (NatType f) (Behavior f) addrs (PublicNetwork f))
                end
       end.

(** The command works without a configuration, since the default names a server; and what it reports for the addresses
    it found is what a proxy or visitor that finds these addresses tells the server. *)
Theorem discover_agrees loaded env flag D all :
  match loaded with Some c => cc_NatHoleSTUNServer c ≠ "" | None => True end →
  discover_cmd loaded env flag D all ≠ Err NoSTUNServer ∧
  ∀ r, discover_cmd loaded env flag D all = Ok r →
    D (rp_stun r) = Some (rp_addrs r) ∧
    ∀ port disable, ∃ p, Prepare (D (rp_stun r)) all (Some port) true disable = Ok p ∧
      p_NatType p = rp_type r ∧ p_Behavior p = rp_behavior r ∧ MakeHole.Addrs p = rp_addrs r.
Proof.
  intros Hl. unfold discover_cmd. set (stun := if flag =s? "" then _ else flag).
  assert (stun ≠ "") as Hs.
  { unfold stun. destruct (seqb_spec flag "") as [_|]; [|done]. by destruct loaded. }
  unfold validateForNatHoleDiscovery. rewrite (proj2 (seqb_false _ _) Hs). simpl. unfold Prepare.
  destruct (D stun) as [addrs|] eqn:Ed; [|done]. destruct (length addrs <? 2)%nat eqn:El; [done|].
  destruct (ClassifyNATFeature addrs _) as [f|] eqn:Ef; [|done]. split; [done|]. intros r [= <-]. simpl.
  split; [done|]. intros port disable. rewrite Ed, El, Ef. simpl. eexists. done.
Qed.

(** ** Where a configuration is found *)

Section find.
Context {bytes : Type}.

(** [GetProxyConfig] and [GetVisitorConfig]: what runs comes before the store; [None] for [running] when there is no
    session. *)
Definition GetProxyConfig (running : option (gmap string proxy_conf)) (m : mgr (bytes := bytes)) (name : string) : option proxy_conf :=
  match run ← running; run !! name with
  | Some c => Some c
  | None => x ← g_store m; GetProxy name (fst x)
  end.
Definition GetVisitorConfig (running : option (gmap string VisitorConfigurer)) (m : mgr (bytes := bytes)) (name : string) : option VisitorConfigurer :=
  match run ← running; run !! name with
  | Some c => Some c
  | None => x ← g_store m; GetVisitor name (fst x)
  end.

(** A configuration that is shown runs, or it waits in the store under its name and no proxy of the name runs. *)
Lemma GetProxyConfig_spec running m name c :
  GetProxyConfig running m name = Some c ↔
  (∃ run, running = Some run ∧ run !! name = Some c) ∨
  (∀ run, running = Some run → run !! name = None) ∧ ∃ x, g_store m = Some x ∧ GetProxy name (fst x) = Some c.
Proof.
  unfold GetProxyConfig. destruct running as [run|]; simpl; [destruct (run !! name) as [d|] eqn:E|];
    destruct (g_store m) as [x|]; naive_solver.
Qed.
End find.
